(* ===== verification/_CoqProject ===== *)
-Q . S2P
Prelude.v
Errors.v
Heap.v
Rlp.v
RlpStream.v
Fullnode.v
Messages.v
Core.v
Prque.v
Backlog.v
CoreSafety.v
Network.v
CoreRun.v
Instances.v
CoreExamples.v
Header.v
Snapshot.v
Engine.v
EngineSnapshot.v
EngineVerify.v
EngineOps.v
EngineMine.v
SmiloPay.v
StateDB.v
StateRevert.v
StateTransition.v
StateLaws.v
EngineExamples.v
StateExamples.v
VmWord.v
Vm.v
VmGas.v
VmContracts.v
VmEVM.v
VmInstr.v
VmInterp.v
VmAnalysis.v
VmWordLaws.v
VmArith.v
VmState.v
VmPrecompiled.v
VmInv.v
VmGasLaws.v
VmOps.v
VmCalls.v
VmStep.v
VmRun.v
VmTables.v
VmLaws.v
VmVault.v
VmTx.v
ChainConfig.v
TxSign.v
StateFinalise.v
Bloom.v
Processor.v
ProcessorLaws.v
VmExamples.v
ProcessorExamples.v
Trie.v
TriePure.v
TrieLaws.v
TrieHash.v
TrieRoot.v
TrieNode.v
TrieCommit.v
TrieProof.v
TrieOps.v
TrieExamples.v
TrieDB.v
TrieDBGC.v
TrieDBRef.v
TrieDBFlush.v
TrieDBCap.v
TrieDBCommit.v
TrieDBTrie.v
TrieDBLaws.v
TrieDBExamples.v
