(* ===== verification/Prelude.v ===== *)
(** * Didux: a verification of the SPoRT node

    Didux (src/src/blockchain/smilobft) is an Ethereum node whose blocks are
    agreed on by a Byzantine fault tolerant protocol, SPoRT.  This library
    models the protocol and the parts of the node that decide what a block
    means: the engine that makes and checks headers, the state database, the
    transactions with their virtual machine, and the tries that commit to the
    state.

    ** How the parts interact

    The consensus core of a node ([Core]) receives requests and messages, and
    tells its backend to broadcast messages and to commit blocks.  The backend
    is the engine ([Engine]): it writes the seals of a quorum in the header of
    a committed block ([Header]), and accepts the blocks of others by those
    seals.  Who may seal is decided by votes in earlier headers ([Snapshot]).
    The processor ([Processor]) applies a block's transactions one after the
    other: it recovers the sender from the signature ([TxSign]) by the rules of
    the chain ([ChainConfig]), pays for the gas ([StateTransition], from
    an allowance that grows with time, [SmiloPay]), and runs the virtual machine
    (the [Vm] files) on the state ([StateDB]); it makes receipts with their
    filters ([Bloom]), and the engine pays its rewards.
    The state is kept in Merkle Patricia tries (the [Trie] files) over a node
    database ([TrieDB]).  Messages, headers and trie nodes are written in RLP
    ([Rlp], [RlpStream]).

    ** How code becomes definitions

    - A Go integer is a [Z], with [u64], [i64] and the like written where the
      source may wrap around; a [big.Int] is a [Z]; a byte slice is a
      [list byte]; an address or a hash is the number it encodes.
    - A struct is a [Record]; a Go map is a [gmap], an association list where
      the order matters.  Where the outcome may depend on the order in which Go
      ranges over a map (the node database), the order is any permutation
      (class [MapOrder] of TrieDB.v).  A pointer that is compared with nil is an [option].
    - A method is a function in the monad [M S] below: it passes the state and
      may panic ([None]): a nil dereference, an index out of range, an explicit
      panic.  Errors are values of [err] (Errors.v).
    - [wp m Q s] says that [m] does not panic from [s] and ends in [Q]: the
      theorems in terms of it show absence of panics and totality together.
    - A loop that is not structural has fuel, and a theorem shows that the fuel
      given is enough.  A panic and the end of the fuel are both [None], so no
      theorem can confuse running out with a result.
    - Definitions have the names of the source; where two Go methods share a
      name the receiver comes first ([so_AddBalance] of a state object,
      [AddBalance] of the database).
    - Code that is not in the repository is a parameter: hashes and signatures
      (class [Crypto] of Messages.v), the curves and the recovery of keys that
      precompiled contracts and transactions use ([PrecompileLib]), signing with a
      key ([Signing]), the ARC and BigCache caches, the disk, the clock, the
      peers.  What is assumed of it is a class of laws or a section hypothesis.
      No hash function is assumed to be injective: where it matters a theorem
      names the collision, or assumes that the encodings at stake have none.
    - Locks, logs, metrics and tracers are dropped.

    ** Consensus (consensus/sport)

    - Rlp.v: encode.go, raw.go and the codecs of go-ethereum/rlp.  RlpStream.v: the
      stream decoder of decode.go, its checks of sizes and nesting and its errors.  It
      accepts exactly the bytes that the encoder writes ([rlp_roundtrip],
      [DecodeBytes_canonical]); its fuel is the number of bytes plus one, for
      every value takes a byte.
    - Fullnode.v: fullnode/*.go and model_fullnode.go.  The sorted set, its
      quorums and thresholds in integers and in float64, the speaker of a round
      ([speaker_rotation]).
    - Messages.v: model_*.go, signature_funcs.go, and message.go,
      message_set.go, roundstate.go, state.go of smilobftcore.  Codecs with
      their round trips; [FromPayload_sender_unchecked] shows that the sender of
      a message is not compared with its signer.
    - Core.v: the handlers of smilobftcore/core*.go, each as a function on
      the struct [core] with the outputs in a trace.  Prque.v models the
      priority queue of the backlog (cookiejar prque, over Heap.v,
      container/heap) and discharges the class that Core.v uses it by.
      Backlog.v: the loops over the queues end, and lose nothing.
    - CoreSafety.v: the invariant of one node.  CoreRun.v: a node
      fed any sequence of events never panics, its view never goes back, if its
      backend always has a last block (without one it panics,
      [startNewRound_nil]).
    - Network.v: nodes with a faulty environment; [agreement_in_view], and
      [committed_has_quorum], which follows a committed block back to the
      events of the execution in which its COMMIT messages arrived ([history],
      [received]).  Agreement is shown within a view (a height and a
      round), and senders are authenticated by assumption.  The last section runs
      the network by evaluation.
    - Header.v: core/types/smilo.go and block.go, the seals.  Snapshot.v:
      backend/snapshot*.go, the votes.  Engine.v,
      EngineOps.v: backend/backend*.go and api*.go.  EngineSnapshot.v: caches do
      not change what a snapshot is.  EngineVerify.v, EngineMine.v: what a verified header guarantees, rewards, and that a block
      prepared, finalized, sealed and committed by the code is accepted by it.

    ** State and transactions (core, core/state)

    - SmiloPay.v: smilopay.go with the [big.Float] arithmetic it uses.
    - StateDB.v: statedb.go, state_object.go, journal.go.  StateRevert.v: a
      snapshot that is reverted brings back every answer of the database.
    - StateTransition.v: state_transition.go and gaspool.go, around any EVM, on
      the databases of the transaction (class [Databases]: the public
      state alone, or the vault state beside it).  StateLaws.v: who pays what.
    - StateFinalise.v: Finalise keeps a state good and leaves nothing to revert.

    ** Blocks (core, core/types, params)

    - ChainConfig.v: params/config.go, the rules of a block, and the check that a
      stored configuration may be replaced.  [CheckCompatible_exact]: the check
      finds the highest block up to which two configurations agree, within
      [height + 3] steps, each of which goes back in the chain; it does not look at
      the 66% block ([SixtySixPercentBlock_unchecked]); with the EIP-155
      check on it can run for ever ([CheckCompatible_diverges]).
    - TxSign.v: core/types/transaction.go and transaction_signing.go.  The wire
      format is read back; the sender of a signed transaction is
      the owner of the key, and a signature for one chain is no use on another
      ([Sender_of_signed]); a chain with id 1 is left out, for there a signed
      transaction is taken for a vault one ([chain_one_is_vault]).
    - Bloom.v: core/types/bloom9.go, and the receipts of receipt.go.  Filters have no
      false negatives.
    - Processor.v: core/state_processor.go, the block context of core/evm.go.
      ProcessorLaws.v: [Process_runs], a block of public transactions is processed
      without a panic and accounted for in its receipts;
      [GetHashFn_correct], the hashes of ancestors, with a fuel of one step for
      each ancestor.

    ** Virtual machine (core/vm)

    - VmWord.v (common/math, common.go), Vm.v (opcodes, stack, memory, contract,
      analysis, the fields of evm.go), VmGas.v (gas.go, gas_table.go,
      memory_table.go), VmContracts.v (contracts.go), VmEVM.v (evm.go),
      VmInstr.v (instructions.go), VmInterp.v (jump_table.go, eips.go,
      interpreter.go) are the definitions, every opcode of every
      fork included.
    - VmAnalysis.v, VmWordLaws.v, VmArith.v: the analysis of jump destinations
      is exact, each arithmetic instruction computes what a reference on integers
      says.
    - VmState.v, VmInv.v, VmPrecompiled.v, VmGasLaws.v, VmOps.v, VmCalls.v,
      VmStep.v, VmRun.v, VmTables.v: the invariants, up to the theorems of
      VmLaws.v and VmTx.v: any code run by a public transaction ends within
      [gas + 1] turns without a panic, leaves a good state, restores the state
      when it fails, and writes nothing in a static call.  The fuel [gas + 1] is
      enough because every turn that does not end the run costs at least
      one unit of gas and a nested call starts with less gas than its caller has.
      They ask of the EVM ([env_ok]) that EWASM is off ([NewEVM] panics otherwise), that there
      is a chain id, and that storage is not priced by EIP-1283; and of the gas that it is
      below 2{^62}.
    - The theorems leave out runs that meet a stale analysis: the source
      caches the analysis of a code under its hash only, so that two codes
      with one hash would share it ([meets_stale]; none exists when the hash is
      injective, [never_meets_stale]).
    - VmVault.v: what goes wrong in vault transactions, for any contract: a static call of a
      public contract that fails panics ([vault_static_call_panics]), and the value of
      a call that fails is not given back ([vault_value_kept]).  The
      guarantees above are for public transactions.  VmExamples.v runs contracts of both kinds.

    ** Tries (trie)

    - Trie.v, TrieNode.v, TrieHash.v, TrieProof.v: encoding.go, trie.go, node.go, hasher.go, proof.go.  TriePure.v: a trie as a value
      and its canonical form.  TrieLaws.v, TrieRoot.v, TrieCommit.v, TrieOps.v: the
      operations implement a finite map, the root hash commits to it, proofs are
      sound and complete.  The fuel [2 * length key + 2] is enough because a step
      consumes a nibble of the key or loads a node, and two loads never follow
      each other.
    - TrieDB.v: database.go.  TrieDBGC.v, TrieDBRef.v,
      TrieDBFlush.v, TrieDBCap.v, TrieDBCommit.v, TrieDBTrie.v, TrieDBLaws.v: the
      flush list and the reference counts; garbage collection and flushing lose
      no node that is still used, also when the disk refuses a write; a
      committed trie survives a restart.  What the callers owe is in [op_pre].  The walks down a trie have its
      height as fuel, the loops over the flush list the number of nodes in it.

    Instances.v, CoreExamples.v, EngineExamples.v, StateExamples.v,
    VmExamples.v, ProcessorExamples.v, TrieExamples.v and TrieDBExamples.v hold the concrete inputs on
    which the theorems are applied.

    ** Not modelled

    - Network, storage and user interfaces: p2p, eth, les, light, rpc, node,
      cmd, console, dashboard, mobile, graphql, ethclient, accounts, signer,
      whisper; the vault is a client of another service.  They are I/O and
      concurrency around the parts above.
    - The block chain and the transaction pool (core/blockchain.go,
      tx_pool.go), the miner: goroutines, locks and storage around the
      operations that are modelled.
    - In the state database: Commit, Copy, proofs and iteration; the tries below it
      are maps there, and the tries of trie are modelled on their own.
    - JSON and the storage formats of transactions and receipts.
    - Blocks with vault transactions are run by evaluation only: their EVM
      can panic (VmVault.v).
    - In RLP, readers other than a byte slice, and reflection: the codecs are
      written for the types used, on decoded items.
    - The other engines (clique, ethash), which a SPoRT chain does not run.
    - Debugging aids: tracers, the runtime package, the integer pool of the
      virtual machine, [verifyIntegrity] of its pool, dumps. *)

From Stdlib Require Import ZArith Lia String.
From Stdlib Require Export Strings.Byte.
From stdpp Require Export base numbers list gmap sets strings option sorting.

#[global] Set Default Proof Using "Type".
#[global] Set Warnings "-clear-no-such-hyp,-register-all".

Declare Scope didux_scope.
Delimit Scope didux_scope with didux.
Open Scope Z_scope.

(** ** Machine integers of the Go source

    A [uint64] (resp. [int64]) is a [Z] kept in range by [u64] (resp. [i64]);
    a [big.Int] is a [Z]. *)

Definition two64 : Z := 18446744073709551616.
Definition two63 : Z := 9223372036854775808.
Definition MaxUint64 : Z := 18446744073709551615.

Definition u64 (z : Z) : Z := z mod two64.
Definition i64 (z : Z) : Z := (z + two63) mod two64 - two63.

(** [big.Int.Uint64], [big.Int.Int64] and [big.Int.Cmp]. *)
Definition big_Uint64 (z : Z) : Z := u64 (Z.abs z).
Definition big_Int64 (z : Z) : Z :=
  let v := i64 (Z.abs z) in if z <? 0 then i64 (- v) else v.
Definition big_Cmp (x y : Z) : Z :=
  match x ?= y with Lt => -1 | Eq => 0 | Gt => 1 end.

(** [math.Ceil (a / b)] for integers [a] and [b > 0]. *)
Definition ceil_div (a b : Z) : Z := - ((- a) / b).

(** Round a natural number to the nearest value with a [p]-bit significand,
    ties to even: the conversion of an integer to a binary floating point
    format with enough exponent range ([p = 24] for [float32]). *)
Definition round_sig (p : Z) (n : Z) : Z :=
  let k := Z.log2 n + 1 - p in
  if k <=? 0 then n else
  let u := 2 ^ k in
  let q := n / u in
  let r := n mod u in
  if 2 * r <? u then q * u
  else if u <? 2 * r then (q + 1) * u
  else if Z.even q then q * u else (q + 1) * u.

Definition float32_of_Z (z : Z) : Z :=
  if z <? 0 then - round_sig 24 (- z) else round_sig 24 z.

Lemma u64_range z : 0 <= u64 z < two64.
Proof. apply Z.mod_pos_bound. done. Qed.

Lemma u64_small z : 0 <= z < two64 → u64 z = z.
Proof. apply Z.mod_small. Qed.

Lemma big_Uint64_small z : 0 <= z < two64 → big_Uint64 z = z.
Proof. intros. unfold big_Uint64. rewrite Z.abs_eq by lia. by apply u64_small. Qed.

Lemma i64_small z : - two63 <= z < two63 → i64 z = z.
Proof. unfold i64, two63, two64. intros. rewrite Z.mod_small; lia. Qed.

Lemma big_Int64_small z : - two63 < z < two63 → big_Int64 z = z.
Proof.
  unfold big_Int64. intros. rewrite (i64_small (Z.abs z)) by (unfold two63 in *; lia).
  case_match; [|lia]. rewrite i64_small; unfold two63 in *; lia.
Qed.

Lemma big_Cmp_lt x y : big_Cmp x y < 0 ↔ x < y.
Proof. unfold big_Cmp. destruct (Z.compare_spec x y); lia. Qed.
Lemma big_Cmp_gt x y : 0 < big_Cmp x y ↔ y < x.
Proof. unfold big_Cmp. destruct (Z.compare_spec x y); lia. Qed.
Lemma big_Cmp_eq x y : big_Cmp x y = 0 ↔ x = y.
Proof. unfold big_Cmp. destruct (Z.compare_spec x y); lia. Qed.

Lemma ceil_div_spec a b : 0 < b → b * (ceil_div a b - 1) < a <= b * ceil_div a b.
Proof. intros. unfold ceil_div. pose proof (Z.mod_pos_bound (- a) b). pose proof (Z.div_mod (- a) b). lia. Qed.

Lemma round_sig_exact p n : 0 < p → 0 <= n < 2 ^ p → round_sig p n = n.
Proof.
  intros Hp [H0 H1]. unfold round_sig. destruct (decide (n = 0)) as [->|].
  - change (Z.log2 0) with 0. case_match; [done|lia].
  - assert (Z.log2 n < p) by (apply Z.log2_lt_pow2; lia).
    case_match; [done|]. lia.
Qed.

(** ** State and panics

    A method of a Go object is a function of the object's state that returns a
    value and the new state; [None] is a run-time panic (a nil dereference, an
    index out of range, an explicit [panic]). *)

Definition M (S A : Type) : Type := S → option (A * S).

Definition mret' {S A} (a : A) : M S A := λ s, Some (a, s).
Definition mbind' {S A B} (m : M S A) (f : A → M S B) : M S B :=
  λ s, match m s with Some (a, s') => f a s' | None => None end.
Definition mget {S} : M S S := λ s, Some (s, s).
Definition mput {S} (s : S) : M S () := λ _, Some ((), s).
Definition mmod {S} (f : S → S) : M S () := λ s, Some ((), f s).
Definition mpanic {S A} : M S A := λ _, None.
(** Dereference of a possibly nil pointer. *)
Definition mderef {S A} (o : option A) : M S A :=
  match o with Some a => mret' a | None => mpanic end.

Notation "'let!' x ':=' m 'in' k" := (mbind' m (λ x, k))
  (at level 10, x pattern, m at level 100, k at level 200,
   format "'[v' 'let!'  x  ':='  m  'in'  '/' k ']'") : didux_scope.
Notation "'do!' m 'in' k" := (mbind' m (λ _, k))
  (at level 10, m at level 100, k at level 200,
   format "'[v' 'do!'  m  'in'  '/' k ']'") : didux_scope.

(** [wp m Q s]: run from [s], [m] does not panic and its value and final
    state satisfy [Q]. *)
Definition wp {S A} (m : M S A) (Q : A → S → Prop) (s : S) : Prop :=
  match m s with Some (a, s') => Q a s' | None => False end.

Section wp.
Context {S : Type}.
Implicit Types s : S.

Lemma wp_ret {A} (a : A) (Q : A → S → Prop) s : Q a s → wp (mret' a) Q s.
Proof. done. Qed.
Lemma wp_bind {A B} (m : M S A) (f : A → M S B) (Q : B → S → Prop) s :
  wp m (λ a, wp (f a) Q) s → wp (mbind' m f) Q s.
Proof. unfold wp, mbind'. by destruct (m s) as [[??]|]. Qed.
Lemma wp_get (Q : S → S → Prop) s : Q s s → wp mget Q s.
Proof. done. Qed.
Lemma wp_mod (f : S → S) (Q : () → S → Prop) s : Q () (f s) → wp (mmod f) Q s.
Proof. done. Qed.
Lemma wp_deref {A} (a : A) (Q : A → S → Prop) s : Q a s → wp (mderef (Some a)) Q s.
Proof. done. Qed.
Lemma wp_wand {A} (m : M S A) (P Q : A → S → Prop) s :
  wp m P s → (∀ a s', P a s' → Q a s') → wp m Q s.
Proof. unfold wp. destruct (m s) as [[??]|]; auto. Qed.
Lemma wp_of_run {A} (m : M S A) (Q : A → S → Prop) s a s' :
  m s = Some (a, s') → Q a s' → wp m Q s.
Proof. unfold wp. by intros ->. Qed.
Lemma wp_run {A} (m : M S A) (Q : A → S → Prop) s a s' :
  wp m Q s → m s = Some (a, s') → Q a s'.
Proof. unfold wp. intros H Hm. by rewrite Hm in H. Qed.
End wp.

Lemma wp_seq {S A B} (m : M S A) (f : A → M S B) (P : A → S → Prop) (Q : B → S → Prop) s :
  wp m P s → (∀ a s', P a s' → wp (f a) Q s') → wp (mbind' m f) Q s.
Proof. intros Hm Hf. apply wp_bind, (wp_wand _ P); auto. Qed.

(** ** What a program leaves alone *)

Definition keeps {S A T} (f : S → T) (m : M S A) : Prop := ∀ s a s', m s = Some (a, s') → f s' = f s.
Section keeps.
Context {S T : Type} (f : S → T).
Lemma keeps_bind {A B} (m : M S A) (k : A → M S B) : keeps f m → (∀ a, keeps f (k a)) → keeps f (mbind' m k).
Proof. intros Hm Hk s b s' Hr. unfold mbind' in Hr. destruct (m s) as [[a s1]|] eqn:H1; [|done]. by rewrite (Hk _ _ _ _ Hr), (Hm _ _ _ H1). Qed.
Lemma keeps_ret {A} (a : A) : keeps f (mret' a).
Proof. by intros s x s' [= <- <-]. Qed.
Lemma keeps_get : keeps f mget.
Proof. by intros s x s' [= <- <-]. Qed.
Lemma keeps_panic {A} : keeps f (mpanic (A := A)).
Proof. done. Qed.
Lemma keeps_deref {A} (o : option A) : keeps f (mderef o).
Proof. intros s x s' Hr. destruct o; [by injection Hr as <- <-|done]. Qed.
Lemma keeps_mod g : (∀ s, f (g s) = f s) → keeps f (mmod g).
Proof. intros Hf s x s' [= <- <-]. apply Hf. Qed.
End keeps.
Create HintDb keeps.
#[export] Hint Resolve keeps_ret keeps_get keeps_panic keeps_deref : keeps.
(** [keeps_tac] follows the structure of a program; its primitives are in the hint database. *)
Ltac keeps_tac := repeat first
  [ solve [eauto with keeps]
  | apply keeps_bind; [|intros ?]
  | by apply keeps_mod
  | case_match ].

(** [wp_steps] runs the reads, writes and binds at the head of a program. *)
Ltac wp_step :=
  lazymatch goal with
  | |- wp (mbind' (mbind' _ _) _) _ _ => apply wp_bind
  | |- wp (mbind' mget _) _ _ => apply wp_bind, wp_get; cbv beta
  | |- wp (mbind' (mmod _) _) _ _ => apply wp_bind, wp_mod; cbv beta
  | |- wp (mbind' (mret' _) _) _ _ => apply wp_bind, wp_ret; cbv beta
  | |- wp (mbind' (mderef (Some _)) _) _ _ => apply wp_bind, wp_deref; cbv beta
  | |- wp (mret' _) _ _ => apply wp_ret; cbv beta
  | |- wp (mderef (Some _)) _ _ => apply wp_deref; cbv beta
  | |- wp (mmod _) _ _ => apply wp_mod; cbv beta
  | |- wp mget _ _ => apply wp_get; cbv beta
  end.
Ltac wp_steps := repeat wp_step.
