(* ===== verification/Errors.v ===== *)
(** * Error values

    The sentinel errors of the modelled packages ([errors.New] values compared
    by identity in the source) as one inductive type: a handler of
    smilobftcore may return an error of the backend unchanged, and callers
    compare it with the sentinels of either package. *)

From S2P Require Import Prelude.

Inductive error : Type :=
  (* consensus/sport/smilobftcore/errors.go *)
  | errInconsistentSubject | errNotFromSpeaker | errIgnored | errFutureMessage
  | errOldMessage | errInvalidMessage | errFailedDecodePreprepare
  | errFailedDecodePrepare | errFailedDecodeCommit
  (* consensus/sport/errors.go *)
  | ErrUnauthorizedAddress | ErrStoppedEngine | ErrStartedEngine
  (* consensus/errors.go *)
  | ErrUnknownAncestor | ErrPrunedAncestor | ErrFutureBlock | ErrInvalidNumber
  | consensus_ErrUnauthorizedAddress | consensus_ErrStoppedEngine
  | consensus_ErrStartedEngine | ErrNotEnoughTransactions
  (* consensus/sport/backend/backend_engine.go *)
  | errInvalidBlockProposal | errInvalidSignature | errUnknownBlock | errUnauthorized
  | errInvalidDifficulty | errInvalidExtraDataFormat | errInvalidMixDigest
  | errInvalidNonce | errInvalidUncleHash | errInvalidTimestamp
  | errInvalidVotingChain | errInvalidVote | errInvalidCommittedSeals
  | errEmptyCommittedSeals | errMismatchTxhashes | errWaitTransactions
  | errDecodeFailed
  (* core/types/smilo.go *)
  | ErrInvalidSportHeaderExtra
  (* errors of the rlp, crypto and database packages, which no caller
     compares with a sentinel *)
  | errRlp | errCrypto | errDb
  (* core/error.go, core/state_transition.go, core/vm/errors.go *)
  | ErrBlacklistedHash
  | ErrGasLimitReached | ErrInsufficientSmiloPay | errInsufficientBalanceForGas
  | ErrNonceTooHigh | ErrNonceTooLow | ErrOutOfGas | ErrInsufficientBalance
  | ErrInvalidGasPrice
  (* core/types/transaction.go, core/types/transaction_signing.go *)
  | ErrInvalidSig | ErrInvalidChainID | errInvalidPublicKey
  (* core/vm/{errors,instructions,jump_table,contracts}.go, and the errors the
     interpreter formats *)
  | ErrCodeStoreOutOfGas | ErrDepth | ErrContractAddressCollision | ErrNoCompatibleInterpreter
  | ErrReadOnlyValueTransfer | ErrReadOnlyMutateOpcode
  | errWriteProtection | errReturnDataOutOfBounds | errExecutionReverted | errMaxCodeSizeExceeded
  | errGasUintOverflow | errBadPairingInput
  | errInvalidOpcode (op : Z) | errStackUnderflow (sLen minStack : Z) | errStackLimit (sLen maxStack : Z)
  | errInvalidJump (op pos : Z) | errUndefinedEip (eip : Z).

#[global] Instance error_eq_dec : EqDecision error.
Proof. solve_decision. Defined.

(** A Go [error] result: [None] is [nil]. *)
Abbreviation err := (option error).

(** A Go [(T, error)] result. *)
Abbreviation result T := (T + error)%type.
