(* ===== verification/Heap.v ===== *)
(** * Go's container/heap

    The heap of the standard library, over any type that implements
    [heap.Interface].  The loops are run with fuel; the theorems show that the
    fuel given is enough, that no index is out of range, and that the element
    popped has the greatest priority.  [hLess i j] holds when the element at [i]
    has the greater priority, as in the queues of this repository. *)

From Stdlib Require Import ZArith Lia.
From S2P Require Import Prelude.
Open Scope didux_scope.

(** [heap.Interface] ([None]: an index out of range). *)
Class HeapInterface (H A : Type) := {
  hLen : H → nat;
  hLess : H → nat → nat → option bool;
  hSwap : H → nat → nat → option H;
  hPush : H → A → option H;
  hPop : H → option (A * H)
}.

Section heap.
Context {H A : Type} `{!HeapInterface H A}.

Fixpoint up (fuel : nat) (h : H) (j : nat) : option H :=
  match fuel with
  | O => None
  | S fuel' =>
      let i := ((j - 1) / 2)%nat in
      if (i =? j)%nat then Some h else
      match hLess h j i with
      | None => None
      | Some false => Some h
      | Some true => match hSwap h i j with None => None | Some h' => up fuel' h' i end
      end
  end.

Fixpoint down (fuel : nat) (h : H) (i n : nat) : option H :=
  match fuel with
  | O => None
  | S fuel' =>
      let j1 := (2 * i + 1)%nat in
      if (n <=? j1)%nat then Some h else
      let j2 := (j1 + 1)%nat in
      match (if (j2 <? n)%nat then hLess h j2 j1 else Some false) with
      | None => None
      | Some gt =>
          let j := if gt then j2 else j1 in
          match hLess h j i with
          | None => None
          | Some false => Some h
          | Some true => match hSwap h i j with None => None | Some h' => down fuel' h' j n end
          end
      end
  end.

Definition heap_Push (h : H) (x : A) : option H :=
  match hPush h x with
  | None => None
  | Some h' => up (hLen h') h' (hLen h' - 1)
  end.

Definition heap_Pop (h : H) : option (A * H) :=
  let n := (hLen h - 1)%nat in
  match hSwap h 0 n with
  | None => None
  | Some h' => match down (S n) h' 0 n with None => None | Some h'' => hPop h'' end
  end.
End heap.

(** ** Sifting, on the priorities alone *)

Definition child (i m : nat) : Prop := m = (2 * i + 1)%nat ∨ m = (2 * i + 2)%nat.
Definition swapped (k : nat → Z) (i j : nat) : nat → Z :=
  λ m, if decide (m = i) then k j else if decide (m = j) then k i else k m.

(** The first [n] priorities are in heap order. *)
Definition ordered (n : nat) (k : nat → Z) : Prop := ∀ i m, child i m → (m < n)%nat → k m <= k i.
(** ... but the element at [j] may be greater than its parent. *)
Record up_inv (n j : nat) (k : nat → Z) : Prop := {
  ui_other i m : child i m → (m < n)%nat → m ≠ j → k m <= k i;
  ui_grand i m : child i j → child j m → (m < n)%nat → k m <= k i
}.
(** ... but the element at [i] may be smaller than its children. *)
Record down_inv (n i : nat) (k : nat → Z) : Prop := {
  di_other p m : child p m → (m < n)%nat → p ≠ i → k m <= k p;
  di_grand p m : child p i → child i m → (m < n)%nat → k m <= k p
}.

Lemma child_parent j : (0 < j)%nat → child ((j - 1) / 2) j.
Proof. intros. unfold child. pose proof (Nat.div_mod_eq (j - 1) 2). pose proof (Nat.mod_upper_bound (j - 1) 2). lia. Qed.
Lemma child_lt i m : child i m → (i < m)%nat.
Proof. unfold child. lia. Qed.
Lemma child_inj i i' m : child i m → child i' m → i = i'.
Proof. unfold child. lia. Qed.

Ltac heap_cases :=
  unfold swapped, child in *; repeat case_decide; subst; try lia.

Lemma up_inv_done n j k i : up_inv n j k → child i j → k j <= k i → ordered n k.
Proof.
  intros [Ho _] Hij Hle i' m Hm Hlt. destruct (decide (m = j)) as [->|]; [|by apply Ho].
  by rewrite (child_inj _ _ _ Hm Hij).
Qed.
Lemma up_inv_swap n j k i : (j < n)%nat → up_inv n j k → child i j → k i < k j → up_inv n i (swapped k i j).
Proof.
  intros Hj [Ho Hg] Hij Hlt. split.
  - intros p m Hm Hn Hne.
    pose proof (Ho p m Hm Hn). pose proof (Hg i m Hij). pose proof (Ho i m). heap_cases.
  - intros p m Hpi Him Hn. pose proof (Ho p i Hpi). pose proof (Ho i m Him Hn). heap_cases.
Qed.

Lemma down_inv_done n i k : down_inv n i k → (∀ m, child i m → (m < n)%nat → k m <= k i) → ordered n k.
Proof. intros [Ho _] Hc p m Hm Hlt. destruct (decide (p = i)) as [->|]; auto. Qed.
Lemma down_inv_swap n i k j : down_inv n i k → child i j → (j < n)%nat → k i < k j →
  (∀ m, child i m → (m < n)%nat → k m <= k j) → down_inv n j (swapped k i j).
Proof.
  intros [Ho Hg] Hij Hj Hlt Hmax. split.
  - intros p m Hm Hn Hne. pose proof (Ho p m Hm Hn). pose proof (Hmax m). pose proof (Hg p j).
    pose proof (child_inj p i j). heap_cases.
    all: try (apply Hg; unfold child; lia). all: try (apply Hmax; lia).
  - intros p m Hpj Hjm Hn. assert (p = i) as -> by (eapply child_inj; eauto).
    pose proof (Ho j m Hjm Hn). heap_cases.
Qed.

(** ** Exchanging two elements of a list *)

Definition list_swap {A} (l : list A) (i j : nat) : list A :=
  match l !! i, l !! j with
  | Some x, Some y => <[i := y]> (<[j := x]> l)
  | _, _ => l
  end.

Section swap.
Context {A : Type}.
Implicit Types l : list A.

Lemma list_swap_lookup l i j m : (i < length l)%nat → (j < length l)%nat →
  list_swap l i j !! m = if decide (m = i) then l !! j else if decide (m = j) then l !! i else l !! m.
Proof.
  intros Hi Hj. unfold list_swap.
  destruct (lookup_lt_is_Some_2 l i Hi) as [x Hx], (lookup_lt_is_Some_2 l j Hj) as [y Hy].
  rewrite Hx, Hy. repeat case_decide; subst.
  - rewrite list_lookup_insert_eq; [done|]. by rewrite length_insert.
  - rewrite list_lookup_insert_ne, list_lookup_insert_eq by done. done.
  - by rewrite !list_lookup_insert_ne by done.
Qed.
Lemma length_list_swap l i j : length (list_swap l i j) = length l.
Proof. unfold list_swap. repeat case_match; by rewrite ?length_insert. Qed.
Lemma list_swap_perm l i j : (i < length l)%nat → (j < length l)%nat → list_swap l i j ≡ₚ l.
Proof.
  intros Hi Hj. apply Permutation_inj. split; [apply length_list_swap|].
  exists (λ m, if decide (m = i) then j else if decide (m = j) then i else m). split.
  - intros m m'. repeat case_decide; congruence.
  - intros m. rewrite list_swap_lookup by done. by repeat case_decide.
Qed.
Lemma list_swap_drop l i j n : (i < n)%nat → (j < n)%nat → (n <= length l)%nat →
  drop n (list_swap l i j) = drop n l.
Proof.
  intros Hi Hj Hn. apply list_eq. intros m. rewrite !lookup_drop, list_swap_lookup by lia.
  repeat case_decide; [lia|lia|done].
Qed.
(** Exchanging two of the first [n] elements permutes those and keeps the rest. *)
Lemma list_swap_parts l i j n : (i < n)%nat → (j < n)%nat → (n <= length l)%nat →
  take n (list_swap l i j) ≡ₚ take n l ∧ drop n (list_swap l i j) = drop n l.
Proof.
  intros Hi Hj Hn. pose proof (list_swap_drop l i j n Hi Hj Hn) as Hd. split; [|done].
  apply (Permutation_app_inv_r (drop n l)). rewrite <-Hd at 1. rewrite !take_drop.
  apply list_swap_perm; lia.
Qed.
Lemma list_swap_last l n x : length l = S n → l !! 0%nat = Some x →
  ∃ l1, list_swap l 0 n = l1 ++ [x] ∧ length l1 = n.
Proof.
  intros Hl Hx. exists (take n (list_swap l 0 n)). rewrite length_take, length_list_swap. split; [|lia].
  rewrite <-(take_drop n (list_swap l 0 n)) at 1. f_equal.
  assert (list_swap l 0 n !! n = Some x) as Hlast.
  { rewrite list_swap_lookup by lia. repeat case_decide; [by subst|done|done]. }
  rewrite (drop_S _ _ _ Hlast). f_equal. apply drop_ge. rewrite length_list_swap. lia.
Qed.
End swap.

(** ** What the heap relies on *)

Class HeapLaws (H A : Type) `{HeapInterface H A} (prio : A → Z) := {
  contents : H → list A;
  h_wf : H → Prop;
  Len_contents h : h_wf h → hLen h = length (contents h);
  Less_contents h i j x y : h_wf h → contents h !! i = Some x → contents h !! j = Some y →
    hLess h i j = Some (bool_decide (prio y < prio x));
  Swap_contents h i j : h_wf h → (i < length (contents h))%nat → (j < length (contents h))%nat →
    ∃ h', hSwap h i j = Some h' ∧ h_wf h' ∧ contents h' = list_swap (contents h) i j;
  hPush_contents h x : h_wf h → ∃ h', hPush h x = Some h' ∧ h_wf h' ∧ contents h' = contents h ++ [x];
  hPop_contents h l x : h_wf h → contents h = l ++ [x] →
    ∃ h', hPop h = Some (x, h') ∧ h_wf h' ∧ contents h' = l
}.

Section correct.
Context {H A : Type} `{!HeapInterface H A} (prio : A → Z) `{!HeapLaws H A prio}.
Implicit Types (h : H) (l : list A).
#[local] Set Default Proof Using "Type*".

(** The priority at an index. *)
Definition key l (i : nat) : Z := match l !! i with Some x => prio x | None => 0 end.

Lemma key_swap l i j m : (i < length l)%nat → (j < length l)%nat →
  key (list_swap l i j) m = swapped (key l) i j m.
Proof. intros. unfold key, swapped. rewrite list_swap_lookup by done. by repeat case_decide. Qed.
Lemma Less_key h i j : h_wf h → (i < length (contents h))%nat → (j < length (contents h))%nat →
  hLess h i j = Some (bool_decide (key (contents h) j < key (contents h) i)).
Proof.
  intros Hwf Hi Hj. destruct (lookup_lt_is_Some_2 _ _ Hi) as [x Hx], (lookup_lt_is_Some_2 _ _ Hj) as [y Hy].
  rewrite (Less_contents h i j x y) by done. unfold key. by rewrite Hx, Hy.
Qed.

Lemma ordered_ext n k k' : (∀ m, (m < n)%nat → k m = k' m) → ordered n k → ordered n k'.
Proof.
  intros Hk Ho i m Hc Hm. pose proof (child_lt _ _ Hc). rewrite <-!Hk by lia. by apply Ho.
Qed.
Lemma up_inv_ext n j k k' : (∀ m, k m = k' m) → up_inv n j k → up_inv n j k'.
Proof. intros Hk [Ho Hg]. split; intros; rewrite <-!Hk; eauto. Qed.
Lemma down_inv_ext n j k k' : (∀ m, k m = k' m) → down_inv n j k → down_inv n j k'.
Proof. intros Hk [Ho Hg]. split; intros; rewrite <-!Hk; eauto. Qed.

Lemma up_correct fuel h j n : h_wf h → length (contents h) = n → (j < n)%nat → (j < fuel)%nat →
  up_inv n j (key (contents h)) →
  ∃ h', up fuel h j = Some h' ∧ h_wf h' ∧ contents h' ≡ₚ contents h ∧ ordered n (key (contents h')).
Proof.
  revert h j. induction fuel as [|fuel IH]; intros h j Hwf Hn Hj Hf Hinv; [lia|]. cbn [up].
  set (i := ((j - 1) / 2)%nat). destruct (Nat.eqb_spec i j) as [Hij|Hij].
  { exists h. split_and!; [done..|]. intros p m Hc Hm. apply (ui_other _ _ _ Hinv); [done..|].
    intros ->. destruct (decide (0 < j)%nat) as [Hpos|]; [|by apply child_lt in Hc; lia].
    pose proof (child_lt _ _ (child_parent j Hpos)). unfold i in Hij. lia. }
  assert (0 < j)%nat as Hpos by (apply Nat.neq_0_lt_0; intros Hz; apply Hij; unfold i; by rewrite Hz).
  pose proof (child_parent j Hpos) as Hc. fold i in Hc. pose proof (child_lt _ _ Hc).
  rewrite Less_key by (done || lia). case_bool_decide as Hlt.
  - destruct (Swap_contents h i j) as (h' & -> & Hwf' & Hct); [done|lia..|].
    destruct (IH h' i) as (h'' & -> & Hwf'' & Hp & Ho).
    + done.
    + by rewrite Hct, length_list_swap.
    + lia.
    + lia.
    + rewrite Hct. eapply up_inv_ext; [intros m; symmetry; apply key_swap; lia|]. by apply up_inv_swap.
    + exists h''. split_and!; [done..| |done]. rewrite Hp, Hct. apply list_swap_perm; lia.
  - exists h. split_and!; [done..|]. eapply up_inv_done; [done|exact Hc|lia].
Qed.

Lemma down_correct fuel h i n : h_wf h → (n <= length (contents h))%nat → (n - i < fuel)%nat →
  down_inv n i (key (contents h)) →
  ∃ h', down fuel h i n = Some h' ∧ h_wf h' ∧ length (contents h') = length (contents h) ∧
    take n (contents h') ≡ₚ take n (contents h) ∧ drop n (contents h') = drop n (contents h) ∧
    ordered n (key (contents h')).
Proof.
  revert h i. induction fuel as [|fuel IH]; intros h i Hwf Hn Hf Hinv.
  { lia. }
  cbn [down]. destruct (Nat.leb_spec n (2 * i + 1)) as [Hout|Hin].
  { exists h. split_and!; [done..|]. apply down_inv_done with i; [done|]. unfold child. lia. }
  (* the greater of the two children *)
  assert (∃ gt, (if (2 * i + 1 + 1 <? n)%nat then hLess h (2 * i + 1 + 1) (2 * i + 1) else Some false) = Some gt ∧
    let j := if gt then (2 * i + 1 + 1)%nat else (2 * i + 1)%nat in
    child i j ∧ (j < n)%nat ∧
    ∀ m, child i m → (m < n)%nat → key (contents h) m <= key (contents h) j) as (gt & -> & Hc & Hj & Hmax).
  { destruct (Nat.ltb_spec (2 * i + 1 + 1) n) as [Hr|Hr].
    - rewrite Less_key by (done || lia). eexists. split; [done|]. unfold child.
      case_bool_decide as Hk; cbv iota zeta; (split_and!; [lia|lia|]).
      all: intros m [->| ->] Hm; replace (2 * i + 2)%nat with (2 * i + 1 + 1)%nat by lia; lia.
    - exists false. unfold child. split_and!; [done|lia|lia|]. intros m [->| ->] Hm; lia. }
  set (j := if gt then _ else _) in *. pose proof (child_lt _ _ Hc).
  rewrite Less_key by (done || lia). case_bool_decide as Hlt.
  - destruct (Swap_contents h i j) as (h' & -> & Hwf' & Hct); [done|lia..|].
    destruct (IH h' j) as (h'' & -> & Hwf'' & Hl & Hp & Hd & Ho).
    + done.
    + rewrite Hct, length_list_swap. lia.
    + lia.
    + rewrite Hct. eapply down_inv_ext; [intros m; symmetry; apply key_swap; lia|]. by apply down_inv_swap.
    + exists h''. rewrite Hct in *. rewrite length_list_swap in Hl.
      destruct (list_swap_parts (contents h) i j n) as [Htk Hdr]; [lia..|].
      split_and!; [done|done|done|by rewrite Hp|by rewrite Hd|done].
  - exists h. split_and!; [done..|]. apply down_inv_done with i; [done|].
    intros m Hm Hmn. specialize (Hmax m Hm Hmn). lia.
Qed.

(** The root of a heap has the greatest priority. *)
Lemma ordered_root n k m : ordered n k → (m < n)%nat → k m <= k 0%nat.
Proof.
  intros Ho. induction m as [m IH] using lt_wf_ind. intros Hm. destruct (decide (m = 0%nat)) as [->|]; [lia|].
  pose proof (child_parent m ltac:(lia)) as Hc. pose proof (child_lt _ _ Hc) as Hlt.
  specialize (IH _ Hlt ltac:(lia)). specialize (Ho _ _ Hc Hm). lia.
Qed.

(** ** The two operations *)

Definition is_heap h : Prop := h_wf h ∧ ordered (length (contents h)) (key (contents h)).

Lemma heap_Push_correct h x : is_heap h →
  ∃ h', heap_Push h x = Some h' ∧ is_heap h' ∧ contents h' ≡ₚ x :: contents h.
Proof.
  intros [Hwf Ho]. unfold heap_Push. destruct (hPush_contents h x Hwf) as (h1 & -> & Hwf1 & Hc1).
  rewrite Len_contents by done.
  assert (length (contents h1) = S (length (contents h))) as Hl by (rewrite Hc1, length_app; simpl; lia).
  destruct (up_correct (length (contents h1)) h1 (length (contents h1) - 1) (length (contents h1)))
    as (h2 & -> & Hwf2 & Hp & Ho2); [done|done|lia|lia| |].
  - assert (∀ m, (m < length (contents h))%nat → key (contents h) m = key (contents h1) m) as Hk.
    { intros m Hm. unfold key. by rewrite Hc1, lookup_app_l. }
    split.
    + intros i m Hc Hm Hne. pose proof (child_lt _ _ Hc). rewrite <-!Hk by lia. apply Ho; [done|lia].
    + intros i m Hi Hm Hlt. apply child_lt in Hm. lia.
  - exists h2. split_and!; [done| |].
    + split; [done|]. by rewrite (Permutation_length Hp).
    + rewrite Hp, Hc1. apply Permutation_app_comm.
Qed.

Lemma heap_Pop_correct h : is_heap h → contents h ≠ [] →
  ∃ x h', heap_Pop h = Some (x, h') ∧ is_heap h' ∧ contents h ≡ₚ x :: contents h' ∧
    Forall (λ y, prio y <= prio x) (contents h').
Proof.
  intros [Hwf Ho] Hne. unfold heap_Pop. rewrite Len_contents by done.
  remember (contents h) as l eqn:Hlh. set (n := (length l - 1)%nat).
  assert (length l = S n) as Hl by (destruct l; [done|simpl in *; lia]).
  destruct (lookup_lt_is_Some_2 l 0 ltac:(lia)) as [x Hx].
  destruct (Swap_contents h 0 n) as (h1 & -> & Hwf1 & Hc1); rewrite <-?Hlh in *; [done|lia..|].
  destruct (list_swap_last l n x Hl Hx) as (l1 & Hl1 & Hln). rewrite Hl1 in Hc1.
  destruct (down_correct (S n) h1 0 n) as (h2 & -> & Hwf2 & Hlen & Hp & Hd & Ho2); [done|..].
  { rewrite Hc1, length_app. simpl. lia. }
  { lia. }
  { split.
    - intros p m Hc Hm Hp. pose proof (child_lt _ _ Hc). rewrite Hc1, <-Hl1, !key_swap by lia.
      specialize (Ho p m Hc ltac:(lia)). unfold swapped. repeat case_decide; lia.
    - intros p m Hc. apply child_lt in Hc. lia. }
  rewrite Hc1, drop_app_length' in Hd by done. rewrite Hc1, take_app_length' in Hp by done.
  assert (contents h2 = take n (contents h2) ++ [x]) as Hc2 by (rewrite <-Hd; by rewrite take_drop).
  destruct (hPop_contents h2 _ x Hwf2 Hc2) as (h3 & -> & Hwf3 & Hc3). exists x, h3.
  assert (length (contents h3) = n) as Hl3 by (rewrite Hc3, (Permutation_length Hp); done).
  assert (l ≡ₚ x :: contents h3) as Hperm.
  { rewrite <-(list_swap_perm l 0 n) by lia. rewrite Hl1, Hc3, Hp. apply Permutation_app_comm. }
  split_and!; [done| |done|].
  - split; [done|]. rewrite Hl3. eapply ordered_ext; [|exact Ho2]. intros m Hm. unfold key.
    rewrite Hc3, lookup_take_lt by lia. done.
  - apply Forall_forall. intros y Hy. assert (y ∈ l) as [m Hm]%list_elem_of_lookup
      by (rewrite Hperm; by right).
    pose proof (ordered_root _ _ m Ho (lookup_lt_Some _ _ _ Hm)) as Hroot.
    unfold key in Hroot. by rewrite Hm, Hx in Hroot.
Qed.
End correct.
