(* ===== verification/Rlp.v ===== *)
(** * RLP: the vendored package go-ethereum/rlp

    The wire format of every consensus message.  An [item] is a value of the
    format (a byte string or a list); [encode] writes it the way encode.go
    does ([puthead], [encodeString], list headers), [readKind]/[Split] read
    one value back the way raw.go does, with the canonicity checks, and
    [DecodeBytes] requires exactly one value with no trailing bytes.  The
    typed encoders and decoders of the Go types the consensus uses (unsigned
    integers, [big.Int], byte slices, byte arrays) follow, each with its
    round trip. *)

From Stdlib Require Import ZArith Lia.
From S2P Require Import Prelude.

Abbreviation bytes := (list byte).

#[export] Instance byte_eq_dec' : EqDecision byte := Byte.byte_eq_dec.

Definition byte_Z (b : byte) : Z := Z.of_N (Byte.to_N b).
Definition Z_byte (z : Z) : byte :=
  match Byte.of_N (Z.to_N (z mod 256)) with Some b => b | None => x00 end.

(** ** Big-endian integers *)

(** [n] bytes, most significant first. *)
Fixpoint be_fix (n : nat) (z : Z) : bytes :=
  match n with
  | O => []
  | S n' => be_fix n' (z / 256) ++ [Z_byte z]
  end.

Definition be_val (b : bytes) : Z := foldl (λ acc x, acc * 256 + byte_Z x) 0 b.

(** [intsize], the number of bytes [putint] writes (none for zero). *)
Definition intsize (z : Z) : nat := if z <=? 0 then 0%nat else S (Z.to_nat (Z.log2 z / 8)).
Definition putint (z : Z) : bytes := be_fix (intsize z) z.

(** ** Values and their encoding *)

Inductive item : Type :=
  | Str (b : bytes)
  | Lst (l : list item).

Definition blen (b : bytes) : Z := Z.of_nat (length b).

Definition puthead (smalltag largetag : Z) (size : Z) : bytes :=
  if size <? 56 then [Z_byte (smalltag + size)]
  else let s := putint size in Z_byte (largetag + blen s) :: s.

Definition encodeString (b : bytes) : bytes :=
  match b with
  | [x] => if byte_Z x <=? 127 then [x] else puthead 128 183 1 ++ b
  | _ => puthead 128 183 (blen b) ++ b
  end.

Fixpoint encode (i : item) : bytes :=
  match i with
  | Str b => encodeString b
  | Lst l => let body := concat (map encode l) in puthead 192 247 (blen body) ++ body
  end.

Definition encode_list (l : list item) : bytes := concat (map encode l).

(** A Go slice has fewer than [2^63] bytes. *)
Definition EncodeToBytes (i : item) : option bytes :=
  let b := encode i in if blen b <? two63 then Some b else None.

(** ** Decoding *)

Inductive Kind := KByte | KString | KList.

Definition readSize (b : bytes) (slen : nat) : option Z :=
  if (length b <? slen)%nat then None else
  let s := be_val (take slen b) in
  if (s <? 56) || (match b with x :: _ => byte_Z x =? 0 | [] => true end) then None else Some s.

(** The kind, the size of the tag and the size of the content. *)
Definition readKind (buf : bytes) : option (Kind * Z * Z) :=
  match buf with
  | [] => None
  | x :: tl =>
      let b := byte_Z x in
      let r :=
        if b <? 128 then Some (KByte, 0, 1)
        else if b <? 184 then
          let cs := b - 128 in
          if (cs =? 1) && (match tl with y :: _ => byte_Z y <? 128 | [] => false end) then None
          else Some (KString, 1, cs)
        else if b <? 192 then
          (λ cs, (KString, b - 183 + 1, cs)) <$> readSize tl (Z.to_nat (b - 183))
        else if b <? 248 then Some (KList, 1, b - 192)
        else (λ cs, (KList, b - 247 + 1, cs)) <$> readSize tl (Z.to_nat (b - 247)) in
      match r with
      | Some (k, ts, cs) => if blen buf - ts <? cs then None else Some (k, ts, cs)
      | None => None
      end
  end.

Definition Split (b : bytes) : option (Kind * bytes * bytes) :=
  match readKind b with
  | Some (k, ts, cs) =>
      Some (k, take (Z.to_nat cs) (drop (Z.to_nat ts) b), drop (Z.to_nat (ts + cs)) b)
  | None => None
  end.

(** All the values of a byte string; every value is shorter than what holds it. *)
Fixpoint decode_list (fuel : nat) (b : bytes) : option (list item) :=
  match fuel with
  | O => None
  | S fuel' =>
      match b with
      | [] => Some []
      | _ =>
          match Split b with
          | Some (k, content, rest) =>
              match (match k with KList => Lst <$> decode_list fuel' content | _ => Some (Str content) end),
                    decode_list fuel' rest with
              | Some i, Some its => Some (i :: its)
              | _, _ => None
              end
          | None => None
          end
      end
  end.

Definition DecodeBytes (b : bytes) : option item :=
  match decode_list (S (length b)) b with Some [i] => Some i | _ => None end.

(** ** Go types

    An encoder fails on what the Go type excludes (a value out of the range of
    the type) and on what the package rejects (a negative [big.Int]). *)

Definition enc_uint64 (z : Z) : option item :=
  if (0 <=? z) && (z <? two64) then Some (Str (putint z)) else None.
Definition enc_big (z : Z) : option item := if 0 <=? z then Some (Str (putint z)) else None.
Definition enc_array (n : nat) (z : Z) : option item :=
  if (0 <=? z) && (z <? 256 ^ Z.of_nat n) then Some (Str (be_fix n z)) else None.
Definition enc_bytes (b : bytes) : option item := Some (Str b).

(** A struct, or a [[]interface{}]: the list of the encoded fields. *)
Definition enc_struct (fields : list (option item)) : option item := Lst <$> mapM id fields.

Definition leading_zero (b : bytes) : bool :=
  match b with x :: _ => byte_Z x =? 0 | [] => false end.

Definition dec_big (i : item) : option Z :=
  match i with Str b => if leading_zero b then None else Some (be_val b) | Lst _ => None end.
Definition dec_uint64 (i : item) : option Z :=
  match i with
  | Str b => if leading_zero b || (8 <? length b)%nat then None else Some (be_val b)
  | Lst _ => None
  end.
Definition dec_array (n : nat) (i : item) : option Z :=
  match i with Str b => if (length b =? n)%nat then Some (be_val b) else None | Lst _ => None end.
Definition dec_bytes (i : item) : option bytes :=
  match i with Str b => Some b | Lst _ => None end.
Definition dec_struct (i : item) : option (list item) :=
  match i with Lst l => Some l | Str _ => None end.

(** ** Bytes and big-endian integers *)

Lemma byte_Z_range b : 0 <= byte_Z b < 256.
Proof. unfold byte_Z. pose proof (Byte.to_N_bounded b). lia. Qed.

Lemma byte_Z_Z_byte z : byte_Z (Z_byte z) = z mod 256.
Proof.
  unfold byte_Z, Z_byte. pose proof (Z.mod_pos_bound z 256 ltac:(lia)).
  destruct (Byte.of_N _) eqn:E.
  - apply Byte.to_of_N in E. lia.
  - apply Byte.of_N_None_iff in E. lia.
Qed.

Lemma byte_Z_inj b b' : byte_Z b = byte_Z b' → b = b'.
Proof.
  unfold byte_Z. intros Hb. assert (Byte.to_N b = Byte.to_N b') as Hn by lia.
  pose proof (Byte.of_to_N b) as H1. rewrite Hn, Byte.of_to_N in H1. congruence.
Qed.

Lemma length_be_fix n z : length (be_fix n z) = n.
Proof. revert z. induction n as [|n IH]; intros; simpl; [done|]. rewrite length_app, IH. simpl. lia. Qed.

Lemma be_val_snoc b x : be_val (b ++ [x]) = be_val b * 256 + byte_Z x.
Proof. unfold be_val. by rewrite foldl_app. Qed.

Lemma be_val_be_fix n z : 0 <= z < 256 ^ Z.of_nat n → be_val (be_fix n z) = z.
Proof.
  revert z. induction n as [|n IH]; intros z Hz; [unfold be_val; simpl in *; lia|].
  cbn [be_fix]. rewrite be_val_snoc, byte_Z_Z_byte, IH.
  - pose proof (Z.div_mod z 256). lia.
  - rewrite Nat2Z.inj_succ, Z.pow_succ_r in Hz by lia.
    split; [apply Z.div_pos; lia|apply Z.div_lt_upper_bound; lia].
Qed.

Lemma be_val_nonneg b : 0 <= be_val b.
Proof.
  induction b as [|x b IH] using rev_ind; [done|]. rewrite be_val_snoc.
  pose proof (byte_Z_range x). lia.
Qed.

Lemma intsize_bound z : 0 <= z < 256 ^ Z.of_nat (intsize z) ∨ z < 0.
Proof.
  unfold intsize. destruct (Z.leb_spec z 0); [change (256 ^ Z.of_nat 0) with 1; lia|]. left. split; [lia|].
  pose proof (Z.log2_nonneg z). change 256 with (2 ^ 8). rewrite <-Z.pow_mul_r by lia.
  apply Z.log2_lt_pow2; [lia|]. pose proof (Z.div_mod (Z.log2 z) 8).
  pose proof (Z.mod_pos_bound (Z.log2 z) 8). pose proof (Z.div_pos (Z.log2 z) 8). lia.
Qed.

Lemma be_val_putint z : 0 <= z → be_val (putint z) = z.
Proof. intros. apply be_val_be_fix. destruct (intsize_bound z); lia. Qed.

Lemma intsize_le z (n : nat) : z < 256 ^ Z.of_nat n → (intsize z <= n)%nat.
Proof.
  unfold intsize. destruct (Z.leb_spec z 0); [lia|]. intros Hz.
  change 256 with (2 ^ 8) in Hz. rewrite <-Z.pow_mul_r in Hz by lia.
  apply Z.log2_lt_pow2 in Hz; [|lia]. pose proof (Z.log2_nonneg z).
  assert (Z.log2 z / 8 < Z.of_nat n) by (apply Z.div_lt_upper_bound; lia).
  pose proof (Z.div_pos (Z.log2 z) 8). lia.
Qed.

Lemma be_fix_head n z : 256 ^ Z.of_nat n <= z < 256 ^ Z.of_nat (S n) →
  ∃ x l, be_fix (S n) z = x :: l ∧ byte_Z x ≠ 0.
Proof.
  revert z. induction n as [|n IH]; intros z Hz.
  - exists (Z_byte z), []. split; [done|]. rewrite byte_Z_Z_byte.
    rewrite Z.mod_small by (simpl in *; lia). simpl in *. lia.
  - destruct (IH (z / 256)) as (x & l & Hx & Hne).
    { rewrite !Nat2Z.inj_succ in *. rewrite (Z.pow_succ_r 256 (Z.succ _)) in Hz by lia.
      rewrite (Z.pow_succ_r 256 (Z.of_nat n)) in * by lia. split.
      - apply Z.div_le_lower_bound; lia.
      - apply Z.div_lt_upper_bound; lia. }
    change (be_fix (S (S n)) z) with (be_fix (S n) (z / 256) ++ [Z_byte z]).
    rewrite Hx. simpl. eauto.
Qed.

Lemma putint_head z : 0 < z → ∃ x l, putint z = x :: l ∧ byte_Z x ≠ 0.
Proof.
  intros Hz. unfold putint, intsize. destruct (Z.leb_spec z 0); [lia|].
  pose proof (Z.log2_nonneg z) as Hl. pose proof (Z.log2_spec z Hz) as [H1 H2].
  pose proof (Z.div_mod (Z.log2 z) 8). pose proof (Z.mod_pos_bound (Z.log2 z) 8).
  pose proof (Z.div_pos (Z.log2 z) 8). apply be_fix_head.
  change 256 with (2 ^ 8). rewrite <-!Z.pow_mul_r by lia. split.
  - eapply Z.le_trans; [|exact H1]. apply Z.pow_le_mono_r; lia.
  - eapply Z.lt_le_trans; [exact H2|]. apply Z.pow_le_mono_r; lia.
Qed.

Lemma leading_zero_putint z : 0 <= z → leading_zero (putint z) = false.
Proof.
  intros Hz. destruct (decide (z = 0)) as [->|]; [done|].
  destruct (putint_head z) as (x & l & -> & Hne); [lia|]. simpl. lia.
Qed.

(** ** Reading back one value *)

Lemma blen_app a b : blen (a ++ b) = blen a + blen b.
Proof. unfold blen. rewrite length_app. lia. Qed.
Lemma blen_cons x b : blen (x :: b) = 1 + blen b.
Proof. unfold blen. simpl. lia. Qed.

Lemma blen_putint size : 56 <= size < two63 → 1 <= blen (putint size) <= 8.
Proof.
  intros Hs. unfold blen, putint. rewrite length_be_fix. split.
  - unfold intsize. destruct (Z.leb_spec size 0); lia.
  - assert (intsize size <= 8)%nat; [|lia]. apply intsize_le. unfold two63 in *. simpl. lia.
Qed.

Lemma readSize_putint size tl : 56 <= size < two63 →
  readSize (putint size ++ tl) (Z.to_nat (blen (putint size))) = Some size.
Proof.
  intros Hs. unfold readSize, blen. rewrite Nat2Z.id.
  rewrite (proj2 (Nat.ltb_ge _ _)) by (rewrite length_app; lia).
  rewrite take_app_length, be_val_putint by lia.
  destruct (putint_head size) as (x & l & -> & Hne); [lia|]. simpl.
  rewrite (proj2 (Z.ltb_ge _ _)), (proj2 (Z.eqb_neq _ _)) by lia. done.
Qed.

Lemma byte_Z_tag z : 0 <= z < 256 → byte_Z (Z_byte z) = z.
Proof. intros. rewrite byte_Z_Z_byte. by apply Z.mod_small. Qed.

(** Decide the comparisons of constants with [lia]. *)
Ltac zcmp :=
  repeat match goal with
  | |- context [?a <? ?b] =>
      first [rewrite (proj2 (Z.ltb_lt a b)) by lia | rewrite (proj2 (Z.ltb_ge a b)) by lia]
  | |- context [?a =? ?b] =>
      first [rewrite (proj2 (Z.eqb_eq a b)) by lia | rewrite (proj2 (Z.eqb_neq a b)) by lia]
  end.

(** The header written by [puthead] for the tags of strings and of lists. *)
Lemma readKind_puthead (k : Kind) lo hi size tl :
  (k = KString ∧ lo = 128 ∧ hi = 183) ∨ (k = KList ∧ lo = 192 ∧ hi = 247) →
  0 <= size < two63 → size <= blen tl →
  (k = KString → size = 1 → match tl with y :: _ => 128 <= byte_Z y | [] => False end) →
  readKind (puthead lo hi size ++ tl) = Some (k, blen (puthead lo hi size), size).
Proof.
  intros Hk Hs Htl H1. unfold puthead. destruct (Z.ltb_spec size 56) as [Hlt|Hge].
  - assert (0 <= lo + size < 256) by (destruct Hk as [(_&->&_)|(_&->&_)]; lia).
    simpl. rewrite (byte_Z_tag (lo + size)) by lia. rewrite blen_cons.
    destruct Hk as [(->&->&->)|(->&->&->)].
    + destruct (decide (size = 1)) as [->|Hne].
      * destruct tl as [|y tl]; [by destruct (H1 eq_refl eq_refl)|].
        specialize (H1 eq_refl eq_refl). zcmp. simpl. zcmp. simpl. done.
      * zcmp. simpl. replace (128 + size - 128) with size by lia. zcmp. done.
    + zcmp. simpl. replace (192 + size - 192) with size by lia. zcmp. done.
  - pose proof (blen_putint size ltac:(lia)) as Hb. set (p := putint size) in *.
    assert (0 <= hi + blen p < 256) by (destruct Hk as [(_&_&->)|(_&_&->)]; lia).
    simpl. rewrite (byte_Z_tag (hi + blen p)) by lia. rewrite !blen_cons, blen_app.
    destruct Hk as [(->&->&->)|(->&->&->)]; zcmp;
      [replace (183 + blen p - 183) with (blen p) by lia
      |replace (247 + blen p - 247) with (blen p) by lia];
      unfold p; rewrite readSize_putint by lia; simpl; fold p; zcmp;
      by rewrite Z.add_comm.
Qed.

Lemma Split_puthead (k : Kind) lo hi b rest :
  (k = KString ∧ lo = 128 ∧ hi = 183) ∨ (k = KList ∧ lo = 192 ∧ hi = 247) →
  blen b < two63 →
  (k = KString → ∀ y, b = [y] → 128 <= byte_Z y) →
  Split ((puthead lo hi (blen b) ++ b) ++ rest) = Some (k, b, rest).
Proof.
  intros Hk Hb H1. unfold Split. rewrite <-app_assoc.
  rewrite (readKind_puthead k); [|done|unfold blen in *; lia|rewrite blen_app; unfold blen; lia|].
  - unfold blen. rewrite !Z2Nat.inj_add, !Nat2Z.id by lia.
    rewrite drop_app_length, take_app_length. do 2 f_equal.
    rewrite app_assoc, drop_app_ge by (rewrite length_app; lia).
    by rewrite length_app, Nat.sub_diag, drop_0.
  - intros -> Hs. destruct b as [|y [|y' b]]; unfold blen in Hs; simpl in Hs; [lia| |lia].
    simpl. by apply H1.
Qed.

Lemma Split_encodeString b rest : blen b < two63 →
  ∃ k, k ≠ KList ∧ Split (encodeString b ++ rest) = Some (k, b, rest).
Proof.
  intros Hb. destruct b as [|x [|y b]].
  - exists KString. split; [done|]. apply (Split_puthead KString 128 183 []); [tauto|done|done].
  - unfold encodeString. destruct (Z.leb_spec (byte_Z x) 127).
    + exists KByte. split; [done|]. unfold Split. simpl. zcmp.
      rewrite blen_cons. assert (0 <= blen rest) by (unfold blen; lia). zcmp. done.
    + exists KString. split; [done|]. change 1 with (blen [x]).
      apply (Split_puthead KString 128 183 [x]); [tauto|done|].
      intros _ y Hy. simplify_eq. lia.
  - exists KString. split; [done|].
    apply (Split_puthead KString 128 183 (x :: y :: b)); [tauto|done|done].
Qed.

Lemma Split_encode_Lst l rest : blen (encode_list l) < two63 →
  Split (encode (Lst l) ++ rest) = Some (KList, encode_list l, rest).
Proof. intros. apply (Split_puthead KList 192 247); [tauto|done|done]. Qed.

Lemma puthead_nonempty lo hi size : (1 <= length (puthead lo hi size))%nat.
Proof. unfold puthead. case_match; simpl; lia. Qed.

Lemma length_encode_Str b : (length b <= length (encodeString b) ∧ 1 <= length (encodeString b))%nat.
Proof.
  unfold encodeString. pose proof (puthead_nonempty 128 183).
  destruct b as [|x [|y b]]; try case_match; rewrite ?length_app; simpl; try lia;
    specialize (H (blen (x :: y :: b))); simpl in *; lia.
Qed.

Lemma length_encode_Lst l : (length (encode_list l) < length (encode (Lst l)))%nat.
Proof.
  simpl. rewrite length_app. pose proof (puthead_nonempty 192 247 (blen (encode_list l))) as Hp.
  unfold encode_list in *. lia.
Qed.

Lemma decode_list_nonempty fuel b k content rest : b ≠ [] → Split b = Some (k, content, rest) →
  decode_list (S fuel) b =
  match (match k with KList => Lst <$> decode_list fuel content | _ => Some (Str content) end),
        decode_list fuel rest with
  | Some i, Some its => Some (i :: its) | _, _ => None end.
Proof. intros Hb Hs. destruct b; [done|]. cbn [decode_list]. by rewrite Hs. Qed.

Lemma encode_nonempty i : (1 <= length (encode i))%nat.
Proof.
  destruct i as [b|l]; [apply length_encode_Str|]. pose proof (length_encode_Lst l). lia.
Qed.

Lemma decode_list_encode fuel l : (length (encode_list l) < fuel)%nat →
  blen (encode_list l) < two63 → decode_list fuel (encode_list l) = Some l.
Proof.
  revert l. induction fuel as [|fuel IH]; intros l Hf Hb; [lia|].
  destruct l as [|i l]; [done|].
  change (encode_list (i :: l)) with (encode i ++ encode_list l) in *.
  rewrite length_app in Hf. rewrite blen_app in Hb. pose proof (encode_nonempty i) as Hi.
  assert (0 <= blen (encode_list l) ∧ 0 <= blen (encode i)) by (unfold blen; lia).
  assert (encode i ++ encode_list l ≠ []) by (destruct (encode i); simpl in *; [lia|done]).
  assert (Hl : decode_list fuel (encode_list l) = Some l) by (apply IH; lia).
  destruct i as [b|l'].
  - pose proof (length_encode_Str b) as Hlen. simpl encode in *.
    destruct (Split_encodeString b (encode_list l)) as (k & Hk & Hs).
    { unfold blen in *. lia. }
    rewrite (decode_list_nonempty _ _ _ _ _ ltac:(done) Hs), Hl. by destruct k.
  - pose proof (length_encode_Lst l') as Hlen.
    rewrite (decode_list_nonempty _ _ KList (encode_list l') (encode_list l));
      [|done|apply Split_encode_Lst; unfold blen in *; lia].
    rewrite Hl, IH by (unfold blen in *; lia). done.
Qed.

Lemma DecodeBytes_EncodeToBytes i b : EncodeToBytes i = Some b → DecodeBytes b = Some i.
Proof.
  unfold EncodeToBytes, DecodeBytes. destruct (Z.ltb_spec (blen (encode i)) two63); [|done].
  intros ?; simplify_eq. pose proof (decode_list_encode (S (length (encode i))) [i]) as Hd.
  unfold encode_list in Hd. simpl concat in Hd. rewrite app_nil_r in Hd.
  rewrite Hd; [done|lia|lia].
Qed.

(** ** Round trips of the Go types *)

Lemma dec_enc_uint64 z i : enc_uint64 z = Some i → dec_uint64 i = Some z.
Proof.
  unfold enc_uint64. destruct (Z.leb_spec 0 z), (Z.ltb_spec z two64); simpl; intros; simplify_eq.
  simpl. rewrite leading_zero_putint by lia. simpl.
  assert (length (putint z) <= 8)%nat.
  { unfold putint. rewrite length_be_fix. apply intsize_le. unfold two64 in *. simpl. lia. }
  rewrite (proj2 (Nat.ltb_ge _ _)) by lia. by rewrite be_val_putint by lia.
Qed.

Lemma dec_enc_big z i : enc_big z = Some i → dec_big i = Some z.
Proof.
  unfold enc_big. destruct (Z.leb_spec 0 z); intros; simplify_eq/=.
  by rewrite leading_zero_putint, be_val_putint by lia.
Qed.

Lemma dec_enc_array n z i : enc_array n z = Some i → dec_array n i = Some z.
Proof.
  unfold enc_array. destruct (Z.leb_spec 0 z), (Z.ltb_spec z (256 ^ Z.of_nat n)); simpl;
    intros; simplify_eq.
  simpl. rewrite length_be_fix, Nat.eqb_refl. by rewrite be_val_be_fix by lia.
Qed.

Lemma dec_enc_bytes b i : enc_bytes b = Some i → dec_bytes i = Some b.
Proof. unfold enc_bytes. intros; simplify_eq. done. Qed.

Lemma enc_struct_Some fields i : enc_struct fields = Some i →
  ∃ l, i = Lst l ∧ Forall2 (λ f x, f = Some x) fields l.
Proof.
  unfold enc_struct. destruct (mapM id fields) as [l|] eqn:E; intros; simplify_eq/=.
  exists l. split; [done|]. by apply mapM_Some in E.
Qed.

(** ** Canonicity: a value has one encoding *)

Lemma be_val_bound b : be_val b < 256 ^ blen b.
Proof.
  induction b as [|x b IH] using rev_ind; [change (0 < 1); lia|].
  rewrite be_val_snoc, blen_app. change (blen [x]) with 1.
  rewrite Z.pow_add_r by (unfold blen; lia). pose proof (byte_Z_range x). lia.
Qed.

Lemma be_fix_be_val b : be_fix (length b) (be_val b) = b.
Proof.
  induction b as [|x b IH] using rev_ind; [done|].
  rewrite length_app, Nat.add_comm. simpl. rewrite be_val_snoc.
  pose proof (byte_Z_range x). rewrite Z.div_add_l, Z.div_small, Z.add_0_r, IH by lia.
  do 2 f_equal. apply byte_Z_inj. rewrite byte_Z_Z_byte.
  rewrite Z.add_comm, Z.mod_add, Z.mod_small by lia. done.
Qed.

Lemma be_val_cons x b : be_val (x :: b) = byte_Z x * 256 ^ blen b + be_val b.
Proof.
  induction b as [|y b IH] using rev_ind; [unfold be_val, blen; simpl; lia|].
  rewrite app_comm_cons, !be_val_snoc, IH, blen_app. change (blen [y]) with 1.
  rewrite Z.pow_add_r by (unfold blen; lia). lia.
Qed.

Lemma be_val_inj b c : length b = length c → be_val b = be_val c → b = c.
Proof. intros Hl Hv. by rewrite <-(be_fix_be_val b), <-(be_fix_be_val c), Hl, Hv. Qed.
Lemma be_val_zeros k l : be_val (replicate k x00 ++ l) = be_val l.
Proof. induction k as [|k IH]; [done|]. cbn [replicate app]. rewrite be_val_cons, IH. done. Qed.
Lemma putint_be_val x b : byte_Z x ≠ 0 → putint (be_val (x :: b)) = x :: b.
Proof.
  intros Hx. pose proof (byte_Z_range x). pose proof (be_val_cons x b) as Hv.
  pose proof (be_val_bound (x :: b)) as Hb. pose proof (be_val_nonneg b).
  assert (0 < 256 ^ blen b) by (apply Z.pow_pos_nonneg; unfold blen; lia).
  assert (256 ^ blen b <= be_val (x :: b)) by nia.
  unfold putint. replace (intsize (be_val (x :: b))) with (length (x :: b)); [apply be_fix_be_val|].
  apply Nat.le_antisymm; [|apply intsize_le; done].
  destruct (intsize_bound (be_val (x :: b))) as [[_ Hi]|]; [|lia].
  assert (256 ^ blen b < 256 ^ Z.of_nat (intsize (be_val (x :: b)))) as Hp by lia.
  apply Z.pow_lt_mono_r_iff in Hp; [|lia|lia]. unfold blen in Hp. simpl. lia.
Qed.

Lemma readSize_Some b slen s : readSize b slen = Some s →
  take slen b = putint s ∧ 56 <= s ∧ (slen <= length b)%nat.
Proof.
  unfold readSize. destruct (Nat.ltb_spec (length b) slen) as [|Hlen]; [done|].
  destruct (Z.ltb_spec (be_val (take slen b)) 56) as [|Hs]; [done|].
  destruct b as [|x b]; [done|]. destruct (Z.eqb_spec (byte_Z x) 0) as [|Hx]; [done|].
  simpl. intros; simplify_eq. split_and!; [|done|done].
  destruct slen; [unfold be_val in Hs; simpl in Hs; lia|]. simpl. by rewrite putint_be_val.
Qed.

Lemma Z_byte_Z x : Z_byte (byte_Z x) = x.
Proof.
  apply byte_Z_inj. rewrite byte_Z_Z_byte. apply Z.mod_small. apply byte_Z_range.
Qed.

Lemma encodeString_puthead b : (∀ y, b = [y] → 128 <= byte_Z y) →
  encodeString b = puthead 128 183 (blen b) ++ b.
Proof.
  intros Hy. destruct b as [|y [|y' b]]; [done| |done].
  specialize (Hy y eq_refl). unfold encodeString. by rewrite (proj2 (Z.leb_gt _ _)) by lia.
Qed.

(** The header read with a long size is the one [puthead] writes. *)
Lemma puthead_long x tl lo hi s n : readSize tl n = Some s → byte_Z x = hi + Z.of_nat n →
  puthead lo hi s ++ drop n tl = x :: tl.
Proof.
  intros (Ht & Hs & Hn)%readSize_Some Hx. unfold puthead. rewrite (proj2 (Z.ltb_ge s 56)) by lia.
  rewrite <-Ht. simpl. f_equal; [|by rewrite take_drop].
  unfold blen. rewrite length_take, Nat.min_l, <-Hx by lia. apply Z_byte_Z.
Qed.

Lemma puthead_short x tl lo hi n : byte_Z x = lo + n → n < 56 → puthead lo hi n ++ tl = x :: tl.
Proof.
  intros Hx Hn. unfold puthead. rewrite (proj2 (Z.ltb_lt n 56)) by lia. simpl.
  by rewrite <-Hx, Z_byte_Z.
Qed.

Lemma blen_take n (b : bytes) : 0 <= n <= blen b → blen (take (Z.to_nat n) b) = n.
Proof. unfold blen. intros. rewrite length_take. lia. Qed.

Lemma drop_tag ts cs x (tl : bytes) : 0 <= ts → 0 <= cs →
  drop (Z.to_nat (1 + ts + cs)) (x :: tl) = drop (Z.to_nat cs) (drop (Z.to_nat ts) tl).
Proof.
  intros. replace (Z.to_nat (1 + ts + cs)) with (S (Z.to_nat ts + Z.to_nat cs)) by lia.
  simpl. by rewrite drop_drop.
Qed.

Lemma Split_canonical b k content rest : Split b = Some (k, content, rest) →
  b = (match k with KList => puthead 192 247 (blen content) ++ content
       | _ => encodeString content end) ++ rest.
Proof.
  unfold Split. destruct (readKind b) as [[[k' ts] cs]|] eqn:Hr; [|done].
  intros ?; simplify_eq. destruct b as [|x tl]; [done|]. unfold readKind in Hr.
  pose proof (byte_Z_range x) as Hx. set (r := if _ <? 128 then _ else _) in Hr.
  destruct r as [[[k'' ts'] cs']|] eqn:Er; [|done].
  destruct (Z.ltb_spec (blen (x :: tl) - ts') cs') as [|Hlen]; [done|]. simplify_eq.
  rewrite blen_cons in Hlen.
  destruct (Z.ltb_spec (byte_Z x) 128).
  { simplify_eq. simpl. by rewrite drop_0, (proj2 (Z.leb_le _ _)) by lia. }
  destruct (Z.ltb_spec (byte_Z x) 184).
  { destruct ((byte_Z x - 128 =? 1) && _) eqn:Hone; simplify_eq.
    replace (1 + (byte_Z x - 128)) with (1 + 0 + (byte_Z x - 128)) by lia.
    rewrite drop_tag by lia. change (Z.to_nat 1) with 1%nat. simpl drop. change (Z.to_nat 0) with 0%nat. rewrite !drop_0.
    set (n := byte_Z x - 128) in *. rewrite encodeString_puthead.
    - rewrite blen_take, <-app_assoc, take_drop by lia. symmetry. apply puthead_short; lia.
    - intros y Hy. assert (n = 1) as Hn by (rewrite <-(blen_take n tl), Hy by lia; done).
      rewrite Hn in *. destruct tl as [|y' tl]; [done|]. simpl in Hy. simplify_eq.
      apply andb_false_iff in Hone as [|?%Z.ltb_ge]; [done|lia]. }
  destruct (Z.ltb_spec (byte_Z x) 192).
  { destruct (readSize _ _) as [s|] eqn:Hs; simplify_eq/=.
    pose proof (readSize_Some _ _ _ Hs) as (_ & Hs56 & Hn).
    replace (byte_Z x - 183 + 1) with (1 + (byte_Z x - 183)) in * by lia.
    rewrite drop_tag by lia. replace (Z.to_nat (1 + (byte_Z x - 183))) with (S (Z.to_nat (byte_Z x - 183))) by lia.
    simpl drop. set (n := byte_Z x - 183) in *.
    assert (blen (drop (Z.to_nat n) tl) = blen tl - n) as Hd by (unfold blen in *; rewrite length_drop; lia).
    rewrite encodeString_puthead.
    - rewrite blen_take, <-app_assoc, take_drop by lia. symmetry. apply puthead_long; [done|lia].
    - intros y Hy. assert (cs = 1) by (rewrite <-(blen_take cs (drop (Z.to_nat n) tl)), Hy by lia; done). lia. }
  destruct (Z.ltb_spec (byte_Z x) 248).
  { simplify_eq. replace (1 + (byte_Z x - 192)) with (1 + 0 + (byte_Z x - 192)) by lia.
    rewrite drop_tag by lia. change (Z.to_nat 1) with 1%nat. simpl drop. change (Z.to_nat 0) with 0%nat. rewrite !drop_0.
    rewrite blen_take, <-app_assoc, take_drop by lia. symmetry. apply puthead_short; lia. }
  destruct (readSize _ _) as [s|] eqn:Hs; simplify_eq/=.
  pose proof (readSize_Some _ _ _ Hs) as (_ & Hs56 & Hn).
  replace (byte_Z x - 247 + 1) with (1 + (byte_Z x - 247)) in * by lia.
  rewrite drop_tag by lia. replace (Z.to_nat (1 + (byte_Z x - 247))) with (S (Z.to_nat (byte_Z x - 247))) by lia.
  simpl drop. set (n := byte_Z x - 247) in *.
  assert (blen (drop (Z.to_nat n) tl) = blen tl - n) as Hd by (unfold blen in *; rewrite length_drop; lia).
  rewrite blen_take, <-app_assoc, take_drop by lia. symmetry. apply puthead_long; [done|lia].
Qed.

Lemma decode_list_canonical fuel b l : decode_list fuel b = Some l → encode_list l = b.
Proof.
  revert b l. induction fuel as [|fuel IH]; intros b l Hd; [done|].
  destruct b as [|x b]; [by simplify_eq/=|].
  destruct (Split (x :: b)) as [[[k content] rest]|] eqn:Hs; cbn [decode_list] in Hd; rewrite Hs in Hd; [|done].
  destruct (match k with KList => _ | _ => _ end) as [i|] eqn:Hi; [|done].
  destruct (decode_list fuel rest) as [its|] eqn:Hr; [|done]. simplify_eq.
  apply Split_canonical in Hs. rewrite Hs. change (encode_list (i :: its)) with (encode i ++ encode_list its).
  rewrite (IH _ _ Hr). f_equal. destruct k; simplify_eq/=; [done|done|].
  destruct (decode_list fuel content) as [its'|] eqn:Hc; simplify_eq/=.
  apply IH in Hc. unfold encode_list in Hc. by rewrite Hc.
Qed.

Lemma DecodeBytes_encode b i : DecodeBytes b = Some i → encode i = b.
Proof.
  unfold DecodeBytes. destruct (decode_list _ _) as [[|i' [|? ?]]|] eqn:E; intros; simplify_eq.
  apply decode_list_canonical in E. unfold encode_list in E. simpl in E. by rewrite app_nil_r in E.
Qed.
