(* ===== verification/RlpStream.v ===== *)
(** * The stream decoder of the package rlp: rlp/decode.go

    [Stream] reads a value piece by piece and checks every size against the
    input and against the lists it is in.  Its operations are modelled with all their errors (those of the stream, before
    [wrapStreamError] and [addErrorContext] add the Go type and the position to the text), and
    decoding into an [interface{}], whose value is an [item].  [StreamDecodeBytes] accepts the same
    bytes as the recursive [DecodeBytes] of Rlp.v, which splits them the way raw.go
    does; so it accepts exactly the encodings. *)

From Stdlib Require Import ZArith Lia.
From S2P Require Import Prelude Rlp.
Open Scope didux_scope.

Inductive rlp_error :=
  | EOL | ErrExpectedString | ErrExpectedList | ErrCanonInt | ErrCanonSize | ErrElemTooLarge | ErrValueTooLarge
  | ErrMoreThanOneValue | errNotInList | errNotAtEOL | errUintOverflow | errInvalidBool
  | io_EOF | io_ErrUnexpectedEOF.
#[export] Instance rlp_error_eq_dec : EqDecision rlp_error.
Proof. solve_decision. Defined.

(** The input is a [bytes.Reader]; [s_kind] is [None] for -1; the innermost list comes first. *)
Record Stream := MkStream {
  s_r : bytes;
  s_remaining : Z; s_limited : bool;
  s_kind : option Kind; s_size : Z; s_byteval : byte; s_kinderr : option rlp_error;
  s_stack : list (Z * Z)
}.
Section setters.
Implicit Types s : Stream.
Definition set_r r s := MkStream r (s_remaining s) (s_limited s) (s_kind s) (s_size s) (s_byteval s) (s_kinderr s) (s_stack s).
Definition set_remaining n s := MkStream (s_r s) n (s_limited s) (s_kind s) (s_size s) (s_byteval s) (s_kinderr s) (s_stack s).
Definition set_byteval b s := MkStream (s_r s) (s_remaining s) (s_limited s) (s_kind s) (s_size s) b (s_kinderr s) (s_stack s).
Definition set_kinderr e s := MkStream (s_r s) (s_remaining s) (s_limited s) (s_kind s) (s_size s) (s_byteval s) e (s_stack s).
Definition set_ahead k n s := MkStream (s_r s) (s_remaining s) (s_limited s) k n (s_byteval s) (s_kinderr s) (s_stack s).
Definition set_lists l s := MkStream (s_r s) (s_remaining s) (s_limited s) (s_kind s) (s_size s) (s_byteval s) (s_kinderr s) l.
End setters.
(** [s.kind = -1]. *)
Definition rearm (s : Stream) : Stream := set_ahead None (s_size s) s.

Abbreviation SM A := (M Stream (A + rlp_error)).
Definition sbind {A B} (m : SM A) (f : A → SM B) : SM B :=
  let! r := m in match r with inl a => f a | inr e => mret' (inr e) end.
Notation "'got!' x ':=' m 'in' k" := (sbind m (λ x, k))
  (at level 10, x pattern, m at level 100, k at level 200, format "'[v' 'got!'  x  ':='  m  'in'  '/' k ']'") : didux_scope.
Definition done_ {A} (a : A) : SM A := mret' (inl a).
Definition fails_ {A} (e : rlp_error) : SM A := mret' (inr e).

(** ** Reading bytes *)

Definition willRead (n : Z) : SM () :=
  do! mmod rearm in
  let! s := mget in
  got! _ := (match s_stack s with
             | [] => done_ ()
             | (pos, size) :: stack =>
                 if u64 (size - pos) <? n then fails_ ErrElemTooLarge
                 else do! mmod (set_lists ((u64 (pos + n), size) :: stack)) in done_ ()
             end) in
  let! s := mget in
  if s_limited s then
    if s_remaining s <? n then fails_ ErrValueTooLarge
    else do! mmod (set_remaining (s_remaining s - n)) in done_ ()
  else done_ ().

Definition stream_readByte : SM byte :=
  got! _ := willRead 1 in
  let! s := mget in
  match s_r s with
  | [] => fails_ io_ErrUnexpectedEOF
  | b :: r => do! mmod (set_r r) in done_ b
  end.
(** A buffer of [n] bytes. *)
Definition readFull (n : Z) : SM bytes :=
  got! _ := willRead n in
  let! s := mget in
  do! mmod (set_r (drop (Z.to_nat n) (s_r s))) in
  if blen (s_r s) <? n then fails_ io_ErrUnexpectedEOF else done_ (take (Z.to_nat n) (s_r s)).

Definition readUint (size : Z) : SM Z :=
  if size =? 0 then do! mmod rearm in done_ 0
  else if size =? 1 then got! b := stream_readByte in done_ (byte_Z b)
  else got! b := readFull size in if leading_zero b then fails_ ErrCanonSize else done_ (be_val b).

(** ** The value ahead *)

(** A value with its size in [n] bytes. *)
Definition readKind_long (k : Kind) (n : Z) : M Stream (Kind * Z * option rlp_error) :=
  let! r := readUint n in
  match r with
  | inl size => mret' (k, size, if size <? 56 then Some ErrCanonSize else None)
  | inr e => mret' (k, 0, Some e)
  end.
Definition stream_readKind : M Stream (Kind * Z * option rlp_error) :=
  let! r := stream_readByte in
  match r with
  | inr e =>
      let! s := mget in
      mret' (KByte, 0, Some (match s_stack s, e with
                             | [], io_ErrUnexpectedEOF | [], ErrValueTooLarge => io_EOF
                             | _, _ => e
                             end))
  | inl x =>
      do! mmod (set_byteval x00) in
      let b := byte_Z x in
      if b <? 0x80 then do! mmod (set_byteval x) in mret' (KByte, 0, None)
      else if b <? 0xB8 then mret' (KString, b - 0x80, None)
      else if b <? 0xC0 then readKind_long KString (b - 0xB7)
      else if b <? 0xF8 then mret' (KList, b - 0xC0, None)
      else readKind_long KList (b - 0xF7)
  end.

Definition stream_Kind : M Stream (Kind * Z * option rlp_error) :=
  let! s := mget in
  match s_kind s with
  | Some k => mret' (k, s_size s, s_kinderr s)
  | None =>
      do! mmod (set_kinderr None) in
      if match s_stack s with (pos, size) :: _ => pos =? size | [] => false end then mret' (KByte, 0, Some EOL) else
      let! (k, size, e) := stream_readKind in
      do! mmod (set_ahead (Some k) size) in
      let! s := mget in
      let e := match e with
               | Some e => Some e
               | None =>
                   match s_stack s with
                   | [] => if s_limited s && (s_remaining s <? size) then Some ErrValueTooLarge else None
                   | (pos, tsize) :: _ => if u64 (tsize - pos) <? size then Some ErrElemTooLarge else None
                   end
               end in
      do! mmod (set_kinderr e) in
      mret' (k, size, e)
  end.
(** The kind and the size, or the error. *)
Definition ahead : SM (Kind * Z) :=
  let! (k, size, e) := stream_Kind in match e with Some e => fails_ e | None => done_ (k, size) end.

(** ** Values *)

Definition stream_Bytes : SM bytes :=
  got! (k, size) := ahead in
  match k with
  | KByte => do! mmod rearm in let! s := mget in done_ [s_byteval s]
  | KString =>
      got! b := readFull size in
      if (size =? 1) && (match b with x :: _ => byte_Z x <? 128 | [] => false end) then fails_ ErrCanonSize else done_ b
  | KList => fails_ ErrExpectedString
  end.

(** The header is written anew. *)
Definition stream_Raw : SM bytes :=
  got! (k, size) := ahead in
  match k with
  | KByte => do! mmod rearm in let! s := mget in done_ [s_byteval s]
  | KString => got! b := readFull size in done_ (puthead 0x80 0xB7 size ++ b)
  | KList => got! b := readFull size in done_ (puthead 0xC0 0xF7 size ++ b)
  end.

Definition stream_uint (maxbits : Z) : SM Z :=
  got! (k, size) := ahead in
  match k with
  | KByte =>
      let! s := mget in
      if byte_Z (s_byteval s) =? 0 then fails_ ErrCanonInt
      else do! mmod rearm in done_ (byte_Z (s_byteval s))
  | KString =>
      if maxbits / 8 <? size then fails_ errUintOverflow else
      let! v := readUint size in
      match v with
      | inr ErrCanonSize => fails_ ErrCanonInt
      | inr e => fails_ e
      | inl v => if (0 <? size) && (v <? 128) then fails_ ErrCanonSize else done_ v
      end
  | KList => fails_ ErrExpectedString
  end.
Definition stream_Uint : SM Z := stream_uint 64.
Definition stream_Bool : SM bool :=
  got! num := stream_uint 8 in
  if num =? 0 then done_ false else if num =? 1 then done_ true else fails_ errInvalidBool.

(** ** Lists *)

Definition stream_List : SM Z :=
  got! (k, size) := ahead in
  match k with
  | KList => do! mmod (λ s, set_ahead None 0 (set_lists ((0, size) :: s_stack s) s)) in done_ size
  | _ => fails_ ErrExpectedList
  end.
Definition stream_ListEnd : SM () :=
  let! s := mget in
  match s_stack s with
  | [] => fails_ errNotInList
  | (pos, size) :: stack =>
      if negb (pos =? size) then fails_ errNotAtEOL else
      let stack := match stack with (pos, tsize) :: stack => (u64 (pos + size), tsize) :: stack | [] => [] end in
      do! mmod (λ s, set_ahead None 0 (set_lists stack s)) in done_ ()
  end.

Fixpoint decodeSliceElems {A} (fuel : nat) (elemdec : SM A) : SM (list A) :=
  match fuel with
  | O => mpanic
  | S fuel =>
      let! r := elemdec in
      match r with
      | inl x => got! l := decodeSliceElems fuel elemdec in done_ (x :: l)
      | inr EOL => done_ []
      | inr e => fails_ e
      end
  end.
Definition decodeListSlice {A} (fuel : nat) (elemdec : SM A) : SM (list A) :=
  got! size := stream_List in
  if size =? 0 then got! _ := stream_ListEnd in done_ [] else
  got! l := decodeSliceElems fuel elemdec in
  got! _ := stream_ListEnd in done_ l.
Fixpoint decodeInterface (fuel : nat) : SM item :=
  match fuel with
  | O => mpanic
  | S fuel =>
      got! (k, _) := ahead in
      match k with
      | KList => got! l := decodeListSlice fuel (decodeInterface fuel) in done_ (Lst l)
      | _ => got! b := stream_Bytes in done_ (Str b)
      end
  end.

(** [Reset] on a [bytes.Reader]: a limit of zero is the length of the input. *)
Definition stream_Reset (r : bytes) (inputLimit : Z) : Stream :=
  MkStream r (if 0 <? inputLimit then inputLimit else blen r) true None 0 x00 None [].
(** Every value takes a byte. *)
Definition StreamDecodeBytes (b : bytes) : option (item + rlp_error) :=
  match decodeInterface (S (length b)) (stream_Reset b (blen b)) with
  | Some (inl i, s) => Some (if 0 <? blen (s_r s) then inr ErrMoreThanOneValue else inl i)
  | Some (inr e, _) => Some (inr e)
  | None => None
  end.

(** ** Where a stream is *)

(** [w] is what is left of the innermost list, or of the input at the top, and
    [tail] what follows it. *)
Definition window (w tail : bytes) (stack : list (Z * Z)) : Prop :=
  match stack with
  | [] => tail = []
  | (pos, size) :: _ => 0 <= pos ∧ size = pos + blen w
  end ∧ Forall (λ p, p.2 < two63) stack ∧ blen (w ++ tail) < two63.
Record at_ (w tail : bytes) (stack : list (Z * Z)) (s : Stream) : Prop := {
  at_r : s_r s = w ++ tail; at_remaining : s_remaining s = blen (w ++ tail); at_limited : s_limited s = true; at_stack : s_stack s = stack;
  at_window : window w tail stack
}.
Definition bump (n : Z) (stack : list (Z * Z)) : list (Z * Z) :=
  match stack with [] => [] | (pos, size) :: stack => (pos + n, size) :: stack end.
Lemma bump_bump m n stack : bump n (bump m stack) = bump (m + n) stack.
Proof. destruct stack as [|[pos size] stack]; cbn; [done|]. by rewrite Z.add_assoc. Qed.
Lemma bump_0 stack : bump 0 stack = stack.
Proof. destruct stack as [|[pos size] stack]; cbn; [done|]. by rewrite Z.add_0_r. Qed.
Lemma window_drop w tail stack n : window w tail stack → 0 <= n <= blen w → window (drop (Z.to_nat n) w) tail (bump n stack).
Proof.
  intros (Hw & Hs & Hb) Hn. rewrite blen_app in Hb. assert (blen (drop (Z.to_nat n) w) = blen w - n) as Hd by (unfold blen in *; rewrite length_drop; lia).
  split; [|split; [|rewrite blen_app; lia]]; destruct stack as [|[pos size] stack]; cbn in *; [done|lia|done|].
  apply Forall_cons in Hs as [? ?]. by constructor.
Qed.

(** An error other than the end of a list. *)
Definition rejects {A} (r : A + rlp_error) : Prop := ∃ e, r = inr e ∧ e ≠ EOL.
Lemma rejects_intro {A} e : e ≠ EOL → rejects (@inr A rlp_error e).
Proof. by exists e. Qed.

Lemma wp_got {A B} (m : SM A) (f : A → SM B) (Q : B + rlp_error → Stream → Prop) s :
  wp m (λ r s', match r with inl a => wp (f a) Q s' | inr e => Q (inr e) s' end) s → wp (sbind m f) Q s.
Proof. intros Hm. apply wp_bind. eapply wp_wand; [exact Hm|]. intros [a|e] s' Hs; [done|]. exact Hs. Qed.

Lemma willRead_ok n w tail stack s : at_ w tail stack s → 0 <= n →
  wp (willRead n) (λ r s', if n <=? blen w then r = inl () ∧ s_kind s' = None ∧ s_byteval s' = s_byteval s ∧ s_kinderr s' = s_kinderr s ∧
      s_r s' = s_r s ∧ s_remaining s' = s_remaining s - n ∧ s_limited s' = true ∧ s_stack s' = bump n stack
    else rejects r) s.
Proof.
  intros [Hr Hrem Hlim Hst (Hw & Hs & Hb)] Hn. unfold willRead. rewrite blen_app in *. pose proof (Zle_0_nat (length w)) as H0. pose proof (Zle_0_nat (length tail)) as H1.
  fold (blen w) in H0. fold (blen tail) in H1. wp_steps. cbn [rearm set_ahead s_stack]. rewrite Hst. destruct stack as [|[pos size] stack].
  - subst tail. change (blen []) with 0 in *. apply wp_got. unfold done_. wp_steps. cbn [rearm set_ahead s_limited s_remaining]. rewrite Hlim, Hrem.
    destruct (Z.leb_spec n (blen w)); rewrite ?(proj2 (Z.ltb_ge _ _)), ?(proj2 (Z.ltb_lt _ _)) by lia; unfold done_, fails_; wp_steps; [|by apply rejects_intro].
    cbn. split_and!; try done; lia.
  - destruct Hw as [Hpos ->]. apply Forall_cons in Hs as [Hs _]. cbn in Hs. unfold two63 in *. replace (pos + blen w - pos) with (blen w) by lia. rewrite u64_small by (unfold two64; lia).
    apply wp_got. destruct (Z.leb_spec n (blen w)) as [Hle|Hgt].
    + rewrite (proj2 (Z.ltb_ge _ _)) by lia. unfold done_. wp_steps. cbn [rearm set_ahead set_lists s_limited s_remaining]. rewrite Hlim, Hrem, (proj2 (Z.ltb_ge _ _)) by lia.
      wp_steps. rewrite u64_small by (unfold two64; lia). done.
    + rewrite (proj2 (Z.ltb_lt _ _)) by lia. unfold fails_. wp_steps. by apply rejects_intro.
Qed.
Lemma after_read n w tail stack s s' : at_ w tail stack s → 0 <= n <= blen w → s_remaining s' = s_remaining s - n → s_limited s' = true → s_stack s' = bump n stack →
  s_r s' = drop (Z.to_nat n) w ++ tail → at_ (drop (Z.to_nat n) w) tail (bump n stack) s'.
Proof.
  intros [Hr Hrem Hlim Hst Hw] Hn H1 H2 H3 H4. split; [done| |done|done|by apply window_drop]. rewrite H1, Hrem, !blen_app. unfold blen in *. rewrite length_drop. lia.
Qed.
Lemma readByte_ok w tail stack s : at_ w tail stack s →
  wp stream_readByte (λ r s', match w with
    | x :: w' => r = inl x ∧ s_kind s' = None ∧ at_ w' tail (bump 1 stack) s'
    | [] => rejects r
    end) s.
Proof.
  intros Ha. unfold stream_readByte. apply wp_got. eapply wp_wand; [eapply (willRead_ok 1); [exact Ha|lia]|]. intros r s1 Hr. destruct w as [|x w'].
  - cbn in Hr. destruct Hr as (e & -> & He). by apply rejects_intro.
  - rewrite blen_cons, (proj2 (Z.leb_le _ _)) in Hr by (unfold blen; lia). destruct Hr as (-> & Hk & _ & _ & Hr1 & Hrem1 & Hl1 & Hst1).
    wp_step. rewrite Hr1, (at_r _ _ _ _ Ha). cbn [app]. unfold done_. wp_steps. split; [done|]. split; [done|].
    apply (after_read 1 (x :: w') tail stack s); try done. rewrite blen_cons. unfold blen. lia.
Qed.

Lemma readFull_ok n w tail stack s : at_ w tail stack s → 0 <= n →
  wp (readFull n) (λ r s', if n <=? blen w then r = inl (take (Z.to_nat n) w) ∧ s_kind s' = None ∧ at_ (drop (Z.to_nat n) w) tail (bump n stack) s' else rejects r) s.
Proof.
  intros Ha Hn. unfold readFull. apply wp_got. eapply wp_wand; [eapply willRead_ok; [exact Ha|done]|]. intros r s1 Hr.
  destruct (Z.leb_spec n (blen w)) as [Hle|]; [|destruct Hr as (e & -> & He); by apply rejects_intro].
  destruct Hr as (-> & Hk & _ & _ & Hr1 & Hrem1 & Hl1 & Hst1). wp_steps. rewrite Hr1, (at_r _ _ _ _ Ha).
  assert (Z.to_nat n ≤ length w)%nat as Hnat by (unfold blen in Hle; lia).
  rewrite (proj2 (Z.ltb_ge _ _)) by (rewrite blen_app; unfold blen in *; lia). unfold done_. wp_steps. rewrite take_app_le, drop_app_le by done.
  split; [done|]. split; [done|]. by apply (after_read n w tail stack s).
Qed.

(** A size in [n] bytes, as [readSize] of raw.go has it. *)
Lemma readUint_size n w tail stack s : at_ w tail stack s → 1 <= n <= 8 →
  wp (readUint n) (λ r s', match readSize w (Z.to_nat n) with
    | Some size => r = inl size ∧ s_kind s' = None ∧ at_ (drop (Z.to_nat n) w) tail (bump n stack) s'
    | None => rejects r ∨ ∃ size, r = inl size ∧ size < 56
    end) s.
Proof.
  intros Ha Hn. unfold readUint. rewrite (proj2 (Z.eqb_neq n 0)) by lia. destruct (Z.eqb_spec n 1) as [->|Hne].
  - apply wp_got. eapply wp_wand; [by eapply readByte_ok|]. intros r s1 Hr. destruct w as [|x w']; [destruct Hr as (e & -> & He); left; by apply rejects_intro|].
    destruct Hr as (-> & Hk & Ha1). unfold done_. wp_steps. change (Z.to_nat 1) with 1%nat. unfold readSize. cbn [length Nat.ltb Nat.leb take drop].
    rewrite take_0, drop_0. replace (be_val [x]) with (byte_Z x) by (unfold be_val; simpl; lia). destruct (Z.ltb_spec (byte_Z x) 56); cbn [orb]; [right; by exists (byte_Z x)|].
    rewrite (proj2 (Z.eqb_neq _ _)) by lia. done.
  - apply wp_got. eapply wp_wand; [eapply readFull_ok; [exact Ha|lia]|]. intros r s1 Hr. unfold readSize.
    destruct (Z.leb_spec n (blen w)) as [Hle|Hgt]; unfold blen in *.
    + destruct Hr as (-> & Hk & Ha1). rewrite (proj2 (Nat.ltb_ge _ _)) by lia.
      assert (leading_zero (take (Z.to_nat n) w) = match w with x :: _ => byte_Z x =? 0 | [] => true end) as ->.
      { destruct w as [|x w]; [cbn in Hle; lia|]. by destruct (Z.to_nat n) eqn:E; [lia|]. }
      destruct (match w with x :: _ => _ | [] => _ end); unfold done_, fails_; wp_steps; [rewrite orb_true_r; left; by apply rejects_intro|]. rewrite orb_false_r.
      destruct (Z.ltb_spec (be_val (take (Z.to_nat n) w)) 56); [right; by eexists|done].
    + rewrite (proj2 (Nat.ltb_lt _ _)) by lia. destruct Hr as (e & -> & He). left. by apply rejects_intro.
Qed.

(** ** The value ahead *)

(** What the first bytes say: the kind, the length of the tag and the bytes that follow it. *)
Definition tag (w : bytes) : option (Kind * Z * Z) :=
  match w with
  | [] => None
  | x :: tl =>
      let b := byte_Z x in
      if b <? 0x80 then Some (KByte, 1, 0)
      else if b <? 0xB8 then Some (KString, 1, b - 0x80)
      else if b <? 0xC0 then (λ size, (KString, 1 + (b - 0xB7), size)) <$> readSize tl (Z.to_nat (b - 0xB7))
      else if b <? 0xF8 then Some (KList, 1, b - 0xC0)
      else (λ size, (KList, 1 + (b - 0xF7), size)) <$> readSize tl (Z.to_nat (b - 0xF7))
  end.
Lemma tag_bounds w k ts size : tag w = Some (k, ts, size) → 1 <= ts <= blen w ∧ 0 <= size ∧ (k = KByte → ts = 1 ∧ size = 0).
Proof.
  destruct w as [|x tl]; [done|]. unfold tag. pose proof (byte_Z_range x). rewrite blen_cons. pose proof (Zle_0_nat (length tl)) as Hl. fold (blen tl) in Hl.
  repeat match goal with |- context [?a <? ?b] => destruct (Z.ltb_spec a b) end; try (intros [= <- <- <-]; split; [lia|split; [lia|done || by intros]]).
  all: destruct (readSize _ _) as [z|] eqn:Hz; [|done]; apply readSize_Some in Hz as (_ & ? & Hn); intros [= <- <- <-]; unfold blen in *; split; [lia|split; [lia|done]].
Qed.
(** The single-byte strings that must be written without a tag. *)
Definition overlong (k : Kind) (size : Z) (c : bytes) : bool :=
  match k with KString => (size =? 1) && (match c with x :: _ => byte_Z x <? 128 | [] => false end) | _ => false end.
Lemma overlong_size k size c : size ≠ 1 → overlong k size c = false.
Proof. intros Hs. destruct k; try done. cbn. by rewrite (proj2 (Z.eqb_neq _ _)). Qed.
Lemma readKind_tag w : readKind w =
  match tag w with
  | Some (k, ts, size) =>
      if (size <=? blen w - ts) && negb (overlong k size (drop (Z.to_nat ts) w))
      then Some (match k with KByte => (KByte, 0, 1) | _ => (k, ts, size) end) else None
  | None => None
  end.
Proof.
  destruct w as [|x tl]; [done|]. unfold readKind, tag. pose proof (byte_Z_range x). rewrite blen_cons. pose proof (Zle_0_nat (length tl)) as Hl. fold (blen tl) in Hl.
  assert (∀ k ts size, 1 <= ts → size ≠ 1 → k ≠ KByte →
    (if 1 + blen tl - ts <? size then None else Some (k, ts, size)) =
    if (size <=? 1 + blen tl - ts) && negb (overlong k size (drop (Z.to_nat ts) (x :: tl))) then Some (match k with KByte => (KByte, 0, 1) | _ => (k, ts, size) end) else None) as Hgen.
  { intros k ts size Hts Hs Hk. rewrite overlong_size, andb_true_r by done. destruct (Z.ltb_spec (1 + blen tl - ts) size), (Z.leb_spec size (1 + blen tl - ts)); try lia; [done|]. by destruct k. }
  destruct (Z.ltb_spec (byte_Z x) 128).
  { cbn [overlong]. rewrite (proj2 (Z.ltb_ge _ _)), (proj2 (Z.leb_le _ _)) by lia. done. }
  destruct (Z.ltb_spec (byte_Z x) 184).
  { set (n := byte_Z x - 128). destruct (Z.eqb_spec n 1) as [->|Hne]; [|by cbn [andb]; apply Hgen]. cbn [andb].
    change (drop (Z.to_nat 1) (x :: tl)) with tl. cbn [overlong]. rewrite Z.eqb_refl. cbn [andb].
    destruct tl as [|y tl]; [done|]. destruct (byte_Z y <? 128); [by rewrite andb_false_r|]. cbn [negb]. rewrite andb_true_r. rewrite blen_cons in *.
    rewrite (proj2 (Z.ltb_ge _ _)), (proj2 (Z.leb_le _ _)) by (unfold blen; lia). done. }
  destruct (Z.ltb_spec (byte_Z x) 192).
  { destruct (readSize _ _) as [z|] eqn:Hz; [|done]. apply readSize_Some in Hz as (_ & ? & _). cbn [fmap option_fmap option_map]. rewrite (Z.add_comm (byte_Z x - 183) 1). apply Hgen; [lia|lia|done]. }
  destruct (Z.ltb_spec (byte_Z x) 248).
  { destruct (Z.eqb_spec (byte_Z x - 192) 1) as [->|]; [|apply Hgen; [lia|done|done]]. cbn [overlong negb]. rewrite andb_true_r.
    destruct (Z.ltb_spec (1 + blen tl - 1) 1), (Z.leb_spec 1 (1 + blen tl - 1)); try lia; done. }
  destruct (readSize _ _) as [z|] eqn:Hz; [|done]. apply readSize_Some in Hz as (_ & ? & _). cbn [fmap option_fmap option_map]. rewrite (Z.add_comm (byte_Z x - 247) 1). apply Hgen; [lia|lia|done].
Qed.
Lemma Split_tag w : Split w =
  match tag w with
  | Some (k, ts, size) =>
      let c := drop (Z.to_nat ts) w in
      if (size <=? blen c) && negb (overlong k size c)
      then Some (k, match k with KByte => take 1 w | _ => take (Z.to_nat size) c end, drop (Z.to_nat size) c) else None
  | None => None
  end.
Proof.
  unfold Split. rewrite readKind_tag. destruct (tag w) as [[[k ts] size]|] eqn:Ht; [|done]. destruct (tag_bounds w k ts size Ht) as (Hts & Hs & Hb).
  cbv zeta. replace (blen (drop (Z.to_nat ts) w)) with (blen w - ts) by (unfold blen in *; rewrite length_drop; lia).
  destruct ((size <=? blen w - ts) && _); [|done]. destruct k.
  - destruct (Hb eq_refl) as [-> ->]. change (Z.to_nat 0) with 0%nat. rewrite !drop_0. done.
  - rewrite drop_drop. do 3 f_equal. lia.
  - rewrite drop_drop. do 3 f_equal. lia.
Qed.

Lemma readKind_long_ok k n w tail stack s : at_ w tail stack s → 1 <= n <= 8 →
  wp (readKind_long k n) (λ r s', match readSize w (Z.to_nat n) with
    | Some size => r = (k, size, None) ∧ at_ (drop (Z.to_nat n) w) tail (bump n stack) s'
    | None => ∃ e, r.2 = Some e ∧ e ≠ EOL
    end) s.
Proof.
  intros Ha Hn. unfold readKind_long. eapply wp_seq; [by eapply readUint_size|]. intros r s1 Hr. cbv beta in Hr. destruct (readSize w (Z.to_nat n)) as [size|] eqn:Hs.
  - destruct Hr as (-> & _ & Ha1). wp_steps. apply readSize_Some in Hs as (_ & ? & _). by rewrite (proj2 (Z.ltb_ge _ _)) by lia.
  - destruct Hr as [(e & -> & He)|(size & -> & Hlt)]; wp_steps; [by exists e|]. rewrite (proj2 (Z.ltb_lt _ _)) by done. by exists ErrCanonSize.
Qed.
Lemma stream_readKind_ok w tail stack s : at_ w tail stack s →
  wp stream_readKind (λ r s', match tag w with
    | Some (k, ts, size) => r = (k, size, None) ∧ at_ (drop (Z.to_nat ts) w) tail (bump ts stack) s' ∧ (k = KByte → take 1 w = [s_byteval s'])
    | None => ∃ e, r.2 = Some e ∧ e ≠ EOL
    end) s.
Proof.
  intros Ha. unfold stream_readKind. eapply wp_seq; [by eapply readByte_ok|]. intros r s1 Hr. cbv beta in Hr. destruct w as [|x w'].
  { destruct Hr as (e & -> & He). wp_steps. cbn [tag]. eexists. split; [done|]. by destruct (s_stack s1), e. }
  destruct Hr as (-> & _ & Ha1). wp_step. set (s2 := set_byteval x00 s1). assert (at_ w' tail (bump 1 stack) s2) as Ha2 by (by destruct Ha1).
  unfold tag. pose proof (byte_Z_range x).
  assert (∀ k n, 1 <= n <= 8 → k ≠ KByte → wp (readKind_long k n) (λ r s', match (λ size, (k, 1 + n, size)) <$> readSize w' (Z.to_nat n) with
    | Some (k, ts, size) => r = (k, size, None) ∧ at_ (drop (Z.to_nat ts) (x :: w')) tail (bump ts stack) s' ∧ (k = KByte → take 1 (x :: w') = [s_byteval s'])
    | None => ∃ e, r.2 = Some e ∧ e ≠ EOL
    end) s2) as Hlong.
  { intros k n Hn Hk. eapply wp_wand; [by eapply readKind_long_ok|]. intros r s3 Hr. cbv beta in Hr. destruct (readSize w' (Z.to_nat n)) as [size|]; [|done].
    destruct Hr as [-> Ha3]. cbn. rewrite bump_bump in Ha3. replace (Z.to_nat (1 + n)) with (S (Z.to_nat n)) by lia. done. }
  cbv zeta. repeat match goal with |- wp (if ?a <? ?b then _ else _) _ _ => destruct (Z.ltb_spec a b) end.
  - wp_steps. split; [done|]. split; [by destruct Ha2|done].
  - wp_steps. by split.
  - apply Hlong; [lia|done].
  - wp_steps. by split.
  - apply Hlong; [lia|done].
Qed.

(** The kind is known and its tag read. *)
Record known (k : Kind) (size : Z) (s : Stream) : Prop := { kn_kind : s_kind s = Some k; kn_size : s_size s = size; kn_err : s_kinderr s = None }.
Lemma ahead_known k size s : known k size s → ahead s = Some (inl (k, size), s).
Proof. intros [Hk <- He]. unfold ahead, stream_Kind, mbind', mget. by rewrite Hk, He. Qed.
Lemma ahead_ok w tail stack s : at_ w tail stack s → s_kind s = None → w ≠ [] →
  wp ahead (λ r s', match tag w with
    | Some (k, ts, size) =>
        let c := drop (Z.to_nat ts) w in
        if size <=? blen c then r = inl (k, size) ∧ known k size s' ∧ at_ c tail (bump ts stack) s' ∧ (k = KByte → take 1 w = [s_byteval s']) else rejects r
    | None => rejects r
    end) s.
Proof.
  intros Ha Hk Hne. unfold ahead. apply wp_bind. unfold stream_Kind. wp_step. rewrite Hk. wp_step. set (s0 := set_kinderr None s).
  assert (at_ w tail stack s0) as Ha0 by (by destruct Ha).
  assert ((match s_stack s with (pos, size) :: _ => pos =? size | [] => false end) = false) as ->.
  { rewrite (at_stack _ _ _ _ Ha). destruct (at_window _ _ _ _ Ha) as [Hw _]. destruct stack as [|[pos size] stack]; [done|]. destruct Hw as [_ ->].
    destruct w; [done|]. rewrite blen_cons. apply Z.eqb_neq. unfold blen. lia. }
  eapply wp_seq; [by apply (stream_readKind_ok w tail stack)|]. intros [[k size] e] s1 Hr. cbv beta in Hr. wp_steps. cbn [s_stack s_limited s_remaining set_ahead].
  destruct (tag w) as [[[k' ts] size']|] eqn:Ht.
  2:{ destruct Hr as (e' & He & Hne'). cbn in He. subst e. cbv iota. unfold fails_. wp_steps. by apply rejects_intro. }
  destruct Hr as ([= -> -> ->] & Ha1 & Hby). destruct (tag_bounds _ _ _ _ Ht) as (Hts & Hsz & _). rewrite (at_stack _ _ _ _ Ha1), (at_limited _ _ _ _ Ha1), (at_remaining _ _ _ _ Ha1).
  set (c := drop (Z.to_nat ts) w) in *. destruct (at_window _ _ _ _ Ha1) as (Hw & Hst & Hb). cbv zeta.
  assert ((match bump ts stack with
           | [] => if true && (blen (c ++ tail) <? size') then Some ErrValueTooLarge else None
           | (pos, tsize) :: _ => if u64 (tsize - pos) <? size' then Some ErrElemTooLarge else None
           end) = if size' <=? blen c then None else Some (match stack with [] => ErrValueTooLarge | _ => ErrElemTooLarge end)) as ->.
  { destruct stack as [|[pos size] stack]; cbn [bump] in *.
    - subst tail. rewrite app_nil_r. cbn [andb]. destruct (Z.ltb_spec (blen c) size'), (Z.leb_spec size' (blen c)); try lia; done.
    - destruct Hw as [Hp ->]. replace (pos + ts + blen c - (pos + ts)) with (blen c) by lia. rewrite blen_app in Hb. rewrite u64_small by (unfold blen, two64, two63 in *; lia).
      destruct (Z.ltb_spec (blen c) size'), (Z.leb_spec size' (blen c)); try lia; done. }
  destruct (Z.leb_spec size' (blen c)); unfold done_, fails_; wp_steps; [|apply rejects_intro; by destruct stack].
  split; [done|]. split; [done|]. split; [by destruct Ha1|done].
Qed.

(** At the end of a list. *)
Lemma ahead_EOL tail pos size stack s : at_ [] tail ((pos, size) :: stack) s → s_kind s = None →
  wp ahead (λ r s', r = inr EOL ∧ s_kind s' = None ∧ at_ [] tail ((pos, size) :: stack) s') s.
Proof.
  intros Ha Hk. unfold ahead. apply wp_bind. unfold stream_Kind. wp_step. rewrite Hk. wp_step. rewrite (at_stack _ _ _ _ Ha).
  destruct (at_window _ _ _ _ Ha) as [[_ Hs] _]. change (blen []) with 0 in Hs. rewrite (proj2 (Z.eqb_eq pos size)) by lia. wp_step. unfold fails_. wp_step.
  split; [done|]. split; [done|]. by destruct Ha.
Qed.

(** ** Decoding *)

(** The contents of a string. *)
Lemma stream_Bytes_ok k size c tail stack s : k ≠ KList → known k size s → at_ c tail stack s → (k = KByte → size = 0) → 0 <= size <= blen c →
  wp stream_Bytes (λ r s', if overlong k size c then rejects r else
    r = inl (match k with KByte => [s_byteval s] | _ => take (Z.to_nat size) c end) ∧ s_kind s' = None ∧ at_ (drop (Z.to_nat size) c) tail (bump size stack) s') s.
Proof.
  intros Hk Hkn Ha Hz Hs. unfold stream_Bytes. apply wp_got, (wp_of_run _ _ _ _ _ (ahead_known _ _ _ Hkn)). destruct k; [| |done].
  - rewrite (Hz eq_refl). wp_steps. unfold done_. wp_step. split; [done|]. split; [done|]. change (Z.to_nat 0) with 0%nat. rewrite drop_0, bump_0. by destruct Ha.
  - apply wp_got. eapply wp_wand; [eapply readFull_ok; [exact Ha|lia]|]. intros r s1 Hr. cbv beta in Hr. rewrite (proj2 (Z.leb_le _ _)) in Hr by lia. destruct Hr as (-> & Hk1 & Ha1).
    assert (((size =? 1) && (match take (Z.to_nat size) c with x :: _ => byte_Z x <? 128 | [] => false end)) = overlong KString size c) as ->.
    { cbn. destruct (Z.eqb_spec size 1) as [->|]; [|done]. cbn [andb]. change (Z.to_nat 1) with 1%nat. by destruct c. }
    destruct (overlong KString size c); unfold done_, fails_; wp_step; [by apply rejects_intro|done].
Qed.

Lemma decode_list_step fuel w : w ≠ [] → decode_list (S fuel) w = match Split w with
  | Some (k, content, rest) =>
      match (match k with KList => Lst <$> decode_list fuel content | _ => Some (Str content) end), decode_list fuel rest with
      | Some i, Some its => Some (i :: its) | _, _ => None end
  | None => None end.
Proof. by destruct w. Qed.
Lemma Split_shorter w k content rest : Split w = Some (k, content, rest) → (length rest < length w)%nat ∧ (k = KList → (length content < length w)%nat).
Proof.
  intros ->%Split_canonical. rewrite length_app. pose proof (length_encode_Str content). pose proof (puthead_nonempty 192 247 (blen content)).
  destruct k; rewrite ?length_app; (split; [lia|]); intros; [done|done|lia].
Qed.
Lemma decode_list_fuel fuel : ∀ fuel' w, (length w < fuel)%nat → (length w < fuel')%nat → decode_list fuel w = decode_list fuel' w.
Proof.
  induction fuel as [|fuel IH]; intros [|fuel'] w H1 H2; try lia. destruct w as [|x w]; [done|]. rewrite !decode_list_step by done.
  destruct (Split (x :: w)) as [[[k content] rest]|] eqn:Hs; [|done]. destruct (Split_shorter _ _ _ _ Hs) as [Hr Hc]. rewrite (IH fuel' rest) by lia.
  destruct k; [done|done|]. rewrite (IH fuel' content); [done|specialize (Hc eq_refl); lia..].
Qed.

(** The value at the head of [w], and what follows it. *)
Definition decode_all (w : bytes) : option (list item) := decode_list (S (length w)) w.
Definition decode_one (w : bytes) : option (item * bytes) :=
  match Split w with
  | Some (k, content, rest) => (λ i, (i, rest)) <$> match k with KList => Lst <$> decode_all content | _ => Some (Str content) end
  | None => None
  end.
Lemma decode_all_one w : w ≠ [] → decode_all w = match decode_one w with Some (i, rest) => cons i <$> decode_all rest | None => None end.
Proof.
  intros Hw. unfold decode_all at 1, decode_one. rewrite decode_list_step by done. destruct (Split w) as [[[k content] rest]|] eqn:Hs; [|done].
  destruct (Split_shorter _ _ _ _ Hs) as [Hr Hc]. unfold decode_all. rewrite (decode_list_fuel (length w) (S (length rest)) rest) by lia.
  destruct k; cbn [fmap option_fmap option_map].
  - by destruct (decode_list (S (length rest)) rest).
  - by destruct (decode_list (S (length rest)) rest).
  - rewrite (decode_list_fuel (length w) (S (length content)) content) by (specialize (Hc eq_refl); lia).
    destruct (decode_list (S (length content)) content); cbn [fmap option_fmap option_map]; [|done]. by destruct (decode_list (S (length rest)) rest).
Qed.

(** What decoding one value has to do. *)
Definition decodes_one (elemdec : SM item) (bound : nat) : Prop := ∀ w tail stack s, (length w < bound)%nat → at_ w tail stack s → s_kind s = None → w ≠ [] →
  wp elemdec (λ r s', match decode_one w with
    | Some (i, rest) => r = inl i ∧ s_kind s' = None ∧ at_ rest tail (bump (blen w - blen rest) stack) s'
    | None => rejects r
    end) s.
Definition ends (elemdec : SM item) : Prop := ∀ tail pos size stack s, at_ [] tail ((pos, size) :: stack) s → s_kind s = None →
  wp elemdec (λ r s', r = inr EOL ∧ s_kind s' = None ∧ at_ [] tail ((pos, size) :: stack) s') s.

Lemma decodeSliceElems_ok elemdec bound : decodes_one elemdec bound → ends elemdec → ∀ fuel w tail pos size stack s,
  (length w < fuel)%nat → (length w < bound)%nat → at_ w tail ((pos, size) :: stack) s → s_kind s = None →
  wp (decodeSliceElems fuel elemdec) (λ r s', match decode_all w with
    | Some l => r = inl l ∧ s_kind s' = None ∧ at_ [] tail ((pos + blen w, size) :: stack) s'
    | None => rejects r
    end) s.
Proof.
  intros Hone Hend fuel. induction fuel as [|fuel IH]; intros w tail pos size stack s Hf Hb Ha Hk; [lia|]. cbn [decodeSliceElems]. destruct (decide (w = [])) as [->|Hne].
  { eapply wp_seq; [by apply Hend|]. intros r s1 (-> & Hk1 & Ha1). unfold done_. wp_step. change (blen []) with 0. by rewrite Z.add_0_r. }
  rewrite (decode_all_one w Hne). eapply wp_seq; [by apply (Hone w tail ((pos, size) :: stack))|]. intros r s1 Hr. cbv beta in Hr. 
  destruct (decode_one w) as [[i rest]|] eqn:Ho.
  2:{ destruct Hr as (e & -> & He). destruct e; try done; unfold fails_; wp_step; by apply rejects_intro. }
  destruct Hr as (-> & Hk1 & Ha1). cbn [bump] in Ha1.
  assert (length rest < length w)%nat as Hlt.
  { unfold decode_one in Ho. destruct (Split w) as [[[k c] rest']|] eqn:Hs; [|done]. apply Split_shorter in Hs as [Hs _]. destruct (match k with KList => _ | _ => _ end); [|done]. by injection Ho as _ <-. }
  apply wp_got. eapply wp_wand; [apply (IH rest tail (pos + (blen w - blen rest)) size stack s1); [lia|lia|done|done]|]. intros r s2 Hr. cbv beta in Hr.
  destruct (decode_all rest) as [l|]; cbn [fmap option_fmap option_map].
  - destruct Hr as (-> & Hk2 & Ha2). unfold done_. wp_step. replace (pos + (blen w - blen rest) + blen rest) with (pos + blen w) in Ha2 by lia. done.
  - destruct Hr as (e & -> & He). by apply rejects_intro.
Qed.

(** A list: its elements are decoded in a window of their own. *)
Lemma decodeListSlice_ok elemdec bound fuel size c tail stack s : decodes_one elemdec bound → ends elemdec →
  known KList size s → at_ c tail stack s → 0 <= size <= blen c → (Z.to_nat size < fuel)%nat → (Z.to_nat size < bound)%nat →
  wp (decodeListSlice fuel elemdec) (λ r s', match decode_all (take (Z.to_nat size) c) with
    | Some l => r = inl l ∧ s_kind s' = None ∧ at_ (drop (Z.to_nat size) c) tail (bump size stack) s'
    | None => rejects r
    end) s.
Proof.
  intros Hone Hend Hkn Ha Hs Hf Hb. set (w := take (Z.to_nat size) c). set (rest := drop (Z.to_nat size) c).
  assert (blen w = size) as Hlw by (by apply blen_take). assert (c = w ++ rest) as Hc by (symmetry; apply take_drop).
  unfold decodeListSlice. apply wp_got. unfold stream_List. apply wp_got, (wp_of_run _ _ _ _ _ (ahead_known _ _ _ Hkn)). wp_step. unfold done_ at 1. wp_step.
  set (s1 := set_ahead None 0 _). destruct (at_window _ _ _ _ Ha) as (Hw & Hst & Hbl). rewrite blen_app in Hbl.
  assert (at_ w (rest ++ tail) ((0, size) :: stack) s1) as Ha1.
  { destruct Ha as [Hr Hrem Hl Hstk _]. split; cbn; [rewrite Hr, Hc; by rewrite app_assoc|rewrite Hrem, Hc, !blen_app; lia|done|by rewrite Hstk|].
    split; [cbn; lia|]. split; [constructor; [cbn; unfold blen in *; lia|done]|]. rewrite app_assoc, <-Hc, blen_app. lia. }
  assert (∀ s2, at_ [] (rest ++ tail) ((size, size) :: stack) s2 → ∀ l : list item,
    wp (got! _ := stream_ListEnd in done_ l) (λ r s', r = inl l ∧ s_kind s' = None ∧ at_ rest tail (bump size stack) s') s2) as Hfin.
  { intros s2 [Hr2 Hrem2 Hl2 Hst2 _] l. apply wp_got. unfold stream_ListEnd. wp_step. rewrite Hst2, Z.eqb_refl. cbn [negb]. wp_step. unfold done_. wp_steps.
    split; [done|]. split; [done|]. pose proof (window_drop c tail stack size (at_window _ _ _ _ Ha) Hs) as Hw2. fold rest in Hw2.
    split; cbn; [done|done|done| |done]. destruct stack as [|[pos tsize] stack]; [done|]. cbn. destruct Hw as [Hp ->]. apply Forall_cons in Hst as [Hst _]. cbn in Hst.
    by rewrite u64_small by (unfold two64, two63 in *; lia). }
  destruct (Z.eqb_spec size 0) as [H0|Hn0].
  - assert (w = []) as Hw0 by (unfold w; by rewrite H0). rewrite Hw0 in Ha1 |- *. change (decode_all []) with (Some ([] : list item)). rewrite H0 in Ha1. rewrite H0 in Hfin |- *. by apply Hfin.
  - apply wp_got. eapply wp_wand; [apply (decodeSliceElems_ok elemdec bound Hone Hend fuel w (rest ++ tail) 0 size stack s1); [unfold blen in Hlw; lia|unfold blen in Hlw; lia|done|done]|].
    intros r s2 Hr. cbv beta in Hr. destruct (decode_all w) as [l|]; [|destruct Hr as (e & -> & He); by apply rejects_intro].
    destruct Hr as (-> & _ & Ha2). rewrite Hlw, Z.add_0_l in Ha2. by apply Hfin.
Qed.

Lemma decodeInterface_ends fuel : ends (decodeInterface (S fuel)).
Proof.
  intros tail pos size stack s Ha Hk. cbn [decodeInterface]. apply wp_got. eapply wp_wand; [by apply ahead_EOL|]. intros r s1 (-> & Hk1 & Ha1). done.
Qed.
Lemma decodeInterface_ok fuel : decodes_one (decodeInterface fuel) fuel.
Proof.
  induction fuel as [|fuel IH]; intros w tail stack s Hf Ha Hk Hne; [lia|]. cbn [decodeInterface]. apply wp_got. eapply wp_wand; [by apply (ahead_ok w tail stack)|].
  intros r s1 Hr. cbv beta in Hr. unfold decode_one. rewrite Split_tag. destruct (tag w) as [[[k ts] size]|] eqn:Ht; [|destruct Hr as (e & -> & He); by apply rejects_intro].
  destruct (tag_bounds _ _ _ _ Ht) as (Hts & Hsz & Hby). cbv zeta in *. set (c := drop (Z.to_nat ts) w) in *.
  assert (blen c = blen w - ts) as Hlc by (unfold c, blen in *; rewrite length_drop; lia).
  destruct (Z.leb_spec size (blen c)) as [Hle|]; [|destruct Hr as (e & -> & He); by apply rejects_intro]. cbn [andb].
  destruct Hr as (-> & Hkn & Ha1 & Hbv). assert (blen (drop (Z.to_nat size) c) = blen c - size) as Hlr by (unfold blen in *; rewrite length_drop; lia).
  assert (bump size (bump ts stack) = bump (blen w - blen (drop (Z.to_nat size) c)) stack) as Hbump by (rewrite bump_bump; f_equal; lia).
  assert (k = KList ∨ k ≠ KList) as [->|Hnl] by (destruct k; auto).
  - cbn [overlong negb]. apply wp_got. destruct fuel as [|fuel]; [unfold blen in *; lia|].
    eapply wp_wand; [apply (decodeListSlice_ok (decodeInterface (S fuel)) (S fuel) (S fuel) size c tail (bump ts stack) s1 IH (decodeInterface_ends fuel)); [done|done|lia|unfold blen in *; lia|unfold blen in *; lia]|].
    intros r s2 Hr. cbv beta in Hr. destruct (decode_all (take (Z.to_nat size) c)) as [l|]; cbn [fmap option_fmap option_map]; [|destruct Hr as (e & -> & He); by apply rejects_intro].
    destruct Hr as (-> & Hk2 & Ha2). unfold done_. wp_step. by rewrite Hbump in Ha2.
  - assert (wp (got! b := stream_Bytes in done_ (Str b)) (λ r s', if overlong k size c then rejects r else
      r = inl (Str (match k with KByte => take 1 w | _ => take (Z.to_nat size) c end)) ∧ s_kind s' = None ∧ at_ (drop (Z.to_nat size) c) tail (bump size (bump ts stack)) s') s1) as Hb.
    { apply wp_got. eapply wp_wand; [apply (stream_Bytes_ok k size c tail (bump ts stack)); [done|done|done|by intros [_ ?]%Hby|lia]|]. intros r s2 Hr. cbv beta in Hr.
      destruct (overlong k size c); [destruct Hr as (e & -> & He); by apply rejects_intro|]. destruct Hr as (-> & Hk2 & Ha2). unfold done_. wp_step. split; [|done]. destruct k; [by rewrite Hbv|done|done]. }
    rewrite Hbump in Hb. destruct k; [| |done]; (eapply wp_wand; [exact Hb|]); intros r s2 Hr; cbv beta in Hr; destruct (overlong _ size c); done.
Qed.

Lemma at_Reset b : blen b < two63 → at_ b [] [] (stream_Reset b (blen b)).
Proof.
  intros Hb. split; cbn; rewrite ?app_nil_r; [done| |done|done|by split; [|split; [constructor|rewrite app_nil_r]]].
  destruct (Z.ltb_spec 0 (blen b)); [done|]. done.
Qed.
(** The stream accepts what the recursive decoder accepts, with the same value, and reports an error for the rest. *)
Lemma stream_decodes b : blen b < two63 →
  match DecodeBytes b with Some i => StreamDecodeBytes b = Some (inl i) | None => ∃ e, StreamDecodeBytes b = Some (inr e) end.
Proof.
  intros Hb. destruct (decide (b = [])) as [->|Hne]; [by exists io_EOF|].
  pose proof (decodeInterface_ok (S (length b)) b [] [] _ (Nat.lt_succ_diag_r _) (at_Reset b Hb) eq_refl Hne) as Hw. unfold wp in Hw.
  unfold StreamDecodeBytes. destruct (decodeInterface (S (length b)) (stream_Reset b (blen b))) as [[r s]|]; [|done].
  unfold DecodeBytes. fold (decode_all b). rewrite (decode_all_one b Hne). destruct (decode_one b) as [[i rest]|]; [|destruct Hw as (e & -> & _); by exists e].
  destruct Hw as (-> & _ & Ha). rewrite (at_r _ _ _ _ Ha), app_nil_r. destruct rest as [|x rest]; [done|].
  rewrite (proj2 (Z.ltb_lt _ _)) by (rewrite blen_cons; unfold blen; lia). rewrite (decode_all_one (x :: rest)) by done.
  destruct (decode_one (x :: rest)) as [[j rest']|]; [|by eexists]. destruct (decode_all rest'); by eexists.
Qed.
Lemma stream_DecodeBytes b i : blen b < two63 → StreamDecodeBytes b = Some (inl i) ↔ DecodeBytes b = Some i.
Proof.
  intros Hb. pose proof (stream_decodes b Hb) as Hs. destruct (DecodeBytes b) as [j|]; [rewrite Hs; split; intros; simplify_eq; done|].
  destruct Hs as [e He]. rewrite He. split; intros; simplify_eq.
Qed.

(** C30. Decoding the bytes written for a value gives the value back, with the recursive decoder and with the
    stream. *)
Theorem rlp_roundtrip i b : EncodeToBytes i = Some b → DecodeBytes b = Some i ∧ StreamDecodeBytes b = Some (inl i).
Proof.
  intros He. pose proof (DecodeBytes_EncodeToBytes i b He) as Hd. split; [done|]. apply stream_DecodeBytes; [|done].
  unfold EncodeToBytes in He. destruct (Z.ltb_spec (blen (encode i)) two63); [by injection He as <-|done].
Qed.

(** C31. The decoder accepts no other bytes for a value than those the encoder
    writes: two payloads that decode to the same value are equal.  This holds of the recursive decoder and of the stream,
    on the bytes a Go slice can hold. *)
Theorem DecodeBytes_canonical b i : DecodeBytes b = Some i ∨ blen b < two63 ∧ StreamDecodeBytes b = Some (inl i) → encode i = b.
Proof. intros [Hd|[Hb Hs]]; apply DecodeBytes_encode; [done|]. by apply stream_DecodeBytes. Qed.

(** ** Integers *)

(** The bytes of an integer, and its value: no leading zeros, and none of the values that are their own encoding. *)
Lemma readUint_value size c tail stack s : at_ c tail stack s → s_kind s = Some KString → 0 <= size <= 8 → size <= blen c →
  wp (readUint size) (λ r s', let b := take (Z.to_nat size) c in
    if (2 <=? size) && leading_zero b then r = inr ErrCanonSize
    else r = inl (be_val b) ∧ s_kind s' = None ∧ at_ (drop (Z.to_nat size) c) tail (bump size stack) s') s.
Proof.
  intros Ha Hk Hs Hc. unfold readUint. destruct (Z.eqb_spec size 0) as [->|H0].
  { unfold done_. wp_steps. change (Z.to_nat 0) with 0%nat. rewrite take_0, drop_0, bump_0. cbn [Z.leb Z.compare andb]. split; [done|]. split; [done|]. by destruct Ha. }
  destruct (Z.eqb_spec size 1) as [->|H1].
  - apply wp_got. eapply wp_wand; [by eapply readByte_ok|]. intros r s1 Hr. cbv beta in Hr. destruct c as [|x c]; [change (blen []) with 0 in Hc; lia|]. destruct Hr as (-> & Hk1 & Ha1).
    unfold done_. wp_step. change (Z.to_nat 1) with 1%nat. cbn [take drop andb Z.leb Z.compare Pos.compare Pos.compare_cont]. rewrite take_0, drop_0.
    split; [|done]. unfold be_val. simpl. f_equal.
  - apply wp_got. eapply wp_wand; [eapply readFull_ok; [exact Ha|lia]|]. intros r s1 Hr. cbv beta in Hr. rewrite (proj2 (Z.leb_le _ _)) in Hr by done. destruct Hr as (-> & Hk1 & Ha1).
    cbv zeta. rewrite (proj2 (Z.leb_le 2 size)) by lia. cbn [andb]. destruct (leading_zero _); unfold done_, fails_; by wp_step.
Qed.
Lemma be_val_small b : leading_zero b = false → (2 <= length b)%nat → 128 <= be_val b.
Proof.
  intros Hz Hl. destruct b as [|x [|y b]]; [cbn in Hl; lia..|]. cbn in Hz. rewrite be_val_cons. pose proof (byte_Z_range x). pose proof (be_val_nonneg (y :: b)).
  assert (256 <= 256 ^ blen (y :: b)); [|nia]. replace 256 with (256 ^ 1) at 1 by done. apply Z.pow_le_mono_r; [lia|]. rewrite blen_cons. unfold blen. lia.
Qed.

(** [Uint] is the decoder [dec_uint64] of the value ahead. *)
Theorem stream_Uint_ok w tail stack s : at_ w tail stack s → s_kind s = None → w ≠ [] →
  wp stream_Uint (λ r s', match decode_one w with
    | Some (i, rest) =>
        match dec_uint64 i with
        | Some z => r = inl z ∧ s_kind s' = None ∧ at_ rest tail (bump (blen w - blen rest) stack) s'
        | None => rejects r
        end
    | None => rejects r
    end) s.
Proof.
  intros Ha Hk Hne. unfold stream_Uint, stream_uint. apply wp_got. eapply wp_wand; [by apply (ahead_ok w tail stack)|].
  intros r s1 Hr. cbv beta in Hr. unfold decode_one. rewrite Split_tag. destruct (tag w) as [[[k ts] size]|] eqn:Ht; [|destruct Hr as (e & -> & He); by apply rejects_intro].
  destruct (tag_bounds _ _ _ _ Ht) as (Hts & Hsz & Hby). cbv zeta in *. set (c := drop (Z.to_nat ts) w) in *.
  assert (blen c = blen w - ts) as Hlc by (unfold c, blen in *; rewrite length_drop; lia).
  destruct (Z.leb_spec size (blen c)) as [Hle|]; [|destruct Hr as (e & -> & He); by apply rejects_intro]. cbn [andb].
  destruct Hr as (-> & Hkn & Ha1 & Hbv). assert (blen (drop (Z.to_nat size) c) = blen c - size) as Hlr by (unfold blen in *; rewrite length_drop; lia).
  assert (bump size (bump ts stack) = bump (blen w - blen (drop (Z.to_nat size) c)) stack) as Hbump by (rewrite bump_bump; f_equal; lia). destruct k.
  - destruct (Hby eq_refl) as [-> ->]. rewrite (Hbv eq_refl). cbn [overlong negb fmap option_fmap option_map dec_uint64 leading_zero length Nat.ltb Nat.leb]. rewrite orb_false_r. wp_step.
    destruct (byte_Z (s_byteval s1) =? 0); unfold done_, fails_; wp_steps; [by apply rejects_intro|].
    split; [unfold be_val; simpl; f_equal; lia|]. split; [done|]. change (Z.to_nat 0) with 0%nat in *. rewrite drop_0 in *. rewrite <-Hbump, bump_0. by destruct Ha1.
  - assert (size <= 8 → blen (take (Z.to_nat size) c) = size) as Hlt by (intros; apply blen_take; lia). change (64 / 8) with 8. destruct (Z.ltb_spec 8 size) as [Hgt|Hle8].
    + unfold fails_. wp_step. destruct (overlong KString size c); cbn [negb fmap option_fmap option_map dec_uint64]; [by apply rejects_intro|].
      rewrite (proj2 (Nat.ltb_lt _ _)) by (rewrite length_take; unfold blen in *; lia). rewrite orb_true_r. by apply rejects_intro.
    + specialize (Hlt Hle8). eapply wp_seq; [apply (readUint_value size c tail (bump ts stack)); [done|apply Hkn|lia|done]|]. intros r s2 Hr. cbv beta in Hr. cbv zeta in Hr.
      set (b := take (Z.to_nat size) c) in *.
      assert (overlong KString size c = (size =? 1) && (be_val b <? 128)) as Hov.
      { cbn. destruct (Z.eqb_spec size 1) as [->|]; [|done]. cbn [andb]. unfold b. change (Z.to_nat 1) with 1%nat. destruct c as [|x c']; [change (blen []) with 0 in Hle; lia|]. simpl. rewrite take_0. unfold be_val. simpl. f_equal. }
      destruct ((2 <=? size) && leading_zero b) eqn:Hlz.
      * subst r. unfold fails_. wp_step. apply andb_true_iff in Hlz as [H2%Z.leb_le Hz]. rewrite Hov, (proj2 (Z.eqb_neq size 1)) by lia. cbn [andb negb fmap option_fmap option_map dec_uint64].
        rewrite Hz. cbn [orb]. by apply rejects_intro.
      * destruct Hr as (-> & Hk2 & Ha2). rewrite Hbump in Ha2. rewrite Hov. assert (length b = Z.to_nat size) as Hlb by (unfold blen in Hlt; lia).
        assert ((0 <? size) && (be_val b <? 128) = (size =? 1) && (be_val b <? 128) ∧ ((size =? 1) && (be_val b <? 128) = false → leading_zero b = false)) as [-> Hz].
        { destruct (Z.eqb_spec size 0) as [Hs0|]; [assert (b = []) as -> by (apply nil_length_inv; lia); by rewrite Hs0|]. rewrite (proj2 (Z.ltb_lt 0 size)) by lia. cbn [andb].
          destruct (Z.eqb_spec size 1) as [Hs1|]; cbn [andb].
          - split; [done|]. destruct b as [|x [|y b']]; [done| |cbn in Hlb; lia]. unfold be_val. simpl. intros ?%Z.ltb_ge. apply Z.eqb_neq. lia.
          - rewrite (proj2 (Z.leb_le 2 size)) in Hlz by lia. cbn [andb] in Hlz. rewrite (proj2 (Z.ltb_ge _ _)); [done|]. apply be_val_small; [done|lia]. }
        destruct ((size =? 1) && (be_val b <? 128)); unfold done_, fails_; wp_step; cbn [negb fmap option_fmap option_map dec_uint64]; [by apply rejects_intro|].
        rewrite Hz by done. rewrite (proj2 (Nat.ltb_ge _ _)) by lia. done.
  - unfold fails_. wp_step. cbn [overlong negb]. destruct (decode_all _); cbn [fmap option_fmap option_map dec_uint64]; by apply rejects_intro.
Qed.
