(* ===== verification/Fullnode.v ===== *)
(** * Fullnode sets: consensus/sport/fullnode and model_fullnode.go

    A fullnode is a pointer to an immutable struct holding its address, so it
    is modelled by that address; a nil [Fullnode] is [None].  The selector of a
    set is always [roundRobinSpeaker], the only function [newFullnodeSet]
    stores.  The set is kept sorted by [Address.String], the EIP-55 rendering
    of the address by go-ethereum, which is a parameter known only to be
    injective. *)

From Stdlib Require Import ZArith Lia.
From Stdlib Require HexString.
From Stdlib Require Floats.SpecFloat.
From S2P Require Import Prelude.

(** [common.Address], [common.Hash] (fixed-size arrays read as big-endian
    numbers, so that [bytes.Compare] is the order of [Z]). *)
Abbreviation address := Z (only parsing).
Abbreviation hash := Z (only parsing).

(** [common.Address.String]. *)
Class AddrString := {
  addr_String : address → string;
  addr_String_inj :: Inj (=) (=) addr_String
}.

(** The hexadecimal rendering without checksum, for concrete runs. *)
#[export] Instance hex_addr_string : AddrString.
Proof.
  refine {| addr_String := HexString.of_Z |}.
  intros x y H. by rewrite <-(HexString.to_Z_of_Z x), H, HexString.to_Z_of_Z.
Defined.

Record fullnodeSet := FullnodeSet {
  fs_fullnodes : list address;
  fs_policy : Z;
  fs_speaker : option address
}.

#[export] Instance fullnodeSet_eq_dec : EqDecision fullnodeSet.
Proof. solve_decision. Defined.

(** SpeakerPolicy *)
Definition RoundRobin : Z := 0.

Section fullnode.
  Context `{AddrString}.

(** ** Operations *)

(** [Fullnodes.Less], as the order [sort.Sort] sorts by. *)
Definition Less (a b : address) : bool := String.ltb (addr_String a) (addr_String b).
Definition addr_le (a b : address) : Prop := String.le (addr_String a) (addr_String b).
#[global] Instance addr_le_dec : RelDecision addr_le.
Proof. intros a b. unfold addr_le. apply _. Defined.

(** [sort.Sort] on [Fullnodes]. *)
Definition sort_fullnodes (l : list address) : list address := merge_sort addr_le l.

Definition Size (s : fullnodeSet) : Z := Z.of_nat (length (fs_fullnodes s)).
Definition fs_List (s : fullnodeSet) : list address := fs_fullnodes s.

Definition GetByIndex (s : fullnodeSet) (i : Z) : option address :=
  if (0 <=? i) && (i <? u64 (Size s)) then fs_fullnodes s !! Z.to_nat i else None.

(** [(-1, nil)] is [None]. *)
Definition GetByAddress (s : fullnodeSet) (addr : address) : option (Z * address) :=
  match list_find (λ v, addr = v) (fs_List s) with
  | Some (i, v) => Some (Z.of_nat i, v)
  | None => None
  end.

Definition GetSpeaker (s : fullnodeSet) : option address := fs_speaker s.

(** [reflect.DeepEqual] of two possibly nil interface values: two nils are
    deeply equal. *)
Definition IsSpeaker (s : fullnodeSet) (a : address) : bool :=
  bool_decide (GetSpeaker s = snd <$> GetByAddress s a).

Definition emptyAddress (a : address) : bool := a =? 0.

Definition calcSeed (s : fullnodeSet) (speaker : address) (round : Z) : Z :=
  let offset := match GetByAddress s speaker with Some (idx, _) => idx | None => 0 end in
  u64 (u64 offset + round).

Definition roundRobinSpeaker (s : fullnodeSet) (speaker : address) (round : Z) : option address :=
  if Size s =? 0 then None else
  let seed := if emptyAddress speaker then round else u64 (calcSeed s speaker round + 1) in
  let pick := seed mod u64 (Size s) in
  GetByIndex s pick.

Definition CalcSpeaker (s : fullnodeSet) (lastSpeaker : address) (round : Z) : fullnodeSet :=
  FullnodeSet (fs_fullnodes s) (fs_policy s) (roundRobinSpeaker s lastSpeaker round).

Definition newFullnodeSet (addrs : list address) (policy : Z) : fullnodeSet :=
  let l := sort_fullnodes addrs in
  FullnodeSet l policy (if 0 <? Z.of_nat (length l) then l !! 0%nat else None).

Definition AddFullnode (s : fullnodeSet) (a : address) : bool * fullnodeSet :=
  if bool_decide (a ∈ fs_fullnodes s) then (false, s)
  else (true, FullnodeSet (sort_fullnodes (fs_fullnodes s ++ [a])) (fs_policy s) (fs_speaker s)).

Definition RemoveFullnode (s : fullnodeSet) (a : address) : bool * fullnodeSet :=
  match list_find (λ v, v = a) (fs_fullnodes s) with
  | Some (i, _) =>
      (true, FullnodeSet (take i (fs_fullnodes s) ++ drop (S i) (fs_fullnodes s))
                         (fs_policy s) (fs_speaker s))
  | None => (false, s)
  end.

Definition Copy (s : fullnodeSet) : fullnodeSet := newFullnodeSet (fs_fullnodes s) (fs_policy s).

(** [int(math.Ceil(float64(Size+1)/3.0)) - 1] and
    [int(math.Ceil(float64(2*Size)/3.0))], with the quotient taken exactly. *)
Definition MaxFaulty (s : fullnodeSet) : Z := ceil_div (Size s + 1) 3 - 1.
Definition MinApprovers (s : fullnodeSet) : Z := ceil_div (2 * Size s) 3.
Definition E (s : fullnodeSet) : Z := 1.
Definition Policy (s : fullnodeSet) : Z := fs_policy s.

End fullnode.

(** ** The float64 arithmetic of the two thresholds

    [float64(x) / 3.0] is the IEEE division rounded to 53 bits, [math.Ceil]
    the least integer above. *)
Module Float64.
Import SpecFloat.

Definition of_Z (z : Z) : spec_float := binary_normalize 53 1024 z 0 false.
Definition div (x y : spec_float) : spec_float := SFdiv 53 1024 x y.
Definition int_Ceil (x : spec_float) : Z :=
  match x with
  | S754_finite s m e =>
      let n := if s then Z.neg m else Z.pos m in
      if 0 <=? e then n * 2 ^ e else ceil_div n (2 ^ (- e))
  | _ => 0
  end.
End Float64.

Definition MaxFaulty_float64 (n : Z) : Z :=
  Float64.int_Ceil (Float64.div (Float64.of_Z (n + 1)) (Float64.of_Z 3)) - 1.
Definition MinApprovers_float64 (n : Z) : Z :=
  Float64.int_Ceil (Float64.div (Float64.of_Z (2 * n)) (Float64.of_Z 3)).

(** ** The order of the set *)

Section order.
Context `{AddrString}.

#[global] Instance addr_le_trans : Transitive addr_le.
Proof. intros a b c. unfold addr_le. apply transitivity. Qed.
#[global] Instance addr_le_antisymm : AntiSymm (=) addr_le.
Proof. intros a b Hab Hba. apply (inj addr_String). by apply (anti_symm String.le). Qed.
#[global] Instance addr_le_total : Total addr_le.
Proof. intros a b. unfold addr_le. apply (total String.le). Qed.

Lemma sort_fullnodes_perm l : sort_fullnodes l ≡ₚ l.
Proof. apply merge_sort_Permutation. Qed.

Lemma sort_fullnodes_sorted l : Sorted addr_le (sort_fullnodes l).
Proof. apply Sorted_merge_sort, _. Qed.

(** Whatever algorithm [sort.Sort] uses, its result is this one. *)
Lemma sort_fullnodes_unique l l' : l' ≡ₚ l → Sorted addr_le l' → l' = sort_fullnodes l.
Proof.
  intros Hp Hs. apply (Sorted_unique addr_le); [done|apply sort_fullnodes_sorted|].
  by rewrite sort_fullnodes_perm.
Qed.

Lemma sort_fullnodes_id l : Sorted addr_le l → sort_fullnodes l = l.
Proof. intros. symmetry. by apply sort_fullnodes_unique. Qed.

Lemma sort_fullnodes_proper l l' : l ≡ₚ l' → sort_fullnodes l = sort_fullnodes l'.
Proof.
  intros Hp. apply sort_fullnodes_unique; [|apply sort_fullnodes_sorted].
  by rewrite sort_fullnodes_perm.
Qed.

Lemma elem_of_sort_fullnodes l a : a ∈ sort_fullnodes l ↔ a ∈ l.
Proof. by rewrite sort_fullnodes_perm. Qed.

Lemma length_sort_fullnodes l : length (sort_fullnodes l) = length l.
Proof. by rewrite sort_fullnodes_perm. Qed.

Lemma Less_le a b : Less a b = false ↔ addr_le b a.
Proof.
  unfold Less, addr_le, String.le, String.ltb, String.leb.
  rewrite (String.compare_antisym (addr_String b)).
  destruct (String.compare _ _); simpl; split; intros; done || auto.
Qed.
End order.

(** The invariant of every set the program builds: sorted, no duplicates. *)
Definition fs_wf `{AddrString} (s : fullnodeSet) : Prop :=
  Sorted addr_le (fs_fullnodes s) ∧ NoDup (fs_fullnodes s).

Section lookup.
Context `{AddrString}.

Lemma GetByAddress_Some s a i v :
  GetByAddress s a = Some (i, v) →
  v = a ∧ 0 <= i ∧ fs_fullnodes s !! Z.to_nat i = Some a.
Proof.
  unfold GetByAddress, fs_List. intros Hg.
  destruct (list_find _ _) as [[j w]|] eqn:Hf; simplify_eq.
  apply list_find_Some in Hf as (Hl & -> & _).
  rewrite Nat2Z.id. repeat split; [lia|done].
Qed.

Lemma GetByAddress_None s a : GetByAddress s a = None ↔ a ∉ fs_fullnodes s.
Proof.
  unfold GetByAddress, fs_List. destruct (list_find _ _) as [[j w]|] eqn:Hf.
  - apply list_find_Some in Hf as (Hl & -> & _).
    split; [done|]. intros []. by eapply list_elem_of_lookup_2.
  - apply list_find_None in Hf. rewrite Forall_forall in Hf.
    split; [|done]. intros _ Hin. by apply (Hf _ Hin).
Qed.

Lemma GetByAddress_elem s a : is_Some (GetByAddress s a) ↔ a ∈ fs_fullnodes s.
Proof.
  destruct (decide (a ∈ fs_fullnodes s)) as [Hin|Hin]; split; intros Hs; try done.
  - destruct (GetByAddress s a) eqn:E; [eauto|]. by apply GetByAddress_None in E.
  - apply GetByAddress_None in Hin. rewrite Hin in Hs. by destruct Hs.
Qed.

Lemma GetByAddress_snd s a v : snd <$> GetByAddress s a = Some v → v = a ∧ a ∈ fs_fullnodes s.
Proof.
  destruct (GetByAddress s a) as [[i w]|] eqn:E; intros; simplify_eq/=.
  pose proof (GetByAddress_Some _ _ _ _ E) as (-> & _ & ?).
  split; [done|]. apply GetByAddress_elem. eauto.
Qed.

Lemma Size_nonneg s : 0 <= Size s.
Proof. unfold Size. lia. Qed.

Lemma GetByIndex_Some s i : 0 <= i < Size s → Size s < two64 →
  ∃ a, GetByIndex s i = Some a ∧ a ∈ fs_fullnodes s ∧ fs_fullnodes s !! Z.to_nat i = Some a.
Proof.
  intros Hi Hs. unfold GetByIndex. rewrite (u64_small (Size s)) by lia.
  rewrite (proj2 (Z.leb_le 0 i)), (proj2 (Z.ltb_lt i (Size s))) by lia. simpl.
  destruct (fs_fullnodes s !! Z.to_nat i) as [a|] eqn:E.
  - exists a. split_and!; eauto using list_elem_of_lookup_2.
  - apply lookup_ge_None in E. unfold Size in *. lia.
Qed.
End lookup.

(** ** Building and updating the set *)

Section update.
Context `{AddrString}.

Lemma newFullnodeSet_fullnodes addrs p :
  fs_fullnodes (newFullnodeSet addrs p) = sort_fullnodes addrs.
Proof. done. Qed.

Lemma newFullnodeSet_wf addrs p : NoDup addrs → fs_wf (newFullnodeSet addrs p).
Proof.
  intros Hd. split; [apply sort_fullnodes_sorted|].
  simpl. by rewrite sort_fullnodes_perm.
Qed.

Lemma Copy_fullnodes s : fs_wf s → fs_fullnodes (Copy s) = fs_fullnodes s.
Proof. intros [Hs _]. by apply sort_fullnodes_id. Qed.

Lemma Copy_perm s : fs_fullnodes (Copy s) ≡ₚ fs_fullnodes s.
Proof. apply sort_fullnodes_perm. Qed.

Lemma StronglySorted_remove (l1 l2 : list address) a :
  StronglySorted addr_le (l1 ++ a :: l2) → StronglySorted addr_le (l1 ++ l2).
Proof.
  intros Hs. apply StronglySorted_app in Hs as (Hx & H1 & H2).
  apply StronglySorted_cons in H2 as [_ H2].
  apply StronglySorted_app. split_and!; [|done|done].
  intros x y Hx1 Hy2. apply Hx; [done|]. by right.
Qed.

(** The list [RemoveFullnode] leaves: the first occurrence is cut out. *)
Lemma RemoveFullnode_true s a s' : RemoveFullnode s a = (true, s') →
  ∃ l1 l2, fs_fullnodes s = l1 ++ a :: l2 ∧ (¬ a ∈ l1) ∧
    s' = FullnodeSet (l1 ++ l2) (fs_policy s) (fs_speaker s).
Proof.
  unfold RemoveFullnode. intros Hr.
  destruct (list_find _ _) as [[i v]|] eqn:Hf; simplify_eq.
  apply list_find_Some in Hf as (Hl & -> & Hb).
  exists (take i (fs_fullnodes s)), (drop (S i) (fs_fullnodes s)). split_and!.
  - by rewrite (take_drop_middle _ _ a).
  - intros (j & Hj)%list_elem_of_lookup_1. pose proof (lookup_lt_Some _ _ _ Hj).
    rewrite length_take in *. rewrite lookup_take_lt in Hj by lia.
    apply (Hb j a); [done|lia|done].
  - done.
Qed.

Lemma RemoveFullnode_false s a s' : RemoveFullnode s a = (false, s') → s' = s ∧ a ∉ fs_fullnodes s.
Proof.
  unfold RemoveFullnode. intros Hr.
  destruct (list_find _ _) as [[i v]|] eqn:Hf; simplify_eq.
  split; [done|]. apply list_find_None in Hf. rewrite Forall_forall in Hf.
  intros Hin. by apply (Hf a).
Qed.

Lemma RemoveFullnode_perm s a s' :
  RemoveFullnode s a = (true, s') → fs_fullnodes s ≡ₚ a :: fs_fullnodes s'.
Proof.
  intros (l1 & l2 & Hl & _ & ->)%RemoveFullnode_true. rewrite Hl. simpl.
  by rewrite Permutation_middle.
Qed.

Lemma RemoveFullnode_wf s a : fs_wf s → fs_wf (RemoveFullnode s a).2.
Proof.
  intros [Hs Hd]. destruct (RemoveFullnode s a) as [[] s'] eqn:E; simpl.
  - apply RemoveFullnode_true in E as (l1 & l2 & Hl & _ & ->). rewrite Hl in *. split; simpl.
    + apply StronglySorted_Sorted. eapply StronglySorted_remove, Sorted_StronglySorted; [apply _|done].
    + rewrite <-Permutation_middle, NoDup_cons in Hd. by destruct Hd.
  - by apply RemoveFullnode_false in E as [-> _].
Qed.

Lemma AddFullnode_wf s a : fs_wf s → fs_wf (AddFullnode s a).2.
Proof.
  intros [Hs Hd]. unfold AddFullnode. case_bool_decide as Hin; [by split|]. split; simpl.
  - apply sort_fullnodes_sorted.
  - rewrite sort_fullnodes_perm. apply NoDup_app. split_and!; [done| |apply NoDup_singleton].
    intros x Hx ->%list_elem_of_singleton. done.
Qed.

(** The set built from a list of addresses does not depend on their order. *)
Theorem newFullnodeSet_order_independent addrs addrs' p :
  addrs ≡ₚ addrs' → newFullnodeSet addrs p = newFullnodeSet addrs' p.
Proof.
  intros Hp. unfold newFullnodeSet. by rewrite (sort_fullnodes_proper _ _ Hp).
Qed.

(** [AddFullnode] inserts an absent address, keeping the set sorted and free
    of duplicates, and reports whether it did. *)
Theorem AddFullnode_spec s a ok s' :
  fs_wf s → AddFullnode s a = (ok, s') →
  fs_wf s' ∧ ok = bool_decide (a ∉ fs_fullnodes s) ∧
  (∀ b, b ∈ fs_fullnodes s' ↔ b = a ∨ b ∈ fs_fullnodes s) ∧
  Size s' = Size s + (if ok then 1 else 0) ∧
  fs_speaker s' = fs_speaker s ∧ fs_policy s' = fs_policy s.
Proof.
  intros Hwf Ha. pose proof (AddFullnode_wf s a Hwf) as Hwf'. rewrite Ha in Hwf'.
  split; [done|]. unfold AddFullnode in Ha. case_bool_decide as Hin; simplify_eq/=.
  - rewrite bool_decide_eq_false_2 by auto. split_and!; [done| |lia|done|done].
    intros b. split; [by right|]. by intros [->|?].
  - rewrite bool_decide_eq_true_2 by done. split_and!; [done| | |done|done].
    + intros b. rewrite elem_of_sort_fullnodes, elem_of_app, list_elem_of_singleton. tauto.
    + unfold Size. simpl. rewrite length_sort_fullnodes, length_app. simpl. lia.
Qed.

(** [RemoveFullnode] removes a present address and nothing else, and reports
    whether it did. *)
Theorem RemoveFullnode_spec s a ok s' :
  fs_wf s → RemoveFullnode s a = (ok, s') →
  fs_wf s' ∧ ok = bool_decide (a ∈ fs_fullnodes s) ∧
  (∀ b, b ∈ fs_fullnodes s' ↔ b ≠ a ∧ b ∈ fs_fullnodes s) ∧
  Size s' = Size s - (if ok then 1 else 0).
Proof.
  intros Hwf Hr. pose proof (RemoveFullnode_wf s a Hwf) as Hwf'. rewrite Hr in Hwf'.
  split; [done|]. destruct ok.
  - apply RemoveFullnode_perm in Hr as Hp. destruct Hwf as [_ Hd].
    rewrite Hp, NoDup_cons in Hd. destruct Hd as [Hna Hd].
    rewrite bool_decide_eq_true_2 by (rewrite Hp; by left). split_and!; [done| |].
    + intros b. rewrite Hp, elem_of_cons. split; [|tauto].
      intros Hb. split; [by intros ->|by right].
    + unfold Size. rewrite Hp. simpl. lia.
  - apply RemoveFullnode_false in Hr as [-> Hna].
    rewrite bool_decide_eq_false_2 by done. split_and!; [done| |lia].
    intros b. split; [|tauto]. intros Hb. split; [|done]. by intros ->.
Qed.

(** Removing the address just added gives the original set back. *)
Theorem RemoveFullnode_AddFullnode s a :
  fs_wf s → a ∉ fs_fullnodes s → RemoveFullnode (AddFullnode s a).2 a = (true, s).
Proof.
  intros Hwf Hna. destruct (AddFullnode s a) as [ok s1] eqn:Ha.
  destruct (AddFullnode_spec _ _ _ _ Hwf Ha) as (Hwf1 & Hok & Hin & _ & Hsp & Hpo). simpl.
  destruct (RemoveFullnode s1 a) as [ok2 s2] eqn:Hr.
  destruct (RemoveFullnode_spec _ _ _ _ Hwf1 Hr) as (Hwf2 & -> & Hin2 & _).
  rewrite bool_decide_eq_true_2 in Hr |- * by (apply Hin; by left). f_equal.
  apply RemoveFullnode_true in Hr as (l1 & l2 & Hl & _ & ->).
  destruct s as [l p sp]; simpl in *. subst p sp. f_equal.
  apply (Sorted_unique addr_le); [apply Hwf2|apply Hwf|].
  apply NoDup_Permutation; [apply Hwf2|apply Hwf|]. intros x.
  rewrite Hin2, Hin. split; [tauto|]. intros Hx. split; [by intros ->|tauto].
Qed.
End update.

(** ** Thresholds and quorums *)

Section quorum.
Context `{AddrString}.

Lemma MinApprovers_bounds s : 2 * Size s <= 3 * MinApprovers s < 2 * Size s + 3.
Proof. unfold MinApprovers. pose proof (ceil_div_spec (2 * Size s) 3). lia. Qed.

Lemma MaxFaulty_bounds s : Size s - 3 < 3 * MaxFaulty s <= Size s.
Proof. unfold MaxFaulty. pose proof (ceil_div_spec (Size s + 1) 3). lia. Qed.

Definition members (s : fullnodeSet) : gset address := list_to_set (fs_fullnodes s).

Lemma size_members s : NoDup (fs_fullnodes s) → Z.of_nat (size (members s)) = Size s.
Proof. intros. unfold members, Size. by rewrite size_list_to_set. Qed.

Lemma size_inter_ge (A B U : gset address) :
  A ⊆ U → B ⊆ U → (size A + size B <= size U + size (A ∩ B))%nat.
Proof.
  intros HA HB. assert (size (B ∪ A) <= size U)%nat as Hu by (apply subseteq_size; set_solver).
  rewrite size_union_alt, size_difference_alt in Hu. lia.
Qed.

(** Two sets of [MinApprovers] fullnodes share at least a third of the set. *)
Lemma quorum_overlap s (q1 q2 : gset address) :
  NoDup (fs_fullnodes s) → q1 ⊆ members s → q2 ⊆ members s →
  MinApprovers s <= Z.of_nat (size q1) → MinApprovers s <= Z.of_nat (size q2) →
  Size s <= 3 * Z.of_nat (size (q1 ∩ q2)).
Proof.
  intros Hd H1 H2 Hs1 Hs2. pose proof (size_inter_ge q1 q2 (members s) H1 H2).
  pose proof (size_members s Hd). pose proof (MinApprovers_bounds s). lia.
Qed.

Lemma correct_in_overlap s (q1 q2 faulty : gset address) :
  NoDup (fs_fullnodes s) → q1 ⊆ members s → q2 ⊆ members s →
  MinApprovers s <= Z.of_nat (size q1) → MinApprovers s <= Z.of_nat (size q2) →
  3 * Z.of_nat (size faulty) < Size s →
  ∃ a, a ∈ q1 ∧ a ∈ q2 ∧ a ∉ faulty.
Proof.
  intros Hd H1 H2 Hs1 Hs2 Hf. pose proof (quorum_overlap s q1 q2 Hd H1 H2 Hs1 Hs2).
  destruct (decide (q1 ∩ q2 ⊆ faulty)) as [Hsub|Hsub].
  - apply subseteq_size in Hsub. lia.
  - destruct (set_choose_or_empty ((q1 ∩ q2) ∖ faulty)) as [[a Ha]|He].
    + exists a. set_solver.
    + destruct Hsub. intros x Hx. destruct (decide (x ∈ faulty)); set_solver.
Qed.

(** When fewer than a third of the fullnodes are faulty, any two quorums share
    a correct fullnode. *)
Theorem quorum_intersection s (q1 q2 faulty : gset address) :
  NoDup (fs_fullnodes s) → q1 ⊆ members s → q2 ⊆ members s →
  MinApprovers s <= Z.of_nat (size q1) → MinApprovers s <= Z.of_nat (size q2) →
  3 * Z.of_nat (size faulty) < Size s →
  ∃ a, a ∈ q1 ∧ a ∈ q2 ∧ a ∉ faulty.
Proof. apply correct_in_overlap. Qed.

(** The fullnodes that are not counted as faulty can reach every threshold. *)
Theorem thresholds_reachable s :
  0 < Size s → MinApprovers s <= Size s - MaxFaulty s ∧ MaxFaulty s + E s <= Size s.
Proof.
  intros. unfold E. pose proof (MinApprovers_bounds s). pose proof (MaxFaulty_bounds s). lia.
Qed.

(** The number of faults [MaxFaulty] announces is tolerated by the quorum size
    exactly when the size of the set is not a multiple of three. *)
Theorem MaxFaulty_tolerated_iff s :
  0 < Size s → MaxFaulty s < 2 * MinApprovers s - Size s ↔ Size s mod 3 ≠ 0.
Proof.
  intros. pose proof (MinApprovers_bounds s). pose proof (MaxFaulty_bounds s).
  pose proof (Z.div_mod (Size s) 3). pose proof (Z.mod_pos_bound (Size s) 3). lia.
Qed.

(** The weak certificate of a round change (F+E messages) and the strong one
    ([MinApprovers] messages) have the same size in sets of one and of three. *)
Theorem thresholds_collide_iff s :
  0 < Size s → MaxFaulty s + E s = MinApprovers s ↔ Size s = 1 ∨ Size s = 3.
Proof.
  intros. unfold E. pose proof (MinApprovers_bounds s). pose proof (MaxFaulty_bounds s). lia.
Qed.
End quorum.

(** The float64 computation of both thresholds is exact for the sets of at
    most 512 fullnodes. *)
Theorem thresholds_float64_exact (s : fullnodeSet) :
  Size s <= 512 →
  MaxFaulty s = MaxFaulty_float64 (Size s) ∧ MinApprovers s = MinApprovers_float64 (Size s).
Proof.
  intros Hs. unfold MaxFaulty, MinApprovers. set (n := Size s) in *.
  assert (0 <= n) by apply Size_nonneg. clearbody n.
  assert (∀ k : nat, (k < 513)%nat →
    (ceil_div (Z.of_nat k + 1) 3 - 1 =? MaxFaulty_float64 (Z.of_nat k)) &&
    (ceil_div (2 * Z.of_nat k) 3 =? MinApprovers_float64 (Z.of_nat k)) = true) as Hk.
  { intros k Hk. apply (proj1 (forallb_forall (λ k : nat,
      (ceil_div (Z.of_nat k + 1) 3 - 1 =? MaxFaulty_float64 (Z.of_nat k)) &&
      (ceil_div (2 * Z.of_nat k) 3 =? MinApprovers_float64 (Z.of_nat k))) (seq 0 513))).
    - vm_compute. reflexivity.
    - apply in_seq. lia. }
  specialize (Hk (Z.to_nat n) ltac:(lia)). rewrite Z2Nat.id in Hk by lia.
  apply andb_prop in Hk as [?%Z.eqb_eq ?%Z.eqb_eq]. done.
Qed.

(** ** The speaker *)

Section speaker.
Context `{AddrString}.

(** Every address passes for the speaker of a set without fullnodes. *)
Theorem IsSpeaker_empty s last round a :
  fs_fullnodes s = [] → IsSpeaker (CalcSpeaker s last round) a = true.
Proof.
  intros He. unfold IsSpeaker, GetSpeaker, CalcSpeaker, roundRobinSpeaker, Size, GetByAddress,
    fs_List. simpl. by rewrite He.
Qed.

(** In a non-empty set the speaker is a fullnode and only that address is. *)
Lemma IsSpeaker_spec s a v : fs_speaker s = Some v →
  IsSpeaker s a = true ↔ a = v ∧ v ∈ fs_fullnodes s.
Proof.
  intros Hv. unfold IsSpeaker, GetSpeaker. rewrite Hv, bool_decide_eq_true. split.
  - intros Hs. symmetry in Hs. by apply GetByAddress_snd in Hs as [-> ?].
  - intros [-> Hin]. apply GetByAddress_elem in Hin as [[i w] Hw]. rewrite Hw.
    by apply GetByAddress_Some in Hw as (-> & _ & _).
Qed.

(** The offset from which a round counts: the position after the last speaker. *)
Definition speaker_base (s : fullnodeSet) (last : address) : Z :=
  if emptyAddress last then 0
  else match GetByAddress s last with Some (i, _) => i + 1 | None => 1 end.

Lemma speaker_base_bounds s last : 0 <= speaker_base s last <= Size s + 1.
Proof.
  unfold speaker_base. pose proof (Size_nonneg s). case_match; [lia|].
  destruct (GetByAddress s last) as [[i v]|] eqn:E; [|lia].
  apply GetByAddress_Some in E as (_ & Hi & Hl). apply lookup_lt_Some in Hl. unfold Size. lia.
Qed.

Lemma CalcSpeaker_index s last round :
  0 < Size s → 0 <= round → round + Size s + 1 < two64 →
  fs_speaker (CalcSpeaker s last round) =
  fs_fullnodes s !! Z.to_nat ((speaker_base s last + round) mod Size s).
Proof.
  intros Hn Hr Ho. pose proof (speaker_base_bounds s last) as Hb.
  simpl. unfold roundRobinSpeaker. rewrite (proj2 (Z.eqb_neq _ _)) by lia.
  assert ((if emptyAddress last then round else u64 (calcSeed s last round + 1))
          = speaker_base s last + round) as ->.
  { unfold speaker_base, calcSeed in *. destruct (emptyAddress last); [lia|].
    destruct (GetByAddress s last) as [[i v]|] eqn:E.
    - apply GetByAddress_Some in E as (_ & Hi & Hl). apply lookup_lt_Some in Hl.
      unfold Size in *. rewrite (u64_small i), (u64_small (i + round)), u64_small by lia. lia.
    - rewrite (u64_small 0), (u64_small (0 + round)), u64_small by lia. lia. }
  rewrite (u64_small (Size s)) by lia.
  set (k := (_ + round) mod Size s).
  assert (0 <= k < Size s) by (apply Z.mod_pos_bound; lia).
  destruct (GetByIndex_Some s k) as (a & -> & _ & ->); [done|lia|done].
Qed.

(** C35. Round-robin fairness: in any window of as many rounds as there are
    fullnodes, every fullnode is the speaker of exactly one round. *)
Theorem speaker_rotation s last r0 a :
  NoDup (fs_fullnodes s) → a ∈ fs_fullnodes s →
  0 <= r0 → r0 + 2 * Size s + 1 < two64 →
  ∃ r, r0 <= r < r0 + Size s ∧ fs_speaker (CalcSpeaker s last r) = Some a ∧
    ∀ r', r0 <= r' < r0 + Size s → fs_speaker (CalcSpeaker s last r') = Some a → r' = r.
Proof.
  intros Hd Hin Hr0 Ho. apply list_elem_of_lookup_1 in Hin as [i Hi].
  pose proof (lookup_lt_Some _ _ _ Hi) as Hlt.
  set (n := Size s) in *. assert (0 < n) by (unfold n, Size; lia).
  set (b := speaker_base s last). pose proof (speaker_base_bounds s last) as Hb. fold b n in Hb.
  assert (Hdm : ∀ r, (b + r) mod n = Z.of_nat i ↔ ∃ q, b + r = n * q + Z.of_nat i).
  { intros r. split.
    - intros Hm. exists ((b + r) / n). pose proof (Z.div_mod (b + r) n). lia.
    - intros [q ->]. rewrite Z.mul_comm, Z.add_comm, Z.mod_add by lia.
      apply Z.mod_small. unfold n, Size. lia. }
  assert (Hsp : ∀ r, 0 <= r → r + n + 1 < two64 →
    fs_speaker (CalcSpeaker s last r) = Some a ↔ (b + r) mod n = Z.of_nat i).
  { intros r Hr Hro. rewrite CalcSpeaker_index by (fold n; lia). fold b n.
    pose proof (Z.mod_pos_bound (b + r) n ltac:(lia)). split.
    - intros Hl. pose proof (NoDup_lookup _ _ _ _ Hd Hi Hl). lia.
    - intros ->. by rewrite Nat2Z.id. }
  set (r := r0 + (Z.of_nat i - b - r0) mod n).
  pose proof (Z.mod_pos_bound (Z.of_nat i - b - r0) n ltac:(lia)) as Hm.
  assert (Hr : (b + r) mod n = Z.of_nat i).
  { apply Hdm. exists (- ((Z.of_nat i - b - r0) / n)).
    pose proof (Z.div_mod (Z.of_nat i - b - r0) n ltac:(lia)). unfold r.
    rewrite Z.mul_opp_r. lia. }
  exists r. split; [unfold r; lia|]. split; [apply Hsp; [unfold r; lia..|done]|].
  intros r' Hr' Hsp'. apply Hsp in Hsp'; [|lia..].
  apply Hdm in Hsp' as [q' Hq'], Hr as [q Hq].
  assert (r' - r = n * (q' - q)) by lia. assert (r0 <= r < r0 + n) by (unfold r; lia).
  assert (q' = q) as -> by nia. lia.
Qed.
End speaker.
