(* ===== verification/Messages.v ===== *)
(** * The data of the consensus: consensus/sport/model_*.go, signature_funcs.go,
    smilobftcore/{message,message_set,roundstate,state}.go and the round change
    sets of core_roundchange.go

    Pointers that the code tests against nil are options; locks are dropped
    (every object is owned by the event loop).  Maps keyed by address or round
    are [gmap]s; where the code iterates over one in Go's random order the
    result does not depend on the order, or is a list the code uses as a bag. *)

From Stdlib Require Import ZArith Lia.
From S2P Require Import Prelude Errors Rlp Fullnode.
Open Scope didux_scope.

(** ** Interfaces *)

(** [sport.BlockProposal], implemented by [types.Block]. *)
Class BlockProposal (B : Type) := {
  bp_Number : B → Z;
  bp_Hash : B → hash;
  bp_EncodeRLP : B → option item;
  bp_DecodeRLP : item → option B
}.

(** What the messages rely on of a proposal's own codec. *)
Class BlockProposalLaws (B : Type) `{BlockProposal B} := {
  bp_roundtrip b i : bp_EncodeRLP b = Some i → bp_DecodeRLP i = Some b
}.

(** go-ethereum/crypto: [Keccak256], and [SigToPub] followed by
    [PubkeyToAddress] on a digest and a signature. *)
Class Crypto := {
  Keccak256 : bytes → hash;
  SigToAddress : hash → bytes → option address
}.

(** ** View, Subject, Preprepare, Request *)

Record View := MkView { Round : Z; Sequence : Z }.
Record Subject' := MkSubject { sub_View : View; sub_Digest : hash }.
Record Preprepare' (B : Type) := MkPreprepare { pp_View : View; pp_BlockProposal : B }.
Arguments MkPreprepare {_}. Arguments pp_View {_}. Arguments pp_BlockProposal {_}.
Record Request (B : Type) := MkRequest { req_BlockProposal : option B }.
Arguments MkRequest {_}. Arguments req_BlockProposal {_}.

#[export] Instance View_eq_dec : EqDecision View.
Proof. solve_decision. Defined.
#[export] Instance Subject_eq_dec : EqDecision Subject'.
Proof. solve_decision. Defined.

Definition View_Cmp (v y : View) : Z :=
  if negb (big_Cmp (Sequence v) (Sequence y) =? 0) then big_Cmp (Sequence v) (Sequence y)
  else if negb (big_Cmp (Round v) (Round y) =? 0) then big_Cmp (Round v) (Round y)
  else 0.

Definition View_EncodeRLP (v : View) : option item :=
  enc_struct [enc_big (Round v); enc_big (Sequence v)].
Definition View_DecodeRLP (i : item) : option View :=
  match dec_struct i with
  | Some [r; s] =>
      match dec_big r, dec_big s with Some r, Some s => Some (MkView r s) | _, _ => None end
  | _ => None
  end.

Definition Subject_EncodeRLP (s : Subject') : option item :=
  enc_struct [View_EncodeRLP (sub_View s); enc_array 32 (sub_Digest s)].
Definition Subject_DecodeRLP (i : item) : option Subject' :=
  match dec_struct i with
  | Some [v; d] =>
      match View_DecodeRLP v, dec_array 32 d with
      | Some v, Some d => Some (MkSubject v d) | _, _ => None end
  | _ => None
  end.

Definition Preprepare_EncodeRLP `{BlockProposal B} (p : Preprepare' B) : option item :=
  enc_struct [View_EncodeRLP (pp_View p); bp_EncodeRLP (pp_BlockProposal p)].
Definition Preprepare_DecodeRLP `{BlockProposal B} (i : item) : option (Preprepare' B) :=
  match dec_struct i with
  | Some [v; b] =>
      match View_DecodeRLP v, bp_DecodeRLP b with
      | Some v, Some b => Some (MkPreprepare v b) | _, _ => None end
  | _ => None
  end.

(** ** State and message codes

    One [const] block numbers the states from 0 and, [iota] running on, the
    message codes from 4. *)

Inductive State := StateAcceptRequest | StatePreprepared | StatePrepared | StateCommitted.
#[export] Instance State_eq_dec : EqDecision State.
Proof. solve_decision. Defined.

Definition State_uint64 (s : State) : Z :=
  match s with
  | StateAcceptRequest => 0 | StatePreprepared => 1 | StatePrepared => 2 | StateCommitted => 3
  end.
Definition State_Cmp (s y : State) : Z :=
  if State_uint64 s <? State_uint64 y then -1
  else if State_uint64 y <? State_uint64 s then 1 else 0.

Definition msgPreprepare : Z := 4.
Definition msgPrepare : Z := 5.
Definition msgCommit : Z := 6.
Definition msgRoundChange : Z := 7.

(** ** Messages *)

Record message := MkMessage {
  Code : Z;
  Msg : bytes;
  msg_Address : address;
  Signature : bytes;
  CommittedSeal : bytes
}.

Definition message_EncodeRLP (m : message) : option item :=
  enc_struct [enc_uint64 (Code m); enc_bytes (Msg m); enc_array 20 (msg_Address m);
              enc_bytes (Signature m); enc_bytes (CommittedSeal m)].
Definition message_DecodeRLP (i : item) : option message :=
  match dec_struct i with
  | Some [c; m; a; s; cs] =>
      match dec_uint64 c, dec_bytes m, dec_array 20 a, dec_bytes s, dec_bytes cs with
      | Some c, Some m, Some a, Some s, Some cs => Some (MkMessage c m a s cs)
      | _, _, _, _, _ => None
      end
  | _ => None
  end.

Definition Payload (m : message) : option bytes :=
  match message_EncodeRLP m with Some i => EncodeToBytes i | None => None end.
Definition PayloadNoSig (m : message) : option bytes :=
  Payload (MkMessage (Code m) (Msg m) (msg_Address m) [] (CommittedSeal m)).

Definition message_of_bytes (b : bytes) : option message :=
  match DecodeBytes b with Some i => message_DecodeRLP i | None => None end.

(** [FromPayload]: the message read, when it could be, and the error. *)
Definition FromPayload (b : bytes) (validateFn : option (bytes → bytes → result address))
    : option message * err :=
  match message_of_bytes b with
  | None => (None, Some errRlp)
  | Some m =>
      match validateFn with
      | None => (Some m, None)
      | Some validate =>
          match PayloadNoSig m with
          | None => (Some m, Some errRlp)
          | Some payload =>
              match validate payload (Signature m) with
              | inl _ => (Some m, None)
              | inr e => (Some m, Some e)
              end
          end
      end
  end.

(** [message.Decode] at the two types it is used with. *)
Definition Decode_Subject (m : message) : option Subject' :=
  match DecodeBytes (Msg m) with Some i => Subject_DecodeRLP i | None => None end.
Definition Decode_Preprepare `{BlockProposal B} (m : message) : option (Preprepare' B) :=
  match DecodeBytes (Msg m) with Some i => Preprepare_DecodeRLP i | None => None end.

(** [Encode] of core_func.go. *)
Definition Encode_Subject (s : Subject') : option bytes :=
  match Subject_EncodeRLP s with Some i => EncodeToBytes i | None => None end.
Definition Encode_Preprepare `{BlockProposal B} (p : Preprepare' B) : option bytes :=
  match Preprepare_EncodeRLP p with Some i => EncodeToBytes i | None => None end.

(** ** Signatures *)

Definition GetSignatureAddress `{Crypto} (data sig : bytes) : result address :=
  match SigToAddress (Keccak256 data) sig with Some a => inl a | None => inr errCrypto end.

Definition CheckFullnodeSignature `{Crypto} (s : fullnodeSet) (data sig : bytes) : result address :=
  match GetSignatureAddress data sig with
  | inr e => inr e
  | inl signer =>
      match GetByAddress s signer with
      | Some (_, val) => inl val
      | None => inr ErrUnauthorizedAddress
      end
  end.

(** ** Message sets *)

Record messageSet := MkMessageSet {
  ms_view : View;
  ms_fullnodeSet : fullnodeSet;
  ms_messages : gmap Z message
}.

Definition newMessageSet (s : fullnodeSet) : messageSet := MkMessageSet (MkView 0 0) s ∅.

Definition ms_verify (ms : messageSet) (m : message) : err :=
  match GetByAddress (ms_fullnodeSet ms) (msg_Address m) with
  | None => Some ErrUnauthorizedAddress
  | Some _ => None
  end.

Definition addVerifiedMessage (ms : messageSet) (m : message) : messageSet :=
  MkMessageSet (ms_view ms) (ms_fullnodeSet ms) (<[msg_Address m := m]> (ms_messages ms)).

Definition ms_Add (ms : messageSet) (m : message) : messageSet * err :=
  match ms_verify ms m with
  | Some e => (ms, Some e)
  | None => (addVerifiedMessage ms m, None)
  end.

(** Go ranges over the map in any order; here it is the order of [map_to_list].  What is done with the values does not depend on it:
    they are counted ([GetPrepareOrCommitSize], [rcs_Clear]) or give a list of seals. *)
Definition ms_Values (ms : messageSet) : list message := (map_to_list (ms_messages ms)).*2.
Definition ms_Size (ms : messageSet) : Z := Z.of_nat (size (ms_messages ms)).
Definition ms_Get (ms : messageSet) (a : address) : option message := ms_messages ms !! a.

(** ** Round change sets *)

Record roundChangeSet := MkRoundChangeSet {
  rcs_fullnodeSet : fullnodeSet;
  rcs_roundChanges : gmap Z messageSet
}.

Definition newRoundChangeSet (s : fullnodeSet) : roundChangeSet := MkRoundChangeSet s ∅.

Definition rcs_Add (rcs : roundChangeSet) (r : Z) (m : message) : roundChangeSet * Z * err :=
  let round := big_Uint64 r in
  let ms := match rcs_roundChanges rcs !! round with
            | Some ms => ms
            | None => newMessageSet (rcs_fullnodeSet rcs)
            end in
  let '(ms', e) := ms_Add ms m in
  let rcs' := MkRoundChangeSet (rcs_fullnodeSet rcs) (<[round := ms']> (rcs_roundChanges rcs)) in
  match e with
  | Some _ => (rcs', 0, e)
  | None => (rcs', ms_Size ms', None)
  end.

Definition rcs_Clear (rcs : roundChangeSet) (round : Z) : roundChangeSet :=
  MkRoundChangeSet (rcs_fullnodeSet rcs)
    (filter (λ '(k, rms), ¬ (length (ms_Values rms) = 0%nat ∨ k < big_Uint64 round))
            (rcs_roundChanges rcs)).

Definition rcs_MaxRound (rcs : roundChangeSet) (num : Z) : option Z :=
  foldr (λ '(k, rms) (maxRound : option Z),
    if ms_Size rms <? num then maxRound else
    let r := i64 k in
    match maxRound with
    | None => Some r
    | Some mr => if big_Cmp mr r <? 0 then Some r else Some mr
    end) None (map_to_list (rcs_roundChanges rcs)).

(** ** Round state *)

Record roundState (B : Type) := MkRoundState {
  rs_round : Z;
  rs_sequence : Z;
  rs_Preprepare : option (Preprepare' B);
  rs_Prepares : messageSet;
  rs_Commits : messageSet;
  rs_lockedHash : hash;
  rs_pendingRequest : option (Request B)
}.
Arguments MkRoundState {_}.
Arguments rs_round {_}. Arguments rs_sequence {_}. Arguments rs_Preprepare {_}.
Arguments rs_Prepares {_}. Arguments rs_Commits {_}. Arguments rs_lockedHash {_}.
Arguments rs_pendingRequest {_}.

Section roundstate.
Context {B : Type} `{!BlockProposal B}.

Definition newRoundState (view : View) (s : fullnodeSet) (lockedHash : hash)
    (preprepare : option (Preprepare' B)) (pendingRequest : option (Request B)) : roundState B :=
  MkRoundState (Round view) (Sequence view) preprepare (newMessageSet s) (newMessageSet s)
    lockedHash pendingRequest.

Definition GetPrepareOrCommitSize (s : roundState B) : Z :=
  foldr (λ m result,
    match ms_Get (rs_Commits s) (msg_Address m) with Some _ => result - 1 | None => result end)
    (ms_Size (rs_Prepares s) + ms_Size (rs_Commits s)) (ms_Values (rs_Prepares s)).

Definition Subject (s : roundState B) : option Subject' :=
  match rs_Preprepare s with
  | None => None
  | Some p => Some (MkSubject (MkView (rs_round s) (rs_sequence s)) (bp_Hash (pp_BlockProposal p)))
  end.

Definition SetPreprepare (s : roundState B) (p : Preprepare' B) : roundState B :=
  MkRoundState (rs_round s) (rs_sequence s) (Some p) (rs_Prepares s) (rs_Commits s)
    (rs_lockedHash s) (rs_pendingRequest s).

Definition rs_BlockProposal (s : roundState B) : option B := pp_BlockProposal <$> rs_Preprepare s.

Definition set_Prepares (s : roundState B) (ms : messageSet) : roundState B :=
  MkRoundState (rs_round s) (rs_sequence s) (rs_Preprepare s) ms (rs_Commits s)
    (rs_lockedHash s) (rs_pendingRequest s).
Definition set_Commits (s : roundState B) (ms : messageSet) : roundState B :=
  MkRoundState (rs_round s) (rs_sequence s) (rs_Preprepare s) (rs_Prepares s) ms
    (rs_lockedHash s) (rs_pendingRequest s).
Definition set_lockedHash (s : roundState B) (h : hash) : roundState B :=
  MkRoundState (rs_round s) (rs_sequence s) (rs_Preprepare s) (rs_Prepares s) (rs_Commits s)
    h (rs_pendingRequest s).
Definition set_pendingRequest (s : roundState B) (r : option (Request B)) : roundState B :=
  MkRoundState (rs_round s) (rs_sequence s) (rs_Preprepare s) (rs_Prepares s) (rs_Commits s)
    (rs_lockedHash s) r.

Definition LockHash (s : roundState B) : roundState B :=
  match rs_Preprepare s with
  | Some p => set_lockedHash s (bp_Hash (pp_BlockProposal p))
  | None => s
  end.
Definition UnlockHash (s : roundState B) : roundState B := set_lockedHash s 0.

(** [cmn.EmptyHash]. *)
Definition EmptyHash (h : hash) : bool := h =? 0.

Definition GetLockedHash (s : roundState B) : hash := rs_lockedHash s.
Definition IsHashLocked (hasBadBlockProposal : hash → bool) (s : roundState B) : bool :=
  if EmptyHash (rs_lockedHash s) then false else negb (hasBadBlockProposal (GetLockedHash s)).
End roundstate.

(** ** Views are ordered lexicographically, sequence first *)

Definition view_lt (v w : View) : Prop :=
  Sequence v < Sequence w ∨ (Sequence v = Sequence w ∧ Round v < Round w).
Definition view_le (v w : View) : Prop := v = w ∨ view_lt v w.

Lemma View_Cmp_lt v w : View_Cmp v w < 0 ↔ view_lt v w.
Proof.
  unfold View_Cmp, view_lt, big_Cmp. destruct v as [r s], w as [r' s']; simpl.
  destruct (Z.compare_spec s s'), (Z.compare_spec r r'); simpl; lia.
Qed.
Lemma View_Cmp_gt v w : 0 < View_Cmp v w ↔ view_lt w v.
Proof.
  unfold View_Cmp, view_lt, big_Cmp. destruct v as [r s], w as [r' s']; simpl.
  destruct (Z.compare_spec s s'), (Z.compare_spec r r'); simpl; lia.
Qed.
Lemma View_Cmp_eq v w : View_Cmp v w = 0 ↔ v = w.
Proof.
  unfold View_Cmp, big_Cmp. destruct v as [r s], w as [r' s']; simpl.
  destruct (Z.compare_spec s s'), (Z.compare_spec r r'); simpl; split; intros; simplify_eq; auto with lia; lia.
Qed.
Lemma view_lt_irrefl v : ¬ view_lt v v.
Proof. unfold view_lt. lia. Qed.
Lemma view_lt_trans u v w : view_lt u v → view_lt v w → view_lt u w.
Proof. unfold view_lt. lia. Qed.
Lemma view_le_trans u v w : view_le u v → view_le v w → view_le u w.
Proof. unfold view_le. intros [->|?] [->|?]; eauto using view_lt_trans. Qed.
Lemma view_lt_le_trans u v w : view_lt u v → view_le v w → view_lt u w.
Proof. intros ? [->|?]; eauto using view_lt_trans. Qed.
Lemma view_le_refl v : view_le v v.
Proof. by left. Qed.

(** ** Codecs *)

(** Take apart an encoded struct into the equations of its fields. *)
Ltac struct_fields H :=
  apply enc_struct_Some in H as (? & -> & H);
  repeat (apply Forall2_cons_inv_l in H as (? & ? & ? & H & ->));
  apply Forall2_nil_inv_l in H as ->.

Lemma View_roundtrip v i : View_EncodeRLP v = Some i → View_DecodeRLP i = Some v.
Proof.
  unfold View_EncodeRLP, View_DecodeRLP. intros He. struct_fields He. simpl.
  by erewrite !dec_enc_big by done; destruct v.
Qed.

Lemma Subject_roundtrip s i : Subject_EncodeRLP s = Some i → Subject_DecodeRLP i = Some s.
Proof.
  unfold Subject_EncodeRLP, Subject_DecodeRLP. intros He. struct_fields He. cbn [dec_struct].
  by erewrite View_roundtrip, dec_enc_array by done; destruct s.
Qed.

Lemma Preprepare_roundtrip `{BlockProposalLaws B} (p : Preprepare' B) i :
  Preprepare_EncodeRLP p = Some i → Preprepare_DecodeRLP i = Some p.
Proof.
  unfold Preprepare_EncodeRLP, Preprepare_DecodeRLP. intros He. struct_fields He. cbn [dec_struct].
  by erewrite View_roundtrip, bp_roundtrip by done; destruct p.
Qed.

Lemma message_roundtrip m i : message_EncodeRLP m = Some i → message_DecodeRLP i = Some m.
Proof.
  unfold message_EncodeRLP, message_DecodeRLP. intros He. struct_fields He. cbn [dec_struct].
  by erewrite dec_enc_uint64, dec_enc_array, !dec_enc_bytes by done; destruct m.
Qed.

Lemma Decode_Encode_Subject s b m : Encode_Subject s = Some b → Msg m = b → Decode_Subject m = Some s.
Proof.
  unfold Encode_Subject, Decode_Subject. destruct (Subject_EncodeRLP s) as [i|] eqn:E; [|done].
  intros Hb ->. apply DecodeBytes_EncodeToBytes in Hb. rewrite Hb. by apply Subject_roundtrip.
Qed.

Lemma Decode_Encode_Preprepare `{BlockProposalLaws B} (p : Preprepare' B) b m :
  Encode_Preprepare p = Some b → Msg m = b → Decode_Preprepare m = Some p.
Proof.
  unfold Encode_Preprepare, Decode_Preprepare. destruct (Preprepare_EncodeRLP p) as [i|] eqn:E; [|done].
  intros Hb ->. apply DecodeBytes_EncodeToBytes in Hb. rewrite Hb. by apply Preprepare_roundtrip.
Qed.

Lemma message_of_Payload m b : Payload m = Some b → message_of_bytes b = Some m.
Proof.
  unfold Payload, message_of_bytes. destruct (message_EncodeRLP m) as [i|] eqn:E; [|done].
  intros Hb. apply DecodeBytes_EncodeToBytes in Hb. rewrite Hb. by apply message_roundtrip.
Qed.

Lemma FromPayload_Payload m b nosig (validate : bytes → bytes → result address) a :
  Payload m = Some b → PayloadNoSig m = Some nosig → validate nosig (Signature m) = inl a →
  FromPayload b (Some validate) = (Some m, None).
Proof.
  intros Hb Hn Hv. unfold FromPayload. rewrite (message_of_Payload _ _ Hb), Hn, Hv. done.
Qed.

(** A message survives the wire: what [FromPayload] reads from the bytes of
    [Payload] is the message, when its signature validates. *)
Theorem message_wire_roundtrip m b nosig (validate : bytes → bytes → result address) a :
  Payload m = Some b → PayloadNoSig m = Some nosig → validate nosig (Signature m) = inl a →
  FromPayload b (Some validate) = (Some m, None).
Proof. apply FromPayload_Payload. Qed.

(** What a validated payload guarantees, and all it guarantees: the signature
    on the message is by some fullnode of the set. *)
Theorem FromPayload_signed_by_fullnode `{Crypto} s b m :
  FromPayload b (Some (CheckFullnodeSignature s)) = (Some m, None) →
  ∃ signer nosig, PayloadNoSig m = Some nosig ∧
    SigToAddress (Keccak256 nosig) (Signature m) = Some signer ∧ signer ∈ fs_fullnodes s.
Proof.
  unfold FromPayload, CheckFullnodeSignature, GetSignatureAddress.
  destruct (message_of_bytes b) as [m'|]; [|done].
  destruct (PayloadNoSig m') as [p|] eqn:Hp; [|intros; simplify_eq].
  destruct (SigToAddress _ _) as [a|] eqn:Ha; [|intros; simplify_eq].
  destruct (GetByAddress s a) as [[i v]|] eqn:Hg; intros; simplify_eq.
  exists a, p. split_and!; [done..|]. apply GetByAddress_elem. eauto.
Qed.

(** C34. The sender field is not bound to the signature: a message signed by one
    fullnode is accepted with the address of any other. *)
Theorem FromPayload_sender_unchecked `{Crypto} s m b nosig signer :
  Payload m = Some b → PayloadNoSig m = Some nosig →
  SigToAddress (Keccak256 nosig) (Signature m) = Some signer → signer ∈ fs_fullnodes s →
  FromPayload b (Some (CheckFullnodeSignature s)) = (Some m, None).
Proof.
  intros Hb Hn Hs Hin. apply GetByAddress_elem in Hin as [[i v] Hg].
  apply (FromPayload_Payload m b nosig _ v Hb Hn).
  unfold CheckFullnodeSignature, GetSignatureAddress. by rewrite Hs, Hg.
Qed.

(** ** Message sets count fullnodes, once each *)

Definition ms_wf (ms : messageSet) : Prop :=
  ∀ a m, ms_messages ms !! a = Some m → msg_Address m = a ∧ a ∈ fs_fullnodes (ms_fullnodeSet ms).

Lemma newMessageSet_wf s : ms_wf (newMessageSet s).
Proof. intros a m Hm. simpl in Hm. by rewrite lookup_empty in Hm. Qed.

Lemma ms_Add_ok ms m ms' : ms_Add ms m = (ms', None) →
  ms' = addVerifiedMessage ms m ∧ msg_Address m ∈ fs_fullnodes (ms_fullnodeSet ms).
Proof.
  unfold ms_Add, ms_verify. destruct (GetByAddress _ _) eqn:Hg; intros; simplify_eq.
  split; [done|]. apply GetByAddress_elem. eauto.
Qed.

Lemma ms_Add_err ms m ms' e : ms_Add ms m = (ms', Some e) →
  ms' = ms ∧ e = ErrUnauthorizedAddress ∧ msg_Address m ∉ fs_fullnodes (ms_fullnodeSet ms).
Proof.
  unfold ms_Add, ms_verify. destruct (GetByAddress _ _) eqn:Hg; intros; simplify_eq.
  split_and!; [done..|]. by apply GetByAddress_None.
Qed.

Lemma ms_Add_fullnodeSet ms m : ms_fullnodeSet (ms_Add ms m).1 = ms_fullnodeSet ms.
Proof. unfold ms_Add. by destruct (ms_verify ms m). Qed.

Lemma ms_Add_wf ms m : ms_wf ms → ms_wf (ms_Add ms m).1.
Proof.
  intros Hwf. destruct (ms_Add ms m) as [ms' [e|]] eqn:E; simpl.
  - by apply ms_Add_err in E as (-> & _).
  - apply ms_Add_ok in E as (-> & Hin). intros a m'. simpl. rewrite lookup_insert.
    case_decide as Ha; [|apply Hwf]. intros; by simplify_eq.
Qed.

Lemma ms_dom_members ms : ms_wf ms → dom (ms_messages ms) ⊆ members (ms_fullnodeSet ms).
Proof.
  intros Hwf a [m Hm]%elem_of_dom. apply Hwf in Hm as [_ Hin]. unfold members.
  by apply elem_of_list_to_set.
Qed.

Lemma ms_Size_dom ms : ms_Size ms = Z.of_nat (size (dom (ms_messages ms) : gset Z)).
Proof. unfold ms_Size. by rewrite size_dom. Qed.

(** However many messages are added, a set never counts more than the
    fullnodes there are. *)
Lemma ms_Size_le ms : ms_wf ms → NoDup (fs_fullnodes (ms_fullnodeSet ms)) →
  ms_Size ms <= Size (ms_fullnodeSet ms).
Proof.
  intros Hwf Hd. rewrite ms_Size_dom, <-size_members by done.
  apply inj_le, subseteq_size, ms_dom_members, Hwf.
Qed.

Section roundstate_lemmas.
Context {B : Type} `{!BlockProposal B}.
Implicit Types s : roundState B.

Lemma foldr_decrement (C : gmap Z message) z (l : list message) :
  foldr (λ m r, match C !! msg_Address m with Some _ => r - 1 | None => r end) z l
  = z - Z.of_nat (length (filter (λ m, is_Some (C !! msg_Address m)) l)).
Proof.
  induction l as [|m l IH]; simpl; [lia|]. rewrite IH, filter_cons.
  destruct (C !! msg_Address m) eqn:Hc; case_decide as Hs; simpl; try lia.
  - by destruct Hs.
  - by destruct Hs as [? ?].
Qed.

Lemma count_duplicates (P C : gmap Z message) :
  (∀ a m, P !! a = Some m → msg_Address m = a) →
  length (filter (λ m, is_Some (C !! msg_Address m)) (map_to_list P).*2)
  = size (dom P ∩ dom C : gset Z).
Proof.
  induction P as [|a m P Hn IH] using map_ind; intros Hkey.
  - by rewrite map_to_list_empty, dom_empty_L, intersection_empty_l_L, size_empty.
  - rewrite map_to_list_insert by done. rewrite fmap_cons, filter_cons, dom_insert_L. cbn [snd].
    assert (msg_Address m = a) as -> by (apply (Hkey a); apply lookup_insert_eq).
    assert (a ∉ dom P) by by apply not_elem_of_dom.
    rewrite intersection_union_r_L. specialize (IH ltac:(intros b m' Hb; apply Hkey;
      rewrite lookup_insert_ne; [done|]; intros ->; congruence)).
    case_decide as Hc.
    + simpl. rewrite IH. replace ({[a]} ∩ dom C : gset Z) with ({[a]} : gset Z);
        [|apply elem_of_dom in Hc; set_solver].
      rewrite (size_union {[a]}), size_singleton; [lia|set_solver].
    + rewrite IH. f_equal.
      assert (a ∉ dom C) by (rewrite elem_of_dom; done). set_solver.
Qed.

(** [GetPrepareOrCommitSize] is the number of fullnodes from which a PREPARE
    or a COMMIT was received. *)
Lemma GetPrepareOrCommitSize_union s :
  ms_wf (rs_Prepares s) →
  GetPrepareOrCommitSize s =
  Z.of_nat (size (dom (ms_messages (rs_Prepares s)) ∪ dom (ms_messages (rs_Commits s)) : gset Z)).
Proof.
  intros Hwf. unfold GetPrepareOrCommitSize, ms_Get, ms_Values.
  rewrite foldr_decrement, count_duplicates by (intros a m Hm; by apply Hwf in Hm as [? _]).
  rewrite !ms_Size_dom. set (P := dom (ms_messages (rs_Prepares s)) : gset Z).
  set (C := dom (ms_messages (rs_Commits s)) : gset Z).
  clearbody P C. replace (P ∩ C) with (C ∩ P) by set_solver.
  pose proof (size_union_alt P C) as Hu. rewrite (size_difference_alt (C:=gset Z) C P) in Hu.
  pose proof (subseteq_size (C ∩ P) C ltac:(set_solver)). lia.
Qed.

Lemma IsHashLocked_nonzero bad s : IsHashLocked bad s = true → rs_lockedHash s ≠ 0.
Proof. unfold IsHashLocked, EmptyHash. destruct (Z.eqb_spec (rs_lockedHash s) 0); done. Qed.
End roundstate_lemmas.
