(* ===== verification/Core.v ===== *)
(** * The consensus core: consensus/sport/smilobftcore/core*.go

    One node's state machine.  The state is the struct [core] of model.go; its
    logger and meters are dropped, its locks too (one goroutine, [handleEvents],
    runs every handler).  Every method is a function in the monad [M core]:
    state passing with panics.  What a handler does to the outside is recorded,
    newest first, in the field [c_trace]: the calls of the backend, the events
    it posts and the timers it arms.  The backend ([sport.Backend], an
    interface) is a record of the answers it gives during one handler.

    Third-party and platform code: the priority queue (cookiejar/prque) is the
    class [PrQue], which Prque.v implements; the conversion of an out-of-range float64 to int64, which
    the Go specification leaves to the implementation, is [f64_int64_overflow]. *)

From Stdlib Require Import ZArith Lia.
From S2P Require Import Prelude Errors Rlp Fullnode Messages.
Open Scope didux_scope.

(** ** Interfaces to other code *)

(** [prque.Prque]: items with [float32] priorities (integers here), popped by
    decreasing priority.  [pq_Pop] is [None] on an empty queue. *)
Class PrQue (Q : Type → Type) := {
  pq_New {A} : Q A;
  pq_Push {A} : Q A → A → Z → Q A;
  pq_Pop {A} : Q A → option (A * Z * Q A);
  pq_items {A} : Q A → list (A * Z)
}.
Class PrQueLaws (Q : Type → Type) `{PrQue Q} := {
  pq_New_items A : pq_items (@pq_New Q _ A) = [];
  pq_Push_items A (q : Q A) x p : pq_items (pq_Push q x p) ≡ₚ (x, p) :: pq_items q;
  pq_Pop_None A (q : Q A) : pq_Pop q = None ↔ pq_items q = [];
  pq_Pop_Some A (q : Q A) x p q' : pq_Pop q = Some (x, p, q') →
    pq_items q ≡ₚ (x, p) :: pq_items q' ∧ Forall (λ y, y.2 <= p) (pq_items q')
}.

Class GoArch := { f64_int64_overflow : Z }.

(** [sport.Config], the fields the core reads. *)
Record Config := MkConfig { RequestTimeout : Z; MaxTimeout : Z }.

Inductive event (B : Type) : Type :=
  | RequestEvent (b : option B)
  | MessageEvent (payload : bytes)
  | backlogEvent (src : address) (msg : message)
  | timeoutEvent
  | FinalCommittedEvent.
Arguments RequestEvent {_}. Arguments MessageEvent {_}. Arguments backlogEvent {_}.
Arguments timeoutEvent {_}. Arguments FinalCommittedEvent {_}.

Inductive output (B : Type) : Type :=
  | OBroadcast (targets : list address) (payload : bytes)   (* backend.Broadcast *)
  | OGossip (targets : list address) (payload : bytes)      (* backend.Gossip *)
  | OCommit (v : View) (b : B) (seals : list bytes) (e : err) (* backend.Commit, in view v *)
  | OHasBlock (h : hash) (n : Z) (found : bool)             (* backend.HasBlockProposal *)
  | OPost (e : event B)                                     (* go c.sendEvent *)
  | ORoundTimer (timeout : Z)                               (* roundChangeTimer *)
  | OFutureTimer (duration : Z) (e : event B).              (* futurePreprepareTimer *)
Arguments OBroadcast {_}. Arguments OGossip {_}. Arguments OCommit {_}. Arguments OHasBlock {_}.
Arguments OPost {_}. Arguments ORoundTimer {_}. Arguments OFutureTimer {_}.

(** [sport.Backend]: its answers during one handler. *)
Record Backend (B : Type) := MkBackend {
  be_Address : address;
  be_Fullnodes : B → fullnodeSet;
  be_Commit : B → list bytes → err;
  be_Verify : B → Z * err;
  be_Sign : bytes → result bytes;
  be_LastBlockProposal : option B * address;
  be_HasBlockProposal : hash → Z → bool;
  be_GetSpeaker : Z → address;
  be_ParentFullnodes : B → fullnodeSet;
  be_HasBadBlockProposal : hash → bool
}.
Arguments be_Address {_}. Arguments be_Fullnodes {_}.
Arguments be_Commit {_}. Arguments be_Verify {_}. Arguments be_Sign {_}.
Arguments be_LastBlockProposal {_}. Arguments be_HasBlockProposal {_}. Arguments be_GetSpeaker {_}.
Arguments be_ParentFullnodes {_}. Arguments be_HasBadBlockProposal {_}.

(** ** State *)

Record core (B : Type) (Q : Type → Type) := MkCore {
  c_config : Config;
  c_address : address;
  c_state : State;
  c_fullnodeSet : option fullnodeSet;
  c_waiting : bool;
  c_backlogs : gmap Z (Q message);
  c_current : option (roundState B);
  c_roundChangeSet : option roundChangeSet;
  c_pendingRequests : Q (Request B);
  c_trace : list (output B)
}.
Arguments MkCore {_ _}.
Arguments c_config {_ _}. Arguments c_address {_ _}. Arguments c_state {_ _}.
Arguments c_fullnodeSet {_ _}. Arguments c_waiting {_ _}. Arguments c_backlogs {_ _}.
Arguments c_current {_ _}. Arguments c_roundChangeSet {_ _}. Arguments c_pendingRequests {_ _}.
Arguments c_trace {_ _}.

(** The fields of a round that a handler may replace. *)
Section setters.
Context {B : Type} {Q : Type → Type}.
Implicit Types c : core B Q.
Definition set_state (v : State) c : core B Q :=
  MkCore (c_config c) (c_address c) v (c_fullnodeSet c) (c_waiting c) (c_backlogs c)
    (c_current c) (c_roundChangeSet c) (c_pendingRequests c) (c_trace c).
Definition set_fullnodeSet (v : option fullnodeSet) c : core B Q :=
  MkCore (c_config c) (c_address c) (c_state c) v (c_waiting c) (c_backlogs c)
    (c_current c) (c_roundChangeSet c) (c_pendingRequests c) (c_trace c).
Definition set_waiting (v : bool) c : core B Q :=
  MkCore (c_config c) (c_address c) (c_state c) (c_fullnodeSet c) v (c_backlogs c)
    (c_current c) (c_roundChangeSet c) (c_pendingRequests c) (c_trace c).
Definition set_backlogs (v : gmap Z (Q message)) c : core B Q :=
  MkCore (c_config c) (c_address c) (c_state c) (c_fullnodeSet c) (c_waiting c) v
    (c_current c) (c_roundChangeSet c) (c_pendingRequests c) (c_trace c).
Definition set_current (v : option (roundState B)) c : core B Q :=
  MkCore (c_config c) (c_address c) (c_state c) (c_fullnodeSet c) (c_waiting c) (c_backlogs c)
    v (c_roundChangeSet c) (c_pendingRequests c) (c_trace c).
Definition set_roundChangeSet (v : option roundChangeSet) c : core B Q :=
  MkCore (c_config c) (c_address c) (c_state c) (c_fullnodeSet c) (c_waiting c) (c_backlogs c)
    (c_current c) v (c_pendingRequests c) (c_trace c).
Definition set_pendingRequests (v : Q (Request B)) c : core B Q :=
  MkCore (c_config c) (c_address c) (c_state c) (c_fullnodeSet c) (c_waiting c) (c_backlogs c)
    (c_current c) (c_roundChangeSet c) v (c_trace c).
Definition add_trace (v : list (output B)) c : core B Q :=
  MkCore (c_config c) (c_address c) (c_state c) (c_fullnodeSet c) (c_waiting c) (c_backlogs c)
    (c_current c) (c_roundChangeSet c) (c_pendingRequests c) (v ++ c_trace c).
End setters.

Section core.
Context {B : Type} `{!BlockProposal B} {Q : Type → Type} `{!PrQue Q}.
Context `{!Crypto, !AddrString, !GoArch}.
Context (be : Backend B).
Local Abbreviation CM A := (M (core B Q) A).

Definition emit (o : output B) : CM () := mmod (add_trace [o]).
Definition get_current : CM (roundState B) := let! c := mget in mderef (c_current c).
Definition get_fullnodeSet : CM fullnodeSet := let! c := mget in mderef (c_fullnodeSet c).
Definition get_roundChangeSet : CM roundChangeSet := let! c := mget in mderef (c_roundChangeSet c).
Definition mod_current (f : roundState B → roundState B) : CM () :=
  let! r := get_current in mmod (set_current (Some (f r))).

(** [New]. *)
Definition New (config : Config) : core B Q :=
  MkCore config (be_Address be) StateAcceptRequest None false ∅ None None pq_New [].

(** ** core_func.go, core_backlog.go *)

Definition PrepareCommittedSeal (h : hash) : bytes := be_fix 32 h ++ [Z_byte msgCommit].

Definition msgPriority (code : Z) : Z :=
  if code =? msgPreprepare then 1 else if code =? msgCommit then 2
  else if code =? msgPrepare then 3 else 0.

Definition toPriority (msgCode : Z) (view : View) : Z :=
  if msgCode =? msgRoundChange then - float32_of_Z (u64 (big_Uint64 (Sequence view) * 1000))
  else - float32_of_Z (u64 (u64 (big_Uint64 (Sequence view) * 1000)
                            + u64 (big_Uint64 (Round view) * 10) + msgPriority msgCode)).

Definition view_of (r : roundState B) : View := MkView (rs_round r) (rs_sequence r).
Definition currentView : CM View := let! r := get_current in mret' (view_of r).

(** [checkMessage] in a given state ([None]: nil dereference). *)
Definition checkMessage_in (c : core B Q) (msgCode : Z) (view : option View) : option err :=
  match view with
  | None => Some (Some errInvalidMessage)
  | Some view =>
      match c_current c with
      | None => None
      | Some r =>
          let cv := view_of r in
          Some (
          if msgCode =? msgRoundChange then
            if 0 <? big_Cmp (Sequence view) (Sequence cv) then Some errFutureMessage
            else if View_Cmp view cv <? 0 then Some errOldMessage
            else None
          else if 0 <? View_Cmp view cv then Some errFutureMessage
          else if View_Cmp view cv <? 0 then Some errOldMessage
          else if c_waiting c then Some errFutureMessage
          else if bool_decide (c_state c = StateAcceptRequest) then
            if msgPreprepare <? msgCode then Some errFutureMessage else None
          else None)
      end
  end.
Definition checkMessage (msgCode : Z) (view : option View) : CM err :=
  let! c := mget in mderef (checkMessage_in c msgCode view).

(** The view a stored message is about ([None] when it does not decode). *)
Definition msg_view (m : message) : option View :=
  if Code m =? msgPreprepare then pp_View <$> (Decode_Preprepare m : option (Preprepare' B))
  else sub_View <$> Decode_Subject m.

Definition storeBacklog (m : message) (src : address) : CM () :=
  let! c := mget in
  if src =? c_address c then mret' () else
  let backlog := match c_backlogs c !! src with Some q => q | None => pq_New end in
  let backlog' := match msg_view m with
                  | Some v => pq_Push backlog m (toPriority (Code m) v)
                  | None => backlog
                  end in
  mmod (set_backlogs (<[src := backlog']> (c_backlogs c))).

(** The inner loop of [processBacklog]: the queue left and the events posted. *)
Fixpoint drain (fuel : nat) (c : core B Q) (src : address) (q : Q message)
    : option (Q message * list (event B)) :=
  match fuel with
  | O => None
  | S fuel' =>
      match pq_Pop q with
      | None => Some (q, [])
      | Some (m, prio, q') =>
          match msg_view m with
          | None => drain fuel' c src q'
          | Some v =>
              match checkMessage_in c (Code m) (Some v) with
              | None => None
              | Some (Some e) =>
                  if bool_decide (e = errFutureMessage) then Some (pq_Push q' m prio, [])
                  else drain fuel' c src q'
              | Some None =>
                  match drain fuel' c src q' with
                  | Some (q'', evs) => Some (q'', backlogEvent src m :: evs)
                  | None => None
                  end
              end
          end
      end
  end.

(** One iteration of the outer loop of [processBacklog]. *)
Definition processBacklog_entry (c : core B Q) (s : fullnodeSet)
    (entry : Z * Q message) (acc : option (gmap Z (Q message) * list (event B)))
    : option (gmap Z (Q message) * list (event B)) :=
  match acc with
  | None => None
  | Some (bl, evs) =>
      let '(a, q) := entry in
      match GetByAddress s a with
      | None => Some (delete a bl, evs)
      | Some (_, src) =>
          match drain (S (length (pq_items q))) c src q with
          | Some (q', evs') => Some (<[a := q']> bl, evs ++ evs')
          | None => None
          end
      end
  end.

Definition processBacklog : CM () :=
  let! c := mget in
  match map_to_list (c_backlogs c) with
  | [] => mret' ()
  | entries =>
      let! s := get_fullnodeSet in
      let! r := mderef (foldr (processBacklog_entry c s) (Some (c_backlogs c, [])) entries) in
      do! mmod (set_backlogs r.1) in
      mmod (add_trace (reverse (OPost <$> r.2)))
  end.

(** ** core_request.go *)

Definition checkRequestMsg_in (r : roundState B) (request : option (Request B)) : err :=
  match (match request with Some req => req_BlockProposal req | None => None end) with
  | None => Some errInvalidMessage
  | Some b =>
      let d := big_Cmp (rs_sequence r) (bp_Number b) in
      if 0 <? d then Some errOldMessage else if d <? 0 then Some errFutureMessage else None
  end.

Definition storeRequestMsg (request : Request B) : CM () :=
  let! b := mderef (req_BlockProposal request) in
  mmod (λ c, set_pendingRequests
    (pq_Push (c_pendingRequests c) request (float32_of_Z (i64 (- big_Int64 (bp_Number b))))) c).

Fixpoint drain_requests (fuel : nat) (r : roundState B) (q : Q (Request B))
    : option (Q (Request B) * list (event B)) :=
  match fuel with
  | O => None
  | S fuel' =>
      match pq_Pop q with
      | None => Some (q, [])
      | Some (m, prio, q') =>
          match checkRequestMsg_in r (Some m) with
          | Some e =>
              if bool_decide (e = errFutureMessage) then Some (pq_Push q' m prio, [])
              else match req_BlockProposal m with
                   | Some _ => drain_requests fuel' r q'
                   | None => None (* the log line reads r.BlockProposal.Number() *)
                   end
          | None =>
              match drain_requests fuel' r q' with
              | Some (q'', evs) => Some (q'', RequestEvent (req_BlockProposal m) :: evs)
              | None => None
              end
          end
      end
  end.

Definition processPendingRequests : CM () :=
  let! c := mget in
  match pq_Pop (c_pendingRequests c) with
  | None => mret' ()
  | Some _ =>
      let! r := get_current in
      let! p := mderef (drain_requests (S (length (pq_items (c_pendingRequests c)))) r
                          (c_pendingRequests c)) in
      do! mmod (set_pendingRequests p.1) in
      mmod (add_trace (reverse (OPost <$> p.2)))
  end.

Definition setState (state : State) : CM () :=
  do! mmod (λ c, if bool_decide (c_state c = state) then c else set_state state c) in
  do! (if bool_decide (state = StateAcceptRequest) then processPendingRequests else mret' ()) in
  processBacklog.

(** ** core.go: sending *)

Definition finalizeMessage (m : message) : CM (result bytes) :=
  let! c := mget in
  let! proposal := (if Code m =? msgCommit then
                      let! r := get_current in mret' (rs_BlockProposal r)
                    else mret' None) in
  let seal : result bytes :=
    match proposal with
    | Some b => be_Sign be (PrepareCommittedSeal (bp_Hash b))
    | None => inl []
    end in
  mret' match seal with
  | inr e => inr e
  | inl seal =>
      match PayloadNoSig (MkMessage (Code m) (Msg m) (c_address c) (Signature m) seal) with
      | None => inr errRlp
      | Some data =>
          match be_Sign be data with
          | inr e => inr e
          | inl sig =>
              match Payload (MkMessage (Code m) (Msg m) (c_address c) sig seal) with
              | None => inr errRlp
              | Some payload => inl payload
              end
          end
      end
  end.

Definition broadcast (m : message) : CM () :=
  let! r := finalizeMessage m in
  match r with
  | inr _ => mret' ()
  | inl payload =>
      let! s := get_fullnodeSet in
      emit (OBroadcast (fs_List s) payload)
  end.

Definition mk_message (code : Z) (msg : bytes) : message := MkMessage code msg 0 [] [].

Definition c_IsSpeaker (c : core B Q) : bool :=
  match c_fullnodeSet c with None => false | Some s => IsSpeaker s (be_Address be) end.

Definition IsCurrentBlockProposal (c : core B Q) (blockHash : hash) : bool :=
  match c_current c with
  | None => false
  | Some r =>
      match rs_pendingRequest r with
      | None => false
      | Some req =>
          match req_BlockProposal req with
          | None => false
          | Some b => bp_Hash b =? blockHash
          end
      end
  end.

Definition sendPreprepare (request : Request B) : CM () :=
  let! r := get_current in
  let! b := mderef (req_BlockProposal request) in
  let! c := mget in
  if (big_Cmp (rs_sequence r) (bp_Number b) =? 0) && c_IsSpeaker c then
    let! curView := currentView in
    match Encode_Preprepare (MkPreprepare curView b) with
    | None => mret' ()
    | Some preprepare => broadcast (mk_message msgPreprepare preprepare)
    end
  else mret' ().

(** A nil subject makes its encoder dereference it. *)
Definition sendPrepare : CM () :=
  let! r := get_current in
  let! sub := mderef (Subject r) in
  match Encode_Subject sub with
  | None => mret' ()
  | Some encodedSubject => broadcast (mk_message msgPrepare encodedSubject)
  end.

Definition broadcastCommit (sub : option Subject') : CM () :=
  let! sub := mderef sub in
  match Encode_Subject sub with
  | None => mret' ()
  | Some encodedSubject => broadcast (mk_message msgCommit encodedSubject)
  end.
Definition sendCommit : CM () := let! r := get_current in broadcastCommit (Subject r).
Definition sendCommitForOldBlock (view : View) (digest : hash) : CM () :=
  broadcastCommit (Some (MkSubject view digest)).

(** ** core.go: timers and rounds *)

Definition Millisecond : Z := 1000000.
Definition Second : Z := 1000000000.

(** [time.Duration(math.Pow(2, float64(round)))]. *)
Definition pow2_Duration (round : Z) : Z := if round <? 63 then 2 ^ round else f64_int64_overflow.

Definition roundTimeout (cfg : Config) (round : Z) : Z :=
  let timeout := i64 (i64 (RequestTimeout cfg) * Millisecond) in
  if 0 <? round then
    let timeout := i64 (timeout + i64 (pow2_Duration round * Second)) in
    let thisTimeout := i64 (i64 (MaxTimeout cfg) * Second) in
    if thisTimeout <? timeout then thisTimeout else timeout
  else timeout.

Definition newRoundChangeTimer : CM () :=
  let! r := get_current in
  let! c := mget in
  emit (ORoundTimer (roundTimeout (c_config c) (big_Uint64 (rs_round r)))).

Definition updateRoundState (view : View) (s : fullnodeSet) (roundChange : bool) : CM () :=
  mmod (λ c,
    match (if roundChange then c_current c else None) with
    | Some r =>
        if IsHashLocked (be_HasBadBlockProposal be) r then
          set_current (Some (newRoundState view s (GetLockedHash r) (rs_Preprepare r)
                               (rs_pendingRequest r))) c
        else set_current (Some (newRoundState view s 0 None (rs_pendingRequest r))) c
    | None => set_current (Some (newRoundState view s 0 None None)) c
    end).

Definition catchUpRound (view : View) : CM () :=
  let! r := get_current in
  let! s := get_fullnodeSet in
  do! mmod (set_waiting true) in
  do! updateRoundState view s true in
  let! rcs := get_roundChangeSet in
  do! mmod (set_roundChangeSet (Some (rcs_Clear rcs (Round view)))) in
  newRoundChangeTimer.

Definition sendRoundChange (round : Z) : CM () :=
  let! cv := currentView in
  if 0 <=? big_Cmp (Round cv) round then mret' () else
  do! catchUpRound (MkView round (Sequence cv)) in
  let! cv := currentView in
  match Encode_Subject (MkSubject cv 0) with
  | None => mret' ()
  | Some payload => broadcast (mk_message msgRoundChange payload)
  end.

Definition sendNextRoundChange : CM () :=
  let! cv := currentView in sendRoundChange (Round cv + 1).

(** The seal buffers have a fixed size: a shorter seal is padded with zeros, a
    longer one cut. *)
Definition SportExtraSeal : nat := 65.
Definition copy_seal (seal : bytes) : bytes :=
  take SportExtraSeal (seal ++ replicate SportExtraSeal x00).

Definition commit : CM () :=
  do! setState StateCommitted in
  let! r := get_current in
  match rs_BlockProposal r with
  | None => mret' ()
  | Some proposal =>
      let committedSeals := (λ m, copy_seal (CommittedSeal m)) <$> ms_Values (rs_Commits r) in
      let e := be_Commit be proposal committedSeals in
      do! emit (OCommit (view_of r) proposal committedSeals e) in
      match e with
      | Some _ => do! mod_current UnlockHash in sendNextRoundChange
      | None => mret' ()
      end
  end.

(** What [startNewRound] decides from the last block: [None] is a return,
    [Some roundChange] goes on. *)
Definition startNewRound_decide (current : option (roundState B)) (lastNumber round : Z)
    : option bool :=
  match current with
  | None => Some false
  | Some r =>
      if 0 <=? big_Cmp lastNumber (rs_sequence r) then Some false
      else if big_Cmp lastNumber (i64 (big_Int64 (rs_sequence r) - 1)) =? 0 then
        if big_Cmp round 0 =? 0 then None
        else if big_Cmp round (rs_round r) <? 0 then None
        else Some true
      else None
  end.

(** The rest of [startNewRound], once the new view is known. *)
Definition startNewRound_enter (roundChange : bool) (newView : View) (lastSpeaker : address) : CM () :=
  let! s := get_fullnodeSet in
  do! mmod (set_roundChangeSet (Some (newRoundChangeSet s))) in
  do! updateRoundState newView s roundChange in
  do! mmod (set_fullnodeSet (Some (CalcSpeaker s lastSpeaker (big_Uint64 (Round newView))))) in
  do! mmod (set_waiting false) in
  do! setState StateAcceptRequest in
  let! c := mget in
  do! (if roundChange && c_IsSpeaker c then
         let! r := get_current in
         if IsHashLocked (be_HasBadBlockProposal be) r then
           let! b := mderef (rs_BlockProposal r) in
           sendPreprepare (MkRequest (Some b))
         else
           match rs_pendingRequest r with
           | Some req => let! b := mderef (req_BlockProposal req) in sendPreprepare req
           | None => mret' ()
           end
       else mret' ()) in
  newRoundChangeTimer.

Definition startNewRound (round : Z) : CM () :=
  let '(lastBlockProposal, lastSpeaker) := be_LastBlockProposal be in
  let! last := mderef lastBlockProposal in
  let! c := mget in
  match startNewRound_decide (c_current c) (bp_Number last) round with
  | None => mret' ()
  | Some roundChange =>
      let! newView := (if roundChange then
                         let! r := get_current in mret' (MkView round (rs_sequence r))
                       else
                         do! mmod (set_fullnodeSet (Some (be_Fullnodes be last))) in
                         mret' (MkView 0 (bp_Number last + 1))) in
      startNewRound_enter roundChange newView lastSpeaker
  end.

(** ** Handlers *)

Definition handleRequest (request : Request B) : CM err :=
  let! r := get_current in
  match checkRequestMsg_in r (Some request) with
  | Some e => mret' (Some e)
  | None =>
      do! mod_current (λ r, set_pendingRequest r (Some request)) in
      let! c := mget in
      do! (if bool_decide (c_state c = StateAcceptRequest) then sendPreprepare request
           else mret' ()) in
      mret' None
  end.

Definition acceptPreprepare (p : Preprepare' B) : CM () :=
  mod_current (λ r, SetPreprepare r p).

(** The answer to an old PRE-PREPARE: COMMIT again if its block is in the chain
    and its sender was the speaker of that view. *)
Definition handleOldPreprepare (p : Preprepare' B) (src : address) : CM err :=
  let b := pp_BlockProposal p in
  let s := Copy (be_ParentFullnodes be b) in
  let previousSpeaker := be_GetSpeaker be (u64 (big_Uint64 (bp_Number b) - 1)) in
  let s := CalcSpeaker s previousSpeaker (big_Uint64 (Round (pp_View p))) in
  if IsSpeaker s src then
    let found := be_HasBlockProposal be (bp_Hash b) (bp_Number b) in
    do! emit (OHasBlock (bp_Hash b) (bp_Number b) found) in
    if found then
      do! sendCommitForOldBlock (pp_View p) (bp_Hash b) in mret' None
    else mret' (Some errOldMessage)
  else mret' (Some errOldMessage).

Definition handlePreprepare (m : message) (src : address) : CM err :=
  match (Decode_Preprepare m : option (Preprepare' B)) with
  | None => mret' (Some errFailedDecodePreprepare)
  | Some preprepare =>
      let! e := checkMessage msgPreprepare (Some (pp_View preprepare)) in
      match e with
      | Some e =>
          if bool_decide (e = errOldMessage) then handleOldPreprepare preprepare src
          else mret' (Some e)
      | None =>
          let! s := get_fullnodeSet in
          if negb (IsSpeaker s src) then mret' (Some errNotFromSpeaker) else
          let '(duration, e) := be_Verify be (pp_BlockProposal preprepare) in
          match e with
          | Some e =>
              do! (if bool_decide (e = ErrFutureBlock) then
                     emit (OFutureTimer duration (backlogEvent src m))
                   else sendNextRoundChange) in
              mret' (Some e)
          | None =>
              let! c := mget in
              do! (if bool_decide (c_state c = StateAcceptRequest) then
                     let! r := get_current in
                     if IsHashLocked (be_HasBadBlockProposal be) r then
                       if bp_Hash (pp_BlockProposal preprepare) =? GetLockedHash r then
                         do! acceptPreprepare preprepare in
                         do! setState StatePrepared in
                         sendCommit
                       else sendNextRoundChange
                     else
                       do! acceptPreprepare preprepare in
                       do! setState StatePreprepared in
                       sendPrepare
                   else mret' ()) in
              mret' None
          end
      end
  end.

(** [verifyPrepare] and [verifyCommit]: [reflect.DeepEqual] with our subject. *)
Definition verifySubject (r : roundState B) (sub : Subject') : err :=
  if bool_decide (Some sub = Subject r) then None else Some errInconsistentSubject.

Definition acceptPrepare (m : message) : CM err :=
  let! r := get_current in
  let '(ms, e) := ms_Add (rs_Prepares r) m in
  do! mmod (set_current (Some (set_Prepares r ms))) in mret' e.

Definition handlePrepare (m : message) (src : address) : CM err :=
  match Decode_Subject m with
  | None => mret' (Some errFailedDecodePrepare)
  | Some prepare =>
      let! e := checkMessage msgPrepare (Some (sub_View prepare)) in
      match e with
      | Some e => mret' (Some e)
      | None =>
          let! r := get_current in
          match verifySubject r prepare with
          | Some e => mret' (Some e)
          | None =>
              do! acceptPrepare m in
              let! s := get_fullnodeSet in
              let! r := get_current in
              let! c := mget in
              do! (if ((IsHashLocked (be_HasBadBlockProposal be) r
                        && (sub_Digest prepare =? GetLockedHash r))
                       || (MinApprovers s <=? GetPrepareOrCommitSize r))
                      && (State_Cmp (c_state c) StatePrepared <? 0) then
                     do! mod_current LockHash in
                     do! setState StatePrepared in
                     sendCommit
                   else mret' ()) in
              mret' None
          end
      end
  end.

Definition acceptCommit (m : message) : CM err :=
  let! r := get_current in
  let '(ms, e) := ms_Add (rs_Commits r) m in
  do! mmod (set_current (Some (set_Commits r ms))) in mret' e.

Definition handleCommit (m : message) (src : address) : CM err :=
  match Decode_Subject m with
  | None => mret' (Some errFailedDecodeCommit)
  | Some commitMsg =>
      let! e := checkMessage msgCommit (Some (sub_View commitMsg)) in
      match e with
      | Some e => mret' (Some e)
      | None =>
          let! r := get_current in
          match verifySubject r commitMsg with
          | Some e => mret' (Some e)
          | None =>
              do! acceptCommit m in
              let! r := get_current in
              let! s := get_fullnodeSet in
              let! c := mget in
              do! (if (MinApprovers s <=? ms_Size (rs_Commits r))
                      && (State_Cmp (c_state c) StateCommitted <? 0) then
                     do! mod_current LockHash in commit
                   else mret' ()) in
              mret' None
          end
      end
  end.

Definition handleRoundChange (m : message) (src : address) : CM err :=
  match Decode_Subject m with
  | None => mret' (Some errInvalidMessage)
  | Some rc =>
      let! e := checkMessage msgRoundChange (Some (sub_View rc)) in
      match e with
      | Some e => mret' (Some e)
      | None =>
          let! cv := currentView in
          let roundView := sub_View rc in
          let! rcs := get_roundChangeSet in
          let '(rcs', messageCount, e) := rcs_Add rcs (Round roundView) m in
          do! mmod (set_roundChangeSet (Some rcs')) in
          match e with
          | Some e => mret' (Some e)
          | None =>
              let! s := get_fullnodeSet in
              let expectedConsensus := MaxFaulty s + E s in
              let! c := mget in
              if c_waiting c && (messageCount =? expectedConsensus) then
                do! (if big_Cmp (Round cv) (Round roundView) <? 0 then
                       sendRoundChange (Round roundView)
                     else mret' ()) in
                mret' None
              else if (messageCount =? MinApprovers s)
                      && (c_waiting c || (big_Cmp (Round cv) (Round roundView) <? 0)) then
                do! startNewRound (Round roundView) in mret' None
              else if big_Cmp (Round cv) (Round roundView) <? 0 then mret' (Some errIgnored)
              else mret' None
          end
      end
  end.

(** ** core_handler.go *)

Definition testBacklog (m : message) (src : address) (handler : CM err) : CM err :=
  let! e := handler in
  do! (if bool_decide (e = Some errFutureMessage) then storeBacklog m src else mret' ()) in
  mret' e.

Definition handleCheckedMsg (m : message) (src : address) : CM err :=
  if Code m =? msgPreprepare then testBacklog m src (handlePreprepare m src)
  else if Code m =? msgPrepare then testBacklog m src (handlePrepare m src)
  else if Code m =? msgCommit then testBacklog m src (handleCommit m src)
  else if Code m =? msgRoundChange then testBacklog m src (handleRoundChange m src)
  else mret' (Some errInvalidMessage).

(** [checkFullnodeSignature] on a core without a fullnode set dereferences it
    once the signer is known; so does the next line of [handleMsg]. *)
Definition handleMsg (payload : bytes) : CM err :=
  let! c := mget in
  match c_fullnodeSet c with
  | None =>
      match FromPayload payload (Some GetSignatureAddress) with
      | (_, Some e) => mret' (Some e)
      | (_, None) => mpanic
      end
  | Some s =>
      match FromPayload payload (Some (CheckFullnodeSignature s)) with
      | (_, Some e) => mret' (Some e)
      | (None, None) => mret' (Some errRlp)
      | (Some m, None) =>
          match GetByAddress s (msg_Address m) with
          | None => mret' (Some ErrUnauthorizedAddress)
          | Some (_, src) => handleCheckedMsg m src
          end
      end
  end.

Definition handleTimeoutMsg : CM () :=
  let! c := mget in
  let! maxRound := (if c_waiting c then mret' None else
                      let! s := get_fullnodeSet in
                      let! rcs := get_roundChangeSet in
                      mret' (rcs_MaxRound rcs (MaxFaulty s + E s))) in
  let! catchUp := (match maxRound with
                   | Some mr => let! r := get_current in
                                mret' (if 0 <? big_Cmp mr (rs_round r) then Some mr else None)
                   | None => mret' None
                   end) in
  match catchUp with
  | Some mr => sendRoundChange mr
  | None =>
      match (be_LastBlockProposal be).1 with
      | Some last =>
          let! r := get_current in
          if 0 <=? big_Cmp (bp_Number last) (rs_sequence r) then startNewRound 0
          else sendNextRoundChange
      | None => sendNextRoundChange
      end
  end.

Definition handleFinalCommitted : CM err := do! startNewRound 0 in mret' None.

(** One iteration of the loop of [handleEvents]. *)
Definition gossip (payload : bytes) : CM () :=
  let! s := get_fullnodeSet in emit (OGossip (fs_List s) payload).

Definition handleEvent (ev : event B) : CM () :=
  match ev with
  | RequestEvent b =>
      let! _ := mderef b in
      let r := MkRequest b in
      let! e := handleRequest r in
      if bool_decide (e = Some errFutureMessage) then storeRequestMsg r else mret' ()
  | MessageEvent payload =>
      let! e := handleMsg payload in
      if bool_decide (e = None) then gossip payload else mret' ()
  | backlogEvent src m =>
      let! e := handleCheckedMsg m src in
      if bool_decide (e = None) then
        match Payload m with None => mret' () | Some p => gossip p end
      else mret' ()
  | timeoutEvent => handleTimeoutMsg
  | FinalCommittedEvent => do! handleFinalCommitted in mret' ()
  end.

(** [Start] before the event loop, and the end of the loop after [Stop]. *)
Definition Start : CM () := startNewRound 0.
Definition Stop : CM () := mmod (set_current None).
End core.
