(* ===== verification/Prque.v ===== *)
(** * The priority queue: cookiejar's collections/prque

    [Prque] is Go's heap over [sstack], a stack that keeps its items in blocks
    of 4096 and reuses them.  The theorems show that the blocks hold a list (the
    refinement [sstack_laws]), and that the queue keeps the promise the
    consensus core relies on, the class [PrQueLaws] of Core.v. *)

From Stdlib Require Import ZArith Lia.
From S2P Require Import Prelude Errors Heap Rlp Fullnode Messages Core.
Open Scope didux_scope.

(** ** Lists cut into blocks *)

Section blocks.
Context {A : Type} (B : nat).
Implicit Types (bs : list (list A)).
Definition full bs : Prop := Forall (λ b, length b = B) bs.

Lemma length_concat bs : full bs → length (concat bs) = (B * length bs)%nat.
Proof. induction 1 as [|b bs Hb _ IH]; simpl; [lia|]. rewrite length_app, Hb, IH. lia. Qed.

Lemma concat_lookup bs q r : full bs → (r < B)%nat →
  concat bs !! (B * q + r)%nat = bs !! q ≫= (.!! r).
Proof.
  intros Hf Hr. revert q. induction Hf as [|b bs Hb _ IH]; intros [|q]; simpl; try done.
  - rewrite lookup_app_l by lia. f_equal. lia.
  - rewrite lookup_app_r by lia. rewrite <-IH. f_equal. lia.
Qed.

Lemma concat_insert bs q r b x : full bs → (r < B)%nat → bs !! q = Some b →
  concat (<[q := <[r := x]> b]> bs) = <[(B * q + r)%nat := x]> (concat bs).
Proof.
  intros Hf Hr. revert q. induction Hf as [|b' bs Hb _ IH]; intros [|q] Hq; simpl in Hq |- *;
    [done|done|injection Hq as ->|].
  - rewrite insert_app_l by lia. do 2 f_equal. lia.
  - rewrite IH by done. replace (B * S q + r)%nat with (length b' + (B * q + r))%nat by lia.
    by rewrite insert_app_r.
Qed.

Lemma full_insert bs q r b x : full bs → bs !! q = Some b → full (<[q := <[r := x]> b]> bs).
Proof.
  intros Hf Hq. apply Forall_insert; [done|]. rewrite length_insert.
  exact (proj1 (Forall_lookup _ _) Hf q b Hq).
Qed.
End blocks.

(** ** sstack.go *)

Definition blockSize : nat := Z.to_nat 4096.

Definition prio {A} (x : A * Z) : Z := x.2.

(** [active] is the index, in [blocks], of the block in use. *)
Record sstack (A : Type) := MkSstack {
  ss_size : nat; ss_capacity : nat; ss_offset : nat;
  ss_blocks : list (list (option (A * Z))); ss_active : nat
}.
Arguments MkSstack {_}. Arguments ss_size {_}. Arguments ss_capacity {_}. Arguments ss_offset {_}.
Arguments ss_blocks {_}. Arguments ss_active {_}.

Section sstack.
Context {A : Type}.
Implicit Types s : sstack A.

Definition newSstack : sstack A := MkSstack 0 blockSize 0 [replicate blockSize None] 0.

(** [blocks[i/blockSize][i%blockSize]] *)
Definition slot s (i : nat) : option (option (A * Z)) :=
  match ss_blocks s !! (i / blockSize)%nat with
  | None => None
  | Some b => b !! (i mod blockSize)%nat
  end.
(** ... and an assignment to it. *)
Definition set_slot s (i : nat) (x : option (A * Z)) : option (sstack A) :=
  match ss_blocks s !! (i / blockSize)%nat with
  | None => None
  | Some b =>
      if (i mod blockSize <? length b)%nat
      then Some (MkSstack (ss_size s) (ss_capacity s) (ss_offset s)
                   (<[(i / blockSize)%nat := <[(i mod blockSize)%nat := x]> b]> (ss_blocks s)) (ss_active s))
      else None
  end.

Definition sstack_Push s (data : A * Z) : option (sstack A) :=
  let s := if (ss_size s =? ss_capacity s)%nat then
             MkSstack (ss_size s) (ss_capacity s + blockSize) 0
               (ss_blocks s ++ [replicate blockSize None]) (length (ss_blocks s))
           else if (ss_offset s =? blockSize)%nat then
             MkSstack (ss_size s) (ss_capacity s) 0 (ss_blocks s) (ss_size s / blockSize)
           else s in
  match ss_blocks s !! ss_active s with
  | None => None
  | Some b =>
      if (ss_offset s <? length b)%nat
      then Some (MkSstack (ss_size s + 1) (ss_capacity s) (ss_offset s + 1)
                   (<[ss_active s := <[ss_offset s := Some data]> b]> (ss_blocks s)) (ss_active s))
      else None
  end.

(** A popped [nil] fails the type assertion of [Prque.Pop]. *)
Definition sstack_Pop s : option (A * Z * sstack A) :=
  match ss_size s with
  | O => None
  | S size' =>
      let '(offset', active') := match ss_offset s with
                                 | O => ((blockSize - 1)%nat, (size' / blockSize)%nat)
                                 | S o => (o, ss_active s)
                                 end in
      match ss_blocks s !! active' with
      | None => None
      | Some b =>
          match b !! offset' with
          | Some (Some x) => Some (x, MkSstack size' (ss_capacity s) offset'
                                        (<[active' := <[offset' := None]> b]> (ss_blocks s)) active')
          | _ => None
          end
      end
  end.

Definition sstack_Less s (i j : nat) : option bool :=
  match slot s i, slot s j with
  | Some (Some x), Some (Some y) => Some (prio y <? prio x)
  | _, _ => None
  end.

Definition sstack_Swap s (i j : nat) : option (sstack A) :=
  match slot s i, slot s j with
  | Some x, Some y => match set_slot s i y with None => None | Some s' => set_slot s' j x end
  | _, _ => None
  end.

#[export] Instance sstack_heap : HeapInterface (sstack A) (A * Z) :=
  { hLen := ss_size; hLess := sstack_Less; hSwap := sstack_Swap; hPush := sstack_Push; hPop := sstack_Pop }.
End sstack.

(** ** The stack is a list *)

Lemma blockSize_pos : (0 < blockSize)%nat.
Proof. apply Nat.ltb_lt. vm_compute. done. Qed.
#[local] Opaque blockSize.

Section refinement.
Context {A : Type}.
Implicit Types (s : sstack A) (l : list (A * Z)).

(** The items, in stack order. *)
Definition items s : list (A * Z) := omap id (concat (ss_blocks s)).

(** [holds s l]: the used slots of the blocks are the list [l], the free slots
    are nil, and the position of the top is the size. *)
Record holds s l : Prop := {
  hd_slots : concat (ss_blocks s) = (Some <$> l) ++ replicate (ss_capacity s - ss_size s) None;
  hd_full : full blockSize (ss_blocks s);
  hd_capacity : ss_capacity s = (blockSize * length (ss_blocks s))%nat;
  hd_size : ss_size s = length l;
  hd_fits : (ss_size s <= ss_capacity s)%nat;
  hd_top : (blockSize * ss_active s + ss_offset s = ss_size s)%nat;
  hd_offset : (ss_offset s <= blockSize)%nat;
  hd_active : (ss_active s < length (ss_blocks s))%nat
}.
Definition sstack_wf s : Prop := holds s (items s).

Lemma omap_slots l n : omap id ((Some <$> l) ++ replicate n (@None (A * Z))) = l.
Proof.
  induction l as [|x l IH]; simpl; [|by f_equal]. induction n as [|n IH]; simpl; done.
Qed.
Lemma holds_items s l : holds s l → items s = l.
Proof. intros Hh. unfold items. rewrite (hd_slots _ _ Hh). apply omap_slots. Qed.
Lemma holds_wf s l : holds s l → sstack_wf s ∧ items s = l.
Proof. intros Hh. pose proof (holds_items s l Hh) as Hi. split; [|done]. unfold sstack_wf. by rewrite Hi. Qed.

Lemma newSstack_holds : holds newSstack [].
Proof.
  pose proof blockSize_pos. split; simpl; try lia.
  - by rewrite app_nil_r, Nat.sub_0_r.
  - constructor; [apply length_replicate|constructor].
Qed.

Lemma div_mod_slot i : i = (blockSize * (i / blockSize) + i mod blockSize)%nat ∧ (i mod blockSize < blockSize)%nat.
Proof.
  pose proof blockSize_pos. split; [apply Nat.div_mod_eq|apply Nat.mod_upper_bound; lia].
Qed.

Lemma slot_concat s i : full blockSize (ss_blocks s) → slot s i = concat (ss_blocks s) !! i.
Proof.
  intros Hf. destruct (div_mod_slot i) as [Hi Hr]. rewrite Hi at 2. rewrite (concat_lookup blockSize) by done.
  unfold slot. by destruct (ss_blocks s !! _).
Qed.
Lemma slot_items s l i x : holds s l → l !! i = Some x → slot s i = Some (Some x).
Proof.
  intros Hh Hx. rewrite slot_concat by apply Hh. rewrite (hd_slots _ _ Hh).
  apply lookup_app_l_Some. by rewrite list_lookup_fmap, Hx.
Qed.

Lemma set_slot_items s l i x : holds s l → (i < length l)%nat →
  ∃ s', set_slot s i (Some x) = Some s' ∧ holds s' (<[i := x]> l).
Proof.
  intros Hh Hi. destruct (div_mod_slot i) as [Hd Hr].
  assert (∃ b, ss_blocks s !! (i / blockSize)%nat = Some b) as [b Hb].
  { apply lookup_lt_is_Some_2. pose proof (hd_fits _ _ Hh). rewrite (hd_size _ _ Hh), (hd_capacity _ _ Hh) in *.
    apply (Nat.mul_lt_mono_pos_l blockSize); [apply blockSize_pos|lia]. }
  assert (length b = blockSize) as Hlb by exact (proj1 (Forall_lookup _ _) (hd_full _ _ Hh) _ _ Hb).
  unfold set_slot. rewrite Hb, Hlb, (proj2 (Nat.ltb_lt _ _) Hr). eexists. split; [done|].
  destruct Hh. split; simpl; rewrite ?length_insert; try done.
  - rewrite (concat_insert blockSize), <-Hd, hd_slots0 by done.
    rewrite insert_app_l by by rewrite length_fmap. by rewrite list_fmap_insert.
  - by apply full_insert.
Qed.

Lemma Swap_items s l i j : holds s l → (i < length l)%nat → (j < length l)%nat →
  ∃ s', sstack_Swap s i j = Some s' ∧ holds s' (list_swap l i j).
Proof.
  intros Hh Hi Hj. destruct (lookup_lt_is_Some_2 l i Hi) as [x Hx], (lookup_lt_is_Some_2 l j Hj) as [y Hy].
  unfold sstack_Swap. rewrite (slot_items s l i x), (slot_items s l j y) by done.
  destruct (set_slot_items s l i y Hh Hi) as (s1 & -> & Hh1).
  destruct (set_slot_items s1 _ j x Hh1) as (s2 & -> & Hh2); [by rewrite length_insert|].
  exists s2. split; [done|]. unfold list_swap. rewrite Hx, Hy.
  destruct (decide (i = j)) as [->|]; [|by rewrite list_insert_insert_ne].
  simplify_eq. by rewrite !list_insert_id in * by done.
Qed.

(** The block the next item goes to. *)
Lemma Push_room s l : holds s l →
  let s' := if (ss_size s =? ss_capacity s)%nat then
              MkSstack (ss_size s) (ss_capacity s + blockSize) 0
                (ss_blocks s ++ [replicate blockSize None]) (length (ss_blocks s))
            else if (ss_offset s =? blockSize)%nat then
              MkSstack (ss_size s) (ss_capacity s) 0 (ss_blocks s) (ss_size s / blockSize)
            else s in
  holds s' l ∧ (ss_offset s' < blockSize)%nat ∧ (ss_size s' < ss_capacity s')%nat.
Proof.
  pose proof blockSize_pos. intros []. destruct (Nat.eqb_spec (ss_size s) (ss_capacity s)) as [Heq|Hne]; simpl.
  - split; [|lia]. split; simpl; rewrite ?length_app; simpl; try lia.
    + rewrite concat_app, hd_slots0. simpl. rewrite app_nil_r, <-app_assoc. f_equal.
      rewrite <-replicate_add. f_equal. lia.
    + apply Forall_app. split; [done|]. constructor; [apply length_replicate|constructor].
  - destruct (Nat.eqb_spec (ss_offset s) blockSize) as [Ho|Ho]; simpl; [|split; [by split|lia]].
    assert (ss_size s = blockSize * S (ss_active s))%nat as Hs by lia.
    assert (ss_size s / blockSize = S (ss_active s))%nat as Hq by (rewrite Hs, Nat.mul_comm; apply Nat.div_mul; lia).
    split; [|lia]. split; simpl; try done; try lia. rewrite Hq.
    apply (Nat.mul_lt_mono_pos_l blockSize); lia.
Qed.

Lemma Push_items s l x : holds s l → ∃ s', sstack_Push s x = Some s' ∧ holds s' (l ++ [x]).
Proof.
  intros (Hh & Ho & Hs)%Push_room. unfold sstack_Push. revert Hh Ho Hs.
  match goal with |- holds ?e _ → _ => generalize e end. clear s. intros s Hh Ho Hs.
  destruct (lookup_lt_is_Some_2 (ss_blocks s) (ss_active s)) as [b Hb]; [apply Hh|]. rewrite Hb.
  rewrite (proj1 (Forall_lookup _ _) (hd_full _ _ Hh) _ _ Hb), (proj2 (Nat.ltb_lt _ _) Ho).
  eexists. split; [done|]. destruct Hh. split; simpl; rewrite ?length_app, ?length_insert; simpl; try lia; try done.
  - rewrite (concat_insert blockSize), hd_slots0 by done.
    rewrite insert_app_r_alt by (rewrite length_fmap; lia). rewrite length_fmap, hd_top0, hd_size0, Nat.sub_diag.
    replace (ss_capacity s - length l)%nat with (S (ss_capacity s - (length l + 1))) by lia.
    simpl. by rewrite fmap_app, <-app_assoc.
  - by apply full_insert.
Qed.

Lemma Pop_items s l x : holds s (l ++ [x]) → ∃ s', sstack_Pop s = Some (x, s') ∧ holds s' l.
Proof.
  intros Hh. pose proof blockSize_pos. pose proof (hd_size _ _ Hh) as Hs. rewrite length_app in Hs. simpl in Hs.
  unfold sstack_Pop. replace (ss_size s) with (S (length l)) by lia.
  set (pos := match ss_offset s with O => _ | S o => _ end).
  assert (blockSize * pos.2 + pos.1 = length l ∧ pos.1 < blockSize ∧ pos.2 < length (ss_blocks s))%nat
    as (Hpos & Ho & Ha).
  { destruct Hh. unfold pos. destruct (ss_offset s) as [|o]; simpl; [|lia].
    assert (ss_active s ≠ 0)%nat by (intros Hz; rewrite Hz in *; lia).
    replace (length l) with ((blockSize - 1) + (ss_active s - 1) * blockSize)%nat by nia.
    rewrite Nat.div_add, Nat.div_small by lia. simpl. nia. }
  clearbody pos. destruct pos as [o a]. simpl in *.
  destruct (lookup_lt_is_Some_2 (ss_blocks s) a Ha) as [b Hb]. rewrite Hb.
  assert (b !! o = Some (Some x)) as ->.
  { pose proof (concat_lookup blockSize (ss_blocks s) a o (hd_full _ _ Hh) Ho) as Hc. rewrite Hb in Hc. simpl in Hc.
    rewrite <-Hc, Hpos, (hd_slots _ _ Hh), fmap_app, <-app_assoc. rewrite lookup_app_r by by rewrite length_fmap.
    by rewrite length_fmap, Nat.sub_diag. }
  eexists. split; [done|]. destruct Hh. split; simpl; rewrite ?length_insert; try lia; try done.
  - rewrite (concat_insert blockSize), hd_slots0, Hpos, fmap_app, <-app_assoc by done.
    rewrite insert_app_r_alt by (rewrite length_fmap; lia). rewrite length_fmap, Nat.sub_diag. simpl.
    f_equal. replace (ss_capacity s - length l)%nat with (S (ss_capacity s - ss_size s)) by lia. done.
  - by apply full_insert.
Qed.

#[export] Instance sstack_laws : HeapLaws (sstack A) (A * Z) prio.
Proof.
  refine {| contents := items; h_wf := sstack_wf |}; unfold sstack_wf.
  - intros s Hh. apply Hh.
  - intros s i j x y Hh Hx Hy. simpl. unfold sstack_Less.
    rewrite (slot_items _ _ _ _ Hh Hx), (slot_items _ _ _ _ Hh Hy). f_equal. unfold prio.
    case_bool_decide; [by apply Z.ltb_lt|]. by apply Z.ltb_ge; lia.
  - intros s i j Hh Hi Hj. destruct (Swap_items s _ i j Hh Hi Hj) as (s' & Hs & Hw%holds_wf). eauto.
  - intros s x Hh. destruct (Push_items s _ x Hh) as (s' & Hs & Hw%holds_wf). eauto.
  - intros s l x Hh Hl. rewrite Hl in Hh. destruct (Pop_items s l x Hh) as (s' & Hs & Hw%holds_wf). eauto.
Defined.
End refinement.

(** ** prque.go *)

(** A [*Prque] whose stack is in heap order, as [New], [Push] and [Pop] keep it. *)
Record Prque (A : Type) := MkPrque { cont : sstack A; cont_ok : is_heap prio cont }.
Arguments MkPrque {_}. Arguments cont {_}. Arguments cont_ok {_}.

Section prque.
Context {A : Type}.
Implicit Types (s : sstack A) (q : Prque A).

Lemma New_ok : is_heap prio (newSstack : sstack A).
Proof.
  destruct (holds_wf _ _ (newSstack_holds (A:=A))) as [Hwf Hi]. split; [done|].
  simpl. rewrite Hi. intros i m _ Hm. simpl in Hm. lia.
Qed.
Definition Prque_New : Prque A := MkPrque newSstack New_ok.

Lemma Push_ok s x s' : is_heap prio s → heap_Push s x = Some s' → is_heap prio s'.
Proof. intros Hs Hp. destruct (heap_Push_correct prio s x Hs) as (s1 & Hp1 & ? & _). congruence. Qed.
(** Popping an empty queue panics, at [hSwap(0, -1)]. *)
Lemma heap_Pop_empty s r : is_heap prio s → items s = [] → heap_Pop s ≠ Some r.
Proof.
  intros [Hwf _] He Hp. simpl in Hwf.
  assert (ss_size s = 0%nat) as Hz by (rewrite (hd_size _ _ Hwf), He; done).
  unfold heap_Pop in Hp. simpl in Hp. rewrite Hz in Hp. simpl in Hp. unfold sstack_Swap, set_slot in Hp.
  repeat (case_match; simplify_eq/=). all: unfold sstack_Pop in *; simpl in *; by rewrite Hz in *.
Qed.
Lemma Pop_ok s x s' : is_heap prio s → heap_Pop s = Some (x, s') → is_heap prio s'.
Proof.
  intros Hs Hp. destruct (decide (items s = [])) as [He|He]; [by destruct (heap_Pop_empty s (x, s') Hs He)|].
  destruct (heap_Pop_correct prio s Hs He) as (y & s1 & Hp1 & ? & _). congruence.
Qed.

Definition Prque_Push q (data : A) (priority : Z) : Prque A :=
  match heap_Push (cont q) (data, priority) as r return heap_Push (cont q) (data, priority) = r → Prque A with
  | Some s => λ Hs, MkPrque s (Push_ok _ _ _ (cont_ok q) Hs)
  | None => λ _, q
  end eq_refl.

(** [None]: the panic of a pop from an empty queue. *)
Definition Prque_Pop q : option (A * Z * Prque A) :=
  match heap_Pop (cont q) as r return heap_Pop (cont q) = r → option (A * Z * Prque A) with
  | Some (x, s) => λ Hs, Some (x, MkPrque s (Pop_ok _ _ _ (cont_ok q) Hs))
  | None => λ _, None
  end eq_refl.

Lemma Prque_Push_cont q data priority :
  heap_Push (cont q) (data, priority) = Some (cont (Prque_Push q data priority)).
Proof.
  unfold Prque_Push. destruct (heap_Push_correct prio (cont q) (data, priority) (cont_ok q)) as (s & Hs & _ & _).
  generalize (Push_ok (cont q) (data, priority)). rewrite Hs. done.
Qed.
Lemma Prque_Pop_cont q :
  (λ r : A * Z * Prque A, (r.1, cont r.2)) <$> Prque_Pop q = heap_Pop (cont q).
Proof.
  unfold Prque_Pop. generalize (Pop_ok (cont q)). destruct (heap_Pop (cont q)) as [[x s]|]; done.
Qed.
End prque.

#[export] Instance prque_PrQue : PrQue Prque :=
  { pq_New := @Prque_New; pq_Push := @Prque_Push; pq_Pop := @Prque_Pop; pq_items := λ A q, items (cont q) }.

#[export] Instance prque_PrQueLaws : PrQueLaws Prque.
Proof.
  split; simpl.
  - intros A. apply holds_items, newSstack_holds.
  - intros A q x p. pose proof (Prque_Push_cont q x p) as Hp.
    destruct (heap_Push_correct prio (cont q) (x, p) (cont_ok q)) as (s & Hs & _ & Hperm).
    rewrite Hs in Hp. injection Hp as <-. exact Hperm.
  - intros A q. pose proof (Prque_Pop_cont q) as Hq. split.
    + intros Hn. rewrite Hn in Hq. simpl in Hq. apply dec_stable. intros Hne.
      destruct (heap_Pop_correct prio (cont q) (cont_ok q) Hne) as (x & s & Hp & _). congruence.
    + intros He. destruct (Prque_Pop q) as [[x q']|]; [|done]. exfalso. simpl in Hq.
      symmetry in Hq. by eapply heap_Pop_empty; [apply cont_ok|..].
  - intros A q x p q' Hp. pose proof (Prque_Pop_cont q) as Hq. rewrite Hp in Hq. simpl in Hq.
    destruct (decide (items (cont q) = [])) as [He|He]; [exfalso; symmetry in Hq; by eapply heap_Pop_empty; [apply cont_ok|..]|].
    destruct (heap_Pop_correct prio (cont q) (cont_ok q) He) as (y & s & Hs & _ & Hperm & Hmax).
    rewrite Hs in Hq. injection Hq as <- <-. done.
Qed.

(** ** Sorting with the queue *)

Section sorting.
Context {A : Type}.

Fixpoint push_all (s : sstack A) (xs : list (A * Z)) : option (sstack A) :=
  match xs with
  | [] => Some s
  | x :: xs => match heap_Push s x with None => None | Some s' => push_all s' xs end
  end.
Fixpoint pop_all (n : nat) (s : sstack A) : option (list (A * Z) * sstack A) :=
  match n with
  | O => Some ([], s)
  | S n => match heap_Pop s with
           | None => None
           | Some (x, s') => match pop_all n s' with None => None | Some (xs, s'') => Some (x :: xs, s'') end
           end
  end.

Lemma push_all_correct s xs : is_heap prio s →
  ∃ s', push_all s xs = Some s' ∧ is_heap prio s' ∧ items s' ≡ₚ xs ++ items s.
Proof.
  revert s. induction xs as [|x xs IH]; intros s Hs; [by exists s|]. cbn [push_all].
  destruct (heap_Push_correct prio s x Hs) as (s1 & -> & Hs1 & Hp1). simpl in Hp1.
  destruct (IH s1 Hs1) as (s2 & -> & Hs2 & Hp2). exists s2. split_and!; [done..|].
  rewrite Hp2, Hp1. solve_Permutation.
Qed.
Lemma pop_all_correct n s : is_heap prio s → length (items s) = n →
  ∃ ys s', pop_all n s = Some (ys, s') ∧ ys ≡ₚ items s ∧ items s' = [] ∧
    StronglySorted (λ x y, prio y <= prio x) ys.
Proof.
  revert s. induction n as [|n IH]; intros s Hs Hn; cbn [pop_all].
  { apply length_zero_iff_nil in Hn. exists [], s. rewrite Hn. split_and!; [done..|constructor]. }
  destruct (heap_Pop_correct prio s Hs) as (x & s1 & -> & Hs1 & Hp & Hmax); [by intros He; simpl in He; rewrite He in Hn|].
  simpl in Hp, Hmax. apply Permutation_length in Hp as Hl. simpl in Hl.
  destruct (IH s1 Hs1) as (ys & s2 & -> & Hys & He & Hsort); [lia|].
  exists (x :: ys), s2. split_and!; [done| |done|]; [by rewrite Hp, Hys|].
  constructor; [done|]. by rewrite Hys.
Qed.

(** C26. Items pushed in any order, over any number of blocks, are popped by
    decreasing priority; none is lost or invented, and no index is out of range. *)
Theorem prque_sorts (xs : list (A * Z)) :
  ∃ s ys s', push_all newSstack xs = Some s ∧ pop_all (length xs) s = Some (ys, s') ∧
    ys ≡ₚ xs ∧ StronglySorted (λ x y, prio y <= prio x) ys ∧ items s' = [].
Proof.
  destruct (push_all_correct newSstack xs New_ok) as (s & Hs & Hok & Hp).
  rewrite (holds_items _ _ newSstack_holds), app_nil_r in Hp.
  destruct (pop_all_correct (length xs) s Hok) as (ys & s' & Hys & Hp' & He & Hsort);
    [by rewrite (Permutation_length Hp)|].
  exists s, ys, s'. split_and!; [done..| |done|done]. by rewrite Hp', Hp.
Qed.
End sorting.
