(* ===== verification/Backlog.v ===== *)
(** * The backlog and the pending requests

    The loops of [processBacklog] and [processPendingRequests] end, and every
    message they take from a queue is posted again, dropped, or put back. *)

From Stdlib Require Import ZArith Lia.
From S2P Require Import Prelude Errors Rlp Fullnode Messages Core.
Open Scope didux_scope.
#[local] Set Default Proof Using "Type*".

Section backlog.
Context {B : Type} `{!BlockProposal B} {Q : Type → Type} `{!PrQue Q, !PrQueLaws Q}.
Context `{!Crypto, !AddrString, !GoArch}.
Implicit Types (c : core B Q) (r : roundState B) (q : Q message).

(** What [checkMessage] says of a stored message. *)
Definition msg_check c (m : message) : option err :=
  match msg_view (B:=B) m with
  | Some v => checkMessage_in c (Code m) (Some v)
  | None => Some (Some errInvalidMessage)
  end.

Lemma checkMessage_in_Some c r code v : c_current c = Some r →
  ∃ e, checkMessage_in c code (Some v) = Some e ∧
    (e = None ∨ e = Some errFutureMessage ∨ e = Some errOldMessage).
Proof. intros Hr. unfold checkMessage_in. rewrite Hr. eexists. split; [done|]. repeat case_match; auto. Qed.

Lemma pq_Pop_length A (q : Q A) x p (q' : Q A) : pq_Pop q = Some (x, p, q') →
  length (pq_items q) = S (length (pq_items q')).
Proof. intros [Hp _]%pq_Pop_Some. by rewrite Hp. Qed.

(** [drained c q q' posted dropped]: the messages of [q] are those left in [q'],
    those posted and those dropped; posted ones pass the check, dropped ones do
    not decode or are old, and nothing is left behind a future message. *)
Record drained c q q' (posted dropped : list (message * Z)) : Prop := {
  d_partition : pq_items q ≡ₚ posted ++ dropped ++ pq_items q';
  d_posted : Forall (λ x, msg_check c x.1 = Some None) posted;
  d_dropped : Forall (λ x, msg_check c x.1 = Some (Some errInvalidMessage)
                         ∨ msg_check c x.1 = Some (Some errOldMessage)) dropped;
  d_left : pq_items q' = [] ∨
    ∃ x, x ∈ pq_items q' ∧ msg_check c x.1 = Some (Some errFutureMessage) ∧
         Forall (λ y, y.2 <= x.2) (pq_items q')
}.

Lemma drain_spec fuel c r src q :
  c_current c = Some r → (length (pq_items q) < fuel)%nat →
  ∃ q' posted dropped, drain fuel c src q = Some (q', backlogEvent src <$> posted.*1) ∧
    drained c q q' posted dropped.
Proof.
  intros Hr. revert q. induction fuel as [|fuel IH]; intros q Hlen; [lia|]. cbn [drain].
  destruct (pq_Pop q) as [[[m prio] q1]|] eqn:Hpop.
  2:{ exists q, [], []. split; [done|]. split; [done..|]. left. by apply pq_Pop_None. }
  assert (length (pq_items q1) < fuel)%nat as Hlen1 by (apply pq_Pop_length in Hpop; lia).
  destruct (pq_Pop_Some _ _ _ _ _ Hpop) as [Hperm Hmax].
  destruct (msg_view (B:=B) m) as [v|] eqn:Hv.
  2:{ destruct (IH q1 Hlen1) as (q' & po & dr & -> & [Hp Hpo Hdr Hl]).
      exists q', po, ((m, prio) :: dr). split; [done|]. split; [|done| |done].
      - rewrite Hperm, Hp. solve_Permutation.
      - constructor; [|done]. left. unfold msg_check. simpl. by rewrite Hv. }
  destruct (checkMessage_in_Some c r (Code m) v Hr) as (e & Hc & He). rewrite Hc.
  assert (msg_check c m = Some e) as Hmc by (unfold msg_check; by rewrite Hv).
  destruct He as [-> | [-> | ->]].
  - destruct (IH q1 Hlen1) as (q' & po & dr & -> & [Hp Hpo Hdr Hl]).
    exists q', ((m, prio) :: po), dr. split; [done|]. split; [|by constructor|done..].
    rewrite Hperm, Hp. done.
  - case_bool_decide; [|done]. exists (pq_Push q1 m prio), [], []. split; [done|].
    split; [|done..|].
    + by rewrite pq_Push_items.
    + right. exists (m, prio). rewrite pq_Push_items. split_and!; [set_solver|done|].
      constructor; [simpl; lia|done].
  - case_bool_decide; [done|]. destruct (IH q1 Hlen1) as (q' & po & dr & -> & [Hp Hpo Hdr Hl]).
    exists q', po, ((m, prio) :: dr). split; [done|]. split; [|done| |done].
    + rewrite Hperm, Hp. solve_Permutation.
    + constructor; auto.
Qed.

(** The outer loop: each sender's queue is drained, the queues of senders that
    have left the fullnode set are deleted. *)
Record entry_done c (s : fullnodeSet) a q (bl' : gmap Z (Q message)) (evs : list (event B)) : Prop := {
  e_gone : a ∉ fs_fullnodes s → bl' !! a = None;
  e_kept : a ∈ fs_fullnodes s → ∃ q' posted dropped, bl' !! a = Some q' ∧
    drained c q q' posted dropped ∧ (backlogEvent a <$> posted.*1) ⊆ evs
}.

Lemma processBacklog_fold c r s bl entries :
  c_current c = Some r → NoDup entries.*1 →
  ∃ bl' evs, foldr (processBacklog_entry c s) (Some (bl, [])) entries = Some (bl', evs) ∧
    (∀ a, a ∉ entries.*1 → bl' !! a = bl !! a) ∧
    (∀ a q, (a, q) ∈ entries → entry_done c s a q bl' evs) ∧
    (∀ e, e ∈ evs → ∃ a q m p, e = backlogEvent a m ∧ (a, q) ∈ entries ∧ (m, p) ∈ pq_items q).
Proof.
  intros Hr. induction entries as [|[a q] entries IH];
    rewrite ?fmap_cons; cbn [foldr fst]; intros Hnd.
  { exists bl, []. split_and!; [done..| |]; intros; by decompose_list_elem_of. }
  apply NoDup_cons in Hnd as [Hna Hnd]. destruct (IH Hnd) as (bl1 & evs1 & -> & Hout & Hin & Hev).
  cbv beta iota delta [processBacklog_entry]. destruct (GetByAddress s a) as [[i src]|] eqn:Hg.
  - apply GetByAddress_Some in Hg as (-> & _ & Hl).
    apply list_elem_of_lookup_2 in Hl.
    destruct (drain_spec (S (length (pq_items q))) c r a q Hr ltac:(lia))
      as (q' & po & dr & -> & Hd).
    exists (<[a:=q']> bl1), (evs1 ++ (backlogEvent a <$> po.*1)). split_and!; [done|..].
    + intros b [Hb1 Hb2]%not_elem_of_cons. rewrite lookup_insert_ne by done. auto.
    + intros b q0 [[= -> ->]|Hin0]%elem_of_cons.
      * split; [done|].
        intros _. exists q', po, dr. rewrite lookup_insert_eq. split_and!; [done..|set_solver].
      * assert (b ≠ a) by (intros ->; apply Hna, list_elem_of_fmap; by exists (a, q0)).
        destruct (Hin b q0 Hin0) as [Hg' Hk]. split; rewrite lookup_insert_ne by done; [auto|].
        intros (q1 & p1 & d1 & ? & ? & ?)%Hk. exists q1, p1, d1. split_and!; [done..|set_solver].
    + intros e [He|He]%elem_of_app.
      * destruct (Hev e He) as (b & qb & m & p & ? & ? & ?). exists b, qb, m, p.
        split_and!; [done| |done]. by right.
      * apply list_elem_of_fmap in He as (m & -> & [[m' p] [-> Hp]]%list_elem_of_fmap).
        exists a, q, m', p. split_and!; [done|by left|]. rewrite (d_partition _ _ _ _ _ Hd). set_solver.
  - apply GetByAddress_None in Hg. exists (delete a bl1), evs1. split_and!; [done|..].
    + intros b [Hb1 Hb2]%not_elem_of_cons. rewrite lookup_delete_ne by done. auto.
    + intros b q0 [[= -> ->]|Hin0]%elem_of_cons.
      * split; [intros _; apply lookup_delete_eq|done].
      * assert (b ≠ a) by (intros ->; apply Hna, list_elem_of_fmap; by exists (a, q0)).
        destruct (Hin b q0 Hin0) as [Hg' Hk]. split; rewrite lookup_delete_ne by done; auto.
    + intros e He. destruct (Hev e He) as (b & qb & m & p & ? & ? & ?). exists b, qb, m, p.
      split_and!; [done| |done]. by right.
Qed.

(** What [processBacklog] makes of the backlogs [bl]. *)
Record backlog_processed c s (bl bl' : gmap Z (Q message)) (evs : list (event B)) : Prop := {
  p_absent a : bl !! a = None → bl' !! a = None;
  p_entry a q : bl !! a = Some q → entry_done c s a q bl' evs;
  p_event e : e ∈ evs → ∃ a q m p, e = backlogEvent a m ∧ bl !! a = Some q ∧ (m, p) ∈ pq_items q
}.

Lemma set_backlogs_id c : set_backlogs (c_backlogs c) (add_trace [] c) = c.
Proof. by destruct c. Qed.

Lemma processBacklog_run c r s :
  c_current c = Some r → c_fullnodeSet c = Some s →
  ∃ bl' evs, processBacklog c = Some ((), add_trace (reverse (OPost <$> evs)) (set_backlogs bl' c)) ∧
    backlog_processed c s (c_backlogs c) bl' evs.
Proof.
  intros Hr Hs.
  destruct (processBacklog_fold c r s (c_backlogs c) (map_to_list (c_backlogs c)) Hr
              (NoDup_fst_map_to_list _)) as (bl' & evs & Hf & Hout & Hin & Hev).
  exists bl', evs. split.
  - unfold processBacklog, mbind', mget. destruct (map_to_list (c_backlogs c)) as [|x l] eqn:Hl.
    + simpl in Hf. simplify_eq. by destruct c.
    + unfold get_fullnodeSet, mbind', mget, mderef. rewrite Hs. unfold mret'. by rewrite Hf.
  - split.
    + intros a Ha. rewrite Hout; [done|].
      intros ([b q] & -> & Hb%elem_of_map_to_list)%list_elem_of_fmap. simplify_eq/=.
    + intros a q Ha%elem_of_map_to_list. auto.
    + intros e He. destruct (Hev e He) as (a & q & m & p & -> & Hm%elem_of_map_to_list & Hp).
      by exists a, q, m, p.
Qed.

(** ** Pending requests *)

Record requests_drained r (q q' : Q (Request B)) (posted dropped : list (Request B * Z)) : Prop := {
  r_partition : pq_items q ≡ₚ posted ++ dropped ++ pq_items q';
  r_posted : Forall (λ x, checkRequestMsg_in r (Some x.1) = None) posted;
  r_dropped : Forall (λ x, checkRequestMsg_in r (Some x.1) = Some errOldMessage) dropped;
  r_left : pq_items q' = [] ∨
    ∃ x, x ∈ pq_items q' ∧ checkRequestMsg_in r (Some x.1) = Some errFutureMessage
}.

Lemma checkRequestMsg_cases r (req : Request B) b : req_BlockProposal req = Some b →
  let d := checkRequestMsg_in r (Some req) in
  d = None ∨ d = Some errFutureMessage ∨ d = Some errOldMessage.
Proof. intros Hb. unfold checkRequestMsg_in. rewrite Hb. repeat case_match; auto. Qed.

Lemma drain_requests_spec fuel r (q : Q (Request B)) :
  Forall (λ x, is_Some (req_BlockProposal x.1)) (pq_items q) →
  (length (pq_items q) < fuel)%nat →
  ∃ (q' : Q (Request B)) posted dropped,
    drain_requests fuel r q = Some (q', (λ x, RequestEvent (req_BlockProposal x.1)) <$> posted) ∧
    requests_drained r q q' posted dropped.
Proof.
  revert q. induction fuel as [|fuel IH]; intros q Hok Hlen; [lia|]. cbn [drain_requests].
  destruct (pq_Pop q) as [[[req prio] q1]|] eqn:Hpop.
  2:{ exists q, [], []. split; [done|]. split; [done..|]. left. by apply pq_Pop_None. }
  assert (length (pq_items q1) < fuel)%nat as Hlen1 by (apply pq_Pop_length in Hpop; lia).
  destruct (pq_Pop_Some _ _ _ _ _ Hpop) as [Hperm Hmax].
  rewrite Hperm in Hok. apply Forall_cons in Hok as [[b Hb] Hok1]. simpl in Hb.
  destruct (checkRequestMsg_cases r req b Hb) as [Hc|[Hc|Hc]]; rewrite Hc.
  - destruct (IH q1 Hok1 Hlen1) as (q' & po & dr & -> & [Hp Hpo Hdr Hl]).
    exists q', ((req, prio) :: po), dr. split; [done|]. split; [|by constructor|done..].
    rewrite Hperm, Hp. done.
  - case_bool_decide; [|done]. exists (pq_Push q1 req prio), [], []. split; [done|].
    split; [|done..|].
    + by rewrite pq_Push_items.
    + right. exists (req, prio). rewrite pq_Push_items. split; [set_solver|done].
  - case_bool_decide; [done|]. rewrite Hb.
    destruct (IH q1 Hok1 Hlen1) as (q' & po & dr & -> & [Hp Hpo Hdr Hl]).
    exists q', po, ((req, prio) :: dr). split; [done|]. split; [|done| |done].
    + rewrite Hperm, Hp. solve_Permutation.
    + constructor; auto.
Qed.

Lemma processPendingRequests_run c r :
  c_current c = Some r →
  Forall (λ x, is_Some (req_BlockProposal x.1)) (pq_items (c_pendingRequests c)) →
  ∃ (q' : Q (Request B)) posted dropped, processPendingRequests c = Some ((),
      add_trace (reverse (OPost <$> ((λ x, RequestEvent (req_BlockProposal x.1)) <$> posted)))
                (set_pendingRequests q' c)) ∧
    requests_drained r (c_pendingRequests c) q' posted dropped.
Proof.
  intros Hr Hok. unfold processPendingRequests, mbind', mget, get_current.
  destruct (pq_Pop (c_pendingRequests c)) eqn:Hpop.
  - destruct (drain_requests_spec (S (length (pq_items (c_pendingRequests c)))) r _ Hok ltac:(lia))
      as (q' & po & dr & Hd & Hs). exists q', po, dr. split; [|done].
    unfold mbind', mget, mderef. rewrite Hr. unfold mret'. by rewrite Hd.
  - exists (c_pendingRequests c), [], []. split; [by destruct c|].
    apply pq_Pop_None in Hpop. split; [done..|by left].
Qed.
End backlog.
