(* ===== verification/CoreSafety.v ===== *)
(** * Safety of one node: invariants of the consensus core

    Every event that reaches a started core is handled without a panic and
    keeps the invariant [core_inv].  The invariant ties the state to the trace:
    which COMMIT messages the node has sent, and what backs each block it has
    handed to the backend.  It is stated for

    - [auth], a property of the messages the node is given (in Network.v: a
      message that names a correct sender was sent by it), and
    - [vals], the fullnode set of each height. *)

From Stdlib Require Import ZArith Lia.
From S2P Require Import Prelude Errors Rlp Fullnode Messages Core Backlog.
Open Scope didux_scope.
#[local] Set Default Proof Using "Type*".

Section safety.
Context {B : Type} `{!BlockProposal B} {Q : Type → Type} `{!PrQue Q, !PrQueLaws Q}.
Context `{!Crypto, !AddrString, !GoArch}.
Context (auth : message → Prop) (vals : Z → fullnodeSet).
Implicit Types (c : core B Q) (r : roundState B) (s : fullnodeSet) (t : list (output B)).

(** ** What a trace says *)

(** The node has broadcast a COMMIT for [h] in view [v]. *)
Definition says t (v : View) (h : hash) : Prop :=
  ∃ targets p m, OBroadcast targets p ∈ t ∧ message_of_bytes p = Some m ∧
    Code m = msgCommit ∧ Decode_Subject m = Some (MkSubject v h).

(** The node found [h] in its chain when answering an old PRE-PREPARE. *)
Definition asked t (h : hash) : Prop := ∃ n, OHasBlock h n true ∈ t.

(** A quorum of the fullnodes of the height has sent COMMIT for [h] in [v]. *)
Definition certified (v : View) (h : hash) : Prop :=
  ∃ q : gset address, q ⊆ members (vals (Sequence v)) ∧
    MinApprovers (vals (Sequence v)) <= Z.of_nat (size q) ∧
    ∀ a, a ∈ q → ∃ m, auth m ∧ msg_Address m = a ∧ Code m = msgCommit ∧
                      Decode_Subject m = Some (MkSubject v h).

(** The node holds the votes: a block is handed over with the seals of COMMIT messages for
    [h] in [v], from a quorum of different fullnodes of the height. *)
Definition backed (v : View) (h : hash) (seals : list bytes) : Prop :=
  ∃ msgs : list message, seals = (λ m, copy_seal (CommittedSeal m)) <$> msgs ∧ NoDup (msg_Address <$> msgs) ∧
    MinApprovers (vals (Sequence v)) <= Z.of_nat (length msgs) ∧
    Forall (λ m, auth m ∧ msg_Address m ∈ members (vals (Sequence v)) ∧ Code m = msgCommit ∧
                 Decode_Subject m = Some (MkSubject v h)) msgs.
Lemma backed_certified v h seals : backed v h seals → certified v h.
Proof.
  intros (msgs & _ & Hnd & Hq & Hall). rewrite Forall_forall in Hall. exists (list_to_set (msg_Address <$> msgs)). split_and!.
  - intros a (m & -> & Hm)%elem_of_list_to_set%list_elem_of_fmap. by apply Hall.
  - by rewrite size_list_to_set, length_fmap.
  - intros a (m & -> & Hm)%elem_of_list_to_set%list_elem_of_fmap. exists m. destruct (Hall m Hm) as (? & ? & ? & ?). done.
Qed.

Definition event_ok (e : event B) : Prop :=
  match e with
  | RequestEvent b => is_Some b
  | MessageEvent p => ∀ m, message_of_bytes p = Some m → auth m
  | backlogEvent _ m => auth m
  | _ => True
  end.

Definition posted_ok (o : output B) : Prop :=
  match o with OPost e | OFutureTimer _ e => event_ok e | _ => True end.

Record trace_ok t : Prop := {
  t_unique v h1 h2 : says t v h1 → says t v h2 → h1 = h2 ∨ asked t h1 ∨ asked t h2;
  t_commit v b seals e : OCommit v b seals e ∈ t → backed v (bp_Hash b) seals;
  t_posted o : o ∈ t → posted_ok o
}.

(** ** The invariant *)

Definition ms_ok (s : fullnodeSet) (ms : messageSet) : Prop :=
  ms_wf ms ∧ fs_fullnodes (ms_fullnodeSet ms) = fs_fullnodes s.

Definition backlogs_ok (bl : gmap Z (Q message)) : Prop :=
  ∀ a q, bl !! a = Some q → Forall (λ x, auth x.1) (pq_items q).
Definition requests_ok (q : Q (Request B)) : Prop :=
  Forall (λ x, is_Some (req_BlockProposal x.1)) (pq_items q).

(** A node that waits for a round change, or for a proposal, has recorded no vote. *)
Definition idle c : Prop := c_waiting c = true ∨ c_state c = StateAcceptRequest.
Definition committing c : Prop :=
  c_waiting c = false ∧ (c_state c = StatePrepared ∨ c_state c = StateCommitted).

Record core_ok c s r (rcs : roundChangeSet) : Prop := {
  ok_set : c_fullnodeSet c = Some s;
  ok_current : c_current c = Some r;
  ok_rcs : c_roundChangeSet c = Some rcs;
  ok_vals : fs_fullnodes s = fs_fullnodes (vals (rs_sequence r));
  ok_prepares : ms_ok s (rs_Prepares r);
  ok_commits : ms_ok s (rs_Commits r);
  ok_rcs_set : fs_fullnodes (rcs_fullnodeSet rcs) = fs_fullnodes s;
  ok_rcs_sets : map_Forall (λ _ ms, ms_ok s ms) (rcs_roundChanges rcs);
  ok_lock : rs_lockedHash r ≠ 0 → is_Some (rs_Preprepare r);
  ok_active : ¬ idle c → is_Some (rs_Preprepare r);
  ok_idle : idle c → ms_messages (rs_Prepares r) = ∅ ∧ ms_messages (rs_Commits r) = ∅;
  ok_votes : map_Forall (λ _ m, auth m ∧ Code m = msgCommit ∧ Decode_Subject m = Subject r)
                        (ms_messages (rs_Commits r));
  ok_pending : ∀ req, rs_pendingRequest r = Some req → is_Some (req_BlockProposal req);
  ok_backlogs : backlogs_ok (c_backlogs c);
  ok_requests : requests_ok (c_pendingRequests c);
  ok_trace : trace_ok (c_trace c);
  ok_says : ∀ v h, says (c_trace c) v h →
    asked (c_trace c) h ∨ view_lt v (view_of r) ∨
    (v = view_of r ∧ committing c ∧ Subject r = Some (MkSubject v h))
}.

Definition core_inv c : Prop := ∃ s r rcs, core_ok c s r rcs.

(** The view of a core that has a round. *)
Definition view_ge c (v : View) : Prop := ∃ r, c_current c = Some r ∧ view_le v (view_of r).

(** What is assumed of the backend's answers: there is a last block, and the
    fullnodes it gives for it are those of the next height. *)
Definition backend_ok (be : Backend B) : Prop :=
  ∃ last, (be_LastBlockProposal be).1 = Some last ∧
    fs_fullnodes (be_Fullnodes be last) = fs_fullnodes (vals (bp_Number last + 1)).

(** ** Quiet steps: only the queues change, and no COMMIT is sent *)

Definition quiet_output (o : output B) : Prop :=
  posted_ok o ∧
  match o with
  | OBroadcast _ p => ∀ m, message_of_bytes p = Some m → Code m ≠ msgCommit
  | OCommit _ _ _ _ => False
  | _ => True
  end.

Record quiet c c' : Prop := {
  q_config : c_config c' = c_config c;
  q_address : c_address c' = c_address c;
  q_state : c_state c' = c_state c;
  q_set : c_fullnodeSet c' = c_fullnodeSet c;
  q_waiting : c_waiting c' = c_waiting c;
  q_current : c_current c' = c_current c;
  q_rcs : c_roundChangeSet c' = c_roundChangeSet c;
  q_backlogs : backlogs_ok (c_backlogs c) → backlogs_ok (c_backlogs c');
  q_requests : requests_ok (c_pendingRequests c) → requests_ok (c_pendingRequests c');
  q_trace : ∃ new, c_trace c' = new ++ c_trace c ∧ Forall quiet_output new
}.

Lemma quiet_refl c : quiet c c.
Proof. split; try done. by exists []. Qed.
Lemma quiet_trans c1 c2 c3 : quiet c1 c2 → quiet c2 c3 → quiet c1 c3.
Proof.
  intros [] []. split; try congruence; eauto.
  destruct q_trace0 as (n1 & Ht1 & Hn1), q_trace1 as (n2 & Ht2 & Hn2).
  exists (n2 ++ n1). rewrite Ht2, Ht1, app_assoc. split; [done|]. by apply Forall_app.
Qed.

Lemma says_mono t new v h : says t v h → says (new ++ t) v h.
Proof. intros (tg & p & m & Hin & ?). exists tg, p, m. split; [|done]. apply elem_of_app; auto. Qed.
Lemma asked_mono t new h : asked t h → asked (new ++ t) h.
Proof. intros [n ?]. exists n. apply elem_of_app; auto. Qed.

Lemma asked_cons t o h : asked t h → asked (o :: t) h.
Proof. apply (asked_mono t [o]). Qed.

Lemma says_quiet t new v h : Forall quiet_output new → says (new ++ t) v h → says t v h.
Proof.
  intros Hq (tg & p & m & [Hin|Hin]%elem_of_app & Hm & Hc & Hd).
  - rewrite Forall_forall in Hq. apply Hq in Hin as [_ Hn]. by apply Hn in Hm.
  - by exists tg, p, m.
Qed.

Lemma trace_ok_quiet t new : trace_ok t → Forall quiet_output new → trace_ok (new ++ t).
Proof.
  intros [Hu Hc Hp] Hq. pose proof (Forall_forall quiet_output new) as [Hall _].
  specialize (Hall Hq). split.
  - intros v h1 h2 Hs1%says_quiet Hs2%says_quiet; [|done..].
    destruct (Hu _ _ _ Hs1 Hs2) as [?|[?|?]]; eauto using asked_mono.
  - intros v b seals e [[_ []]%Hall|Hin]%elem_of_app. eauto.
  - intros o [[? _]%Hall|Hin]%elem_of_app; auto.
Qed.

Lemma core_ok_quiet c c' s r rcs : core_ok c s r rcs → quiet c c' → core_ok c' s r rcs.
Proof.
  intros [] []. destruct q_trace0 as (new & Ht & Hq).
  assert (idle c' ↔ idle c) as Hidle by (unfold idle; rewrite q_waiting0, q_state0; done).
  split; rewrite ?Ht, ?Hidle; try congruence; auto using trace_ok_quiet.
  intros v h Hs%says_quiet; [|done].
  destruct (ok_says0 v h Hs) as [?|[?|(? & ? & ?)]]; eauto using asked_mono.
  right; right. unfold committing. rewrite q_waiting0, q_state0. done.
Qed.

(** ** The operations that are quiet *)

Lemma quiet_trace c new : Forall quiet_output new → quiet c (add_trace new c).
Proof. intros. split; try done. by exists new. Qed.

Lemma wp_processBacklog c r s : c_current c = Some r → c_fullnodeSet c = Some s →
  backlogs_ok (c_backlogs c) → wp processBacklog (λ _, quiet c) c.
Proof.
  intros Hr Hs Hbl. destruct (processBacklog_run c r s Hr Hs) as (bl' & evs & Hrun & [Ha He Hev]).
  apply (wp_of_run _ _ _ _ _ Hrun). split; try done; simpl.
  - intros _ a q' Hq'. destruct (c_backlogs c !! a) as [q|] eqn:Hq.
    + destruct (He a q Hq) as [Hg Hk]. destruct (decide (a ∈ fs_fullnodes s)) as [Hin|Hin].
      * destruct (Hk Hin) as (q1 & po & dr & Hq1 & [Hp _ _ _] & _). simplify_eq.
        pose proof (Hbl a q Hq) as Hall. rewrite Hp, !Forall_app in Hall. apply Hall.
      * rewrite Hg in Hq'; done.
    + by rewrite Ha in Hq'.
  - exists (reverse (OPost <$> evs)). split; [done|]. apply Forall_reverse, Forall_fmap, Forall_forall.
    intros e (a & q & m & p & -> & Hq & Hm)%Hev. split; [|done]. simpl.
    pose proof (Hbl a q Hq) as Hall. rewrite Forall_forall in Hall. by apply Hall in Hm.
Qed.

Lemma wp_processPendingRequests c r : c_current c = Some r →
  requests_ok (c_pendingRequests c) → wp processPendingRequests (λ _, quiet c) c.
Proof.
  intros Hr Hok. destruct (processPendingRequests_run c r Hr Hok) as (q' & po & dr & Hrun & [Hp _ _ _]).
  unfold requests_ok in Hok. rewrite Hp, !Forall_app in Hok.
  apply (wp_of_run _ _ _ _ _ Hrun). split; try done; simpl.
  - intros _. apply Hok.
  - eexists. split; [done|]. apply Forall_reverse, Forall_fmap, Forall_fmap.
    destruct Hok as [Hpo _]. eapply Forall_impl; [exact Hpo|]. intros x Hx. split; [exact Hx|done].
Qed.

Lemma set_state_same c : set_state (c_state c) c = c.
Proof. by destruct c. Qed.

Lemma wp_setState st c r s : c_current c = Some r → c_fullnodeSet c = Some s →
  backlogs_ok (c_backlogs c) → requests_ok (c_pendingRequests c) →
  wp (setState st) (λ _, quiet (set_state st c)) c.
Proof.
  intros Hr Hs Hbl Hrq. unfold setState. wp_steps.
  assert ((if bool_decide (c_state c = st) then c else set_state st c) = set_state st c) as ->.
  { case_bool_decide as Hst; [|done]. subst st. symmetry. apply set_state_same. }
  apply (wp_seq _ _ (λ _, quiet (set_state st c))).
  - case_bool_decide; [by eapply wp_processPendingRequests|]. apply wp_ret, quiet_refl.
  - intros _ c' Hq. apply (wp_wand _ (λ _, quiet c')).
    + pose proof Hq as []. eapply wp_processBacklog; [by rewrite q_current0|by rewrite q_set0|auto].
    + intros _ c''. by apply quiet_trans.
Qed.

Section with_backend.
Context (be : Backend B).

(** A broadcast either fails to encode or sign, or adds one message to the trace. *)
Definition broadcasts (code : Z) (msg : bytes) c c' : Prop :=
  c' = c ∨ ∃ targets payload m, c' = add_trace [OBroadcast targets payload] c ∧
    message_of_bytes payload = Some m ∧ Code m = code ∧ Msg m = msg ∧ msg_Address m = c_address c.

Lemma wp_broadcast code msg c r s : c_current c = Some r → c_fullnodeSet c = Some s →
  wp (broadcast be (mk_message code msg)) (λ _, broadcasts code msg c) c.
Proof.
  intros Hr Hs. unfold broadcast, finalizeMessage.
  apply wp_bind. wp_steps. simpl.
  apply (wp_seq _ _ (λ _ c', c' = c)).
  { case_match; [|by apply wp_ret]. apply wp_bind, wp_bind, wp_get. rewrite Hr. by wp_steps. }
  intros proposal c' ->. wp_steps. unfold broadcasts.
  destruct (match proposal with Some b => _ | None => _ end) as [seal|e]; [|wp_steps; by left].
  destruct (PayloadNoSig _) as [data|]; [|wp_steps; by left].
  destruct (be_Sign be _) as [sig|e]; [|wp_steps; by left].
  destruct (Payload _) as [payload|] eqn:Hp; [|wp_steps; by left].
  unfold get_fullnodeSet. apply wp_bind, wp_bind, wp_get. rewrite Hs. wp_steps. unfold emit. wp_steps.
  right. apply message_of_Payload in Hp. do 3 eexists. split_and!; [done|exact Hp|done..].
Qed.

Lemma broadcasts_quiet code msg c c' : code ≠ msgCommit → broadcasts code msg c c' → quiet c c'.
Proof.
  intros Hc [-> | (tg & p & m & -> & Hm & Hcode & _)]; [apply quiet_refl|].
  apply quiet_trace. constructor; [|done]. split; [done|]. intros m' Hm'. by simplify_eq.
Qed.

Lemma wp_broadcast_quiet code msg c r s : c_current c = Some r → c_fullnodeSet c = Some s →
  code ≠ msgCommit → wp (broadcast be (mk_message code msg)) (λ _, quiet c) c.
Proof.
  intros. eapply wp_wand; [by eapply wp_broadcast|]. intros ? c'. by apply broadcasts_quiet.
Qed.

Lemma wp_sendPreprepare c r s req : c_current c = Some r → c_fullnodeSet c = Some s →
  is_Some (req_BlockProposal req) → wp (sendPreprepare be req) (λ _, quiet c) c.
Proof.
  intros Hr Hs [b Hb]. unfold sendPreprepare, get_current, currentView.
  apply wp_bind, wp_bind, wp_get. rewrite Hr, Hb. wp_steps.
  case_match; [|apply wp_ret, quiet_refl]. unfold get_current.
  apply wp_bind, wp_bind, wp_bind, wp_get. rewrite Hr. wp_steps.
  case_match; [|apply wp_ret, quiet_refl]. by eapply wp_broadcast_quiet.
Qed.

Lemma wp_sendPrepare c r s : c_current c = Some r → c_fullnodeSet c = Some s →
  is_Some (rs_Preprepare r) → wp (sendPrepare be) (λ _, quiet c) c.
Proof.
  intros Hr Hs [p Hp]. unfold sendPrepare, get_current.
  apply wp_bind, wp_bind, wp_get. rewrite Hr. wp_steps. unfold Subject. rewrite Hp. wp_steps.
  case_match; [|apply wp_ret, quiet_refl]. by eapply wp_broadcast_quiet.
Qed.

Lemma wp_broadcastCommit c r s sub : c_current c = Some r → c_fullnodeSet c = Some s →
  wp (broadcastCommit be (Some sub))
     (λ _ c', ∃ msg, broadcasts msgCommit msg c c' ∧ Encode_Subject sub = Some msg ∨ c' = c) c.
Proof.
  intros Hr Hs. unfold broadcastCommit. wp_steps. destruct (Encode_Subject sub) as [msg|].
  - eapply wp_wand; [by eapply wp_broadcast|]. intros ? c' ?. exists msg. by left.
  - apply wp_ret. exists []. by right.
Qed.

Lemma wp_newRoundChangeTimer c r : c_current c = Some r →
  wp (newRoundChangeTimer) (λ _, quiet c) c.
Proof.
  intros Hr. unfold newRoundChangeTimer, get_current, emit. apply wp_bind, wp_bind, wp_get.
  rewrite Hr. wp_steps. apply quiet_trace. by constructor.
Qed.

(** ** COMMIT messages *)

Lemma says_cons t tg p m v h : message_of_bytes p = Some m →
  says (OBroadcast tg p :: t) v h →
  says t v h ∨ Code m = msgCommit ∧ Decode_Subject m = Some (MkSubject v h).
Proof.
  intros Hm (tg' & p' & m' & [[= -> ->]|Hin]%elem_of_cons & Hm' & Hc & Hd).
  - right. by simplify_eq.
  - left. by exists tg', p', m'.
Qed.

(** A COMMIT may be sent for the current proposal of a node in state Prepared or
    Committed, and for a block found in the chain. *)
Definition may_commit c r (v : View) (h : hash) : Prop :=
  asked (c_trace c) h ∨ (v = view_of r ∧ committing c ∧ Subject r = Some (MkSubject v h)).

Lemma core_ok_commit c c' s r rcs msg v h : core_ok c s r rcs → may_commit c r v h →
  Encode_Subject (MkSubject v h) = Some msg → broadcasts msgCommit msg c c' → core_ok c' s r rcs.
Proof.
  intros Hok Hmay Henc [-> | (tg & p & m & -> & Hm & Hcode & Hmsg & _)]; [done|].
  assert (Decode_Subject m = Some (MkSubject v h)) as Hdec by by eapply Decode_Encode_Subject.
  destruct Hok. split; try done; simpl.
  - destruct ok_trace0 as [Hu Hc Hp].
    assert (∀ h', says (c_trace c) v h' → h = h' ∨ asked (c_trace c) h ∨ asked (c_trace c) h') as Hmix.
    { intros h' Hs'. destruct Hmay as [?|(-> & Hco & Hsub)]; [by auto|].
      destruct (ok_says0 _ _ Hs') as [?|[Hlt|(_ & _ & Hsub')]]; [by auto|by destruct (view_lt_irrefl _ Hlt)|].
      left. congruence. }
    split.
    + intros v' h1 h2 Hs1 Hs2.
      destruct (says_cons _ _ _ _ _ _ Hm Hs1) as [Ho1|[_ Hn1]],
        (says_cons _ _ _ _ _ _ Hm Hs2) as [Ho2|[_ Hn2]];
        try (rewrite Hdec in Hn1; simplify_eq); try (rewrite Hdec in Hn2; simplify_eq); auto.
      * destruct (Hu _ _ _ Ho1 Ho2) as [?|[?|?]]; eauto using asked_cons.
      * destruct (Hmix _ Ho1) as [?|[?|?]]; eauto using asked_cons.
      * destruct (Hmix _ Ho2) as [?|[?|?]]; eauto using asked_cons.
    + intros v' b seals e [?|?]%elem_of_cons; [done|eauto].
    + intros o [-> |?]%elem_of_cons; [done|auto].
  - intros v' h' Hs'. destruct (says_cons _ _ _ _ _ _ Hm Hs') as [Hold|[_ Hnew]].
    + destruct (ok_says0 _ _ Hold) as [?|[?|?]]; eauto using asked_cons.
    + rewrite Hdec in Hnew. simplify_eq.
      destruct Hmay as [?|?]; eauto using asked_cons.
Qed.

Lemma wp_broadcastCommit_ok c s r rcs v h : core_ok c s r rcs → may_commit c r v h →
  wp (broadcastCommit be (Some (MkSubject v h))) (λ _ c', core_ok c' s r rcs) c.
Proof.
  intros Hok Hmay. eapply wp_wand; [eapply wp_broadcastCommit; apply Hok|].
  intros ? c' (msg & [[? ?]| ->]); [by eapply core_ok_commit|done].
Qed.

(** ** Getters on a core that satisfies the invariant *)

Lemma wp_current {A} c r (f : roundState B → M (core B Q) A) P :
  c_current c = Some r → wp (f r) P c → wp (mbind' get_current f) P c.
Proof. intros Hr ?. unfold get_current. apply wp_bind, wp_bind, wp_get. by rewrite Hr. Qed.
Lemma wp_view {A} c r (f : View → M (core B Q) A) P :
  c_current c = Some r → wp (f (view_of r)) P c → wp (mbind' currentView f) P c.
Proof. intros Hr ?. unfold currentView. apply wp_bind. by eapply wp_current. Qed.
Lemma wp_set {A} c s (f : fullnodeSet → M (core B Q) A) P :
  c_fullnodeSet c = Some s → wp (f s) P c → wp (mbind' get_fullnodeSet f) P c.
Proof. intros Hr ?. unfold get_fullnodeSet. apply wp_bind, wp_bind, wp_get. by rewrite Hr. Qed.
Lemma wp_rcs {A} c rcs (f : roundChangeSet → M (core B Q) A) P :
  c_roundChangeSet c = Some rcs → wp (f rcs) P c → wp (mbind' get_roundChangeSet f) P c.
Proof. intros Hr ?. unfold get_roundChangeSet. apply wp_bind, wp_bind, wp_get. by rewrite Hr. Qed.
Lemma wp_mod_current c r (f : roundState B → roundState B) P :
  c_current c = Some r → P () (set_current (Some (f r)) c) → wp (mod_current f) P c.
Proof. intros Hr ?. unfold mod_current. by eapply wp_current. Qed.

(** ** Changes of the round state that keep the view and the votes *)

Record same_votes r r' : Prop := {
  sv_view : view_of r' = view_of r;
  sv_preprepare : rs_Preprepare r' = rs_Preprepare r;
  sv_prepares : rs_Prepares r' = rs_Prepares r;
  sv_commits : rs_Commits r' = rs_Commits r
}.
Lemma same_votes_Subject r r' : same_votes r r' → Subject r' = Subject r.
Proof. intros [Hv Hp _ _]. unfold Subject. rewrite Hp. injection Hv as -> ->. done. Qed.

Lemma core_ok_current c s r r' rcs : core_ok c s r rcs → same_votes r r' →
  (rs_lockedHash r' ≠ 0 → is_Some (rs_Preprepare r')) →
  (∀ req, rs_pendingRequest r' = Some req → is_Some (req_BlockProposal req)) →
  core_ok (set_current (Some r') c) s r' rcs.
Proof.
  intros [] Hsv Hl Hpr. pose proof (same_votes_Subject _ _ Hsv) as Hsub. destruct Hsv as [Hv Hp Hpp Hc].
  split; try done; rewrite ?Hp, ?Hpp, ?Hc, ?Hsub, ?Hv; try done.
  injection Hv as _ ->. done.
Qed.

Lemma LockHash_same_votes r : same_votes r (LockHash r).
Proof. unfold LockHash. by case_match. Qed.
Lemma LockHash_lock r : is_Some (rs_Preprepare r) → is_Some (rs_Preprepare (LockHash r)).
Proof. intros [p Hp]. unfold LockHash. rewrite Hp. simpl. by rewrite Hp. Qed.
Lemma LockHash_pending r : rs_pendingRequest (LockHash r) = rs_pendingRequest r.
Proof. unfold LockHash. by case_match. Qed.

(** A node past AcceptRequest may move between the later states. *)
Lemma core_ok_state c s r rcs st : core_ok c s r rcs → ¬ idle c →
  st = StatePrepared ∨ st = StateCommitted → core_ok (set_state st c) s r rcs.
Proof.
  intros [] Hni Hst. assert (c_waiting c = false) as Hw
    by (destruct (c_waiting c) eqn:?; [|done]; by destruct Hni; left).
  assert (¬ idle (set_state st c)) as Hni'
    by (intros [Hw'|Hs]; simpl in *; [congruence|by destruct Hst; simplify_eq]).
  split; try done; [by auto|].
  intros v h Hs. destruct (ok_says0 v h Hs) as [?|[?|(? & ? & ?)]]; auto.
  right; right. split_and!; done.
Qed.

(** ** New rounds *)

Lemma newMessageSet_ok s s0 : fs_fullnodes s0 = fs_fullnodes s → ms_ok s (newMessageSet s0).
Proof. split; [apply newMessageSet_wf|done]. Qed.

Definition rcs_ok s (rcs : roundChangeSet) : Prop :=
  fs_fullnodes (rcs_fullnodeSet rcs) = fs_fullnodes s ∧
  map_Forall (λ _ ms, ms_ok s ms) (rcs_roundChanges rcs).

Lemma newRoundChangeSet_ok s s0 : fs_fullnodes s0 = fs_fullnodes s → rcs_ok s (newRoundChangeSet s0).
Proof. split; [done|]. apply map_Forall_empty. Qed.

Lemma rcs_Clear_ok s rcs round : rcs_ok s rcs → rcs_ok s (rcs_Clear rcs round).
Proof.
  intros [Hs Hm]. split; [done|]. intros k ms Hk. apply map_lookup_filter_Some in Hk as [Hk _].
  by apply Hm in Hk.
Qed.

(** The state at the start of a round: no votes, and a view not yet voted in. *)
Definition fresh_view t (view : View) : Prop :=
  ∀ v h, says t v h → asked t h ∨ view_lt v view.

Lemma core_ok_fresh c s r rcs view : core_ok c s r rcs →
  view_lt (view_of r) view ∨ (view = view_of r ∧ ¬ committing c) → fresh_view (c_trace c) view.
Proof.
  intros [] Hview v h Hs. destruct (ok_says0 v h Hs) as [?|[?|(-> & ? & ?)]]; [by left|..].
  - right. destruct Hview as [?|[-> _]]; [by eapply view_lt_trans|done].
  - destruct Hview as [?|[-> []]]; auto.
Qed.

Lemma core_ok_newround c s s0 rcs view lock pp pr :
  backlogs_ok (c_backlogs c) → requests_ok (c_pendingRequests c) → trace_ok (c_trace c) →
  c_fullnodeSet c = Some s → c_roundChangeSet c = Some rcs →
  c_current c = Some (newRoundState view s0 lock pp pr) →
  fs_fullnodes s0 = fs_fullnodes s → fs_fullnodes s = fs_fullnodes (vals (Sequence view)) →
  rcs_ok s rcs → (lock ≠ 0 → is_Some pp) →
  (∀ req, pr = Some req → is_Some (req_BlockProposal req)) →
  idle c → fresh_view (c_trace c) view →
  core_ok c s (newRoundState view s0 lock pp pr) rcs.
Proof.
  intros Hbl Hpq Ht Hs' Hrcs' Hcur Hs0 Hvals [Hr1 Hr2] Hlock Hpr Hidle Hview.
  assert (view_of (newRoundState view s0 lock pp pr) = view) as Hv by by destruct view.
  split; rewrite ?Hv; try done; auto using newMessageSet_ok.
  intros v h Hs. destruct (Hview v h Hs); auto.
Qed.

Definition keeps (v : View) c : Prop := ∃ s r rcs, core_ok c s r rcs ∧ view_le v (view_of r).

Lemma keeps_quiet v c c' : keeps v c → quiet c c' → keeps v c'.
Proof. intros (s & r & rcs & Hok & Hv) Hq. exists s, r, rcs. eauto using core_ok_quiet. Qed.

Lemma wp_quiet_keeps {A} (m : M (core B Q) A) v c :
  keeps v c → wp m (λ _, quiet c) c → wp m (λ _, keeps v) c.
Proof. intros Hk Hm. eapply wp_wand; [exact Hm|]. intros ? c'. by apply keeps_quiet. Qed.

Lemma wp_catchUpRound c s r rcs round : core_ok c s r rcs → rs_round r < round →
  wp (catchUpRound be (MkView round (rs_sequence r)))
     (λ _ c', ∃ r' rcs', core_ok c' s r' rcs' ∧ view_of r' = MkView round (rs_sequence r)) c.
Proof.
  intros Hok Hround. unfold catchUpRound. eapply wp_current; [apply Hok|].
  eapply wp_set; [apply Hok|]. wp_steps. unfold updateRoundState. wp_steps.
  set (view := MkView round (rs_sequence r)). set (c0 := set_waiting true c).
  assert (c_current c0 = Some r) as -> by apply Hok.
  set (r' := if IsHashLocked (be_HasBadBlockProposal be) r
             then newRoundState view s (GetLockedHash r) (rs_Preprepare r) (rs_pendingRequest r)
             else newRoundState view s 0 None (rs_pendingRequest r)).
  assert ((if IsHashLocked (be_HasBadBlockProposal be) r then
             set_current (Some (newRoundState view s (GetLockedHash r) (rs_Preprepare r)
                                  (rs_pendingRequest r))) c0
           else set_current (Some (newRoundState view s 0 None (rs_pendingRequest r))) c0)
          = set_current (Some r') c0) as -> by (unfold r'; by case_match).
  eapply wp_rcs; [apply Hok|]. wp_steps.
  set (c' := set_roundChangeSet (Some (rcs_Clear rcs (Round view))) (set_current (Some r') c0)).
  assert (core_ok c' s r' (rcs_Clear rcs (Round view)) ∧ view_of r' = view) as [Hok' Hv].
  { assert (view_lt (view_of r) view) by (right; simpl; lia).
    assert (rcs_ok s (rcs_Clear rcs (Round view))) by (apply rcs_Clear_ok; split; apply Hok).
    assert (fresh_view (c_trace c) view) by (eapply core_ok_fresh; eauto).
    unfold r'. case_match eqn:Hl; (split; [|done]); apply core_ok_newround;
      try done; try apply Hok; try (by left); unfold c', r'; simpl; by rewrite Hl. }
  eapply wp_wand; [eapply wp_newRoundChangeTimer; apply Hok'|].
  intros ? c'' Hq. exists r', (rcs_Clear rcs (Round view)). eauto using core_ok_quiet.
Qed.

Lemma core_ok_keeps c s r rcs : core_ok c s r rcs → keeps (view_of r) c.
Proof. intros. exists s, r, rcs. split; [done|]. apply view_le_refl. Qed.
Lemma keeps_le v w c : view_le v w → keeps w c → keeps v c.
Proof. intros Hv (s & r & rcs & ? & ?). exists s, r, rcs. split; [done|]. by eapply view_le_trans. Qed.

Lemma wp_sendRoundChange c s r rcs round : core_ok c s r rcs →
  wp (sendRoundChange be round) (λ _, keeps (view_of r)) c.
Proof.
  intros Hok. unfold sendRoundChange. eapply wp_view; [apply Hok|].
  case_match eqn:Hge; [apply wp_ret; by eapply core_ok_keeps|].
  apply Z.leb_gt in Hge. rewrite big_Cmp_lt in Hge. simpl in Hge.
  eapply wp_seq; [exact (wp_catchUpRound c s r rcs round Hok Hge)|]. intros ? c' (r' & rcs' & Hok' & Hv').
  eapply wp_view; [apply Hok'|].
  assert (keeps (view_of r) c') as Hk.
  { exists s, r', rcs'. split; [done|]. rewrite Hv'. right. right. simpl. lia. }
  case_match; [|apply wp_ret, Hk]. apply wp_quiet_keeps; [done|].
  eapply wp_broadcast_quiet; [apply Hok'..|done].
Qed.

Lemma wp_sendNextRoundChange c s r rcs : core_ok c s r rcs →
  wp (sendNextRoundChange be) (λ _, keeps (view_of r)) c.
Proof.
  intros Hok. unfold sendNextRoundChange. eapply wp_view; [apply Hok|]. by eapply wp_sendRoundChange.
Qed.

Lemma quorum_backed c s r rcs h : core_ok c s r rcs → Subject r = Some (MkSubject (view_of r) h) →
  MinApprovers s <= ms_Size (rs_Commits r) →
  backed (view_of r) h ((λ m, copy_seal (CommittedSeal m)) <$> ms_Values (rs_Commits r)).
Proof.
  intros [] Hsub Hq. destruct ok_commits0 as [Hwf Hfs]. exists (ms_Values (rs_Commits r)). unfold ms_Values. split_and!; [done|..].
  - replace (msg_Address <$> (map_to_list (ms_messages (rs_Commits r))).*2) with ((map_to_list (ms_messages (rs_Commits r))).*1);
      [apply NoDup_fst_map_to_list|]. rewrite <-list_fmap_compose. apply list_fmap_ext. intros i [a m] Hi. cbn.
    by destruct (Hwf a m) as [-> _]; [apply elem_of_map_to_list, (list_elem_of_lookup_2 _ i)|].
  - rewrite length_fmap, length_map_to_list. unfold MinApprovers, Size, ms_Size in *. simpl. by rewrite <-ok_vals0.
  - apply Forall_forall. intros m ([a m'] & -> & Hm%elem_of_map_to_list)%list_elem_of_fmap. cbn.
    destruct (Hwf a m' Hm) as [Ha Hmem]. destruct (ok_votes0 a m' Hm) as (? & ? & ?). split_and!; [done| |done|congruence].
    rewrite Ha. apply elem_of_list_to_set. simpl. by rewrite <-ok_vals0, <-Hfs.
Qed.

Lemma core_ok_OCommit c s r rcs b seals e : core_ok c s r rcs → backed (view_of r) (bp_Hash b) seals →
  core_ok (add_trace [OCommit (view_of r) b seals e] c) s r rcs.
Proof.
  intros [] Hc. assert (∀ v h, says (OCommit (view_of r) b seals e :: c_trace c) v h → says (c_trace c) v h) as Hs.
  { intros v h (tg & p & m & [?|?]%elem_of_cons & ?); [done|]. by exists tg, p, m. }
  split; try done; simpl.
  - destruct ok_trace0 as [Hu Hcm Hp]. split.
    + intros v h1 h2 Hs1%Hs Hs2%Hs. destruct (Hu _ _ _ Hs1 Hs2) as [?|[?|?]]; eauto using asked_cons.
    + intros v b' seals' e' [[= -> -> -> ->]|?]%elem_of_cons; eauto.
    + intros o [-> |?]%elem_of_cons; [done|auto].
  - intros v h Hsa%Hs. destruct (ok_says0 _ _ Hsa) as [?|[?|?]]; eauto using asked_cons.
Qed.

Lemma wp_commit c s r rcs : core_ok c s r rcs → ¬ idle c →
  MinApprovers s <= ms_Size (rs_Commits r) → wp (commit be) (λ _, keeps (view_of r)) c.
Proof.
  intros Hok Hni Hq. unfold commit.
  eapply wp_seq; [eapply wp_setState; apply Hok|]. intros ? c1 Hc1.
  assert (core_ok c1 s r rcs) as Hok1 by (eapply core_ok_quiet, Hc1; apply core_ok_state; auto).
  eapply wp_current; [apply Hok1|]. destruct (rs_BlockProposal r) as [b|] eqn:Hb;
    [|apply wp_ret; by eapply core_ok_keeps].
  set (seals := _ <$> ms_Values (rs_Commits r)). assert (backed (view_of r) (bp_Hash b) seals) as Hcert.
  { apply (quorum_backed _ _ _ _ _ Hok1); [|done].
    unfold rs_BlockProposal in Hb. unfold Subject. by destruct (rs_Preprepare r); simplify_eq/=. }
  unfold emit. wp_steps. set (e := be_Commit be b seals).
  pose proof (core_ok_OCommit _ _ _ _ b seals e Hok1 Hcert) as Hok2.
  destruct e; [|apply wp_ret; by eapply core_ok_keeps].
  apply wp_bind. eapply wp_mod_current; [apply Hok2|].
  eapply (core_ok_current _ _ _ (UnlockHash r)) in Hok2; [|done|by intros []|apply Hok2].
  exact (wp_sendNextRoundChange _ _ _ _ Hok2).
Qed.

Lemma wp_LockHash_commit c s r rcs : core_ok c s r rcs → ¬ idle c →
  MinApprovers s <= ms_Size (rs_Commits r) →
  wp (do! mod_current LockHash in commit be) (λ _, keeps (view_of r)) c.
Proof.
  intros Hok Hni Hq. apply wp_bind. eapply wp_mod_current; [apply Hok|].
  destruct (LockHash_same_votes r) as [Hv Hp Hpp Hcm].
  rewrite <-Hv. eapply wp_commit; [|done|by rewrite Hcm].
  eapply core_ok_current; [exact Hok|done| |rewrite LockHash_pending; apply Hok].
  intros _. apply LockHash_lock, (ok_active _ _ _ _ Hok), Hni.
Qed.

(** ** startNewRound *)

(** The round state [updateRoundState] builds. *)
Definition next_round (old : option (roundState B)) (view : View) s (roundChange : bool) : roundState B :=
  match (if roundChange then old else None) with
  | Some r =>
      if IsHashLocked (be_HasBadBlockProposal be) r
      then newRoundState view s (GetLockedHash r) (rs_Preprepare r) (rs_pendingRequest r)
      else newRoundState view s 0 None (rs_pendingRequest r)
  | None => newRoundState view s 0 None None
  end.
Lemma wp_updateRoundState view s roundChange c (P : () → core B Q → Prop) :
  P () (set_current (Some (next_round (c_current c) view s roundChange)) c) →
  wp (updateRoundState be view s roundChange) P c.
Proof.
  intros HP. unfold updateRoundState, next_round in *. apply wp_mod. repeat case_match; done.
Qed.

(** What a core must satisfy before it enters a round with [startNewRound_enter]. *)
Record enterable c s (view : View) (roundChange : bool) : Prop := {
  en_set : c_fullnodeSet c = Some s;
  en_vals : fs_fullnodes s = fs_fullnodes (vals (Sequence view));
  en_backlogs : backlogs_ok (c_backlogs c);
  en_requests : requests_ok (c_pendingRequests c);
  en_trace : trace_ok (c_trace c);
  en_fresh : fresh_view (c_trace c) view;
  en_current : ∀ r, roundChange = true → c_current c = Some r →
    (rs_lockedHash r ≠ 0 → is_Some (rs_Preprepare r)) ∧
    (∀ req, rs_pendingRequest r = Some req → is_Some (req_BlockProposal req))
}.

Lemma core_ok_enter c s view roundChange s' rcs c' : enterable c s view roundChange →
  c_backlogs c' = c_backlogs c → c_pendingRequests c' = c_pendingRequests c →
  c_trace c' = c_trace c → c_fullnodeSet c' = Some s' → fs_fullnodes s' = fs_fullnodes s →
  c_roundChangeSet c' = Some rcs → rcs_ok s' rcs → idle c' →
  c_current c' = Some (next_round (c_current c) view s roundChange) →
  core_ok c' s' (next_round (c_current c) view s roundChange) rcs.
Proof.
  intros [] Hbl Hpq Ht Hs Hfs Hr1 Hr2 Hi Hc.
  unfold next_round in *. destruct (if roundChange then c_current c else None) as [r|] eqn:Hold;
    [destruct roundChange; [|done]; destruct (en_current0 r eq_refl Hold); case_match|];
    apply core_ok_newround; try done; rewrite ?Hbl, ?Hpq, ?Ht, ?Hfs; done.
Qed.

Lemma next_round_view old view s roundChange : view_of (next_round old view s roundChange) = view.
Proof. unfold next_round. destruct view. by repeat case_match. Qed.

(** The speaker of the new round proposes again what it has locked or was asked. *)
Lemma wp_repropose c s r rcs roundChange : core_ok c s r rcs →
  wp (if roundChange && c_IsSpeaker be c then
         let! r := get_current in
         if IsHashLocked (be_HasBadBlockProposal be) r then
           let! b := mderef (rs_BlockProposal r) in
           sendPreprepare be (MkRequest (Some b))
         else
           match rs_pendingRequest r with
           | Some req => let! b := mderef (req_BlockProposal req) in sendPreprepare be req
           | None => mret' ()
           end
       else mret' ()) (λ _, quiet c) c.
Proof.
  intros Hok. case_match; [|apply wp_ret, quiet_refl].
  eapply wp_current; [apply Hok|]. case_match eqn:Hl.
  - apply IsHashLocked_nonzero, (ok_lock _ _ _ _ Hok) in Hl as [p Hp].
    unfold rs_BlockProposal. rewrite Hp. simpl. wp_steps.
    eapply wp_sendPreprepare; [apply Hok..|done].
  - case_match eqn:Hpr; [|apply wp_ret, quiet_refl].
    destruct (ok_pending _ _ _ _ Hok _ Hpr) as [b Hb]. rewrite Hb. wp_steps.
    eapply wp_sendPreprepare; [apply Hok..|done].
Qed.

Lemma wp_startNewRound_enter c s view roundChange lastSpeaker : enterable c s view roundChange →
  wp (startNewRound_enter be roundChange view lastSpeaker)
     (λ _ c', ∃ s' r' rcs', core_ok c' s' r' rcs' ∧ view_of r' = view ∧
                            c_waiting c' = false ∧ c_state c' = StateAcceptRequest) c.
Proof.
  intros Hen. unfold startNewRound_enter. eapply wp_set; [apply Hen|]. wp_steps.
  apply wp_bind, wp_updateRoundState. wp_steps.
  set (s' := CalcSpeaker s lastSpeaker (big_Uint64 (Round view))).
  set (r' := next_round (c_current (set_roundChangeSet (Some (newRoundChangeSet s)) c)) view s roundChange).
  set (c1 := set_waiting false _).
  assert (core_ok (set_state StateAcceptRequest c1) s' r' (newRoundChangeSet s)) as Hok.
  { apply (core_ok_enter c s view roundChange); try done. all: first [by right | by apply newRoundChangeSet_ok]. }
  eapply wp_seq; [eapply (wp_setState StateAcceptRequest c1); apply Hok|]. intros ? c2 Hq.
  assert (core_ok c2 s' r' (newRoundChangeSet s)) as Hok2 by by eapply core_ok_quiet.
  wp_steps. eapply wp_seq; [by eapply wp_repropose|]. intros ? c3 Hq3.
  assert (core_ok c3 s' r' (newRoundChangeSet s)) as Hok3 by by eapply core_ok_quiet.
  eapply wp_wand; [eapply wp_newRoundChangeTimer; apply Hok3|]. intros ? c4 Hq4.
  exists s', r', (newRoundChangeSet s).
  pose proof (quiet_trans _ _ _ Hq (quiet_trans _ _ _ Hq3 Hq4)) as [].
  split_and!; [by eapply core_ok_quiet|apply next_round_view|by rewrite q_waiting0|by rewrite q_state0].
Qed.

Lemma wp_startNewRound c s r rcs round : core_ok c s r rcs → backend_ok be →
  round = 0 ∨ c_waiting c = true ∨ rs_round r < round →
  wp (startNewRound be round) (λ _, keeps (view_of r)) c.
Proof.
  intros Hok (last & Hlast & Hfs) Hround. unfold startNewRound.
  destruct (be_LastBlockProposal be) as [last' lastSpeaker]. simpl in Hlast. subst last'. wp_steps.
  destruct (startNewRound_decide (c_current c) (bp_Number last) round) as [roundChange|] eqn:Hd;
    [|apply wp_ret; by eapply core_ok_keeps].
  rewrite (ok_current _ _ _ _ Hok) in Hd. unfold startNewRound_decide in Hd.
  assert (∀ c' s' view, enterable c' s' view roundChange → view_le (view_of r) view →
    wp (startNewRound_enter be roundChange view lastSpeaker) (λ _, keeps (view_of r)) c') as Hgo.
  { intros c' s' view Hen Hle. eapply wp_wand; [by eapply wp_startNewRound_enter|].
    intros ? c'' (s'' & r'' & rcs'' & ? & <- & _). by exists s'', r'', rcs''. }
  case_match eqn:Hge; simplify_eq.
  - wp_steps. apply Z.leb_le in Hge. assert (rs_sequence r <= bp_Number last) by
      (destruct (Z.le_gt_cases (rs_sequence r) (bp_Number last)) as [|Hlt]; [done|];
       rewrite <-big_Cmp_lt in Hlt; lia).
    assert (view_lt (view_of r) (MkView 0 (bp_Number last + 1))) by (left; simpl; lia).
    eapply Hgo; [|by right]. split; try done; try apply Hok. eapply (core_ok_fresh c); eauto.
  - do 3 (case_match; simplify_eq). apply wp_bind. eapply wp_current; [apply Hok|]. wp_steps.
    assert (rs_round r <= round) by (destruct (Z.le_gt_cases (rs_round r) round) as [|Hlt]; [done|];
       rewrite <-big_Cmp_lt in Hlt; lia).
    assert (round ≠ 0) by (intros ->; by rewrite (proj2 (big_Cmp_eq 0 0)) in *).
    assert (view_lt (view_of r) (MkView round (rs_sequence r)) ∨
            MkView round (rs_sequence r) = view_of r ∧ ¬ committing c) as Hv.
    { destruct (decide (rs_round r < round)); [left; right; simpl; lia|].
      right. split; [unfold view_of; f_equal; lia|]. intros [Hw _].
      destruct Hround as [?|[?|?]]; [done|congruence|done]. }
    apply (Hgo c s); [|destruct Hv as [?|[-> _]]; [by right|by left]].
    split; [apply Hok..| |].
    + by eapply core_ok_fresh.
    + intros r0 _ Hr0. rewrite (ok_current _ _ _ _ Hok) in Hr0. simplify_eq. split; apply Hok.
Qed.

(** ** Checks *)

Lemma wp_checkMessage {A} c r code v (f : err → M (core B Q) A) P : c_current c = Some r →
  (∀ e, checkMessage_in c code (Some v) = Some e →
        e = None ∨ e = Some errFutureMessage ∨ e = Some errOldMessage → wp (f e) P c) →
  wp (mbind' (checkMessage code (Some v)) f) P c.
Proof.
  intros Hr Hf. unfold checkMessage. apply wp_bind, wp_bind, wp_get.
  destruct (checkMessage_in_Some c r code v Hr) as (e & He & Hcases). rewrite He. apply wp_deref. auto.
Qed.

Lemma checkMessage_accept c r code v : c_current c = Some r → code ≠ msgRoundChange →
  checkMessage_in c code (Some v) = Some None →
  v = view_of r ∧ c_waiting c = false ∧ (c_state c = StateAcceptRequest → code <= msgPreprepare).
Proof.
  intros Hr Hcode. unfold checkMessage_in. rewrite Hr.
  intros He. repeat case_match; simplify_eq;
    (rewrite ?Z.eqb_eq, ?Z.eqb_neq, ?Z.ltb_ge, ?bool_decide_eq_true, ?bool_decide_eq_false in *);
    [done|..]; (split_and!; [|done|by auto]); apply View_Cmp_eq; lia.
Qed.

(** ** PRE-PREPARE *)

Lemma wp_handleOldPreprepare c s r rcs p src : core_ok c s r rcs →
  wp (handleOldPreprepare be p src) (λ _, keeps (view_of r)) c.
Proof.
  intros Hok. unfold handleOldPreprepare.
  case_match; [|apply wp_ret; by eapply core_ok_keeps]. unfold emit. wp_steps.
  set (b := pp_BlockProposal p). set (found := be_HasBlockProposal be (bp_Hash b) (bp_Number b)).
  set (c1 := add_trace _ c).
  assert (core_ok c1 s r rcs) as Hok1 by (eapply core_ok_quiet, quiet_trace; [done|]; by repeat constructor).
  case_match eqn:Hf; [|apply wp_ret; by eapply core_ok_keeps].
  eapply wp_seq; [eapply wp_broadcastCommit_ok; [exact Hok1|]|].
  - left. exists (bp_Number b). by left.
  - intros ? c2 Hok2. exact (core_ok_keeps _ _ _ _ Hok2).
Qed.

(** Accepting a proposal in state AcceptRequest, and the state that follows. *)
Lemma core_ok_accept c s r rcs p st : core_ok c s r rcs → c_waiting c = false →
  c_state c = StateAcceptRequest → st ≠ StateAcceptRequest →
  core_ok (set_state st (set_current (Some (SetPreprepare r p)) c)) s (SetPreprepare r p) rcs.
Proof.
  intros [] Hw Hst Hne. destruct (ok_idle0 (or_intror Hst)) as [Hp Hc].
  assert (¬ idle (set_state st (set_current (Some (SetPreprepare r p)) c))) as Hni
    by (intros [?|?]; simpl in *; congruence).
  split; try done; simpl.
  - rewrite Hc. apply map_Forall_empty.
  - intros v h Hs. destruct (ok_says0 v h Hs) as [?|[?|(_ & [_ Hco] & _)]]; [auto..|].
    rewrite Hst in Hco. by destruct Hco.
Qed.

Lemma wp_sendCommit c s r rcs : core_ok c s r rcs → committing c →
  wp (sendCommit be) (λ _, keeps (view_of r)) c.
Proof.
  intros Hok Hco. unfold sendCommit. eapply wp_current; [apply Hok|].
  destruct (ok_active _ _ _ _ Hok) as [p Hp].
  { destruct Hco as [Hw Hst]. intros [?|?]; [congruence|]. destruct Hst; congruence. }
  unfold Subject. rewrite Hp. eapply wp_wand.
  - eapply wp_broadcastCommit_ok; [exact Hok|]. right. split_and!; [done..|].
    unfold Subject. by rewrite Hp.
  - intros ? c' Hok'. exact (core_ok_keeps _ _ _ _ Hok').
Qed.

(** In state AcceptRequest a valid proposal is accepted and voted for, unless the
    node is locked on another one. *)
Lemma wp_acceptPreprepare_Prepared c s r rcs p : core_ok c s r rcs → c_waiting c = false →
  c_state c = StateAcceptRequest →
  wp (do! acceptPreprepare p in do! setState StatePrepared in sendCommit be)
     (λ _, keeps (view_of r)) c.
Proof.
  intros Hok Hw Hst. apply wp_bind. eapply wp_mod_current; [apply Hok|].
  pose proof (core_ok_accept c s r rcs p StatePrepared Hok Hw Hst ltac:(done)) as Hok1.
  eapply wp_seq; [eapply wp_setState; apply Hok1|]. intros ? c2 Hq.
  eapply (wp_sendCommit c2 s (SetPreprepare r p)); [by eapply core_ok_quiet|].
  destruct Hq. split; rewrite ?q_waiting0, ?q_state0; [done|by left].
Qed.

Lemma wp_acceptPreprepare_Preprepared c s r rcs p : core_ok c s r rcs → c_waiting c = false →
  c_state c = StateAcceptRequest →
  wp (do! acceptPreprepare p in do! setState StatePreprepared in sendPrepare be)
     (λ _, keeps (view_of r)) c.
Proof.
  intros Hok Hw Hst. apply wp_bind. eapply wp_mod_current; [apply Hok|].
  pose proof (core_ok_accept c s r rcs p StatePreprepared Hok Hw Hst ltac:(done)) as Hok1.
  eapply wp_seq; [eapply wp_setState; apply Hok1|]. intros ? c2 Hq.
  pose proof (core_ok_quiet _ _ _ _ _ Hok1 Hq) as Hok2.
  apply wp_quiet_keeps; [exact (core_ok_keeps _ _ _ _ Hok2)|].
  eapply wp_sendPrepare; [apply Hok2..|done].
Qed.

Lemma wp_handlePreprepare c s r rcs m src : core_ok c s r rcs → auth m →
  wp (handlePreprepare be m src) (λ _, keeps (view_of r)) c.
Proof.
  intros Hok Hauth. pose proof (core_ok_keeps _ _ _ _ Hok) as Hk. unfold handlePreprepare.
  destruct (Decode_Preprepare m) as [p|]; [|by apply wp_ret].
  eapply wp_checkMessage; [apply Hok|]. intros e He _. destruct e as [e|].
  { case_bool_decide; [by eapply wp_handleOldPreprepare|by apply wp_ret]. }
  destruct (checkMessage_accept c r msgPreprepare _ (ok_current _ _ _ _ Hok) ltac:(done) He) as (Hv & Hw & _).
  eapply wp_set; [apply Hok|]. case_match; [by apply wp_ret|].
  destruct (be_Verify be (pp_BlockProposal p)) as [duration [e|]].
  - eapply (wp_seq _ _ (λ _, keeps (view_of r))); [|intros ? c' Hk'; by apply wp_ret].
    case_bool_decide; [|by eapply wp_sendNextRoundChange].
    apply wp_quiet_keeps; [done|]. apply wp_mod, quiet_trace. by repeat constructor.
  - wp_steps. eapply (wp_seq _ _ (λ _, keeps (view_of r))); [|intros ? c' Hk'; by apply wp_ret].
    case_bool_decide as Hst; [|by apply wp_ret]. eapply wp_current; [apply Hok|].
    case_match; [case_match|].
    + by eapply wp_acceptPreprepare_Prepared.
    + by eapply wp_sendNextRoundChange.
    + by eapply wp_acceptPreprepare_Preprepared.
Qed.

(** ** PREPARE and COMMIT *)

Lemma ms_Add_ms_ok s ms m : ms_ok s ms → ms_ok s (ms_Add ms m).1.
Proof. intros [Hwf Hfs]. split; [by apply ms_Add_wf|]. by rewrite ms_Add_fullnodeSet. Qed.

(** A node that accepts votes is past AcceptRequest and not waiting. *)
Lemma checkMessage_vote c r code v : c_current c = Some r → msgPreprepare < code < msgRoundChange →
  checkMessage_in c code (Some v) = Some None → v = view_of r ∧ ¬ idle c.
Proof.
  intros Hr Hcode He. destruct (checkMessage_accept c r code v Hr ltac:(lia) He) as (-> & Hw & Hst).
  split; [done|]. intros [?|Ha]; [congruence|]. specialize (Hst Ha). lia.
Qed.

Lemma core_ok_addPrepare c s r rcs m : core_ok c s r rcs → ¬ idle c →
  core_ok (set_current (Some (set_Prepares r (ms_Add (rs_Prepares r) m).1)) c) s
          (set_Prepares r (ms_Add (rs_Prepares r) m).1) rcs.
Proof. intros [] Hni. split; try done. by apply ms_Add_ms_ok. Qed.

Lemma core_ok_addCommit c s r rcs m : core_ok c s r rcs → ¬ idle c →
  auth m → Code m = msgCommit → Decode_Subject m = Subject r →
  core_ok (set_current (Some (set_Commits r (ms_Add (rs_Commits r) m).1)) c) s
          (set_Commits r (ms_Add (rs_Commits r) m).1) rcs.
Proof.
  intros [] Hni Ha Hc Hd. split; try done; [by apply ms_Add_ms_ok|].
  unfold ms_Add. destruct (ms_verify _ m); [done|]. simpl. by apply map_Forall_insert_2.
Qed.

Lemma wp_acceptPrepare c s r rcs m : core_ok c s r rcs → ¬ idle c →
  wp (acceptPrepare m) (λ _ c', c' = set_current (Some (set_Prepares r (ms_Add (rs_Prepares r) m).1)) c) c.
Proof.
  intros Hok Hni. unfold acceptPrepare. eapply wp_current; [apply Hok|].
  destruct (ms_Add (rs_Prepares r) m) as [ms e]. by wp_steps.
Qed.
Lemma wp_acceptCommit c s r rcs m : core_ok c s r rcs → ¬ idle c →
  wp (acceptCommit m) (λ _ c', c' = set_current (Some (set_Commits r (ms_Add (rs_Commits r) m).1)) c) c.
Proof.
  intros Hok Hni. unfold acceptCommit. eapply wp_current; [apply Hok|].
  destruct (ms_Add (rs_Commits r) m) as [ms e]. by wp_steps.
Qed.

Lemma wp_enterPrepared c s r rcs : core_ok c s r rcs → ¬ idle c →
  wp (do! mod_current LockHash in do! setState StatePrepared in sendCommit be)
     (λ _, keeps (view_of r)) c.
Proof.
  intros Hok Hni. apply wp_bind. eapply wp_mod_current; [apply Hok|].
  destruct (LockHash_same_votes r) as [Hv Hp Hpp Hcm].
  assert (core_ok (set_current (Some (LockHash r)) c) s (LockHash r) rcs) as Hok1.
  { eapply core_ok_current; [exact Hok|done| |rewrite LockHash_pending; apply Hok].
    intros _. apply LockHash_lock, (ok_active _ _ _ _ Hok), Hni. }
  eapply wp_seq; [eapply wp_setState; apply Hok1|]. intros ? c2 Hq.
  rewrite <-Hv. eapply wp_sendCommit; [eapply core_ok_quiet, Hq; eapply core_ok_state; [exact Hok1|exact Hni|by left]|].
  destruct Hq. split; rewrite ?q_waiting0, ?q_state0; [|by left]. simpl.
  destruct (c_waiting c) eqn:?; [|done]. by destruct Hni; left.
Qed.

Lemma verifySubject_None r sub : verifySubject r sub = None → Some sub = Subject r.
Proof. unfold verifySubject. by case_bool_decide. Qed.

Lemma wp_handlePrepare c s r rcs m src : core_ok c s r rcs →
  wp (handlePrepare be m src) (λ _, keeps (view_of r)) c.
Proof.
  intros Hok. pose proof (core_ok_keeps _ _ _ _ Hok) as Hk. unfold handlePrepare.
  destruct (Decode_Subject m) as [sub|]; [|by apply wp_ret].
  eapply wp_checkMessage; [apply Hok|]. intros [e|] He _; [by apply wp_ret|].
  destruct (checkMessage_vote c r msgPrepare _ (ok_current _ _ _ _ Hok) ltac:(done) He) as [Hv Hni].
  eapply wp_current; [apply Hok|]. case_match; [by apply wp_ret|].
  eapply wp_seq; [by eapply wp_acceptPrepare|]. intros ? c1 ->.
  pose proof (core_ok_addPrepare _ _ _ _ m Hok Hni) as Hok1.
  eapply wp_set; [apply Hok1|]. eapply wp_current; [apply Hok1|]. wp_steps.
  eapply (wp_seq _ _ (λ _, keeps (view_of r))); [|intros ? c' Hk'; by apply wp_ret].
  case_match; [|apply wp_ret, (core_ok_keeps _ _ _ _ Hok1)].
  exact (wp_enterPrepared _ _ _ _ Hok1 Hni).
Qed.

Lemma wp_handleCommit c s r rcs m src : core_ok c s r rcs → auth m → Code m = msgCommit →
  wp (handleCommit be m src) (λ _, keeps (view_of r)) c.
Proof.
  intros Hok Ha Hcode. pose proof (core_ok_keeps _ _ _ _ Hok) as Hk. unfold handleCommit.
  destruct (Decode_Subject m) as [sub|] eqn:Hdec; [|by apply wp_ret].
  eapply wp_checkMessage; [apply Hok|]. intros [e|] He _; [by apply wp_ret|].
  destruct (checkMessage_vote c r msgCommit _ (ok_current _ _ _ _ Hok) ltac:(done) He) as [Hv Hni].
  eapply wp_current; [apply Hok|]. destruct (verifySubject r sub) eqn:Hvs; [by apply wp_ret|].
  apply verifySubject_None in Hvs.
  eapply wp_seq; [by eapply wp_acceptCommit|]. intros ? c1 ->.
  pose proof (core_ok_addCommit _ _ _ _ m Hok Hni Ha Hcode ltac:(congruence)) as Hok1.
  eapply wp_current; [apply Hok1|]. eapply wp_set; [apply Hok1|]. wp_steps.
  eapply (wp_seq _ _ (λ _, keeps (view_of r))); [|intros ? c' Hk'; by apply wp_ret].
  case_match eqn:Hq; [|apply wp_ret, (core_ok_keeps _ _ _ _ Hok1)].
  apply andb_true_iff in Hq as [Hq%Z.leb_le _].
  exact (wp_LockHash_commit _ _ _ _ Hok1 Hni Hq).
Qed.

(** ** ROUND CHANGE *)

Lemma rcs_Add_ok s rcs round m rcs' n e : rcs_ok s rcs → rcs_Add rcs round m = (rcs', n, e) → rcs_ok s rcs'.
Proof.
  intros [Hs Hm]. unfold rcs_Add. set (ms := match _ !! _ with Some ms => _ | None => _ end).
  assert (ms_ok s ms) as Hms.
  { unfold ms. destruct (rcs_roundChanges rcs !! big_Uint64 round) as [ms0|] eqn:Hl.
    - by apply Hm in Hl.
    - by apply newMessageSet_ok. }
  pose proof (ms_Add_ms_ok s ms m Hms) as Hms'. destruct (ms_Add ms m) as [ms' e']. simpl in Hms'.
  intros Heq. assert (rcs' = MkRoundChangeSet (rcs_fullnodeSet rcs)
    (<[big_Uint64 round := ms']> (rcs_roundChanges rcs))) as -> by (destruct e'; by simplify_eq).
  split; [done|]. by apply map_Forall_insert_2.
Qed.

Lemma core_ok_rcs c s r rcs rcs' : core_ok c s r rcs → rcs_ok s rcs' →
  core_ok (set_roundChangeSet (Some rcs') c) s r rcs'.
Proof. intros [] []. by split. Qed.

Lemma wp_handleRoundChange c s r rcs m src : core_ok c s r rcs → backend_ok be →
  wp (handleRoundChange be m src) (λ _, keeps (view_of r)) c.
Proof.
  intros Hok Hbe. pose proof (core_ok_keeps _ _ _ _ Hok) as Hk. unfold handleRoundChange.
  destruct (Decode_Subject m) as [rc|]; [|by apply wp_ret].
  eapply wp_checkMessage; [apply Hok|]. intros [e|] He _; [by apply wp_ret|].
  eapply wp_view; [apply Hok|]. eapply wp_rcs; [apply Hok|].
  destruct (rcs_Add rcs (Round (sub_View rc)) m) as [[rcs' n] e] eqn:Hadd. wp_steps.
  assert (core_ok (set_roundChangeSet (Some rcs') c) s r rcs') as Hok1.
  { eapply core_ok_rcs; [exact Hok|]. eapply rcs_Add_ok; [|exact Hadd]. split; apply Hok. }
  pose proof (core_ok_keeps _ _ _ _ Hok1) as Hk1.
  destruct e; [by apply wp_ret|]. eapply wp_set; [apply Hok1|]. wp_steps.
  assert (∀ (m : M (core B Q) ()), wp m (λ _, keeps (view_of r)) (set_roundChangeSet (Some rcs') c) →
    wp (do! m in mret' (None : err)) (λ _, keeps (view_of r)) (set_roundChangeSet (Some rcs') c)) as Hret.
  { intros m0 Hm0. eapply wp_seq; [exact Hm0|]. intros ? c' Hk'. by apply wp_ret. }
  case_match; [|case_match eqn:Hc].
  - apply Hret. case_match; [by eapply wp_sendRoundChange|by apply wp_ret].
  - apply Hret, (wp_startNewRound _ _ _ _ _ Hok1 Hbe).
    apply andb_true_iff in Hc as [_ [Hw|Hlt]%orb_true_iff]; [by right; left|].
    right; right. apply Z.ltb_lt in Hlt. rewrite big_Cmp_lt in Hlt. done.
  - case_match; by apply wp_ret.
Qed.

(** ** The event loop *)

Lemma wp_storeBacklog c m src : auth m → wp (storeBacklog m src) (λ _, quiet c) c.
Proof.
  intros Ha. unfold storeBacklog. wp_steps. case_match; [apply wp_ret, quiet_refl|]. wp_steps.
  split; try done; [|by exists []]. simpl. intros Hbl. intros a q. rewrite lookup_insert.
  case_decide; [|apply Hbl]. intros [= <-].
  assert (Forall (λ x, auth x.1) (pq_items
    (match c_backlogs c !! src with Some q => q | None => pq_New end))) as Hall.
  { destruct (c_backlogs c !! src) eqn:Hl; [by apply Hbl in Hl|]. by rewrite pq_New_items. }
  destruct (msg_view m); [|done]. rewrite pq_Push_items. by constructor.
Qed.

Lemma wp_testBacklog c v m src (h : M (core B Q) err) : auth m →
  wp h (λ _, keeps v) c → wp (testBacklog m src h) (λ _, keeps v) c.
Proof.
  intros Ha Hh. unfold testBacklog. eapply wp_seq; [exact Hh|]. intros e c1 Hk.
  eapply (wp_seq _ _ (λ _, keeps v)); [|intros ? c2 Hk2; by apply wp_ret].
  case_bool_decide; [|by apply wp_ret]. apply wp_quiet_keeps; [done|]. by apply wp_storeBacklog.
Qed.

Lemma wp_handleCheckedMsg c s r rcs m src : core_ok c s r rcs → backend_ok be → auth m →
  wp (handleCheckedMsg be m src) (λ _, keeps (view_of r)) c.
Proof.
  intros Hok Hbe Ha. unfold handleCheckedMsg.
  case_match; [apply wp_testBacklog; [done|by eapply wp_handlePreprepare]|].
  case_match; [apply wp_testBacklog; [done|by eapply wp_handlePrepare]|].
  case_match eqn:Hc; [apply Z.eqb_eq in Hc; apply wp_testBacklog; [done|by eapply wp_handleCommit]|].
  case_match; [apply wp_testBacklog; [done|by eapply wp_handleRoundChange]|].
  apply wp_ret. by eapply core_ok_keeps.
Qed.

Lemma FromPayload_message p validate m : FromPayload p validate = (Some m, None) →
  message_of_bytes p = Some m.
Proof. unfold FromPayload. intros. repeat case_match; by simplify_eq. Qed.

Lemma wp_handleMsg c s r rcs p : core_ok c s r rcs → backend_ok be →
  (∀ m, message_of_bytes p = Some m → auth m) →
  wp (handleMsg be p) (λ _, keeps (view_of r)) c.
Proof.
  intros Hok Hbe Ha. pose proof (core_ok_keeps _ _ _ _ Hok) as Hk. unfold handleMsg. wp_steps.
  rewrite (ok_set _ _ _ _ Hok). destruct (FromPayload _ _) as [[m|] [e|]] eqn:Hf; try by apply wp_ret.
  apply FromPayload_message in Hf. destruct (GetByAddress s (msg_Address m)) as [[i src]|]; [|by apply wp_ret].
  eapply wp_handleCheckedMsg; eauto.
Qed.

Lemma wp_handleRequest c s r rcs req : core_ok c s r rcs → is_Some (req_BlockProposal req) →
  wp (handleRequest be req) (λ _, keeps (view_of r)) c.
Proof.
  intros Hok Hreq. unfold handleRequest. eapply wp_current; [apply Hok|].
  case_match; [apply wp_ret; by eapply core_ok_keeps|].
  apply wp_bind. eapply wp_mod_current; [apply Hok|]. wp_steps.
  assert (core_ok (set_current (Some (set_pendingRequest r (Some req))) c) s
                  (set_pendingRequest r (Some req)) rcs) as Hok1.
  { eapply core_ok_current; [exact Hok|done|apply Hok|]. simpl. intros ? [= <-]. done. }
  pose proof (core_ok_keeps _ _ _ _ Hok1) as Hk1.
  eapply (wp_seq _ _ (λ _, keeps (view_of r))); [|intros ? c2 Hk2; by apply wp_ret].
  case_bool_decide; [|by apply wp_ret]. apply wp_quiet_keeps; [done|].
  eapply wp_sendPreprepare; [apply Hok1..|done].
Qed.

Lemma wp_storeRequestMsg c v req : keeps v c → is_Some (req_BlockProposal req) →
  wp (storeRequestMsg req) (λ _, keeps v) c.
Proof.
  intros Hk [b Hb]. unfold storeRequestMsg. rewrite Hb. wp_steps.
  eapply keeps_quiet; [exact Hk|]. split; try done; [|by exists []]. simpl. unfold requests_ok.
  rewrite pq_Push_items. intros. constructor; [by exists b|done].
Qed.

Lemma wp_handleTimeoutMsg c s r rcs : core_ok c s r rcs → backend_ok be →
  wp (handleTimeoutMsg be) (λ _, keeps (view_of r)) c.
Proof.
  intros Hok Hbe. unfold handleTimeoutMsg. wp_steps.
  eapply (wp_seq _ _ (λ _ c', c' = c)).
  { case_match; [by apply wp_ret|]. eapply wp_set; [apply Hok|]. eapply wp_rcs; [apply Hok|]. by wp_steps. }
  intros maxRound ? ->. eapply (wp_seq _ _ (λ _ c', c' = c)).
  { case_match; [|by apply wp_ret]. eapply wp_current; [apply Hok|]. by wp_steps. }
  intros catchUp ? ->. case_match; [by eapply wp_sendRoundChange|].
  case_match; [|by eapply wp_sendNextRoundChange]. eapply wp_current; [apply Hok|].
  case_match; [|by eapply wp_sendNextRoundChange]. eapply wp_startNewRound; [done..|by left].
Qed.

Lemma wp_gossip c v p : keeps v c → wp (gossip p) (λ _, keeps v) c.
Proof.
  intros Hk. pose proof Hk as (s & r & rcs & Hok & _). apply wp_quiet_keeps; [done|].
  unfold gossip. eapply wp_set; [apply Hok|]. apply wp_mod, quiet_trace. by repeat constructor.
Qed.

Lemma wp_handleEvent c s r rcs ev : core_ok c s r rcs → backend_ok be → event_ok ev →
  wp (handleEvent be ev) (λ _, keeps (view_of r)) c.
Proof.
  intros Hok Hbe Hev. destruct ev as [b|p|src m| |]; simpl in Hev; unfold handleEvent.
  - destruct b as [b|]; [|by destruct Hev]. wp_steps.
    eapply wp_seq; [eapply wp_handleRequest; [done|by eexists]|]. intros e c1 Hk.
    case_bool_decide; [|by apply wp_ret]. apply wp_storeRequestMsg; [done|by eexists].
  - eapply wp_seq; [by eapply wp_handleMsg|]. intros e c1 Hk.
    case_bool_decide; [by apply wp_gossip|by apply wp_ret].
  - eapply wp_seq; [by eapply wp_handleCheckedMsg|]. intros e c1 Hk.
    case_bool_decide; [|by apply wp_ret]. case_match; [by apply wp_gossip|by apply wp_ret].
  - by eapply wp_handleTimeoutMsg.
  - unfold handleFinalCommitted. apply wp_bind. eapply wp_seq; [eapply wp_startNewRound; [done..|by left]|].
    intros ? c1 Hk. by wp_steps.
Qed.

Lemma New_enterable config last : fs_fullnodes (be_Fullnodes be last) = fs_fullnodes (vals (bp_Number last + 1)) →
  enterable (set_fullnodeSet (Some (be_Fullnodes be last)) (New be config)) (be_Fullnodes be last)
            (MkView 0 (bp_Number last + 1)) false.
Proof.
  intros Hfs. split; try done; simpl.
  - unfold requests_ok. simpl. by rewrite pq_New_items.
  - split.
    + intros v h1 h2 (? & ? & ? & ?%elem_of_nil & _). done.
    + intros ???? ?%elem_of_nil. done.
    + intros ? ?%elem_of_nil. done.
  - intros v h (? & ? & ? & ?%elem_of_nil & _). done.
Qed.

Lemma wp_Start config : backend_ok be → wp (Start be) (λ _, core_inv) (New be config).
Proof.
  intros (last & Hlast & Hfs). unfold Start, startNewRound.
  destruct (be_LastBlockProposal be) as [last' lastSpeaker]. simpl in Hlast. subst last'. wp_steps.
  simpl. wp_steps. eapply wp_wand; [by eapply wp_startNewRound_enter, New_enterable|].
  intros ? c (s & r & rcs & Hok & _). by exists s, r, rcs.
Qed.
End with_backend.
End safety.
