(* ===== verification/Network.v ===== *)
(** * A network of nodes: agreement within a view

    Correct nodes run the core on their own backend; everything else (message
    loss, delay, reordering and duplication, and the faulty fullnodes) is the
    environment.  The network is assumed to authenticate senders: a message
    that names a correct fullnode was broadcast by it.  The code does not
    enforce this by itself, see [Messages.FromPayload_sender_unchecked].

    The first section shows that the trace of a node only grows, the last is an
    executable scheduler: a script of starts, requests and deliveries is run by
    computation, and what it produces is a reachable state. *)

From Stdlib Require Import ZArith Lia.
From S2P Require Import Prelude Errors Rlp Fullnode Messages Core Backlog CoreSafety.
Open Scope didux_scope.

#[local] Set Default Proof Using "Type*".

Create HintDb extends.

Section extends.
Context {B : Type} `{!BlockProposal B} {Q : Type → Type} `{!PrQue Q}.
Context `{!Crypto, !AddrString, !GoArch}.

Definition extends {A} (m : M (core B Q) A) : Prop :=
  ∀ c a c', m c = Some (a, c') → ∃ new, c_trace c' = new ++ c_trace c.

Lemma extends_ret A (a : A) : extends (mret' a).
Proof. intros c a' c' [= _ <-]. by exists []. Qed.
Lemma extends_get : extends mget.
Proof. intros c a' c' [= _ <-]. by exists []. Qed.
Lemma extends_panic A : extends (mpanic : M _ A).
Proof. intros c a' c' [=]. Qed.
Lemma extends_deref A (o : option A) : extends (mderef o).
Proof. destruct o; [apply extends_ret|apply extends_panic]. Qed.
Lemma extends_mod f : (∀ c, c_trace (f c) = c_trace c) → extends (mmod f).
Proof. intros Hf c a c' [= _ <-]. exists []. by rewrite Hf. Qed.
Lemma extends_add t : extends (mmod (add_trace t)).
Proof. intros c a c' [= _ <-]. by exists t. Qed.
Lemma extends_bind A A' (m : M (core B Q) A) (f : A → M (core B Q) A') :
  extends m → (∀ a, extends (f a)) → extends (mbind' m f).
Proof.
  intros Hm Hf c a c'. unfold mbind'. destruct (m c) as [[a1 c1]|] eqn:Hm1; [|done]. intros Hm2.
  destruct (Hm _ _ _ Hm1) as [n1 Hn1], (Hf a1 _ _ _ Hm2) as [n2 Hn2].
  exists (n2 ++ n1). by rewrite Hn2, Hn1, app_assoc.
Qed.
End extends.

#[export] Hint Resolve extends_ret extends_get extends_panic extends_deref extends_add : extends.

(** Walk through a program; the calls left are found in the hint database. *)
Ltac extends :=
  repeat first
    [ progress intros
    | solve [eauto with extends]
    | apply extends_bind
    | apply extends_mod; intros; repeat case_match; reflexivity
    | case_match ].

Section handlers.
Context {B : Type} `{!BlockProposal B} {Q : Type → Type} `{!PrQue Q}.
Context `{!Crypto, !AddrString, !GoArch}.
Context (be : Backend B).
Abbreviation ext m := (extends (m : M (core B Q) _)).

Lemma extends_emit o : ext (emit o).
Proof. unfold emit. extends. Qed.
Lemma extends_current : ext get_current.
Proof. unfold get_current. extends. Qed.
Lemma extends_set : ext get_fullnodeSet.
Proof. unfold get_fullnodeSet. extends. Qed.
Lemma extends_rcs : ext get_roundChangeSet.
Proof. unfold get_roundChangeSet. extends. Qed.
Hint Resolve extends_emit extends_current extends_set extends_rcs : extends.
Lemma extends_mod_current f : ext (mod_current f).
Proof. unfold mod_current. extends. Qed.
Lemma extends_view : ext currentView.
Proof. unfold currentView. extends. Qed.
Lemma extends_check code v : ext (checkMessage code v).
Proof. unfold checkMessage. extends. Qed.
Hint Resolve extends_mod_current extends_view extends_check : extends.
Lemma extends_processBacklog : ext processBacklog.
Proof. unfold processBacklog. extends. Qed.
Lemma extends_processPendingRequests : ext processPendingRequests.
Proof. unfold processPendingRequests. extends. Qed.
Hint Resolve extends_processBacklog extends_processPendingRequests : extends.
Lemma extends_setState st : ext (setState st).
Proof. unfold setState. extends. Qed.
Lemma extends_finalizeMessage m : ext (finalizeMessage be m).
Proof. unfold finalizeMessage. extends. Qed.
Hint Resolve extends_setState extends_finalizeMessage : extends.
Lemma extends_broadcast m : ext (broadcast be m).
Proof. unfold broadcast. extends. Qed.
Hint Resolve extends_broadcast : extends.
Lemma extends_sendPreprepare req : ext (sendPreprepare be req).
Proof. unfold sendPreprepare. extends. Qed.
Lemma extends_sendPrepare : ext (sendPrepare be).
Proof. unfold sendPrepare. extends. Qed.
Lemma extends_broadcastCommit sub : ext (broadcastCommit be sub).
Proof. unfold broadcastCommit. extends. Qed.
Hint Resolve extends_sendPreprepare extends_sendPrepare extends_broadcastCommit : extends.
Lemma extends_sendCommit : ext (sendCommit be).
Proof. unfold sendCommit. extends. Qed.
Lemma extends_newRoundChangeTimer : ext newRoundChangeTimer.
Proof. unfold newRoundChangeTimer. extends. Qed.
Lemma extends_updateRoundState v s b : ext (updateRoundState be v s b).
Proof. unfold updateRoundState. extends. Qed.
Hint Resolve extends_sendCommit extends_newRoundChangeTimer extends_updateRoundState : extends.
Lemma extends_catchUpRound v : ext (catchUpRound be v).
Proof. unfold catchUpRound. extends. Qed.
Hint Resolve extends_catchUpRound : extends.
Lemma extends_sendRoundChange r : ext (sendRoundChange be r).
Proof. unfold sendRoundChange. extends. Qed.
Hint Resolve extends_sendRoundChange : extends.
Lemma extends_sendNextRoundChange : ext (sendNextRoundChange be).
Proof. unfold sendNextRoundChange. extends. Qed.
Hint Resolve extends_sendNextRoundChange : extends.
Lemma extends_commit : ext (commit be).
Proof. unfold commit. extends. Qed.
Lemma extends_enter rc v l : ext (startNewRound_enter be rc v l).
Proof. unfold startNewRound_enter. extends. Qed.
Hint Resolve extends_commit extends_enter : extends.
Lemma extends_startNewRound r : ext (startNewRound be r).
Proof. unfold startNewRound. extends. Qed.
Lemma extends_handleRequest r : ext (handleRequest be r).
Proof. unfold handleRequest. extends. Qed.
Lemma extends_handleOldPreprepare p src : ext (handleOldPreprepare be p src).
Proof. unfold handleOldPreprepare, sendCommitForOldBlock. extends. Qed.
Hint Resolve extends_startNewRound extends_handleRequest extends_handleOldPreprepare : extends.
Lemma extends_handlePreprepare m src : ext (handlePreprepare be m src).
Proof. unfold handlePreprepare, acceptPreprepare. extends. Qed.
Lemma extends_handlePrepare m src : ext (handlePrepare be m src).
Proof. unfold handlePrepare, acceptPrepare. extends. Qed.
Lemma extends_handleCommit m src : ext (handleCommit be m src).
Proof. unfold handleCommit, acceptCommit. extends. Qed.
Lemma extends_handleRoundChange m src : ext (handleRoundChange be m src).
Proof. unfold handleRoundChange. extends. Qed.
Lemma extends_storeBacklog m src : ext (storeBacklog m src).
Proof. unfold storeBacklog. extends. Qed.
Lemma extends_storeRequestMsg r : ext (storeRequestMsg r).
Proof. unfold storeRequestMsg. extends. Qed.
Hint Resolve extends_handlePreprepare extends_handlePrepare extends_handleCommit
  extends_handleRoundChange extends_storeBacklog extends_storeRequestMsg : extends.
Lemma extends_handleCheckedMsg m src : ext (handleCheckedMsg be m src).
Proof. unfold handleCheckedMsg, testBacklog. extends. Qed.
Hint Resolve extends_handleCheckedMsg : extends.
Lemma extends_handleMsg p : ext (handleMsg be p).
Proof. unfold handleMsg. extends. Qed.
Lemma extends_handleTimeoutMsg : ext (handleTimeoutMsg be).
Proof. unfold handleTimeoutMsg. extends. Qed.
Hint Resolve extends_handleMsg extends_handleTimeoutMsg : extends.
Lemma extends_handleEvent ev : ext (handleEvent be ev).
Proof. unfold handleEvent, gossip, handleFinalCommitted. extends. Qed.
End handlers.

Section network.
Context {B : Type} `{!BlockProposal B} {Q : Type → Type} `{!PrQue Q, !PrQueLaws Q}.
Context `{!Crypto, !AddrString, !GoArch}.
Context (faulty : gset address) (vals : Z → fullnodeSet).

(** The correct nodes that have started, by address. *)
Abbreviation net := (gmap Z (core B Q)).
Implicit Types σ : net.

Definition sent σ (m : message) : Prop :=
  ∃ c targets p, σ !! msg_Address m = Some c ∧ (OBroadcast targets p ∈ c_trace c) ∧
                 message_of_bytes p = Some m.

(** A message that names a correct sender was sent by it. *)
Definition authentic σ (m : message) : Prop := msg_Address m ∉ faulty → sent σ m.

(** The events a node may be given: any request, timeout or final committed
    event, any authentic message, and the events it has posted to itself. *)
Definition deliverable σ (c : core B Q) (ev : event B) : Prop :=
  match ev with
  | RequestEvent b => is_Some b
  | MessageEvent p => ∀ m, message_of_bytes p = Some m → authentic σ m
  | backlogEvent _ _ => OPost ev ∈ c_trace c ∨ ∃ d, OFutureTimer d ev ∈ c_trace c
  | _ => True
  end.

(** A node starts, or handles an event, which is the label of the step. *)
Inductive step_by : option (address * event B) → net → net → Prop :=
  | step_start σ a be config c' :
      a ∉ faulty → σ !! a = None → be_Address be = a → backend_ok vals be →
      Start be (New be config) = Some ((), c') → step_by None σ (<[a := c']> σ)
  | step_event σ a be ev c c' :
      a ∉ faulty → σ !! a = Some c → be_Address be = a → backend_ok vals be →
      deliverable σ c ev → handleEvent be ev c = Some ((), c') → step_by (Some (a, ev)) σ (<[a := c']> σ).
Definition step σ σ' : Prop := ∃ l, step_by l σ σ'.

Definition reachable σ : Prop := rtc step ∅ σ.

(** The events the nodes were given on the way to a state, the last one first. *)
Inductive history : list (address * event B) → net → Prop :=
  | history_nil : history [] ∅
  | history_step log l σ σ' : history log σ → step_by l σ σ' → history (option_list l ++ log) σ'.
Lemma history_reachable σ : reachable σ ↔ ∃ log, history log σ.
Proof.
  split.
  - apply (rtc_ind_r (λ σ, ∃ log, history log σ) ∅); [exists []; apply history_nil|].
    intros σ1 σ2 _ [l Hs] [log Hh]. eexists. by eapply history_step.
  - intros [log Hh]. induction Hh as [|log l σ σ' _ IH Hs]; [apply rtc_refl|]. eapply rtc_r; [exact IH|by exists l].
Qed.

(** A node was given a message. *)
Definition received (log : list (address * event B)) (a : address) (m : message) : Prop :=
  ∃ p, (a, MessageEvent p) ∈ log ∧ message_of_bytes p = Some m.
(** What holds of the messages a node works with. *)
Definition accepted (log : list (address * event B)) σ (a : address) (m : message) : Prop := authentic σ m ∧ received log a m.

Definition net_inv log σ : Prop :=
  map_Forall (λ a c, (a ∉ faulty) ∧ core_inv (accepted log σ a) vals c) σ.

(** ** More authentic messages do not hurt *)

Lemma trace_ok_mono (auth auth' : message → Prop) (t : list (output B)) :
  (∀ m, auth m → auth' m) → trace_ok auth vals t → trace_ok auth' vals t.
Proof.
  intros Hm [Hu Hc Hp]. split; [done|..].
  - intros v b seals e Hin. destruct (Hc _ _ _ _ Hin) as (msgs & ? & ? & ? & Hall). exists msgs. split_and!; [done..|].
    eapply Forall_impl; [exact Hall|]. intros m (? & ?). auto.
  - intros o Ho%Hp. destruct o as [| | | |e| |? e]; simpl in *; try done; destruct e; simpl in *; auto.
Qed.

Lemma core_inv_mono (auth auth' : message → Prop) (c : core B Q) :
  (∀ m, auth m → auth' m) → core_inv auth vals c → core_inv auth' vals c.
Proof.
  intros Hm (s & r & rcs & []). exists s, r, rcs. split; try done.
  - intros a m Hl. destruct (ok_votes a m Hl) as (? & ? & ?). auto.
  - intros a q Hl. eapply Forall_impl; [by apply (ok_backlogs a q)|]. auto.
  - by eapply trace_ok_mono.
Qed.

Lemma authentic_mono σ a c' :
  (∀ c, σ !! a = Some c → (∃ new, c_trace c' = new ++ c_trace c)) →
  ∀ m, authentic σ m → authentic (<[a := c']> σ) m.
Proof.
  intros Hext m Ha Hm. destruct (Ha Hm) as (c & tg & p & Hl & Hin & Hp).
  destruct (decide (msg_Address m = a)) as [<-|Hne].
  - destruct (Hext c Hl) as [new Hn]. exists c', tg, p. rewrite lookup_insert_eq.
    split_and!; [done| |done]. rewrite Hn. apply elem_of_app. by right.
  - exists c, tg, p. by rewrite lookup_insert_ne.
Qed.

Lemma accepted_mono log l σ a b c' :
  (∀ c, σ !! a = Some c → (∃ new, c_trace c' = new ++ c_trace c)) →
  ∀ m, accepted log σ b m → accepted (l ++ log) (<[a := c']> σ) b m.
Proof.
  intros Hext m [Ha (p & Hp & Hm)]. split; [by eapply authentic_mono|]. exists p. split; [|done]. apply elem_of_app. by right.
Qed.

Lemma deliverable_ok log σ a c ev : core_inv (accepted log σ a) vals c → deliverable σ c ev →
  event_ok (accepted ((a, ev) :: log) σ a) ev.
Proof.
  intros (s & r & rcs & Hok) Hd. destruct ev as [b|p|a' m| |]; try done.
  - intros m Hm. split; [by apply Hd|]. exists p. split; [by left|done].
  - assert (accepted log σ a m) as [? (p & ? & ?)].
    { destruct Hd as [Hp|[d Hp]]; by apply (t_posted _ _ _ (ok_trace _ _ _ _ _ _ Hok)) in Hp. }
    split; [done|]. exists p. split; [by right|done].
Qed.

Lemma step_inv log l σ σ' : net_inv log σ → step_by l σ σ' → net_inv (option_list l ++ log) σ'.
Proof.
  intros Hinv Hstep. destruct Hstep as [σ a be config c' Ha Hl Hadr Hbe Hrun|σ a be ev c c' Ha Hl Hadr Hbe Hd Hrun].
  - assert (∀ b m, accepted log σ b m → accepted (option_list None ++ log) (<[a := c']> σ) b m) as Hmono
      by (intros b; apply accepted_mono; intros; congruence).
    apply map_Forall_insert_2.
    + split; [done|]. eapply core_inv_mono; [exact (Hmono a)|].
      apply (wp_run (Start be) (λ _, core_inv (accepted log σ a) vals) (New be config) () c'); [by apply wp_Start|done].
    + eapply map_Forall_impl; [exact Hinv|]. intros b cb [? ?]. split; [done|]. by eapply core_inv_mono; [exact (Hmono b)|].
  - assert (∀ b m, accepted log σ b m → accepted ((a, ev) :: log) (<[a := c']> σ) b m) as Hmono.
    { intros b. apply (accepted_mono log [(a, ev)]). intros c0 Hc0. rewrite Hl in Hc0. simplify_eq.
      by eapply extends_handleEvent. }
    destruct (Hinv a c Hl) as [_ Hc]. pose proof (deliverable_ok _ _ _ _ _ Hc Hd) as Hev.
    apply (core_inv_mono _ (accepted ((a, ev) :: log) σ a)) in Hc as (s & r & rcs & Hok);
      [|intros m [? (p & ? & ?)]; split; [done|]; exists p; split; [by right|done]].
    apply map_Forall_insert_2.
    + split; [done|]. apply (core_inv_mono (accepted ((a, ev) :: log) σ a)).
      { intros m [Hau Hre]. split; [|done]. eapply authentic_mono, Hau. intros c0 Hc0. rewrite Hl in Hc0. simplify_eq. by eapply extends_handleEvent. }
      pose proof (wp_handleEvent _ _ be c s r rcs ev Hok Hbe Hev) as Hwp.
      destruct (wp_run _ _ _ _ _ Hwp Hrun) as (s' & r' & rcs' & Hok' & _). by exists s', r', rcs'.
    + eapply map_Forall_impl; [exact Hinv|]. intros b cb [? ?]. split; [done|]. by eapply core_inv_mono; [exact (Hmono b)|].
Qed.

Lemma history_inv log σ : history log σ → net_inv log σ.
Proof. induction 1; [apply map_Forall_empty|by eapply step_inv]. Qed.

(** C2. A correct node that handed a block to its backend had received a quorum of COMMIT
    messages for it in the view it was in: one from each of at least [MinApprovers] different fullnodes
    of the height, each given to this very node by an event of the execution and (if its sender is
    correct) sent by that sender; the seals the node handed over with the block are
    those of these messages. *)
Theorem committed_has_quorum log σ a c v b seals e :
  history log σ → σ !! a = Some c → OCommit v b seals e ∈ c_trace c →
  backed (accepted log σ a) vals v (bp_Hash b) seals.
Proof.
  intros Hr%history_inv Hl Ho. destruct (Hr a c Hl) as (_ & s & r & rcs & Hok).
  by eapply t_commit, Ho; eapply ok_trace.
Qed.

(** Fewer than a third of the fullnodes of height [n] are faulty. *)
Definition few_faulty (n : Z) : Prop :=
  3 * Z.of_nat (size (faulty ∩ members (vals n))) < Size (vals n).

Lemma certified_says σ v h1 h2 : reachable σ → NoDup (fs_fullnodes (vals (Sequence v))) →
  few_faulty (Sequence v) →
  certified (authentic σ) vals v h1 → certified (authentic σ) vals v h2 →
  ∃ a c, σ !! a = Some c ∧ says (c_trace c) v h1 ∧ says (c_trace c) v h2.
Proof.
  intros Hr Hnd Hf (q1 & Hq1 & Hs1 & Hm1) (q2 & Hq2 & Hs2 & Hm2).
  destruct (correct_in_overlap _ q1 q2 _ Hnd Hq1 Hq2 Hs1 Hs2 Hf) as (a & Ha1 & Ha2 & Hnf).
  assert (a ∉ faulty) as Haf by (intros ?; apply Hnf; set_solver).
  destruct (Hm1 a Ha1) as (m1 & Hau1 & <- & Hc1 & Hd1).
  destruct (Hm2 _ Ha2) as (m2 & Hau2 & Hadr & Hc2 & Hd2).
  destruct (Hau1 Haf) as (c & t1 & p1 & Hl & Hin1 & Hp1).
  rewrite <-Hadr in Haf. destruct (Hau2 Haf) as (c2 & t2 & p2 & Hl2 & Hin2 & Hp2).
  rewrite Hadr, Hl in Hl2. simplify_eq. exists (msg_Address m1), c2.
  split_and!; [done|by exists t1, p1, m1|by exists t2, p2, m2].
Qed.

(** C1. Agreement: two correct nodes that commit in the same view commit the same
    block, as long as fewer than a third of the fullnodes of the height are
    faulty; the only way out is a correct node that found one of the two
    blocks in its chain when answering an old PRE-PREPARE. *)
Theorem agreement_in_view σ a1 c1 a2 c2 v b1 b2 seals1 seals2 e1 e2 :
  reachable σ → NoDup (fs_fullnodes (vals (Sequence v))) →
  few_faulty (Sequence v) →
  σ !! a1 = Some c1 → OCommit v b1 seals1 e1 ∈ c_trace c1 →
  σ !! a2 = Some c2 → OCommit v b2 seals2 e2 ∈ c_trace c2 →
  bp_Hash b1 = bp_Hash b2 ∨
  (∃ a c, σ !! a = Some c ∧ (asked (c_trace c) (bp_Hash b1) ∨ asked (c_trace c) (bp_Hash b2))).
Proof.
  intros Hr Hnd Hf Hl1 Ho1 Hl2 Ho2. pose proof (proj1 (history_reachable σ) Hr) as [log Hinv%history_inv].
  assert (∀ a c b seals e, σ !! a = Some c → OCommit v b seals e ∈ c_trace c →
            certified (authentic σ) vals v (bp_Hash b)) as Hcert.
  { intros a c b seals e Hl Ho. destruct (Hinv a c Hl) as (_ & s & r & rcs & Hok).
    eapply backed_certified, t_commit, Ho. eapply trace_ok_mono; [|eapply ok_trace; exact Hok]. by intros m []. }
  destruct (certified_says σ v (bp_Hash b1) (bp_Hash b2)) as (a & c & Hl & Hs1 & Hs2); eauto.
  destruct (Hinv a c Hl) as (_ & s & r & rcs & Hok).
  destruct (t_unique _ _ _ (ok_trace _ _ _ _ _ _ Hok) _ _ _ Hs1 Hs2) as [?|[?|?]]; [by left|..];
    right; exists a, c; auto.
Qed.
End network.

Inductive action (B : Type) : Type :=
  | AStart (a : address)
  | ARequest (a : address) (b : B)
  | ATimeout (a : address)
  | ADeliver (to from : address) (k : nat).  (* the k-th broadcast of [from] *)
Arguments AStart {_}. Arguments ARequest {_}. Arguments ATimeout {_}. Arguments ADeliver {_}.

Section scheduler.
Context {B : Type} `{!BlockProposal B} {Q : Type → Type} `{!PrQue Q, !PrQueLaws Q}.
Context `{!Crypto, !AddrString, !GoArch}.
Context (faulty : gset address) (vals : Z → fullnodeSet).
Context (be : address → Backend B) (config : Config).
Abbreviation net := (gmap Z (core B Q)).
Implicit Types σ : net.

(** What a node has broadcast, oldest first. *)
Definition broadcasts (c : core B Q) : list bytes :=
  omap (λ o, match o with OBroadcast _ p => Some p | _ => None end) (reverse (c_trace c)).

Definition give σ (a : address) (ev : event B) : option net :=
  if bool_decide (a ∈ faulty) then None else
  match σ !! a with
  | None => None
  | Some c => match handleEvent (be a) ev c with
              | None => None
              | Some (_, c') => Some (<[a := c']> σ)
              end
  end.

Definition act σ (x : action B) : option net :=
  match x with
  | AStart a =>
      if bool_decide (a ∈ faulty) then None else
      match σ !! a with
      | Some _ => None
      | None => match Start (be a) (New (be a) config) with
                | None => None
                | Some (_, c) => Some (<[a := c]> σ)
                end
      end
  | ARequest a b => give σ a (RequestEvent (Some b))
  | ATimeout a => give σ a timeoutEvent
  | ADeliver to from k =>
      match σ !! from with
      | None => None
      | Some c =>
          match broadcasts c !! k with
          | None => None
          | Some p =>
              match message_of_bytes p with
              | Some m => if msg_Address m =? from then give σ to (MessageEvent p) else None
              | None => None
              end
          end
      end
  end.

Fixpoint script σ (xs : list (action B)) : option net :=
  match xs with
  | [] => Some σ
  | x :: xs => match act σ x with None => None | Some σ' => script σ' xs end
  end.

Hypothesis be_address : ∀ a, be_Address (be a) = a.
Hypothesis be_ok : ∀ a, backend_ok vals (be a).

Lemma give_step σ a ev σ' : (∀ c, deliverable faulty σ c ev) → give σ a ev = Some σ' →
  step faulty vals σ σ'.
Proof using All.
  intros Hd. unfold give. case_bool_decide; [done|].
  destruct (σ !! a) as [c|] eqn:Hc; [|done].
  destruct (handleEvent (be a) ev c) as [[[] c']|] eqn:He; [|done]. intros [= <-].
  eexists. by eapply (step_event faulty vals σ a (be a) ev c c').
Qed.

Lemma broadcasts_sent c k p : broadcasts c !! k = Some p → ∃ tg, OBroadcast tg p ∈ c_trace c.
Proof.
  intros Hp%list_elem_of_lookup_2. unfold broadcasts in Hp.
  apply list_elem_of_omap in Hp as (o & Ho%elem_of_reverse & Hop). destruct o; simplify_eq. rewrite reverse_involutive in Ho. by eexists.
Qed.

Lemma act_step σ x σ' : act σ x = Some σ' → step faulty vals σ σ'.
Proof using All.
  destruct x as [a|a b|a|to from k]; cbn [act].
  - case_bool_decide; [done|]. destruct (σ !! a) eqn:Hl; [done|].
    destruct (Start (be a) (New (be a) config)) as [[[] c]|] eqn:Hs; [|done]. intros [= <-].
    eexists. by eapply (step_start faulty vals σ a (be a) config c).
  - apply give_step. by intros c; eexists.
  - by apply give_step.
  - destruct (σ !! from) as [c|] eqn:Hl; [|done]. destruct (broadcasts c !! k) as [p|] eqn:Hk; [|done].
    destruct (message_of_bytes p) as [m|] eqn:Hm; [|done]. destruct (Z.eqb_spec (msg_Address m) from); [|done].
    apply give_step. intros _ m' Hm' _. simplify_eq.
    destruct (broadcasts_sent c k p Hk) as [tg Htg]. by exists c, tg, p.
Qed.

(** Every state a script produces is reachable. *)
Lemma script_reachable xs σ : script ∅ xs = Some σ → reachable faulty vals σ.
Proof using All.
  unfold reachable. generalize (∅ : net). induction xs as [|x xs IH]; intros σ0 Hs; cbn [script] in Hs.
  { by simplify_eq. }
  destruct (act σ0 x) as [σ1|] eqn:Ha; [|done]. eapply rtc_l; [by apply act_step in Ha|]. by apply IH.
Qed.
End scheduler.
