(* ===== verification/CoreRun.v ===== *)
(** * The event loop of a node

    Runs of the core over whole sequences of events, each with the answers its
    backend gives at that moment; the order of the backlog; the round timers;
    and what a waiting node does with ROUND CHANGE messages. *)

From Stdlib Require Import ZArith Lia.
From S2P Require Import Prelude Errors Rlp Fullnode Messages Core Backlog CoreSafety.
Open Scope didux_scope.
#[local] Set Default Proof Using "Type*".

Section run.
Context {B : Type} `{!BlockProposal B} {Q : Type → Type} `{!PrQue Q, !PrQueLaws Q}.
Context `{!Crypto, !AddrString, !GoArch}.
Implicit Types (c : core B Q).

(** [Start] and then one iteration of [handleEvents] per event. *)
Fixpoint handleEvents (evs : list (Backend B * event B)) : M (core B Q) () :=
  match evs with
  | [] => mret' ()
  | (be, ev) :: evs => do! handleEvent be ev in handleEvents evs
  end.
Definition run (be : Backend B) (config : Config) (evs : list (Backend B * event B)) :
    option (() * core B Q) :=
  (do! Start be in handleEvents evs) (New be config).

Definition run_ok (auth : message → Prop) (vals : Z → fullnodeSet)
    (evs : list (Backend B * event B)) : Prop :=
  Forall (λ x, backend_ok vals x.1 ∧ event_ok auth x.2) evs.

Lemma wp_handleEvents auth vals evs v c : run_ok auth vals evs → keeps auth vals v c →
  wp (handleEvents evs) (λ _, keeps auth vals v) c.
Proof.
  intros Hevs. revert v c. induction Hevs as [|[be ev] evs [Hbe Hev] _ IH]; intros v c Hk.
  { by apply wp_ret. }
  destruct Hk as (s & r & rcs & Hok & Hv). cbn [handleEvents].
  eapply wp_seq; [by eapply wp_handleEvent|]. intros _ c1 (s1 & r1 & rcs1 & Hok1 & Hv1). apply IH.
  exists s1, r1, rcs1. eauto using view_le_trans.
Qed.

(** The backend has to know its last block: the real one answers nil when the author
    of the head cannot be recovered from its seal, and then a new round panics. *)
Lemma startNewRound_nil be round c : (be_LastBlockProposal be).1 = None → startNewRound be round c = None.
Proof. intros Hbe. unfold startNewRound. destruct (be_LastBlockProposal be) as [last speaker]. cbn in Hbe. by subst last. Qed.

(** C3. A node that is started and fed any sequence of events whose requests carry
    a block never panics, and every state it goes through is well formed; its
    view never goes back: cut the sequence anywhere, the view at the end is at
    least the view at the cut.  Assumed of the backend, at the start and at every event
    ([backend_ok]): it has a last block, never nil, and the fullnodes it gives for that block are those of
    the next height. *)
Theorem core_run_safe (auth : message → Prop) (vals : Z → fullnodeSet) be config evs1 evs2 :
  backend_ok vals be → run_ok auth vals evs1 → run_ok auth vals evs2 →
  ∃ c1 c2 r1 r2, run be config evs1 = Some ((), c1) ∧ run be config (evs1 ++ evs2) = Some ((), c2) ∧
    core_inv auth vals c1 ∧ core_inv auth vals c2 ∧
    c_current c1 = Some r1 ∧ c_current c2 = Some r2 ∧ view_le (view_of r1) (view_of r2).
Proof.
  intros Hbe He1s He2s. pose proof (wp_Start auth vals be config Hbe) as Hs. unfold run, mbind'.
  unfold wp in Hs. destruct (Start be (New be config)) as [[[] c0]|]; [|done].
  destruct Hs as (s0 & r0 & rcs0 & Hok0).
  pose proof (wp_handleEvents auth vals evs1 (view_of r0) c0 He1s) as Hw1. unfold wp in Hw1.
  destruct (handleEvents evs1 c0) as [[[] c1]|] eqn:He1;
    [|destruct Hw1; exists s0, r0, rcs0; eauto using view_le_refl].
  destruct Hw1 as (s1 & r1 & rcs1 & Hok1 & _); [exists s0, r0, rcs0; eauto using view_le_refl|].
  pose proof (wp_handleEvents auth vals evs2 (view_of r1) c1 He2s) as Hw2. unfold wp in Hw2.
  assert (∀ c, handleEvents (evs1 ++ evs2) c
             = match handleEvents evs1 c with Some (_, c') => handleEvents evs2 c' | None => None end)
    as Happ.
  { clear. induction evs1 as [|[b e] evs IH]; intros c; [done|]. cbn [app handleEvents]. unfold mbind'.
    destruct (handleEvent b e c) as [[[] c']|]; [apply IH|done]. }
  rewrite Happ, He1. destruct (handleEvents evs2 c1) as [[[] c2]|];
    [|destruct Hw2; exists s1, r1, rcs1; eauto using view_le_refl].
  destruct Hw2 as (s2 & r2 & rcs2 & Hok2 & Hv2); [exists s1, r1, rcs1; eauto using view_le_refl|].
  exists c1, c2, r1, r2. split_and!; [done|done|..|done].
  - by exists s1, r1, rcs1.
  - by exists s2, r2, rcs2.
  - exact (ok_current _ _ _ _ _ _ Hok1).
  - exact (ok_current _ _ _ _ _ _ Hok2).
Qed.

(** [processBacklog] ends; it drops the queues of senders that are no longer
    fullnodes; every other queue is split into the messages posted again, which
    pass [checkMessage] now, those dropped, which are old or do not decode, and
    those left, of which the first is still in the future. *)
Theorem processBacklog_partition c r s :
  c_current c = Some r → c_fullnodeSet c = Some s →
  ∃ bl' evs, processBacklog c = Some ((), add_trace (reverse (OPost <$> evs)) (set_backlogs bl' c)) ∧
    backlog_processed c s (c_backlogs c) bl' evs.
Proof. apply processBacklog_run. Qed.

(** ** A waiting node *)

Definition stays (P : core B Q → Prop) {A} (m : M (core B Q) A) : Prop :=
  ∀ c, P c → match m c with Some (_, c') => P c' | None => True end.

Lemma stays_ret P {A} (a : A) : stays P (mret' a).
Proof. by intros c Hc. Qed.
Lemma stays_get P : stays P mget.
Proof. by intros c Hc. Qed.
Lemma stays_deref P {A} (o : option A) : stays P (mderef o).
Proof. intros c Hc. by destruct o. Qed.
Lemma stays_mod (P : core B Q → Prop) f : (∀ c, P c → P (f c)) → stays P (mmod f).
Proof. intros Hf c Hc. by apply Hf. Qed.
Lemma stays_bind P {A A'} (m : M (core B Q) A) (f : A → M (core B Q) A') :
  stays P m → (∀ a, stays P (f a)) → stays P (mbind' m f).
Proof.
  intros Hm Hf c Hc. unfold mbind'. specialize (Hm c Hc).
  destruct (m c) as [[a c']|]; [|done]. by apply Hf.
Qed.

Ltac stays :=
  repeat lazymatch goal with
    | |- stays _ (mret' _) => apply stays_ret
    | |- stays _ mget => apply stays_get
    | |- stays _ (mderef _) => apply stays_deref
    | |- stays _ (mmod _) => apply stays_mod; intros ? ?; simpl; repeat case_match; done
    | |- stays _ (mbind' _ _) => apply stays_bind; [|intros ?]
    | |- stays _ (match ?x with _ => _ end) => destruct x
    end.

Definition waiting c : Prop := c_waiting c = true.

Lemma sendRoundChange_waits be round : stays waiting (sendRoundChange be round).
Proof.
  unfold sendRoundChange, catchUpRound, newRoundChangeTimer, broadcast, finalizeMessage,
    updateRoundState, currentView, get_current, get_fullnodeSet, get_roundChangeSet, emit.
  stays.
Qed.

(** C36. In a set where [MaxFaulty + E] and [MinApprovers] are the same number (1 or
    3 fullnodes), a node that waits for a round change is not brought out of it
    by any ROUND CHANGE message: the test for the first threshold shadows the
    one that starts the new round. *)
Theorem waiting_node_stuck be c s m src :
  c_fullnodeSet c = Some s → Size s = 1 ∨ Size s = 3 → c_waiting c = true →
  match handleRoundChange be m src c with Some (_, c') => c_waiting c' = true | None => True end.
Proof.
  intros Hs Hsize Hw.
  assert (MaxFaulty s + E s = MinApprovers s) as Heq.
  { unfold E. pose proof (MinApprovers_bounds s). pose proof (MaxFaulty_bounds s). lia. }
  unfold handleRoundChange. destruct (Decode_Subject m) as [rc|]; [|done].
  unfold checkMessage, currentView, get_current, get_roundChangeSet, get_fullnodeSet, mbind', mget.
  destruct (checkMessage_in c msgRoundChange (Some (sub_View rc))) as [[e|]|]; [done| |done].
  simpl. destruct (c_current c) as [r|]; [|done]. simpl.
  destruct (c_roundChangeSet c) as [rcs|]; [|done]. simpl.
  destruct (rcs_Add rcs (Round (sub_View rc)) m) as [[rcs' n] [e|]]; simpl; [by destruct c|].
  rewrite Hs. simpl. rewrite Hw, Heq. simpl.
  destruct (n =? MinApprovers s); simpl.
  - destruct (big_Cmp _ _ <? 0); [|done].
    generalize (sendRoundChange_waits be (Round (sub_View rc)) (set_roundChangeSet (Some rcs') c) Hw).
    by destruct (sendRoundChange be _ (set_roundChangeSet (Some rcs') c)) as [[[] c']|].
  - by destruct (big_Cmp _ _ <? 0).
Qed.
End run.

(** ** The order of the backlog *)

Lemma float32_of_Z_exact z : 0 <= z < 2 ^ 24 → float32_of_Z z = z.
Proof. intros Hz. unfold float32_of_Z. case_match; [lia|]. apply round_sig_exact; lia. Qed.

Lemma toPriority_exact code v : code ≠ msgRoundChange →
  0 <= Sequence v < 16777 → 0 <= Round v <= 98 →
  toPriority code v = - (Sequence v * 1000 + Round v * 10 + msgPriority code).
Proof.
  intros Hcode Hs Hr. unfold toPriority. case_match; [lia|].
  assert (0 <= msgPriority code <= 3) by (unfold msgPriority; repeat case_match; lia).
  rewrite !big_Uint64_small, !(u64_small (_ * _)), u64_small by (unfold two64; lia).
  rewrite float32_of_Z_exact by lia. done.
Qed.

(** Below block 16,777 and round 99 the backlog hands out the messages of a
    sender in the order of their sequence, then their round, then PRE-PREPARE
    before COMMIT before PREPARE. *)
Theorem toPriority_order code1 v1 code2 v2 :
  code1 ≠ msgRoundChange → code2 ≠ msgRoundChange →
  0 <= Sequence v1 < 16777 → 0 <= Round v1 <= 98 →
  0 <= Sequence v2 < 16777 → 0 <= Round v2 <= 98 →
  toPriority code2 v2 < toPriority code1 v1 ↔
  view_lt v1 v2 ∨ (v1 = v2 ∧ msgPriority code1 < msgPriority code2).
Proof.
  intros Hc1 Hc2 Hs1 Hr1 Hs2 Hr2. rewrite !toPriority_exact by done.
  assert (0 <= msgPriority code1 <= 3) by (unfold msgPriority; repeat case_match; lia).
  assert (0 <= msgPriority code2 <= 3) by (unfold msgPriority; repeat case_match; lia).
  destruct v1 as [r1 s1], v2 as [r2 s2]. unfold view_lt. simpl in *. split.
  - intros Hlt. destruct (decide (s1 = s2 ∧ r1 = r2)) as [[-> ->]|]; [right; split; [done|lia]|left; lia].
  - intros [Hv|[[= -> ->] Hp]]; lia.
Qed.

(** From there on the conversion to [float32] merges priorities: at block
    2{^24} the messages of one view are not ordered any more, nor are those of
    two consecutive rounds. *)
Theorem toPriority_collision :
  let v r := MkView r (2 ^ 24) in
  toPriority msgPreprepare (v 0) = toPriority msgCommit (v 0) ∧
  toPriority msgCommit (v 0) = toPriority msgPrepare (v 0) ∧
  toPriority msgPrepare (v 0) = toPriority msgPreprepare (v 1).
Proof. vm_compute. done. Qed.

(** ** The round timer *)

(** For the first 33 rounds the timer of a round is what it is meant to be: the
    request timeout in round 0, and afterwards the request timeout plus
    2{^round} seconds, at most [MaxTimeout] seconds. *)
Theorem roundTimeout_schedule `{!GoArch} cfg round :
  0 <= RequestTimeout cfg < 2 ^ 39 → 0 <= MaxTimeout cfg < 2 ^ 33 → 0 <= round <= 32 →
  roundTimeout cfg round =
    if round =? 0 then RequestTimeout cfg * Millisecond
    else Z.min (MaxTimeout cfg * Second) (RequestTimeout cfg * Millisecond + 2 ^ round * Second).
Proof.
  intros Hreq Hmax Hround. unfold roundTimeout, pow2_Duration, Millisecond, Second.
  assert (0 < 2 ^ round <= 2 ^ 32) by (split; [lia|apply Z.pow_le_mono_r; lia]).
  destruct (Z.ltb_spec round 63) as [_|?]; [|lia].
  rewrite (i64_small (RequestTimeout cfg)), (i64_small (MaxTimeout cfg)) by (unfold two63; lia).
  rewrite !(i64_small (_ * _)) by (unfold two63; lia).
  repeat case_match; rewrite ?i64_small in * by (unfold two63; lia); lia.
Qed.

(** In round 34 the nanoseconds no longer fit: the sum wraps around and the
    timer is armed with a negative duration, whatever the request timeout; so
    it fires at once. *)
Theorem roundTimeout_wraps `{!GoArch} cfg :
  0 <= RequestTimeout cfg < 2 ^ 39 → 0 <= MaxTimeout cfg < 2 ^ 33 →
  roundTimeout cfg 34 < 0.
Proof.
  intros Hreq Hmax. unfold roundTimeout, pow2_Duration, Millisecond, Second.
  rewrite (i64_small (RequestTimeout cfg)), (i64_small (MaxTimeout cfg)) by (unfold two63; lia).
  change (0 <? 34) with true. change (34 <? 63) with true. cbv iota zeta.
  change (i64 (2 ^ 34 * 1000000000)) with (-1266874889709551616).
  rewrite !(i64_small (_ * _)) by (unfold two63; lia).
  repeat case_match; rewrite ?i64_small in * by (unfold two63; lia); lia.
Qed.
