(* ===== verification/Instances.v ===== *)
(** * Concrete parameters for running the models

    The models are parametric in the code that is not in the repository: the
    hash and signature functions, the encoding of a block, the platform's
    conversion of large floats.  The instances below are the ones the concrete
    runs use.  They are simple on purpose: the "signature" of a node is its
    address padded to 65 bytes, the hash is a polynomial in the bytes
    modulo 2{^64}. *)

From Stdlib Require Import ZArith Lia.
From S2P Require Import Prelude Errors Rlp Fullnode Messages Core Prque.
Open Scope didux_scope.

Definition sample_sign (a : address) : bytes := be_fix 65 a.

#[export] Instance sample_crypto : Crypto := {
  Keccak256 b := foldl (λ acc x, Z.land (acc * 257 + byte_Z x) (2 ^ 64 - 1)) 1 b;
  SigToAddress _ sig := if (length sig =? 65)%nat then Some (be_val sig) else None
}.

(** What amd64 gives for a float64 that does not fit an int64. *)
#[export] Instance amd64 : GoArch := { f64_int64_overflow := - two63 }.

(** A block with its number and its hash. *)
Record sample_block := MkSampleBlock { sb_Number : Z; sb_Hash : hash }.

#[export] Instance sample_proposal : BlockProposal sample_block := {
  bp_Number := sb_Number;
  bp_Hash := sb_Hash;
  bp_EncodeRLP b := enc_struct [enc_big (sb_Number b); enc_array 32 (sb_Hash b)];
  bp_DecodeRLP i := match dec_struct i with
                    | Some [n; h] => match dec_big n, dec_array 32 h with
                                     | Some n, Some h => Some (MkSampleBlock n h)
                                     | _, _ => None
                                     end
                    | _ => None
                    end
}.
#[export] Instance sample_proposal_laws : BlockProposalLaws sample_block.
Proof.
  split. intros b i He. simpl in *. struct_fields He. cbn [dec_struct].
  by erewrite dec_enc_big, dec_enc_array by done; destruct b.
Qed.

(** Four fullnodes; the last is faulty. *)
Definition sample_nodes : list address := [1; 2; 3; 4].
Definition sample_set : fullnodeSet := newFullnodeSet sample_nodes 0.
Definition sample_head : sample_block := MkSampleBlock 4 1004.
Definition sample_next : sample_block := MkSampleBlock 5 1005.

(** The backend of node [a]: the chain ends at block 4. *)
Definition sample_backend (a : address) : Backend sample_block :=
  MkBackend _ a (λ _, sample_set) (λ _ _, None) (λ _, (0, None)) (λ _, inl (sample_sign a))
    (Some sample_head, 0) (λ _ _, false) (λ _, 0) (λ _, sample_set) (λ _, false).
Definition sample_config : Config := MkConfig 10000 60.
