(* ===== verification/CoreExamples.v ===== *)
(** * Runs of the consensus core

    Concrete inputs for the theorems on fullnode sets, messages, the core and
    the network: a round of four fullnodes, one of them silent, in which the
    three others commit the same block. *)

From Stdlib Require Import ZArith Lia.
From S2P Require Import Prelude Errors Rlp RlpStream Fullnode Messages Core Backlog CoreSafety Network CoreRun Prque Instances.
Open Scope didux_scope.

Lemma sample_nodup : NoDup (fs_fullnodes sample_set).
Proof. apply (bool_decide_unpack _). vm_compute. exact I. Qed.

(** ** A round of the network *)

Definition sample_faulty : gset address := {[4]}.
Definition sample_vals (n : Z) : fullnodeSet := sample_set.
Definition to_all (from : address) (k : nat) : list (action sample_block) :=
  [ADeliver 1 from k; ADeliver 2 from k; ADeliver 3 from k].
(** Node 1 is the speaker; PRE-PREPARE, then PREPARE and COMMIT of all three. *)
Definition sample_script : list (action sample_block) :=
  [AStart 1; AStart 2; AStart 3; ARequest 1 sample_next] ++ to_all 1 0
  ++ to_all 1 1 ++ to_all 2 0 ++ to_all 3 0
  ++ to_all 1 2 ++ to_all 2 1 ++ to_all 3 1.

Definition sample_run : option (gmap Z (core sample_block Prque)) :=
  script sample_faulty sample_backend sample_config ∅ sample_script.
Definition sample_net : gmap Z (core sample_block Prque) := default ∅ sample_run.
Definition sample_core (a : address) : core sample_block Prque :=
  default (New (sample_backend a) sample_config) (sample_net !! a).

Lemma default_is_Some {A} (d : A) o : is_Some o → o = Some (default d o).
Proof. by intros [x ->]. Qed.

Lemma sample_backend_ok a : backend_ok sample_vals (sample_backend a).
Proof. by exists sample_head. Qed.
Lemma sample_reachable : reachable sample_faulty sample_vals sample_net.
Proof.
  apply (script_reachable sample_faulty sample_vals sample_backend sample_config) with (xs := sample_script);
    [done|apply sample_backend_ok|].
  apply default_is_Some. apply is_Some_alt. vm_compute. exact I.
Qed.
Definition started (a : address) : bool := match sample_net !! a with Some _ => true | None => false end.
Lemma sample_lookup a : started a = true → sample_net !! a = Some (sample_core a).
Proof. unfold started, sample_core. destruct (sample_net !! a); [reflexivity|discriminate]. Qed.

(** The blocks a node has handed to its backend. *)
Definition commits (c : core sample_block Prque) : list (View * sample_block * list bytes * err) :=
  omap (λ o, match o with OCommit v b seals e => Some (v, b, seals, e) | _ => None end) (c_trace c).
Lemma commits_in c v b seals e : (v, b, seals, e) ∈ commits c → OCommit v b seals e ∈ c_trace c.
Proof. intros (o & Ho & Hb)%list_elem_of_omap. destruct o; by simplify_eq. Qed.

Definition sample_view : View := MkView 0 5.
Definition sample_seals : list bytes := sample_sign <$> [3; 2; 1].
Lemma sample_committed a : a = 1 ∨ a = 2 ∨ a = 3 →
  sample_net !! a = Some (sample_core a) ∧
  ∃ seals, OCommit sample_view sample_next seals None ∈ c_trace (sample_core a).
Proof.
  intros Ha. assert (started a = true ∧
    ∃ seals, commits (sample_core a) = [(sample_view, sample_next, seals, None)]) as (Hs & seals & Hc).
  { destruct Ha as [->|[->| ->]]; (split; [|eexists]; vm_compute; reflexivity). }
  split; [exact (sample_lookup a Hs)|]. exists seals. apply commits_in. rewrite Hc. by left.
Qed.

(** ** Agreement *)

Lemma agreement_in_view_witness : ∃ seals1 seals2,
  OCommit sample_view sample_next seals1 None ∈ c_trace (sample_core 1) ∧
  OCommit sample_view sample_next seals2 None ∈ c_trace (sample_core 2) ∧
  (bp_Hash sample_next = bp_Hash sample_next ∨
   ∃ a c, sample_net !! a = Some c ∧
          (asked (c_trace c) (bp_Hash sample_next) ∨ asked (c_trace c) (bp_Hash sample_next))).
Proof.
  destruct (sample_committed 1 (or_introl eq_refl)) as [Hl1 [seals1 Ho1]].
  destruct (sample_committed 2 (or_intror (or_introl eq_refl))) as [Hl2 [seals2 Ho2]].
  exists seals1, seals2. split; [exact Ho1|]. split; [exact Ho2|].
  apply (agreement_in_view sample_faulty sample_vals sample_net 1 (sample_core 1) 2 (sample_core 2)
           sample_view sample_next sample_next seals1 seals2 None None).
  - exact sample_reachable.
  - exact sample_nodup.
  - vm_compute. reflexivity.
  - exact Hl1.
  - exact Ho1.
  - exact Hl2.
  - exact Ho2.
Defined.

Lemma committed_has_quorum_witness : ∃ log seals, history sample_faulty sample_vals log sample_net ∧
  backed (accepted sample_faulty log sample_net 3) sample_vals sample_view (bp_Hash sample_next) seals.
Proof.
  destruct (sample_committed 3 (or_intror (or_intror eq_refl))) as [Hl [seals Ho]].
  destruct (proj1 (history_reachable sample_faulty sample_vals sample_net) sample_reachable) as [log Hlog].
  exists log, seals. split; [exact Hlog|].
  exact (committed_has_quorum sample_faulty sample_vals log sample_net 3 (sample_core 3) sample_view sample_next
           seals None Hlog Hl Ho).
Defined.

(** ** The event loop *)

(** The messages a node is given in the run: any. *)
Definition any_message (m : message) : Prop := True.
Definition sample_events : list (Backend sample_block * event sample_block) :=
  [(sample_backend 1, RequestEvent (Some sample_next)); (sample_backend 1, MessageEvent [x01; x02]);
   (sample_backend 1, timeoutEvent)].

Lemma core_run_safe_witness : ∃ c1 c2 r1 r2 : _,
  run (Q:=Prque) (sample_backend 1) sample_config [(sample_backend 1, RequestEvent (Some sample_next))] = Some ((), c1) ∧
  run (Q:=Prque) (sample_backend 1) sample_config sample_events = Some ((), c2) ∧
  c_current c1 = Some r1 ∧ c_current c2 = Some r2 ∧ view_le (view_of r1) (view_of r2).
Proof.
  destruct (core_run_safe (Q:=Prque) any_message sample_vals (sample_backend 1) sample_config
              [(sample_backend 1, RequestEvent (Some sample_next))]
              [(sample_backend 1, MessageEvent [x01; x02]); (sample_backend 1, timeoutEvent)])
    as (c1 & c2 & r1 & r2 & Hc1 & Hc2 & _ & _ & Hr1 & Hr2 & Hv).
  - exact (sample_backend_ok 1).
  - apply Forall_singleton. split; [exact (sample_backend_ok 1)|by eexists].
  - apply Forall_cons. split; [split; [exact (sample_backend_ok 1)|done]|].
    apply Forall_singleton. split; [exact (sample_backend_ok 1)|done].
  - exists c1, c2, r1, r2. exact (conj Hc1 (conj Hc2 (conj Hr1 (conj Hr2 Hv)))).
Defined.

(** Node 2 has a COMMIT of node 1 for the next height in its backlog. *)
Definition sample_future : message :=
  mk_message msgCommit (default [] (Encode_Subject (MkSubject (MkView 0 6) 1006))).
Definition sample_backlog : core sample_block Prque :=
  set_backlogs {[1 := pq_Push pq_New sample_future (toPriority msgCommit (MkView 0 6))]} (sample_core 2).

Lemma processBacklog_partition_witness : ∃ r bl' evs,
  c_current sample_backlog = Some r ∧
  processBacklog sample_backlog =
    Some ((), add_trace (reverse (OPost <$> evs)) (set_backlogs bl' sample_backlog)) ∧
  backlog_processed sample_backlog sample_set (c_backlogs sample_backlog) bl' evs.
Proof.
  assert (∃ r, c_current sample_backlog = Some r) as [r Hr] by (eexists; vm_compute; reflexivity).
  destruct (processBacklog_partition sample_backlog r sample_set Hr) as (bl' & evs & Hrun & Hp).
  - vm_compute. reflexivity.
  - exists r, bl', evs. exact (conj Hr (conj Hrun Hp)).
Defined.

(** A single node that timed out waits for a round change. *)
Definition lone_set : fullnodeSet := newFullnodeSet [1] 0.
Definition lone_backend : Backend sample_block :=
  MkBackend _ 1 (λ _, lone_set) (λ _ _, None) (λ _, (0, None)) (λ _, inl (sample_sign 1))
    (Some sample_head, 0) (λ _ _, false) (λ _, 0) (λ _, lone_set) (λ _, false).
Definition lone_core : core sample_block Prque :=
  match run lone_backend sample_config [(lone_backend, timeoutEvent)] with
  | Some (_, c) => c
  | None => New lone_backend sample_config
  end.
(** Its own ROUND CHANGE message. *)
Definition lone_roundchange : message :=
  match broadcasts lone_core with
  | p :: _ => default (mk_message 0 []) (message_of_bytes p)
  | [] => mk_message 0 []
  end.

Lemma waiting_node_stuck_witness :
  ∃ c', handleRoundChange lone_backend lone_roundchange 1 lone_core = Some (None, c') ∧ c_waiting c' = true.
Proof.
  pose proof (waiting_node_stuck lone_backend lone_core lone_set lone_roundchange 1) as Hstuck.
  assert (∃ c', handleRoundChange lone_backend lone_roundchange 1 lone_core = Some (None, c')) as [c' Hc'].
  { destruct (handleRoundChange lone_backend lone_roundchange 1 lone_core) as [[e c']|] eqn:He.
    - exists c'. assert (fst <$> handleRoundChange lone_backend lone_roundchange 1 lone_core = Some None) as Hfst
        by (vm_compute; reflexivity).
      rewrite He in Hfst. by injection Hfst as ->.
    - assert (match handleRoundChange lone_backend lone_roundchange 1 lone_core with
              | Some _ => true | None => false end = true) as Hsome by (vm_compute; reflexivity).
      by rewrite He in Hsome. }
  exists c'. split; [exact Hc'|]. rewrite Hc' in Hstuck. apply Hstuck.
  - vm_compute. reflexivity.
  - left. vm_compute. reflexivity.
  - vm_compute. reflexivity.
Defined.

Lemma toPriority_order_witness :
  toPriority msgPreprepare (MkView 1 7) < toPriority msgCommit (MkView 0 7) ∧
  (view_lt (MkView 0 7) (MkView 1 7) ∨
   (MkView 0 7 = MkView 1 7 ∧ msgPriority msgCommit < msgPriority msgPreprepare)).
Proof.
  assert (toPriority msgPreprepare (MkView 1 7) < toPriority msgCommit (MkView 0 7)) as Hlt
    by (vm_compute; reflexivity).
  split; [exact Hlt|]. apply (toPriority_order msgCommit (MkView 0 7) msgPreprepare (MkView 1 7));
    first [exact Hlt|discriminate|simpl; lia].
Defined.

Lemma roundTimeout_schedule_witness :
  roundTimeout (MkConfig 10000 60) 5 = Z.min (60 * Second) (10000 * Millisecond + 2 ^ 5 * Second).
Proof. apply (roundTimeout_schedule (MkConfig 10000 60) 5); simpl; lia. Defined.
Lemma roundTimeout_wraps_witness : roundTimeout (MkConfig 10000 60) 34 < 0.
Proof. apply (roundTimeout_wraps (MkConfig 10000 60)); simpl; lia. Defined.

(** ** Fullnode sets *)

Lemma newFullnodeSet_order_independent_witness :
  newFullnodeSet [3; 1; 2] 0 = newFullnodeSet [1; 2; 3] 0.
Proof. apply (newFullnodeSet_order_independent [3; 1; 2] [1; 2; 3] 0). solve_Permutation. Defined.

Lemma sample_set_wf : fs_wf sample_set.
Proof. apply newFullnodeSet_wf. apply (bool_decide_unpack _). vm_compute. exact I. Qed.
Lemma RemoveFullnode_AddFullnode_witness : RemoveFullnode (AddFullnode sample_set 9).2 9 = (true, sample_set).
Proof.
  apply (RemoveFullnode_AddFullnode sample_set 9); [exact sample_set_wf|].
  apply (bool_decide_unpack _). vm_compute. exact I.
Defined.

Lemma quorum_intersection_witness :
  ∃ a, a ∈ ({[1; 2; 3]} : gset Z) ∧ a ∈ ({[2; 3; 4]} : gset Z) ∧ a ∉ ({[2]} : gset Z).
Proof.
  apply (quorum_intersection sample_set).
  - exact sample_nodup.
  - apply (bool_decide_unpack _). vm_compute. exact I.
  - apply (bool_decide_unpack _). vm_compute. exact I.
  - vm_compute. discriminate.
  - vm_compute. discriminate.
  - vm_compute. reflexivity.
Defined.

Lemma thresholds_reachable_witness :
  MinApprovers sample_set <= Size sample_set - MaxFaulty sample_set ∧
  MaxFaulty sample_set + E sample_set <= Size sample_set.
Proof. apply (thresholds_reachable sample_set). vm_compute. reflexivity. Defined.
Lemma MaxFaulty_tolerated_iff_witness :
  MaxFaulty sample_set < 2 * MinApprovers sample_set - Size sample_set ↔ Size sample_set mod 3 ≠ 0.
Proof. apply (MaxFaulty_tolerated_iff sample_set). vm_compute. reflexivity. Defined.
Lemma thresholds_collide_iff_witness :
  MaxFaulty lone_set + E lone_set = MinApprovers lone_set ↔ Size lone_set = 1 ∨ Size lone_set = 3.
Proof. apply (thresholds_collide_iff lone_set). vm_compute. reflexivity. Defined.
Lemma thresholds_float64_exact_witness :
  MaxFaulty sample_set = MaxFaulty_float64 (Size sample_set) ∧
  MinApprovers sample_set = MinApprovers_float64 (Size sample_set).
Proof. apply (thresholds_float64_exact sample_set). vm_compute. discriminate. Defined.
Lemma speaker_rotation_witness :
  ∃ r, 7 <= r < 7 + Size sample_set ∧ fs_speaker (CalcSpeaker sample_set 1 r) = Some 3 ∧
    ∀ r', 7 <= r' < 7 + Size sample_set → fs_speaker (CalcSpeaker sample_set 1 r') = Some 3 → r' = r.
Proof.
  apply (speaker_rotation sample_set 1 7 3).
  - exact sample_nodup.
  - apply (bool_decide_unpack _). vm_compute. exact I.
  - lia.
  - vm_compute. reflexivity.
Defined.

(** ** Messages and their encoding *)

Definition sample_item : item := Lst [Str [x83; x01]; Lst []; Str []; Str [x7f]].
Lemma rlp_roundtrip_witness : ∃ b, EncodeToBytes sample_item = Some b ∧ DecodeBytes b = Some sample_item ∧ StreamDecodeBytes b = Some (inl sample_item).
Proof.
  assert (∃ b, EncodeToBytes sample_item = Some b) as [b Hb] by (eexists; vm_compute; reflexivity).
  exists b. split; [exact Hb|]. exact (rlp_roundtrip sample_item b Hb).
Defined.
Lemma DecodeBytes_canonical_witness : encode (Lst [Str [x01]; Str [x80]]) = [xc3; x01; x81; x80].
Proof. apply (DecodeBytes_canonical [xc3; x01; x81; x80]). right. split; vm_compute; reflexivity. Defined.

(** A PREPARE that names fullnode 2 as its sender, with the signature of fullnode 1. *)
Definition forged : message :=
  MkMessage msgPrepare (default [] (Encode_Subject (MkSubject sample_view 1005))) 2 (sample_sign 1) [].

Lemma message_wire_roundtrip_witness : ∃ b,
  Payload forged = Some b ∧ FromPayload b (Some (λ _ _, inl 1)) = (Some forged, None).
Proof.
  assert (∃ b, Payload forged = Some b) as [b Hb] by (eexists; vm_compute; reflexivity).
  assert (∃ n, PayloadNoSig forged = Some n) as [n Hn] by (eexists; vm_compute; reflexivity).
  exists b. split; [exact Hb|]. exact (message_wire_roundtrip forged b n (λ _ _, inl 1) 1 Hb Hn eq_refl).
Defined.

Lemma forged_payload : ∃ b n, Payload forged = Some b ∧ PayloadNoSig forged = Some n ∧
  SigToAddress (Keccak256 n) (Signature forged) = Some 1 ∧ 1 ∈ fs_fullnodes sample_set.
Proof.
  eexists _, _. split_and!; [vm_compute; reflexivity..|]. apply (bool_decide_unpack _). vm_compute. exact I.
Qed.
Lemma FromPayload_sender_unchecked_witness : ∃ b,
  msg_Address forged = 2 ∧ FromPayload b (Some (CheckFullnodeSignature sample_set)) = (Some forged, None).
Proof.
  destruct forged_payload as (b & n & Hb & Hn & Hs & Hin). exists b. split; [reflexivity|].
  exact (FromPayload_sender_unchecked sample_set forged b n 1 Hb Hn Hs Hin).
Defined.
Lemma FromPayload_signed_by_fullnode_witness : ∃ signer nosig,
  PayloadNoSig forged = Some nosig ∧
  SigToAddress (Keccak256 nosig) (Signature forged) = Some signer ∧ signer ∈ fs_fullnodes sample_set.
Proof.
  apply (FromPayload_signed_by_fullnode sample_set (default [] (Payload forged)) forged). vm_compute. reflexivity.
Defined.
