(* ===== verification/Header.v ===== *)
(** * Block headers and the SPoRT extra-data: core/types/smilo.go, block.go and
    the seal functions of consensus/sport/backend/backend_engine_sport.go

    A header carries its seals in [Extra]: 32 bytes of vanity, then the RLP of
    the fullnodes, the speaker's seal and the committed seals.  The hash of a
    header leaves the committed seals out, the hash the speaker signs leaves
    both kinds of seal out; the theorems show that writing a seal changes
    neither what it signs nor, for committed seals, the hash of the block. *)

From Stdlib Require Import ZArith Lia.
From S2P Require Import Prelude Errors Rlp Fullnode Messages Core.
Open Scope didux_scope.

Record Header := MkHeader {
  h_ParentHash : hash; h_UncleHash : hash; h_Coinbase : address; h_Root : hash;
  h_TxHash : hash; h_ReceiptHash : hash; h_Bloom : Z;
  h_Difficulty : option Z; h_Number : option Z;
  h_GasLimit : Z; h_GasUsed : Z; h_Time : Z;
  h_Extra : bytes; h_MixDigest : hash; h_Nonce : Z
}.

#[export] Instance Header_eq_dec : EqDecision Header.
Proof. solve_decision. Defined.

Definition set_Extra (h : Header) (extra : bytes) : Header :=
  MkHeader (h_ParentHash h) (h_UncleHash h) (h_Coinbase h) (h_Root h) (h_TxHash h)
    (h_ReceiptHash h) (h_Bloom h) (h_Difficulty h) (h_Number h) (h_GasLimit h) (h_GasUsed h)
    (h_Time h) extra (h_MixDigest h) (h_Nonce h).

(** A nil [big.Int] is encoded as zero, and copied as zero. *)
Definition big_or_zero (z : option Z) : Z := match z with Some z => z | None => 0 end.

Definition CopyHeader (h : Header) : Header :=
  MkHeader (h_ParentHash h) (h_UncleHash h) (h_Coinbase h) (h_Root h) (h_TxHash h)
    (h_ReceiptHash h) (h_Bloom h) (Some (big_or_zero (h_Difficulty h)))
    (Some (big_or_zero (h_Number h))) (h_GasLimit h) (h_GasUsed h)
    (h_Time h) (h_Extra h) (h_MixDigest h) (h_Nonce h).

Definition Header_EncodeRLP (h : Header) : option item :=
  enc_struct [enc_array 32 (h_ParentHash h); enc_array 32 (h_UncleHash h);
    enc_array 20 (h_Coinbase h); enc_array 32 (h_Root h); enc_array 32 (h_TxHash h);
    enc_array 32 (h_ReceiptHash h); enc_array 256 (h_Bloom h);
    enc_big (big_or_zero (h_Difficulty h)); enc_big (big_or_zero (h_Number h));
    enc_uint64 (h_GasLimit h); enc_uint64 (h_GasUsed h); enc_uint64 (h_Time h);
    enc_bytes (h_Extra h); enc_array 32 (h_MixDigest h); enc_array 8 (h_Nonce h)].

(** ** SportExtra *)

Definition SportDigest : hash :=
  0x636861696e20706c6174666f726d2077697468206120636f6e736369656e6365.
Definition SportExtraVanity : nat := 32.

Record SportExtra := MkSportExtra {
  ex_Fullnodes : list address;
  ex_Seal : bytes;
  ex_CommittedSeal : list bytes
}.

Definition enc_slice {A} (enc : A → option item) (l : list A) : option item := enc_struct (enc <$> l).
Definition dec_slice {A} (dec : item → option A) (i : item) : option (list A) :=
  match dec_struct i with Some l => mapM dec l | None => None end.

Definition SportExtra_EncodeRLP (e : SportExtra) : option item :=
  enc_struct [enc_slice (enc_array 20) (ex_Fullnodes e); enc_bytes (ex_Seal e);
              enc_slice enc_bytes (ex_CommittedSeal e)].
Definition SportExtra_DecodeRLP (i : item) : option SportExtra :=
  match dec_struct i with
  | Some [f; s; c] =>
      match dec_slice (dec_array 20) f, dec_bytes s, dec_slice dec_bytes c with
      | Some f, Some s, Some c => Some (MkSportExtra f s c)
      | _, _, _ => None
      end
  | _ => None
  end.

Definition ExtractSportExtra (h : Header) : result SportExtra :=
  if (length (h_Extra h) <? SportExtraVanity)%nat then inr ErrInvalidSportHeaderExtra else
  match DecodeBytes (drop SportExtraVanity (h_Extra h)) with
  | Some i => match SportExtra_DecodeRLP i with Some e => inl e | None => inr errRlp end
  | None => inr errRlp
  end.

(** [rlp.EncodeToBytes(&sportExtra)]. *)
Definition SportExtra_bytes (e : SportExtra) : option bytes :=
  match SportExtra_EncodeRLP e with Some i => EncodeToBytes i | None => None end.

(** [append(h.Extra[:SportExtraVanity], payload...)]. *)
Definition with_payload (h : Header) (payload : bytes) : Header :=
  set_Extra h (take SportExtraVanity (h_Extra h) ++ payload).

Definition SportFilteredHeader (h : Header) (keepSeal : bool) : option Header :=
  let newHeader := CopyHeader h in
  match ExtractSportExtra newHeader with
  | inr _ => None
  | inl e =>
      let seal := if keepSeal then ex_Seal e else [] in
      match SportExtra_bytes (MkSportExtra (ex_Fullnodes e) seal []) with
      | None => None
      | Some payload => Some (with_payload newHeader payload)
      end
  end.

Section hashing.
Context `{Crypto}.

(** [rlpHash] drops the error of the encoder: nothing is written to the hasher. *)
Definition rlpHash (i : option item) : hash :=
  Keccak256 match i with
            | Some i => match EncodeToBytes i with Some b => b | None => [] end
            | None => []
            end.

Definition Header_Hash (h : Header) : hash :=
  if h_MixDigest h =? SportDigest then
    match SportFilteredHeader h true with
    | Some sportHeader => rlpHash (Header_EncodeRLP sportHeader)
    | None => rlpHash (Header_EncodeRLP h)
    end
  else rlpHash (Header_EncodeRLP h).

(** A nil header is encoded as an empty list. *)
Definition sigHash (h : Header) : hash :=
  match SportFilteredHeader h false with
  | Some sportHeader => rlpHash (Header_EncodeRLP sportHeader)
  | None => rlpHash (Some (Lst []))
  end.

(** [ecrecover] without its cache of recent addresses, and with it.  The cache
    (an ARC cache of 20 entries) may forget; it is a map here, and [forget]
    what the cache does on insertion. *)
Definition ecrecover (h : Header) : result address :=
  match ExtractSportExtra h with
  | inr e => inr e
  | inl extra => GetSignatureAddress (be_fix 32 (sigHash h)) (ex_Seal extra)
  end.

Definition ecrecover_cached (forget : gmap Z address → gmap Z address)
    (recentAddresses : gmap Z address) (h : Header) : gmap Z address * result address :=
  match recentAddresses !! Header_Hash h with
  | Some addr => (recentAddresses, inl addr)
  | None =>
      match ecrecover h with
      | inl addr => (forget (<[Header_Hash h := addr]> recentAddresses), inl addr)
      | inr e => (recentAddresses, inr e)
      end
  end.
End hashing.

(** ** Writing the extra-data *)

Definition prepareExtra (h : Header) (vals : list address) : Header * result bytes :=
  let h := if (length (h_Extra h) <? SportExtraVanity)%nat
           then set_Extra h (h_Extra h ++ replicate (SportExtraVanity - length (h_Extra h)) x00)
           else h in
  match SportExtra_bytes (MkSportExtra vals [] []) with
  | None => (h, inr errRlp)
  | Some payload => (h, inl (take SportExtraVanity (h_Extra h) ++ payload))
  end.

Definition writeSeal (h : Header) (seal : bytes) : result Header :=
  if negb (Nat.modulo (length seal) SportExtraSeal =? 0)%nat then inr errInvalidSignature else
  match ExtractSportExtra h with
  | inr e => inr e
  | inl e =>
      match SportExtra_bytes (MkSportExtra (ex_Fullnodes e) seal (ex_CommittedSeal e)) with
      | None => inr errRlp
      | Some payload => inl (with_payload h payload)
      end
  end.

Definition writeCommittedSeals (h : Header) (committedSeals : list bytes) : result Header :=
  if (length committedSeals =? 0)%nat then inr errInvalidCommittedSeals else
  if negb (forallb (λ seal, length seal =? SportExtraSeal)%nat committedSeals)
  then inr errInvalidCommittedSeals else
  match ExtractSportExtra h with
  | inr e => inr e
  | inl e =>
      match SportExtra_bytes (MkSportExtra (ex_Fullnodes e) (ex_Seal e) committedSeals) with
      | None => inr errRlp
      | Some payload => inl (with_payload h payload)
      end
  end.

(** ** Round trips *)

Lemma dec_enc_slice {A} (enc : A → option item) (dec : item → option A) l i :
  (∀ a j, enc a = Some j → dec j = Some a) → enc_slice enc l = Some i → dec_slice dec i = Some l.
Proof.
  intros Hdec (js & -> & Hf)%enc_struct_Some. unfold dec_slice. simpl. apply mapM_Some.
  apply Forall2_fmap_l in Hf. apply Forall2_flip. eapply Forall2_impl; [exact Hf|]. eauto.
Qed.

Lemma SportExtra_roundtrip e i : SportExtra_EncodeRLP e = Some i → SportExtra_DecodeRLP i = Some e.
Proof.
  unfold SportExtra_EncodeRLP, SportExtra_DecodeRLP. intros He. struct_fields He. cbn [dec_struct].
  erewrite (dec_enc_slice (enc_array 20)), dec_enc_bytes, (dec_enc_slice enc_bytes)
    by eauto using dec_enc_array, dec_enc_bytes. by destruct e.
Qed.

Lemma take_with_payload h payload : (SportExtraVanity <= length (h_Extra h))%nat →
  take SportExtraVanity (h_Extra (with_payload h payload)) = take SportExtraVanity (h_Extra h) ∧
  drop SportExtraVanity (h_Extra (with_payload h payload)) = payload.
Proof.
  intros Hl. simpl. split.
  - rewrite take_app_le by (rewrite length_take; lia). by rewrite take_take, Nat.min_id.
  - rewrite drop_app_ge by (rewrite length_take; lia).
    by rewrite length_take, Nat.min_l, Nat.sub_diag by lia.
Qed.

Lemma Extract_with_payload h e payload : (SportExtraVanity <= length (h_Extra h))%nat →
  SportExtra_bytes e = Some payload → ExtractSportExtra (with_payload h payload) = inl e.
Proof.
  intros Hl Hp. unfold ExtractSportExtra. destruct (take_with_payload h payload Hl) as [_ Hd].
  rewrite Hd. rewrite (proj2 (Nat.ltb_ge _ _)) by (simpl; rewrite length_app, length_take; lia).
  unfold SportExtra_bytes in Hp. destruct (SportExtra_EncodeRLP e) as [i|] eqn:He; [|done].
  rewrite (DecodeBytes_EncodeToBytes _ _ Hp). by rewrite (SportExtra_roundtrip _ _ He).
Qed.

Lemma Extract_length h e : ExtractSportExtra h = inl e → (SportExtraVanity <= length (h_Extra h))%nat.
Proof. unfold ExtractSportExtra. destruct (Nat.ltb_spec (length (h_Extra h)) SportExtraVanity); done. Qed.

Lemma CopyHeader_Extract h : ExtractSportExtra (CopyHeader h) = ExtractSportExtra h.
Proof. done. Qed.
Lemma CopyHeader_with_payload h p : CopyHeader (with_payload h p) = with_payload (CopyHeader h) p.
Proof. done. Qed.
Lemma with_payload_twice h p p' : (SportExtraVanity <= length (h_Extra h))%nat →
  with_payload (with_payload h p) p' = with_payload h p'.
Proof.
  intros Hl. unfold with_payload at 1. destruct (take_with_payload h p Hl) as [-> _]. done.
Qed.

(** Rewriting the payload so that the kept part of the extra-data is the same
    leaves the filtered header alone. *)
Lemma SportFilteredHeader_with_payload h e e' payload keepSeal :
  ExtractSportExtra h = inl e → SportExtra_bytes e' = Some payload →
  ex_Fullnodes e' = ex_Fullnodes e → (keepSeal = true → ex_Seal e' = ex_Seal e) →
  SportFilteredHeader (with_payload h payload) keepSeal = SportFilteredHeader h keepSeal.
Proof.
  intros He Hp Hf Hs. pose proof (Extract_length _ _ He) as Hl. unfold SportFilteredHeader.
  rewrite CopyHeader_Extract, (Extract_with_payload h e' payload Hl Hp), CopyHeader_Extract, He, Hf.
  replace (if keepSeal then ex_Seal e' else []) with (if keepSeal then ex_Seal e else [])
    by (destruct keepSeal; [by rewrite Hs|done]).
  destruct (SportExtra_bytes (MkSportExtra _ _ [])); [|done].
  f_equal. by apply (with_payload_twice (CopyHeader h)).
Qed.

Lemma writeSeal_inv h seal h' : writeSeal h seal = inl h' →
  ∃ e payload, ExtractSportExtra h = inl e ∧
    SportExtra_bytes (MkSportExtra (ex_Fullnodes e) seal (ex_CommittedSeal e)) = Some payload ∧
    h' = with_payload h payload.
Proof.
  unfold writeSeal. case_match; [done|]. destruct (ExtractSportExtra h) as [e|]; [|done].
  destruct (SportExtra_bytes _) eqn:Hb; [|done]. intros; simplify_eq. eauto.
Qed.

Lemma writeCommittedSeals_inv h seals h' : writeCommittedSeals h seals = inl h' →
  seals ≠ [] ∧ Forall (λ seal, length seal = SportExtraSeal) seals ∧
  ∃ e payload, ExtractSportExtra h = inl e ∧
    SportExtra_bytes (MkSportExtra (ex_Fullnodes e) (ex_Seal e) seals) = Some payload ∧
    h' = with_payload h payload.
Proof.
  unfold writeCommittedSeals. destruct (Nat.eqb_spec (length seals) 0) as [|Hne]; [done|].
  destruct (forallb _ _) eqn:Hall; [|done]. simpl.
  destruct (ExtractSportExtra h) as [e|]; [|done].
  destruct (SportExtra_bytes _) eqn:Hb; [|done]. intros; simplify_eq. split_and!; [by intros ->| |by eauto].
  apply Forall_forall. intros s Hs. rewrite forallb_forall in Hall.
  apply Nat.eqb_eq, Hall. by apply list_elem_of_In.
Qed.

(** ** Dropping the committed seals keeps an extra-data encodable *)

Lemma intsize_mono a b : a <= b → (intsize a <= intsize b)%nat.
Proof.
  intros. unfold intsize. destruct (Z.leb_spec a 0), (Z.leb_spec b 0); try lia.
  pose proof (Z.log2_le_mono a b ltac:(lia)). pose proof (Z.log2_nonneg a).
  pose proof (Z.div_le_mono (Z.log2 a) (Z.log2 b) 8 ltac:(lia) ltac:(lia)).
  pose proof (Z.div_pos (Z.log2 a) 8 ltac:(lia) ltac:(lia)). lia.
Qed.
Lemma puthead_mono lo hi a b : a <= b → blen (puthead lo hi a) <= blen (puthead lo hi b).
Proof.
  intros. unfold puthead. destruct (Z.ltb_spec a 56), (Z.ltb_spec b 56); try lia;
    rewrite ?blen_cons; unfold blen, putint; rewrite ?length_be_fix; simpl; try lia.
  pose proof (intsize_mono a b ltac:(lia)). lia.
Qed.
Lemma encode_Lst_mono l l' : blen (encode_list l) <= blen (encode_list l') →
  blen (encode (Lst l)) <= blen (encode (Lst l')).
Proof.
  intros Hle. unfold encode_list in Hle. simpl. rewrite !blen_app.
  pose proof (puthead_mono 192 247 _ _ Hle). lia.
Qed.

Lemma SportExtra_bytes_nil f s c payload : SportExtra_bytes (MkSportExtra f s c) = Some payload →
  is_Some (SportExtra_bytes (MkSportExtra f s [])).
Proof.
  unfold SportExtra_bytes, SportExtra_EncodeRLP. cbn [ex_Fullnodes ex_Seal ex_CommittedSeal].
  destruct (enc_struct _) as [i|] eqn:He; [|done]. unfold EncodeToBytes.
  destruct (Z.ltb_spec (blen (encode i)) two63) as [Hlt|]; [intros _|done].
  apply enc_struct_Some in He as (l & -> & Hf).
  apply Forall2_cons_inv_l in Hf as (i1 & l1 & H1 & Hf & ->).
  apply Forall2_cons_inv_l in Hf as (i2 & l2 & H2 & Hf & ->).
  apply Forall2_cons_inv_l in Hf as (i3 & l3 & H3 & Hf & ->). apply Forall2_nil_inv_l in Hf as ->.
  assert (enc_struct [enc_slice (enc_array 20) f; enc_bytes s; enc_slice enc_bytes []]
          = Some (Lst [i1; i2; Lst []])) as -> by (unfold enc_bytes in H2; simplify_eq; unfold enc_struct; simpl; by rewrite H1).
  rewrite (proj2 (Z.ltb_lt _ _)); [eauto|]. eapply Z.le_lt_trans; [|exact Hlt].
  apply encode_Lst_mono. unfold encode_list. cbn [map concat]. rewrite !blen_app.
  pose proof (encode_nonempty i3). change (blen (encode (Lst []))) with 1.
  assert (1 <= blen (encode i3)) by (unfold blen; lia). lia.
Qed.

Section seals.
Context `{Crypto}.

Lemma sigHash_with_payload h e e' payload : ExtractSportExtra h = inl e →
  SportExtra_bytes e' = Some payload → ex_Fullnodes e' = ex_Fullnodes e →
  sigHash (with_payload h payload) = sigHash h.
Proof.
  intros. unfold sigHash. by rewrite (SportFilteredHeader_with_payload h e e') by done.
Qed.

Lemma committed_seals_hash h seals h' :
  writeCommittedSeals h seals = inl h' → h_MixDigest h = SportDigest →
  Header_Hash h' = Header_Hash h ∧ sigHash h' = sigHash h ∧
  ∃ e, ExtractSportExtra h = inl e ∧
       ExtractSportExtra h' = inl (MkSportExtra (ex_Fullnodes e) (ex_Seal e) seals).
Proof.
  intros (_ & _ & e & payload & He & Hp & ->)%writeCommittedSeals_inv Hmix.
  pose proof (Extract_length _ _ He) as Hl. split_and!.
  - unfold Header_Hash. rewrite (SportFilteredHeader_with_payload h e _ payload true He Hp) by done.
    simpl. rewrite Hmix, Z.eqb_refl. unfold SportFilteredHeader. rewrite CopyHeader_Extract, He.
    destruct (SportExtra_bytes (MkSportExtra _ _ [])) eqn:Hn; [done|].
    by apply SportExtra_bytes_nil in Hp as [? ?]; simplify_eq.
  - by eapply sigHash_with_payload.
  - exists e. split; [done|]. by apply Extract_with_payload.
Qed.

(** The committed seals are not part of the hash of a block: the block that is
    stored with them has the hash the COMMIT messages were about, and the
    speaker's signature still covers it. *)
Theorem writeCommittedSeals_hash h seals h' :
  writeCommittedSeals h seals = inl h' → h_MixDigest h = SportDigest →
  Header_Hash h' = Header_Hash h ∧ sigHash h' = sigHash h ∧
  ∃ e, ExtractSportExtra h = inl e ∧
       ExtractSportExtra h' = inl (MkSportExtra (ex_Fullnodes e) (ex_Seal e) seals).
Proof. apply committed_seals_hash. Qed.

(** ** What the hash of a header binds *)

Definition Header_bytes (h : Header) : option bytes :=
  match Header_EncodeRLP h with Some i => EncodeToBytes i | None => None end.

(** A header the SPoRT rules apply to, with fields in the range of their types. *)
Record sport_header (h : Header) (e : SportExtra) (f : Header) (b : bytes) : Prop := {
  sh_digest : h_MixDigest h = SportDigest;
  sh_extra : ExtractSportExtra h = inl e;
  sh_filtered : SportFilteredHeader h true = Some f;
  sh_bytes : Header_bytes f = Some b
}.

Lemma sport_header_hash h e f b : sport_header h e f b → Header_Hash h = Keccak256 b.
Proof.
  intros [Hd He Hf Hb]. unfold Header_Hash. rewrite Hd, Z.eqb_refl, Hf. unfold rlpHash.
  unfold Header_bytes in Hb. destruct (Header_EncodeRLP f); [|done]. by rewrite Hb.
Qed.

Lemma enc_inj {A} (enc : A → option item) (dec : item → option A) a a' i :
  (∀ a j, enc a = Some j → dec j = Some a) → enc a = Some i → enc a' = Some i → a = a'.
Proof. intros Hd Ha%Hd Ha'%Hd. congruence. Qed.

Lemma Header_bytes_inj h h' b : Header_bytes h = Some b → Header_bytes h' = Some b →
  CopyHeader h = CopyHeader h'.
Proof.
  unfold Header_bytes. destruct (Header_EncodeRLP h) as [i|] eqn:Hi; [|done].
  destruct (Header_EncodeRLP h') as [i'|] eqn:Hi'; [|done].
  intros Hb%DecodeBytes_EncodeToBytes Hb'%DecodeBytes_EncodeToBytes. assert (i' = i) as -> by congruence.
  unfold Header_EncodeRLP in *. apply enc_struct_Some in Hi as (l & -> & Hf).
  apply enc_struct_Some in Hi' as (l' & [= <-] & Hf').
  repeat (apply Forall2_cons_inv_l in Hf as (? & ? & ? & Hf & ->)).
  repeat (apply Forall2_cons_inv_l in Hf' as (? & ? & ? & Hf' & ?)). simplify_eq.
  unfold CopyHeader. f_equal; try (lazymatch goal with |- Some _ = Some _ => apply (f_equal Some) end);
    first [ by eapply (enc_inj (enc_array 32)); eauto using dec_enc_array
          | by eapply (enc_inj (enc_array 20)); eauto using dec_enc_array
          | by eapply (enc_inj (enc_array 256)); eauto using dec_enc_array
          | by eapply (enc_inj (enc_array 8)); eauto using dec_enc_array
          | by eapply (enc_inj enc_big); eauto using dec_enc_big
          | by eapply (enc_inj enc_uint64); eauto using dec_enc_uint64
          | by eapply (enc_inj enc_bytes); eauto using dec_enc_bytes ].
Qed.

Lemma filtered_inv h e f : ExtractSportExtra h = inl e → SportFilteredHeader h true = Some f →
  ∃ payload, f = with_payload (CopyHeader h) payload ∧
    ExtractSportExtra f = inl (MkSportExtra (ex_Fullnodes e) (ex_Seal e) []).
Proof.
  intros He. pose proof (Extract_length _ _ He) as Hl. unfold SportFilteredHeader.
  rewrite CopyHeader_Extract, He. destruct (SportExtra_bytes _) as [payload|] eqn:Hp; [|done].
  intros; simplify_eq. exists payload. split; [done|]. by apply Extract_with_payload.
Qed.

(** Equal hashes of two SPoRT headers mean equal headers, committed seals aside. *)
Lemma sport_hash_inj h1 e1 f1 b1 h2 e2 f2 b2 :
  sport_header h1 e1 f1 b1 → sport_header h2 e2 f2 b2 →
  (Keccak256 b1 = Keccak256 b2 → b1 = b2) → Header_Hash h1 = Header_Hash h2 →
  set_Extra (CopyHeader h1) [] = set_Extra (CopyHeader h2) [] ∧
  take SportExtraVanity (h_Extra h1) = take SportExtraVanity (h_Extra h2) ∧
  ex_Fullnodes e1 = ex_Fullnodes e2 ∧ ex_Seal e1 = ex_Seal e2.
Proof.
  intros H1 H2 Hinj Hh. rewrite (sport_header_hash _ _ _ _ H1), (sport_header_hash _ _ _ _ H2) in Hh.
  specialize (Hinj Hh) as ->. destruct H1 as [_ He1 Hf1 Hb1], H2 as [_ He2 Hf2 Hb2].
  pose proof (Header_bytes_inj _ _ _ Hb1 Hb2) as Heq.
  destruct (filtered_inv _ _ _ He1 Hf1) as (p1 & -> & Hx1), (filtered_inv _ _ _ He2 Hf2) as (p2 & -> & Hx2).
  pose proof (f_equal h_Extra Heq) as Hex. simpl in Hex.
  pose proof (Extract_length _ _ He1) as Hl1. pose proof (Extract_length _ _ He2) as Hl2.
  pose proof (f_equal (λ h, set_Extra h []) Heq) as Hrest.
  rewrite <-CopyHeader_Extract, Heq, CopyHeader_Extract, Hx2 in Hx1. injection Hx1 as ? ?.
  split_and!; [exact Hrest| |done..].
  - apply (f_equal (take SportExtraVanity)) in Hex.
    by rewrite !take_app_le, !take_take, !Nat.min_id in Hex by (rewrite length_take; lia).
Qed.

(** C27. The hash of a block commits to everything in its header but the committed
    seals. *)
Theorem Header_Hash_binds h1 e1 f1 b1 h2 e2 f2 b2 :
  sport_header h1 e1 f1 b1 → sport_header h2 e2 f2 b2 →
  (Keccak256 b1 = Keccak256 b2 → b1 = b2) → Header_Hash h1 = Header_Hash h2 →
  set_Extra (CopyHeader h1) [] = set_Extra (CopyHeader h2) [] ∧
  take SportExtraVanity (h_Extra h1) = take SportExtraVanity (h_Extra h2) ∧
  ex_Fullnodes e1 = ex_Fullnodes e2 ∧ ex_Seal e1 = ex_Seal e2.
Proof. apply sport_hash_inj. Qed.

(** ** The cache of recovered signers *)

Lemma sigHash_sport h1 e1 h2 e2 : ExtractSportExtra h1 = inl e1 → ExtractSportExtra h2 = inl e2 →
  set_Extra (CopyHeader h1) [] = set_Extra (CopyHeader h2) [] →
  take SportExtraVanity (h_Extra h1) = take SportExtraVanity (h_Extra h2) →
  ex_Fullnodes e1 = ex_Fullnodes e2 → sigHash h1 = sigHash h2.
Proof.
  intros He1 He2 Hc Hv Hf. unfold sigHash, SportFilteredHeader. rewrite !CopyHeader_Extract, He1, He2, Hf.
  destruct (SportExtra_bytes _) as [p|]; [|done]. do 2 f_equal.
  unfold with_payload. simpl. rewrite Hv.
  apply (f_equal (λ h, set_Extra h (take SportExtraVanity (h_Extra h2) ++ p))) in Hc. exact Hc.
Qed.

(** A set of headers whose hashes do not collide. *)
Definition no_collision (hs : list Header) : Prop :=
  ∀ h1 h2, h1 ∈ hs → h2 ∈ hs → ∃ e1 f1 b1 e2 f2 b2,
    sport_header h1 e1 f1 b1 ∧ sport_header h2 e2 f2 b2 ∧ (Keccak256 b1 = Keccak256 b2 → b1 = b2).

(** What the cache holds of the headers [hs] is what [ecrecover] computes. *)
Definition cache_sound (hs : list Header) (cache : gmap Z address) : Prop :=
  ∀ h a, h ∈ hs → cache !! Header_Hash h = Some a → ecrecover h = inl a.

Lemma same_hash_same_signer hs h1 h2 : no_collision hs → h1 ∈ hs → h2 ∈ hs →
  Header_Hash h1 = Header_Hash h2 → ecrecover h1 = ecrecover h2.
Proof.
  intros Hnc Hh1 Hh2 Heq. destruct (Hnc h1 h2 Hh1 Hh2) as (e1 & f1 & b1 & e2 & f2 & b2 & Hs1 & Hs2 & Hinj).
  destruct (sport_hash_inj _ _ _ _ _ _ _ _ Hs1 Hs2 Hinj Heq) as (Hcp & Hv & Hf & Hse).
  destruct Hs1 as [_ Hx1 _ _], Hs2 as [_ Hx2 _ _]. unfold ecrecover. rewrite Hx1, Hx2, Hse.
  by rewrite (sigHash_sport h1 e1 h2 e2 Hx1 Hx2 Hcp Hv Hf).
Qed.

Section cache.
Context (forget : gmap Z address → gmap Z address).
Hypothesis forget_sub : ∀ c k a, forget c !! k = Some a → c !! k = Some a.

Lemma ecrecover_cached_step hs cache h : no_collision hs → h ∈ hs → cache_sound hs cache →
  (ecrecover_cached forget cache h).2 = ecrecover h ∧
  cache_sound hs (ecrecover_cached forget cache h).1.
Proof using forget_sub.
  intros Hnc Hh Hs. unfold ecrecover_cached.
  destruct (cache !! Header_Hash h) as [a|] eqn:Hc; [by rewrite (Hs h a Hh Hc)|].
  destruct (ecrecover h) as [a|er] eqn:He; [|done]. split; [done|].
  intros h' a' Hh' [[Heq ->]|[_ Hl]]%forget_sub%lookup_insert_Some; [|by apply Hs].
  rewrite <-He. symmetry. by eapply same_hash_same_signer.
Qed.

(** Look up a sequence of headers, one after the other. *)
Fixpoint ecrecover_all (cache : gmap Z address) (hs : list Header) : list (result address) :=
  match hs with
  | [] => []
  | h :: hs => let '(cache', r) := ecrecover_cached forget cache h in r :: ecrecover_all cache' hs
  end.

(** The cache of recent signers never changes an answer: starting empty, any
    sequence of lookups gives what [ecrecover] computes, whatever the cache
    forgets, as long as the hashes of the headers looked up do not collide. *)
Theorem ecrecover_cached_correct hs : no_collision hs → ecrecover_all ∅ hs = ecrecover <$> hs.
Proof using forget_sub.
  intros Hnc. assert (cache_sound hs ∅) as Hs by (intros h a _; by rewrite lookup_empty).
  assert (∀ l cache, l ⊆ hs → cache_sound hs cache → ecrecover_all cache l = ecrecover <$> l) as Hall.
  { induction l as [|h l IH]; intros cache Hl Hc; [done|]. cbn [ecrecover_all fmap list_fmap].
    destruct (ecrecover_cached_step hs cache h Hnc) as [Hr Hc']; [set_solver|done|].
    destruct (ecrecover_cached forget cache h) as [cache' r]. simpl in *. subst r. f_equal.
    apply IH; [set_solver|done]. }
  by apply Hall.
Qed.
End cache.

(** ** Sealing: [updateBlock] *)

Context (sign : hash → result bytes).

(** [sb.Sign]: [crypto.Sign] of the Keccak256 of the data. *)
Definition Sign (data : bytes) : result bytes := sign (Keccak256 data).

Definition updateBlock (h : Header) : result Header :=
  match Sign (be_fix 32 (sigHash h)) with
  | inr e => inr e
  | inl seal => writeSeal h seal
  end.

Lemma updateBlock_signer addr h h' :
  (∀ d sig, sign d = inl sig → SigToAddress d sig = Some addr) →
  updateBlock h = inl h' → ecrecover h' = inl addr.
Proof using H.
  intros Hsign. unfold updateBlock, Sign. destruct (sign _) as [seal|] eqn:Hse; [|done].
  intros (e & payload & He & Hp & ->)%writeSeal_inv. unfold ecrecover.
  pose proof (Extract_length _ _ He) as Hl. rewrite (Extract_with_payload h _ _ Hl Hp).
  rewrite (sigHash_with_payload h e _ payload He Hp) by done.
  unfold GetSignatureAddress. cbn [ex_Seal]. by rewrite (Hsign _ _ Hse).
Qed.

Lemma updateBlock_inv h h' : updateBlock h = inl h' →
  ∃ e seal payload, ExtractSportExtra h = inl e ∧ h' = with_payload h payload ∧
    ExtractSportExtra h' = inl (MkSportExtra (ex_Fullnodes e) seal (ex_CommittedSeal e)).
Proof.
  unfold updateBlock. destruct (Sign _) as [seal|]; [|done]. intros (e & payload & He & Hp & ->)%writeSeal_inv.
  exists e, seal, payload. split_and!; [done..|]. apply Extract_with_payload; [|done]. by eapply Extract_length.
Qed.

(** A block that a fullnode seals recovers to that fullnode. *)
Theorem updateBlock_recovers addr h h' :
  (∀ d sig, sign d = inl sig → SigToAddress d sig = Some addr) →
  updateBlock h = inl h' → ecrecover h' = inl addr.
Proof. apply updateBlock_signer. Qed.
End seals.
