(* ===== verification/Snapshot.v ===== *)
(** * Voting snapshots: consensus/sport/backend/{model,snapshot,snapshot_sport}.go

    A snapshot is the fullnode set at a block together with the pending votes
    on it; [apply] replays the votes of a chain of headers.  The invariant
    [snap_wf] says that the tally counts exactly the recorded votes, that every
    voter is a fullnode with at most one vote per candidate, and that every
    vote would change the set.  It makes the change of the set a decision of a
    majority of distinct fullnodes.

    The last section is about chains of headers: applying headers in one go or in
    two is the same, whatever snapshot one stops at, which is what makes the
    caches of snapshots, in memory and on disk, transparent.  Two snapshots are
    equivalent when they differ only in the speaker of their fullnode set, which
    [CalcSpeaker] sets again before each round. *)

From Stdlib Require Import ZArith Lia.
From S2P Require Import Prelude Errors Rlp Fullnode Messages Core Header.
Open Scope didux_scope.

Record Vote := MkVote {
  v_Fullnode : address; v_BlockNum : Z; v_Address : address; v_Authorize : bool
}.
Record Tally := MkTally { t_Authorize : bool; t_Votes : Z }.
Record Snapshot := MkSnapshot {
  s_Epoch : Z; s_Number : Z; s_Hash : hash;
  s_Votes : list Vote; s_Tally : gmap Z Tally; s_FullnodeSet : fullnodeSet
}.

Definition set_Votes (s : Snapshot) (v : list Vote) : Snapshot :=
  MkSnapshot (s_Epoch s) (s_Number s) (s_Hash s) v (s_Tally s) (s_FullnodeSet s).
Definition set_Tally (s : Snapshot) (t : gmap Z Tally) : Snapshot :=
  MkSnapshot (s_Epoch s) (s_Number s) (s_Hash s) (s_Votes s) t (s_FullnodeSet s).
Definition set_FullnodeSet (s : Snapshot) (f : fullnodeSet) : Snapshot :=
  MkSnapshot (s_Epoch s) (s_Number s) (s_Hash s) (s_Votes s) (s_Tally s) f.

Definition nonceAuthVote : Z := 0xffffffffffffffff.
Definition nonceDropVote : Z := 0.

Section snapshot.
Context `{!Crypto, !AddrString}.

Definition newSnapshot (epoch number : Z) (h : hash) (fs : fullnodeSet) : Snapshot :=
  MkSnapshot epoch number h [] ∅ fs.

Definition snapshot_copy (s : Snapshot) : Snapshot :=
  MkSnapshot (s_Epoch s) (s_Number s) (s_Hash s) (s_Votes s) (s_Tally s) (Copy (s_FullnodeSet s)).

Definition checkVote (s : Snapshot) (a : address) (authorize : bool) : bool :=
  match GetByAddress (s_FullnodeSet s) a with
  | Some _ => negb authorize
  | None => authorize
  end.

Definition cast (s : Snapshot) (a : address) (authorize : bool) : bool * Snapshot :=
  if negb (checkVote s a authorize) then (false, s) else
  match s_Tally s !! a with
  | Some old => (true, set_Tally s (<[a := MkTally (t_Authorize old) (t_Votes old + 1)]> (s_Tally s)))
  | None => (true, set_Tally s (<[a := MkTally authorize 1]> (s_Tally s)))
  end.

Definition uncast_tally (t : gmap Z Tally) (a : address) (authorize : bool) : gmap Z Tally :=
  match t !! a with
  | None => t
  | Some tally =>
      if negb (Bool.eqb (t_Authorize tally) authorize) then t
      else if 1 <? t_Votes tally then <[a := MkTally (t_Authorize tally) (t_Votes tally - 1)]> t
      else delete a t
  end.
Definition uncast (s : Snapshot) (a : address) (authorize : bool) : Snapshot :=
  set_Tally s (uncast_tally (s_Tally s) a authorize).

(** The loop that drops the previous vote of [fullnode] on [a]. *)
Definition discard_previous (s : Snapshot) (fullnode a : address) : Snapshot :=
  match list_find (λ v, v_Fullnode v = fullnode ∧ v_Address v = a) (s_Votes s) with
  | Some (i, vote) =>
      let s := uncast s (v_Address vote) (v_Authorize vote) in
      set_Votes s (take i (s_Votes s) ++ drop (S i) (s_Votes s))
  | None => s
  end.

(** The loop that drops every vote a deauthorized fullnode cast. *)
Definition discard_votes_of (s : Snapshot) (a : address) : Snapshot :=
  let s' := set_Tally s (foldl (λ t v, if bool_decide (v_Fullnode v = a)
                                       then uncast_tally t (v_Address v) (v_Authorize v) else t)
                               (s_Tally s) (s_Votes s)) in
  set_Votes s' (filter (λ v, v_Fullnode v ≠ a) (s_Votes s)).

Definition discard_votes_on (s : Snapshot) (a : address) : Snapshot :=
  set_Votes s (filter (λ v, v_Address v ≠ a) (s_Votes s)).

(** The end of the loop body of [apply]: a vote that has passed changes the set. *)
Definition resolve (s : Snapshot) (a : address) : Snapshot :=
  let tally := match s_Tally s !! a with Some t => t | None => MkTally false 0 end in
  if Size (s_FullnodeSet s) / 2 <? t_Votes tally then
    let s := if t_Authorize tally then set_FullnodeSet s (AddFullnode (s_FullnodeSet s) a).2
             else discard_votes_of (set_FullnodeSet s (RemoveFullnode (s_FullnodeSet s) a).2) a in
    let s := discard_votes_on s a in
    set_Tally s (delete a (s_Tally s))
  else s.

(** One header; [None] is a panic (a nil number, or an epoch of zero). *)
Definition apply_header (epoch : Z) (snap : Snapshot) (h : Header) : option (result Snapshot) :=
  match h_Number h with
  | None => None
  | Some n =>
      let number := big_Uint64 n in
      if epoch =? 0 then None else
      let snap := if number mod epoch =? 0 then set_Tally (set_Votes snap []) ∅ else snap in
      Some match ecrecover h with
      | inr e => inr e
      | inl fullnode =>
          match GetByAddress (s_FullnodeSet snap) fullnode with
          | None => inr errUnauthorized
          | Some _ =>
              let snap := discard_previous snap fullnode (h_Coinbase h) in
              match (if h_Nonce h =? nonceAuthVote then Some true
                     else if h_Nonce h =? nonceDropVote then Some false else None) with
              | None => inr errInvalidVote
              | Some authorize =>
                  let '(ok, snap) := cast snap (h_Coinbase h) authorize in
                  let snap := if ok then set_Votes snap (s_Votes snap ++
                                     [MkVote fullnode number (h_Coinbase h) authorize])
                              else snap in
                  inl (resolve snap (h_Coinbase h))
              end
          end
      end
  end.

Fixpoint apply_headers (epoch : Z) (snap : Snapshot) (headers : list Header) : option (result Snapshot) :=
  match headers with
  | [] => Some (inl snap)
  | h :: tl =>
      match apply_header epoch snap h with
      | Some (inl snap') => apply_headers epoch snap' tl
      | r => r
      end
  end.

(** The sanity checks of [apply]: the headers follow each other ([None]: a nil
    number was read), and the first one follows the snapshot. *)
Fixpoint consecutive (n : option Z) (numbers : list (option Z)) : option bool :=
  match numbers with
  | [] => Some true
  | m :: tl =>
      match m, n with
      | Some m', Some n' =>
          if big_Uint64 m' =? u64 (big_Uint64 n' + 1) then consecutive m tl else Some false
      | _, _ => None
      end
  end.

Definition apply (s : Snapshot) (headers : list Header) : option (result Snapshot) :=
  match headers with
  | [] => Some (inl s)
  | h0 :: tl =>
      match consecutive (h_Number h0) (h_Number <$> tl) with
      | None => None
      | Some false => Some (inr errInvalidVotingChain)
      | Some true =>
          match h_Number h0 with
          | None => None
          | Some n0 =>
              if negb (big_Uint64 n0 =? u64 (s_Number s + 1)) then Some (inr errInvalidVotingChain) else
              match apply_headers (s_Epoch s) (snapshot_copy s) headers with
              | Some (inl snap) =>
                  Some (inl (MkSnapshot (s_Epoch snap)
                               (u64 (s_Number snap + Z.of_nat (length headers)))
                               (match last headers with Some h => Header_Hash h | None => 0 end)
                               (s_Votes snap) (s_Tally snap) (s_FullnodeSet snap)))
              | r => r
              end
          end
      end
  end.

(** [fullnodes]: an exchange sort on the bytes of the addresses. *)
Fixpoint exchange (x : address) (l : list address) : address * list address :=
  match l with
  | [] => (x, [])
  | y :: l => if y <? x then let '(m, l') := exchange y l in (m, x :: l')
              else let '(m, l') := exchange x l in (m, y :: l')
  end.
Fixpoint exchange_sort (fuel : nat) (l : list address) : list address :=
  match fuel, l with
  | S fuel, x :: l => let '(m, l') := exchange x l in m :: exchange_sort fuel l'
  | _, _ => []
  end.
Definition fullnodes (s : Snapshot) : list address :=
  let l := fs_List (s_FullnodeSet s) in exchange_sort (length l) l.

(** [snapshotJSON], what is stored on disk. *)
Record snapshotJSON := MkSnapshotJSON {
  j_Epoch : Z; j_Number : Z; j_Hash : hash; j_Votes : list Vote; j_Tally : gmap Z Tally;
  j_Fullnodes : list address; j_Policy : Z
}.
Definition toJSONStruct (s : Snapshot) : snapshotJSON :=
  MkSnapshotJSON (s_Epoch s) (s_Number s) (s_Hash s) (s_Votes s) (s_Tally s)
    (fullnodes s) (Policy (s_FullnodeSet s)).
Definition fromJSONStruct (j : snapshotJSON) : Snapshot :=
  MkSnapshot (j_Epoch j) (j_Number j) (j_Hash j) (j_Votes j) (j_Tally j)
    (newFullnodeSet (j_Fullnodes j) (j_Policy j)).
End snapshot.

(** ** The exchange sort *)

Lemma exchange_spec x l m l' : exchange x l = (m, l') →
  m :: l' ≡ₚ x :: l ∧ Forall (λ y, m <= y) l'.
Proof.
  revert x m l'. induction l as [|y l IH]; intros x m l'; simpl; [by intros [= <- <-]|].
  destruct (Z.ltb_spec y x).
  - destruct (exchange y l) as [m1 l1] eqn:He. intros [= <- <-]. destruct (IH _ _ _ He) as [Hp Hm].
    split; [by rewrite (Permutation_swap x m1), Hp|].
    constructor; [|done]. assert (m1 ∈ y :: l) as Hin by (rewrite <-Hp; left).
    apply elem_of_cons in Hin as [-> |Hin]; [lia|].
    assert (y ∈ m1 :: l1) as [-> |Hy]%elem_of_cons by (rewrite Hp; left); [lia|].
    rewrite Forall_forall in Hm. apply Hm in Hy. lia.
  - destruct (exchange x l) as [m1 l1] eqn:He. intros [= <- <-]. destruct (IH _ _ _ He) as [Hp Hm].
    split; [rewrite (Permutation_swap y m1), Hp; apply Permutation_swap|].
    constructor; [|done]. assert (x ∈ m1 :: l1) as [-> |Hx]%elem_of_cons by (rewrite Hp; left); [lia|].
    rewrite Forall_forall in Hm. apply Hm in Hx. lia.
Qed.

Lemma exchange_sort_spec fuel l : (length l <= fuel)%nat →
  exchange_sort fuel l ≡ₚ l ∧ StronglySorted Z.le (exchange_sort fuel l).
Proof.
  revert l. induction fuel as [|fuel IH]; intros [|x l] Hl; simpl in *; try lia; try by split; constructor.
  destruct (exchange x l) as [m l'] eqn:He. destruct (exchange_spec _ _ _ _ He) as [Hp Hm].
  assert (length l' <= fuel)%nat by (apply Permutation_length in Hp; simpl in Hp; lia).
  destruct (IH l') as [Hp' Hs]; [done|]. split; [by rewrite Hp'|].
  constructor; [done|]. by rewrite Hp'.
Qed.

(** The list in the extra-data is the fullnode set, in ascending order. *)
Lemma fullnodes_spec s : fullnodes s ≡ₚ fs_fullnodes (s_FullnodeSet s) ∧
  StronglySorted Z.le (fullnodes s).
Proof. unfold fullnodes, fs_List. by apply exchange_sort_spec. Qed.

(** ** The tally counts the votes *)

Definition votes_on (a : address) (vs : list Vote) : list Vote := filter (λ v, v_Address v = a) vs.

Definition tally_ok (vs : list Vote) (t : gmap Z Tally) : Prop :=
  ∀ a, match t !! a with
       | None => votes_on a vs = []
       | Some x => t_Votes x = Z.of_nat (length (votes_on a vs)) ∧ 0 < t_Votes x ∧
                   Forall (λ v, v_Authorize v = t_Authorize x) (votes_on a vs)
       end.

Lemma votes_on_app a l1 l2 : votes_on a (l1 ++ l2) = votes_on a l1 ++ votes_on a l2.
Proof. apply filter_app. Qed.
Lemma votes_on_cons a v l :
  votes_on a (v :: l) = (if bool_decide (v_Address v = a) then [v] else []) ++ votes_on a l.
Proof. unfold votes_on. rewrite filter_cons. case_decide; by case_bool_decide. Qed.
Lemma elem_of_votes_on a v l : v ∈ votes_on a l ↔ v_Address v = a ∧ v ∈ l.
Proof. unfold votes_on. by rewrite list_elem_of_filter. Qed.

Lemma tally_ok_nil : tally_ok [] ∅.
Proof. intros a. by rewrite lookup_empty. Qed.

Lemma tally_uncast l1 v l2 t : tally_ok (l1 ++ v :: l2) t →
  tally_ok (l1 ++ l2) (uncast_tally t (v_Address v) (v_Authorize v)).
Proof.
  intros Ht a. specialize (Ht a) as Ha. specialize (Ht (v_Address v)). unfold uncast_tally.
  assert (votes_on (v_Address v) (l1 ++ v :: l2)
          = votes_on (v_Address v) l1 ++ v :: votes_on (v_Address v) l2) as Hv
    by (rewrite votes_on_app, votes_on_cons; by rewrite bool_decide_true).
  rewrite Hv in Ht. destruct (t !! v_Address v) as [x|] eqn:Hx;
    [|destruct (votes_on (v_Address v) l1); done].
  destruct Ht as (Hn & Hpos & [Hal1 [Hav Hal2]%Forall_cons]%Forall_app).
  rewrite Hav, Bool.eqb_reflx. simpl. rewrite length_app in Hn. simpl in Hn.
  rewrite votes_on_app. destruct (decide (a = v_Address v)) as [->|Hne].
  - destruct (Z.ltb_spec 1 (t_Votes x)); rewrite ?lookup_insert_eq, ?lookup_delete_eq; simpl.
    + rewrite length_app, Forall_app. split_and!; [lia|lia|done..].
    + apply nil_length_inv. rewrite length_app. lia.
  - assert (votes_on a (l1 ++ v :: l2) = votes_on a l1 ++ votes_on a l2) as Hva
      by (rewrite votes_on_app, votes_on_cons; by rewrite bool_decide_false).
    rewrite Hva in Ha. destruct (1 <? t_Votes x); rewrite ?lookup_insert_ne, ?lookup_delete_ne by done; exact Ha.
Qed.

Lemma tally_discard_of k l a t : tally_ok (k ++ l) t →
  tally_ok (k ++ filter (λ v, v_Fullnode v ≠ a) l)
    (foldl (λ t v, if bool_decide (v_Fullnode v = a)
                   then uncast_tally t (v_Address v) (v_Authorize v) else t) t l).
Proof.
  revert k t. induction l as [|v l IH]; intros k t Ht; simpl; [done|]. rewrite filter_cons.
  case_bool_decide as Hv; case_decide; try done.
  - by apply IH, tally_uncast.
  - replace (k ++ v :: filter (λ v, v_Fullnode v ≠ a) l)
      with ((k ++ [v]) ++ filter (λ v, v_Fullnode v ≠ a) l) by by rewrite <-app_assoc.
    apply IH. by rewrite <-app_assoc.
Qed.

Lemma tally_discard_on l a t : tally_ok l t →
  tally_ok (filter (λ v, v_Address v ≠ a) l) (delete a t).
Proof.
  intros Ht b. destruct (decide (b = a)) as [->|Hne].
  - rewrite lookup_delete_eq. destruct (votes_on a _) as [|v vs] eqn:Hv; [done|].
    assert (v ∈ votes_on a (filter (λ v, v_Address v ≠ a) l)) as Hin by (rewrite Hv; left).
    apply elem_of_votes_on in Hin as [? [? _]%list_elem_of_filter]. done.
  - rewrite lookup_delete_ne by done. specialize (Ht b). unfold votes_on in *.
    rewrite list_filter_filter_l by congruence. done.
Qed.

Lemma tally_cast l t v : tally_ok l t → Forall (λ w, v_Authorize w = v_Authorize v) (votes_on (v_Address v) l) →
  tally_ok (l ++ [v]) (match t !! v_Address v with
                       | Some old => <[v_Address v := MkTally (t_Authorize old) (t_Votes old + 1)]> t
                       | None => <[v_Address v := MkTally (v_Authorize v) 1]> t end).
Proof.
  intros Ht Hall a. specialize (Ht a) as Ha. specialize (Ht (v_Address v)).
  rewrite votes_on_app, votes_on_cons. simpl. destruct (decide (a = v_Address v)) as [->|Hne].
  - rewrite bool_decide_true by done. destruct (t !! v_Address v) as [x|]; rewrite lookup_insert_eq.
    + destruct Ht as (Hn & Hp & Hal). simpl. rewrite length_app. simpl. split_and!; [lia..|].
      apply Forall_app. split; [done|]. constructor; [|done].
      destruct (votes_on (v_Address v) l) as [|w ws]; [simpl in *; lia|].
      apply Forall_cons in Hal as [<- _]. by apply Forall_cons in Hall as [<- _].
    + rewrite Ht. simpl. split_and!; [done..|]. by constructor.
  - rewrite bool_decide_false by done. rewrite app_nil_r.
    destruct (t !! v_Address v); by rewrite lookup_insert_ne.
Qed.

Lemma list_lookup_split {A} (l : list A) i x : l !! i = Some x →
  ∃ l1 l2, l = l1 ++ x :: l2 ∧ take i l ++ drop (S i) l = l1 ++ l2.
Proof. intros Hi. exists (take i l), (drop (S i) l). split; [|done]. by rewrite take_drop_middle. Qed.

Lemma elem_of_mid {A} (l1 l2 : list A) x y : y ∈ l1 ++ l2 → y ∈ l1 ++ x :: l2.
Proof. rewrite !elem_of_app, elem_of_cons. tauto. Qed.

Lemma NoDup_fmap_filter {A B} (f : A → B) (P : A → Prop) `{∀ x, Decision (P x)} l :
  NoDup (f <$> l) → NoDup (f <$> filter P l).
Proof.
  induction l as [|x l IH]; simpl; [done|]. intros [Hx Hd]%NoDup_cons. rewrite filter_cons.
  case_decide; [|auto]. simpl. apply NoDup_cons. split; [|auto].
  intros (y & Heq & [_ Hy]%list_elem_of_filter)%list_elem_of_fmap. apply Hx, list_elem_of_fmap. eauto.
Qed.

(** ** The invariant of a snapshot *)

Section wf.
Context `{!Crypto, !AddrString}.
Implicit Types s : Snapshot.

Definition vote_key (v : Vote) : address * address := (v_Fullnode v, v_Address v).
Abbreviation set_of s := (fs_fullnodes (s_FullnodeSet s)).

Record snap_wf s : Prop := {
  sw_set : fs_wf (s_FullnodeSet s);
  sw_tally : tally_ok (s_Votes s) (s_Tally s);
  sw_voters v : v ∈ s_Votes s → v_Fullnode v ∈ set_of s;
  sw_once : NoDup (vote_key <$> s_Votes s);
  sw_meaningful v : v ∈ s_Votes s → v_Authorize v = bool_decide (v_Address v ∉ set_of s)
}.

Lemma newSnapshot_wf epoch number h fs : fs_wf fs → snap_wf (newSnapshot epoch number h fs).
Proof.
  intros. split; simpl; [done|apply tally_ok_nil| |constructor|]; intros v ?%elem_of_nil; done.
Qed.

Lemma checkVote_spec s a authorize : checkVote s a authorize = true ↔
  authorize = bool_decide (a ∉ set_of s).
Proof.
  unfold checkVote. destruct (GetByAddress _ a) as [[i v]|] eqn:Hg.
  - assert (a ∈ set_of s) by (apply GetByAddress_elem; eauto). rewrite bool_decide_false by auto.
    by destruct authorize.
  - apply GetByAddress_None in Hg. rewrite bool_decide_true by done. by destruct authorize.
Qed.

Lemma reset_wf s : snap_wf s → snap_wf (set_Tally (set_Votes s []) ∅).
Proof.
  intros []. split; simpl; [done|apply tally_ok_nil| |constructor|]; intros v ?%elem_of_nil; done.
Qed.

Lemma snapshot_copy_wf s : snap_wf s → snap_wf (snapshot_copy s).
Proof.
  intros []. pose proof (Copy_fullnodes _ sw_set0) as Hc.
  split; unfold snapshot_copy; cbn [s_FullnodeSet s_Votes s_Tally]; try done;
    [|rewrite Hc; done..]. unfold fs_wf. by rewrite Hc.
Qed.

Lemma discard_previous_wf s f a : snap_wf s → snap_wf (discard_previous s f a) ∧
  ((f, a) ∉ vote_key <$> s_Votes (discard_previous s f a)) ∧
  s_FullnodeSet (discard_previous s f a) = s_FullnodeSet s ∧
  s_Votes (discard_previous s f a) ⊆ s_Votes s.
Proof.
  intros []. unfold discard_previous. destruct (list_find _ _) as [[i vote]|] eqn:Hf.
  - apply list_find_Some in Hf as (Hi & [<- <-] & _).
    destruct (list_lookup_split _ _ _ Hi) as (l1 & l2 & Hv & Hrest).
    cbn [s_Votes s_FullnodeSet set_Votes uncast set_Tally]. rewrite Hrest.
    rewrite Hv, fmap_app, fmap_cons in sw_once0. rewrite Hv in sw_voters0, sw_meaningful0, sw_tally0.
    apply NoDup_app in sw_once0 as (Hd1 & Hdis & [Hn Hd2]%NoDup_cons).
    split_and!; [|..|done|rewrite Hv; intros v; apply elem_of_mid].
    + split; cbn [s_Votes s_FullnodeSet s_Tally set_Votes]; [done|by apply tally_uncast|auto using elem_of_mid| |auto using elem_of_mid].
      rewrite fmap_app. apply NoDup_app. split_and!; [done| |done]. intros k Hk Hk2.
      apply (Hdis k Hk). by right.
    + rewrite fmap_app. intros [Hin|Hin]%elem_of_app; [|done]. apply (Hdis _ Hin). left.
  - apply list_find_None in Hf. split_and!; [by split| |done..].
    intros (v & [= -> ->] & Hv)%list_elem_of_fmap. rewrite Forall_forall in Hf. by apply (Hf _ Hv).
Qed.

(** Casting a vote and recording it. *)
Definition cast_vote s (v : Vote) : Snapshot :=
  let '(ok, s') := cast s (v_Address v) (v_Authorize v) in
  if ok then set_Votes s' (s_Votes s' ++ [v]) else s'.

Lemma cast_vote_wf s v : snap_wf s → v_Fullnode v ∈ set_of s → vote_key v ∉ vote_key <$> s_Votes s →
  snap_wf (cast_vote s v) ∧ s_FullnodeSet (cast_vote s v) = s_FullnodeSet s ∧
  s_Votes (cast_vote s v) ⊆ v :: s_Votes s.
Proof.
  intros [] Hf Hnew. unfold cast_vote, cast. destruct (checkVote s (v_Address v) (v_Authorize v)) eqn:Hc; simpl.
  2:{ split_and!; [by split|done|set_solver]. }
  apply checkVote_spec in Hc.
  assert (Forall (λ w, v_Authorize w = v_Authorize v) (votes_on (v_Address v) (s_Votes s))) as Hall.
  { apply Forall_forall. intros w [Ha Hw]%elem_of_votes_on. rewrite (sw_meaningful0 w Hw). by rewrite Ha. }
  pose proof (tally_cast _ _ v sw_tally0 Hall) as Ht.
  assert (NoDup (vote_key <$> s_Votes s ++ [v])).
  { rewrite fmap_app. apply NoDup_app. split_and!; [done| |apply NoDup_singleton].
    intros k Hk ->%list_elem_of_singleton. done. }
  destruct (s_Tally s !! v_Address v); (split_and!; [|done|simpl; set_solver]);
    (split; simpl; [done|exact Ht| |done|]); intros w [Hw| ->%list_elem_of_singleton]%elem_of_app; auto.
Qed.

(** ** Resolving a vote *)

(** The fullnodes that voted on [a]. *)
Definition voters (a : address) (vs : list Vote) : gset address := list_to_set (v_Fullnode <$> votes_on a vs).

Lemma size_voters s a : snap_wf s →
  size (voters a (s_Votes s)) = length (votes_on a (s_Votes s)) ∧ voters a (s_Votes s) ⊆ members (s_FullnodeSet s).
Proof.
  intros []. split.
  - unfold voters. rewrite size_list_to_set; [by rewrite length_fmap|].
    apply NoDup_fmap_2_strong.
    + intros x y [Hax Hx]%elem_of_votes_on [Hay Hy]%elem_of_votes_on Hxy.
      apply list_elem_of_lookup in Hx as [i Hi], Hy as [j Hj].
      assert (i = j) as ->; [|congruence].
      eapply (NoDup_lookup (vote_key <$> s_Votes s)); [done|..]; rewrite list_lookup_fmap.
      * by rewrite Hi.
      * rewrite Hj. simpl. unfold vote_key. congruence.
    + apply NoDup_filter. by eapply NoDup_fmap_1.
  - intros f (v & -> & [_ Hv]%elem_of_votes_on)%elem_of_list_to_set%list_elem_of_fmap.
    apply elem_of_list_to_set. auto.
Qed.

Lemma AddFullnode_elem fs a b : b ∈ fs_fullnodes (AddFullnode fs a).2 ↔ b = a ∨ b ∈ fs_fullnodes fs.
Proof.
  unfold AddFullnode. case_bool_decide; simpl; [naive_solver|].
  rewrite elem_of_sort_fullnodes. set_solver.
Qed.
Lemma RemoveFullnode_elem fs a b : NoDup (fs_fullnodes fs) →
  b ∈ fs_fullnodes (RemoveFullnode fs a).2 ↔ b ≠ a ∧ b ∈ fs_fullnodes fs.
Proof.
  intros Hnd. destruct (RemoveFullnode fs a) as [[] fs'] eqn:Hr; simpl.
  - pose proof (RemoveFullnode_perm _ _ _ Hr) as Hp. rewrite Hp in *.
    apply NoDup_cons in Hnd as [Hna _]. set_solver.
  - apply RemoveFullnode_false in Hr as [-> Hna]. set_solver.
Qed.

Lemma bool_decide_notin {A} `{EqDecision A} (x : A) (l l' : list A) : (x ∈ l ↔ x ∈ l') →
  bool_decide (x ∉ l) = bool_decide (x ∉ l').
Proof. intros Hiff. apply bool_decide_ext. by rewrite Hiff. Qed.

(** The two ways a vote that passed changes the snapshot. *)
Definition resolve_add s a : Snapshot :=
  let s' := discard_votes_on (set_FullnodeSet s (AddFullnode (s_FullnodeSet s) a).2) a in
  set_Tally s' (delete a (s_Tally s')).
Definition resolve_drop s a : Snapshot :=
  let s' := discard_votes_on (discard_votes_of
              (set_FullnodeSet s (RemoveFullnode (s_FullnodeSet s) a).2) a) a in
  set_Tally s' (delete a (s_Tally s')).

Lemma resolve_add_wf s a : snap_wf s → snap_wf (resolve_add s a).
Proof.
  intros []. split; cbn [resolve_add discard_votes_on set_Tally set_Votes set_FullnodeSet
                          s_Votes s_Tally s_FullnodeSet].
  - by apply AddFullnode_wf.
  - by apply tally_discard_on.
  - intros v [_ Hv]%list_elem_of_filter. apply AddFullnode_elem. auto.
  - by apply NoDup_fmap_filter.
  - intros v [Hna Hv]%list_elem_of_filter. rewrite (sw_meaningful0 v Hv).
    apply bool_decide_notin. rewrite AddFullnode_elem. tauto.
Qed.

Lemma resolve_drop_wf s a : snap_wf s → snap_wf (resolve_drop s a).
Proof.
  intros []. assert (NoDup (set_of s)) as Hnd by apply sw_set0.
  split; cbn [resolve_drop discard_votes_on discard_votes_of set_Tally set_Votes set_FullnodeSet
              s_Votes s_Tally s_FullnodeSet].
  - by apply RemoveFullnode_wf.
  - apply tally_discard_on. by apply (tally_discard_of []).
  - intros v [_ [Hf Hv]%list_elem_of_filter]%list_elem_of_filter. apply RemoveFullnode_elem; auto.
  - by apply NoDup_fmap_filter, NoDup_fmap_filter.
  - intros v [Hna [_ Hv]%list_elem_of_filter]%list_elem_of_filter. rewrite (sw_meaningful0 v Hv).
    apply bool_decide_notin. rewrite RemoveFullnode_elem by done. tauto.
Qed.

(** A vote passes with a majority of the fullnodes; nothing happens otherwise. *)
Lemma resolve_cases s a : snap_wf s →
  (resolve s a = s) ∨
  (Size (s_FullnodeSet s) / 2 < Z.of_nat (length (votes_on a (s_Votes s))) ∧
   (((a ∉ set_of s) ∧ resolve s a = resolve_add s a) ∨ ((a ∈ set_of s) ∧ resolve s a = resolve_drop s a))).
Proof.
  intros []. unfold resolve. destruct (s_Tally s !! a) as [t|] eqn:Ht.
  - destruct (Z.ltb_spec (Size (s_FullnodeSet s) / 2) (t_Votes t)); [|by left]. right.
    pose proof (sw_tally0 a) as Hok. rewrite Ht in Hok. destruct Hok as (Hn & Hpos & Hall).
    split; [lia|]. destruct (votes_on a (s_Votes s)) as [|v vs] eqn:Hv; [simpl in *; lia|].
    assert (v ∈ votes_on a (s_Votes s)) as [Ha Hin]%elem_of_votes_on by (rewrite Hv; left).
    apply Forall_cons in Hall as [Hauth _]. rewrite (sw_meaningful0 v Hin), Ha in Hauth.
    destruct (t_Authorize t).
    + left. split; [by apply bool_decide_eq_true in Hauth|done].
    + right. apply bool_decide_eq_false, dec_stable in Hauth. done.
  - simpl. destruct (Z.ltb_spec (Size (s_FullnodeSet s) / 2) 0) as [Hneg|]; [|by left].
    pose proof (Size_nonneg (s_FullnodeSet s)). pose proof (Z.div_pos (Size (s_FullnodeSet s)) 2). lia.
Qed.

Lemma resolve_wf s a : snap_wf s → snap_wf (resolve s a).
Proof.
  intros Hwf. destruct (resolve_cases s a Hwf) as [-> |[_ [[_ ->]|[_ ->]]]];
    auto using resolve_add_wf, resolve_drop_wf.
Qed.

(** ** Applying headers *)

Definition reset_at (epoch n : Z) s : Snapshot :=
  if big_Uint64 n mod epoch =? 0 then set_Tally (set_Votes s []) ∅ else s.

Lemma reset_at_set epoch n s : s_FullnodeSet (reset_at epoch n s) = s_FullnodeSet s ∧
  s_Votes (reset_at epoch n s) ⊆ s_Votes s.
Proof. unfold reset_at. case_match; split; try done. simpl. set_solver. Qed.

Definition nonce_vote (nonce : Z) : option bool :=
  if nonce =? nonceAuthVote then Some true else if nonce =? nonceDropVote then Some false else None.

Lemma apply_header_inv epoch s h s' : apply_header epoch s h = Some (inl s') →
  ∃ n f auth, h_Number h = Some n ∧ epoch ≠ 0 ∧ ecrecover h = inl f ∧ (f ∈ set_of s) ∧
    nonce_vote (h_Nonce h) = Some auth ∧
    s' = resolve (cast_vote (discard_previous (reset_at epoch n s) f (h_Coinbase h))
                    (MkVote f (big_Uint64 n) (h_Coinbase h) auth)) (h_Coinbase h).
Proof.
  unfold apply_header. destruct (h_Number h) as [n|]; [|done].
  destruct (Z.eqb_spec epoch 0); [done|]. fold (reset_at epoch n s).
  destruct (ecrecover h) as [f|] eqn:He; [|done].
  destruct (GetByAddress _ f) as [[i v]|] eqn:Hg; [|done].
  assert (f ∈ set_of (reset_at epoch n s)) as Hf by (apply GetByAddress_elem; eauto).
  change (if h_Nonce h =? nonceAuthVote then Some true
          else if h_Nonce h =? nonceDropVote then Some false else None) with (nonce_vote (h_Nonce h)).
  destruct (nonce_vote (h_Nonce h)) as [auth|] eqn:Hn; [|done].
  intros Hs. exists n, f, auth. split_and!; try done.
  - by rewrite (proj1 (reset_at_set epoch n s)) in Hf.
  - unfold cast_vote. cbn [v_Address v_Authorize].
    destruct (cast _ (h_Coinbase h) auth) as [ok s1]. by destruct ok; simplify_eq.
Qed.

Lemma reset_at_wf epoch n s : snap_wf s → snap_wf (reset_at epoch n s).
Proof. unfold reset_at. case_match; auto using reset_wf. Qed.

(** The snapshot just before the vote is resolved. *)
Lemma voted_wf epoch n s f a auth : snap_wf s → f ∈ set_of s →
  let s1 := cast_vote (discard_previous (reset_at epoch n s) f a) (MkVote f (big_Uint64 n) a auth) in
  snap_wf s1 ∧ s_FullnodeSet s1 = s_FullnodeSet s ∧
  s_Votes s1 ⊆ MkVote f (big_Uint64 n) a auth :: s_Votes s.
Proof.
  intros Hwf Hf. destruct (reset_at_set epoch n s) as [Hset Hsub].
  destruct (discard_previous_wf _ f a (reset_at_wf epoch n s Hwf)) as (Hwf2 & Hnew & Hset2 & Hsub2).
  destruct (cast_vote_wf (discard_previous (reset_at epoch n s) f a) (MkVote f (big_Uint64 n) a auth))
    as (Hwf3 & Hset3 & Hsub3); [done|by rewrite Hset2, Hset|done|].
  split_and!; [done|by rewrite Hset3, Hset2|]. intros v Hv%Hsub3.
  apply elem_of_cons in Hv as [-> |Hv]; [left|right]. by apply Hsub, Hsub2.
Qed.

Lemma apply_header_wf epoch s h s' : snap_wf s → apply_header epoch s h = Some (inl s') → snap_wf s'.
Proof.
  intros Hwf (n & f & auth & _ & _ & _ & Hf & _ & ->)%apply_header_inv. apply resolve_wf.
  by apply (voted_wf epoch n s f).
Qed.

(** C25. A header changes the fullnode set only by adding or dropping the candidate
    it names, and only when more than half of the fullnodes, all distinct, have
    voted for that: the signer of the header with it, the others with earlier
    ones. *)
Theorem set_change_needs_majority epoch s h s' :
  snap_wf s → apply_header epoch s h = Some (inl s') → set_of s' ≠ set_of s →
  ∃ signer (V : gset address), ecrecover h = inl signer ∧
    (V ⊆ members (s_FullnodeSet s)) ∧ Size (s_FullnodeSet s) / 2 < Z.of_nat (size V) ∧
    (∀ f, f ∈ V →
       (f = signer ∧ nonce_vote (h_Nonce h) = Some (bool_decide (h_Coinbase h ∉ set_of s))) ∨
       (∃ v, (v ∈ s_Votes s) ∧ v_Fullnode v = f ∧ v_Address v = h_Coinbase h ∧
             v_Authorize v = bool_decide (h_Coinbase h ∉ set_of s))) ∧
    (∀ b, b ∈ set_of s' ↔ if bool_decide (h_Coinbase h ∉ set_of s) then b = h_Coinbase h ∨ b ∈ set_of s
                          else b ≠ h_Coinbase h ∧ b ∈ set_of s).
Proof.
  intros Hwf (n & f & auth & _ & _ & He & Hf & Hn & ->)%apply_header_inv Hne.
  destruct (voted_wf epoch n s f (h_Coinbase h) auth Hwf Hf) as (Hwf1 & Hset & Hsub).
  set (s1 := cast_vote _ _) in *. set (a := h_Coinbase h) in *.
  destruct (resolve_cases s1 a Hwf1) as [Heq|[Hmaj Hres]]; [by rewrite Heq, Hset in Hne|].
  destruct (size_voters s1 a Hwf1) as [Hsz Hmem]. rewrite Hset in *.
  exists f, (voters a (s_Votes s1)). split_and!; [done..|lia| |].
  - intros g (v & -> & [Ha Hv]%elem_of_votes_on)%elem_of_list_to_set%list_elem_of_fmap.
    pose proof (sw_meaningful _ Hwf1 v Hv) as Hm. rewrite Ha, Hset in Hm.
    apply Hsub in Hv as [-> |Hv]%elem_of_cons; [left; simpl in *; by rewrite <-Hm|right; by exists v].
  - intros b. destruct Hres as [[Hna ->]|[Hin ->]]; simpl; rewrite Hset.
    + rewrite bool_decide_true by done. apply AddFullnode_elem.
    + rewrite bool_decide_false by auto. apply RemoveFullnode_elem, Hwf.
Qed.
End wf.

Section chain.
Context `{!Crypto, !AddrString}.
Implicit Types s : Snapshot.

(** ** Equivalence of snapshots *)

Definition erase_set (f : fullnodeSet) : fullnodeSet := FullnodeSet (fs_fullnodes f) (fs_policy f) None.
Definition erase s : Snapshot := set_FullnodeSet s (erase_set (s_FullnodeSet s)).

#[global] Instance snapshot_equiv : Equiv Snapshot := λ s t, erase s = erase t.
#[global] Instance snapshot_equivalence : Equivalence (≡@{Snapshot}).
Proof. split; unfold equiv, snapshot_equiv; repeat intro; congruence. Qed.

Definition erase_res (r : option (result Snapshot)) : option (result Snapshot) :=
  match r with Some (inl s) => Some (inl (erase s)) | _ => r end.

(** What applying a header reads and writes: not the speaker, the number or the
    hash of the snapshot. *)
Section strip.
Context (n0 : Z) (h0 : hash).
Definition strip s : Snapshot :=
  MkSnapshot (s_Epoch s) n0 h0 (s_Votes s) (s_Tally s) (erase_set (s_FullnodeSet s)).
Definition strip_res (r : option (result Snapshot)) : option (result Snapshot) :=
  match r with Some (inl s) => Some (inl (strip s)) | _ => r end.

Lemma cast_vote_strip s v : cast_vote (strip s) v = strip (cast_vote s v).
Proof.
  unfold cast_vote, cast. change (checkVote (strip s)) with (checkVote s).
  destruct (checkVote s (v_Address v) (v_Authorize v)); [|done]. simpl.
  by destruct (s_Tally s !! v_Address v).
Qed.
Lemma discard_previous_strip s f a : discard_previous (strip s) f a = strip (discard_previous s f a).
Proof. unfold discard_previous. simpl. by destruct (list_find _ _) as [[]|]. Qed.
Lemma reset_at_strip epoch n s : reset_at epoch n (strip s) = strip (reset_at epoch n s).
Proof. unfold reset_at. by case_match. Qed.
Lemma AddFullnode_erase f a : (AddFullnode (erase_set f) a).2 = erase_set (AddFullnode f a).2.
Proof. unfold AddFullnode. simpl. by case_bool_decide. Qed.
Lemma RemoveFullnode_erase f a : (RemoveFullnode (erase_set f) a).2 = erase_set (RemoveFullnode f a).2.
Proof. unfold RemoveFullnode. simpl. by destruct (list_find _ _) as [[]|]. Qed.
Lemma resolve_strip s a : resolve (strip s) a = strip (resolve s a).
Proof.
  unfold resolve. change (s_Tally (strip s)) with (s_Tally s).
  change (Size (s_FullnodeSet (strip s))) with (Size (s_FullnodeSet s)).
  change (s_FullnodeSet (strip s)) with (erase_set (s_FullnodeSet s)).
  rewrite AddFullnode_erase, RemoveFullnode_erase.
  destruct (s_Tally s !! a) as [t|]; simpl; (case_match; [|done]); [|done]. by destruct (t_Authorize t).
Qed.

Lemma apply_header_strip epoch s h : apply_header epoch (strip s) h = strip_res (apply_header epoch s h).
Proof.
  unfold apply_header. destruct (h_Number h) as [n|]; [|done]. case_match; [done|].
  fold (reset_at epoch n s) (reset_at epoch n (strip s)). rewrite reset_at_strip.
  destruct (ecrecover h) as [f|]; [|done].
  change (GetByAddress (s_FullnodeSet (strip (reset_at epoch n s))) f)
    with (GetByAddress (s_FullnodeSet (reset_at epoch n s)) f).
  destruct (GetByAddress _ f); [|done]. rewrite discard_previous_strip.
  set (s1 := discard_previous _ _ _). destruct (if h_Nonce h =? nonceAuthVote then _ else _) as [auth|]; [|done].
  pose proof (cast_vote_strip s1 (MkVote f (big_Uint64 n) (h_Coinbase h) auth)) as Hc.
  unfold cast_vote in Hc. cbn [v_Address v_Authorize] in Hc.
  destruct (cast (strip s1) (h_Coinbase h) auth) as [ok t], (cast s1 (h_Coinbase h) auth) as [ok' t'].
  cbn [strip_res]. do 2 f_equal. by rewrite Hc, resolve_strip.
Qed.

Lemma apply_headers_strip epoch s l : apply_headers epoch (strip s) l = strip_res (apply_headers epoch s l).
Proof.
  revert s. induction l as [|h l IH]; intros s; simpl; [done|]. rewrite apply_header_strip.
  destruct (apply_header epoch s h) as [[s'|e]|]; simpl; auto.
Qed.
End strip.

Lemma snapshot_copy_equiv s : snap_wf s → snapshot_copy s ≡ s.
Proof.
  intros [Hwf _ _ _ _]. unfold equiv, snapshot_equiv, erase, erase_set. simpl.
  by rewrite sort_fullnodes_id by apply Hwf.
Qed.

(** ** Numbers *)

Fixpoint contiguous (prev : Z) (numbers : list Z) : bool :=
  match numbers with
  | [] => true
  | n :: tl => (n =? u64 (prev + 1)) && contiguous n tl
  end.

Definition finish (s : Snapshot) (hs : list Header) : Snapshot :=
  MkSnapshot (s_Epoch s) (u64 (s_Number s + Z.of_nat (length hs)))
    (match last hs with Some h => Header_Hash h | None => 0 end)
    (s_Votes s) (s_Tally s) (s_FullnodeSet s).

Abbreviation numbered hs ns := (Forall2 (λ h n, h_Number h = Some n) hs ns).

Lemma consecutive_contiguous n ns hs : numbered hs ns →
  consecutive (Some n) (h_Number <$> hs) = Some (contiguous (big_Uint64 n) (big_Uint64 <$> ns)).
Proof.
  intros Hf. revert n. induction Hf as [|h m hs ns Hh Hf IH]; intros n; simpl; [done|].
  rewrite Hh. case_match; [|done]. by rewrite IH.
Qed.

(** [apply] on headers that all have a number. *)
Lemma apply_numbered s hs ns : numbered hs ns → hs ≠ [] →
  apply s hs = if contiguous (s_Number s) (big_Uint64 <$> ns)
               then match apply_headers (s_Epoch s) (snapshot_copy s) hs with
                    | Some (inl snap) => Some (inl (finish snap hs))
                    | r => r end
               else Some (inr errInvalidVotingChain).
Proof.
  intros Hf Hne. destruct Hf as [|h n hs ns Hh Hf]; [done|]. unfold apply.
  rewrite Hh, (consecutive_contiguous n ns hs Hf). cbn [fmap list_fmap contiguous].
  destruct (contiguous (big_Uint64 n) _); rewrite ?andb_true_r, ?andb_false_r; [|done]. by destruct (big_Uint64 n =? u64 (s_Number s + 1)).
Qed.

Lemma default_last_cons {A} (p n : A) l : default p (last (n :: l)) = default n (last l).
Proof. rewrite last_cons. by destruct (last l). Qed.

Lemma contiguous_last p l : contiguous p l = true → 0 <= p < two64 →
  default p (last l) = u64 (p + Z.of_nat (length l)).
Proof.
  revert p. induction l as [|n l IH]; intros p; cbn [contiguous length].
  - intros _ Hp. rewrite Z.add_0_r. symmetry. by apply u64_small.
  - intros [->%Z.eqb_eq Hc]%andb_true_iff Hp. pose proof (u64_range (p + 1)).
    rewrite default_last_cons, IH by done. unfold u64. rewrite Zplus_mod_idemp_l. f_equal. lia.
Qed.

Lemma contiguous_app p l1 l2 : contiguous p (l1 ++ l2) = contiguous p l1 && contiguous (default p (last l1)) l2.
Proof.
  revert p. induction l1 as [|n l1 IH]; intros p; [done|]. cbn [app contiguous].
  by rewrite IH, andb_assoc, default_last_cons.
Qed.

(** ** Applying in two goes *)

Lemma apply_headers_app epoch s l1 l2 :
  apply_headers epoch s (l1 ++ l2) =
  match apply_headers epoch s l1 with Some (inl s1) => apply_headers epoch s1 l2 | r => r end.
Proof.
  revert s. induction l1 as [|h l1 IH]; intros s; simpl; [done|].
  destruct (apply_header epoch s h) as [[s'|e]|]; [apply IH|done..].
Qed.

Lemma apply_header_fixed epoch s h s' : apply_header epoch s h = Some (inl s') →
  s_Epoch s' = s_Epoch s ∧ s_Number s' = s_Number s ∧ s_Hash s' = s_Hash s.
Proof.
  intros (n & f & auth & _ & _ & _ & _ & _ & ->)%apply_header_inv.
  unfold resolve, cast_vote, cast, discard_previous, reset_at.
  by repeat case_match; simplify_eq/=.
Qed.
Lemma apply_headers_fixed epoch s l s' : apply_headers epoch s l = Some (inl s') →
  s_Epoch s' = s_Epoch s ∧ s_Number s' = s_Number s ∧ s_Hash s' = s_Hash s ∧ (snap_wf s → snap_wf s').
Proof.
  revert s. induction l as [|h l IH]; intros s; simpl; [by intros [= <-]|].
  destruct (apply_header epoch s h) as [[s1|e]|] eqn:Hh; [|done..]. intros Hl.
  destruct (apply_header_fixed _ _ _ _ Hh) as (? & ? & ?), (IH _ Hl) as (? & ? & ? & ?).
  split_and!; [congruence..|]. eauto using apply_header_wf.
Qed.

Lemma apply_headers_equiv epoch s t l : s ≡ t →
  erase_res (apply_headers epoch s l) = erase_res (apply_headers epoch t l).
Proof.
  assert (∀ u, erase_res (apply_headers epoch u l)
             = apply_headers epoch (strip (s_Number u) (s_Hash u) u) l) as He.
  { intros u. rewrite apply_headers_strip. destruct (apply_headers epoch u l) as [[u'|]|] eqn:Hu; [|done..].
    destruct (apply_headers_fixed _ _ _ _ Hu) as (_ & Hn' & Hh' & _). simpl.
    unfold strip, erase, set_FullnodeSet. by rewrite Hn', Hh'. }
  intros Hst. rewrite !He. f_equal. exact Hst.
Qed.

#[global] Instance apply_headers_proper epoch :
  Proper ((≡) ==> (=) ==> (λ r r', erase_res r = erase_res r')) (apply_headers epoch).
Proof. intros s t Hst l ? <-. by apply apply_headers_equiv. Qed.

(** [apply] cannot tell equivalent snapshots apart. *)
Lemma apply_equiv s t hs : s ≡ t → erase_res (apply s hs) = erase_res (apply t hs).
Proof.
  intros Hst. assert (snapshot_copy s = snapshot_copy t) as Hc.
  { destruct s as [e n h v ta [f p sp]], t as [e' n' h' v' ta' [f' p' sp']].
    unfold equiv, snapshot_equiv, erase in Hst. simpl in Hst. by simplify_eq. }
  pose proof (f_equal s_Number Hst) as Hn. pose proof (f_equal s_Epoch Hst) as He. simpl in Hn, He.
  destruct hs as [|h0 hs]; [by cbn; rewrite Hst|]. unfold apply. by rewrite Hc, Hn, He.
Qed.

Lemma finish_wf s hs : snap_wf s → snap_wf (finish s hs).
Proof. by intros []. Qed.

Lemma apply_snap_wf s hs s' : snap_wf s → apply s hs = Some (inl s') → snap_wf s'.
Proof.
  intros Hwf. unfold apply. destruct hs as [|h0 hs]; [by intros [= <-]|].
  destruct (consecutive _ _) as [[]|]; [|done..]. destruct (h_Number h0); [|done].
  case_match; [done|]. destruct (apply_headers _ _ _) as [[s1|]|] eqn:Hs1; [|done..].
  intros [= <-]. apply (finish_wf s1 (h0 :: hs)).
  by apply (apply_headers_fixed _ _ _ _ Hs1), snapshot_copy_wf.
Qed.

Lemma apply_finish_strip epoch s l hs :
  erase_res match apply_headers epoch s l with
            | Some (inl snap) => Some (inl (finish snap hs)) | r => r end
  = apply_headers epoch (strip (u64 (s_Number s + Z.of_nat (length hs)))
                           (match last hs with Some h => Header_Hash h | None => 0 end) s) l.
Proof.
  rewrite apply_headers_strip. destruct (apply_headers epoch s l) as [[u|]|] eqn:Hu; [|done..].
  destruct (apply_headers_fixed _ _ _ _ Hu) as (_ & Hn & _ & _). simpl.
  unfold strip, finish, erase, set_FullnodeSet. simpl. by rewrite Hn.
Qed.

(** Applying headers in two goes, through any intermediate snapshot, is
    applying them in one. *)
Lemma apply_two s l1 l2 s1 ns1 ns2 : snap_wf s → 0 <= s_Number s < two64 →
  numbered l1 ns1 → numbered l2 ns2 → apply s l1 = Some (inl s1) →
  erase_res (apply s (l1 ++ l2)) = erase_res (apply s1 l2).
Proof.
  intros Hwf Hnum Hf1 Hf2. destruct (decide (l1 = [])) as [->|Hne1]; [by intros [= <-]|].
  intros H1. destruct (decide (l2 = [])) as [->|Hne2]; [by rewrite app_nil_r, H1|].
  pose proof (apply_snap_wf _ _ _ Hwf H1) as Hwf1.
  rewrite (apply_numbered s l1 ns1) in H1 by done.
  rewrite (apply_numbered s (l1 ++ l2) (ns1 ++ ns2)) by (try apply Forall2_app; destruct l1; done).
  rewrite (apply_numbered s1 l2 ns2) by done. rewrite fmap_app, contiguous_app.
  destruct (contiguous (s_Number s) (big_Uint64 <$> ns1)) eqn:Hc1; [|done]. simpl.
  rewrite (contiguous_last _ _ Hc1 Hnum), length_fmap, <-(Forall2_length _ _ _ Hf1).
  destruct (apply_headers (s_Epoch s) (snapshot_copy s) l1) as [[t1|]|] eqn:Ht1; [|done..].
  injection H1 as <-. destruct (apply_headers_fixed _ _ _ _ Ht1) as (He & Hn & _ & _).
  change (s_Number (finish t1 l1)) with (u64 (s_Number t1 + Z.of_nat (length l1))). rewrite Hn.
  destruct (contiguous _ (big_Uint64 <$> ns2)); [|done].
  rewrite apply_headers_app, Ht1. change (s_Epoch (finish t1 l1)) with (s_Epoch t1). rewrite He.
  change (s_Epoch (snapshot_copy s)) with (s_Epoch s).
  rewrite !apply_finish_strip. f_equal.
  destruct Hwf1 as [[Hsort _] _ _ _ _]. simpl in Hsort. unfold strip, erase_set. simpl.
  rewrite (sort_fullnodes_id _ Hsort). f_equal.
  - rewrite Hn, length_app. unfold u64. rewrite Zplus_mod_idemp_l. f_equal. simpl. lia.
  - rewrite last_app. by destruct (last l2) eqn:Hl; [|apply last_None in Hl].
Qed.

(** Stopping at an intermediate snapshot does not change the outcome: the
    snapshot found in a cache, completed with the headers that follow it, is
    the one all the headers give. *)
Theorem apply_app s l1 l2 s1 ns1 ns2 : snap_wf s → 0 <= s_Number s < two64 →
  numbered l1 ns1 → numbered l2 ns2 → apply s l1 = Some (inl s1) →
  erase_res (apply s (l1 ++ l2)) = erase_res (apply s1 l2).
Proof. apply apply_two. Qed.
End chain.
