(* ===== verification/Engine.v ===== *)
(** * The consensus engine: consensus/sport/backend/{backend,backend_engine,
    backend_engine_sport,backend_impl,backend_handler_sport,api,api_sport}.go

    The struct [backend] is the state [backend]; its methods are functions in
    the monad [M backend].  What they call outside of the package is the record
    [Env]: the chain reader, the clock, the random generator, the state
    database, the key, and the behaviour of the caches (third-party ARC caches,
    which may forget entries) and of the key-value store. *)

From Stdlib Require Import ZArith Lia.
From S2P Require Import Prelude Errors Rlp Fullnode Messages Core Header Snapshot.
Open Scope didux_scope.

(** [sport.Config], the fields the engine reads. *)
Record EngineConfig := MkEngineConfig {
  cf_BlockPeriod : Z; cf_SpeakerPolicy : Z; cf_Epoch : Z; cf_MinFunds : Z;
  cf_CommunityAddress : option address; cf_MinBlocksEmptyMining : Z
}.

Record Env := MkEnv {
  e_GetHeader : hash → Z → option Header;
  e_GetHeaderByNumber : Z → option Header;
  e_GetHeaderByHash : hash → option Header;
  e_CurrentHeader : option Header;
  e_SixtySixPercentBlock : option Z;
  e_nanos : Z;                                (* now(), in nanoseconds since the epoch *)
  e_Intn : nat → nat;                         (* rand.Intn *)
  e_State : result (address → Z);             (* balances of chain.State() *)
  e_sign : hash → result bytes;               (* crypto.Sign with the private key *)
  e_db_Put : hash → err;
  e_hasBadBlock : option (hash → bool);
  e_evict : gmap Z Snapshot → gmap Z Snapshot (* what recents keeps on insertion *)
}.

(** [now().Unix()]. *)
Definition e_now (env : Env) : Z := e_nanos env / 1000000000.

Record backend := MkBackendState {
  b_config : EngineConfig;
  b_address : address;
  b_recents : gmap Z Snapshot;
  b_db : gmap Z snapshotJSON;
  b_candidates : gmap Z bool;
  b_coreStarted : bool;
  b_proposedBlockHash : hash
}.
Definition set_recents (v : gmap Z Snapshot) (b : backend) : backend :=
  MkBackendState (b_config b) (b_address b) v (b_db b) (b_candidates b) (b_coreStarted b) (b_proposedBlockHash b).
Definition set_db (v : gmap Z snapshotJSON) (b : backend) : backend :=
  MkBackendState (b_config b) (b_address b) (b_recents b) v (b_candidates b) (b_coreStarted b) (b_proposedBlockHash b).
Definition set_candidates (v : gmap Z bool) (b : backend) : backend :=
  MkBackendState (b_config b) (b_address b) (b_recents b) (b_db b) v (b_coreStarted b) (b_proposedBlockHash b).
Definition set_coreStarted (v : bool) (b : backend) : backend :=
  MkBackendState (b_config b) (b_address b) (b_recents b) (b_db b) (b_candidates b) v (b_proposedBlockHash b).
Definition set_proposedBlockHash (v : hash) (b : backend) : backend :=
  MkBackendState (b_config b) (b_address b) (b_recents b) (b_db b) (b_candidates b) (b_coreStarted b) v.

Definition checkpointInterval : Z := 1024.
Definition defaultDifficulty : Z := 1.
Definition emptyNonce : Z := 0.

(** [types.Block]: the header, the transactions, the uncles. *)
Record Block (T : Type) := MkBlock { blk_header : Header; blk_txs : list T; blk_uncles : list Header }.
Arguments MkBlock {_}. Arguments blk_header {_}. Arguments blk_txs {_}. Arguments blk_uncles {_}.

(** What [Commit] does with the block: to the sealer, to the block fetcher. *)
Inductive commit_output (T : Type) : Type :=
  | ToCommitCh (b : Block T)
  | Enqueue (b : Block T).
Arguments ToCommitCh {_}. Arguments Enqueue {_}.

Section engine.
Context `{!Crypto, !AddrString}.
Local Abbreviation BM A := (M backend A).

(** Sequencing a fallible step: an error is returned at once. *)
Definition ebind {A B} (m : BM (result A)) (f : A → BM (result B)) : BM (result B) :=
  let! r := m in match r with inl a => f a | inr e => mret' (inr e) end.
Local Notation "'try!' x ':=' m 'in' k" := (ebind m (λ x, k))
  (at level 10, x pattern, m at level 100, k at level 200).
Definition ecall (e : err) : BM (result ()) :=
  mret' match e with None => inl () | Some e => inr e end.

(** [types.EmptyUncleHash], and [types.CalcUncleHash(nil)], which is it. *)
Definition EmptyUncleHash : hash := rlpHash (Some (Lst [])).
Definition nilUncleHash : hash := EmptyUncleHash.

(** ** Snapshots *)

Definition loadSnapshot (epoch : Z) (b : backend) (h : hash) : option Snapshot :=
  match b_db b !! h with
  | None => None
  | Some j => let s := fromJSONStruct j in
              Some (MkSnapshot epoch (s_Number s) (s_Hash s) (s_Votes s) (s_Tally s) (s_FullnodeSet s))
  end.

Definition store (env : Env) (s : Snapshot) : BM (result ()) :=
  match e_db_Put env (s_Hash s) with
  | Some e => mret' (inr e)
  | None => do! mmod (λ b, set_db (<[s_Hash s := toJSONStruct s]> (b_db b)) b) in mret' (inl ())
  end.

(** The end of [snapshot]: replay the gathered headers (newest first) on the
    snapshot found. *)
Definition snapshot_finish (env : Env) (snap : Snapshot) (headers : list Header) : BM (result Snapshot) :=
  let! r := mderef (apply snap (reverse headers)) in
  match r with
  | inr e => mret' (inr e)
  | inl snap =>
      do! mmod (λ b, set_recents (e_evict env (<[s_Hash snap := snap]> (b_recents b))) b) in
      if (s_Number snap mod checkpointInterval =? 0) && negb (length headers =? 0)%nat then
        try! _ := store env snap in mret' (inl snap)
      else mret' (inl snap)
  end.

(** The checks of [verifyHeader] that need no other block. *)
Definition verifyHeader_standalone (env : Env) (h : Header) : err :=
  match h_Number h with
  | None => Some errUnknownBlock
  | Some _ =>
      if 0 <? big_Cmp (i64 (h_Time h)) (e_now env) then Some ErrFutureBlock else
      match ExtractSportExtra h with
      | inr _ => Some errInvalidExtraDataFormat
      | inl _ =>
          if negb (h_Nonce h =? emptyNonce) && negb (h_Nonce h =? nonceAuthVote)
             && negb (h_Nonce h =? nonceDropVote) then Some errInvalidNonce
          else if negb (h_MixDigest h =? SportDigest) then Some errInvalidMixDigest
          else if negb (h_UncleHash h =? nilUncleHash) then Some errInvalidUncleHash
          else match h_Difficulty h with
               | None => Some errInvalidDifficulty
               | Some d => if negb (big_Cmp d defaultDifficulty =? 0) then Some errInvalidDifficulty
                           else None
               end
      end
  end.

(** The functions that verify a header are parametric in [snapshot], which calls
    [VerifyHeader] on the genesis block. *)
Section with_snapshot.
Context (env : Env) (snapshot : Z → hash → list Header → BM (result Snapshot)).

Definition verifySigner (h : Header) (parents : list Header) : BM (result ()) :=
  let! n := mderef (h_Number h) in
  let number := big_Uint64 n in
  if number =? 0 then mret' (inr errUnknownBlock) else
  try! snap := snapshot (u64 (number - 1)) (h_ParentHash h) parents in
  try! signer := mret' (ecrecover h) in
  match GetByAddress (s_FullnodeSet snap) signer with
  | None => mret' (inr errUnauthorized)
  | Some _ => mret' (inl ())
  end.

(** The loop over the committed seals: how many were removed from [fs]. *)
Fixpoint count_seals (proposalSeal : bytes) (fs : fullnodeSet) (seals : list bytes) : result Z :=
  match seals with
  | [] => inl 0
  | seal :: tl =>
      match GetSignatureAddress proposalSeal seal with
      | inr _ => inr errInvalidSignature
      | inl addr =>
          match RemoveFullnode fs addr with
          | (true, fs') => match count_seals proposalSeal fs' tl with
                           | inl n => inl (n + 1) | inr e => inr e end
          | (false, _) => inr errInvalidCommittedSeals
          end
      end
  end.

Definition verifyCommittedSeals (h : Header) (parents : list Header) : BM (result ()) :=
  let! n := mderef (h_Number h) in
  let number := big_Uint64 n in
  if number =? 0 then mret' (inl ()) else
  try! snap := snapshot (u64 (number - 1)) (h_ParentHash h) parents in
  try! extra := mret' (ExtractSportExtra h) in
  if (length (ex_CommittedSeal extra) =? 0)%nat then mret' (inr errEmptyCommittedSeals) else
  let proposalSeal := PrepareCommittedSeal (Header_Hash h) in
  try! validSeal := mret' (count_seals proposalSeal (Copy (s_FullnodeSet snap)) (ex_CommittedSeal extra)) in
  let minApprovers := MinApprovers (s_FullnodeSet snap) in
  if validSeal <? minApprovers then
    let! fork := mderef (e_SixtySixPercentBlock env) in
    if (0 <? big_Cmp n fork) || (validSeal <? minApprovers - 1)
    then mret' (inr errInvalidCommittedSeals) else mret' (inl ())
  else mret' (inl ()).

Definition verifyCascadingFields (h : Header) (parents : list Header) : BM (result ()) :=
  let! n := mderef (h_Number h) in
  let number := big_Uint64 n in
  if number =? 0 then mret' (inl ()) else
  let parent := match last parents with
                | Some p => Some p
                | None => e_GetHeader env (h_ParentHash h) (u64 (number - 1))
                end in
  match parent with
  | None => mret' (inr ErrUnknownAncestor)
  | Some parent =>
      let! pn := mderef (h_Number parent) in
      if negb (big_Uint64 pn =? u64 (number - 1)) || negb (Header_Hash parent =? h_ParentHash h)
      then mret' (inr ErrUnknownAncestor) else
      let! b := mget in
      if h_Time h <? u64 (h_Time parent + cf_BlockPeriod (b_config b))
      then mret' (inr errInvalidTimestamp) else
      try! snap := snapshot (u64 (number - 1)) (h_ParentHash h) parents in
      try! _ := verifySigner h parents in
      verifyCommittedSeals h parents
  end.

Definition verifyHeader (h : Header) (parents : list Header) : BM (result ()) :=
  match verifyHeader_standalone env h with
  | Some e => mret' (inr e)
  | None => verifyCascadingFields h parents
  end.
End with_snapshot.

(** The loop of [snapshot]; the headers gathered come newest first. *)
Fixpoint find_snapshot (fuel : nat) (env : Env) (number : Z) (h : hash) (parents headers : list Header)
    : BM (result (Snapshot * list Header)) :=
  match fuel with
  | O => mpanic
  | S fuel' =>
      let! b := mget in
      match b_recents b !! h with
      | Some s => mret' (inl (s, headers))
      | None =>
      match (if number mod checkpointInterval =? 0 then loadSnapshot (cf_Epoch (b_config b)) b h else None) with
      | Some s => mret' (inl (s, headers))
      | None =>
      if number =? 0 then
        let! genesis := mderef (e_GetHeaderByNumber env 0) in
        try! _ := verifyHeader env (λ n h ps,
                    try! r := find_snapshot fuel' env n h ps [] in
                    snapshot_finish env r.1 r.2) genesis [] in
        try! sportExtra := mret' (ExtractSportExtra genesis) in
        let snap := newSnapshot (cf_Epoch (b_config b)) 0 (Header_Hash genesis)
                      (newFullnodeSet (ex_Fullnodes sportExtra) (cf_SpeakerPolicy (b_config b))) in
        try! _ := store env snap in
        mret' (inl (snap, headers))
      else
        match last parents with
        | Some header =>
            if negb (Header_Hash header =? h) then mret' (inr ErrUnknownAncestor) else
            let! hn := mderef (h_Number header) in
            if negb (big_Uint64 hn =? number) then mret' (inr ErrUnknownAncestor)
            else find_snapshot fuel' env (u64 (number - 1)) (h_ParentHash header)
                   (removelast parents) (headers ++ [header])
        | None =>
            match e_GetHeader env h number with
            | None => mret' (inr ErrUnknownAncestor)
            | Some header => find_snapshot fuel' env (u64 (number - 1)) (h_ParentHash header) []
                               (headers ++ [header])
            end
        end
      end end
  end.

(** A block number is reached in at most [number + 1] iterations. *)
Definition snapshot (env : Env) (number : Z) (h : hash) (parents : list Header) : BM (result Snapshot) :=
  try! r := find_snapshot (S (Z.to_nat number)) env number h parents [] in
  snapshot_finish env r.1 r.2.

(** ** Verification *)

Definition Author (h : Header) : result address := ecrecover h.

Definition VerifyHeader (env : Env) (h : Header) : BM (result ()) :=
  verifyHeader env (snapshot env) h [].

(** The results [VerifyHeaders] sends, in order, when it is not aborted. *)
Fixpoint VerifyHeaders (env : Env) (verified headers : list Header) : BM (list (result ())) :=
  match headers with
  | [] => mret' []
  | h :: tl =>
      let! r := verifyHeader env (snapshot env) h verified in
      let! rs := VerifyHeaders env (verified ++ [h]) tl in
      mret' (r :: rs)
  end.

Definition VerifyUncles (uncles : list Header) : err :=
  if (0 <? length uncles)%nat then Some errInvalidUncleHash else None.

Definition VerifySeal (env : Env) (h : Header) : BM (result ()) :=
  let! n := mderef (h_Number h) in
  if big_Uint64 n =? 0 then mret' (inr errUnknownBlock) else
  let! d := mderef (h_Difficulty h) in
  if negb (big_Cmp d defaultDifficulty =? 0) then mret' (inr errInvalidDifficulty) else
  verifySigner (snapshot env) h [].

Definition SealHash (h : Header) : hash := sigHash h.

(** ** Blocks *)

Definition WithSeal {T} (b : Block T) (h : Header) : Block T := MkBlock h (blk_txs b) (blk_uncles b).
Definition Block_Hash {T} (b : Block T) : hash := Header_Hash (blk_header b).
(** The header of a block comes from [CopyHeader] or from the decoder: its
    number is never nil. *)
Definition Block_Number {T} (b : Block T) : Z := big_or_zero (h_Number (blk_header b)).

Definition CalcUncleHash (uncles : list Header) : hash :=
  match uncles with
  | [] => EmptyUncleHash
  | _ => rlpHash (enc_slice Header_EncodeRLP uncles)
  end.

Definition HasBadBlockProposal (env : Env) (h : hash) : bool :=
  match e_hasBadBlock env with None => false | Some f => f h end.

(** [time.Time.Sub], in nanoseconds: the difference saturates. *)
Definition time_Sub (t u : Z) : Z := Z.max (- two63) (Z.min (two63 - 1) (t - u)).

(** [Verify]; [deriveSha] is the root of the transaction trie. *)
Definition Verify {T} (deriveSha : list T → hash) (env : Env) (b : Block T) : BM (Z * err) :=
  if HasBadBlockProposal env (Block_Hash b) then mret' (0, Some ErrBlacklistedHash) else
  if negb (deriveSha (blk_txs b) =? h_TxHash (blk_header b)) then mret' (0, Some errMismatchTxhashes) else
  if negb (CalcUncleHash (blk_uncles b) =? nilUncleHash) then mret' (0, Some errInvalidUncleHash) else
  let! r := VerifyHeader env (CopyHeader (blk_header b)) in
  mret' match r with
  | inl _ => (0, None)
  | inr e =>
      if bool_decide (e = errEmptyCommittedSeals) then (0, None)
      else if bool_decide (e = ErrFutureBlock)
           then (time_Sub (i64 (h_Time (blk_header b)) * Second) (e_nanos env), Some ErrFutureBlock)
      else (0, Some e)
  end.

Definition Commit {T} (broadcaster : bool) (b : backend) (proposal : Block T) (seals : list bytes)
    : err * list (commit_output T) :=
  match writeCommittedSeals (CopyHeader (blk_header proposal)) seals with
  | inr e => (Some e, [])
  | inl h =>
      let block := WithSeal proposal h in
      if b_proposedBlockHash b =? Block_Hash block then (None, [ToCommitCh block])
      else (None, if broadcaster then [Enqueue block] else [])
  end.

Definition CheckSignature (data : bytes) (a : address) (sig : bytes) : err :=
  match GetSignatureAddress data sig with
  | inr e => Some e
  | inl signer => if negb (signer =? a) then Some errInvalidSignature else None
  end.

Definition HasBlockProposal (env : Env) (h : hash) (number : Z) : bool :=
  match e_GetHeader env h (big_Uint64 number) with Some _ => true | None => false end.

Definition backend_GetSpeaker (env : Env) (number : Z) : address :=
  match e_GetHeaderByNumber env number with
  | Some h => match Author h with inl a => a | inr _ => 0 end
  | None => 0
  end.

Definition getFullnodes (env : Env) (number : Z) (h : hash) : BM fullnodeSet :=
  let! r := snapshot env number h [] in
  let! b := mget in
  mret' match r with
  | inr _ => newFullnodeSet [] (cf_SpeakerPolicy (b_config b))
  | inl snap => s_FullnodeSet snap
  end.
Definition Fullnodes {T} (env : Env) (b : Block T) : BM fullnodeSet :=
  getFullnodes env (big_Uint64 (Block_Number b)) (Block_Hash b).
Definition ParentFullnodes {T} (env : Env) (b : Block T) : BM fullnodeSet :=
  getFullnodes env (u64 (big_Uint64 (Block_Number b) - 1)) (h_ParentHash (blk_header b)).

Definition LastBlockProposal {T} (block : Block T) : option (Block T) * address :=
  if 0 <? big_Cmp (Block_Number block) 0 then
    match Author (CopyHeader (blk_header block)) with
    | inr _ => (None, 0)
    | inl speaker => (Some block, speaker)
    end
  else (Some block, 0).

(** ** Rewards *)

(** [smiloTokenMetricsTable]: the reward in wei below each block number. *)
Definition gwei : Z := 1000000000.
Definition smiloTokenMetricsTable : list (Z * Z) :=
  [(20000000, 4000000000 * gwei); (40000000, 2000000000 * gwei); (60000000, 1750000000 * gwei);
   (80000000, 1500000000 * gwei); (100000000, 1250000000 * gwei); (120000000, 1000000000 * gwei);
   (140000000, 800000000 * gwei); (160000000, 600000000 * gwei); (180000000, 400000000 * gwei);
   (200000000, 200000000 * gwei); (400000000, 100000000 * gwei); (800000000, 50000000 * gwei);
   (1600000000, 25000000 * gwei)].

(** The loop over the table, in the order the map iteration happens to take. *)
Definition getSmiloBlockReward (table : list (Z * Z)) (blockNum : Z) : Z :=
  foldl (λ blockReward '(maxBlockRange, reward),
    if big_Cmp blockNum maxBlockRange =? -1 then
      if 0 <? big_Cmp reward blockReward then reward else blockReward
    else blockReward) 0 table.

(** Balances of the state database, as far as the engine touches them. *)
Definition AddBalance (state : gmap Z Z) (a : address) (amount : Z) : gmap Z Z :=
  <[a := default 0 (state !! a) + amount]> state.

Definition AccumulateRewards (table : list (Z * Z)) (community : option address) (state : gmap Z Z)
    (number : Z) (coinbase : address) : gmap Z Z :=
  let blockReward := getSmiloBlockReward table number in
  if coinbase =? 0 then state else
  let state := match community with
               | Some c => AddBalance state c (blockReward / 4)
               | None => state
               end in
  AddBalance state coinbase blockReward.

(** The condition under which [Finalize] pays the rewards. *)
Definition pays_rewards (number : Z) (txs : nat) : bool :=
  (0 <? big_Cmp number 1) && (0 <? txs)%nat || (big_Int64 number <? 40000000).
End engine.
