(* ===== verification/EngineSnapshot.v ===== *)
(** * The snapshot of a block, through the caches

    [snapshot] walks back from a block to the nearest snapshot it finds in
    memory, on disk or at the genesis block, and replays the headers in
    between.  On a chain of headers it always returns, and whatever the caches
    hold of that chain, the result is the replay of all the headers from
    genesis. *)

From Stdlib Require Import ZArith Lia.
From S2P Require Import Prelude Errors Rlp Fullnode Messages Core Header Snapshot Engine.
Open Scope didux_scope.

Section disk.
Context `{!Crypto, !AddrString}.

(** A snapshot survives its trip to the disk. *)
Lemma json_roundtrip_equiv s : snap_wf s → fromJSONStruct (toJSONStruct s) ≡ s.
Proof.
  intros [[Hsort _] _ _ _ _]. unfold equiv, snapshot_equiv, erase, erase_set. simpl.
  destruct (fullnodes_spec s) as [Hp _].
  by rewrite (sort_fullnodes_proper _ _ Hp), (sort_fullnodes_id _ Hsort).
Qed.

Lemma snap_wf_equiv s t : s ≡ t → snap_wf t → snap_wf s.
Proof.
  intros Hst []. destruct s as [e n h v ta [f p sp]], t as [e' n' h' v' ta' [f' p' sp']].
  unfold equiv, snapshot_equiv, erase in Hst. simpl in Hst. simplify_eq. by split.
Qed.

Lemma equiv_fields s t : s ≡ t → s_Number s = s_Number t ∧ s_Hash s = s_Hash t ∧ s_Epoch s = s_Epoch t ∧
  s_Votes s = s_Votes t ∧ s_Tally s = s_Tally t ∧
  fs_fullnodes (s_FullnodeSet s) = fs_fullnodes (s_FullnodeSet t).
Proof.
  intros Hst. destruct s as [e n h v ta [f p sp]], t as [e' n' h' v' ta' [f' p' sp']].
  unfold equiv, snapshot_equiv, erase in Hst. simpl in *. by simplify_eq.
Qed.

Lemma apply_header_total epoch s h n : epoch ≠ 0 → h_Number h = Some n →
  ∃ r, apply_header epoch s h = Some r.
Proof. intros He Hn. unfold apply_header. rewrite Hn. destruct (Z.eqb_spec epoch 0); [done|]. eauto. Qed.
Lemma apply_headers_total epoch s hs ns : epoch ≠ 0 → Forall2 (λ h n, h_Number h = Some n) hs ns →
  ∃ r, apply_headers epoch s hs = Some r.
Proof.
  intros He Hf. revert s. induction Hf as [|h n hs ns Hh Hf IH]; intros s; simpl; [eauto|].
  destruct (apply_header_total epoch s h n He Hh) as [[s'|e] ->]; [apply IH|eauto].
Qed.
Lemma apply_total s hs ns : s_Epoch s ≠ 0 → Forall2 (λ h n, h_Number h = Some n) hs ns →
  ∃ r, apply s hs = Some r.
Proof.
  intros He Hf. destruct (decide (hs = [])) as [->|Hne]; [by eexists|].
  rewrite (apply_numbered s hs ns) by done. case_match; [|eauto].
  destruct (apply_headers_total (s_Epoch s) (snapshot_copy s) hs ns He Hf) as [[s'|e] ->]; eauto.
Qed.
End disk.

Section correct.
Context `{!Crypto, !AddrString}.
Context (env : Env) (cfg : EngineConfig) (g : Header) (ge : SportExtra) (hs : list Header).

(** The hash of block [k] of the chain. *)
Definition hash_at (k : nat) : hash :=
  match k with
  | O => Header_Hash g
  | S i => match hs !! i with Some h => Header_Hash h | None => 0 end
  end.

(** [env] is a reader of the chain [g], [hs]; the store does not fail and the
    cache only forgets. *)
Record chain_ok : Prop := {
  ch_genesis : e_GetHeaderByNumber env 0 = Some g;
  ch_g_number : h_Number g = Some 0;
  ch_g_valid : verifyHeader_standalone env g = None;
  ch_g_extra : ExtractSportExtra g = inl ge;
  ch_g_nodup : NoDup (ex_Fullnodes ge);
  ch_header i h : hs !! i = Some h →
    h_Number h = Some (Z.of_nat (S i)) ∧ h_ParentHash h = hash_at i ∧
    e_GetHeader env (Header_Hash h) (Z.of_nat (S i)) = Some h;
  ch_length : Z.of_nat (length hs) < two64;
  ch_distinct i j : (i <= length hs)%nat → (j <= length hs)%nat → hash_at i = hash_at j → i = j;
  ch_epoch : cf_Epoch cfg ≠ 0;
  ch_put h : e_db_Put env h = None;
  ch_evict m k s : e_evict env m !! k = Some s → m !! k = Some s
}.

Definition genesis_snapshot : Snapshot :=
  newSnapshot (cf_Epoch cfg) 0 (Header_Hash g) (newFullnodeSet (ex_Fullnodes ge) (cf_SpeakerPolicy cfg)).

(** The reference: replay the first [k] headers from genesis. *)
Definition reference (k : nat) : option (result Snapshot) := apply genesis_snapshot (take k hs).

Definition agrees (k : nat) (s : Snapshot) : Prop :=
  ∃ r, reference k = Some (inl r) ∧ s ≡ r.

(** What the caches hold of this chain is right. *)
Record caches_ok (b : backend) : Prop := {
  co_config : b_config b = cfg;
  co_recents k s : (k <= length hs)%nat → b_recents b !! hash_at k = Some s → agrees k s;
  co_db k s : (k <= length hs)%nat → loadSnapshot (cf_Epoch cfg) b (hash_at k) = Some s → agrees k s
}.

Context (Hch : chain_ok).

Lemma genesis_wf : snap_wf genesis_snapshot.
Proof using Hch. apply newSnapshot_wf, newFullnodeSet_wf, Hch. Qed.

Lemma chain_numbered k : Forall2 (λ h n, h_Number h = Some n) (take k hs) (Z.of_nat <$> seq 1 (length (take k hs))).
Proof using Hch.
  apply Forall2_fmap_r, Forall2_same_length_lookup. split; [by rewrite length_seq|].
  intros i h n Hh Hn. apply lookup_seq in Hn as [-> _]. apply lookup_take_Some in Hh as [Hh _].
  by apply (ch_header Hch) in Hh as [? _].
Qed.

Lemma chain_split k0 k : (k0 <= k)%nat →
  take k hs = take k0 hs ++ drop k0 (take k hs) ∧
  ∃ ns, Forall2 (λ h n, h_Number h = Some n) (drop k0 (take k hs)) ns.
Proof using Hch.
  intros Hle. split.
  - rewrite <-(take_drop k0 (take k hs)) at 1. by rewrite take_take, Nat.min_l.
  - exists (drop k0 (Z.of_nat <$> seq 1 (length (take k hs)))). apply Forall2_drop, chain_numbered.
Qed.

Lemma reference_total k : ∃ r, reference k = Some r.
Proof using Hch. eapply apply_total; [apply (ch_epoch Hch)|apply chain_numbered]. Qed.

Lemma last_take k : (0 < k <= length hs)%nat → 
  match last (take k hs) with Some h => Header_Hash h | None => 0 end = hash_at k.
Proof using.
  intros [Hk Hl]. destruct k as [|i]; [lia|]. destruct (lookup_lt_is_Some_2 hs i ltac:(lia)) as [h Hh].
  rewrite (take_S_r _ _ _ Hh), last_snoc. simpl. by rewrite Hh.
Qed.

Lemma reference_inv k r : (k <= length hs)%nat → reference k = Some (inl r) →
  s_Number r = Z.of_nat k ∧ s_Hash r = hash_at k ∧ s_Epoch r = cf_Epoch cfg ∧ snap_wf r.
Proof using Hch.
  intros Hk Hr. pose proof (apply_snap_wf _ _ _ genesis_wf Hr) as Hwf. unfold reference in Hr.
  destruct (decide (k = 0%nat)) as [->|Hne]; [by injection Hr as <-|].
  assert (take k hs ≠ []) as Hnil.
  { intros Hn%(f_equal length). rewrite length_take in Hn. simpl in Hn. lia. }
  rewrite (apply_numbered _ _ _ (chain_numbered k) Hnil) in Hr. case_match; [|done].
  destruct (apply_headers _ _ _) as [[s1|]|] eqn:Hs1; [|done..]. injection Hr as <-.
  destruct (apply_headers_fixed _ _ _ _ Hs1) as (He & Hn & _ & _). pose proof (ch_length Hch).
  split_and!; [|apply last_take; lia|done|done]. simpl. rewrite Hn. simpl.
  rewrite length_take, Nat.min_l by lia. apply u64_small. lia.
Qed.

Lemma agrees_inv k s : (k <= length hs)%nat → agrees k s →
  s_Number s = Z.of_nat k ∧ s_Hash s = hash_at k ∧ s_Epoch s = cf_Epoch cfg ∧ snap_wf s.
Proof using Hch.
  intros Hk (r & Hr & Heq). destruct (reference_inv k r Hk Hr) as (? & ? & ? & ?).
  destruct (equiv_fields _ _ Heq) as (? & ? & ? & _). split_and!; [congruence..|]. by eapply snap_wf_equiv.
Qed.

(** Replaying the rest of the chain on a snapshot that agrees with it. *)
Lemma agrees_apply k0 k s : (k0 <= k <= length hs)%nat → agrees k0 s →
  match reference k with
  | Some (inl r) => ∃ s', apply s (drop k0 (take k hs)) = Some (inl s') ∧ s' ≡ r
  | Some (inr e) => apply s (drop k0 (take k hs)) = Some (inr e)
  | None => False
  end.
Proof using Hch.
  intros Hk (r0 & Hr0 & Heq). destruct (chain_split k0 k ltac:(lia)) as [Hsplit [ns Hns]].
  pose proof (apply_equiv s r0 (drop k0 (take k hs)) Heq) as Hq.
  pose proof (apply_two genesis_snapshot (take k0 hs) (drop k0 (take k hs)) r0 _ ns genesis_wf
                ltac:(done) (chain_numbered k0) Hns Hr0) as Htwo.
  rewrite <-Hsplit in Htwo. fold (reference k) in Htwo. rewrite <-Hq in Htwo.
  destruct (reference_total k) as [[r|e] Hr]; rewrite Hr in *; simpl in Htwo.
  - destruct (apply s _) as [[s'|]|]; try discriminate. exists s'. split; [done|]. symmetry.
    exact (f_equal (λ x, match x with Some (inl y) => y | _ => erase r end) Htwo).
  - destruct (apply s _) as [[s'|]|]; by simplify_eq/=.
Qed.

(** Writing a snapshot of the chain to the caches keeps them right. *)
Lemma caches_store b k s : (k <= length hs)%nat → caches_ok b → agrees k s →
  caches_ok (set_db (<[hash_at k := toJSONStruct s]> (b_db b)) b).
Proof using Hch.
  intros Hk [Hc Hr Hd] Ha. split; [done|done|]. intros k' s' Hk'. unfold loadSnapshot. simpl.
  rewrite lookup_insert. case_decide as Heq; [|by apply (Hd k')].
  apply (ch_distinct Hch) in Heq as <-; [|done..]. intros [= <-].
  destruct (agrees_inv k s Hk Ha) as (_ & _ & He & Hwf). destruct Ha as (r & Hr' & Heq).
  exists r. split; [done|]. rewrite <-Heq. etransitivity; [|by apply json_roundtrip_equiv].
  unfold equiv, snapshot_equiv, erase, set_FullnodeSet. simpl. by rewrite He.
Qed.

Lemma caches_recents b k s : (k <= length hs)%nat → caches_ok b → agrees k s →
  caches_ok (set_recents (e_evict env (<[hash_at k := s]> (b_recents b))) b).
Proof using Hch.
  intros Hk [Hc Hr Hd] Ha. split; [done| |done]. intros k' s' Hk' Hl. simpl in Hl.
  apply (ch_evict Hch), lookup_insert_Some in Hl as [[Heq ->]|[_ Hl]]; [|by apply (Hr k')].
  by apply (ch_distinct Hch) in Heq as <-.
Qed.

Lemma genesis_agrees : agrees 0 genesis_snapshot.
Proof using. by exists genesis_snapshot. Qed.

Lemma drop_take_nil k : drop k (take k hs) = [].
Proof using. apply drop_ge. rewrite length_take. lia. Qed.
Lemma drop_take_snoc k0 i h : (k0 <= i)%nat → hs !! i = Some h →
  drop k0 (take (S i) hs) = drop k0 (take i hs) ++ [h].
Proof using.
  intros Hle Hh. rewrite (take_S_r _ _ _ Hh), drop_app_le; [done|].
  apply lookup_lt_Some in Hh. rewrite length_take. lia.
Qed.

(** The walk back finds a snapshot that agrees with the chain, and gathers the
    headers that are missing. *)
Lemma wp_find_snapshot fuel k acc b : (k < fuel)%nat → (k <= length hs)%nat → caches_ok b →
  wp (find_snapshot fuel env (Z.of_nat k) (hash_at k) [] acc)
     (λ r b', caches_ok b' ∧ ∃ k0 s, (k0 <= k)%nat ∧ agrees k0 s ∧
                r = inl (s, acc ++ reverse (drop k0 (take k hs)))) b.
Proof using Hch.
  revert fuel acc. induction k as [|i IH]; intros [|fuel] acc Hfuel Hk Hco; try lia.
  all: cbn [find_snapshot]; wp_step.
  all: destruct (b_recents b !! hash_at _) as [s|] eqn:Hrec;
    [wp_step; split; [done|]; eexists _, s; split_and!;
       [reflexivity|by eapply co_recents|by rewrite drop_take_nil, app_nil_r]|].
  all: destruct (if _ mod checkpointInterval =? 0 then _ else _) as [s|] eqn:Hload;
    [wp_step; split; [done|]; eexists _, s; split_and!;
       [reflexivity| |by rewrite drop_take_nil, app_nil_r];
     destruct (_ mod _ =? 0); [|done]; rewrite (co_config _ Hco) in Hload; by eapply co_db|].
  - change (Z.of_nat 0 =? 0) with true. cbv iota. rewrite (ch_genesis Hch). wp_step.
    unfold ebind, verifyHeader. rewrite (ch_g_valid Hch). unfold verifyCascadingFields.
    rewrite (ch_g_number Hch). do 2 wp_step. change (big_Uint64 0 =? 0) with true. cbv iota. wp_steps.
    rewrite (ch_g_extra Hch). unfold store. simpl s_Hash. rewrite (ch_put Hch). wp_steps.
    rewrite (co_config _ Hco). fold genesis_snapshot. split.
    + by apply (caches_store b 0 genesis_snapshot); [lia|..|apply genesis_agrees].
    + exists 0%nat, genesis_snapshot. rewrite app_nil_r. split_and!; [done|apply genesis_agrees|done].
  - destruct (Z.eqb_spec (Z.of_nat (S i)) 0); [lia|]. simpl last.
    destruct (lookup_lt_is_Some_2 hs i ltac:(lia)) as [h Hh].
    destruct (ch_header Hch i h Hh) as (_ & Hpar & Hget).
    assert (hash_at (S i) = Header_Hash h) as -> by (simpl; by rewrite Hh). rewrite Hget, Hpar.
    replace (u64 (Z.of_nat (S i) - 1)) with (Z.of_nat i)
      by (pose proof (ch_length Hch); rewrite u64_small; lia).
    eapply wp_wand; [apply IH; [lia|lia|done]|].
    intros r b' (Hco' & k0 & s & Hk0 & Ha & ->). split; [done|]. exists k0, s.
    split_and!; [lia|done|]. rewrite (drop_take_snoc k0 i h) by done. by rewrite reverse_snoc, <-app_assoc.
Qed.

Lemma wp_snapshot k b : (k <= length hs)%nat → caches_ok b →
  wp (snapshot env (Z.of_nat k) (hash_at k) [])
     (λ r b', caches_ok b' ∧ match reference k with
                             | Some (inl r0) => ∃ s, r = inl s ∧ s ≡ r0
                             | Some (inr e) => r = inr e
                             | None => False
                             end) b.
Proof using Hch.
  intros Hk Hco. unfold snapshot, ebind. rewrite Nat2Z.id.
  eapply wp_seq; [apply wp_find_snapshot; [lia|done..]|].
  intros r b1 (Hco1 & k0 & s & Hk0 & Ha & ->). unfold snapshot_finish. cbn [fst snd]. rewrite app_nil_l, reverse_involutive.
  pose proof (agrees_apply k0 k s ltac:(lia) Ha) as Happ.
  destruct (reference_total k) as [[r0|e] Hr]; rewrite Hr in Happ |- *; [|rewrite Happ; by wp_steps].
  destruct Happ as (s' & -> & Heq). wp_steps.
  assert (agrees k s') as Ha' by by exists r0.
  destruct (agrees_inv k s' Hk Ha') as (_ & Hhash & _ & _). rewrite Hhash.
  pose proof (caches_recents b1 k s' Hk Hco1 Ha') as Hco2.
  case_match; [|wp_steps; eauto].
  unfold ebind, store. rewrite (ch_put Hch). wp_steps. split; [|eauto]. rewrite Hhash.
  by eapply caches_store.
Qed.

(** What [snapshot] must answer for block [k]. *)
Definition right_answer (k : nat) (r : result Snapshot) : Prop :=
  match reference k with
  | Some (inl r0) => ∃ s, r = inl s ∧ s ≡ r0
  | Some (inr e) => r = inr e
  | None => False
  end.

Fixpoint snapshots (ks : list nat) : M backend (list (result Snapshot)) :=
  match ks with
  | [] => mret' []
  | k :: ks => let! r := snapshot env (Z.of_nat k) (hash_at k) [] in
               let! rs := snapshots ks in mret' (r :: rs)
  end.

(** C4. From empty caches and an empty database, any sequence of snapshot queries
    on the blocks of a chain, in any order, gives for each block what replaying
    the chain from genesis gives (up to the cached speaker): neither the
    in-memory cache, nor the snapshots stored on disk, nor the walk back through
    the headers changes an answer.  The walk ends within its fuel. *)
Theorem snapshot_correct ks b : b_config b = cfg → b_recents b = ∅ → b_db b = ∅ →
  Forall (λ k, (k <= length hs)%nat) ks →
  ∃ rs b', snapshots ks b = Some (rs, b') ∧ Forall2 right_answer ks rs.
Proof using Hch.
  intros Hcfg Hrec Hdb Hks. assert (caches_ok b) as Hco.
  { split; [done|..]; intros k s _; [by rewrite Hrec|]. unfold loadSnapshot. by rewrite Hdb. }
  clear Hcfg Hrec Hdb. revert b Hco. induction Hks as [|k ks Hk Hks IH]; intros b Hco; [by exists [], b|].
  pose proof (wp_snapshot k b Hk Hco) as Hw. unfold wp in Hw. cbn [snapshots]. unfold mbind'.
  destruct (snapshot env (Z.of_nat k) (hash_at k) [] b) as [[r b1]|]; [|done].
  destruct Hw as [Hco1 Hr]. destruct (IH b1 Hco1) as (rs & b2 & -> & Hrs).
  exists (r :: rs), b2. split; [done|]. by constructor.
Qed.
End correct.
