(* ===== verification/EngineVerify.v ===== *)
(** * What a verified header guarantees

    A header that passes [verifyHeader] links to a known parent, was sealed by
    a fullnode of the parent's snapshot, and carries committed seals of a
    quorum of distinct fullnodes.  Two different blocks accepted on the same
    parent therefore expose a third of the fullnodes as having sealed both. *)

From Stdlib Require Import ZArith Lia.
From S2P Require Import Prelude Errors Rlp Fullnode Messages Core Header Snapshot Engine.
Open Scope didux_scope.

Section verify.
Context `{!Crypto, !AddrString}.

(** ** Inversion of monadic programs *)

Lemma mbind_inv {S A B} (m : M S A) (f : A → M S B) s b s' : mbind' m f s = Some (b, s') →
  ∃ a s1, m s = Some (a, s1) ∧ f a s1 = Some (b, s').
Proof. unfold mbind'. destruct (m s) as [[a s1]|]; [|done]. eauto. Qed.
Lemma ebind_inv {A B} (m : M backend (result A)) (f : A → M backend (result B)) s b s' :
  ebind m f s = Some (inl b, s') → ∃ a s1, m s = Some (inl a, s1) ∧ f a s1 = Some (inl b, s').
Proof.
  unfold ebind. intros ([a|e] & s1 & Hm & Hf)%mbind_inv; [eauto|]. by unfold mret' in Hf.
Qed.
Lemma mderef_inv {S A} (o : option A) (s : S) a s' : mderef o s = Some (a, s') → o = Some a ∧ s' = s.
Proof. destruct o; [|done]. intros [= -> ->]. done. Qed.

(** ** Committed seals *)

(** [signers] recovered from [seals], one each. *)
Definition seal_signers (data : bytes) (seals : list bytes) (signers : list address) : Prop :=
  Forall2 (λ seal a, GetSignatureAddress data seal = inl a) seals signers.

Lemma count_seals_iff data fs seals n : NoDup (fs_fullnodes fs) →
  count_seals data fs seals = inl n ↔
  n = Z.of_nat (length seals) ∧
  ∃ signers, seal_signers data seals signers ∧ NoDup signers ∧ signers ⊆ fs_fullnodes fs.
Proof.
  revert fs n. induction seals as [|seal seals IH]; intros fs n Hnd; cbn [count_seals].
  { split; [intros [= <-]|intros [-> _]; done]. split; [done|]. exists []. split_and!; [constructor..|set_solver]. }
  destruct (GetSignatureAddress data seal) as [a|e] eqn:Hsig.
  2:{ split; [done|]. intros (_ & signers & Hf & _). inversion Hf; congruence. }
  destruct (RemoveFullnode fs a) as [[] fs'] eqn:Hr.
  - pose proof (RemoveFullnode_perm _ _ _ Hr) as Hp.
    assert (NoDup (a :: fs_fullnodes fs')) as [Hna Hnd']%NoDup_cons by by rewrite <-Hp.
    specialize (IH fs'). split.
    + destruct (count_seals data fs' seals) as [m|] eqn:Hc; [|done]. intros [= <-].
      destruct (proj1 (IH m Hnd') eq_refl) as (-> & signers & Hf & Hd & Hs). split; [simpl; lia|].
      exists (a :: signers). split_and!; [by constructor|by apply NoDup_cons; set_solver|].
      intros x Hx. rewrite Hp. set_solver.
    + intros (-> & signers & Hf & Hd & Hs). inversion Hf as [|? a' ? signers' Ha Hf']; simplify_eq.
      assert (a' = a) as -> by congruence.
      apply NoDup_cons in Hd as [Hna2 Hd2].
      rewrite (proj2 (IH (Z.of_nat (length seals)) Hnd')); [f_equal; simpl; lia|].
      split; [done|]. exists signers'. split_and!; [done..|]. intros x Hx.
      assert (x ∈ a :: fs_fullnodes fs') as [-> |?]%elem_of_cons by (rewrite <-Hp; set_solver); done.
  - apply RemoveFullnode_false in Hr as [-> Hna]. split; [done|].
    intros (_ & signers & Hf & _ & Hs). inversion Hf as [|? a' ? signers' Ha Hf']; subst.
    destruct Hna. apply Hs. assert (a' = a) as -> by congruence. left.
Qed.

Lemma verifyCommittedSeals_inv env snapshot h parents b b' n :
  verifyCommittedSeals env snapshot h parents b = Some (inl (), b') →
  h_Number h = Some n → big_Uint64 n ≠ 0 →
  ∃ snap b1 extra k, snapshot (u64 (big_Uint64 n - 1)) (h_ParentHash h) parents b = Some (inl snap, b1) ∧
    ExtractSportExtra h = inl extra ∧
    count_seals (PrepareCommittedSeal (Header_Hash h)) (Copy (s_FullnodeSet snap)) (ex_CommittedSeal extra) = inl k ∧
    (MinApprovers (s_FullnodeSet snap) <= k ∨
     (∃ fork, e_SixtySixPercentBlock env = Some fork ∧ n <= fork ∧ MinApprovers (s_FullnodeSet snap) - 1 <= k)).
Proof.
  intros Hv Hn Hne. unfold verifyCommittedSeals in Hv.
  apply mbind_inv in Hv as (n' & b0 & [Hn' ->]%mderef_inv & Hv). rewrite Hn in Hn'. simplify_eq.
  destruct (Z.eqb_spec (big_Uint64 n') 0); [done|].
  apply ebind_inv in Hv as (snap & b1 & Hsnap & Hv).
  apply ebind_inv in Hv as (extra & b2 & [= Hex <-] & Hv).
  case_match; [done|]. apply ebind_inv in Hv as (k & b3 & [= Hk <-] & Hv).
  exists snap, b1, extra, k. split_and!; [done..|].
  destruct (Z.ltb_spec k (MinApprovers (s_FullnodeSet snap))); [right|by left].
  apply mbind_inv in Hv as (fork & b4 & [Hfork ->]%mderef_inv & Hv). exists fork. split; [done|].
  destruct (Z.ltb_spec 0 (big_Cmp n' fork)) as [|Hle]; [done|].
  destruct (Z.ltb_spec k (MinApprovers (s_FullnodeSet snap) - 1)); [done|]. split; [|done].
  destruct (Z.le_gt_cases n' fork) as [|Hgt]; [done|]. apply big_Cmp_gt in Hgt. lia.
Qed.

(** The fullnodes that sealed a header: members of [l] whose committed seal, a signature of
    the header's hash, is in the extra-data of the header. *)
Definition sealed_by (l : list address) (h : Header) (q : gset address) : Prop :=
  q ⊆ list_to_set l ∧
  ∀ a, a ∈ q → ∃ extra seal, ExtractSportExtra h = inl extra ∧ seal ∈ ex_CommittedSeal extra ∧
    GetSignatureAddress (PrepareCommittedSeal (Header_Hash h)) seal = inl a.

Lemma count_seals_sealed l h fs extra k : fs_fullnodes fs = l → NoDup l → ExtractSportExtra h = inl extra →
  count_seals (PrepareCommittedSeal (Header_Hash h)) (Copy fs) (ex_CommittedSeal extra) = inl k →
  ∃ q, sealed_by l h q ∧ k = Z.of_nat (size q).
Proof.
  intros <- Hnd Hex Hc. pose proof (Copy_perm fs) as Hp.
  apply count_seals_iff in Hc as (-> & signers & Hf & Hd & Hs); [|by rewrite Hp].
  exists (list_to_set signers). rewrite size_list_to_set by done.
  split; [|by rewrite (Forall2_length _ _ _ Hf)]. split.
  - intros a Ha%elem_of_list_to_set%Hs. rewrite Hp in Ha. by apply elem_of_list_to_set.
  - intros a Ha%elem_of_list_to_set. apply list_elem_of_lookup in Ha as [i Hi].
    destruct (Forall2_lookup_r _ _ _ _ _ Hf Hi) as (seal & Hseal & ?). exists extra, seal. split; [done|]. split; [by eapply list_elem_of_lookup_2|done].
Qed.

(** Queried in a state that satisfies [I], [snapshot] keeps [I] and its answers
    have the fullnodes [l]. *)
Definition snapshots_are (snapshot : Z → hash → list Header → M backend (result Snapshot)) (I : backend → Prop)
    (n : Z) (h : hash) (parents : list Header) (l : list address) : Prop :=
  ∀ b s b', I b → snapshot n h parents b = Some (inl s, b') → I b' ∧ fs_fullnodes (s_FullnodeSet s) = l.

(** A committed header of a height: the seals of a quorum of the parent's
    fullnodes [l] (a quorum less one up to the fork block). *)
Lemma verifyCommittedSeals_quorum env snapshot (I : backend → Prop) h parents b b' n l :
  snapshots_are snapshot I (u64 (big_Uint64 n - 1)) (h_ParentHash h) parents l → NoDup l → I b →
  verifyCommittedSeals env snapshot h parents b = Some (inl (), b') →
  h_Number h = Some n → big_Uint64 n ≠ 0 →
  ∃ q, sealed_by l h q ∧
    (2 * Z.of_nat (length l) <= 3 * Z.of_nat (size q) ∨
     (∃ fork, e_SixtySixPercentBlock env = Some fork ∧ n <= fork ∧
              2 * Z.of_nat (length l) <= 3 * (Z.of_nat (size q) + 1))).
Proof.
  intros Hsnap Hnd Hb Hv Hn Hne.
  destruct (verifyCommittedSeals_inv _ _ _ _ _ _ _ Hv Hn Hne) as (s & b1 & extra & k & Hs & Hex & Hc & Hk).
  destruct (Hsnap _ _ _ Hb Hs) as [_ Hl]. clear Hs. rename Hl into Hs. destruct (count_seals_sealed l h _ _ _ Hs Hnd Hex Hc) as (q & Hq & ->).
  exists q. split; [done|]. pose proof (MinApprovers_bounds (s_FullnodeSet s)) as Hm.
  unfold Size in Hm. rewrite Hs in Hm. destruct Hk as [Hk|(fork & ? & ? & Hk)]; [left; lia|right].
  exists fork. split_and!; [done..|lia].
Qed.

(** Two quorums, above the fork block, overlap in a third of the fullnodes. *)
Lemma sealed_overlap l h1 h2 q1 q2 : NoDup l → sealed_by l h1 q1 → sealed_by l h2 q2 →
  2 * Z.of_nat (length l) <= 3 * Z.of_nat (size q1) → 2 * Z.of_nat (length l) <= 3 * Z.of_nat (size q2) →
  sealed_by l h1 (q1 ∩ q2) ∧ sealed_by l h2 (q1 ∩ q2) ∧
  Z.of_nat (length l) <= 3 * Z.of_nat (size (q1 ∩ q2)).
Proof.
  intros Hnd [Hs1 Hq1] [Hs2 Hq2] Hk1 Hk2. split_and!; [split; [set_solver|]..|].
  - intros a [Ha _]%elem_of_intersection. auto.
  - intros a [_ Ha]%elem_of_intersection. auto.
  - pose proof (size_inter_ge q1 q2 (list_to_set l) Hs1 Hs2) as Hi.
    rewrite size_list_to_set in Hi by done. lia.
Qed.

(** ** The whole verification *)

Lemma verifySigner_inv snapshot h parents b b' n : verifySigner snapshot h parents b = Some (inl (), b') →
  h_Number h = Some n →
  ∃ snap b1 signer, snapshot (u64 (big_Uint64 n - 1)) (h_ParentHash h) parents b = Some (inl snap, b1) ∧
    ecrecover h = inl signer ∧ signer ∈ fs_fullnodes (s_FullnodeSet snap) ∧ b' = b1.
Proof.
  intros Hv Hn. unfold verifySigner in Hv. apply mbind_inv in Hv as (n' & b0 & [Hn' ->]%mderef_inv & Hv).
  rewrite Hn in Hn'. simplify_eq. case_match; [done|].
  apply ebind_inv in Hv as (snap & b1 & Hs & Hv). apply ebind_inv in Hv as (signer & b2 & [= Hr <-] & Hv).
  exists snap, b1, signer. destruct (GetByAddress _ signer) eqn:Hg; [|done]. injection Hv as <-.
  split_and!; [done..| |done]. apply GetByAddress_elem. eauto.
Qed.

(** A header above genesis that passes [verifyHeader] follows its parent in
    number, hash and time, is sealed by a fullnode of the parent's snapshot, and
    carries the committed seals of a quorum of them. *)
Lemma verifyHeader_guarantees env snapshot (I : backend → Prop) h parents b b' n l :
  snapshots_are snapshot I (u64 (big_Uint64 n - 1)) (h_ParentHash h) parents l → NoDup l → I b →
  verifyHeader env snapshot h parents b = Some (inl (), b') → h_Number h = Some n → big_Uint64 n ≠ 0 →
  (∃ parent pn, match last parents with
                | Some p => Some p
                | None => e_GetHeader env (h_ParentHash h) (u64 (big_Uint64 n - 1)) end = Some parent ∧
     h_Number parent = Some pn ∧ big_Uint64 pn = u64 (big_Uint64 n - 1) ∧
     Header_Hash parent = h_ParentHash h ∧
     u64 (h_Time parent + cf_BlockPeriod (b_config b)) <= h_Time h) ∧
  (∃ signer, ecrecover h = inl signer ∧ signer ∈ l) ∧
  (∃ q, sealed_by l h q ∧
     (2 * Z.of_nat (length l) <= 3 * Z.of_nat (size q) ∨
      (∃ fork, e_SixtySixPercentBlock env = Some fork ∧ n <= fork ∧
               2 * Z.of_nat (length l) <= 3 * (Z.of_nat (size q) + 1)))) ∧
  h_MixDigest h = SportDigest ∧ h_Difficulty h = Some defaultDifficulty.
Proof.
  intros Hsnap Hnd Hb Hv Hn Hne. unfold verifyHeader in Hv.
  destruct (verifyHeader_standalone env h) eqn:Hst; [done|].
  unfold verifyCascadingFields in Hv. apply mbind_inv in Hv as (n' & b0 & [Hn' ->]%mderef_inv & Hv).
  rewrite Hn in Hn'. simplify_eq. destruct (Z.eqb_spec (big_Uint64 n') 0); [done|].
  set (po := match last parents with Some p => Some p | None => _ end) in *.
  destruct po as [parent|] eqn:Hpo; [|done].
  apply mbind_inv in Hv as (pn & b0 & [Hpn ->]%mderef_inv & Hv).
  destruct (Z.eqb_spec (big_Uint64 pn) (u64 (big_Uint64 n' - 1))); [|done].
  destruct (Z.eqb_spec (Header_Hash parent) (h_ParentHash h)); [|done]. simpl in Hv.
  apply mbind_inv in Hv as (b0 & b1 & [= <- <-] & Hv).
  destruct (Z.ltb_spec (h_Time h) (u64 (h_Time parent + cf_BlockPeriod (b_config b)))); [done|].
  apply ebind_inv in Hv as (snap & b2 & Hs & Hv). apply ebind_inv in Hv as ([] & b3 & Hsig & Hv).
  destruct (Hsnap _ _ _ Hb Hs) as [Hb2 _].
  destruct (verifySigner_inv _ _ _ _ _ _ Hsig Hn) as (s2 & b4 & signer & Hs2 & ? & Hin & ->).
  destruct (Hsnap _ _ _ Hb2 Hs2) as [Hb3 Hl]. split_and!.
  - by exists parent, pn.
  - exists signer. by rewrite <-Hl.
  - by eapply verifyCommittedSeals_quorum.
  - unfold verifyHeader_standalone in Hst. rewrite Hn in Hst. repeat case_match; try done.
    match goal with H : negb (h_MixDigest h =? SportDigest) = false |- _ =>
      by apply negb_false_iff, Z.eqb_eq in H end.
  - unfold verifyHeader_standalone in Hst. rewrite Hn in Hst. repeat case_match; try done.
    match goal with H : negb (big_Cmp _ defaultDifficulty =? 0) = false |- _ =>
      apply negb_false_iff, Z.eqb_eq in H; rewrite big_Cmp_eq in H end. congruence.
Qed.
End verify.
