(* ===== verification/EngineOps.v ===== *)
(** * Making blocks, gossip and the RPC interface

    The rest of the engine: [Prepare], [Finalize] and its rewards, [Seal],
    [Start]/[Stop], the gossip of consensus messages and the API that proposes
    candidates. *)

From Stdlib Require Import ZArith Lia.
From S2P Require Import Prelude Errors Rlp Fullnode Messages Core Header Snapshot Engine EngineVerify.
Open Scope didux_scope.

Section setters.
Implicit Types h : Header.
Definition set_Coinbase h v := MkHeader (h_ParentHash h) (h_UncleHash h) v (h_Root h) (h_TxHash h)
  (h_ReceiptHash h) (h_Bloom h) (h_Difficulty h) (h_Number h) (h_GasLimit h) (h_GasUsed h) (h_Time h)
  (h_Extra h) (h_MixDigest h) (h_Nonce h).
Definition set_Nonce h v := MkHeader (h_ParentHash h) (h_UncleHash h) (h_Coinbase h) (h_Root h) (h_TxHash h)
  (h_ReceiptHash h) (h_Bloom h) (h_Difficulty h) (h_Number h) (h_GasLimit h) (h_GasUsed h) (h_Time h)
  (h_Extra h) (h_MixDigest h) v.
Definition set_MixDigest h v := MkHeader (h_ParentHash h) (h_UncleHash h) (h_Coinbase h) (h_Root h) (h_TxHash h)
  (h_ReceiptHash h) (h_Bloom h) (h_Difficulty h) (h_Number h) (h_GasLimit h) (h_GasUsed h) (h_Time h)
  (h_Extra h) v (h_Nonce h).
Definition set_Difficulty h v := MkHeader (h_ParentHash h) (h_UncleHash h) (h_Coinbase h) (h_Root h) (h_TxHash h)
  (h_ReceiptHash h) (h_Bloom h) v (h_Number h) (h_GasLimit h) (h_GasUsed h) (h_Time h)
  (h_Extra h) (h_MixDigest h) (h_Nonce h).
Definition set_Time h v := MkHeader (h_ParentHash h) (h_UncleHash h) (h_Coinbase h) (h_Root h) (h_TxHash h)
  (h_ReceiptHash h) (h_Bloom h) (h_Difficulty h) (h_Number h) (h_GasLimit h) (h_GasUsed h) v
  (h_Extra h) (h_MixDigest h) (h_Nonce h).
Definition set_Root_Uncle h root uncle := MkHeader (h_ParentHash h) uncle (h_Coinbase h) root (h_TxHash h)
  (h_ReceiptHash h) (h_Bloom h) (h_Difficulty h) (h_Number h) (h_GasLimit h) (h_GasUsed h) (h_Time h)
  (h_Extra h) (h_MixDigest h) (h_Nonce h).
Definition set_body_hashes h uncle txs receipts bloom := MkHeader (h_ParentHash h) uncle (h_Coinbase h) (h_Root h) txs
  receipts bloom (h_Difficulty h) (h_Number h) (h_GasLimit h) (h_GasUsed h) (h_Time h)
  (h_Extra h) (h_MixDigest h) (h_Nonce h).
End setters.

(** How [Seal] ends. *)
Inductive seal_outcome (T : Type) : Type :=
  | SealError (e : error)
  | SealStopped                 (* (nil, nil): the stop channel was closed *)
  | Sealed (b : Block T).
Arguments SealError {_}. Arguments SealStopped {_}. Arguments Sealed {_}.

Section ops.
Context `{!Crypto, !AddrString}.
Local Abbreviation BM A := (M backend A).

(** ** Prepare *)

(** The candidates [Prepare] may vote on. *)
Definition valid_candidates (env : Env) (b : backend) (snap : Snapshot) : result (list (address * bool)%type) :=
  let checked := filter (λ x, checkVote snap x.1 x.2 = true) (map_to_list (b_candidates b)) in
  if b_coreStarted b then
    match e_State env with
    | inr e => inr e
    | inl balance => inl (filter (λ x, 0 <= big_Cmp (balance x.1) (cf_MinFunds (b_config b))) checked)
    end
  else inl checked.

(** [rand.Intn] picks one of them. *)
Definition vote_candidate (env : Env) (h : Header) (candidates : list (address * bool)) : Header :=
  match (candidates !! e_Intn env (length candidates) : option (address * bool)) with
  | Some (a, auth) => set_Nonce (set_Coinbase h a) (if auth then nonceAuthVote else nonceDropVote)
  | None => h
  end.

Definition next_Time (env : Env) (b : backend) (parent : Header) : Z :=
  let t := u64 (h_Time parent + cf_BlockPeriod (b_config b)) in
  if i64 t <? e_now env then u64 (e_now env) else t.

(** The header is changed in place, also when an error is returned. *)
Definition Prepare (env : Env) (h : Header) : BM (Header * err) :=
  let h := set_MixDigest (set_Nonce h emptyNonce) SportDigest in
  let! n := mderef (h_Number h) in
  let number := big_Uint64 n in
  match e_GetHeader env (h_ParentHash h) (u64 (number - 1)) with
  | None => mret' (h, Some ErrUnknownAncestor)
  | Some parent =>
      let h := set_Difficulty h (Some defaultDifficulty) in
      let! r := snapshot env (u64 (number - 1)) (h_ParentHash h) [] in
      match r with
      | inr e => mret' (h, Some e)
      | inl snap =>
          let! b := mget in
          match valid_candidates env b snap with
          | inr e => mret' (h, Some e)
          | inl candidates =>
              let h := vote_candidate env h candidates in
              match prepareExtra h (fullnodes snap) with
              | (h, inr e) => mret' (h, Some e)
              | (h, inl extra) =>
                  mret' (set_Time (set_Extra h extra) (next_Time env b parent), None)
              end
          end
      end
  end.

(** ** Finalize *)

(** [types.NewBlock]; [deriveSha] and [receiptSha] are the roots of the tries of
    transactions and receipts, [createBloom] the bloom filter of the logs. *)
Section body.
Context {T R : Type} (deriveSha : list T → hash) (receiptSha : list R → hash) (createBloom : list R → Z).

Definition EmptyRootHash : hash := deriveSha [].
Definition NewBlock (header : Header) (txs : list T) (uncles : list Header) (receipts : list R) : Block T :=
  let h := CopyHeader header in
  let txHash := if (length txs =? 0)%nat then EmptyRootHash else deriveSha txs in
  let receiptHash := if (length receipts =? 0)%nat then EmptyRootHash else receiptSha receipts in
  let bloom := if (length receipts =? 0)%nat then h_Bloom h else createBloom receipts in
  let uncleHash := if (length uncles =? 0)%nat then EmptyUncleHash else CalcUncleHash uncles in
  MkBlock (set_body_hashes h uncleHash txHash receiptHash bloom) txs (CopyHeader <$> uncles).

(** [root] is the state's intermediate root.  The header and the state are
    changed in place. *)
Definition Finalize (root : gmap Z Z → hash) (cfg : EngineConfig) (h : Header) (state : gmap Z Z) (txs : list T)
    (receipts : list R) : option (Block T * Header * gmap Z Z) :=
  match h_Number h with
  | None => None
  | Some n =>
      let state := if pays_rewards n (length txs)
                   then AccumulateRewards smiloTokenMetricsTable (cf_CommunityAddress cfg) state n (h_Coinbase h)
                   else state in
      let h := set_Root_Uncle h (root state) nilUncleHash in
      Some (NewBlock h txs [] receipts, h, state)
  end.
End body.

(** ** Seal *)

(** The loop on the commit channel: [None] is the nil a closed channel gives,
    whose hash the log line reads.  The stop channel is closed after [results]. *)
Fixpoint seal_wait {T} (h : hash) (results : list (option (Block T))) : option (seal_outcome T) :=
  match results with
  | [] => Some SealStopped
  | None :: _ => None
  | Some r :: tl => if h =? Block_Hash r then Some (Sealed r) else seal_wait h tl
  end.

(** [stopped]: the stop channel is closed while the block waits for its time. *)
Definition Seal {T} (env : Env) (block : Block T) (stopped : bool) (results : list (option (Block T)))
    : BM (seal_outcome T * list (Block T)) :=
  let h := CopyHeader (blk_header block) in
  let number := big_Uint64 (big_or_zero (h_Number h)) in
  let! r := snapshot env (u64 (number - 1)) (h_ParentHash h) [] in
  match r with
  | inr e => mret' (SealError e, [])
  | inl snap =>
      let! b := mget in
      match GetByAddress (s_FullnodeSet snap) (b_address b) with
      | None => mret' (SealError errUnauthorized, [])
      | Some _ =>
          match e_GetHeader env (h_ParentHash h) (u64 (number - 1)) with
          | None => mret' (SealError ErrUnknownAncestor, [])
          | Some _ =>
              match updateBlock (e_sign env) h with
              | inr e => mret' (SealError e, [])
              | inl h =>
                  let block := WithSeal block h in
                  if stopped then mret' (SealStopped, []) else
                  if (length (blk_txs block) =? 0)%nat
                     && (0 <=? big_Cmp (Block_Number block) (cf_MinBlocksEmptyMining (b_config b)))
                  then mret' (SealError errWaitTransactions, []) else
                  do! mmod (set_proposedBlockHash (Block_Hash block)) in
                  let! o := mderef (seal_wait (Block_Hash block) results) in
                  do! mmod (set_proposedBlockHash 0) in
                  mret' (o, [block])   (* the block posted as a RequestEvent *)
              end
          end
      end
  end.

(** ** Start and Stop *)

Definition engine_Start (core_Start : err) (b : backend) : backend * err :=
  if b_coreStarted b then (b, Some consensus_ErrStartedEngine) else
  let b := set_proposedBlockHash 0 b in
  match core_Start with
  | Some e => (b, Some e)
  | None => (set_coreStarted true b, None)
  end.
Definition engine_Stop (core_Stop : err) (b : backend) : backend * err :=
  if negb (b_coreStarted b) then (b, Some ErrStoppedEngine) else
  match core_Stop with
  | Some e => (b, Some e)
  | None => (set_coreStarted false b, None)
  end.

(** ** Gossip *)

(** The caches of message hashes, per peer and our own. *)
Record gossip_state := MkGossip {
  g_recentMessages : gmap Z (gset Z);
  g_knownMessages : gset Z
}.
(** What the ARC caches keep after an insertion. *)
Record arc := MkArc {
  arc_messages : gset Z → gset Z;
  arc_peers : gmap Z (gset Z) → gmap Z (gset Z)
}.
Definition inmemoryPeers : nat := 40.
Definition inmemoryMessages : nat := 1024.
(** An ARC cache forgets, but not while its entries fit, and not the entry that
    was just added. *)
Record arc_ok (c : arc) : Prop := {
  arc_messages_sub s : arc_messages c s ⊆ s;
  arc_messages_fit s : (size s <= inmemoryMessages)%nat → arc_messages c s = s;
  arc_peers_sub m a s : arc_peers c m !! a = Some s → m !! a = Some s;
  arc_peers_fit m : (size m <= inmemoryPeers)%nat → arc_peers c m = m
}.
Definition RLPHash (payload : bytes) : hash := rlpHash (Some (Str payload)).

(** One peer of the loop of [Gossip]: the state and whether the message is sent. *)
Definition gossip_peer (c : arc) (h : hash) (g : gossip_state) (peer : address) : gossip_state * bool :=
  let m := default ∅ (g_recentMessages g !! peer) in
  if bool_decide (h ∈ m) then (g, false)
  else (MkGossip (arc_peers c (<[peer := arc_messages c (m ∪ {[h]})]> (g_recentMessages g))) (g_knownMessages g), true).

(** [connected] is what [FindPeers] knows; [None] is a missing broadcaster. *)
Definition Gossip (c : arc) (self : address) (connected : option (gset Z)) (fs : fullnodeSet) (payload : bytes)
    (g : gossip_state) : gossip_state * list address :=
  let h := RLPHash payload in
  let g := MkGossip (g_recentMessages g) (arc_messages c (g_knownMessages g ∪ {[h]})) in
  let targets : gset Z := list_to_set (filter (λ a, a ≠ self) (fs_List fs)) in
  match connected with
  | None => (g, [])
  | Some peers =>
      foldl (λ '(g, sent) peer, let '(g, b) := gossip_peer c h g peer in
                                (g, if b then sent ++ [peer] else sent))
            (g, []) (elements (targets ∩ peers))
  end.

(** [Broadcast]: gossip, and the payload posted to ourselves. *)
Definition Broadcast (c : arc) (self : address) (connected : option (gset Z)) (fs : fullnodeSet) (payload : bytes)
    (g : gossip_state) : gossip_state * list address * bytes :=
  (Gossip c self connected fs payload g, payload).

Definition smilobftMsg : Z := 0x11.
Definition NewBlockMsg : Z := 0x07.

(** [HandleMsg]: the answer, and the payload posted to the core.  [data] is what
    a consensus message decodes to; [newBlock] is [None] when the payload of a
    block message cannot be read twice, [Some None] when it does not decode. *)
Definition HandleMsg (c : arc) (started isSpeaker : bool) (isCurrentBlockProposal : hash → bool)
    (addr : address) (code : Z) (data : option bytes) (newBlock : option (option Header)) (g : gossip_state)
    : gossip_state * (bool * err) * option bytes :=
  if code =? smilobftMsg then
    if negb started then (g, (true, Some ErrStoppedEngine), None) else
    match data with
    | None => (g, (true, Some errDecodeFailed), None)
    | Some data =>
        let h := RLPHash data in
        let recent := match g_recentMessages g !! addr with
                      | Some _ => g_recentMessages g
                      | None => arc_peers c (<[addr := ∅]> (g_recentMessages g))
                      end in
        let recent := alter (λ m, arc_messages c (m ∪ {[h]})) addr recent in
        if bool_decide (h ∈ g_knownMessages g) then (MkGossip recent (g_knownMessages g), (true, None), None)
        else (MkGossip recent (arc_messages c (g_knownMessages g ∪ {[h]})), (true, None), Some data)
    end
  else if (code =? NewBlockMsg) && isSpeaker then
    match newBlock with
    | Some (Some h) =>
        if (h_MixDigest h =? SportDigest) && isCurrentBlockProposal (Header_Hash h)
        then (g, (true, None), None) else (g, (false, None), None)
    | _ => (g, (false, None), None)
    end
  else (g, (false, None), None).

Definition NewChainHead (started : bool) : err := if negb started then Some ErrStoppedEngine else None.

(** ** API *)

Definition LatestBlockNumber : Z := -1.

Definition GetSnapshot (env : Env) (number : option Z) : BM (result Snapshot) :=
  let header := match number with
                | None => e_CurrentHeader env
                | Some n => if n =? LatestBlockNumber then e_CurrentHeader env
                            else e_GetHeaderByNumber env (u64 n)
                end in
  match header with
  | None => mret' (inr errUnknownBlock)
  | Some h => let! n := mderef (h_Number h) in snapshot env (big_Uint64 n) (Header_Hash h) []
  end.

Definition GetSnapshotAtHash (env : Env) (h : hash) : BM (result Snapshot) :=
  match e_GetHeaderByHash env h with
  | None => mret' (inr errUnknownBlock)
  | Some h => let! n := mderef (h_Number h) in snapshot env (big_Uint64 n) (Header_Hash h) []
  end.

Definition Proposals (b : backend) : gmap Z bool := b_candidates b.

Definition Propose (env : Env) (a : address) (auth : bool) (b : backend) : backend :=
  let requireSmilos := cf_MinFunds (b_config b) * 1000000000000000000 in
  match e_State env with
  | inr _ => b
  | inl balance =>
      if big_Cmp (balance a) requireSmilos <? 0 then b
      else set_candidates (<[a := auth]> (b_candidates b)) b
  end.
Definition Discard (a : address) (b : backend) : backend :=
  set_candidates (delete a (b_candidates b)) b.

(** The condition of the first branch is always true. *)
Definition GetFullnodes (env : Env) (blockNum : option Z) : BM (result (list address)) :=
  match blockNum with
  | None => mret' (inr errUnknownBlock)
  | Some n =>
      match (if true || negb (n =? LatestBlockNumber) then e_GetHeaderByNumber env (u64 n)
             else e_CurrentHeader env) with
      | None => mret' (inr errUnknownBlock)
      | Some h =>
          let! n := mderef (h_Number h) in
          let! r := snapshot env (big_Uint64 n) (Header_Hash h) [] in
          mret' match r with inl s => inl (fullnodes s) | inr e => inr e end
      end
  end.

Definition GetFullnodesByHash (env : Env) (h : hash) : BM (result (list address)) :=
  if h =? 0 then mret' (inr errUnknownBlock) else
  match e_GetHeaderByHash env h with
  | None => mret' (inr errUnknownBlock)
  | Some h =>
      let! n := mderef (h_Number h) in
      let! r := snapshot env (big_Uint64 n) (Header_Hash h) [] in
      mret' match r with inl s => inl (fullnodes s) | inr e => inr e end
  end.
End ops.
