(* ===== verification/EngineMine.v ===== *)
(** * The block-making operations, and from [Prepare] to an accepted block

    Rewards, preparation of headers, delivery of committed blocks, gossip.  A
    header that a fullnode prepares on the head of the chain, finalizes and
    seals is accepted by [Verify] on every node that has the chain, and by
    [VerifyHeader] once [Commit] has written the seals of a quorum into it. *)

From Stdlib Require Import ZArith Lia.
From S2P Require Import Prelude Errors Rlp Fullnode Messages Core Header Snapshot Engine EngineVerify EngineOps EngineSnapshot.
Open Scope didux_scope.

(** ** Rewards *)

Section rewards.

(** The rewards of the ranges that a block number is in. *)
Definition open_rewards (table : list (Z * Z)) (n : Z) : list Z := (filter (λ x, n < x.1) table).*2.

Lemma foldr_max_acc w r l : foldr Z.max (Z.max w r) l = Z.max w (foldr Z.max r l).
Proof. induction l as [|x l IH]; simpl; [done|]. rewrite IH. lia. Qed.

Lemma reward_fold table n r : 0 <= r →
  foldl (λ blockReward '(maxBlockRange, reward),
    if big_Cmp n maxBlockRange =? -1 then
      if 0 <? big_Cmp reward blockReward then reward else blockReward
    else blockReward) r table = foldr Z.max r (open_rewards table n).
Proof.
  revert r. induction table as [|[b w] table IH]; intros r Hr; [done|]. cbn [foldl].
  unfold open_rewards in *. rewrite filter_cons. simpl.
  destruct (Z.eqb_spec (big_Cmp n b) (-1)) as [Hc|Hc].
  - assert (n < b) as Hlt by (rewrite <-big_Cmp_lt; lia). case_decide; [|done]. rewrite fmap_cons. cbn [foldr].
    assert ((if 0 <? big_Cmp w r then w else r) = Z.max w r) as ->.
    { destruct (Z.ltb_spec 0 (big_Cmp w r)) as [Hgt|Hle].
      - rewrite big_Cmp_gt in Hgt. lia.
      - destruct (Z.le_gt_cases w r); [lia|]. rewrite <-big_Cmp_gt in *. lia. }
    rewrite IH by lia. apply foldr_max_acc.
  - case_decide as Hlt; [|by apply IH]. rewrite <-big_Cmp_lt in Hlt. unfold big_Cmp in *.
    destruct (n ?= b); lia.
Qed.

(** The published schedule: the reward of the first range the number is in. *)
Definition scheduled_reward (n : Z) : Z := default 0 (head (open_rewards smiloTokenMetricsTable n)).

Lemma Forall_filter_weaken {A} (P Q : A → Prop) `{∀ x, Decision (P x)} l : Forall Q l → Forall Q (filter P l).
Proof. rewrite !Forall_forall. intros HQ x [_ Hx]%list_elem_of_filter. auto. Qed.
Lemma sorted_filter_snd (P : Z * Z → Prop) `{∀ x, Decision (P x)} (R : relation Z) l :
  StronglySorted R l.*2 → StronglySorted R (filter P l).*2.
Proof.
  induction l as [|x l IH]; simpl; [done|]. intros Hs. apply StronglySorted_inv in Hs as [Hs Hall].
  rewrite filter_cons. case_decide; [|auto]. simpl. constructor; [auto|]. rewrite Forall_fmap in *.
  by apply Forall_filter_weaken.
Qed.

Lemma foldr_max_perm (l l' : list Z) : l ≡ₚ l' → foldr Z.max 0 l = foldr Z.max 0 l'.
Proof. induction 1; cbn [foldr]; lia. Qed.

Lemma foldr_max_head (l : list Z) : StronglySorted (λ x y, y <= x) l → Forall (λ x, 0 <= x) l →
  foldr Z.max 0 l = default 0 (head l).
Proof.
  induction 1 as [|x l Hs IH Hall]; [done|]. intros [Hx Hl]%Forall_cons. cbn [foldr head]. rewrite IH by done.
  destruct l as [|y l]; simpl; [lia|]. apply Forall_cons in Hall as [? _]. lia.
Qed.

(** The loop over the map of rewards pays the scheduled reward, in whatever
    order the map is traversed. *)
Lemma reward_any_order table n : table ≡ₚ smiloTokenMetricsTable →
  getSmiloBlockReward table n = scheduled_reward n.
Proof.
  intros Hp. unfold getSmiloBlockReward. rewrite reward_fold by done. unfold scheduled_reward.
  rewrite (foldr_max_perm (open_rewards table n) (open_rewards smiloTokenMetricsTable n))
    by (unfold open_rewards; by rewrite Hp).
  apply foldr_max_head.
  - apply sorted_filter_snd. unfold smiloTokenMetricsTable, gwei. simpl.
    repeat constructor; simpl; lia.
  - unfold open_rewards. rewrite Forall_fmap. apply Forall_filter_weaken.
    unfold smiloTokenMetricsTable, gwei. repeat constructor; simpl; lia.
Qed.

(** ** Supply *)

Definition supply (state : gmap Z Z) : Z := map_fold (λ _ v acc, v + acc) 0 state.

Lemma supply_insert_new state a v : state !! a = None → supply (<[a := v]> state) = v + supply state.
Proof. intros. unfold supply. rewrite map_fold_insert_L; [done|lia|done]. Qed.
Lemma supply_delete state a v : state !! a = Some v → supply state = v + supply (delete a state).
Proof. intros. unfold supply. rewrite (map_fold_delete_L _ _ a v); [done|lia|done]. Qed.

Lemma supply_AddBalance state a x : supply (AddBalance state a x) = supply state + x.
Proof.
  unfold AddBalance. destruct (state !! a) as [v|] eqn:Ha; simpl.
  - rewrite (supply_delete _ _ _ Ha), <-insert_delete_eq, supply_insert_new by apply lookup_delete_eq. lia.
  - rewrite supply_insert_new by done. lia.
Qed.

(** A block mints exactly the scheduled reward for its coinbase, and a quarter
    of it for the community when there is one; a block without a coinbase
    mints nothing. *)
Theorem AccumulateRewards_supply table community state n coinbase :
  table ≡ₚ smiloTokenMetricsTable →
  supply (AccumulateRewards table community state n coinbase) = supply state +
  (if coinbase =? 0 then 0
   else scheduled_reward n + (if community is Some _ then scheduled_reward n / 4 else 0)).
Proof.
  intros Hp. unfold AccumulateRewards. rewrite (reward_any_order table n Hp).
  case_match; [lia|]. rewrite supply_AddBalance. destruct community; [rewrite supply_AddBalance|]; lia.
Qed.

Lemma scheduled_reward_max n : scheduled_reward n = foldr Z.max 0 (open_rewards smiloTokenMetricsTable n).
Proof.
  rewrite <-(reward_any_order smiloTokenMetricsTable n) by done. unfold getSmiloBlockReward.
  by rewrite reward_fold.
Qed.

Lemma open_rewards_mono table n m : n <= m →
  0 <= foldr Z.max 0 (open_rewards table m) <= foldr Z.max 0 (open_rewards table n).
Proof.
  intros Hle. unfold open_rewards. induction table as [|[b w] table IH]; simpl; [done|].
  rewrite !filter_cons. simpl. do 2 case_decide; rewrite ?fmap_cons; cbn [foldr snd]; lia.
Qed.

Lemma open_rewards_le table n w : 0 <= w → Forall (λ x, x.2 <= w) table →
  foldr Z.max 0 (open_rewards table n) <= w.
Proof.
  intros Hw. unfold open_rewards. induction 1 as [|x table Hx Hl IH]; [done|].
  rewrite filter_cons. case_decide; rewrite ?fmap_cons; cbn [foldr]; lia.
Qed.

Lemma open_rewards_closed table n : Forall (λ x, x.1 <= n) table → open_rewards table n = [].
Proof.
  unfold open_rewards. induction 1 as [|x table Hx Hl IH]; [done|]. rewrite filter_cons. case_decide; [lia|done].
Qed.

(** The schedule never rises, never pays more than 4 smilo and ends at nothing. *)
Theorem scheduled_reward_bounds n m : n <= m →
  0 <= scheduled_reward m <= scheduled_reward n ∧
  scheduled_reward n <= 4 * 1000000000000000000 ∧
  (1600000000 <= n → scheduled_reward n = 0).
Proof.
  intros Hle. rewrite !scheduled_reward_max. split; [by apply open_rewards_mono|split].
  - apply open_rewards_le; [lia|]. unfold smiloTokenMetricsTable, gwei. repeat constructor; simpl; lia.
  - intros Hn. rewrite open_rewards_closed; [done|]. unfold smiloTokenMetricsTable. repeat constructor; simpl; lia.
Qed.
End rewards.

(** ** Gossip *)

Section gossip.
Context `{!Crypto, !AddrString} (c : arc).

Lemma gossip_fold h g sent ps : NoDup ps →
  let r := foldl (λ '(g, sent) peer, let '(g, b) := gossip_peer c h g peer in
                                     (g, if b then sent ++ [peer] else sent)) (g, sent) ps in
  ∃ more, r.2 = sent ++ more ∧ more `sublist_of` ps ∧ g_knownMessages r.1 = g_knownMessages g ∧
    (arc_ok c → ∀ a, a ∈ ps → h ∉ default ∅ (g_recentMessages g !! a) → a ∈ more).
Proof.
  intros Hnd. revert g sent. induction Hnd as [|p ps Hp Hnd IH]; intros g sent; simpl.
  { exists []. rewrite app_nil_r. split_and!; [done..|]. intros _ a []%elem_of_nil. }
  destruct (gossip_peer c h g p) as [g1 b] eqn:Hgp. unfold gossip_peer in Hgp.
  case_bool_decide as Hin; injection Hgp as <- <-.
  - destruct (IH g sent) as (more & Hr & Hs & Hk & Hc). exists more. split_and!; [done| |done|].
    + by apply sublist_cons.
    + intros Hok a [->|Ha]%elem_of_cons Hna; [done|]. by apply Hc.
  - set (g1 := MkGossip _ (g_knownMessages g)). destruct (IH g1 (sent ++ [p])) as (more & Hr & Hs & Hk & Hc).
    exists (p :: more). split_and!; [by rewrite Hr, <-app_assoc|by apply sublist_skip|done|].
    intros Hok a [->|Ha]%elem_of_cons Hna; [left|right]. apply Hc; [done..|].
    simpl. destruct (arc_peers c _ !! a) as [s|] eqn:Hl; [|simpl; set_solver].
    apply (arc_peers_sub c Hok) in Hl. rewrite lookup_insert_ne in Hl by (intros ->; done).
    by rewrite Hl in Hna.
Qed.

(** [Gossip] sends a message at most once to each peer, only to connected
    fullnodes other than ourselves, and to every one of them that is not on
    record as having the message. *)
Theorem Gossip_delivers self peers fs payload g : arc_ok c →
  let sent := (Gossip c self (Some peers) fs payload g).2 in
  NoDup sent ∧
  (∀ a, a ∈ sent → a ≠ self ∧ a ∈ fs_List fs ∧ a ∈ peers) ∧
  (∀ a, a ≠ self → a ∈ fs_List fs → a ∈ peers →
        RLPHash payload ∉ default ∅ (g_recentMessages g !! a) → a ∈ sent).
Proof.
  intros Hok. unfold Gossip. set (targets := list_to_set _ : gset Z). set (g1 := MkGossip _ _).
  destruct (gossip_fold (RLPHash payload) g1 [] (elements (targets ∩ peers)) (NoDup_elements _))
    as (more & Hr & Hs & _ & Hc). simpl in *. rewrite Hr. clear Hr.
  assert (∀ a, a ∈ elements (targets ∩ peers) ↔ (a ≠ self ∧ a ∈ fs_List fs) ∧ a ∈ peers) as Hel.
  { intros a. rewrite elem_of_elements, elem_of_intersection. unfold targets.
    by rewrite elem_of_list_to_set, list_elem_of_filter. }
  split_and!.
  - exact (sublist_NoDup _ _ (NoDup_elements (targets ∩ peers)) Hs).
  - intros a Ha. apply sublist_submseteq in Hs. apply (elem_of_submseteq _ _ _ Ha), Hel in Hs as [[??]?]. done.
  - intros a ? ? ? Hna. by apply Hc; [|apply Hel|].
Qed.

(** ** Incoming messages *)

(** A run of [HandleMsg] on consensus messages: the payloads posted. *)
Fixpoint handle_all (g : gossip_state) (msgs : list (address * bytes)) : gossip_state * list bytes :=
  match msgs with
  | [] => (g, [])
  | (a, data) :: tl =>
      let '(g, _, posted) := HandleMsg c true false (λ _, false) a smilobftMsg (Some data) None g in
      let '(g, rest) := handle_all g tl in
      (g, match posted with Some d => d :: rest | None => rest end)
  end.

Lemma handle_all_spec g msgs : arc_ok c → (size (g_knownMessages g) + length msgs <= inmemoryMessages)%nat →
  let posted := (handle_all g msgs).2 in
  NoDup (RLPHash <$> posted) ∧
  (∀ d, d ∈ posted → d ∈ msgs.*2 ∧ RLPHash d ∉ g_knownMessages g) ∧
  (∀ d, d ∈ msgs.*2 → RLPHash d ∉ g_knownMessages g → RLPHash d ∈ RLPHash <$> posted).
Proof.
  intros Hok. revert g. induction msgs as [|[a data] msgs IH]; intros g Hsz.
  { simpl. split_and!; [constructor|..]; intros d Hd; set_solver. }
  cbn [handle_all]. unfold HandleMsg. change (smilobftMsg =? smilobftMsg) with true. cbn [negb]. cbv iota.
  set (recent := alter _ a _). case_bool_decide as Hk.
  - cbn [length] in Hsz. destruct (IH (MkGossip recent (g_knownMessages g))) as (Hnd & Hp & Hc); [simpl; lia|].
    destruct (handle_all _ msgs) as [g' posted]. simpl in *. split_and!; [done|..].
    + intros d Hd. destruct (Hp d Hd). split; [by right|done].
    + intros d [->|Hd]%elem_of_cons Hn; [done|]. by apply Hc.
  - rewrite (arc_messages_fit c Hok).
    2:{ rewrite size_union, size_singleton by set_solver. simpl in Hsz. lia. }
    destruct (IH (MkGossip recent (g_knownMessages g ∪ {[RLPHash data]}))) as (Hnd & Hp & Hc).
    { simpl in *. rewrite size_union, size_singleton by set_solver. lia. }
    destruct (handle_all _ msgs) as [g' posted]. simpl in *. split_and!.
    + constructor; [|done]. intros (d & Hd & Hin)%list_elem_of_fmap. destruct (Hp d Hin) as [_ Hn].
      apply Hn. rewrite <-Hd. set_solver.
    + intros d [->|Hd]%elem_of_cons; [split; [by left|done]|]. destruct (Hp d Hd). split; [by right|set_solver].
    + intros d [->|Hd]%elem_of_cons Hn; [by left|].
      destruct (decide (RLPHash d = RLPHash data)) as [->|Hne]; [by left|right]. apply Hc; [done|set_solver].
Qed.

(** As long as the cache of known messages does not overflow, the core gets
    every consensus message that arrives exactly once, whoever sends it. *)
Theorem HandleMsg_posts_once msgs : arc_ok c → (length msgs <= inmemoryMessages)%nat →
  let posted := (handle_all (MkGossip ∅ ∅) msgs).2 in
  NoDup (RLPHash <$> posted) ∧ posted ⊆ msgs.*2 ∧
  (∀ d, d ∈ msgs.*2 → RLPHash d ∈ RLPHash <$> posted).
Proof.
  intros Hok Hsz. destruct (handle_all_spec (MkGossip ∅ ∅) msgs Hok) as (Hnd & Hp & Hc).
  { cbn [g_knownMessages]. rewrite size_empty. lia. }
  split_and!; [done|intros d Hd; by apply Hp|]. intros d Hd. apply Hc; [done|]. simpl. set_solver.
Qed.
End gossip.

Section mine.
Context `{!Crypto, !AddrString}.

(** ** The frame of [snapshot]: only the caches change *)

Definition same_but_caches (b b' : backend) : Prop := ∃ r d, b' = set_db d (set_recents r b).
Definition framed {A} (m : M backend A) : Prop := ∀ b a b', m b = Some (a, b') → same_but_caches b b'.

Lemma same_refl b : same_but_caches b b.
Proof. exists (b_recents b), (b_db b). by destruct b. Qed.
Lemma same_trans b1 b2 b3 : same_but_caches b1 b2 → same_but_caches b2 b3 → same_but_caches b1 b3.
Proof. intros (r & d & ->) (r' & d' & ->). by exists r', d'. Qed.

Lemma framed_ret {A} (a : A) : framed (mret' a).
Proof. intros b ? ? [= <- <-]. apply same_refl. Qed.
Lemma framed_panic {A} : framed (A := A) mpanic.
Proof. by intros b ? ?. Qed.
Lemma framed_get : framed mget.
Proof. intros b ? ? [= <- <-]. apply same_refl. Qed.
Lemma framed_deref {A} (o : option A) : framed (mderef o).
Proof. destruct o; [apply framed_ret|apply framed_panic]. Qed.
Lemma framed_bind {A B} (m : M backend A) (f : A → M backend B) :
  framed m → (∀ a, framed (f a)) → framed (mbind' m f).
Proof. intros Hm Hf b a b' (a1 & b1 & ?%Hm & ?%Hf)%mbind_inv. by eapply same_trans. Qed.
Lemma framed_ebind {A B} (m : M backend (result A)) (f : A → M backend (result B)) :
  framed m → (∀ a, framed (f a)) → framed (ebind m f).
Proof. intros Hm Hf. apply framed_bind; [done|]. intros []; [apply Hf|apply framed_ret]. Qed.
Lemma framed_set_recents f : framed (mmod (λ b, set_recents (f b) b)).
Proof. intros b ? ? [= <- <-]. exists (f b), (b_db b). by destruct b. Qed.
Lemma framed_set_db f : framed (mmod (λ b, set_db (f b) b)).
Proof. intros b ? ? [= <- <-]. exists (b_recents b), (f b). by destruct b. Qed.

Ltac frame_with tac :=
  repeat first [ tac | assumption | apply framed_ret | apply framed_panic | apply framed_get | apply framed_deref
               | apply framed_set_recents | apply framed_set_db | apply framed_bind | apply framed_ebind
               | lazymatch goal with |- ∀ _, _ => intros ? end | case_match ].
Ltac frame := frame_with fail.

Lemma framed_snapshot_finish env s l : framed (snapshot_finish env s l).
Proof. unfold snapshot_finish, store. frame. Qed.
Lemma framed_verifyHeader env snapshot h ps : (∀ n h ps, framed (snapshot n h ps)) →
  framed (verifyHeader env snapshot h ps).
Proof.
  intros Hs. unfold verifyHeader, verifyCascadingFields, verifySigner, verifyCommittedSeals.
  frame; try apply Hs.
Qed.
Lemma framed_find_snapshot fuel env n h ps l : framed (find_snapshot fuel env n h ps l).
Proof.
  revert n h ps l. induction fuel as [|fuel IH]; intros n h ps l; [apply framed_panic|]. cbn [find_snapshot].
  unfold store. frame; try apply IH; apply framed_verifyHeader; intros n' h' ps'.
  all: apply framed_ebind; [apply IH|intros []; apply framed_snapshot_finish].
Qed.
Lemma framed_snapshot env n h ps : framed (snapshot env n h ps).
Proof.
  unfold snapshot. apply framed_ebind; [apply framed_find_snapshot|]. intros []. apply framed_snapshot_finish.
Qed.

Lemma framed_Prepare env h : framed (Prepare env h).
Proof. unfold Prepare. frame_with ltac:(apply framed_snapshot). Qed.

(** ** Verification of a child of the head *)

(** What the parent check and the checks without context need of the child [h] of
    the block [p] at height [k]. *)
Record child_of (cfg : EngineConfig) (k : nat) (p h : Header) : Prop := {
  cd_number : h_Number h = Some (Z.of_nat (S k));
  cd_parent : h_ParentHash h = Header_Hash p;
  cd_digest : h_MixDigest h = SportDigest;
  cd_uncles : h_UncleHash h = nilUncleHash;
  cd_difficulty : h_Difficulty h = Some defaultDifficulty;
  cd_nonce : h_Nonce h = nonceAuthVote ∨ h_Nonce h = nonceDropVote;
  cd_time : u64 (h_Time p + cf_BlockPeriod cfg) <= h_Time h
}.

Section verifier.
#[local] Set Default Proof Using "All".
Context (env : Env) (cfg : EngineConfig) (g : Header) (ge : SportExtra) (hs : list Header).
Context (Hch : chain_ok env cfg g ge hs).
Context (k : nat) (p : Header) (r0 : Snapshot).
Hypothesis Hk : (k <= length hs)%nat.
Hypothesis Hk64 : Z.of_nat (S k) < two64.
Hypothesis Hp : e_GetHeader env (hash_at g hs k) (Z.of_nat k) = Some p.
Hypothesis Hpn : h_Number p = Some (Z.of_nat k).
Hypothesis Hph : Header_Hash p = hash_at g hs k.
Hypothesis Href : reference cfg g ge hs k = Some (inl r0).

Lemma child_number :
  u64 (big_Uint64 (Z.of_nat (S k)) - 1) = Z.of_nat k ∧ (big_Uint64 (Z.of_nat (S k)) =? 0) = false.
Proof.
  rewrite big_Uint64_small by lia. rewrite u64_small by (unfold two64 in *; lia).
  split; [lia|]. by apply Z.eqb_neq.
Qed.

Lemma child_standalone h e : child_of cfg k p h → ExtractSportExtra h = inl e →
  i64 (h_Time h) <= e_now env → verifyHeader_standalone env h = None.
Proof.
  intros [Hn _ Hd Hu Hdf Hno _] He Ht. unfold verifyHeader_standalone. rewrite Hn, He, Hd, Hu, Hdf, !Z.eqb_refl.
  destruct (Z.ltb_spec 0 (big_Cmp (i64 (h_Time h)) (e_now env))) as [Hgt|_].
  { rewrite big_Cmp_gt in Hgt. lia. }
  destruct Hno as [-> | ->]; done.
Qed.

Lemma wp_snapshot_child ph b : ph = Header_Hash p → caches_ok cfg g ge hs b →
  wp (snapshot env (u64 (big_Uint64 (Z.of_nat (S k)) - 1)) ph [])
     (λ r b', caches_ok cfg g ge hs b' ∧ ∃ s, r = inl s ∧ s ≡ r0) b.
Proof.
  intros -> Hco. destruct child_number as [-> _]. rewrite Hph.
  eapply wp_wand; [by apply (wp_snapshot env cfg g ge hs Hch)|]. intros r b' [Hco' Hr]. rewrite Href in Hr. auto.
Qed.

Lemma count_seals_equiv data s seals signers : s ≡ r0 → snap_wf r0 →
  seal_signers data seals signers → NoDup signers → signers ⊆ fs_fullnodes (s_FullnodeSet r0) →
  count_seals data (Copy (s_FullnodeSet s)) seals = inl (Z.of_nat (length seals)) ∧
  MinApprovers (s_FullnodeSet s) = MinApprovers (s_FullnodeSet r0).
Proof.
  intros Heq [[_ Hnd] _ _ _ _] Hf Hd Hs. destruct (equiv_fields _ _ Heq) as (_ & _ & _ & _ & _ & Hfs). split.
  - pose proof (Copy_perm (s_FullnodeSet s)) as Hcp. apply count_seals_iff; [by rewrite Hcp, Hfs|].
    split; [done|]. exists signers. split_and!; [done..|]. intros a Ha%Hs. by rewrite Hcp, Hfs.
  - unfold MinApprovers, Size. by rewrite Hfs.
Qed.

(** [verifyCommittedSeals] of a child: the seals of a quorum are accepted, no
    seals at all give the error that [Verify] forgives. *)
Definition quorum_sealed (h : Header) (seals : list bytes) : Prop :=
  ∃ signers, seal_signers (PrepareCommittedSeal (Header_Hash h)) seals signers ∧ NoDup signers ∧
    signers ⊆ fs_fullnodes (s_FullnodeSet r0) ∧ signers ≠ [] ∧
    MinApprovers (s_FullnodeSet r0) <= Z.of_nat (length signers).

Inductive seals_verdict (h : Header) : list bytes → result () → Prop :=
  | verdict_none : seals_verdict h [] (inr errEmptyCommittedSeals)
  | verdict_quorum seals : quorum_sealed h seals → seals_verdict h seals (inl ()).

Lemma wp_verifyCommittedSeals_child h e v b : child_of cfg k p h → caches_ok cfg g ge hs b →
  ExtractSportExtra h = inl e → seals_verdict h (ex_CommittedSeal e) v →
  wp (verifyCommittedSeals env (snapshot env) h []) (λ r b', caches_ok cfg g ge hs b' ∧ r = v) b.
Proof.
  intros Hcd Hco He Hv. destruct child_number as [_ Hz]. unfold verifyCommittedSeals.
  rewrite (cd_number _ _ _ _ Hcd). wp_step. rewrite Hz. unfold ebind.
  eapply wp_seq; [by apply wp_snapshot_child; [apply (cd_parent _ _ _ _ Hcd)|]|]. intros ? b' (Hco' & s & -> & Heq). rewrite He. wp_step.
  inversion Hv as [Hl|seals (signers & Hf & Hd & Hs & Hne & Hq)]; subst; [by wp_steps|].
  pose proof (Forall2_length _ _ _ Hf) as Hl.
  destruct (reference_inv env cfg g ge hs Hch k r0 Hk Href) as (_ & _ & _ & Hwf).
  destruct (count_seals_equiv _ s _ _ Heq Hwf Hf Hd Hs) as [Hc Hm].
  destruct (Nat.eqb_spec (length (ex_CommittedSeal e)) 0) as [Hz'|_].
  { rewrite Hl in Hz'. by apply nil_length_inv in Hz'. }
  rewrite Hc, Hm. wp_steps. destruct (Z.ltb_spec (Z.of_nat (length (ex_CommittedSeal e))) (MinApprovers (s_FullnodeSet r0))); [lia|].
  by wp_steps.
Qed.

Lemma wp_verifySigner_child h signer b : child_of cfg k p h → caches_ok cfg g ge hs b →
  ecrecover h = inl signer → signer ∈ fs_fullnodes (s_FullnodeSet r0) →
  wp (verifySigner (snapshot env) h []) (λ r b', caches_ok cfg g ge hs b' ∧ r = inl ()) b.
Proof.
  intros Hcd Hco He Hin. destruct child_number as [_ Hz]. unfold verifySigner.
  rewrite (cd_number _ _ _ _ Hcd). wp_step. rewrite Hz. unfold ebind.
  eapply wp_seq; [by apply wp_snapshot_child; [apply (cd_parent _ _ _ _ Hcd)|]|]. intros ? b' (Hco' & s & -> & Heq). rewrite He. wp_step.
  destruct (equiv_fields _ _ Heq) as (_ & _ & _ & _ & _ & Hfs). rewrite <-Hfs in Hin.
  destruct (proj2 (GetByAddress_elem _ _) Hin) as [x ->]. by wp_steps.
Qed.

(** The verdict of [VerifyHeader] on a child sealed by a fullnode. *)
Lemma wp_VerifyHeader_child h e signer v b : child_of cfg k p h → caches_ok cfg g ge hs b →
  ExtractSportExtra h = inl e → i64 (h_Time h) <= e_now env →
  ecrecover h = inl signer → signer ∈ fs_fullnodes (s_FullnodeSet r0) →
  seals_verdict h (ex_CommittedSeal e) v →
  wp (VerifyHeader env h) (λ r b', caches_ok cfg g ge hs b' ∧ r = v) b.
Proof.
  intros Hcd Hco He Ht Hrec Hin Hv. unfold VerifyHeader, verifyHeader.
  rewrite (child_standalone h e Hcd He Ht). unfold verifyCascadingFields.
  destruct child_number as [Hn1 Hz]. rewrite (cd_number _ _ _ _ Hcd). wp_step.
  rewrite Hz, Hn1, (cd_parent _ _ _ _ Hcd), Hph. simpl last. cbv iota. rewrite Hp, Hpn. wp_step.
  rewrite Hph, big_Uint64_small, !Z.eqb_refl by lia. simpl negb. cbv beta iota. simpl orb. cbv iota. wp_step.
  rewrite (co_config _ _ _ _ _ Hco).
  destruct (Z.ltb_spec (h_Time h) (u64 (h_Time p + cf_BlockPeriod cfg))) as [Hlt|_].
  { pose proof (cd_time _ _ _ _ Hcd). lia. }
  unfold ebind. eapply wp_seq.
  { pose proof (wp_snapshot_child _ b eq_refl Hco) as Hw. rewrite Hn1, Hph in Hw. exact Hw. }
  intros ? b1 (Hco1 & s & -> & Heq). eapply wp_seq; [by eapply wp_verifySigner_child|].
  intros ? b2 (Hco2 & ->). by eapply wp_verifyCommittedSeals_child.
Qed.

(** ** Prepare *)

Hypothesis Hperiod : 0 <= h_Time p + cf_BlockPeriod cfg < two63.
Hypothesis Hclock : 0 <= e_now env < two63.

Lemma next_Time_range b : b_config b = cfg →
  h_Time p + cf_BlockPeriod cfg <= next_Time env b p < two63 ∧ e_now env <= next_Time env b p.
Proof.
  intros Hc. unfold next_Time. rewrite Hc. unfold two63 in *.
  rewrite u64_small by (unfold two64; lia). rewrite i64_small by (unfold two63; lia).
  rewrite (u64_small (e_now env)) by (unfold two64; lia).
  destruct (Z.ltb_spec (h_Time p + cf_BlockPeriod cfg) (e_now env)); lia.
Qed.

(** What [Prepare] promises of the header it fills in. *)
Record prepared (h : Header) : Prop := {
  pr_child : child_of cfg k p (set_Root_Uncle h (h_Root h) nilUncleHash);
  pr_extra : ExtractSportExtra h = inl (MkSportExtra (fullnodes r0) [] []);
  pr_now : e_now env <= h_Time h < two63
}.

Lemma fullnodes_equiv s : s ≡ r0 → fullnodes s = fullnodes r0.
Proof. intros Heq. unfold fullnodes. unfold fs_List. destruct (equiv_fields _ _ Heq) as (_ & _ & _ & _ & _ & ->). done. Qed.

Lemma prepareExtra_spec h vals payload : SportExtra_bytes (MkSportExtra vals [] []) = Some payload →
  ∃ h' extra, prepareExtra h vals = (h', inl extra) ∧ set_Extra h' extra = set_Extra h extra ∧
    ExtractSportExtra (set_Extra h extra) = inl (MkSportExtra vals [] []).
Proof.
  intros Hpay. unfold prepareExtra. rewrite Hpay.
  set (h1 := if (length (h_Extra h) <? SportExtraVanity)%nat then _ else h).
  exists h1, (take SportExtraVanity (h_Extra h1) ++ payload).
  assert (SportExtraVanity <= length (h_Extra h1))%nat as Hl.
  { unfold h1. destruct (Nat.ltb_spec (length (h_Extra h)) SportExtraVanity); [|done].
    simpl. rewrite length_app, length_replicate. lia. }
  assert (∀ x, set_Extra h1 x = set_Extra h x) as Hset by (intros; unfold h1; by destruct (_ <? _)%nat).
  split_and!; [done|apply Hset|]. rewrite <-Hset. exact (Extract_with_payload h1 _ _ Hl Hpay).
Qed.

Lemma vote_candidate_spec h l : h_Nonce h = emptyNonce →
  ∃ c n, vote_candidate env h l = set_Nonce (set_Coinbase h c) n ∧ (n = nonceAuthVote ∨ n = nonceDropVote).
Proof.
  intros Hn. unfold vote_candidate. destruct (l !! _) as [[a []]|].
  - exists a, nonceAuthVote. auto.
  - exists a, nonceDropVote. auto.
  - exists (h_Coinbase h), nonceDropVote. split; [|auto]. destruct h. simpl in *. by subst.
Qed.

Lemma wp_Prepare h payload balance b : caches_ok cfg g ge hs b →
  h_Number h = Some (Z.of_nat (S k)) → h_ParentHash h = Header_Hash p →
  SportExtra_bytes (MkSportExtra (fullnodes r0) [] []) = Some payload →
  e_State env = inl balance →
  wp (Prepare env h) (λ r b', caches_ok cfg g ge hs b' ∧ r.2 = None ∧ prepared r.1) b.
Proof.
  intros Hco Hn Hpar Hpay Hst. unfold Prepare.
  set (h1 := set_MixDigest (set_Nonce h emptyNonce) SportDigest).
  change (h_Number h1) with (h_Number h). change (h_ParentHash h1) with (h_ParentHash h). rewrite Hn. wp_step.
  pose proof child_number as [Hn1 _]. rewrite Hpar.
  assert (e_GetHeader env (Header_Hash p) (u64 (big_Uint64 (Z.of_nat (S k)) - 1)) = Some p) as ->
    by by rewrite Hn1, Hph.
  cbn [h_ParentHash set_Difficulty]. change (h_ParentHash h1) with (h_ParentHash h). rewrite Hpar.
  eapply wp_seq; [by apply wp_snapshot_child|]. intros ? b1 (Hco1 & s & -> & Heq). wp_step.
  assert (∃ l, valid_candidates env b1 s = inl l) as [l ->]
    by (unfold valid_candidates; rewrite Hst; case_match; eauto).
  set (h2 := set_Difficulty h1 (Some defaultDifficulty)).
  destruct (vote_candidate_spec h2 l eq_refl) as (c & n & -> & Hnonce). rewrite (fullnodes_equiv s Heq).
  destruct (prepareExtra_spec (set_Nonce (set_Coinbase h2 c) n) (fullnodes r0) payload Hpay)
    as (h3 & extra & -> & Hset & Hex). wp_step. split; [done|]. split; [done|]. simpl fst. rewrite Hset.
  destruct (next_Time_range b1 (co_config _ _ _ _ _ Hco1)) as [Ht1 Ht2]. split; [|exact Hex|split; [exact Ht2|apply Ht1]].
  split; simpl; try done. rewrite u64_small; [lia|]. unfold two63, two64 in *. lia.
Qed.
End verifier.

(** ** Sealing *)

Lemma Seal_inv {T} env (block posted : Block T) stopped results o b b' :
  Seal env block stopped results b = Some ((o, [posted]), b') →
  ∃ snap b1 h, snapshot env (u64 (big_Uint64 (big_or_zero (h_Number (blk_header block))) - 1))
                 (h_ParentHash (blk_header block)) [] b = Some (inl snap, b1) ∧
    b_address b ∈ fs_fullnodes (s_FullnodeSet snap) ∧
    updateBlock (e_sign env) (CopyHeader (blk_header block)) = inl h ∧ posted = WithSeal block h.
Proof.
  unfold Seal. intros ([snap|e] & b1 & Hs & Hv)%mbind_inv; [|done].
  exists snap, b1. apply mbind_inv in Hv as (b2 & b3 & [= <- <-] & Hv).
  destruct (GetByAddress _ _) eqn:Hg; [|done].
  assert (b_address b1 = b_address b) as Ha by by apply framed_snapshot in Hs as (r & d & ->).
  rewrite Ha in Hg. destruct (e_GetHeader env _ _); [|done].
  destruct (updateBlock _ _) as [h3|]; [|done]. exists h3. split; [done|]. split; [apply GetByAddress_elem; eauto|].
  split; [done|]. repeat case_match; try done. unfold mbind', mmod, mderef, mpanic, mret' in Hv.
  repeat (case_match; simplify_eq/=); done.
Qed.

(** ** Accepted blocks *)

(** A node that has the chain up to [p] at height [k], whose snapshot is [r0]. *)
Record on_head (env : Env) cfg g ge hs (k : nat) (p : Header) (r0 : Snapshot) (b : backend) : Prop := {
  oh_chain : chain_ok env cfg g ge hs;
  oh_caches : caches_ok cfg g ge hs b;
  oh_height : (k <= length hs)%nat;
  oh_range : Z.of_nat (S k) < two64;
  oh_parent : e_GetHeader env (hash_at g hs k) (Z.of_nat k) = Some p;
  oh_number : h_Number p = Some (Z.of_nat k);
  oh_hash : Header_Hash p = hash_at g hs k;
  oh_snapshot : reference cfg g ge hs k = Some (inl r0)
}.

Lemma wp_Verify_child {T} (deriveSha : list T → hash) env cfg g ge hs k p r0 block e signer b :
  on_head env cfg g ge hs k p r0 b → child_of cfg k p (blk_header block) →
  ExtractSportExtra (blk_header block) = inl e → ex_CommittedSeal e = [] →
  i64 (h_Time (blk_header block)) <= e_now env →
  ecrecover (blk_header block) = inl signer → signer ∈ fs_fullnodes (s_FullnodeSet r0) →
  h_TxHash (blk_header block) = deriveSha (blk_txs block) → blk_uncles block = [] →
  HasBadBlockProposal env (Block_Hash block) = false →
  wp (Verify deriveSha env block) (λ r b', caches_ok cfg g ge hs b' ∧ r = (0, None)) b.
Proof.
  intros [] Hcd He Hnil Ht Hrec Hin Htx Hun Hbad. unfold Verify.
  rewrite Hbad, <-Htx, Z.eqb_refl, Hun. simpl CalcUncleHash. rewrite Z.eqb_refl.
  replace (CopyHeader (blk_header block)) with (blk_header block).
  2:{ destruct Hcd. destruct (blk_header block). simpl in *. by subst. }
  simpl negb. cbv iota. eapply wp_seq.
  { apply (wp_VerifyHeader_child env cfg g ge hs) with (e := e) (v := inr errEmptyCommittedSeals)
      (k := k) (p := p) (r0 := r0) (signer := signer); try done. rewrite Hnil. constructor. }
  intros ? b' (Hco & ->). by wp_steps.
Qed.

(** What [VerifyHeader] guarantees of a header it accepts on the head [p]. *)
Record accepted (env : Env) (cfg : EngineConfig) (k : nat) (p : Header) (l : list address) (h : Header) : Prop := {
  ac_time : u64 (h_Time p + cf_BlockPeriod cfg) <= h_Time h;
  ac_signer : ∃ signer, ecrecover h = inl signer ∧ signer ∈ l;
  ac_seals : ∃ q, sealed_by l h q ∧
    (2 * Z.of_nat (length l) <= 3 * Z.of_nat (size q) ∨
     (∃ fork, e_SixtySixPercentBlock env = Some fork ∧ Z.of_nat (S k) <= fork ∧
              2 * Z.of_nat (length l) <= 3 * (Z.of_nat (size q) + 1)));
  ac_digest : h_MixDigest h = SportDigest;
  ac_difficulty : h_Difficulty h = Some defaultDifficulty
}.

Lemma head_nodup env cfg g ge hs k p r0 b : on_head env cfg g ge hs k p r0 b →
  NoDup (fs_fullnodes (s_FullnodeSet r0)).
Proof.
  intros []. destruct (reference_inv env cfg g ge hs oh_chain0 k r0 oh_height0 oh_snapshot0)
    as (_ & _ & _ & [[_ Hnd] _ _ _ _]). done.
Qed.

Lemma VerifyHeader_accepts env cfg g ge hs k p r0 h b b' : on_head env cfg g ge hs k p r0 b →
  h_Number h = Some (Z.of_nat (S k)) → h_ParentHash h = Header_Hash p →
  VerifyHeader env h b = Some (inl (), b') → accepted env cfg k p (fs_fullnodes (s_FullnodeSet r0)) h.
Proof.
  intros Hoh Hn Hpar Hv. pose proof (head_nodup _ _ _ _ _ _ _ _ _ Hoh) as Hnd. destruct Hoh.
  destruct (child_number env cfg g ge hs oh_chain0 k p r0 oh_height0 oh_range0 oh_parent0 oh_number0 oh_hash0 oh_snapshot0) as [Hn1 Hz].
  destruct (verifyHeader_guarantees env (snapshot env) (caches_ok cfg g ge hs) h [] b b' (Z.of_nat (S k))
              (fs_fullnodes (s_FullnodeSet r0))) as ((parent & pn & Hget & _ & _ & _ & Ht) & Hsig & Hseals & Hd & Hdf);
    try done; [|by apply Z.eqb_neq|].
  - intros b1 s b2 Hco Hs.
    destruct (wp_run _ _ _ _ _ (wp_snapshot_child env cfg g ge hs oh_chain0 k p r0 oh_height0 oh_range0
                  oh_parent0 oh_number0 oh_hash0 oh_snapshot0 _ b1 Hpar Hco) Hs) as (Hco' & s' & [= ->] & Heq).
    split; [done|]. by destruct (equiv_fields _ _ Heq) as (_ & _ & _ & _ & _ & ->).
  - simpl in Hget. rewrite Hn1, Hpar, oh_hash0, oh_parent0 in Hget. injection Hget as <-.
    rewrite (co_config _ _ _ _ _ oh_caches0) in Ht. by split.
Qed.

(** A header that [VerifyHeader] accepts as the child of the head was sealed by
    a fullnode of the head's snapshot, carries the committed seals of a quorum
    of them (a quorum less one up to the fork block), and keeps the block
    period. *)
Theorem VerifyHeader_sound env cfg g ge hs k p r0 h b b' : on_head env cfg g ge hs k p r0 b →
  h_Number h = Some (Z.of_nat (S k)) → h_ParentHash h = Header_Hash p →
  VerifyHeader env h b = Some (inl (), b') → accepted env cfg k p (fs_fullnodes (s_FullnodeSet r0)) h.
Proof. apply VerifyHeader_accepts. Qed.

(** C24. Two nodes on the same head that accept two headers as its child, above the
    fork block, expose at least a third of the fullnodes: each of them has a committed seal in the extra-data of
    both headers, a signature of that header's hash from which its address is recovered. *)
Theorem conflicting_blocks_accountable env1 env2 cfg g ge hs k p r0 h1 h2 b1 b2 b1' b2' :
  on_head env1 cfg g ge hs k p r0 b1 → on_head env2 cfg g ge hs k p r0 b2 →
  h_Number h1 = Some (Z.of_nat (S k)) → h_Number h2 = Some (Z.of_nat (S k)) →
  h_ParentHash h1 = Header_Hash p → h_ParentHash h2 = Header_Hash p →
  (∀ env fork, env = env1 ∨ env = env2 → e_SixtySixPercentBlock env = Some fork → fork < Z.of_nat (S k)) →
  VerifyHeader env1 h1 b1 = Some (inl (), b1') → VerifyHeader env2 h2 b2 = Some (inl (), b2') →
  let l := fs_fullnodes (s_FullnodeSet r0) in
  ∃ q, sealed_by l h1 q ∧ sealed_by l h2 q ∧ Z.of_nat (length l) <= 3 * Z.of_nat (size q).
Proof.
  intros Hoh1 Hoh2 Hn1 Hn2 Hp1 Hp2 Hfork Hv1 Hv2 l. pose proof (head_nodup _ _ _ _ _ _ _ _ _ Hoh1) as Hnd.
  destruct (VerifyHeader_accepts _ _ _ _ _ _ _ _ _ _ _ Hoh1 Hn1 Hp1 Hv1) as [_ _ (q1 & Hq1 & Hk1) _ _].
  destruct (VerifyHeader_accepts _ _ _ _ _ _ _ _ _ _ _ Hoh2 Hn2 Hp2 Hv2) as [_ _ (q2 & Hq2 & Hk2) _ _].
  exists (q1 ∩ q2). apply sealed_overlap; try done.
  - destruct Hk1 as [?|(fork & Hf & ? & _)]; [done|]. specialize (Hfork env1 fork (or_introl eq_refl) Hf). lia.
  - destruct Hk2 as [?|(fork & Hf & ? & _)]; [done|]. specialize (Hfork env2 fork (or_intror eq_refl) Hf). lia.
Qed.

Section node.
Context {T R : Type} (deriveSha : list T → hash) (receiptSha : list R → hash) (createBloom : list R → Z).
Context (env env' : Env) (cfg : EngineConfig) (g : Header) (ge : SportExtra) (hs : list Header).
Context (k : nat) (p : Header) (r0 : Snapshot).

Lemma NewBlock_inv h txs receipts : ∃ rh bl,
  NewBlock deriveSha receiptSha createBloom h txs [] receipts =
  MkBlock (set_body_hashes (CopyHeader h) nilUncleHash (deriveSha txs) rh bl) txs [].
Proof. unfold NewBlock. eexists _, _. by destruct txs. Qed.

(** The block that [Finalize] makes of a prepared header and [Seal] posts. *)
Lemma posted_child h1 root state txs receipts block h2 state' stopped results o posted b1 b2 :
  prepared env cfg k p r0 h1 → on_head env cfg g ge hs k p r0 b1 →
  (∀ d sig, e_sign env d = inl sig → SigToAddress d sig = Some (b_address b1)) →
  Finalize deriveSha receiptSha createBloom root cfg h1 state txs receipts = Some (block, h2, state') →
  Seal env block stopped results b1 = Some ((o, [posted]), b2) →
  ∃ e, child_of cfg k p (blk_header posted) ∧ ExtractSportExtra (blk_header posted) = inl e ∧
    ex_CommittedSeal e = [] ∧ h_Time (blk_header posted) = h_Time h1 ∧
    ecrecover (blk_header posted) = inl (b_address b1) ∧
    b_address b1 ∈ fs_fullnodes (s_FullnodeSet r0) ∧
    h_TxHash (blk_header posted) = deriveSha (blk_txs posted) ∧ blk_uncles posted = [].
Proof.
  intros [Hcd Hex Hnow] Hoh Hsign Hfin Hseal.
  unfold Finalize in Hfin. destruct (h_Number h1) as [n|] eqn:Hn; [|done].
  assert (n = Z.of_nat (S k)) as -> by (pose proof (cd_number _ _ _ _ Hcd) as Hx; simpl in Hx; congruence).
  set (st := if pays_rewards _ _ then _ else _) in Hfin.
  destruct (NewBlock_inv (set_Root_Uncle h1 (root st) nilUncleHash) txs receipts) as (rh & bl & Hnb).
  rewrite Hnb in Hfin. injection Hfin as <- <- <-.
  apply Seal_inv in Hseal as (snap & b3 & h3 & Hs & Hin & Hup & ->).
  pose proof (updateBlock_signer _ _ _ _ Hsign Hup) as Hrec.
  apply updateBlock_inv in Hup as (e & seal & payload & He & -> & Hex3).
  change (ExtractSportExtra h1 = inl e) in He. rewrite Hex in He. injection He as <-.
  exists (MkSportExtra (fullnodes r0) seal []). split_and!; try done.
  - destruct Hcd as [Hc1 Hc2 Hc3 _ Hc5 Hc6 Hc7]. simpl in *. split; simpl; try done.
    + by rewrite Hn.
    + by rewrite Hc5.
  - simpl in Hs. rewrite Hn in Hs. simpl big_or_zero in Hs. destruct Hoh.
    pose proof (cd_parent _ _ _ _ Hcd) as Hpar. simpl in Hpar.
    pose proof (wp_run _ _ _ _ _ (wp_snapshot_child env cfg g ge hs oh_chain0 k p r0 oh_height0 oh_range0
                  oh_parent0 oh_number0 oh_hash0 oh_snapshot0 _ b1 Hpar oh_caches0) Hs) as (_ & s' & [= ->] & Heq).
    destruct (equiv_fields _ _ Heq) as (_ & _ & _ & _ & _ & <-). done.
Qed.

(** C22. A header that [Prepare] fills in on the head of the chain, that [Finalize]
    turns into a block and that [Seal] signs and posts is accepted by the
    [Verify] of every node with the same chain, once its time has come. *)
Theorem mined_block_accepted h payload balance b b' :
  on_head env cfg g ge hs k p r0 b → on_head env' cfg g ge hs k p r0 b' →
  0 <= h_Time p + cf_BlockPeriod cfg < two63 → 0 <= e_now env < two63 →
  h_Number h = Some (Z.of_nat (S k)) → h_ParentHash h = Header_Hash p →
  SportExtra_bytes (MkSportExtra (fullnodes r0) [] []) = Some payload → e_State env = inl balance →
  (∀ d sig, e_sign env d = inl sig → SigToAddress d sig = Some (b_address b)) →
  ∃ h1 b1, Prepare env h b = Some ((h1, None), b1) ∧
    ∀ root state txs receipts block h2 state' stopped results o posted b2,
      Finalize deriveSha receiptSha createBloom root cfg h1 state txs receipts = Some (block, h2, state') →
      Seal env block stopped results b1 = Some ((o, [posted]), b2) →
      h_Time h1 <= e_now env' → HasBadBlockProposal env' (Block_Hash posted) = false →
      ∃ b2', Verify deriveSha env' posted b' = Some ((0, None), b2').
Proof.
  intros Hoh Hoh' Hper Hclk Hn Hpar Hpay Hst Hsign.
  pose proof Hoh as [Hch Hco Hk Hk64 Hgp Hpn Hph Href].
  pose proof (wp_Prepare env cfg g ge hs Hch k p r0 Hk Hk64 Hgp Hpn Hph Href Hper Hclk h payload balance b
                Hco Hn Hpar Hpay Hst) as Hw.
  unfold wp in Hw. destruct (Prepare env h b) as [[[h1 e1] b1]|] eqn:Hprep; [|done].
  destruct Hw as (Hco1 & He1 & Hpr). simpl in He1. subst e1. exists h1, b1. split; [done|].
  intros * Hfin Hseal Ht Hbad.
  assert (b_address b1 = b_address b) as Ha by by apply framed_Prepare in Hprep as (r & d & ->).
  destruct (posted_child h1 root state txs receipts block h2 state' stopped results o posted b1 b2)
    as (e & Hcd & Hex & Hnil & Htime & Hrec & Hin & Htx & Hun); [done|by destruct Hoh; split|by rewrite Ha|done..|].
  pose proof (wp_Verify_child deriveSha env' cfg g ge hs k p r0 posted e (b_address b1) b' Hoh' Hcd Hex Hnil) as Hv.
  destruct (pr_now _ _ _ _ _ _ Hpr) as [Hnow1 Hnow2].
  rewrite Htime, (i64_small (h_Time h1)) in Hv by (split; [|done]; etransitivity; [|apply Hnow1]; unfold two63; lia).
  specialize (Hv Ht Hrec Hin Htx Hun Hbad). unfold wp in Hv.
  destruct (Verify deriveSha env' posted b') as [[r b2']|]; [|done]. destruct Hv as [_ ->]. eauto.
Qed.

Lemma child_committed h seals h' : child_of cfg k p h → writeCommittedSeals h seals = inl h' →
  child_of cfg k p h' ∧ h_Time h' = h_Time h ∧ Header_Hash h' = Header_Hash h ∧ ecrecover h' = ecrecover h ∧
  ∃ e, ExtractSportExtra h' = inl e ∧ ex_CommittedSeal e = seals.
Proof.
  intros Hcd Hw. destruct (committed_seals_hash h seals h' Hw (cd_digest _ _ _ _ Hcd)) as (Hh & Hs & e & He & He').
  apply writeCommittedSeals_inv in Hw as (_ & _ & e2 & payload & _ & _ & ->). split; [|split; [reflexivity|split; [exact Hh|split]]].
  - destruct Hcd as [Hc1 Hc2 Hc3 Hc4 Hc5 Hc6 Hc7].
    exact (Build_child_of cfg k p (with_payload h payload) Hc1 Hc2 Hc3 Hc4 Hc5 Hc6 Hc7).
  - unfold ecrecover. by rewrite He, He', Hs.
  - exists (MkSportExtra (ex_Fullnodes e) (ex_Seal e) seals). by split.
Qed.

Definition output_block (o : commit_output T) : Block T := match o with ToCommitCh b | Enqueue b => b end.

(** C23. When a quorum of the fullnodes has sealed a block that was accepted, the
    block [Commit] hands over has the hash they sealed and passes the full
    verification of every node with the same chain. *)
Theorem committed_block_accepted broadcaster bm block signer seals outs out b' :
  on_head env' cfg g ge hs k p r0 b' → child_of cfg k p (blk_header block) →
  i64 (h_Time (blk_header block)) <= e_now env' →
  ecrecover (blk_header block) = inl signer → signer ∈ fs_fullnodes (s_FullnodeSet r0) →
  quorum_sealed r0 (blk_header block) seals →
  Commit broadcaster bm block seals = (None, outs) → out ∈ outs →
  Block_Hash (output_block out) = Block_Hash block ∧
  ∃ b2', VerifyHeader env' (blk_header (output_block out)) b' = Some (inl (), b2').
Proof.
  intros [Hch Hco Hk Hk64 Hgp Hpn Hph Href] Hcd Ht Hrec Hin Hq Hc Hout. unfold Commit in Hc.
  replace (CopyHeader (blk_header block)) with (blk_header block) in Hc.
  2:{ destruct Hcd. destruct (blk_header block). simpl in *. by subst. }
  destruct (writeCommittedSeals _ _) as [h|] eqn:Hw; [|done].
  destruct (child_committed _ _ _ Hcd Hw) as (Hcd' & Ht' & Hh & Hrec' & e & He & Hseals).
  assert (output_block out = WithSeal block h) as ->.
  { case_match; simplify_eq; [by apply list_elem_of_singleton in Hout as ->|].
    destruct broadcaster; simplify_eq; [by apply list_elem_of_singleton in Hout as ->|by apply elem_of_nil in Hout]. }
  split; [exact Hh|]. cbn [WithSeal blk_header].
  pose proof (wp_VerifyHeader_child env' cfg g ge hs Hch k p r0 Hk Hk64 Hgp Hpn Hph Href h e signer (inl ()) b' Hcd' Hco He) as Hv.
  rewrite Ht', Hrec', Hseals in Hv. specialize (Hv Ht Hrec Hin).
  assert (seals_verdict r0 h seals (inl ())) as Hverdict.
  { constructor. unfold quorum_sealed. by rewrite Hh. }
  specialize (Hv Hverdict). unfold wp in Hv. destruct (VerifyHeader env' h b') as [[r b2']|]; [|done].
  destruct Hv as [_ ->]. eauto.
Qed.

Lemma i64_upper t : two63 <= t < two64 → i64 t = t - two64.
Proof.
  intros Hb. unfold i64, two63, two64 in *. rewrite <-(Z_mod_plus_full _ (-1)). rewrite Z.mod_small; lia.
Qed.

(** A parent dated in the upper half of [uint64] passes the check against the
    clock, which is made on [int64].  Whatever [Prepare] then makes of it is
    dated now, before the parent, and every node refuses it. *)
Theorem far_future_parent_halts b b' snapshot h :
  b_config b = cfg → b_config b' = cfg → 0 <= cf_BlockPeriod cfg → 0 <= e_now env < two63 →
  two63 <= h_Time p → h_Time p + cf_BlockPeriod cfg < two64 → Z.of_nat (S k) < two64 →
  e_GetHeader env' (Header_Hash p) (Z.of_nat k) = Some p → h_Number p = Some (Z.of_nat k) →
  h_Number h = Some (Z.of_nat (S k)) → h_ParentHash h = Header_Hash p → h_Time h = next_Time env b p →
  i64 (h_Time p) < 0 ∧
  verifyCascadingFields env' snapshot h [] b' = Some (inr errInvalidTimestamp, b').
Proof.
  intros Hc Hc' Hper Hnow Ht Htp Hk Hgp Hpn Hn Hpar Htime. split; [rewrite i64_upper; unfold two63, two64 in *; lia|].
  assert (h_Time h < u64 (h_Time p + cf_BlockPeriod cfg)) as Hlt.
  { rewrite Htime. unfold next_Time. rewrite Hc, u64_small by (unfold two63 in *; lia).
    rewrite i64_upper by lia. unfold two63, two64 in *.
    destruct (Z.ltb_spec (h_Time p + cf_BlockPeriod cfg - 18446744073709551616) (e_now env)); [|lia].
    rewrite u64_small by (unfold two64; lia). lia. }
  enough (wp (verifyCascadingFields env' snapshot h []) (λ r b'', r = inr errInvalidTimestamp ∧ b'' = b') b') as Hw.
  { unfold wp in Hw. destruct (verifyCascadingFields _ _ _ _ _) as [[? ?]|]; [|done]. by destruct Hw as [-> ->]. }
  unfold verifyCascadingFields. rewrite Hn. wp_step. rewrite big_Uint64_small by lia.
  destruct (Z.eqb_spec (Z.of_nat (S k)) 0); [lia|]. simpl last. cbv iota.
  replace (u64 (Z.of_nat (S k) - 1)) with (Z.of_nat k) by (rewrite u64_small; lia).
  rewrite Hpar, Hgp, Hpn. wp_step. rewrite big_Uint64_small, !Z.eqb_refl by lia. simpl negb. simpl orb. cbv iota.
  wp_step. rewrite Hc', (proj2 (Z.ltb_lt _ _) Hlt). by wp_steps.
Qed.
End node.
End mine.
