(* ===== verification/SmiloPay.v ===== *)
(** * SmiloPay: core/state/smilopay.go

    The allowance that pays for gas grows with the blocks, at a speed that
    depends on the square root of the balance, up to a maximum.  The source
    computes it with [big.Float]: binary floating point of any precision,
    rounded to nearest even. *)

From Stdlib Require Import ZArith Lia.
From S2P Require Import Prelude.
Open Scope didux_scope.

(** ** math/big.Float *)

(** The number [bf_m * 2 ^ bf_e], with the precision of the variable that holds it. *)
Record bigFloat := BF { bf_prec : Z; bf_m : Z; bf_e : Z }.

Definition bf_round (p m e : Z) : bigFloat := BF p (Z.sgn m * round_sig p (Z.abs m)) e.

(** [SetInt] and [NewFloat] (of a number with a 53-bit significand). *)
Definition bf_SetInt (x : Z) : bigFloat :=
  bf_round (Z.max (if x =? 0 then 0 else Z.log2 (Z.abs x) + 1) 64) x 0.
Definition bf_NewFloat (m e : Z) : bigFloat := BF 53 m e.

Definition bf_Mul_prec (p : Z) (x y : bigFloat) : bigFloat := bf_round p (bf_m x * bf_m y) (bf_e x + bf_e y).
Definition bf_Mul (x y : bigFloat) : bigFloat := bf_Mul_prec (Z.max (bf_prec x) (bf_prec y)) x y.
Definition bf_align (x : bigFloat) (e : Z) : Z := bf_m x * 2 ^ (bf_e x - e).
Definition bf_Add (x y : bigFloat) : bigFloat :=
  let e := Z.min (bf_e x) (bf_e y) in
  bf_round (Z.max (bf_prec x) (bf_prec y)) (bf_align x e + bf_align y e) e.
Definition bf_Cmp (x y : bigFloat) : Z :=
  let e := Z.min (bf_e x) (bf_e y) in big_Cmp (bf_align x e) (bf_align y e).

(** Quotient and square root of positive numbers: enough bits, and one more
    that tells whether the rest is zero. *)
Definition sticky (q r : Z) : Z := 2 * q + (if r =? 0 then 0 else 1).
Definition bf_Quo (x y : bigFloat) : bigFloat :=
  let p := Z.max (bf_prec x) (bf_prec y) in
  let k := Z.max 0 (p + 2 + Z.log2 (bf_m y) - Z.log2 (bf_m x)) in
  let n := bf_m x * 2 ^ k in
  bf_round p (sticky (n / bf_m y) (n mod bf_m y)) (bf_e x - bf_e y - k - 1).
(** [None]: the panic on a negative operand. *)
Definition bf_Sqrt (x : bigFloat) : option bigFloat :=
  if bf_m x <? 0 then None else
  let p := bf_prec x in
  let k := 2 * (p + 2) + (bf_e x mod 2) in
  let n := bf_m x * 2 ^ k in
  let s := Z.sqrt n in
  Some (bf_round p (sticky s (n - s * s)) ((bf_e x - k) / 2 - 1)).

Definition bf_SetPrec (p : Z) (x : bigFloat) : bigFloat :=
  if p <? bf_prec x then bf_round p (bf_m x) (bf_e x) else BF p (bf_m x) (bf_e x).
(** [Int]: truncation towards zero. *)
Definition bf_Int (x : bigFloat) : Z :=
  if 0 <=? bf_e x then bf_m x * 2 ^ bf_e x else Z.quot (bf_m x) (2 ^ (- bf_e x)).

(** ** The allowance *)

Definition floatToBigInt (bigval : bigFloat) (precision : Z) : Z :=
  let coin := bf_SetInt precision in
  let bigval := bf_SetPrec 64 bigval in
  bf_Int (bf_Mul_prec 64 bigval coin).

(** The [float64] constants of the formulas. *)
Definition c_750000 : bigFloat := bf_NewFloat 750000 0.
Definition c_0_000001 : bigFloat := bf_NewFloat 4722366482869645 (-72).
Definition c_0_5 : bigFloat := bf_NewFloat 1 (-1).
Definition c_1e18 : bigFloat := bf_NewFloat 1000000000000000000 0.
Definition c_50000 : bigFloat := bf_NewFloat 50000 0.
Definition c_0_001 : bigFloat := bf_NewFloat 1152921504606847 (-60).
Definition c_5 : bigFloat := bf_NewFloat 5 0.

Definition MaxSmiloPay (balance : Z) : option (Z * bigFloat) :=
  let balanceDecimals := balance / 1000000000000000000 in
  let balanceSmilo := bf_SetInt balanceDecimals in
  match bf_Sqrt balanceSmilo with
  | None => None
  | Some f =>
      let fDiv := bf_Quo f c_50000 in
      let fAdd := bf_Add fDiv c_0_001 in
      let maxSmiloPayMul := bf_Mul fAdd c_5 in
      Some (floatToBigInt maxSmiloPayMul 1000000000000000000, balanceSmilo)
  end.

Definition CalculateSmiloPay (prevBlock newBlock prevSmiloPay balance : Z) : option Z :=
  if 0 <=? big_Cmp prevBlock newBlock then Some prevSmiloPay else
  match MaxSmiloPay balance with
  | None => None
  | Some (maxSmiloPay, balanceSmilo) =>
      let blockGap := newBlock - prevBlock in
      match bf_Sqrt balanceSmilo with
      | None => None
      | Some sqrt =>
          let sqrtDiv := bf_Quo sqrt c_750000 in
          let sqrtAdd := bf_Add sqrtDiv c_0_000001 in
          let smiloSpeedMul := bf_Mul sqrtAdd c_0_5 in
          let smiloSpeedBig := bf_Mul smiloSpeedMul c_1e18 in
          let blockGapFloat := bf_SetInt blockGap in
          let smiloPayResult := bf_Mul blockGapFloat smiloSpeedBig in
          let prevSmiloPayFloat := bf_SetInt prevSmiloPay in
          let smiloPayFloat := bf_Add prevSmiloPayFloat smiloPayResult in
          if (0 <? bf_Cmp smiloPayFloat (bf_SetInt maxSmiloPay)) || (0 <? bf_Cmp prevSmiloPayFloat smiloPayFloat)
          then Some maxSmiloPay
          else Some (floatToBigInt smiloPayFloat 1)
      end
  end.

(** The values of smilopay_test.go. *)
Definition ether : Z := 1000000000000000000.
Example CalculateSmiloPay_test_vectors :
  (λ i, CalculateSmiloPay 100 110 1000000000000000 (10 * i * ether)) <$> [0; 1; 2; 3; 4; 5; 6; 7; 8; 9] =
  Some <$> [1004999999999999; 1026081851067789; 1034814239699997; 1041514837167011; 1047163702135578;
            1052140452079103; 1056639777949432; 1060777335102271; 1064628479399994; 1068245553203367].
Proof. vm_compute. reflexivity. Qed.
Example MaxSmiloPay_test_vectors :
  (λ i, fst <$> MaxSmiloPay (i * ether)) <$> [0; 1; 2; 3; 4; 5; 6; 7; 8; 9; 110] =
  Some <$> [5000000000000000; 5100000000000000; 5141421356237309; 5173205080756887; 5200000000000000;
            5223606797749979; 5244948974278317; 5264575131106459; 5282842712474619; 5300000000000000;
            6048808848170151].
Proof. vm_compute. reflexivity. Qed.

(** ** Rounding *)

Lemma round_sig_fix p q k : 0 < p → 0 <= k → 0 <= q <= 2 ^ p → round_sig p (q * 2 ^ k) = q * 2 ^ k.
Proof.
  intros Hp Hk Hq. unfold round_sig. destruct (decide (q = 0)) as [->|Hne].
  { rewrite Z.mul_0_l. change (Z.log2 0) with 0. case_match; [done|lia]. }
  rewrite Z.log2_mul_pow2 by lia. destruct (Z.leb_spec (k + Z.log2 q + 1 - p) 0); [done|].
  set (n := k + Z.log2 q + 1 - p) in *.
  assert (∃ d, q * 2 ^ k = d * 2 ^ n) as [d Hd].
  { destruct (decide (q = 2 ^ p)) as [->|Hlt].
    - exists (2 ^ (p - 1)). unfold n. rewrite Z.log2_pow2 by lia. rewrite <-!Z.pow_add_r by lia. f_equal. lia.
    - assert (Z.log2 q < p) by (apply Z.log2_lt_pow2; lia). exists (q * 2 ^ (k - n)).
      rewrite <-Z.mul_assoc, <-Z.pow_add_r by lia. do 2 f_equal. lia. }
  rewrite Hd. assert (0 < 2 ^ n) by (apply Z.pow_pos_nonneg; lia).
  rewrite Z.mod_mul, Z.div_mul by lia. rewrite Z.mul_0_r. by rewrite (proj2 (Z.ltb_lt _ _)).
Qed.

Lemma round_sig_form p n : 0 < p → 0 <= n →
  ∃ q k, 0 <= k ∧ 0 <= q <= 2 ^ p ∧ round_sig p n = q * 2 ^ k.
Proof.
  intros Hp Hn. unfold round_sig. set (k := Z.log2 n + 1 - p).
  assert (n < 2 ^ (Z.log2 n + 1)) as Hlog.
  { destruct (decide (n = 0)) as [->|]; [done|]. apply Z.log2_spec. lia. }
  destruct (Z.leb_spec k 0).
  { exists n, 0. split; [done|]. split; [|lia]. split; [done|].
    etransitivity; [apply Z.lt_le_incl, Hlog|]. apply Z.pow_le_mono_r; lia. }
  assert (0 < 2 ^ k) by (apply Z.pow_pos_nonneg; lia).
  assert (0 <= n / 2 ^ k) by (apply Z.div_pos; lia).
  assert (n / 2 ^ k < 2 ^ p).
  { apply Z.div_lt_upper_bound; [done|]. rewrite <-Z.pow_add_r by lia. eapply Z.lt_le_trans; [exact Hlog|].
    apply Z.pow_le_mono_r; lia. }
  exists (if 2 * (n mod 2 ^ k) <? 2 ^ k then n / 2 ^ k
          else if 2 ^ k <? 2 * (n mod 2 ^ k) then n / 2 ^ k + 1
          else if Z.even (n / 2 ^ k) then n / 2 ^ k else n / 2 ^ k + 1), k.
  repeat case_match; split_and!; lia.
Qed.

Lemma round_sig_idemp p n : 0 < p → 0 <= n → round_sig p (round_sig p n) = round_sig p n.
Proof. intros Hp Hn. destruct (round_sig_form p n Hp Hn) as (q & k & ? & ? & ->). by apply round_sig_fix. Qed.
Lemma round_sig_nonneg p n : 0 < p → 0 <= n → 0 <= round_sig p n.
Proof.
  intros Hp Hn. destruct (round_sig_form p n Hp Hn) as (q & k & ? & ? & ->).
  apply Z.mul_nonneg_nonneg; [lia|]. apply Z.pow_nonneg. lia.
Qed.

Lemma bf_round_nonneg p m e : 0 < p → 0 <= m → bf_round p m e = BF p (round_sig p m) e.
Proof.
  intros Hp Hm. unfold bf_round. rewrite Z.abs_eq by done. f_equal.
  destruct (decide (m = 0)) as [->|]; [|rewrite Z.sgn_pos; lia].
  pose proof (round_sig_fix p 0 0 Hp ltac:(lia) ltac:(split; [done|by apply Z.pow_nonneg])) as H0. rewrite Z.mul_0_l in H0. by rewrite H0.
Qed.

Lemma bf_SetInt_exact x : bf_m (bf_SetInt x) = x ∧ bf_e (bf_SetInt x) = 0.
Proof.
  split; [|done]. unfold bf_SetInt, bf_round. simpl. rewrite round_sig_exact; [lia|lia|]. split; [lia|].
  destruct (Z.eqb_spec x 0) as [->|Hne]; [done|].
  destruct (Z.log2_spec (Z.abs x) ltac:(lia)) as [_ Hlt]. eapply Z.lt_le_trans; [exact Hlt|].
  apply Z.pow_le_mono_r; lia.
Qed.
Lemma bf_SetInt_prec x : 0 <= x < 2 ^ 64 → bf_prec (bf_SetInt x) = 64.
Proof.
  intros Hx. simpl. destruct (Z.eqb_spec x 0); [lia|]. rewrite Z.abs_eq by lia.
  assert (Z.log2 x < 64) by (apply Z.log2_lt_pow2; lia). lia.
Qed.

(** ** Non-negative floats of the default precision *)

Definition bf_pos (x : bigFloat) : Prop := 0 < bf_prec x <= 64 ∧ 0 <= bf_m x.

Lemma bf_pos_round p m e : 0 < p <= 64 → 0 <= m → bf_pos (bf_round p m e).
Proof. intros Hp Hm. rewrite bf_round_nonneg by lia. split; [done|]. simpl. by apply round_sig_nonneg; [lia|]. Qed.
Lemma bf_pos_Mul x y : bf_pos x → bf_pos y → bf_pos (bf_Mul x y).
Proof. intros [? ?] [? ?]. apply bf_pos_round; [lia|]. by apply Z.mul_nonneg_nonneg. Qed.
Lemma bf_align_nonneg x e : 0 <= bf_m x → 0 <= bf_align x e.
Proof. intros. apply Z.mul_nonneg_nonneg; [done|]. apply Z.pow_nonneg. lia. Qed.
Lemma bf_pos_Add x y : bf_pos x → bf_pos y → bf_pos (bf_Add x y).
Proof.
  intros [? ?] [? ?]. apply bf_pos_round; [lia|].
  pose proof (bf_align_nonneg x (Z.min (bf_e x) (bf_e y))). pose proof (bf_align_nonneg y (Z.min (bf_e x) (bf_e y))).
  lia.
Qed.
Lemma sticky_nonneg q r : 0 <= q → 0 <= sticky q r.
Proof. intros. unfold sticky. case_match; lia. Qed.
Lemma bf_pos_Quo x y : bf_pos x → bf_pos y → 0 < bf_m y → bf_pos (bf_Quo x y).
Proof.
  intros [? ?] [? ?] Hy. apply bf_pos_round; [lia|]. apply sticky_nonneg, Z.div_pos; [|done].
  apply Z.mul_nonneg_nonneg; [done|]. apply Z.pow_nonneg. lia.
Qed.
Lemma bf_pos_Sqrt x : bf_pos x → ∃ y, bf_Sqrt x = Some y ∧ bf_pos y.
Proof.
  intros [? ?]. unfold bf_Sqrt. rewrite (proj2 (Z.ltb_ge _ _)) by done. eexists. split; [done|].
  apply bf_pos_round; [done|]. apply sticky_nonneg, Z.sqrt_nonneg.
Qed.
Lemma bf_pos_SetInt x : 0 <= x < 2 ^ 64 → bf_pos (bf_SetInt x).
Proof. intros Hx. split; [rewrite bf_SetInt_prec by done; lia|]. rewrite (proj1 (bf_SetInt_exact x)). apply Hx. Qed.

(** An [n] that a float is at most (at least) bounds its integer part. *)
Lemma bf_Cmp_SetInt x n : bf_Cmp x (bf_SetInt n) <= 0 → 0 <= bf_m x → bf_Int x <= n.
Proof.
  unfold bf_Cmp, bf_align, bf_Int. destruct (bf_SetInt_exact n) as [-> ->]. intros Hc Hm.
  assert (bf_m x * 2 ^ (bf_e x - Z.min (bf_e x) 0) <= n * 2 ^ (0 - Z.min (bf_e x) 0)) as Hle.
  { apply Z.le_ngt. rewrite <-big_Cmp_gt. lia. }
  destruct (Z.leb_spec 0 (bf_e x)).
  - rewrite Z.min_r in Hle by lia. rewrite !Z.sub_0_r in Hle. simpl in Hle. lia.
  - rewrite Z.min_l, Z.sub_diag in Hle by lia. rewrite Z.quot_div_nonneg by (try apply Z.pow_pos_nonneg; lia).
    apply Z.div_le_upper_bound; [apply Z.pow_pos_nonneg; lia|].
    replace (0 - bf_e x) with (- bf_e x) in Hle by lia. lia.
Qed.
Lemma bf_SetInt_Cmp x n : bf_Cmp (bf_SetInt n) x <= 0 → 0 <= bf_m x → n <= bf_Int x.
Proof.
  unfold bf_Cmp, bf_align, bf_Int. destruct (bf_SetInt_exact n) as [-> ->]. intros Hc Hm.
  assert (n * 2 ^ (0 - Z.min 0 (bf_e x)) <= bf_m x * 2 ^ (bf_e x - Z.min 0 (bf_e x))) as Hle.
  { apply Z.le_ngt. rewrite <-big_Cmp_gt. lia. }
  destruct (Z.leb_spec 0 (bf_e x)).
  - rewrite Z.min_l in Hle by lia. rewrite !Z.sub_0_r in Hle. simpl in Hle. lia.
  - rewrite Z.min_r, Z.sub_diag in Hle by lia. rewrite Z.quot_div_nonneg by (try apply Z.pow_pos_nonneg; lia).
    apply Z.div_le_lower_bound; [apply Z.pow_pos_nonneg; lia|].
    replace (0 - bf_e x) with (- bf_e x) in Hle by lia. lia.
Qed.

Lemma floatToBigInt_1 p m e : 0 < p <= 64 → 0 <= m →
  floatToBigInt (bf_round p m e) 1 = bf_Int (bf_round p m e).
Proof.
  intros Hp Hm. unfold floatToBigInt. rewrite bf_round_nonneg by lia. unfold bf_SetPrec. cbn [bf_prec bf_m bf_e].
  destruct (Z.ltb_spec 64 p); [lia|].
  unfold bf_Mul_prec. destruct (bf_SetInt_exact 1) as [-> ->]. cbn [bf_m bf_e]. rewrite Z.mul_1_r, Z.add_0_r.
  rewrite bf_round_nonneg by (try apply round_sig_nonneg; lia).
  destruct (round_sig_form p m ltac:(lia) Hm) as (q & k & Hk & Hq & Hr). rewrite Hr.
  rewrite round_sig_fix; [done|lia|done|]. split; [lia|].
  etransitivity; [apply Hq|]. apply Z.pow_le_mono_r; lia.
Qed.

Lemma MaxSmiloPay_total balance : 0 <= balance < 2 ^ 64 * ether →
  ∃ max, MaxSmiloPay balance = Some (max, bf_SetInt (balance / ether)).
Proof.
  intros Hb. unfold MaxSmiloPay. fold ether.
  destruct (bf_pos_Sqrt (bf_SetInt (balance / ether))) as (f & Hf & _).
  { apply bf_pos_SetInt. unfold ether in *. split; [apply Z.div_pos; lia|apply Z.div_lt_upper_bound; lia]. }
  rewrite Hf. eauto.
Qed.

(** Waiting makes the allowance grow: it never shrinks while it is below the
    maximum of the balance, and never exceeds that maximum; within a block it
    stays as it is. *)
Theorem SmiloPay_grows_to_max prevBlock newBlock prev balance :
  0 <= balance < 2 ^ 64 * ether → 0 <= prev < 2 ^ 64 → newBlock - prevBlock < 2 ^ 64 →
  ∃ max balanceSmilo r, MaxSmiloPay balance = Some (max, balanceSmilo) ∧
    CalculateSmiloPay prevBlock newBlock prev balance = Some r ∧
    (newBlock <= prevBlock → r = prev) ∧
    (prevBlock < newBlock → r <= max ∧ (prev <= max → prev <= r)).
Proof.
  intros Hb Hp Hgap. destruct (MaxSmiloPay_total balance Hb) as [max Hmax].
  exists max, (bf_SetInt (balance / ether)). unfold CalculateSmiloPay.
  destruct (Z.leb_spec 0 (big_Cmp prevBlock newBlock)) as [Hc|Hc].
  { exists prev. split_and!; [done..|]. intros Hlt%big_Cmp_lt. lia. }
  rewrite big_Cmp_lt in Hc. rewrite Hmax.
  destruct (bf_pos_Sqrt (bf_SetInt (balance / ether))) as (s & Hs & Hspos).
  { apply bf_pos_SetInt. unfold ether in *. split; [apply Z.div_pos; lia|apply Z.div_lt_upper_bound; lia]. }
  rewrite Hs. cbv zeta.
  set (speed := bf_Mul (bf_Mul (bf_Add (bf_Quo s c_750000) c_0_000001) c_0_5) c_1e18).
  assert (bf_pos speed) as Hspeed.
  { unfold speed. repeat first [apply bf_pos_Mul | apply bf_pos_Add | apply bf_pos_Quo]; done. }
  set (res := bf_Mul (bf_SetInt (newBlock - prevBlock)) speed).
  assert (bf_pos res) as Hres by (apply bf_pos_Mul; [apply bf_pos_SetInt; lia|done]).
  assert (bf_pos (bf_SetInt prev)) as Hprev by by apply bf_pos_SetInt.
  assert (bf_pos (bf_Add (bf_SetInt prev) res)) as Hv by by apply bf_pos_Add.
  destruct (Z.ltb_spec 0 (bf_Cmp (bf_Add (bf_SetInt prev) res) (bf_SetInt max))) as [|Hle];
    [exists max; split_and!; [done..| |]; lia|].
  destruct (Z.ltb_spec 0 (bf_Cmp (bf_SetInt prev) (bf_Add (bf_SetInt prev) res))) as [|Hge];
    [exists max; split_and!; [done..| |]; lia|].
  eexists. split_and!; [done..|lia|]. intros _.
  assert (floatToBigInt (bf_Add (bf_SetInt prev) res) 1 = bf_Int (bf_Add (bf_SetInt prev) res)) as ->.
  { apply floatToBigInt_1; [destruct Hprev, Hres; lia|].
    pose proof (bf_align_nonneg (bf_SetInt prev) (Z.min (bf_e (bf_SetInt prev)) (bf_e res)) (proj2 Hprev)).
    pose proof (bf_align_nonneg res (Z.min (bf_e (bf_SetInt prev)) (bf_e res)) (proj2 Hres)). lia. }
  split; [by apply bf_Cmp_SetInt, Hv|]. intros _. apply bf_SetInt_Cmp; [done|apply Hv].
Qed.
