(* ===== verification/StateDB.v ===== *)
(** * The state database: core/state/{statedb,state_object,journal}.go

    Accounts are live objects over the account trie; every change is journalled
    so that it can be reverted.  The account trie is the map of the accounts it
    holds, a storage trie the map of its non-zero words; reading them does not
    fail.  [stateObject] methods are functions that write the changed object
    back, as the pointer in the source does. *)

From Stdlib Require Import ZArith Lia.
From S2P Require Import Prelude Errors Rlp Fullnode Messages SmiloPay.
Open Scope didux_scope.

Record Account := MkAccount {
  ac_Nonce : Z; ac_Balance : Z; ac_SmiloPay : Z; ac_BlockNumber : Z;
  ac_Root : hash; ac_CodeHash : hash
}.

(** A nil [code] or [fakeStorage] is [None]; [so_trie] is [None] until the trie
    is opened. *)
Record stateObject := MkObject {
  so_address : address;
  so_data : Account;
  so_trie : option (gmap Z Z);
  so_code : option bytes;
  so_originStorage : gmap Z Z;
  so_dirtyStorage : gmap Z Z;
  so_fakeStorage : option (gmap Z Z);
  so_dirtyCode : bool;
  so_suicided : bool;
  so_deleted : bool
}.

Record Log := MkLog {
  lg_Address : address; lg_Topics : list hash; lg_Data : bytes; lg_BlockNumber : Z;
  lg_TxHash : hash; lg_TxIndex : Z; lg_BlockHash : hash; lg_Index : Z; lg_Removed : bool
}.

Inductive journalEntry : Type :=
  | createObjectChange (account : address)
  | resetObjectChange (prev : stateObject)
  | suicideChange (account : address) (prev : bool) (prevbalance : Z)
  | balanceChange (account : address) (prev : Z)
  | smiloPayChange (account : address) (prev : Z)
  | blockChange (account : address) (prevSmiloPay prevblock : Z)
  | nonceChange (account : address) (prev : Z)
  | storageChange (account : address) (key prevalue : hash)
  | codeChange (account : address) (prevcode : option bytes) (prevhash : hash)
  | refundChange (prev : Z)
  | addLogChange (txhash : hash)
  | addPreimageChange (h : hash)
  | touchChange (account : address).

Definition dirtied (e : journalEntry) : option address :=
  match e with
  | createObjectChange a | suicideChange a _ _ | balanceChange a _ | smiloPayChange a _
  | blockChange a _ _ | nonceChange a _ | storageChange a _ _ | codeChange a _ _ | touchChange a => Some a
  | resetObjectChange _ | refundChange _ | addLogChange _ | addPreimageChange _ => None
  end.

Record journal := MkJournal { j_entries : list journalEntry; j_dirties : gmap Z Z }.
Definition newJournal : journal := MkJournal [] ∅.

Definition j_append (e : journalEntry) (j : journal) : journal :=
  MkJournal (j_entries j ++ [e])
    match dirtied e with
    | Some a => <[a := default 0 (j_dirties j !! a) + 1]> (j_dirties j)
    | None => j_dirties j
    end.
Definition j_dirty (a : address) (j : journal) : journal :=
  MkJournal (j_entries j) (<[a := default 0 (j_dirties j !! a) + 1]> (j_dirties j)).
(** The dirty tracking of a reverted entry. *)
Definition j_undirty (e : journalEntry) (j : journal) : journal :=
  match dirtied e with
  | Some a => let n := default 0 (j_dirties j !! a) - 1 in
              MkJournal (j_entries j) (if n =? 0 then delete a (j_dirties j) else <[a := n]> (j_dirties j))
  | None => j
  end.

Record StateDB := MkStateDB {
  sd_trie : gmap Z Account;
  sd_stateObjects : gmap Z stateObject;
  sd_stateObjectsDirty : gset Z;
  sd_refund : Z;
  sd_thash : hash; sd_bhash : hash; sd_txIndex : Z;
  sd_logs : gmap Z (list Log);
  sd_logSize : Z;
  sd_preimages : gmap Z bytes;
  sd_journal : journal;
  sd_validRevisions : list (Z * nat);
  sd_nextRevisionId : Z
}.

Section setters.
Implicit Types s : StateDB.
Definition set_trie v s := MkStateDB v (sd_stateObjects s) (sd_stateObjectsDirty s) (sd_refund s) (sd_thash s)
  (sd_bhash s) (sd_txIndex s) (sd_logs s) (sd_logSize s) (sd_preimages s) (sd_journal s) (sd_validRevisions s) (sd_nextRevisionId s).
Definition set_stateObjects v s := MkStateDB (sd_trie s) v (sd_stateObjectsDirty s) (sd_refund s) (sd_thash s)
  (sd_bhash s) (sd_txIndex s) (sd_logs s) (sd_logSize s) (sd_preimages s) (sd_journal s) (sd_validRevisions s) (sd_nextRevisionId s).
Definition set_stateObjectsDirty v s := MkStateDB (sd_trie s) (sd_stateObjects s) v (sd_refund s) (sd_thash s)
  (sd_bhash s) (sd_txIndex s) (sd_logs s) (sd_logSize s) (sd_preimages s) (sd_journal s) (sd_validRevisions s) (sd_nextRevisionId s).
Definition set_refund v s := MkStateDB (sd_trie s) (sd_stateObjects s) (sd_stateObjectsDirty s) v (sd_thash s)
  (sd_bhash s) (sd_txIndex s) (sd_logs s) (sd_logSize s) (sd_preimages s) (sd_journal s) (sd_validRevisions s) (sd_nextRevisionId s).
Definition set_tx t b i s := MkStateDB (sd_trie s) (sd_stateObjects s) (sd_stateObjectsDirty s) (sd_refund s) t
  b i (sd_logs s) (sd_logSize s) (sd_preimages s) (sd_journal s) (sd_validRevisions s) (sd_nextRevisionId s).
Definition set_logs l n s := MkStateDB (sd_trie s) (sd_stateObjects s) (sd_stateObjectsDirty s) (sd_refund s) (sd_thash s)
  (sd_bhash s) (sd_txIndex s) l n (sd_preimages s) (sd_journal s) (sd_validRevisions s) (sd_nextRevisionId s).
Definition set_preimages v s := MkStateDB (sd_trie s) (sd_stateObjects s) (sd_stateObjectsDirty s) (sd_refund s) (sd_thash s)
  (sd_bhash s) (sd_txIndex s) (sd_logs s) (sd_logSize s) v (sd_journal s) (sd_validRevisions s) (sd_nextRevisionId s).
Definition set_journal v s := MkStateDB (sd_trie s) (sd_stateObjects s) (sd_stateObjectsDirty s) (sd_refund s) (sd_thash s)
  (sd_bhash s) (sd_txIndex s) (sd_logs s) (sd_logSize s) (sd_preimages s) v (sd_validRevisions s) (sd_nextRevisionId s).
Definition set_revisions v n s := MkStateDB (sd_trie s) (sd_stateObjects s) (sd_stateObjectsDirty s) (sd_refund s) (sd_thash s)
  (sd_bhash s) (sd_txIndex s) (sd_logs s) (sd_logSize s) (sd_preimages s) (sd_journal s) v n.
End setters.

Section object_setters.
Implicit Types o : stateObject.
Definition set_data (f : Account → Account) o := MkObject (so_address o) (f (so_data o)) (so_trie o) (so_code o)
  (so_originStorage o) (so_dirtyStorage o) (so_fakeStorage o) (so_dirtyCode o) (so_suicided o) (so_deleted o).
Definition set_so_trie t o := MkObject (so_address o) (so_data o) t (so_code o)
  (so_originStorage o) (so_dirtyStorage o) (so_fakeStorage o) (so_dirtyCode o) (so_suicided o) (so_deleted o).
Definition set_code c d o := MkObject (so_address o) (so_data o) (so_trie o) c
  (so_originStorage o) (so_dirtyStorage o) (so_fakeStorage o) d (so_suicided o) (so_deleted o).
Definition set_storage origin dirty o := MkObject (so_address o) (so_data o) (so_trie o) (so_code o)
  origin dirty (so_fakeStorage o) (so_dirtyCode o) (so_suicided o) (so_deleted o).
Definition set_fake f o := MkObject (so_address o) (so_data o) (so_trie o) (so_code o)
  (so_originStorage o) (so_dirtyStorage o) f (so_dirtyCode o) (so_suicided o) (so_deleted o).
Definition set_suicided v o := MkObject (so_address o) (so_data o) (so_trie o) (so_code o)
  (so_originStorage o) (so_dirtyStorage o) (so_fakeStorage o) (so_dirtyCode o) v (so_deleted o).
Definition set_deleted v o := MkObject (so_address o) (so_data o) (so_trie o) (so_code o)
  (so_originStorage o) (so_dirtyStorage o) (so_fakeStorage o) (so_dirtyCode o) (so_suicided o) v.
(** [setBalance], [setSmiloPay], [setSmiloPayAndBlock], [setNonce]. *)
Definition setBalance v := set_data (λ d, MkAccount (ac_Nonce d) v (ac_SmiloPay d) (ac_BlockNumber d) (ac_Root d) (ac_CodeHash d)).
Definition setSmiloPay v := set_data (λ d, MkAccount (ac_Nonce d) (ac_Balance d) v (ac_BlockNumber d) (ac_Root d) (ac_CodeHash d)).
Definition setSmiloPayAndBlock v b := set_data (λ d, MkAccount (ac_Nonce d) (ac_Balance d) v b (ac_Root d) (ac_CodeHash d)).
Definition setNonce v := set_data (λ d, MkAccount v (ac_Balance d) (ac_SmiloPay d) (ac_BlockNumber d) (ac_Root d) (ac_CodeHash d)).
Definition setRoot v := set_data (λ d, MkAccount (ac_Nonce d) (ac_Balance d) (ac_SmiloPay d) (ac_BlockNumber d) v (ac_CodeHash d)).
Definition setCode h c o := set_code c true
  (set_data (λ d, MkAccount (ac_Nonce d) (ac_Balance d) (ac_SmiloPay d) (ac_BlockNumber d) (ac_Root d) h) o).
Definition setState k v o := set_storage (so_originStorage o) (<[k := v]> (so_dirtyStorage o)) o.
End object_setters.

(** What the database below the state holds: storage tries and contract code by
    their hash, and the hash of a storage trie. *)
Record Database := MkDatabase {
  db_OpenStorageTrie : hash → gmap Z Z;
  db_ContractCode : hash → option bytes;
  db_StorageHash : gmap Z Z → hash
}.

Section statedb.
Context `{!Crypto} (D : Database).
Local Abbreviation SM A := (M StateDB A).

Definition emptyCodeHash : hash := Keccak256 [].
Definition ripemd : address := 3.

(** ** State objects *)

(** [newObject]; an [Account{}] has the empty code hash. *)
Definition newObject (a : address) (data : Account) : stateObject :=
  MkObject a data None None ∅ ∅ None false false false.
Definition emptyAccount : Account := MkAccount 0 0 0 0 0 emptyCodeHash.

Definition empty (o : stateObject) : bool :=
  (ac_Nonce (so_data o) =? 0) && (Z.sgn (ac_Balance (so_data o)) =? 0)
  && (ac_CodeHash (so_data o) =? emptyCodeHash).

Definition getTrie (o : stateObject) : gmap Z Z :=
  match so_trie o with Some t => t | None => db_OpenStorageTrie D (ac_Root (so_data o)) end.

(** The words that [GetCommittedState] and [GetState] return, and the object
    they leave behind: the trie is opened and the word is cached. *)
Definition committed (o : stateObject) (key : hash) : hash :=
  match so_fakeStorage o with
  | Some f => default 0 (f !! key)
  | None => match so_originStorage o !! key with
            | Some v => v
            | None => default 0 (getTrie o !! key)
            end
  end.
Definition GetCommittedState (o : stateObject) (key : hash) : hash * stateObject :=
  match so_fakeStorage o with
  | Some f => (default 0 (f !! key), o)
  | None =>
      match so_originStorage o !! key with
      | Some v => (v, o)
      | None => let v := default 0 (getTrie o !! key) in
                (v, set_storage (<[key := v]> (so_originStorage o)) (so_dirtyStorage o)
                      (set_so_trie (Some (getTrie o)) o))
      end
  end.
Definition current (o : stateObject) (key : hash) : hash :=
  match so_fakeStorage o with
  | Some f => default 0 (f !! key)
  | None => match so_dirtyStorage o !! key with Some v => v | None => committed o key end
  end.
Definition GetState (o : stateObject) (key : hash) : hash * stateObject :=
  match so_fakeStorage o with
  | Some f => (default 0 (f !! key), o)
  | None => match so_dirtyStorage o !! key with
            | Some v => (v, o)
            | None => GetCommittedState o key
            end
  end.

(** [Code]: the code and the object that caches it. *)
Definition code_of (o : stateObject) : option bytes :=
  match so_code o with
  | Some c => Some c
  | None => if ac_CodeHash (so_data o) =? emptyCodeHash then None else db_ContractCode D (ac_CodeHash (so_data o))
  end.
Definition Code (o : stateObject) : option bytes * stateObject :=
  match so_code o with
  | Some c => (Some c, o)
  | None => if ac_CodeHash (so_data o) =? emptyCodeHash then (None, o)
            else let c := db_ContractCode D (ac_CodeHash (so_data o)) in (c, set_code c (so_dirtyCode o) o)
  end.

(** ** Live objects *)

Definition append (e : journalEntry) : SM () := mmod (λ s, set_journal (j_append e (sd_journal s)) s).

Definition setStateObject (o : stateObject) : SM () :=
  mmod (λ s, set_stateObjects (<[so_address o := o]> (sd_stateObjects s)) s).

Definition getStateObject (a : address) : SM (option stateObject) :=
  let! s := mget in
  match sd_stateObjects s !! a with
  | Some obj => mret' (if so_deleted obj then None else Some obj)
  | None =>
      match sd_trie s !! a with
      | None => mret' None
      | Some data => let obj := newObject a data in
                     do! setStateObject obj in mret' (Some obj)
      end
  end.

Definition createObject (a : address) : SM (stateObject * option stateObject) :=
  let! prev := getStateObject a in
  let newobj := setNonce 0 (newObject a emptyAccount) in
  do! append match prev with
             | None => createObjectChange a
             | Some prev => resetObjectChange prev
             end in
  do! setStateObject newobj in
  mret' (newobj, prev).

Definition GetOrNewStateObject (a : address) : SM stateObject :=
  let! obj := getStateObject a in
  match obj with
  | Some o => if so_deleted o then let! r := createObject a in mret' r.1 else mret' o
  | None => let! r := createObject a in mret' r.1
  end.

(** The object changed through its pointer. *)
Definition update (o : stateObject) : SM stateObject := do! setStateObject o in mret' o.

(** ** Journalled changes of an object *)

Definition touch (o : stateObject) : SM () :=
  do! append (touchChange (so_address o)) in
  if so_address o =? ripemd then mmod (λ s, set_journal (j_dirty (so_address o) (sd_journal s)) s) else mret' ().

Definition so_UpdateSmiloPay (blockNumber : Z) (o : stateObject) : SM stateObject :=
  let d := so_data o in
  let! smiloPay := mderef (CalculateSmiloPay (ac_BlockNumber d) blockNumber (ac_SmiloPay d) (ac_Balance d)) in
  do! append (blockChange (so_address o) (ac_SmiloPay d) (ac_BlockNumber d)) in
  update (setSmiloPayAndBlock smiloPay blockNumber o).

Definition so_SetBalance (amount blockNumber : Z) (o : stateObject) : SM stateObject :=
  let! o := so_UpdateSmiloPay blockNumber o in
  do! append (balanceChange (so_address o) (ac_Balance (so_data o))) in
  update (setBalance amount o).

Definition so_SetSmiloPay (amount : Z) (o : stateObject) : SM stateObject :=
  do! append (smiloPayChange (so_address o) (ac_SmiloPay (so_data o))) in
  update (setSmiloPay amount o).

Definition so_AddBalance (amount blockNumber : Z) (o : stateObject) : SM () :=
  if Z.sgn amount =? 0 then (if empty o then touch o else mret' ()) else
  let! o := so_UpdateSmiloPay blockNumber o in
  do! so_SetBalance (ac_Balance (so_data o) + amount) blockNumber o in mret' ().

Definition so_AddSmiloPay (amount : Z) (o : stateObject) : SM () :=
  if Z.sgn amount =? 0 then (if empty o then touch o else mret' ()) else
  do! so_SetSmiloPay (ac_SmiloPay (so_data o) + amount) o in mret' ().

Definition so_SubBalance (amount blockNumber : Z) (o : stateObject) : SM () :=
  if Z.sgn amount =? 0 then mret' () else
  do! so_SetBalance (ac_Balance (so_data o) - amount) blockNumber o in mret' ().

Definition so_SubSmiloPay (amount blockNumber : Z) (o : stateObject) : SM () :=
  if Z.sgn amount =? 0 then mret' () else
  let! o := so_UpdateSmiloPay blockNumber o in
  do! so_SetSmiloPay (ac_SmiloPay (so_data o) - amount) o in mret' ().

Definition so_SetNonce (nonce : Z) (o : stateObject) : SM () :=
  do! append (nonceChange (so_address o) (ac_Nonce (so_data o))) in
  do! update (setNonce nonce o) in mret' ().

Definition so_SetCode (codeHash : hash) (code : bytes) (o : stateObject) : SM () :=
  let '(prevcode, o) := Code o in
  do! append (codeChange (so_address o) prevcode (ac_CodeHash (so_data o))) in
  do! update (setCode codeHash (Some code) o) in mret' ().

Definition so_SetState (key value : hash) (o : stateObject) : SM () :=
  match so_fakeStorage o with
  | Some f => do! update (set_fake (Some (<[key := value]> f)) o) in mret' ()
  | None =>
      let '(prev, o) := GetState o key in
      do! update o in
      if prev =? value then mret' () else
      do! append (storageChange (so_address o) key prev) in
      do! update (setState key value o) in mret' ()
  end.

Definition so_SetStorage (storage : gmap Z Z) (o : stateObject) : SM () :=
  do! update (set_fake (Some (storage ∪ default ∅ (so_fakeStorage o))) o) in mret' ().

(** ** Getters *)

Definition with_object {A} (a : address) (dflt : A) (f : stateObject → A) : SM A :=
  let! obj := getStateObject a in
  mret' match obj with Some o => f o | None => dflt end.

Definition Exist (a : address) : SM bool := with_object a false (λ _, true).
Definition Empty (a : address) : SM bool := with_object a true empty.
Definition GetBalance (a : address) : SM Z := with_object a 0 (λ o, ac_Balance (so_data o)).
Definition GetNonce (a : address) : SM Z := with_object a 0 (λ o, ac_Nonce (so_data o)).
Definition GetCodeHash (a : address) : SM hash := with_object a 0 (λ o, ac_CodeHash (so_data o)).
Definition HasSuicided (a : address) : SM bool := with_object a false so_suicided.
Definition GetSmiloPay (a : address) (blockNumber : Z) : SM Z :=
  let! obj := getStateObject a in
  match obj with
  | None => mret' 0
  | Some o => let d := so_data o in
              mderef (CalculateSmiloPay (ac_BlockNumber d) blockNumber (ac_SmiloPay d) (ac_Balance d))
  end.
Definition GetCode (a : address) : SM (option bytes) :=
  let! obj := getStateObject a in
  match obj with
  | None => mret' None
  | Some o => let '(c, o) := Code o in do! update o in mret' c
  end.
Definition GetCodeSize (a : address) : SM Z :=
  with_object a 0 (λ o, blen match so_code o with
                             | Some c => c
                             | None => default [] (db_ContractCode D (ac_CodeHash (so_data o)))
                             end).
Definition db_GetState (a : address) (key : hash) : SM hash :=
  let! obj := getStateObject a in
  match obj with
  | None => mret' 0
  | Some o => let '(v, o) := GetState o key in do! update o in mret' v
  end.
Definition db_GetCommittedState (a : address) (key : hash) : SM hash :=
  let! obj := getStateObject a in
  match obj with
  | None => mret' 0
  | Some o => let '(v, o) := GetCommittedState o key in do! update o in mret' v
  end.
Definition GetRefund : SM Z := let! s := mget in mret' (sd_refund s).

(** ** Setters *)

Definition AddBalance (a : address) (amount blockNumber : Z) : SM () :=
  let! o := GetOrNewStateObject a in so_AddBalance amount blockNumber o.
Definition AddSmiloPay (a : address) (amount : Z) : SM () :=
  let! o := GetOrNewStateObject a in so_AddSmiloPay amount o.
Definition SubBalance (a : address) (amount blockNumber : Z) : SM () :=
  let! o := GetOrNewStateObject a in so_SubBalance amount blockNumber o.
Definition SubSmiloPay (a : address) (amount blockNumber : Z) : SM () :=
  let! o := GetOrNewStateObject a in so_SubSmiloPay amount blockNumber o.
Definition SetBalance (a : address) (amount blockNumber : Z) : SM () :=
  let! o := GetOrNewStateObject a in do! so_SetBalance amount blockNumber o in mret' ().
Definition SetSmiloPay (a : address) (amount : Z) : SM () :=
  let! o := GetOrNewStateObject a in do! so_SetSmiloPay amount o in mret' ().
Definition UpdateSmiloPay (a : address) (blockNumber : Z) : SM () :=
  let! o := GetOrNewStateObject a in do! so_UpdateSmiloPay blockNumber o in mret' ().
Definition SetNonce (a : address) (nonce : Z) : SM () :=
  let! o := GetOrNewStateObject a in so_SetNonce nonce o.
Definition SetCode (a : address) (code : bytes) : SM () :=
  let! o := GetOrNewStateObject a in so_SetCode (Keccak256 code) code o.
Definition SetState (a : address) (key value : hash) : SM () :=
  let! o := GetOrNewStateObject a in so_SetState key value o.
Definition SetStorage (a : address) (storage : gmap Z Z) : SM () :=
  let! o := GetOrNewStateObject a in so_SetStorage storage o.

Definition Suicide (a : address) : SM bool :=
  let! obj := getStateObject a in
  match obj with
  | None => mret' false
  | Some o =>
      do! append (suicideChange a (so_suicided o) (ac_Balance (so_data o))) in
      do! update (setBalance 0 (set_suicided true o)) in mret' true
  end.

Definition CreateAccount (a : address) : SM () :=
  let! r := createObject a in
  match r.2 with
  | None => mret' ()
  | Some prev => do! update (setBalance (ac_Balance (so_data prev)) r.1) in mret' ()
  end.

Definition AddLog (l : Log) : SM () :=
  let! s := mget in
  do! append (addLogChange (sd_thash s)) in
  let l := MkLog (lg_Address l) (lg_Topics l) (lg_Data l) (lg_BlockNumber l) (sd_thash s) (sd_txIndex s)
             (sd_bhash s) (sd_logSize s) (lg_Removed l) in
  mmod (λ s, set_logs (<[sd_thash s := default [] (sd_logs s !! sd_thash s) ++ [l]]> (sd_logs s))
                      (u64 (sd_logSize s + 1)) s).

Definition AddPreimage (h : hash) (preimage : bytes) : SM () :=
  let! s := mget in
  match sd_preimages s !! h with
  | Some _ => mret' ()
  | None => do! append (addPreimageChange h) in mmod (λ s, set_preimages (<[h := preimage]> (sd_preimages s)) s)
  end.

Definition AddRefund (gas : Z) : SM () :=
  let! s := mget in
  do! append (refundChange (sd_refund s)) in mmod (set_refund (u64 (sd_refund s + gas))).

Definition SubRefund (gas : Z) : SM () :=
  let! s := mget in
  do! append (refundChange (sd_refund s)) in
  if sd_refund s <? gas then mpanic else mmod (set_refund (sd_refund s - gas)).

Definition Prepare (thash bhash : hash) (ti : Z) : SM () := mmod (set_tx thash bhash ti).

(** ** Reverting *)

(** The object of the account of an entry, changed by [f]; nil panics. *)
Definition on_object (a : address) (f : stateObject → stateObject) : SM () :=
  let! obj := getStateObject a in
  let! o := mderef obj in
  do! update (f o) in mret' ().

Definition revert_entry (e : journalEntry) : SM () :=
  match e with
  | createObjectChange a =>
      mmod (λ s, set_stateObjectsDirty (sd_stateObjectsDirty s ∖ {[a]})
                   (set_stateObjects (delete a (sd_stateObjects s)) s))
  | resetObjectChange prev => setStateObject prev
  | suicideChange a prev prevbalance =>
      let! obj := getStateObject a in
      match obj with
      | None => mret' ()
      | Some o => do! update (setBalance prevbalance (set_suicided prev o)) in mret' ()
      end
  | balanceChange a prev => on_object a (setBalance prev)
  | smiloPayChange a prev => on_object a (setSmiloPay prev)
  | blockChange a prevSmiloPay prevblock => on_object a (setSmiloPayAndBlock prevSmiloPay prevblock)
  | nonceChange a prev => on_object a (setNonce prev)
  | storageChange a key prevalue => on_object a (setState key prevalue)
  | codeChange a prevcode prevhash => on_object a (setCode prevhash prevcode)
  | refundChange prev => mmod (set_refund prev)
  | addLogChange txhash =>
      let! s := mget in
      let logs := default [] (sd_logs s !! txhash) in
      if (length logs =? 0)%nat then mpanic else
      mmod (λ s, set_logs (if (length logs =? 1)%nat then delete txhash (sd_logs s)
                           else <[txhash := removelast logs]> (sd_logs s)) (u64 (sd_logSize s - 1)) s)
  | addPreimageChange h => mmod (λ s, set_preimages (delete h (sd_preimages s)) s)
  | touchChange _ => mret' ()
  end.

(** The loop of [journal.revert], over the entries to undo, newest first. *)
Fixpoint revert_entries (l : list journalEntry) : SM () :=
  match l with
  | [] => mret' ()
  | e :: tl => do! revert_entry e in
               do! mmod (λ s, set_journal (j_undirty e (sd_journal s)) s) in
               revert_entries tl
  end.
Definition journal_revert (snapshot : nat) : SM () :=
  let! s := mget in
  do! revert_entries (reverse (drop snapshot (j_entries (sd_journal s)))) in
  mmod (λ s, set_journal (MkJournal (take snapshot (j_entries (sd_journal s))) (j_dirties (sd_journal s))) s).

Definition StateDB_Snapshot : SM Z :=
  let! s := mget in
  let id := sd_nextRevisionId s in
  do! mmod (set_revisions (sd_validRevisions s ++ [(id, length (j_entries (sd_journal s)))]) (id + 1)) in
  mret' id.

(** [sort.Search]: the binary search; [n] iterations are enough. *)
Fixpoint sort_Search (fuel : nat) (f : nat → bool) (i j : nat) : nat :=
  match fuel with
  | O => i
  | S fuel' => if (i <? j)%nat then
                 let h := ((i + j) / 2)%nat in
                 if negb (f h) then sort_Search fuel' f (S h) j else sort_Search fuel' f i h
               else i
  end.

Definition RevertToSnapshot (revid : Z) : SM () :=
  let! s := mget in
  let revs := sd_validRevisions s in
  let idx := sort_Search (length revs) (λ i, match revs !! i with
                                             | Some (id, _) => revid <=? id | None => true end) 0 (length revs) in
  match revs !! idx with
  | Some (id, journalIndex) =>
      if negb (id =? revid) then mpanic else
      do! journal_revert journalIndex in
      mmod (λ s, set_revisions (take idx (sd_validRevisions s)) (sd_nextRevisionId s) s)
  | None => mpanic
  end.

(** ** Finalise *)

(** [updateTrie]: write the dirty words to the storage trie. *)
Definition updateTrie (o : stateObject) : stateObject :=
  let '(origin, tr) :=
    map_fold (λ key value '(origin, tr),
      if value =? default 0 (so_originStorage o !! key) then (origin, tr)
      else (<[key := value]> origin, if value =? 0 then delete key tr else <[key := value]> tr))
      (so_originStorage o, getTrie o) (so_dirtyStorage o) in
  set_so_trie (Some tr) (set_storage origin ∅ o).
Definition updateRoot (o : stateObject) : stateObject :=
  let o := updateTrie o in setRoot (db_StorageHash D (getTrie o)) o.

(** [updateStateObject] panics on what RLP cannot encode. *)
Definition updateStateObject (o : stateObject) : SM () :=
  let d := so_data o in
  if (ac_Balance d <? 0) || (ac_SmiloPay d <? 0) || (ac_BlockNumber d <? 0) then mpanic
  else mmod (λ s, set_trie (<[so_address o := d]> (sd_trie s)) s).
Definition deleteStateObject (o : stateObject) : SM () :=
  do! update (set_deleted true o) in mmod (λ s, set_trie (delete (so_address o) (sd_trie s)) s).

Definition clearJournalAndRefund : SM () :=
  mmod (λ s, set_refund 0 (set_revisions [] (sd_nextRevisionId s) (set_journal newJournal s))).

Fixpoint finalise_all (deleteEmptyObjects : bool) (dirties : list address) : SM () :=
  match dirties with
  | [] => mret' ()
  | a :: tl =>
      let! s := mget in
      do! match sd_stateObjects s !! a with
          | None => mret' ()
          | Some o =>
              do! (if so_suicided o || (deleteEmptyObjects && empty o) then deleteStateObject o
                   else let o := updateRoot o in do! update o in updateStateObject o) in
              mmod (λ s, set_stateObjectsDirty (sd_stateObjectsDirty s ∪ {[a]}) s)
          end in
      finalise_all deleteEmptyObjects tl
  end.
Definition StateDB_Finalise (deleteEmptyObjects : bool) : SM () :=
  let! s := mget in
  do! finalise_all deleteEmptyObjects (map_to_list (j_dirties (sd_journal s))).*1 in
  clearJournalAndRefund.

(** [New] and [Reset]: no live objects above an account trie. *)
Definition StateDB_New (trie : gmap Z Account) : StateDB :=
  MkStateDB trie ∅ ∅ 0 0 0 0 ∅ 0 ∅ newJournal [] 0.
Definition StateDB_Reset (trie : gmap Z Account) : SM () :=
  mmod (λ s, MkStateDB trie ∅ ∅ 0 0 0 0 ∅ 0 ∅ newJournal [] (sd_nextRevisionId s)).
End statedb.
