(* ===== verification/StateRevert.v ===== *)
(** * Reverting the state: what the journal of core/state guarantees

    [RevertToSnapshot] brings back the state of the snapshot, whatever was done
    in between, nested snapshots and reverts included: every getter answers as
    it did.  The caches (which objects are live, which words and code they
    cache) may differ, so the equality is [same_state], a partial equivalence
    that holds of states without the debugging override of the storage. *)

From Stdlib Require Import ZArith Lia.
From S2P Require Import Prelude Errors Rlp Fullnode Messages SmiloPay StateDB EngineVerify.
Open Scope didux_scope.

Section revert.
Context `{!Crypto} (D : Database).
Implicit Types s t : StateDB.
Implicit Types o p : stateObject.

(** ** The state that is seen through the getters *)

Definition peek (s : StateDB) (a : address) : option stateObject :=
  match sd_stateObjects s !! a with
  | Some o => if so_deleted o then None else Some o
  | None => newObject a <$> sd_trie s !! a
  end.

Record obj_ok (a : address) (o : stateObject) : Prop := {
  oo_address : so_address o = a; oo_fake : so_fakeStorage o = None; oo_deleted : so_deleted o = false
}.
Record obj_rel (a : address) (o p : stateObject) : Prop := {
  or_l : obj_ok a o; or_r : obj_ok a p;
  or_data : so_data o = so_data p;
  or_code : code_of D o = code_of D p;
  or_current k : current D o k = current D p k;
  or_committed k : committed D o k = committed D p k;
  or_suicided : so_suicided o = so_suicided p
}.
Definition opt_rel {A} (R : A → A → Prop) (x y : option A) : Prop :=
  match x, y with Some a, Some b => R a b | None, None => True | _, _ => False end.

(** An object deleted by [Finalise] is not in the trie any more, and would be deleted again. *)
Definition dead_ok (s : StateDB) : Prop :=
  ∀ a o, sd_stateObjects s !! a = Some o → so_deleted o = true →
    sd_trie s !! a = None ∧ so_address o = a ∧ so_suicided o || empty o = true.

Record same_state (s t : StateDB) : Prop := {
  ss_obj a : opt_rel (obj_rel a) (peek s a) (peek t a);
  ss_trie : sd_trie s = sd_trie t;
  ss_refund : sd_refund s = sd_refund t;
  ss_tx : sd_thash s = sd_thash t ∧ sd_bhash s = sd_bhash t ∧ sd_txIndex s = sd_txIndex t;
  ss_logs h : default [] (sd_logs s !! h) = default [] (sd_logs t !! h);
  ss_logSize : sd_logSize s = sd_logSize t ∧ 0 <= sd_logSize s < two64;
  ss_preimages : sd_preimages s = sd_preimages t;
  ss_dead_l : dead_ok s; ss_dead_r : dead_ok t
}.

Lemma obj_rel_sym a o p : obj_rel a o p → obj_rel a p o.
Proof. intros []. by split. Qed.
Lemma obj_rel_trans a o p q : obj_rel a o p → obj_rel a p q → obj_rel a o q.
Proof. intros [] []. split; try done; try congruence; intros k; etransitivity; eauto. Qed.
#[global] Instance same_state_sym : Symmetric same_state.
Proof.
  intros s t [Ho ? ? ? Hl [Hls ?]]. split; try done; try naive_solver.
  - intros a. specialize (Ho a). destruct (peek s a), (peek t a); simpl in *; try done. by apply obj_rel_sym.
  - by rewrite <-Hls.
Qed.
#[global] Instance same_state_trans : Transitive same_state.
Proof.
  intros s t u [Ho1 ? ? [? [? ?]] Hl1 [? ?]] [Ho2 ? ? [? [? ?]] Hl2 [? ?]]. split; try done; try congruence.
  - intros a. specialize (Ho1 a). specialize (Ho2 a).
    destruct (peek s a), (peek t a), (peek u a); simpl in *; try done. by eapply obj_rel_trans.
  - split_and!; congruence.
  - split; [congruence|done].
Qed.
Definition wf (s : StateDB) : Prop := same_state s s.
Lemma same_state_wf_l s t : same_state s t → wf s.
Proof. intros Hst. exact (same_state_trans _ _ _ Hst (same_state_sym _ _ Hst)). Qed.

Lemma wf_peek s a o : wf s → peek s a = Some o → obj_ok a o.
Proof. intros Hwf Hp. pose proof (ss_obj _ _ Hwf a) as Ho. rewrite Hp in Ho. apply Ho. Qed.

Lemma obj_rel_refl a o : obj_ok a o → obj_rel a o o.
Proof. by split. Qed.

(** ** Changing one object *)

Definition upd (a : address) (o : stateObject) (s : StateDB) : StateDB :=
  set_stateObjects (<[a := o]> (sd_stateObjects s)) s.

Lemma peek_upd a o s b : so_deleted o = false →
  peek (upd a o s) b = if decide (b = a) then Some o else peek s b.
Proof.
  intros Hd. unfold peek, upd. simpl. rewrite lookup_insert. destruct (decide (b = a)) as [->|Hne].
  - by rewrite decide_True, Hd.
  - by rewrite decide_False.
Qed.
Lemma dead_upd a o s : so_deleted o = false → dead_ok s → dead_ok (upd a o s).
Proof.
  intros Hd Hs b p Hl Hdel. unfold upd in Hl. simpl in Hl. rewrite lookup_insert_Some in Hl.
  destruct Hl as [[_ <-]|[_ Hl]]; [congruence|by eapply Hs].
Qed.

Lemma same_state_upd a o p s t : same_state s t → obj_rel a o p → same_state (upd a o s) (upd a p t).
Proof.
  intros [Ho Ht Hr Htx Hl Hls Hp Hd1 Hd2] Hop. pose proof (oo_deleted _ _ (or_l _ _ _ Hop)) as Hdo.
  pose proof (oo_deleted _ _ (or_r _ _ _ Hop)) as Hdp. split; try done; [|by apply dead_upd..].
  intros b. rewrite !peek_upd by done. destruct (decide (b = a)) as [->|]; [done|apply Ho].
Qed.
(** Writing back an object that looks like the one there changes nothing. *)
Lemma same_state_upd_l a o p s : wf s → peek s a = Some p → obj_rel a o p → same_state (upd a o s) s.
Proof.
  intros Hwf Hpk Hop. pose proof (oo_deleted _ _ (or_l _ _ _ Hop)) as Hdo.
  destruct Hwf as [Ho Ht Hr Htx Hl Hls Hp Hd1 Hd2]. split; try done; [|by apply dead_upd].
  intros b. rewrite peek_upd by done. destruct (decide (b = a)) as [->|]; [by rewrite Hpk|apply Ho].
Qed.

Lemma upd_upd a o o' s : upd a o (upd a o' s) = upd a o s.
Proof. unfold upd, set_stateObjects. simpl. by rewrite insert_insert_eq. Qed.

(** ** [getStateObject] *)

Lemma getStateObject_run a s : ∃ s', getStateObject a s = Some (peek s a, s') ∧
  (∀ o, peek s a = Some o → (s' = s ∨ s' = upd a o s) ∧ sd_stateObjects s' !! a = Some o) ∧
  (peek s a = None → s' = s).
Proof.
  unfold getStateObject, mbind', mget, peek, setStateObject, mmod, mret'.
  destruct (sd_stateObjects s !! a) as [o|] eqn:Hl.
  - exists s. destruct (so_deleted o); split_and!; try done. intros o' [= <-]. auto.
  - destruct (sd_trie s !! a) as [d|]; simpl; [|by exists s]. eexists. split; [done|]. split; [|done].
    intros o [= <-]. split; [by right|]. simpl. by rewrite lookup_insert_eq.
Qed.

Lemma loads_same s s' a o : wf s → peek s a = Some o → s' = s ∨ s' = upd a o s → same_state s' s.
Proof.
  intros Hwf Hp [->| ->]; [done|]. eapply same_state_upd_l; [done..|]. by apply obj_rel_refl, (wf_peek s).
Qed.

Lemma on_object_run a f s o : peek s a = Some o → so_address (f o) = a →
  on_object a f s = Some ((), upd a (f o) s).
Proof.
  intros Hp Ha. unfold on_object, mbind'. destruct (getStateObject_run a s) as (s' & -> & Hs & _).
  rewrite Hp. destruct (Hs o Hp) as [Hs' _]. simpl. unfold update, setStateObject, mbind', mmod, mret'. rewrite Ha.
  fold (upd a (f o) s'). destruct Hs' as [->| ->]; [done|]. by rewrite upd_upd.
Qed.
Lemma on_object_inv a f s s' : on_object a f s = Some ((), s') → ∃ o, peek s a = Some o.
Proof.
  unfold on_object, mbind'. destruct (getStateObject_run a s) as (s1 & -> & _).
  destruct (peek s a); [eauto|done].
Qed.

(** ** Reverting respects [same_state] *)

Definition entry_ok (e : journalEntry) : Prop :=
  match e with resetObjectChange prev => obj_ok (so_address prev) prev | _ => True end.

Lemma rel_set_data f a o p : obj_rel a o p → (∀ d, ac_Root (f d) = ac_Root d ∧ ac_CodeHash (f d) = ac_CodeHash d) →
  obj_rel a (set_data f o) (set_data f p).
Proof.
  intros [[Ha1 Hf1 Hd1] [Ha2 Hf2 Hd2] Hdata Hcode Hcur Hcom Hs] Hf.
  assert (∀ x, ac_Root (so_data (set_data f x)) = ac_Root (so_data x)) as Hroot by (intros; apply Hf).
  assert (∀ x, ac_CodeHash (so_data (set_data f x)) = ac_CodeHash (so_data x)) as Hch by (intros; apply Hf).
  assert (∀ x k, committed D (set_data f x) k = committed D x k) as Hcom'
    by (intros; unfold committed, getTrie; by rewrite Hroot).
  split; [done|done|..].
  - simpl. by rewrite Hdata.
  - unfold code_of in *. rewrite !Hch. exact Hcode.
  - intros k. specialize (Hcur k). unfold current in *. rewrite !Hcom'. exact Hcur.
  - intros k. by rewrite !Hcom'.
  - done.
Qed.
Lemma rel_setBalance a o p v : obj_rel a o p → obj_rel a (setBalance v o) (setBalance v p).
Proof. intros. by apply rel_set_data. Qed.
Lemma rel_suicided a o p v : obj_rel a o p → obj_rel a (set_suicided v o) (set_suicided v p).
Proof. intros [[] [] ? ? ? ? ?]. by split. Qed.
Lemma rel_setCode a o p h c : obj_rel a o p → obj_rel a (setCode h c o) (setCode h c p).
Proof.
  intros [[Ha1 Hf1 Hd1] [Ha2 Hf2 Hd2] Hdata Hcode Hcur Hcom Hs]. split; [done|done|..].
  - simpl. by rewrite Hdata.
  - done.
  - exact Hcur.
  - exact Hcom.
  - done.
Qed.
Lemma current_setState k v o k' : so_fakeStorage o = None →
  current D (setState k v o) k' = if decide (k = k') then v else current D o k'.
Proof.
  intros Hf. unfold current. simpl. rewrite Hf, lookup_insert. by case_decide.
Qed.
Lemma rel_setState a o p k v : obj_rel a o p → obj_rel a (setState k v o) (setState k v p).
Proof.
  intros [[Ha1 Hf1 Hd1] [Ha2 Hf2 Hd2] Hdata Hcode Hcur Hcom Hs]. split; [done|done|done|done| |done|done].
  intros k'. rewrite !current_setState by done. case_decide; [done|apply Hcur].
Qed.

Lemma on_object_proper a f s t s' : (∀ o p, obj_rel a o p → obj_rel a (f o) (f p)) →
  same_state s t → on_object a f s = Some ((), s') →
  ∃ t', on_object a f t = Some ((), t') ∧ same_state s' t'.
Proof.
  intros Hf Hst Hr. destruct (on_object_inv _ _ _ _ Hr) as [o Ho].
  pose proof (ss_obj _ _ Hst a) as Hop. rewrite Ho in Hop. destruct (peek t a) as [p|] eqn:Hp; [|done].
  simpl in Hop. apply Hf in Hop as Hfop. exists (upd a (f p) t).
  rewrite (on_object_run a f s o) in Hr by (try apply Hfop; done). injection Hr as <-.
  split; [apply on_object_run; [done|apply Hfop]|by apply same_state_upd].
Qed.

Lemma peek_delete s a b d : peek (set_stateObjectsDirty d (set_stateObjects (delete a (sd_stateObjects s)) s)) b =
  if decide (b = a) then newObject a <$> sd_trie s !! a else peek s b.
Proof.
  unfold peek. simpl. rewrite lookup_delete. destruct (decide (b = a)) as [->|Hne].
  - by rewrite decide_True.
  - by rewrite decide_False.
Qed.

Lemma obj_rel_new a d : obj_rel a (newObject a d) (newObject a d).
Proof. by apply obj_rel_refl. Qed.

Lemma revert_entry_proper e s t s' : entry_ok e → same_state s t → revert_entry e s = Some ((), s') →
  ∃ t', revert_entry e t = Some ((), t') ∧ same_state s' t'.
Proof.
  intros He Hst Hr. destruct e; cbn [revert_entry] in *;
    try (by eapply on_object_proper; eauto using rel_set_data, rel_setCode, rel_setState).
  - injection Hr as <-. eexists. split; [done|]. destruct Hst as [Ho Ht Hrf Htx Hl Hls Hp Hd1 Hd2].
    split; try done.
    + intros b. rewrite !peek_delete. destruct (decide (b = account)) as [->|]; [|apply Ho]. rewrite Ht.
      destruct (sd_trie t !! account); [apply obj_rel_new|done].
    + intros b o Hb. simpl in Hb. apply lookup_delete_Some in Hb as [_ Hb]. by apply Hd1.
    + intros b o Hb. simpl in Hb. apply lookup_delete_Some in Hb as [_ Hb]. by apply Hd2.
  - injection Hr as <-. eexists. split; [done|]. simpl. by apply same_state_upd; [|apply obj_rel_refl].
  - unfold mbind' in *. destruct (getStateObject_run account s) as (s1 & Hg & Hs1 & Hn). rewrite Hg in Hr.
    destruct (getStateObject_run account t) as (t1 & -> & Ht1 & Hn').
    pose proof (ss_obj _ _ Hst account) as Hop.
    destruct (peek s account) as [o|], (peek t account) as [p|]; try done; simpl in Hop.
    + destruct (Hs1 o eq_refl) as [Hs1' _], (Ht1 p eq_refl) as [Ht1' _].
      unfold update, setStateObject, mbind', mmod, mret' in *. simpl in *. injection Hr as <-. eexists. split; [done|].
      rewrite (oo_address _ _ (or_l _ _ _ Hop)), (oo_address _ _ (or_r _ _ _ Hop)).
      set (f := λ x, setBalance prevbalance (set_suicided prev x)).
      change (same_state (upd account (f o) s1) (upd account (f p) t1)).
      assert (obj_rel account (f o) (f p)) as Hfop by by apply rel_setBalance, rel_suicided.
      destruct Hs1' as [->| ->], Ht1' as [->| ->]; rewrite ?upd_upd; by apply same_state_upd.
    + rewrite Hn in Hr by done. injection Hr as <-. rewrite Hn' by done. by eexists.
  - injection Hr as <-. eexists. split; [done|]. by destruct Hst.
  - unfold mbind', mget in *. rewrite (ss_logs _ _ Hst txhash) in Hr. case_match; [done|]. injection Hr as <-.
    eexists. split; [done|]. destruct Hst as [Ho Ht Hrf Htx Hl [Hls Hn] Hp Hd1 Hd2]. split; try done; simpl.
    + intros h. case_match.
      * rewrite !lookup_delete. case_decide; [done|apply Hl].
      * rewrite !lookup_insert. case_decide; [done|apply Hl].
    + rewrite <-Hls. split; [done|]. apply u64_range.
  - injection Hr as <-. eexists. split; [done|]. destruct Hst as [Ho Ht Hrf Htx Hl Hls Hp Hd1 Hd2].
    split; try done; simpl; by rewrite ?Hl, ?Hls, ?Hp.
  - injection Hr as <-. by eexists.
Qed.

Lemma same_state_journal j j' s t : same_state s t → same_state (set_journal j s) (set_journal j' t).
Proof. by intros []. Qed.
Lemma same_state_journal_l j s t : same_state s t → same_state (set_journal j s) t.
Proof. by intros []. Qed.

Lemma revert_entries_proper l s t s' : Forall entry_ok l → same_state s t → revert_entries l s = Some ((), s') →
  ∃ t', revert_entries l t = Some ((), t') ∧ same_state s' t'.
Proof.
  intros Hl. revert s t. induction Hl as [|e l He Hl IH]; intros s t Hst; cbn [revert_entries].
  { intros [= <-]. by exists t. }
  intros ([] & s1 & Hr & Hv)%mbind_inv. destruct (revert_entry_proper e s t s1 He Hst Hr) as (t1 & Ht1 & Hst1).
  unfold mbind' in *. rewrite Ht1. simpl in *. eapply IH; [|exact Hv]. by apply same_state_journal.
Qed.

Lemma revert_entries_app l1 l2 s s1 : revert_entries l1 s = Some ((), s1) →
  revert_entries (l1 ++ l2) s = revert_entries l2 s1.
Proof.
  revert s. induction l1 as [|e l1 IH]; intros s; cbn [revert_entries app].
  { by intros [= <-]. }
  intros ([] & s2 & Hr & Hv)%mbind_inv. unfold mbind' in *. rewrite Hr. simpl in *. by apply IH.
Qed.
Lemma revert_entries_app_inv l1 l2 s s' : revert_entries (l1 ++ l2) s = Some ((), s') →
  ∃ s1, revert_entries l1 s = Some ((), s1) ∧ revert_entries l2 s1 = Some ((), s').
Proof.
  revert s. induction l1 as [|e l1 IH]; intros s; cbn [revert_entries app]; [by eauto|].
  intros ([] & s2 & Hr & Hv)%mbind_inv. unfold mbind' at 1 in Hv. simpl in Hv.
  destruct (IH _ Hv) as (s1 & H1 & H2). exists s1. split; [|done]. unfold mbind'. rewrite Hr. simpl. done.
Qed.

(** The journal and the revisions stay. *)
Definition frame (s s' : StateDB) : Prop :=
  j_entries (sd_journal s') = j_entries (sd_journal s) ∧ sd_validRevisions s' = sd_validRevisions s ∧
  sd_nextRevisionId s' = sd_nextRevisionId s.
Lemma frame_refl s : frame s s.
Proof. done. Qed.
Lemma frame_trans s1 s2 s3 : frame s1 s2 → frame s2 s3 → frame s1 s3.
Proof. intros (?&?&?) (?&?&?). split_and!; congruence. Qed.
Lemma getStateObject_frame a s r s' : getStateObject a s = Some (r, s') → frame s s'.
Proof.
  destruct (getStateObject_run a s) as (s1 & -> & Hs & Hn). intros [= <- <-].
  destruct (peek s a) as [o|]; [|by rewrite Hn]. by destruct (Hs o eq_refl) as [[->| ->] _].
Qed.
Lemma on_object_frame a f s s' : on_object a f s = Some ((), s') → frame s s'.
Proof.
  intros (obj & s1 & Hg & (o & s2 & [_ ->]%mderef_inv & Hv)%mbind_inv)%mbind_inv.
  eapply frame_trans; [by eapply getStateObject_frame|]. by injection Hv as <-.
Qed.
Lemma revert_entry_frame e s s' : revert_entry e s = Some ((), s') → frame s s'.
Proof.
  destruct e; cbn [revert_entry]; try apply on_object_frame; try by intros [= <-].
  - intros (obj & s1 & Hg & Hv)%mbind_inv. eapply frame_trans; [by eapply getStateObject_frame|].
    destruct obj; by injection Hv as <-.
  - intros (x & s1 & [= <- <-] & Hv)%mbind_inv. case_match; [done|]. by injection Hv as <-.
Qed.
Lemma revert_entries_frame l s s' : revert_entries l s = Some ((), s') → frame s s'.
Proof.
  revert s. induction l as [|e l IH]; intros s; cbn [revert_entries]; [by intros [= <-]|].
  intros ([] & s1 & Hr & ([] & s2 & [= <-] & Hv)%mbind_inv)%mbind_inv.
  eapply frame_trans; [by eapply revert_entry_frame|]. apply IH in Hv as (He & ? & ?).
  split_and!; [|done..]. rewrite He. simpl. unfold j_undirty. by case_match.
Qed.

(** ** Undoable steps *)

Record step (s s' : StateDB) (es : list journalEntry) : Prop := {
  st_wf : wf s';
  st_entries : j_entries (sd_journal s') = j_entries (sd_journal s) ++ es;
  st_revisions : sd_validRevisions s' = sd_validRevisions s ∧ sd_nextRevisionId s' = sd_nextRevisionId s;
  st_ok : Forall entry_ok es;
  st_undo : ∃ s'', revert_entries (reverse es) s' = Some ((), s'') ∧ same_state s'' s
}.
Definition ok (s s' : StateDB) : Prop := ∃ es, step s s' es.

Lemma ok_same s s' : same_state s' s → frame s s' → ok s s'.
Proof.
  intros Hss (He & ? & ?). exists []. split; [by eapply same_state_wf_l|by rewrite app_nil_r|done|done|].
  by exists s'.
Qed.
Lemma ok_refl s : wf s → ok s s.
Proof. intros. by apply ok_same. Qed.
Lemma ok_trans s1 s2 s3 : ok s1 s2 → ok s2 s3 → ok s1 s3.
Proof.
  intros [es1 [Hw1 He1 [Hr1 Hn1] Hk1 (u1 & Hu1 & Hs1)]] [es2 [Hw2 He2 [Hr2 Hn2] Hk2 (u2 & Hu2 & Hs2)]].
  exists (es1 ++ es2). split.
  - done.
  - by rewrite He2, He1, app_assoc.
  - split; congruence.
  - by apply Forall_app.
  - rewrite reverse_app, (revert_entries_app _ _ _ _ Hu2).
    destruct (revert_entries_proper (reverse es1) s2 u2 u1) as (t & Ht & Htu).
    + by apply Forall_reverse.
    + by symmetry.
    + done.
    + exists t. split; [done|]. etransitivity; [by symmetry|done].
Qed.
Lemma ok_entry e s s1 s2 : sd_journal s1 = j_append e (sd_journal s) →
  sd_validRevisions s1 = sd_validRevisions s → sd_nextRevisionId s1 = sd_nextRevisionId s →
  wf s1 → entry_ok e → revert_entry e s1 = Some ((), s2) → same_state s2 s → ok s s1.
Proof.
  intros Hj Hr Hn Hw He Hrev Hss. exists [e]. split; [done|by rewrite Hj|done|by repeat constructor|].
  simpl. unfold mbind'. rewrite Hrev. simpl. eexists. split; [done|]. by apply same_state_journal_l.
Qed.

(** ** The operations are undoable *)

Definition live (s : StateDB) (o : stateObject) : Prop := peek s (so_address o) = Some o.
Definition steps {A} (m : M StateDB A) : Prop := ∀ s a s', wf s → m s = Some (a, s') → ok s s'.
(** A method of an object. *)
Definition obj_steps {A} (m : stateObject → M StateDB A) : Prop :=
  ∀ o s a s', wf s → live s o → m o s = Some (a, s') → ok s s'.
Definition obj_steps' (m : stateObject → M StateDB stateObject) : Prop :=
  ∀ o s o' s', wf s → live s o → m o s = Some (o', s') → ok s s' ∧ live s' o'.

Lemma ok_wf s s' : ok s s' → wf s'.
Proof. intros [es Hs]. apply Hs. Qed.
Lemma live_ok s o : wf s → live s o → obj_ok (so_address o) o.
Proof. intros Hwf Hl. exact (wf_peek _ _ _ Hwf Hl). Qed.

Lemma steps_ret {A} (a : A) : steps (mret' a).
Proof. intros s x s' Hwf [= <- <-]. by apply ok_refl. Qed.
Lemma steps_bind {A B} (m : M StateDB A) (f : A → M StateDB B) : steps m → (∀ a, steps (f a)) → steps (mbind' m f).
Proof.
  intros Hm Hf s b s' Hwf (a & s1 & H1 & H2)%mbind_inv. pose proof (Hm _ _ _ Hwf H1) as Hok.
  eapply ok_trans; [exact Hok|]. eapply Hf; [by eapply ok_wf|done].
Qed.

Lemma ok_change s o o1 e g : wf s → live s o → obj_ok (so_address o) o1 → entry_ok e →
  revert_entry e = on_object (so_address o) g → obj_rel (so_address o) (g o1) o →
  ok s (upd (so_address o) o1 (set_journal (j_append e (sd_journal s)) s)).
Proof.
  intros Hwf Hl Hok He Hrev Hrel. set (a := so_address o) in *. set (s0 := set_journal _ s).
  assert (wf s0) as Hwf0 by by apply same_state_journal.
  assert (peek (upd a o1 s0) a = Some o1) as Hpk by (rewrite peek_upd, decide_True by (try apply Hok; done); done).
  eapply (ok_entry e _ _ (upd a (g o1) s0)); try done.
  - by apply same_state_upd; [|apply obj_rel_refl].
  - rewrite Hrev, (on_object_run a g _ o1 Hpk) by apply Hrel. by rewrite upd_upd.
  - etransitivity; [by eapply (same_state_upd_l a (g o1) o s0)|]. by apply same_state_journal_l.
Qed.

Lemma live_upd a o1 s : obj_ok a o1 → live (upd a o1 s) o1.
Proof. intros [Ha _ Hd]. unfold live. rewrite Ha, peek_upd, decide_True by done. done. Qed.

Lemma getStateObject_ok a s r s' : wf s → getStateObject a s = Some (r, s') →
  ok s s' ∧ r = peek s a ∧ (∀ o, r = Some o → live s' o ∧ so_address o = a).
Proof.
  intros Hwf Hg. pose proof (getStateObject_frame _ _ _ _ Hg) as Hfr.
  destruct (getStateObject_run a s) as (s1 & Hg' & Hs & Hn). rewrite Hg' in Hg. injection Hg as <- <-.
  destruct (peek s a) as [o|] eqn:Hp.
  - destruct (Hs o eq_refl) as [Hs1 Hl]. split; [by apply ok_same; [by eapply loads_same|]|]. split; [done|].
    intros o' [= <-]. pose proof (wf_peek _ _ _ Hwf Hp) as [Ha _ Hd]. split; [|done].
    unfold live, peek. by rewrite Ha, Hl, Hd.
  - rewrite Hn in * by done. split; [by apply ok_refl|]. done.
Qed.

(** A new object at an address, journalled with the object it replaces. *)
Definition create_entry (a : address) (prev : option stateObject) : journalEntry :=
  match prev with None => createObjectChange a | Some prev => resetObjectChange prev end.

Lemma ok_create a new s prev s1 : wf s → getStateObject a s = Some (prev, s1) → obj_ok a new →
  ok s (upd a new (set_journal (j_append (create_entry a prev) (sd_journal s1)) s1)).
Proof.
  intros Hwf Hg Hnew. destruct (getStateObject_ok _ _ _ _ Hwf Hg) as (Hok & -> & Hlive).
  pose proof (ok_wf _ _ Hok) as Hwf1. set (e := create_entry a _).
  set (s0 := set_journal _ s1). assert (wf s0) as Hwf0 by by apply same_state_journal.
  assert (wf (upd a new s0)) as Hwf2 by by apply same_state_upd; [|apply obj_rel_refl].
  eapply ok_trans; [exact Hok|]. destruct (peek s a) as [p|] eqn:Hp.
  - destruct (Hlive p eq_refl) as [Hl Ha]. pose proof (wf_peek _ _ _ Hwf Hp) as Hprev.
    eapply (ok_entry e _ _ (upd a p s0)); try done.
    + simpl. by rewrite Ha.
    + simpl. unfold setStateObject, mmod. rewrite Ha. by rewrite <-(upd_upd a p new s0).
    + etransitivity; [eapply (same_state_upd_l a p p s0); [done| |by apply obj_rel_refl]|].
      * unfold live in Hl. by rewrite Ha in Hl.
      * by apply same_state_journal_l.
  - assert (s1 = s) as ->.
    { destruct (getStateObject_run a s) as (s2 & Hg' & _ & Hn). rewrite Hg' in Hg. injection Hg as _ <-. by apply Hn. }
    eapply ok_entry; [done..|]. destruct Hwf0 as [Ho Ht Hrf Htx Hll Hls Hpp Hd1 Hd2]. split; try done.
    + intros b. rewrite peek_delete. destruct (decide (b = a)) as [->|Hne].
      * rewrite Hp. simpl. assert (sd_trie s !! a = None) as ->; [|done].
        unfold peek in Hp. destruct (sd_stateObjects s !! a) as [o|] eqn:Hla.
        -- destruct (so_deleted o) eqn:Hdo; [|done]. by eapply Hd1.
        -- by destruct (sd_trie s !! a).
      * rewrite peek_upd by apply Hnew. rewrite decide_False by done. apply Ho.
    + intros b o Hb. simpl in Hb. apply lookup_delete_Some in Hb as [Hne Hb].
      rewrite lookup_insert_ne in Hb by done. by apply Hd1.
Qed.

Lemma createObject_inv a s r s' : createObject a s = Some (r, s') →
  ∃ prev s1, getStateObject a s = Some (prev, s1) ∧ r = (setNonce 0 (newObject a emptyAccount), prev) ∧
    s' = upd a r.1 (set_journal (j_append (create_entry a prev) (sd_journal s1)) s1).
Proof.
  intros (prev & s1 & Hg & Hv)%mbind_inv. exists prev, s1. split; [done|].
  unfold append, setStateObject, mbind', mmod, mret' in Hv. simpl in Hv. by injection Hv as <- <-.
Qed.
Lemma createObject_ok a s r s' : wf s → createObject a s = Some (r, s') → ok s s' ∧ live s' r.1.
Proof.
  intros Hwf (prev & s1 & Hg & -> & ->)%createObject_inv. split; [by apply ok_create|by apply live_upd].
Qed.

Lemma CreateAccount_steps a : steps (CreateAccount a).
Proof.
  intros s x s' Hwf (r & s2 & (prev & s1 & Hg & -> & ->)%createObject_inv & Hv)%mbind_inv. simpl in Hv.
  destruct prev as [p|].
  - unfold update, setStateObject, mbind', mmod, mret' in Hv. injection Hv as _ <-.
    change (set_stateObjects _ _) with
      (upd a (setBalance (ac_Balance (so_data p)) (setNonce 0 (newObject a emptyAccount)))
         (upd a (setNonce 0 (newObject a emptyAccount))
            (set_journal (j_append (create_entry a (Some p)) (sd_journal s1)) s1))).
    rewrite upd_upd. by apply ok_create.
  - injection Hv as _ <-. by apply (ok_create a _ s None).
Qed.

Lemma GetOrNew_ok a s o s' : wf s → GetOrNewStateObject a s = Some (o, s') → ok s s' ∧ live s' o.
Proof.
  intros Hwf (obj & s1 & Hg & Hv)%mbind_inv.
  destruct (getStateObject_ok _ _ _ _ Hwf Hg) as (Hok & _ & Hlive). pose proof (ok_wf _ _ Hok) as Hwf1.
  assert (∀ s2, (let! r := createObject a in mret' r.1) s1 = Some (o, s2) → ok s s2 ∧ live s2 o) as Hcreate.
  { intros s2 (r & s3 & Hc & [= <- <-])%mbind_inv. destruct (createObject_ok _ _ _ _ Hwf1 Hc) as (Hok2 & ?).
    split; [by eapply ok_trans|done]. }
  destruct obj as [p|]; [|by apply Hcreate]. destruct (so_deleted p); [by apply Hcreate|].
  injection Hv as <- <-. split; [done|by apply Hlive].
Qed.
Lemma steps_GetOrNew {A} a (m : stateObject → M StateDB A) : obj_steps m →
  steps (let! o := GetOrNewStateObject a in m o).
Proof.
  intros Hm s x s' Hwf (o & s1 & Hg & Hv)%mbind_inv. destruct (GetOrNew_ok _ _ _ _ Hwf Hg) as [Hok Hl].
  eapply ok_trans; [exact Hok|]. eapply Hm; [by eapply ok_wf|done..].
Qed.

(** Append an entry, write the object back. *)
Lemma change_run {A} e o1 (r : A) s x s' :
  (do! append e in do! update o1 in mret' r) s = Some (x, s') →
  x = r ∧ s' = upd (so_address o1) o1 (set_journal (j_append e (sd_journal s)) s).
Proof. unfold append, update, setStateObject, mbind', mmod, mret'. by intros [= <- <-]. Qed.

Lemma rel_data_back f o d : obj_ok (so_address o) o →
  (∀ x, ac_Root (f x) = ac_Root x ∧ ac_CodeHash (f x) = ac_CodeHash x) →
  (∀ x, ac_Root (d x) = ac_Root x ∧ ac_CodeHash (d x) = ac_CodeHash x) →
  d (f (so_data o)) = so_data o → obj_rel (so_address o) (set_data d (set_data f o)) o.
Proof.
  intros [Ha Hfk Hd] Hf Hdd Heq. split; try done.
  - simpl. unfold code_of. simpl. by rewrite Heq.
  - intros k. unfold current, committed, getTrie. simpl. by rewrite Heq.
  - intros k. unfold committed, getTrie. simpl. by rewrite Heq.
Qed.

(** One journalled change of the data of an account. *)
Lemma data_change {A} e f g (r : A) o s x s' : wf s → live s o →
  (∀ y, ac_Root (f y) = ac_Root y ∧ ac_CodeHash (f y) = ac_CodeHash y) →
  (∀ y, ac_Root (g y) = ac_Root y ∧ ac_CodeHash (g y) = ac_CodeHash y) →
  g (f (so_data o)) = so_data o → entry_ok e → revert_entry e = on_object (so_address o) (set_data g) →
  (do! append e in do! update (set_data f o) in mret' r) s = Some (x, s') →
  x = r ∧ ok s s' ∧ live s' (set_data f o).
Proof.
  intros Hwf Hl Hf Hg Hgf He Hrev [-> ->]%change_run. pose proof (live_ok _ _ Hwf Hl) as Hok.
  assert (obj_ok (so_address o) (set_data f o)) as Hok1 by (destruct Hok; by split).
  split; [done|]. split; [|by apply live_upd].
  apply (ok_change s o (set_data f o) e (set_data g)); [done..|]. by apply rel_data_back.
Qed.

Lemma account_eta d : MkAccount (ac_Nonce d) (ac_Balance d) (ac_SmiloPay d) (ac_BlockNumber d) (ac_Root d) (ac_CodeHash d) = d.
Proof. by destruct d. Qed.

Lemma UpdateSmiloPay_steps bn : obj_steps' (so_UpdateSmiloPay bn).
Proof.
  intros o s o' s' Hwf Hl (pay & s1 & [_ ->]%mderef_inv & Hv)%mbind_inv.
  eapply (data_change _ (λ d, _) (λ d, MkAccount (ac_Nonce d) (ac_Balance d) (ac_SmiloPay (so_data o))
            (ac_BlockNumber (so_data o)) (ac_Root d) (ac_CodeHash d)) _ o) in Hv as (-> & ? & ?); try done.
  simpl. apply account_eta.
Qed.
Lemma SetSmiloPay_steps v : obj_steps' (so_SetSmiloPay v).
Proof.
  intros o s o' s' Hwf Hl Hv.
  eapply (data_change _ (λ d, _) (λ d, MkAccount (ac_Nonce d) (ac_Balance d) (ac_SmiloPay (so_data o))
            (ac_BlockNumber d) (ac_Root d) (ac_CodeHash d)) _ o) in Hv as (-> & ? & ?); try done.
  simpl. apply account_eta.
Qed.
Lemma SetBalance_steps v bn : obj_steps' (so_SetBalance v bn).
Proof.
  intros o s o' s' Hwf Hl (o1 & s1 & Hu & Hv)%mbind_inv.
  destruct (UpdateSmiloPay_steps bn o s o1 s1 Hwf Hl Hu) as [Hok Hl1]. pose proof (ok_wf _ _ Hok) as Hwf1.
  eapply (data_change _ (λ d, _) (λ d, MkAccount (ac_Nonce d) (ac_Balance (so_data o1)) (ac_SmiloPay d)
            (ac_BlockNumber d) (ac_Root d) (ac_CodeHash d)) _ o1) in Hv as (-> & ? & ?); try done.
  - split; [by eapply ok_trans|done].
  - simpl. apply account_eta.
Qed.
Lemma obj_steps_forget m : obj_steps' m → obj_steps (λ o, do! m o in mret' ()).
Proof. intros Hm o s x s' Hwf Hl (o1 & s1 & Hv & [= <- <-])%mbind_inv. by eapply Hm. Qed.
Lemma obj_steps_bind {A} m (f : stateObject → M StateDB A) : obj_steps' m → obj_steps f →
  obj_steps (λ o, let! o := m o in f o).
Proof.
  intros Hm Hf o s x s' Hwf Hl (o1 & s1 & H1 & H2)%mbind_inv. destruct (Hm _ _ _ _ Hwf Hl H1) as [Hok Hl1].
  eapply ok_trans; [exact Hok|]. eapply Hf; [by eapply ok_wf|done..].
Qed.

Lemma touch_steps : obj_steps touch.
Proof.
  intros o s x s' Hwf Hl Hv. unfold touch, append, mbind', mmod, mret' in Hv. simpl in Hv.
  assert (∃ j, s' = set_journal j s ∧ j_entries j = j_entries (sd_journal s) ++ [touchChange (so_address o)]) as (j & -> & Hj).
  { case_match; injection Hv as <- <-; eexists; by split. }
  exists [touchChange (so_address o)]. split; [by apply same_state_journal|done|done|by repeat constructor|].
  simpl. eexists. split; [done|]. by do 2 apply same_state_journal_l.
Qed.

Lemma SetNonce_steps n : obj_steps (so_SetNonce n).
Proof.
  intros o s x s' Hwf Hl Hv.
  eapply (data_change _ (λ d, _) (λ d, MkAccount (ac_Nonce (so_data o)) (ac_Balance d) (ac_SmiloPay d)
            (ac_BlockNumber d) (ac_Root d) (ac_CodeHash d)) _ o) in Hv as (_ & ? & _); try done.
  simpl. apply account_eta.
Qed.

Lemma obj_steps_ret {A} (a : A) : obj_steps (λ _, mret' a).
Proof. intros o s x s' Hwf _ [= <- <-]. by apply ok_refl. Qed.
Lemma obj_steps_if {A} (b : stateObject → bool) (m1 m2 : stateObject → M StateDB A) :
  obj_steps m1 → obj_steps m2 → obj_steps (λ o, if b o then m1 o else m2 o).
Proof. intros Hm1 Hm2 o s x s' Hwf Hl. destruct (b o); [by apply Hm1|by apply Hm2]. Qed.
(** A method whose argument is computed from the object. *)
Lemma obj_steps_arg {B} (m : B → stateObject → M StateDB stateObject) (f : stateObject → B) :
  (∀ y, obj_steps' (m y)) → obj_steps' (λ o, m (f o) o).
Proof. intros Hm o s x s' Hwf Hl. by apply Hm. Qed.

Lemma AddBalance_steps v bn : obj_steps (so_AddBalance v bn).
Proof.
  apply (obj_steps_if (λ _, Z.sgn v =? 0) (λ o, if empty o then touch o else mret' ())).
  - apply obj_steps_if; [apply touch_steps|apply obj_steps_ret].
  - apply obj_steps_bind; [apply UpdateSmiloPay_steps|].
    apply obj_steps_forget, (obj_steps_arg (λ y, so_SetBalance y bn)). intros. apply SetBalance_steps.
Qed.
Lemma AddSmiloPay_steps v : obj_steps (so_AddSmiloPay v).
Proof.
  apply (obj_steps_if (λ _, Z.sgn v =? 0) (λ o, if empty o then touch o else mret' ())).
  - apply obj_steps_if; [apply touch_steps|apply obj_steps_ret].
  - apply obj_steps_forget, (obj_steps_arg so_SetSmiloPay). intros. apply SetSmiloPay_steps.
Qed.
Lemma SubBalance_steps v bn : obj_steps (so_SubBalance v bn).
Proof.
  apply (obj_steps_if (λ _, Z.sgn v =? 0) (λ _, mret' ())); [apply obj_steps_ret|].
  apply obj_steps_forget, (obj_steps_arg (λ y, so_SetBalance y bn)). intros. apply SetBalance_steps.
Qed.
Lemma SubSmiloPay_steps v bn : obj_steps (so_SubSmiloPay v bn).
Proof.
  apply (obj_steps_if (λ _, Z.sgn v =? 0) (λ _, mret' ())); [apply obj_steps_ret|].
  apply obj_steps_bind; [apply UpdateSmiloPay_steps|].
  apply obj_steps_forget, (obj_steps_arg so_SetSmiloPay). intros. apply SetSmiloPay_steps.
Qed.

(** Reads leave an object that looks the same. *)
Lemma Code_rel a o c o' : obj_ok a o → Code D o = (c, o') → c = code_of D o ∧ obj_rel a o' o.
Proof.
  intros [Ha Hf Hd]. unfold Code, code_of. destruct (so_code o) as [c0|] eqn:Hc.
  { intros [= <- <-]. split; [done|]. by apply obj_rel_refl. }
  destruct (Z.eqb_spec (ac_CodeHash (so_data o)) emptyCodeHash) as [He|He].
  { intros [= <- <-]. split; [done|]. by apply obj_rel_refl. }
  intros [= <- <-]. split; [done|]. split; try done. unfold code_of. simpl. rewrite Hc.
  destruct (Z.eqb_spec (ac_CodeHash (so_data o)) emptyCodeHash); [done|]. by destruct (db_ContractCode D _).
Qed.
Lemma GetCommittedState_rel a o k v o' : obj_ok a o → GetCommittedState D o k = (v, o') →
  v = committed D o k ∧ obj_rel a o' o.
Proof.
  intros [Ha Hf Hd]. unfold GetCommittedState. rewrite Hf.
  destruct (so_originStorage o !! k) as [v0|] eqn:Hk.
  { intros [= <- <-]. split; [unfold committed; by rewrite Hf, Hk|]. by apply obj_rel_refl. }
  intros [= <- <-].
  assert (∀ k', committed D (set_storage (<[k := default 0 (getTrie D o !! k)]> (so_originStorage o)) (so_dirtyStorage o)
            (set_so_trie (Some (getTrie D o)) o)) k' = committed D o k') as Hcom.
  { intros k'. unfold committed. simpl. rewrite Hf, lookup_insert. case_decide as Hkk; [by rewrite <-Hkk, Hk|done]. }
  split; [unfold committed; by rewrite Hf, Hk|]. split; try done. intros k'. unfold current. rewrite Hcom. done.
Qed.
Lemma GetState_rel a o k v o' : obj_ok a o → GetState D o k = (v, o') → v = current D o k ∧ obj_rel a o' o.
Proof.
  intros Hok. unfold GetState, current. rewrite (oo_fake _ _ Hok).
  destruct (so_dirtyStorage o !! k) as [v0|] eqn:Hk; [|by apply GetCommittedState_rel].
  intros [= <- <-]. split; [done|]. by apply obj_rel_refl.
Qed.

(** Writing back an object that looks the same. *)
Lemma ok_update_same s o o1 : wf s → live s o → obj_rel (so_address o) o1 o → ok s (upd (so_address o) o1 s).
Proof. intros Hwf Hl Hr. apply ok_same; [|done]. by eapply same_state_upd_l. Qed.

Lemma SetCode_steps h c : obj_steps (so_SetCode D h c).
Proof.
  intros o s x s' Hwf Hl. unfold so_SetCode. destruct (Code D o) as [prev o1] eqn:Hc.
  pose proof (live_ok _ _ Hwf Hl) as Hok. destruct (Code_rel _ _ _ _ Hok Hc) as [-> Hrel].
  intros [_ ->]%change_run. simpl. rewrite (oo_address _ _ (or_l _ _ _ Hrel)), (or_data _ _ _ Hrel).
  apply (ok_change s o _ _ (setCode (ac_CodeHash (so_data o)) (code_of D o))); try done.
  - destruct Hrel as [[] _]. by split.
  - destruct Hrel as [[Ha1 Hf1 Hd1] _ Hdata Hcode Hcur Hcom Hs]. split; try done.
    + simpl. rewrite Hdata. apply account_eta.
    + unfold code_of. simpl. destruct (so_code o) as [c0|] eqn:Hco; [done|].
      destruct (Z.eqb_spec (ac_CodeHash (so_data o)) emptyCodeHash); [done|]. by destruct (db_ContractCode D _).
Qed.

Lemma SetState_steps k v : obj_steps (so_SetState D k v).
Proof.
  intros o s x s' Hwf Hl. pose proof (live_ok _ _ Hwf Hl) as Hok. unfold so_SetState. rewrite (oo_fake _ _ Hok).
  destruct (GetState D o k) as [prev o1] eqn:Hg. destruct (GetState_rel _ _ _ _ _ Hok Hg) as [-> Hrel].
  intros (o2 & s1 & Hu & Hv)%mbind_inv. unfold update, setStateObject, mbind', mmod, mret' in Hu.
  injection Hu as <- <-. rewrite (oo_address _ _ (or_l _ _ _ Hrel)) in Hv.
  change (set_stateObjects _ s) with (upd (so_address o) o1 s) in Hv.
  pose proof (ok_update_same s o o1 Hwf Hl Hrel) as Hok1. pose proof (ok_wf _ _ Hok1) as Hwf1.
  destruct (Z.eqb_spec (current D o k) v) as [_|Hne]; [injection Hv as _ <-; done|].
  eapply ok_trans; [exact Hok1|]. apply change_run in Hv as [_ ->]. cbn [so_address setState set_storage].
  assert (so_address o1 = so_address o) as Ha by apply (or_l _ _ _ Hrel).
  assert (live (upd (so_address o) o1 s) o1) as Hl1 by (apply live_upd, Hrel).
  apply (ok_change _ o1 _ _ (setState k (current D o k))); [done..| | | |].
  - destruct Hrel as [[] _]. by split.
  - done.
  - by rewrite Ha.
  - rewrite <-(or_current _ _ _ Hrel k), Ha. pose proof (or_l _ _ _ Hrel) as Hok'. pose proof Hok' as [? Hf ?].
    split; try done. intros k'. rewrite !current_setState by done. by repeat case_decide; subst.
Qed.

Lemma Suicide_steps a : steps (Suicide a).
Proof.
  intros s x s' Hwf (obj & s1 & Hg & Hv)%mbind_inv.
  destruct (getStateObject_ok _ _ _ _ Hwf Hg) as (Hok & _ & Hlive). pose proof (ok_wf _ _ Hok) as Hwf1.
  destruct obj as [o|]; [|injection Hv as _ <-; done]. destruct (Hlive o eq_refl) as [Hl Ha].
  eapply ok_trans; [exact Hok|]. apply change_run in Hv as [_ ->]. cbn [so_address setBalance set_data set_suicided].
  rewrite Ha. set (s0 := set_journal _ s1). set (o1 := setBalance 0 _).
  pose proof (live_ok _ _ Hwf1 Hl) as [_ Hf Hd].
  assert (wf s0) as Hwf0 by by apply same_state_journal.
  assert (obj_ok a o1) as Hok1 by by split. set (o2 := setBalance (ac_Balance (so_data o)) (set_suicided (so_suicided o) o1)).
  eapply (ok_entry _ _ _ (upd a o2 s0)); try done.
  - by apply same_state_upd; [|apply obj_rel_refl].
  - cbn [revert_entry]. unfold mbind' at 1. unfold getStateObject, mbind' at 1, mget. simpl.
    rewrite lookup_insert_eq. unfold mret'. simpl. rewrite Hd. unfold update, setStateObject, mbind', mmod, mret'. simpl.
    rewrite Ha. do 2 f_equal. apply (upd_upd a o2 o1 s0).
  - etransitivity; [eapply (same_state_upd_l a o2 o s0)|by apply same_state_journal_l].
    + done.
    + unfold live in Hl. by rewrite Ha in Hl.
    + split; try done. simpl. apply account_eta.
Qed.

Lemma AddRefund_steps g : steps (AddRefund g).
Proof.
  intros s x s' Hwf (s1 & s2 & [= <- <-] & Hv)%mbind_inv. injection Hv as _ <-.
  eapply ok_entry; [done..| | |done|]; [by destruct Hwf|done|]. by destruct Hwf.
Qed.
Lemma SubRefund_steps g : steps (SubRefund g).
Proof.
  intros s x s' Hwf (s1 & s2 & [= <- <-] & ([] & s3 & [= <-] & Hv)%mbind_inv)%mbind_inv. case_match; [done|].
  injection Hv as _ <-. eapply ok_entry; [done..| | |done|]; [by destruct Hwf|done|]. by destruct Hwf.
Qed.
Lemma AddPreimage_steps h b : steps (AddPreimage h b).
Proof.
  intros s x s' Hwf (s1 & s2 & [= <- <-] & Hv)%mbind_inv. destruct (sd_preimages s !! h) eqn:Hp.
  { injection Hv as _ <-. by apply ok_refl. }
  injection Hv as _ <-. eapply ok_entry; [done..| | |done|]; [by destruct Hwf|done|].
  destruct Hwf as [Ho Ht Hr Htx Hl Hls Hpp Hd1 Hd2]. split; try done. simpl. by apply delete_insert_id.
Qed.
Lemma u64_succ_pred n : 0 <= n < two64 → u64 (u64 (n + 1) - 1) = n.
Proof.
  intros. unfold u64. rewrite Zminus_mod_idemp_l. replace (n + 1 - 1) with n by lia. by apply Z.mod_small.
Qed.
Lemma AddLog_steps l : steps (AddLog l).
Proof.
  intros s x s' Hwf (s1 & s2 & [= <- <-] & ([] & s3 & [= <-] & Hv)%mbind_inv)%mbind_inv. injection Hv as _ <-.
  set (l1 := MkLog _ _ _ _ _ _ _ _ _). simpl.
  destruct Hwf as [Ho Ht Hr Htx Hl [_ Hn] Hpp Hd1 Hd2]. set (old := default [] (sd_logs s !! sd_thash s)).
  eapply ok_entry; [done|done|done| |done| |].
  - split; try done. simpl. split; [done|apply u64_range].
  - cbn [revert_entry]. unfold mbind', mget. simpl. rewrite lookup_insert_eq. simpl.
    rewrite (proj2 (Nat.eqb_neq _ _)) by (rewrite length_app; simpl; lia). done.
  - split; try done; simpl.
    + intros h. rewrite length_app. simpl. destruct (Nat.eqb_spec (length old + 1) 1) as [Hlen|Hlen].
      * rewrite delete_insert_eq, lookup_delete. case_decide as Hh; [|done]. rewrite <-Hh. fold old.
        destruct old; [done|simpl in Hlen; lia].
      * rewrite insert_insert_eq, lookup_insert. case_decide as Hh; [|done]. rewrite <-Hh. fold old. simpl.
        by rewrite removelast_last.
    + rewrite u64_succ_pred by done. done.
Qed.

(** ** Whole runs *)

Inductive op : Type :=
  | OAddBalance (a : address) (v bn : Z) | OSubBalance (a : address) (v bn : Z) | OSetBalance (a : address) (v bn : Z)
  | OAddSmiloPay (a : address) (v : Z) | OSubSmiloPay (a : address) (v bn : Z) | OSetSmiloPay (a : address) (v : Z)
  | OUpdateSmiloPay (a : address) (bn : Z)
  | OSetNonce (a : address) (n : Z) | OSetCode (a : address) (c : bytes) | OSetState (a : address) (k v : hash)
  | OSuicide (a : address) | OCreateAccount (a : address)
  | OAddLog (l : Log) | OAddPreimage (h : hash) (b : bytes) | OAddRefund (g : Z) | OSubRefund (g : Z)
  | OGetState (a : address) (k : hash) | OGetCode (a : address) | OGetBalance (a : address)
  | OSnapshot | ORevertToSnapshot (id : Z).

Definition forget {A} (m : M StateDB A) : M StateDB () := do! m in mret' ().

Definition exec (c : op) : M StateDB () :=
  match c with
  | OAddBalance a v bn => AddBalance a v bn | OSubBalance a v bn => SubBalance a v bn
  | OSetBalance a v bn => SetBalance a v bn | OAddSmiloPay a v => AddSmiloPay a v
  | OSubSmiloPay a v bn => SubSmiloPay a v bn | OSetSmiloPay a v => SetSmiloPay a v
  | OUpdateSmiloPay a bn => UpdateSmiloPay a bn
  | OSetNonce a n => SetNonce a n | OSetCode a c => SetCode D a c | OSetState a k v => SetState D a k v
  | OSuicide a => forget (Suicide a) | OCreateAccount a => CreateAccount a
  | OAddLog l => AddLog l | OAddPreimage h b => AddPreimage h b
  | OAddRefund g => AddRefund g | OSubRefund g => SubRefund g
  | OGetState a k => forget (db_GetState D a k) | OGetCode a => forget (GetCode D a)
  | OGetBalance a => forget (GetBalance a)
  | OSnapshot => forget StateDB_Snapshot | ORevertToSnapshot id => RevertToSnapshot id
  end.
Fixpoint exec_all (l : list op) : M StateDB () :=
  match l with [] => mret' () | c :: tl => do! exec c in exec_all tl end.

Definition is_revision_op (c : op) : bool :=
  match c with OSnapshot | ORevertToSnapshot _ => true | _ => false end.

Lemma steps_forget {A} (m : M StateDB A) : steps m → steps (forget m).
Proof. intros Hm. apply steps_bind; [done|]. intros. apply steps_ret. Qed.

Lemma steps_read {A} a (f : stateObject → A * stateObject) (dflt : A) :
  (∀ b o c o', obj_ok b o → f o = (c, o') → obj_rel b o' o) →
  steps (let! obj := getStateObject a in
         match obj with None => mret' dflt | Some o => let '(c, o) := f o in do! update o in mret' c end).
Proof.
  intros Hf s x s' Hwf (obj & s1 & Hg & Hv)%mbind_inv.
  destruct (getStateObject_ok _ _ _ _ Hwf Hg) as (Hok & _ & Hlive). pose proof (ok_wf _ _ Hok) as Hwf1.
  destruct obj as [o|]; [|injection Hv as _ <-; done]. destruct (Hlive o eq_refl) as [Hl Ha].
  destruct (f o) as [c o1] eqn:Hfo. pose proof (Hf _ _ _ _ (live_ok _ _ Hwf1 Hl) Hfo) as Hrel.
  injection Hv as _ <-. eapply ok_trans; [exact Hok|]. rewrite (oo_address _ _ (or_l _ _ _ Hrel)).
  by apply ok_update_same.
Qed.

Lemma exec_steps c : is_revision_op c = false → steps (exec c).
Proof.
  intros Hc. destruct c; try done; cbn [exec]; try apply steps_forget.
  all: try (apply steps_GetOrNew;
    first [ apply AddBalance_steps | apply SubBalance_steps | apply AddSmiloPay_steps | apply SubSmiloPay_steps
          | apply obj_steps_forget, SetBalance_steps | apply obj_steps_forget, SetSmiloPay_steps
          | apply obj_steps_forget, UpdateSmiloPay_steps | apply SetNonce_steps | apply SetCode_steps
          | apply SetState_steps ]).
  - apply Suicide_steps.
  - apply CreateAccount_steps.
  - apply AddLog_steps.
  - apply AddPreimage_steps.
  - apply AddRefund_steps.
  - apply SubRefund_steps.
  - apply (steps_read a (λ o, GetState D o k)). intros b o v o' Hok Hg. by eapply GetState_rel.
  - apply (steps_read a (λ o, Code D o)). intros b o v o' Hok Hg. by eapply Code_rel.
  - intros s x s' Hwf (obj & s1 & Hg & [= <- <-])%mbind_inv. by apply (getStateObject_ok _ _ _ _ Hwf) in Hg as [? _].
Qed.

(** ** Snapshots *)

Lemma sort_Search_spec f fuel i j : (∀ x y, (x <= y)%nat → f x = true → f y = true) →
  (i <= j)%nat → (j - i <= fuel)%nat →
  let r := sort_Search fuel f i j in
  (i <= r <= j)%nat ∧ (∀ x, (i <= x < r)%nat → f x = false) ∧ ((r < j)%nat → f r = true).
Proof.
  intros Hmono. revert i j. induction fuel as [|fuel IH]; intros i j Hij Hf; cbn [sort_Search].
  { split_and!; lia. }
  destruct (Nat.ltb_spec i j) as [Hlt|Hge]; [|split_and!; lia].
  set (h := ((i + j) / 2)%nat).
  assert (i <= h < j)%nat as Hh.
  { unfold h. split; [apply Nat.div_le_lower_bound; lia|apply Nat.Div0.div_lt_upper_bound; lia]. }
  destruct (f h) eqn:Hfh; simpl.
  - destruct (IH i h) as (Hr & Hlow & Hhigh); [lia|lia|]. split_and!; [lia..|done|].
    intros Hr'. destruct (decide (sort_Search fuel f i h < h)%nat); [auto|].
    by replace (sort_Search fuel f i h) with h by lia.
  - destruct (IH (S h) j) as (Hr & Hlow & Hhigh); [lia|lia|]. split_and!; [lia..| |done].
    intros x Hx. destruct (decide (S h <= x)%nat); [apply Hlow; lia|].
    destruct (f x) eqn:Hfx; [|done]. rewrite (Hmono x h) in Hfh; [done|lia|done].
Qed.

Definition search_revision (revs : list (Z * nat)) (revid : Z) : nat :=
  sort_Search (length revs) (λ i, match revs !! i with Some (id, _) => revid <=? id | None => true end) 0 (length revs).

Lemma StronglySorted_lookup_lt {A} (R : relation A) l i j x y :
  StronglySorted R l → (i < j)%nat → l !! i = Some x → l !! j = Some y → R x y.
Proof.
  intros Hs. revert i j. induction Hs as [|z l Hs IH Hall]; intros i j Hij Hi Hj; [done|].
  destruct j as [|j]; [lia|]. simpl in Hj. destruct i as [|i]; simpl in Hi.
  - injection Hi as <-. rewrite Forall_forall in Hall. apply Hall. by eapply list_elem_of_lookup_2.
  - eapply IH; [|done..]. lia.
Qed.

Lemma search_revision_found revs revid idx : StronglySorted Z.lt revs.*1 →
  (revid, idx) ∈ revs → revs !! search_revision revs revid = Some (revid, idx).
Proof.
  intros Hs [i Hi]%list_elem_of_lookup. unfold search_revision.
  assert (∀ k x, revs !! k = Some x → revs.*1 !! k = Some x.1) as Hfst by (intros k x Hk; by rewrite list_lookup_fmap, Hk).
  edestruct (sort_Search_spec (λ i, match revs !! i with Some (id, _) => revid <=? id | None => true end)
               (length revs) 0 (length revs)) as (Hr & Hlow & Hhigh); [|lia|lia|].
  { intros x y Hxy Hx. destruct (revs !! y) as [[idy jy]|] eqn:Hy; [|done].
    destruct (revs !! x) as [[idx' jx]|] eqn:Hxx; [|apply lookup_ge_None in Hxx; apply lookup_lt_Some in Hy; lia].
    destruct (decide (x = y)) as [->|Hne]; [by simplify_eq|].
    pose proof (StronglySorted_lookup_lt _ _ x y idx' idy Hs ltac:(lia) (Hfst _ _ Hxx) (Hfst _ _ Hy)).
    apply Z.leb_le in Hx. apply Z.leb_le. lia. }
  set (r := sort_Search _ _ _ _) in *. pose proof (lookup_lt_Some _ _ _ Hi) as Hil.
  assert (r <= i)%nat as Hri.
  { destruct (decide (i < r)%nat); [|lia]. specialize (Hlow i ltac:(lia)). rewrite Hi in Hlow. lia. }
  destruct (decide (r = i)) as [->|Hne]; [done|].
  specialize (Hhigh ltac:(lia)). destruct (lookup_lt_is_Some_2 revs r ltac:(lia)) as [[id' j'] Hr'].
  rewrite Hr' in Hhigh. apply Z.leb_le in Hhigh.
  pose proof (StronglySorted_lookup_lt _ _ r i id' revid Hs ltac:(lia) (Hfst _ _ Hr') (Hfst _ _ Hi)). lia.
Qed.

(** The snapshots that can be reverted to, with the state each one stands for. *)
Record snaps_ok (s : StateDB) (G : Z → StateDB) : Prop := {
  sn_wf : wf s;
  sn_entries : Forall entry_ok (j_entries (sd_journal s));
  sn_ids : StronglySorted Z.lt (sd_validRevisions s).*1;
  sn_next : Forall (λ id, id < sd_nextRevisionId s) (sd_validRevisions s).*1;
  sn_index : StronglySorted (λ x y, (x <= y)%nat) (sd_validRevisions s).*2;
  sn_undo id idx : (id, idx) ∈ sd_validRevisions s →
    (idx <= length (j_entries (sd_journal s)))%nat ∧
    ∃ u, revert_entries (reverse (drop idx (j_entries (sd_journal s)))) s = Some ((), u) ∧ same_state u (G id)
}.

Lemma snaps_step s s' G : snaps_ok s G → ok s s' → snaps_ok s' G.
Proof.
  intros [Hwf He Hids Hnext Hidx Hundo] [es [Hwf' Hes [Hrev Hn] Hok (u & Hu & Hus)]].
  split; rewrite ?Hrev, ?Hn, ?Hes; [done|by apply Forall_app|done..|].
  intros id idx Hin. destruct (Hundo id idx Hin) as (Hle & v & Hv & Hvg). rewrite length_app. split; [lia|].
  rewrite drop_app_le by done. rewrite reverse_app, (revert_entries_app _ _ _ _ Hu).
  assert (Forall entry_ok (reverse (drop idx (j_entries (sd_journal s))))) as Hfo by by apply Forall_reverse, Forall_drop.
  destruct (revert_entries_proper _ s u v Hfo (same_state_sym _ _ Hus) Hv) as (t & Ht & Hvt).
  exists t. split; [done|]. etransitivity; [by symmetry|done].
Qed.

Lemma snaps_Snapshot s G id s' : snaps_ok s G → StateDB_Snapshot s = Some (id, s') →
  id = sd_nextRevisionId s ∧ sd_nextRevisionId s' = id + 1 ∧
  snaps_ok s' (λ i, if i =? id then s else G i).
Proof.
  intros [Hwf He Hids Hnext Hidx Hundo] Hsn. unfold StateDB_Snapshot, mbind', mget, mmod, mret' in Hsn.
  injection Hsn as <- <-. split; [done|]. split; [done|].
  set (n := length (j_entries (sd_journal s))).
  assert (Forall (λ x, (x <= n)%nat) (sd_validRevisions s).*2) as Hle.
  { apply Forall_fmap, Forall_forall. intros [i j] Hin. by apply Hundo in Hin as [? _]. }
  assert (∀ (A : Type) (R : relation A) l x, StronglySorted R l → Forall (λ y, R y x) l → StronglySorted R (l ++ [x])) as Hsnoc.
  { intros A R l x Hs Hall. induction Hs as [|y l Hs IH Hy]; simpl; [repeat constructor|].
    apply Forall_cons in Hall as [Hyx Hall]. constructor; [by apply IH|]. by apply Forall_app; split; [|constructor]. }
  split; simpl.
  - by destruct Hwf.
  - done.
  - rewrite fmap_app. by apply Hsnoc.
  - rewrite fmap_app. apply Forall_app. split; [eapply Forall_impl; [exact Hnext|]; simpl; lia|].
    repeat constructor. simpl. lia.
  - rewrite fmap_app. by apply Hsnoc.
  - intros id idx [Hin|Hin]%elem_of_app.
    + destruct (Hundo id idx Hin) as (Hi & u & Hu & Hug). split; [done|].
      assert (Forall entry_ok (reverse (drop idx (j_entries (sd_journal s))))) as Hfo by by apply Forall_reverse, Forall_drop.
      destruct (revert_entries_proper _ s (set_revisions (sd_validRevisions s ++ [(sd_nextRevisionId s, n)])
                  (sd_nextRevisionId s + 1) s) u Hfo ltac:(by destruct Hwf) Hu) as (t & Ht & Hut).
      exists t. split; [exact Ht|].
      assert (id < sd_nextRevisionId s) by (rewrite Forall_forall in Hnext; apply Hnext, (list_elem_of_fmap_2 fst _ _ Hin)).
      destruct (Z.eqb_spec id (sd_nextRevisionId s)); [lia|]. etransitivity; [by symmetry|done].
    + apply list_elem_of_singleton in Hin as [= -> ->]. split; [done|]. rewrite Z.eqb_refl. fold n.
      rewrite (drop_ge (j_entries (sd_journal s)) n) by done. eexists. split; [done|]. by destruct Hwf.
Qed.

Lemma revert_run s G id idx : snaps_ok s G → (id, idx) ∈ sd_validRevisions s →
  ∃ s', RevertToSnapshot id s = Some ((), s') ∧ same_state s' (G id) ∧
    j_entries (sd_journal s') = take idx (j_entries (sd_journal s)) ∧
    sd_validRevisions s' = take (search_revision (sd_validRevisions s) id) (sd_validRevisions s) ∧
    sd_nextRevisionId s' = sd_nextRevisionId s ∧
    ∃ u, revert_entries (reverse (drop idx (j_entries (sd_journal s)))) s = Some ((), u) ∧ same_state u s'.
Proof.
  intros Hok Hin. destruct (sn_undo _ _ Hok id idx Hin) as (Hle & u & Hu & Hug).
  pose proof (revert_entries_frame _ _ _ Hu) as (Hfe & Hfr & Hfn).
  unfold RevertToSnapshot, mbind' at 1, mget. fold (search_revision (sd_validRevisions s) id).
  rewrite (search_revision_found _ id idx (sn_ids _ _ Hok) Hin), Z.eqb_refl. cbn [negb].
  unfold journal_revert, mbind', mget. rewrite Hu. unfold mmod. eexists. split; [done|]. simpl.
  assert (wf u) as Hwu by by eapply same_state_wf_l.
  split_and!; [by destruct Hug|by rewrite Hfe|by rewrite Hfr|done|]. exists u. split; [done|]. by destruct Hwu.
Qed.

Lemma snaps_Revert s G id s' : snaps_ok s G → RevertToSnapshot id s = Some ((), s') →
  snaps_ok s' G ∧ sd_nextRevisionId s' = sd_nextRevisionId s.
Proof.
  intros Hok Hrun.
  assert (∃ idx, (id, idx) ∈ sd_validRevisions s) as [idx Hin].
  { unfold RevertToSnapshot, mbind' at 1, mget in Hrun. destruct (sd_validRevisions s !! _) as [[id' idx]|] eqn:Hl; [|done].
    destruct (Z.eqb_spec id' id) as [->|]; [|done]. exists idx. by eapply list_elem_of_lookup_2. }
  destruct (revert_run s G id idx Hok Hin) as (s1 & Hr & Hsg & Hent & Hrev & Hnext & u & Hu & Hus).
  rewrite Hrun in Hr. injection Hr as <-. split; [|done].
  set (i := search_revision _ id) in *. pose proof (search_revision_found _ id idx (sn_ids _ _ Hok) Hin) as Hi.
  destruct Hok as [Hwf He Hids Hnx Hidx Hundo].
  assert (∀ A (R : relation A) l n, StronglySorted R l → StronglySorted R (take n l)) as Htake.
  { intros A R l n Hs. revert n. induction Hs as [|y l Hs IH Hy]; intros [|n]; simpl; constructor; [done|].
    by apply Forall_take. }
  split; rewrite ?Hent, ?Hrev, ?Hnext; rewrite ?fmap_take.
  - by eapply same_state_wf_l.
  - by apply Forall_take.
  - by apply Htake.
  - by apply Forall_take.
  - by apply Htake.
  - intros id2 idx2 Hin2. apply list_elem_of_lookup in Hin2 as [k Hk]. apply lookup_take_Some in Hk as [Hk Hki].
    destruct (Hundo id2 idx2 (list_elem_of_lookup_2 _ _ _ Hk)) as (Hle2 & v & Hv & Hvg).
    assert (idx2 <= idx)%nat as Hii.
    { apply (StronglySorted_lookup_lt _ _ k i idx2 idx Hidx); [done|by rewrite list_lookup_fmap, Hk|].
      rewrite list_lookup_fmap. unfold i. by rewrite Hi. }
    destruct (Hundo id idx Hin) as [Hle _]. split; [rewrite length_take; lia|].
    assert (drop idx2 (j_entries (sd_journal s)) =
            drop idx2 (take idx (j_entries (sd_journal s))) ++ drop idx (j_entries (sd_journal s))) as Hsplit.
    { rewrite <-(take_drop idx (j_entries (sd_journal s))) at 1. rewrite drop_app_le; [done|]. rewrite length_take. lia. }
    rewrite Hsplit, reverse_app in Hv. apply revert_entries_app_inv in Hv as (u' & Hu' & Hv).
    rewrite Hu in Hu'. injection Hu' as <-.
    assert (Forall entry_ok (reverse (drop idx2 (take idx (j_entries (sd_journal s)))))) as Hfo
      by by apply Forall_reverse, Forall_drop, Forall_take.
    destruct (revert_entries_proper _ u s' v Hfo Hus Hv) as (t & Ht & Hvt).
    exists t. split; [done|]. etransitivity; [by symmetry|done].
Qed.

Lemma exec_snaps c s G s' : snaps_ok s G → exec c s = Some ((), s') →
  ∃ G', snaps_ok s' G' ∧ sd_nextRevisionId s <= sd_nextRevisionId s' ∧
    ∀ i, i < sd_nextRevisionId s → G' i = G i.
Proof.
  intros Hok Hr. destruct (is_revision_op c) eqn:Hc.
  - destruct c; try done; cbn [exec] in Hr.
    + apply mbind_inv in Hr as (id & s1 & Hr & [= <-]). destruct (snaps_Snapshot _ _ _ _ Hok Hr) as (-> & Hn & Hs).
      eexists. split; [exact Hs|]. split; [lia|]. intros i Hi. destruct (Z.eqb_spec i (sd_nextRevisionId s)); [lia|done].
    + destruct (snaps_Revert _ _ _ _ Hok Hr) as [Hs Hn]. exists G. split; [done|]. split; [lia|done].
  - exists G. pose proof (exec_steps c Hc _ _ _ (sn_wf _ _ Hok) Hr) as Hst. split; [by eapply snaps_step|].
    destruct Hst as [es Hst]. destruct (st_revisions _ _ _ Hst) as [_ ->]. done.
Qed.

Lemma exec_all_snaps l s G s' : snaps_ok s G → exec_all l s = Some ((), s') →
  ∃ G', snaps_ok s' G' ∧ sd_nextRevisionId s <= sd_nextRevisionId s' ∧
    ∀ i, i < sd_nextRevisionId s → G' i = G i.
Proof.
  revert s G. induction l as [|c l IH]; intros s G Hok; cbn [exec_all]; [intros [= <-]; by exists G|].
  intros ([] & s1 & Hc & Hl)%mbind_inv. destruct (exec_snaps c s G s1 Hok Hc) as (G1 & Hok1 & Hn1 & Hg1).
  destruct (IH s1 G1 Hok1 Hl) as (G2 & Hok2 & Hn2 & Hg2). exists G2. split; [done|]. split; [lia|].
  intros i Hi. rewrite Hg2 by lia. by apply Hg1.
Qed.

(** A state that was made from a fresh one. *)
Definition good (s : StateDB) : Prop := ∃ G, snaps_ok s G.

Lemma New_good trie : good (StateDB_New trie).
Proof.
  exists (λ _, StateDB_New trie). split; [|constructor|constructor|constructor|constructor|by intros ? ? ?%elem_of_nil].
  split; try done. intros a. unfold peek. simpl. rewrite lookup_empty.
  destruct (trie !! a); [apply obj_rel_new|done].
Qed.

(** ** What the getters see *)

Definition answer {A} (m : M StateDB A) (s : StateDB) : option A := fst <$> m s.

Lemma answer_object {A} (a : address) (f : option stateObject → A) s :
  answer (let! obj := getStateObject a in mret' (f obj)) s = Some (f (peek s a)).
Proof. unfold answer, mbind'. by destruct (getStateObject_run a s) as (s' & -> & _). Qed.
Lemma answer_read {A} a (f : stateObject → A * stateObject) (dflt : A) s :
  answer (let! obj := getStateObject a in
          match obj with None => mret' dflt | Some o => let '(c, o) := f o in do! update o in mret' c end) s =
  Some match peek s a with None => dflt | Some o => (f o).1 end.
Proof.
  unfold answer, mbind'. destruct (getStateObject_run a s) as (s' & -> & _).
  destruct (peek s a) as [o|]; [|done]. by destruct (f o).
Qed.

(** All the getters of an account, of a word of its storage, and of the refund. *)
Definition observe (s : StateDB) (a : address) (key : hash) (blockNumber : Z) :=
  (answer (Exist a) s, answer (Empty a) s, answer (GetBalance a) s, answer (GetNonce a) s,
   answer (GetSmiloPay a blockNumber) s, answer (GetCodeHash a) s, answer (GetCode D a) s, answer (HasSuicided a) s,
   answer (db_GetState D a key) s, answer (db_GetCommittedState D a key) s, answer GetRefund s).

Lemma same_state_observe s t a key bn : same_state s t → observe s a key bn = observe t a key bn.
Proof.
  intros Hst. pose proof (ss_obj _ _ Hst a) as Ho. unfold observe, Exist, Empty, GetBalance, GetNonce, GetCodeHash, HasSuicided.
  unfold with_object. rewrite !answer_object. unfold GetCode, db_GetState, db_GetCommittedState. rewrite !answer_read.
  unfold GetRefund, GetSmiloPay, answer, mbind', mget. simpl. rewrite (ss_refund _ _ Hst).
  destruct (getStateObject_run a s) as (s1 & -> & _), (getStateObject_run a t) as (t1 & -> & _).
  destruct (peek s a) as [o|], (peek t a) as [p|]; simpl in Ho; try done.
  destruct (Code D o) eqn:Hc1, (Code D p) eqn:Hc2, (GetState D o key) eqn:Hg1, (GetState D p key) eqn:Hg2,
    (GetCommittedState D o key) eqn:Hm1, (GetCommittedState D p key) eqn:Hm2. simpl.
  apply (Code_rel a) in Hc1 as [-> _], Hc2 as [-> _]; [|apply Ho..].
  apply (GetState_rel a) in Hg1 as [-> _], Hg2 as [-> _]; [|apply Ho..].
  apply (GetCommittedState_rel a) in Hm1 as [-> _], Hm2 as [-> _]; [|apply Ho..].
  unfold empty. rewrite (or_data _ _ _ Ho), (or_code _ _ _ Ho), (or_current _ _ _ Ho), (or_committed _ _ _ Ho), (or_suicided _ _ _ Ho).
  by destruct (CalculateSmiloPay _ _ _ _).
Qed.

(** C5. [RevertToSnapshot] undoes everything that happened since the snapshot,
    nested snapshots and reverts included: every getter of accounts, storage and
    code, the refund counter, the logs and the preimages are what they were. *)
Theorem RevertToSnapshot_restores s id s1 ops s2 : good s →
  StateDB_Snapshot s = Some (id, s1) → exec_all ops s1 = Some ((), s2) → id ∈ (sd_validRevisions s2).*1 →
  ∃ s3, RevertToSnapshot id s2 = Some ((), s3) ∧ good s3 ∧
    (∀ a key bn, observe s3 a key bn = observe s a key bn) ∧
    (∀ h, default [] (sd_logs s3 !! h) = default [] (sd_logs s !! h)) ∧
    sd_logSize s3 = sd_logSize s ∧ sd_preimages s3 = sd_preimages s.
Proof.
  intros [G Hok] Hsn Hops Hin. destruct (snaps_Snapshot _ _ _ _ Hok Hsn) as (-> & Hn & Hok1).
  destruct (exec_all_snaps _ _ _ _ Hok1 Hops) as (G2 & Hok2 & _ & Hg2).
  apply list_elem_of_fmap in Hin as ([id' idx] & Hid & Hin). simpl in Hid. subst id'.
  destruct (revert_run s2 G2 _ idx Hok2 Hin) as (s3 & Hr & Hs3 & _). exists s3. split; [done|].
  rewrite Hg2, Z.eqb_refl in Hs3 by lia. split; [exists G2; by eapply snaps_Revert|].
  split; [intros; by apply same_state_observe|]. destruct Hs3 as [_ _ _ _ Hl [Hls _] Hp _ _]. done.
Qed.
End revert.
