(* ===== verification/StateTransition.v ===== *)
(** * Applying a transaction: core/state_transition.go and core/gaspool.go

    The gas pool of the block, the purchase of gas (with the SmiloPay allowance),
    the call of the EVM and the refunds.  The EVM and the vault are parameters:
    the EVM is any function on the public state, the vault any lookup. *)

From Stdlib Require Import ZArith Lia.
From S2P Require Import Prelude Errors Rlp Fullnode Messages SmiloPay StateDB StateRevert EngineVerify.
Open Scope didux_scope.

(** ** GasPool *)

Definition AddGas (gp amount : Z) : option Z := if MaxUint64 - amount <? gp then None else Some (gp + amount).
Definition SubGas (gp amount : Z) : result Z := if gp <? amount then inr ErrGasLimitReached else inl (gp - amount).

(** ** Intrinsic gas *)

Definition TxGas : Z := 21000.
Definition TxGasContractCreation : Z := 53000.
Definition TxDataZeroGas : Z := 4.
Definition TxDataNonZeroGas : Z := 68.

Definition nonzero_bytes (data : bytes) : Z := Z.of_nat (length (filter (λ b, b ≠ x00) data)).

Definition IntrinsicGas (data : bytes) (contractCreation homestead : bool) : result Z :=
  let gas := if contractCreation && homestead then TxGasContractCreation else TxGas in
  if (0 <? length data)%nat then
    let nz := nonzero_bytes data in
    if (MaxUint64 - gas) / TxDataNonZeroGas <? nz then inr ErrOutOfGas else
    let gas := u64 (gas + nz * TxDataNonZeroGas) in
    let z := Z.of_nat (length data) - nz in
    if (MaxUint64 - gas) / TxDataZeroGas <? z then inr ErrOutOfGas else
    inl (u64 (gas + z * TxDataZeroGas))
  else inl gas.

(** ** The state transition *)

Record Message := MkMessage {
  msg_From : address; msg_To : option address; msg_GasPrice : Z; msg_Gas : Z; msg_Value : Z;
  msg_Nonce : Z; msg_CheckNonce : bool; msg_Data : bytes; msg_IsVault : bool
}.

(** The chain configuration at the block, the block, the vault ([None] when it
    is offline) and the EVM. *)
(** The databases of a transaction: a public transaction has the public state alone, a
    vault transaction has the vault state beside it. *)
Class Databases (W : Type) := { pub : W → StateDB; set_pub : StateDB → W → W }.
#[export] Instance public_only : Databases StateDB := {| pub s := s; set_pub s _ := s |}.
#[export] Instance with_vault : Databases (StateDB * StateDB) := {| pub := fst; set_pub s w := (s, w.2) |}.

Record EVM_ (W : Type) := MkEVM {
  evm_BlockNumber : Z; evm_Coinbase : address;
  evm_homestead : bool; evm_IsSmilo : bool; evm_IsGas : bool; evm_IsGasRefunded : bool;
  evm_vault : option (bytes → result bytes);
  evm_Create : address → bytes → Z → Z → bool → M W (bytes * Z * err);
  evm_Call : address → address → bytes → Z → Z → bool → M W (bytes * Z * err)
}.
Arguments MkEVM {_}. Arguments evm_BlockNumber {_}. Arguments evm_Coinbase {_}. Arguments evm_homestead {_}. Arguments evm_IsSmilo {_}.
Arguments evm_IsGas {_}. Arguments evm_IsGasRefunded {_}. Arguments evm_vault {_}. Arguments evm_Create {_}. Arguments evm_Call {_}.
Abbreviation EVM := (EVM_ StateDB).

Record StateTransition_ (W : Type) := MkST {
  st_gp : Z; st_gas : Z; st_initialGas : Z; st_state : W
}.
Arguments MkST {_}. Arguments st_gp {_}. Arguments st_gas {_}. Arguments st_initialGas {_}. Arguments st_state {_}.
Abbreviation StateTransition := (StateTransition_ StateDB).
Definition set_gas {W} (gas : Z) (st : StateTransition_ W) : StateTransition_ W :=
  MkST (st_gp st) gas (st_initialGas st) (st_state st).
Definition set_gp {W} (gp : Z) (st : StateTransition_ W) : StateTransition_ W :=
  MkST gp (st_gas st) (st_initialGas st) (st_state st).

Section transition.
Context `{!Crypto} {W : Type} `{!Databases W} (evm : EVM_ W) (msg : Message).
Local Abbreviation TM A := (M (StateTransition_ W) A).

Definition on_state {A} (m : M StateDB A) : TM A :=
  λ st, match m (pub (st_state st)) with
        | Some (a, s) => Some (a, MkST (st_gp st) (st_gas st) (st_initialGas st) (set_pub s (st_state st)))
        | None => None
        end.
(** A method of the EVM. *)
Definition on_evm {A} (m : M W A) : TM A :=
  λ st, match m (st_state st) with
        | Some (a, s) => Some (a, MkST (st_gp st) (st_gas st) (st_initialGas st) s)
        | None => None
        end.

Definition NewStateTransition (gp : Z) (s : W) : StateTransition_ W := MkST gp 0 0 s.

Definition gasUsed (st : StateTransition_ W) : Z := u64 (st_initialGas st - st_gas st).

Definition useGas (amount : Z) : TM err :=
  let! st := mget in
  if st_gas st <? amount then mret' (Some ErrOutOfGas)
  else do! mmod (set_gas (st_gas st - amount)) in mret' None.

Definition buyGas : TM err :=
  let mgval := msg_Gas msg * msg_GasPrice msg in
  let! pay := on_state (GetSmiloPay (msg_From msg) (evm_BlockNumber evm)) in
  if big_Cmp pay mgval <? 0 then mret' (Some ErrInsufficientSmiloPay) else
  let! balance := on_state (GetBalance (msg_From msg)) in
  if big_Cmp balance mgval <? 0 then mret' (Some errInsufficientBalanceForGas) else
  let! st := mget in
  match SubGas (st_gp st) (msg_Gas msg) with
  | inr e => mret' (Some e)
  | inl gp =>
      do! mmod (λ st, MkST gp (u64 (st_gas st + msg_Gas msg)) (msg_Gas msg) (st_state st)) in
      do! on_state (SubSmiloPay (msg_From msg) mgval (evm_BlockNumber evm)) in
      do! on_state (SubBalance (msg_From msg) mgval (evm_BlockNumber evm)) in
      mret' None
  end.

Definition preCheck : TM err :=
  if msg_CheckNonce msg then
    let! nonce := on_state (GetNonce (msg_From msg)) in
    if nonce <? msg_Nonce msg then mret' (Some ErrNonceTooHigh)
    else if msg_Nonce msg <? nonce then mret' (Some ErrNonceTooLow)
    else buyGas
  else buyGas.

(** [SetNonce(a, GetNonce(a)+1)] on the public state. *)
Definition incrementNonce : TM () :=
  let! nonce := on_state (GetNonce (msg_From msg)) in
  on_state (SetNonce (msg_From msg) (u64 (nonce + 1))).

(** The refund counter, capped to half of the used gas. *)
Definition apply_refund : TM () :=
  let! st := mget in
  let refund := gasUsed st / 2 in
  let! counter := on_state GetRefund in
  let refund := if counter <? refund then counter else refund in
  mmod (set_gas (u64 (st_gas st + refund))).
(** [st.gp.AddGas(st.gas)]. *)
Definition return_gas : TM () :=
  let! st := mget in
  let! gp := mderef (AddGas (st_gp st) (st_gas st)) in
  mmod (set_gp gp).

Definition refundGas : TM () :=
  do! apply_refund in
  let! st := mget in
  do! on_state (AddBalance (msg_From msg) (st_gas st * msg_GasPrice msg) (evm_BlockNumber evm)) in
  return_gas.

Definition refundGasSmiloVersion : TM () :=
  let! st := mget in
  do! on_state (AddBalance (msg_From msg) (gasUsed st * msg_GasPrice msg) (evm_BlockNumber evm)) in
  do! apply_refund in
  return_gas.

Definition refundSmiloPay : TM () :=
  do! apply_refund in
  let! st := mget in
  do! on_state (AddSmiloPay (msg_From msg) (st_gas st * msg_GasPrice msg)) in
  return_gas.

(** The fees of the miner. *)
Definition pay_coinbase : TM () :=
  let! st := mget in
  on_state (AddBalance (evm_Coinbase evm) (gasUsed st * msg_GasPrice msg) (evm_BlockNumber evm)).

(** [TransitionDb]: the returned bytes, the gas used, whether the EVM failed,
    the error. *)
Definition outcome : Type := bytes * Z * bool * err.

(** From the EVM's answer to the end. *)
Definition after_evm (isVault : bool) (ret : bytes) (gasNotUsed : Z) (vmerr : err) : TM outcome :=
  if bool_decide (vmerr = Some ErrInsufficientBalance) then mret' ([], 0, false, vmerr) else
  do! (if isVault then mret' () else mmod (set_gas gasNotUsed)) in
  do! (if bool_decide (vmerr = None) && evm_IsSmilo evm && evm_IsGas evm && evm_IsGasRefunded evm
       then refundGasSmiloVersion
       else do! refundGas in pay_coinbase) in
  let! st := mget in
  mret' (ret, if isVault then 0 else gasUsed st, negb (bool_decide (vmerr = None)), None).

(** From the payment of the intrinsic gas on. *)
Definition execute (isVault : bool) (data : bytes) : TM outcome :=
  match IntrinsicGas (msg_Data msg) (bool_decide (msg_To msg = None)) (evm_homestead evm) with
  | inr e => mret' ([], 0, false, Some e)
  | inl gas =>
      let! e := useGas gas in
      match e with
      | Some e => mret' ([], 0, false, Some e)
      | None =>
          let! st := mget in
          match msg_To msg with
          | None =>
              let! r := on_evm (evm_Create evm (msg_From msg) data (st_gas st) (msg_Value msg) isVault) in
              let '(ret, gasNotUsed, vmerr) := r in after_evm isVault ret gasNotUsed vmerr
          | Some to =>
              do! (if isVault then mret' () else incrementNonce) in
              if (length data =? 0)%nat && isVault then
                do! (if evm_IsSmilo evm && evm_IsGas evm then refundGasSmiloVersion
                     else do! refundGas in pay_coinbase) in
                mret' ([], 0, false, None)
              else
                let! r := on_evm (evm_Call evm (msg_From msg) to data (st_gas st) (msg_Value msg) isVault) in
                let '(ret, gasNotUsed, vmerr) := r in after_evm isVault ret gasNotUsed vmerr
          end
      end
  end.

Definition TransitionDb : TM outcome :=
  let! e := preCheck in
  match e with
  | Some e => mret' ([], 0, false, Some e)
  | None =>
      if evm_IsSmilo evm && msg_IsVault msg then
        match evm_vault evm with
        | None => do! incrementNonce in mret' ([], 0, false, None)
        | Some get =>
            match get (msg_Data msg) with
            | inr _ => do! incrementNonce in mret' ([], 0, false, None)
            | inl data =>
                do! (if bool_decide (msg_To msg = None) then mret' () else incrementNonce) in
                execute true data
            end
        end
      else execute false (msg_Data msg)
  end.

Definition ApplyMessage (gp : Z) (s : W) : option (outcome * StateTransition_ W) :=
  TransitionDb (NewStateTransition gp s).
End transition.
