(* ===== verification/StateLaws.v ===== *)
(** * Gas accounting

    What a transaction costs: the intrinsic gas, the balances of the sender and
    of the coinbase, and the gas pool of the block, around any run of the EVM. *)

From Stdlib Require Import ZArith Lia.
From S2P Require Import Prelude Errors Rlp Fullnode Messages SmiloPay StateDB StateRevert EngineVerify StateTransition.
Open Scope didux_scope.

(** ** Intrinsic gas *)

Lemma nonzero_bytes_range data : 0 <= nonzero_bytes data <= Z.of_nat (length data).
Proof. unfold nonzero_bytes. pose proof (length_filter (λ b, b ≠ x00) data). lia. Qed.

Definition intrinsic_total (data : bytes) (contractCreation homestead : bool) : Z :=
  (if contractCreation && homestead then TxGasContractCreation else TxGas)
  + 68 * nonzero_bytes data + 4 * (Z.of_nat (length data) - nonzero_bytes data).

Lemma IntrinsicGas_total data contractCreation homestead :
  IntrinsicGas data contractCreation homestead =
  if intrinsic_total data contractCreation homestead <=? MaxUint64
  then inl (intrinsic_total data contractCreation homestead) else inr ErrOutOfGas.
Proof.
  pose proof (nonzero_bytes_range data) as Hnz. unfold IntrinsicGas, intrinsic_total.
  set (base := if contractCreation && homestead then _ else _).
  assert (0 <= base <= 53000) as Hbase by (unfold base, TxGasContractCreation, TxGas; case_match; lia).
  destruct (Nat.ltb_spec 0 (length data)) as [Hl|Hl].
  2:{ assert (length data = 0%nat) as Hz by lia. rewrite Hz in Hnz |- *.
      destruct (Z.leb_spec (base + 68 * nonzero_bytes data + 4 * (Z.of_nat 0 - nonzero_bytes data)) MaxUint64).
      - f_equal. lia.
      - unfold MaxUint64 in *. lia. }
  unfold TxDataNonZeroGas, TxDataZeroGas. set (nz := nonzero_bytes data) in *.
  destruct (Z.ltb_spec ((MaxUint64 - base) / 68) nz) as [Hlt|Hge].
  { assert (MaxUint64 - base < 68 * nz).
    { pose proof (Z.mul_succ_div_gt (MaxUint64 - base) 68 ltac:(lia)). lia. }
    destruct (Z.leb_spec (base + 68 * nz + 4 * (Z.of_nat (length data) - nz)) MaxUint64); [lia|done]. }
  assert (68 * nz <= MaxUint64 - base) as Hfit.
  { pose proof (Z.mul_div_le (MaxUint64 - base) 68 ltac:(lia)). lia. }
  rewrite u64_small by (unfold MaxUint64, two64 in *; lia).
  set (g := base + nz * 68). set (z := Z.of_nat (length data) - nz).
  destruct (Z.ltb_spec ((MaxUint64 - g) / 4) z) as [Hlt2|Hge2].
  { assert (MaxUint64 - g < 4 * z).
    { pose proof (Z.mul_succ_div_gt (MaxUint64 - g) 4 ltac:(lia)). lia. }
    destruct (Z.leb_spec (base + 68 * nz + 4 * z) MaxUint64); [lia|done]. }
  assert (4 * z <= MaxUint64 - g).
  { pose proof (Z.mul_div_le (MaxUint64 - g) 4 ltac:(lia)). lia. }
  rewrite u64_small by (unfold MaxUint64, two64 in *; lia).
  destruct (Z.leb_spec (base + 68 * nz + 4 * z) MaxUint64); [f_equal; lia|lia].
Qed.

(** The intrinsic gas is the base price plus 68 for each non-zero and 4 for each
    zero byte; the overflow checks refuse exactly what does not fit a [uint64]. *)
Theorem IntrinsicGas_exact data contractCreation homestead :
  IntrinsicGas data contractCreation homestead =
  if intrinsic_total data contractCreation homestead <=? MaxUint64
  then inl (intrinsic_total data contractCreation homestead) else inr ErrOutOfGas.
Proof. apply IntrinsicGas_total. Qed.

(** ** Balances *)

Section balances.
Context `{!Crypto} (D : Database).
Implicit Types s : StateDB.

Definition acct (s : StateDB) (a : address) : Account :=
  match peek s a with Some o => so_data o | None => emptyAccount end.
Definition bal (s : StateDB) (a : address) : Z := ac_Balance (acct s a).

Definition others (s s' : StateDB) (a : address) : Prop :=
  (∀ b, b ≠ a → acct s' b = acct s b) ∧ sd_refund s' = sd_refund s.

Lemma acct_upd a o s b : so_deleted o = false → acct (upd a o s) b = if decide (b = a) then so_data o else acct s b.
Proof. intros Hd. unfold acct. rewrite peek_upd by done. by destruct (decide (b = a)). Qed.

Lemma CalculateSmiloPay_total pb nb prev balance : 0 <= balance → ∃ r, CalculateSmiloPay pb nb prev balance = Some r.
Proof.
  intros Hb. assert (∃ f, bf_Sqrt (bf_SetInt (balance / 1000000000000000000)) = Some f) as [f Hf].
  { unfold bf_Sqrt. destruct (bf_SetInt_exact (balance / 1000000000000000000)) as [-> _].
    destruct (Z.ltb_spec (balance / 1000000000000000000) 0) as [Hlt|]; [|eauto].
    pose proof (Z.div_pos balance 1000000000000000000 Hb ltac:(lia)). lia. }
  unfold CalculateSmiloPay, MaxSmiloPay. rewrite Hf. repeat case_match; eauto; simplify_eq; eauto.
Qed.

(** The methods used by the transition, on a live object. *)
Record live_at (s : StateDB) (o : stateObject) (a : address) : Prop := {
  la_wf : wf D s; la_live : live s o; la_addr : so_address o = a
}.
Lemma live_data s o a : live_at s o a → so_data o = acct s a.
Proof. intros [_ Hl <-]. unfold acct. by rewrite Hl. Qed.

Lemma wp_GetOrNew a s : wf D s →
  wp (GetOrNewStateObject a) (λ o s', live_at s' o a ∧ (∀ b, acct s' b = acct s b) ∧ sd_refund s' = sd_refund s) s.
Proof.
  intros Hwf.
  assert (∃ o s', GetOrNewStateObject a s = Some (o, s') ∧ so_address o = a ∧
            (∀ b, acct s' b = acct s b) ∧ sd_refund s' = sd_refund s) as (o & s' & Hr & Ha & Hacct & Hrf).
  { unfold GetOrNewStateObject, mbind' at 1. destruct (getStateObject_run a s) as (s1 & Hg & Hs & Hn). rewrite Hg.
    destruct (peek s a) as [o|] eqn:Hp.
    - destruct (wf_peek D _ _ _ Hwf Hp) as [Ha _ Hd]. rewrite Hd. destruct (Hs o eq_refl) as [Hs1 _].
      exists o, s1. split; [done|]. split; [done|]. destruct Hs1 as [->| ->]; [done|]. split; [|done].
      intros b. rewrite acct_upd by done. case_decide as Hb; [|done]. unfold acct. by rewrite Hb, Hp.
    - rewrite Hn in * by done. unfold createObject, mbind'. rewrite Hg. eexists _, _. split; [done|]. split; [done|].
      split; [|done]. intros b.
      change (acct (upd a (setNonce 0 (newObject a emptyAccount)) (set_journal (j_append (createObjectChange a) (sd_journal s)) s)) b = acct s b).
      rewrite acct_upd by done. case_decide as Hb; [|done]. unfold acct. by rewrite Hb, Hp. }
  apply (wp_of_run _ _ _ _ _ Hr). destruct (GetOrNew_ok D _ _ _ _ Hwf Hr) as [Hok Hl].
  split; [split; [by eapply ok_wf|done..]|done].
Qed.

(** A journalled change of an object. *)
Lemma wp_change {A} e o1 (r : A) s o a : live_at s o a → obj_ok a o1 →
  wp (do! append e in do! update o1 in mret' r)
     (λ x s', x = r ∧ live_at s' o1 a ∧ acct s' a = so_data o1 ∧ others s s' a) s.
Proof.
  intros [Hwf Hl Ha] Hok. pose proof Hok as [Ha1 _ Hd1].
  unfold wp, append, update, setStateObject, mbind', mmod, mret'. rewrite Ha1.
  set (s0 := set_journal _ s). fold (upd a o1 s0).
  split; [done|]. split; [|split].
  - split; [|by apply live_upd|done]. apply (same_state_upd D); [by apply (same_state_journal D)|by apply obj_rel_refl].
  - by rewrite acct_upd, decide_True by done.
  - split; [|done]. intros b Hb. by rewrite acct_upd, decide_False by done.
Qed.

Definition nonce (s : StateDB) (a : address) : Z := ac_Nonce (acct s a).

(** The balances change by [d], the nonces and the refund counter stay. *)
Record moved (s s' : StateDB) (d : address → Z) : Prop := {
  mv_wf : wf D s';
  mv_bal b : bal s' b = bal s b + d b;
  mv_nonce b : nonce s' b = nonce s b;
  mv_refund : sd_refund s' = sd_refund s
}.
Definition at_ (a : address) (v : Z) : address → Z := λ b, if decide (b = a) then v else 0.

Lemma moved_refl s : wf D s → moved s s (λ _, 0).
Proof. intros Hwf. split; try done. intros. lia. Qed.
Lemma moved_trans s1 s2 s3 d1 d2 : moved s1 s2 d1 → moved s2 s3 d2 → moved s1 s3 (λ b, d1 b + d2 b).
Proof.
  intros [? Hb1 Hn1 ?] [? Hb2 Hn2 ?]. split; [done|..].
  - intros b. rewrite Hb2, Hb1. lia.
  - intros b. by rewrite Hn2.
  - congruence.
Qed.
Lemma moved_ext s s' d d' : (∀ b, d b = d' b) → moved s s' d → moved s s' d'.
Proof. intros Hd [? Hb ? ?]. split; try done. intros b. by rewrite <-Hd. Qed.

Lemma moved_at s s' a o v : live_at s' o a → others s s' a → ac_Balance (so_data o) = bal s a + v →
  ac_Nonce (so_data o) = nonce s a → moved s s' (at_ a v).
Proof.
  intros Hl [Ho Hr] Hb Hn. pose proof (live_data _ _ _ Hl) as Hd. split; [apply Hl|..|done].
  - intros b. unfold at_, bal in *. case_decide as Hba; [rewrite Hba, <-Hd; lia|]. rewrite Ho by done. lia.
  - intros b. unfold nonce in *. destruct (decide (b = a)) as [->|]; [by rewrite <-Hd|by rewrite Ho].
Qed.
Lemma others_trans s1 s2 s3 a : others s1 s2 a → others s2 s3 a → others s1 s3 a.
Proof. intros [H1 ?] [H2 ?]. split; [|congruence]. intros b Hb. by rewrite H2, H1. Qed.

(** [f] of an object: the balance and the nonce of the result. *)
Definition method (m : stateObject → M StateDB stateObject) (f : Z → Z) : Prop :=
  ∀ s o a, live_at s o a → 0 <= ac_Balance (so_data o) →
    wp (m o) (λ o' s', live_at s' o' a ∧ others s s' a ∧
      ac_Balance (so_data o') = f (ac_Balance (so_data o)) ∧ ac_Nonce (so_data o') = ac_Nonce (so_data o)) s.

Lemma live_obj_ok s o a : live_at s o a → obj_ok a o.
Proof. intros [Hwf Hl <-]. by eapply live_ok. Qed.
Lemma set_data_ok f a o : obj_ok a o → obj_ok a (set_data f o).
Proof. intros []. by split. Qed.

Lemma method_UpdateSmiloPay bn : method (so_UpdateSmiloPay bn) (λ x, x).
Proof.
  intros s o a Hl Hb. unfold so_UpdateSmiloPay.
  destruct (CalculateSmiloPay_total (ac_BlockNumber (so_data o)) bn (ac_SmiloPay (so_data o)) _ Hb) as [r ->]. wp_step.
  eapply wp_wand; [apply (wp_change _ _ _ s o a Hl); by apply set_data_ok, (live_obj_ok s)|].
  by intros x s' (-> & ? & _ & ?).
Qed.
Lemma method_SetSmiloPay v : method (so_SetSmiloPay v) (λ x, x).
Proof.
  intros s o a Hl Hb. eapply wp_wand; [apply (wp_change _ _ _ s o a Hl); by apply set_data_ok, (live_obj_ok s)|].
  by intros x s' (-> & ? & _ & ?).
Qed.
Lemma method_SetBalance v bn : method (so_SetBalance v bn) (λ _, v).
Proof.
  intros s o a Hl Hb. eapply wp_seq; [by apply method_UpdateSmiloPay|]. intros o1 s1 (Hl1 & Ho1 & Hb1 & Hn1).
  eapply wp_wand; [apply (wp_change _ _ _ s1 o1 a Hl1); by apply set_data_ok, (live_obj_ok s1)|].
  intros x s' (-> & ? & _ & ?). split; [done|]. split; [by eapply others_trans|done].
Qed.

(** A change of one account by [v]. *)
Definition changes (m : stateObject → M StateDB ()) (v : Z) : Prop :=
  ∀ s o a, live_at s o a → 0 <= ac_Balance (so_data o) →
    wp (m o) (λ _ s', ∃ o', live_at s' o' a ∧ others s s' a ∧
      ac_Balance (so_data o') = ac_Balance (so_data o) + v ∧ ac_Nonce (so_data o') = ac_Nonce (so_data o)) s.

Lemma changes_run m a (v : Z) s : wf D s → 0 <= bal s a → changes m v →
  wp (let! o := GetOrNewStateObject a in m o) (λ _ s', moved s s' (at_ a v)) s.
Proof.
  intros Hwf Hb Hm. eapply wp_seq; [by apply wp_GetOrNew|]. intros o s1 (Hl & Hacct & Hr).
  pose proof (live_data _ _ _ Hl) as Hd. rewrite Hacct in Hd.
  eapply wp_wand; [apply (Hm s1 o a Hl); by rewrite Hd|]. intros [] s2 (o2 & Hl2 & [Ho2 Hr2] & Hb2 & Hn2).
  rewrite Hd in Hb2, Hn2. eapply moved_at; [exact Hl2| |done..].
  split; [|congruence]. intros b Hne. by rewrite Ho2, Hacct.
Qed.

Lemma touch_changes : changes touch 0.
Proof.
  intros s o a [Hwf Hl Ha] Hb. unfold wp, touch, append, mbind', mmod, mret'. simpl.
  assert (∀ j, live_at (set_journal j s) o a ∧ others s (set_journal j s) a) as Hj.
  { intros j. split; [split; [by apply (same_state_journal D)|done..]|done]. }
  destruct (so_address o =? ripemd); exists o; (split; [apply Hj|split; [apply Hj|split; [lia|done]]]).
Qed.
Lemma ret_changes : changes (λ _, mret' ()) 0.
Proof. intros s o a Hl Hb. exists o. split_and!; [done|done|lia|done]. Qed.
Lemma touch_if_changes : changes (λ o, if empty o then touch o else mret' ()) 0.
Proof. intros s o a Hl Hb. destruct (empty o); [by apply touch_changes|by apply ret_changes]. Qed.

Lemma AddBalance_changes v bn : changes (so_AddBalance v bn) v.
Proof.
  intros s o a Hl Hb. unfold so_AddBalance. destruct (Z.eqb_spec (Z.sgn v) 0) as [Hz|Hz].
  { assert (v = 0) as -> by lia. by apply touch_if_changes. }
  eapply wp_seq; [by apply method_UpdateSmiloPay|]. intros o1 s1 (Hl1 & Ho1 & Hb1 & Hn1).
  eapply wp_seq; [apply (method_SetBalance _ bn s1 o1 a Hl1); by rewrite Hb1|].
  intros o2 s2 (Hl2 & Ho2 & Hb2 & Hn2). wp_steps. exists o2. split_and!; [done|by eapply others_trans|lia|congruence].
Qed.
Lemma SubBalance_changes v bn : changes (so_SubBalance v bn) (- v).
Proof.
  intros s o a Hl Hb. unfold so_SubBalance. destruct (Z.eqb_spec (Z.sgn v) 0) as [Hz|Hz].
  { assert (v = 0) as -> by lia. by apply ret_changes. }
  eapply wp_seq; [by apply (method_SetBalance _ bn s o a)|].
  intros o2 s2 (Hl2 & Ho2 & Hb2 & Hn2). wp_steps. exists o2. split_and!; [done|done|lia|done].
Qed.
Lemma SubSmiloPay_changes v bn : changes (so_SubSmiloPay v bn) 0.
Proof.
  intros s o a Hl Hb. unfold so_SubSmiloPay. destruct (Z.sgn v =? 0); [by apply ret_changes|].
  eapply wp_seq; [by apply method_UpdateSmiloPay|]. intros o1 s1 (Hl1 & Ho1 & Hb1 & Hn1).
  eapply wp_seq; [apply (method_SetSmiloPay _ s1 o1 a Hl1); by rewrite Hb1|].
  intros o2 s2 (Hl2 & Ho2 & Hb2 & Hn2). wp_steps. exists o2. split_and!; [done|by eapply others_trans|lia|congruence].
Qed.

Lemma wp_AddBalance a v bn s : wf D s → 0 <= bal s a → wp (AddBalance a v bn) (λ _ s', moved s s' (at_ a v)) s.
Proof. intros. by apply changes_run, AddBalance_changes. Qed.
Lemma wp_SubBalance a v bn s : wf D s → 0 <= bal s a → wp (SubBalance a v bn) (λ _ s', moved s s' (at_ a (- v))) s.
Proof. intros. by apply changes_run, SubBalance_changes. Qed.
Lemma wp_SubSmiloPay a v bn s : wf D s → 0 <= bal s a → wp (SubSmiloPay a v bn) (λ _ s', moved s s' (at_ a 0)) s.
Proof. intros. by apply changes_run, SubSmiloPay_changes. Qed.

(** The getters only load. *)
Lemma wp_getStateObject a s : wf D s → wp (getStateObject a) (λ o s', o = peek s a ∧ moved s s' (λ _, 0)) s.
Proof.
  intros Hwf. destruct (getStateObject_run a s) as (s' & Hg & Hs & Hn). apply (wp_of_run _ _ _ _ _ Hg). split; [done|].
  destruct (peek s a) as [o|] eqn:Hp; [|rewrite Hn by done; by apply moved_refl].
  destruct (Hs o eq_refl) as [[->| ->] _]; [by apply moved_refl|]. pose proof (wf_peek D _ _ _ Hwf Hp) as Hok.
  assert (∀ b, acct (upd a o s) b = acct s b) as Hacct.
  { intros b. rewrite acct_upd by apply Hok. case_decide as Hb; [|done]. unfold acct. by rewrite Hb, Hp. }
  split; [|intros b; unfold bal; rewrite Hacct; lia|intros b; unfold nonce; by rewrite Hacct|done].
  apply (same_state_upd D); [done|by apply obj_rel_refl].
Qed.
Lemma wp_GetBalance a s : wf D s → wp (GetBalance a) (λ r s', r = bal s a ∧ moved s s' (λ _, 0)) s.
Proof.
  intros Hwf. eapply wp_seq; [by apply wp_getStateObject|]. intros o s' [-> Hm]. wp_step. split; [|done].
  unfold bal, acct. by destruct (peek s a).
Qed.
Lemma wp_GetNonce a s : wf D s → wp (GetNonce a) (λ r s', r = nonce s a ∧ moved s s' (λ _, 0)) s.
Proof.
  intros Hwf. eapply wp_seq; [by apply wp_getStateObject|]. intros o s' [-> Hm]. wp_step. split; [|done].
  unfold nonce, acct. by destruct (peek s a).
Qed.
Lemma wp_GetSmiloPay a bn s : wf D s → 0 <= bal s a → wp (GetSmiloPay a bn) (λ r s', moved s s' (λ _, 0)) s.
Proof.
  intros Hwf Hb. eapply wp_seq; [by apply wp_getStateObject|]. intros o s' [-> Hm].
  unfold bal, acct in Hb. destruct (peek s a) as [o|]; [|by wp_step]. cbv zeta.
  destruct (CalculateSmiloPay_total (ac_BlockNumber (so_data o)) bn (ac_SmiloPay (so_data o)) _ Hb) as [r ->]. by wp_step.
Qed.

(** [SetNonce]. *)
Lemma wp_SetNonce a n s : wf D s → wp (SetNonce a n)
  (λ _ s', wf D s' ∧ (∀ b, bal s' b = bal s b) ∧ nonce s' a = n ∧ sd_refund s' = sd_refund s) s.
Proof.
  intros Hwf. eapply wp_seq; [by apply wp_GetOrNew|]. intros o s1 (Hl & Hacct & Hr).
  eapply wp_wand; [apply (wp_change _ _ _ s1 o a Hl); by apply set_data_ok, (live_obj_ok s1)|].
  intros x s' (-> & Hl' & Ha & [Ho Hr']). split_and!; [apply Hl'| |by unfold nonce; rewrite Ha|congruence].
  intros b. unfold bal. destruct (decide (b = a)) as [->|]; [|by rewrite Ho, Hacct].
  rewrite Ha, <-Hacct. rewrite <-(live_data _ _ _ Hl). done.
Qed.

(** ** The state transition *)

Implicit Types st : StateTransition.
Lemma wp_on_state {A} (m : M StateDB A) (Q : A → StateTransition → Prop) st :
  wp m (λ a s', Q a (MkST (st_gp st) (st_gas st) (st_initialGas st) s')) (st_state st) → wp (on_state m) Q st.
Proof. unfold wp, on_state. cbn. by destruct (m (st_state st)) as [[? ?]|]. Qed.
Lemma wp_state_seq {A B} (m : M StateDB A) (f : A → M StateTransition B) (P : A → StateDB → Prop) (Q : B → StateTransition → Prop) st :
  wp m P (st_state st) →
  (∀ a s', P a s' → wp (f a) Q (MkST (st_gp st) (st_gas st) (st_initialGas st) s')) → wp (mbind' (on_state m) f) Q st.
Proof. intros Hm Hf. apply wp_bind, wp_on_state. eapply wp_wand; [exact Hm|]. intros a s' Hp. by apply Hf. Qed.

Lemma moved_nonneg s s' a v : moved s s' (at_ a v) → (∀ b, 0 <= bal s b) → 0 <= bal s a + v → ∀ b, 0 <= bal s' b.
Proof. intros Hm Hs Ha b. rewrite (mv_bal _ _ _ Hm). unfold at_. specialize (Hs b). case_decide as Hb; [rewrite Hb|]; lia. Qed.
Lemma moved0_nonneg s s' : moved s s' (λ _, 0) → (∀ b, 0 <= bal s b) → ∀ b, 0 <= bal s' b.
Proof. intros Hm Hs b. rewrite (mv_bal _ _ _ Hm). specialize (Hs b). lia. Qed.

Section transition.
#[local] Set Default Proof Using "All".
Context (evm : EVM) (msg : Message).
Local Abbreviation From := (msg_From msg).
Local Abbreviation Gas := (msg_Gas msg).
Local Abbreviation price := (msg_GasPrice msg).
Hypothesis Hgas : 0 <= Gas < two64.
Hypothesis Hprice : 0 <= price.

(** The gas is bought: the pool and the sender have paid for all of it. *)
Definition bought (st st' : StateTransition) : Prop :=
  st_gp st' = st_gp st - Gas ∧ 0 <= st_gp st' ∧ st_gas st' = Gas ∧ st_initialGas st' = Gas ∧
  moved (st_state st) (st_state st') (at_ From (- (Gas * price))) ∧ (∀ b, 0 <= bal (st_state st') b).

Lemma wp_buyGas st : wf D (st_state st) → (∀ b, 0 <= bal (st_state st) b) → st_gas st = 0 →
  wp (buyGas evm msg) (λ e st', e = None → bought st st') st.
Proof.
  intros Hwf Hnn Hg0. unfold buyGas. cbv zeta.
  eapply wp_state_seq; [by apply wp_GetSmiloPay|]. intros pay s1 Hm1. case_match; [by wp_step|].
  pose proof (moved0_nonneg _ _ Hm1 Hnn) as Hnn1.
  eapply wp_state_seq; [apply wp_GetBalance, Hm1|]. cbn [st_state st_gp st_gas st_initialGas].
  intros balance s2 [-> Hm2]. pose proof (moved0_nonneg _ _ Hm2 Hnn1) as Hnn2.
  destruct (Z.ltb_spec (big_Cmp (bal s1 From) (Gas * price)) 0) as [|Hbal]; [by wp_step|].
  assert (Gas * price <= bal s1 From) as Hcost by (apply Z.nlt_ge; rewrite <-big_Cmp_lt; lia).
  wp_step. unfold SubGas. cbn [st_gp]. destruct (Z.ltb_spec (st_gp st) Gas); [by wp_step|]. wp_step.
  eapply wp_state_seq; [apply wp_SubSmiloPay; [apply Hm2|done]|]. cbn [st_state st_gp st_gas st_initialGas].
  intros [] s3 Hm3. assert (∀ b, 0 <= bal s3 b) as Hnn3.
  { eapply moved_nonneg; [exact Hm3|done|]. specialize (Hnn2 From). lia. }
  eapply wp_state_seq; [apply wp_SubBalance; [apply Hm3|done]|]. cbn [st_state st_gp st_gas st_initialGas].
  intros [] s4 Hm4. wp_steps. intros _. unfold bought. cbn [st_state st_gp st_gas st_initialGas].
  rewrite Hg0. split_and!; [done|lia|by rewrite Z.add_0_l, u64_small|done|..].
  - eapply moved_ext; [|exact (moved_trans _ _ _ _ _ (moved_trans _ _ _ _ _ (moved_trans _ _ _ _ _ Hm1 Hm2) Hm3) Hm4)].
    intros b. simpl. unfold at_. case_decide; lia.
  - eapply moved_nonneg; [exact Hm4|done|]. rewrite (mv_bal _ _ _ Hm3), (mv_bal _ _ _ Hm2).
    unfold at_. rewrite decide_True by done. lia.
Qed.

Lemma wp_preCheck st : wf D (st_state st) → (∀ b, 0 <= bal (st_state st) b) → st_gas st = 0 →
  wp (preCheck evm msg) (λ e st', e = None → bought st st') st.
Proof.
  intros Hwf Hnn Hg0. unfold preCheck. destruct (msg_CheckNonce msg); [|by apply wp_buyGas].
  eapply wp_state_seq; [by apply wp_GetNonce|]. intros n s1 [_ Hm]. case_match; [by wp_step|].
  case_match; [by wp_step|]. eapply wp_wand; [apply wp_buyGas; [apply Hm|by eapply moved0_nonneg|done]|].
  intros e st' Hb He. destruct (Hb He) as (? & ? & ? & ? & Hm' & Hnn'). split_and!; try done.
  eapply moved_ext; [|exact (moved_trans _ _ _ _ _ Hm Hm')]. intros b. simpl. lia.
Qed.

(** After the EVM: [left] gas is left, nothing of it is returned yet. *)
Definition spent (st : StateTransition) (left : Z) : Prop :=
  st_gas st = left ∧ st_initialGas st = Gas ∧ 0 <= left <= Gas ∧ 0 <= st_gp st ∧ st_gp st + Gas < two64 ∧
  wf D (st_state st) ∧ (∀ b, 0 <= bal (st_state st) b) ∧ 0 <= sd_refund (st_state st).

Definition refund_of (left : Z) (counter : Z) : Z := Z.min ((Gas - left) / 2) counter.

Lemma refund_range left counter : 0 <= left <= Gas → 0 <= counter →
  0 <= refund_of left counter <= Gas - left.
Proof.
  intros Hl Hc. unfold refund_of. pose proof (Z.div_pos (Gas - left) 2 ltac:(lia) ltac:(lia)).
  pose proof (Z.mul_div_le (Gas - left) 2 ltac:(lia)). lia.
Qed.

Lemma gasUsed_spent (st : StateTransition) left : st_gas st = left → st_initialGas st = Gas → 0 <= left <= Gas → gasUsed st = Gas - left.
Proof. intros <- Hi Hl. unfold gasUsed. rewrite Hi. apply u64_small. lia. Qed.

Lemma wp_apply_refund st left : spent st left →
  wp apply_refund (λ _ st', st' = set_gas (left + refund_of left (sd_refund (st_state st))) st) st.
Proof.
  intros (Hg & Hi & Hl & Hgp & Hfit & Hwf & Hnn & Hr). unfold apply_refund. wp_step. cbv zeta.
  eapply wp_state_seq.
  { by apply (wp_of_run _ (λ a s', a = sd_refund (st_state st) ∧ s' = st_state st) _ (sd_refund (st_state st)) (st_state st)). }
  intros counter s' [-> ->]. wp_step.
  rewrite (gasUsed_spent st left) by done. pose proof (refund_range left _ Hl Hr) as Hrr. unfold refund_of in *.
  assert ((if sd_refund (st_state st) <? (Gas - left) / 2 then sd_refund (st_state st) else (Gas - left) / 2)
          = Z.min ((Gas - left) / 2) (sd_refund (st_state st))) as ->
    by (destruct (Z.ltb_spec (sd_refund (st_state st)) ((Gas - left) / 2)); lia).
  rewrite Hg, u64_small by lia. destruct st. done.
Qed.

Lemma wp_return_gas st : 0 <= st_gas st → 0 <= st_gp st → st_gp st + st_gas st < two64 →
  wp return_gas (λ _ st', st' = set_gp (st_gp st + st_gas st) st) st.
Proof.
  intros Hg Hgp Hfit. unfold return_gas. wp_step. unfold AddGas.
  destruct (Z.ltb_spec (MaxUint64 - st_gas st) (st_gp st)); [unfold MaxUint64, two64 in *; lia|]. by wp_steps.
Qed.

(** What the two refunds pay. *)
Definition settled (st st' : StateTransition) (left : Z) (d : address → Z) : Prop :=
  let refund := refund_of left (sd_refund (st_state st)) in
  st_gas st' = left + refund ∧ st_initialGas st' = Gas ∧ st_gp st' = st_gp st + left + refund ∧
  moved (st_state st) (st_state st') d ∧ (∀ b, 0 <= bal (st_state st') b).

Lemma wp_refundGas st left : spent st left →
  wp (refundGas evm msg)
     (λ _ st', settled st st' left (at_ From ((left + refund_of left (sd_refund (st_state st))) * price))) st.
Proof.
  intros Hsp. pose proof Hsp as (Hg & Hi & Hl & Hgp & Hfit & Hwf & Hnn & Hr).
  pose proof (refund_range left _ Hl Hr) as Hrr.
  unfold refundGas. eapply wp_seq; [by apply wp_apply_refund|]. intros [] st1 ->. wp_step.
  eapply wp_state_seq; [by apply wp_AddBalance|]. cbn [set_gas st_state st_gp st_gas st_initialGas]. intros [] s2 Hm.
  eapply wp_wand; [apply wp_return_gas; cbn [st_gas st_gp]; lia|]. intros [] st2 ->. unfold settled.
  cbn [set_gp set_gas st_state st_gp st_gas st_initialGas]. split_and!; [done|done|lia|done|].
  eapply moved_nonneg; [exact Hm|done|]. specialize (Hnn From). apply Z.add_nonneg_nonneg; [done|].
  apply Z.mul_nonneg_nonneg; lia.
Qed.

Lemma wp_refundGasSmiloVersion st left : spent st left →
  wp (refundGasSmiloVersion evm msg) (λ _ st', settled st st' left (at_ From ((Gas - left) * price))) st.
Proof.
  intros Hsp. pose proof Hsp as (Hg & Hi & Hl & Hgp & Hfit & Hwf & Hnn & Hr).
  pose proof (refund_range left _ Hl Hr) as Hrr.
  unfold refundGasSmiloVersion. wp_step. rewrite (gasUsed_spent st left) by done.
  eapply wp_state_seq; [by apply wp_AddBalance|]. intros [] s1 Hm.
  assert (∀ b, 0 <= bal s1 b) as Hnn1.
  { eapply moved_nonneg; [exact Hm|done|]. specialize (Hnn From). apply Z.add_nonneg_nonneg; [done|].
    apply Z.mul_nonneg_nonneg; lia. }
  eapply wp_seq.
  { apply (wp_apply_refund _ left). unfold spent. cbn [st_state st_gp st_gas st_initialGas].
    rewrite (mv_refund _ _ _ Hm). split_and!; try done; try apply Hm; lia. }
  intros [] st2 ->. cbn [st_state]. rewrite (mv_refund _ _ _ Hm).
  eapply wp_wand; [apply wp_return_gas; cbn [set_gas st_gas st_gp]; lia|]. intros [] st3 ->. unfold settled.
  cbn [set_gp set_gas st_state st_gp st_gas st_initialGas]. split_and!; [done|done|lia|done..].
Qed.

(** A run of the EVM that keeps the state well-formed, the balances and the
    refund counter non-negative, and spends no more gas than it has. *)
Definition sane (m : M StateDB (bytes * Z * err)) (gas : Z) : Prop :=
  ∀ s, wf D s → (∀ b, 0 <= bal s b) →
    wp m (λ r s', wf D s' ∧ (∀ b, 0 <= bal s' b) ∧ 0 <= r.1.2 <= gas ∧ 0 <= sd_refund s') s.
Record evm_sane : Prop := {
  es_Create from data gas value v : 0 <= gas → sane (evm_Create evm from data gas value v) gas;
  es_Call from to data gas value v : 0 <= gas → sane (evm_Call evm from to data gas value v) gas
}.

(** Gas is free for the sender: the Smilo refund. *)
Definition gas_free (vmerr : err) : bool :=
  bool_decide (vmerr = None) && evm_IsSmilo evm && evm_IsGas evm && evm_IsGasRefunded evm.

(** The accounts of a transaction: [s1], [s2] are the states before and after the
    EVM, which left [left] gas. *)
Record accounting (gp : Z) (s : StateDB) (ret : bytes) (used : Z) (failed : bool) (st' : StateTransition)
    (s1 s2 : StateDB) (left : Z) (vmerr : err) : Prop := {
  acc_run : ∃ data gas, 0 <= left <= gas ∧ gas <= Gas ∧
    match msg_To msg with
    | None => evm_Create evm From data gas (msg_Value msg) false s1
    | Some to => evm_Call evm From to data gas (msg_Value msg) false s1
    end = Some ((ret, left, vmerr), s2);
  acc_paid b : bal s1 b = bal s b + at_ From (- (Gas * price)) b;
  acc_used : used = Gas - left - refund_of left (sd_refund s2);
  acc_pool : st_gp st' = gp - used;
  acc_range : 0 <= used <= Gas ∧ used <= gp;
  acc_failed : failed = negb (bool_decide (vmerr = None));
  acc_balance b : bal (st_state st') b = bal s2 b +
    (if gas_free vmerr then at_ From ((Gas - left) * price) b
     else at_ From ((Gas - used) * price) b + at_ (evm_Coinbase evm) (used * price) b)
}.

(** The step after the EVM. *)
Lemma wp_after_evm st ret left vmerr gp s s1 s2 :
  st_initialGas st = Gas → 0 <= left <= Gas → 0 <= st_gp st → st_gp st = gp - Gas → gp < two64 → st_state st = s2 →
  wf D s2 → (∀ b, 0 <= bal s2 b) → 0 <= sd_refund s2 →
  (∀ b, bal s1 b = bal s b + at_ From (- (Gas * price)) b) →
  (∃ data gas, 0 <= left <= gas ∧ gas <= Gas ∧
    match msg_To msg with
    | None => evm_Create evm From data gas (msg_Value msg) false s1
    | Some to => evm_Call evm From to data gas (msg_Value msg) false s1
    end = Some ((ret, left, vmerr), s2)) →
  wp (after_evm evm msg false ret left vmerr)
     (λ r st', let '(ret', used, failed, e) := r in
        e = None → ret' = ret ∧ accounting gp s ret used failed st' s1 s2 left vmerr) st.
Proof.
  intros Hi Hl Hgp0 Hgp Hfit Hst Hwf Hnn Hr Hpaid Hrun. unfold after_evm. case_bool_decide; [by wp_step; subst|]. wp_step.
  assert (spent (set_gas left st) left) as Hsp.
  { unfold spent. cbn [set_gas st_state st_gp st_gas st_initialGas]. rewrite Hst. split_and!; try done; lia. }
  pose proof (refund_range left _ Hl Hr) as Hrr. fold (gas_free vmerr). destruct (gas_free vmerr) eqn:Hfree.
  - eapply wp_seq; [by apply wp_refundGasSmiloVersion|]. intros [] st' (Hg' & Hi' & Hgp' & Hm & _). do 2 wp_step.
    intros _. split; [done|]. cbn [set_gas st_state st_gp] in *. rewrite Hst in *.
    rewrite (gasUsed_spent st' (left + refund_of left (sd_refund s2))) by (done || lia).
    split; [done|done|lia|lia|lia|done|]. intros b. rewrite Hfree. apply Hm.
  - eapply wp_seq.
    { eapply wp_seq; [by apply wp_refundGas|]. intros [] st1 (Hg' & Hi' & Hgp' & Hm & Hnn1).
      unfold pay_coinbase. wp_step. cbn [set_gas st_state st_gp] in *. rewrite Hst in *.
      rewrite (gasUsed_spent st1 (left + refund_of left (sd_refund s2))) by (done || lia).
      apply wp_on_state. eapply wp_wand; [apply wp_AddBalance; [apply Hm|done]|]. intros [] s3 Hm3.
      instantiate (1 := λ _ st', st_gas st' = left + refund_of left (sd_refund s2) ∧ st_initialGas st' = Gas ∧
        st_gp st' = st_gp st + left + refund_of left (sd_refund s2) ∧ ∀ b, bal (st_state st') b = bal s2 b +
          (at_ From ((left + refund_of left (sd_refund s2)) * price) b +
           at_ (evm_Coinbase evm) ((Gas - (left + refund_of left (sd_refund s2))) * price) b)).
      cbn. split_and!; [done..|]. intros b. rewrite (mv_bal _ _ _ Hm3), (mv_bal _ _ _ Hm). lia. }
    intros [] st' (Hg' & Hi' & Hgp' & Hb). do 2 wp_step. intros _. split; [done|].
    rewrite (gasUsed_spent st' (left + refund_of left (sd_refund s2))) by (done || lia).
    split; [done|done|lia|lia|lia|done|]. intros b. rewrite Hfree, Hb. do 4 f_equal; lia.
Qed.

Definition account_of (gp : Z) (s : StateDB) (r : outcome) (st' : StateTransition) : Prop :=
  let '(ret, used, failed, e) := r in
  e = None → ∃ s1 s2 left vmerr, accounting gp s ret used failed st' s1 s2 left vmerr.

Lemma wp_incrementNonce st : wf D (st_state st) →
  wp (incrementNonce msg) (λ _ st', st_gp st' = st_gp st ∧ st_gas st' = st_gas st ∧ st_initialGas st' = st_initialGas st ∧
    wf D (st_state st') ∧ (∀ b, bal (st_state st') b = bal (st_state st) b)) st.
Proof.
  intros Hwf. unfold incrementNonce. eapply wp_state_seq; [by apply wp_GetNonce|]. intros n s1 [_ Hm].
  apply wp_on_state. eapply wp_wand; [apply wp_SetNonce, Hm|]. intros [] s2 (Hwf2 & Hb2 & _ & _). cbn.
  split_and!; try done. intros b. rewrite Hb2, (mv_bal _ _ _ Hm). lia.
Qed.

Lemma wp_execute gp s st data : evm_sane → bought (MkST gp 0 0 s) st → gp < two64 →
  wp (execute evm msg false data) (account_of gp s) st.
Proof.
  intros Hsane (Hgp & Hgp0 & Hg & Hi & Hm & Hnn) Hfit. cbn [st_gp st_state] in Hgp, Hm. unfold execute.
  rewrite IntrinsicGas_total. set (total := intrinsic_total _ _ _).
  assert (0 <= total) as Htot.
  { unfold total, intrinsic_total, TxGas, TxGasContractCreation. pose proof (nonzero_bytes_range (msg_Data msg)).
    case_match; lia. }
  destruct (Z.leb_spec total MaxUint64); [|by wp_step]. unfold useGas. do 2 wp_step. rewrite Hg.
  destruct (Z.ltb_spec Gas total); [by do 2 wp_step|]. do 3 wp_step. cbn [set_gas st_gas].
  destruct (msg_To msg) as [to|] eqn:Hto.
  - eapply wp_seq; [apply wp_incrementNonce; cbn; apply Hm|]. cbn [set_gas st_gp st_gas st_initialGas st_state].
    intros [] st2 (Hgp2 & Hg2 & Hi2 & Hwf2 & Hb2). rewrite andb_false_r.
    pose proof (es_Call Hsane From to data (Gas - total) (msg_Value msg) false ltac:(lia) (st_state st2) Hwf2) as Hrun.
    specialize (Hrun ltac:(intros b; by rewrite Hb2)). unfold wp in Hrun.
    destruct (evm_Call _ _ _ _ _ _ _ _) as [[[[ret left] vmerr] s2]|] eqn:Hcall; [|done].
    destruct Hrun as (Hwf3 & Hnn3 & Hleft & Hr3). cbn [fst snd] in Hleft.
    eapply wp_state_seq; [by apply (wp_of_run _ (λ x y, x = (ret, left, vmerr) ∧ y = s2) _ _ _ Hcall)|].
    intros ? ? [-> ->]. eapply wp_wand.
    { apply (wp_after_evm _ ret left vmerr gp s (st_state st2) s2); cbn; try done; try lia.
      - intros b. by rewrite Hb2, (mv_bal _ _ _ Hm).
      - exists data, (Gas - total). rewrite Hto. split; [lia|]. split; [lia|exact Hcall]. }
    intros [[[ret' used] failed] e] st' Hacc He. destruct (Hacc He) as [-> ?]. by exists (st_state st2), s2, left, vmerr.
  - pose proof (es_Create Hsane From data (Gas - total) (msg_Value msg) false ltac:(lia) (st_state st)
                  (mv_wf _ _ _ Hm) Hnn) as Hrun. unfold wp in Hrun.
    destruct (evm_Create _ _ _ _ _ _ _) as [[[[ret left] vmerr] s2]|] eqn:Hcall; [|done].
    destruct Hrun as (Hwf3 & Hnn3 & Hleft & Hr3). cbn [fst snd] in Hleft.
    eapply wp_state_seq; [by apply (wp_of_run _ (λ x y, x = (ret, left, vmerr) ∧ y = s2) _ _ _ Hcall)|].
    intros ? ? [-> ->]. eapply wp_wand.
    { apply (wp_after_evm _ ret left vmerr gp s (st_state st) s2); cbn; try done; try lia.
      - intros b. apply (mv_bal _ _ _ Hm).
      - exists data, (Gas - total). rewrite Hto. split; [lia|]. split; [lia|exact Hcall]. }
    intros [[[ret' used] failed] e] st' Hacc He. destruct (Hacc He) as [-> ?]. by exists (st_state st), s2, left, vmerr.
Qed.

Lemma ApplyMessage_accounts gp s : evm_sane → wf D s → (∀ b, 0 <= bal s b) → 0 <= gp < two64 →
  evm_IsSmilo evm && msg_IsVault msg = false →
  ∃ r st', ApplyMessage evm msg gp s = Some (r, st') ∧ account_of gp s r st'.
Proof.
  intros Hsane Hwf Hnn Hgp Hpub.
  enough (wp (TransitionDb evm msg) (account_of gp s) (NewStateTransition gp s)) as Hw.
  { unfold wp in Hw. unfold ApplyMessage. destruct (TransitionDb _ _ _) as [[r st']|]; [eauto|done]. }
  unfold TransitionDb. eapply wp_seq; [by apply wp_preCheck|]. intros e st Hb. rewrite Hpub.
  destruct e as [e|]; [by wp_step|]. apply wp_execute; [done|by apply Hb|lia].
Qed.

(** A public transaction is applied without a panic, whatever its outcome.  When
    it is accepted, the gas used is what the EVM did not leave, less the refund;
    the pool of the block loses exactly that; and the sender gets back either
    the price of the rest, the coinbase the price of the used gas, or, when gas is
    refunded, the price of what the EVM used. *)
Theorem transaction_accounting gp s : evm_sane → wf D s → (∀ b, 0 <= bal s b) → 0 <= gp < two64 →
  evm_IsSmilo evm && msg_IsVault msg = false →
  ∃ r st', ApplyMessage evm msg gp s = Some (r, st') ∧ account_of gp s r st'.
Proof. apply ApplyMessage_accounts. Qed.

End transition.
End balances.
