(* ===== verification/EngineExamples.v ===== *)
(** * A small chain

    A genesis block with four fullnodes, and a first block that node 1 prepares,
    finalizes and seals, that three fullnodes commit, and that every node
    accepts: concrete inputs for the theorems on headers, snapshots and the
    engine. *)

From Stdlib Require Import ZArith Lia.
From S2P Require Import Prelude Errors Rlp Fullnode Messages Core Header Snapshot.
From S2P Require Import Engine EngineSnapshot EngineVerify EngineOps EngineMine Prque Instances.
Open Scope didux_scope.

Definition chain_cfg : EngineConfig := MkEngineConfig 1 0 30000 1 None 1000000.

Definition extra_of (fullnodes : list address) : bytes :=
  replicate SportExtraVanity x00 ++ default [] (SportExtra_bytes (MkSportExtra fullnodes [] [])).
Definition genesis : Header :=
  MkHeader 0 nilUncleHash 0 0 0 0 0 (Some defaultDifficulty) (Some 0) 8000000 0 1000
    (extra_of sample_nodes) SportDigest emptyNonce.
Definition genesis_extra : SportExtra := MkSportExtra sample_nodes [] [].

(** A node's view of the chain [genesis], [hs] at second [now]; node [a] signs. *)
Definition chain_env (hs : list Header) (now : Z) (a : address) : Env :=
  let chain := genesis :: hs in
  let get h n := match chain !! Z.to_nat n with
                 | Some x => if (0 <=? n) && (Header_Hash x =? h) then Some x else None
                 | None => None
                 end in
  MkEnv get (λ n, chain !! Z.to_nat n) (λ _, None) (last chain) None (now * 1000000000) (λ _, 0%nat)
    (inl (λ _, 0)) (λ _, inl (sample_sign a)) (λ _, None) None id.
Definition fresh (a : address) : backend := MkBackendState chain_cfg a ∅ ∅ ∅ false 0.

(** ** The first block *)

Definition no_sha (txs : list Z) : hash := 77.
Definition no_bloom (txs : list Z) : Z := 0.
Definition no_root (state : gmap Z Z) : hash := 88.
Definition env0 : Env := chain_env [] 2000 1.
Definition blank : Header :=
  MkHeader (Header_Hash genesis) 0 0 0 0 0 0 None (Some 1) 8000000 0 0 [] 0 0.

Definition prepared_of (r : option (Header * err * backend)) : Header * backend :=
  match r with Some ((h, None), b) => (h, b) | _ => (blank, fresh 1) end.
Definition final_of (r : option (Block Z * Header * gmap Z Z)) : Block Z * Header * gmap Z Z :=
  match r with Some r => r | None => (MkBlock blank [] [], blank, ∅) end.
Definition posted_of (r : option (seal_outcome Z * list (Block Z) * backend)) : Block Z :=
  match r with Some ((_, [block]), _) => block | _ => MkBlock blank [] [] end.
Definition committed_of (r : err * list (commit_output Z)) : Block Z :=
  match r with (None, [Enqueue block]) => block | _ => MkBlock blank [] [] end.

Definition prepared1 : Header * backend := prepared_of (Prepare env0 blank (fresh 1)).
Definition final1 : Block Z * Header * gmap Z Z :=
  final_of (Finalize no_sha no_sha no_bloom no_root chain_cfg prepared1.1 ∅ [] ([] : list Z)).
Definition posted1 : Block Z := posted_of (Seal env0 final1.1.1 false [] prepared1.2).
Definition seals1 : list bytes := sample_sign <$> [1; 2; 3].
Definition block1 : Block Z := committed_of (Commit true (fresh 2) posted1 seals1).
Definition header1 : Header := blk_header block1.

(** ** The chains of length 0 and 1 *)

Lemma genesis_extract : ExtractSportExtra genesis = inl genesis_extra.
Proof. vm_compute. reflexivity. Qed.
Lemma genesis_valid hs now a : 1000 <= now < 2 ^ 33 → verifyHeader_standalone (chain_env hs now a) genesis = None.
Proof.
  intros Hnow. unfold verifyHeader_standalone. cbn [genesis h_Number].
  assert (e_now (chain_env hs now a) = now) as -> by (unfold e_now; simpl; apply Z.div_mul; lia).
  change (i64 (h_Time genesis)) with 1000.
  destruct (Z.ltb_spec 0 (big_Cmp 1000 now)) as [Hlt|_]; [|by rewrite genesis_extract].
  rewrite (big_Cmp_gt 1000 now) in Hlt. lia.
Qed.

Lemma nodes_nodup : NoDup sample_nodes.
Proof. apply (bool_decide_unpack _). vm_compute. exact I. Qed.

Lemma chain0_ok now a : 1000 <= now < 2 ^ 33 → chain_ok (chain_env [] now a) chain_cfg genesis genesis_extra [].
Proof.
  intros Hnow. split; try done.
  - by apply genesis_valid.
  - exact nodes_nodup.
  - simpl. intros i j Hi Hj _. lia.
Qed.

Definition snapshot0 : Snapshot := genesis_snapshot chain_cfg genesis genesis_extra.

Lemma fresh_ok hs a : caches_ok chain_cfg genesis genesis_extra hs (fresh a).
Proof.
  split; [done|..]; intros k s _ Hs; [|unfold loadSnapshot in Hs]; cbn [fresh b_recents b_db] in Hs;
  by rewrite lookup_empty in Hs.
Qed.

Lemma head0 now a : 1000 <= now < 2 ^ 33 →
  on_head (chain_env [] now a) chain_cfg genesis genesis_extra [] 0 genesis snapshot0 (fresh a).
Proof.
  intros Hnow. split; [by apply chain0_ok|apply fresh_ok|lia|done| |exact eq_refl..].
  cbn [hash_at chain_env e_GetHeader]. change (Z.to_nat (Z.of_nat 0)) with 0%nat. cbn [lookup list_lookup].
  by rewrite Z.eqb_refl.
Qed.

(** ** Mining *)

Lemma prepared_inj {A B C} (x y : A) (e : B) (b b' : C) :
  Some ((x, e), b) = Some ((y, e), b') → x = y ∧ b = b'.
Proof. by intros [= -> ->]. Qed.
Lemma prepared1_eq : Prepare env0 blank (fresh 1) = Some ((prepared1.1, None), prepared1.2).
Proof. vm_compute. reflexivity. Qed.
Lemma final1_eq : Finalize no_sha no_sha no_bloom no_root chain_cfg prepared1.1 ∅ [] ([] : list Z) =
  Some (final1.1.1, final1.1.2, final1.2).
Proof. vm_compute. reflexivity. Qed.
Lemma posted1_eq : ∃ o b, Seal env0 final1.1.1 false [] prepared1.2 = Some ((o, [posted1]), b).
Proof. eexists _, _. vm_compute. reflexivity. Qed.

Lemma mined_block_accepted_witness :
  ∃ b2, Verify no_sha (chain_env [] 2001 2) posted1 (fresh 2) = Some ((0, None), b2).
Proof.
  destruct (mined_block_accepted no_sha no_sha no_bloom env0 (chain_env [] 2001 2) chain_cfg genesis
              genesis_extra [] 0 genesis snapshot0 blank
              (default [] (SportExtra_bytes (MkSportExtra (fullnodes snapshot0) [] []))) (λ _, 0)
              (fresh 1) (fresh 2)) as (h1 & b1 & Hprep & Hall).
  - apply head0. lia.
  - apply head0. lia.
  - vm_compute. split; [discriminate|reflexivity].
  - vm_compute. split; [discriminate|reflexivity].
  - reflexivity.
  - reflexivity.
  - vm_compute. reflexivity.
  - reflexivity.
  - intros d sig [= <-]. vm_compute. reflexivity.
  - rewrite prepared1_eq in Hprep. destruct (prepared_inj _ _ _ _ _ Hprep) as [<- <-].
    destruct posted1_eq as (o & b2 & Hseal).
    apply (Hall no_root ∅ [] [] final1.1.1 final1.1.2 final1.2 false [] o posted1 b2).
    + exact final1_eq.
    + exact Hseal.
    + vm_compute. discriminate.
    + reflexivity.
Defined.

(** ** Committing *)

Lemma posted1_child : child_of chain_cfg 0 genesis (blk_header posted1).
Proof. split; vm_compute; first [reflexivity|by right|discriminate]. Qed.
Lemma posted1_signer : ecrecover (blk_header posted1) = inl 1 ∧ 1 ∈ fs_fullnodes (s_FullnodeSet snapshot0).
Proof. split; [vm_compute; reflexivity|]. apply (bool_decide_unpack _). vm_compute. exact I. Qed.
Lemma posted1_sealed : quorum_sealed snapshot0 (blk_header posted1) seals1.
Proof.
  exists [1; 2; 3]. split_and!.
  - repeat constructor; vm_compute; reflexivity.
  - apply (bool_decide_unpack _). vm_compute. exact I.
  - change (fs_fullnodes (s_FullnodeSet snapshot0)) with (fs_fullnodes sample_set).
    assert (fs_fullnodes sample_set = [1; 2; 3; 4]) as -> by (vm_compute; reflexivity). set_solver.
  - discriminate.
  - vm_compute. discriminate.
Qed.
Lemma block1_eq : Commit true (fresh 2) posted1 seals1 = (None, [Enqueue block1]).
Proof. vm_compute. reflexivity. Qed.

Lemma committed_block_accepted_witness :
  Block_Hash (output_block (Enqueue block1)) = Block_Hash posted1 ∧
  ∃ b2, VerifyHeader (chain_env [] 2001 3) (blk_header (output_block (Enqueue block1))) (fresh 3) = Some (inl (), b2).
Proof.
  apply (committed_block_accepted (T:=Z) (chain_env [] 2001 3) chain_cfg genesis
           genesis_extra [] 0 genesis snapshot0 true (fresh 2) posted1 1 seals1 [Enqueue block1]
           (Enqueue block1) (fresh 3)).
  - apply head0. lia.
  - exact posted1_child.
  - vm_compute. discriminate.
  - exact (proj1 posted1_signer).
  - exact (proj2 posted1_signer).
  - exact posted1_sealed.
  - exact block1_eq.
  - apply list_elem_of_singleton. reflexivity.
Defined.

Lemma VerifyHeader_sound_witness :
  accepted (chain_env [] 2001 3) chain_cfg 0 genesis (fs_fullnodes (s_FullnodeSet snapshot0)) header1.
Proof.
  assert (∃ b', VerifyHeader (chain_env [] 2001 3) header1 (fresh 3) = Some (inl (), b')) as [b' Hv]
    by (eexists; vm_compute; reflexivity).
  apply (VerifyHeader_sound (chain_env [] 2001 3) chain_cfg genesis genesis_extra [] 0 genesis snapshot0
           header1 (fresh 3) b').
  - apply head0. lia.
  - vm_compute. reflexivity.
  - vm_compute. reflexivity.
  - exact Hv.
Defined.

(** A second block on genesis, sealed by other fullnodes. *)
Definition final2 : Block Z * Header * gmap Z Z :=
  final_of (Finalize no_sha no_sha no_bloom (λ _, 99) chain_cfg prepared1.1 ∅ [] ([] : list Z)).
Definition block2 : Block Z :=
  committed_of (Commit true (fresh 2) (posted_of (Seal env0 final2.1.1 false [] prepared1.2))
                  (sample_sign <$> [2; 3; 4])).
Definition header2 : Header := blk_header block2.

Lemma conflicting_blocks_accountable_witness :
  let l := fs_fullnodes (s_FullnodeSet snapshot0) in
  Header_Hash header1 ≠ Header_Hash header2 ∧
  ∃ q, sealed_by l header1 q ∧ sealed_by l header2 q ∧ Z.of_nat (length l) <= 3 * Z.of_nat (size q).
Proof.
  assert (∃ b', VerifyHeader (chain_env [] 2001 3) header1 (fresh 3) = Some (inl (), b')) as [b1 Hv1]
    by (eexists; vm_compute; reflexivity).
  assert (∃ b', VerifyHeader (chain_env [] 2001 4) header2 (fresh 4) = Some (inl (), b')) as [b2 Hv2]
    by (eexists; vm_compute; reflexivity).
  intros l. split; [vm_compute; discriminate|].
  apply (conflicting_blocks_accountable (chain_env [] 2001 3) (chain_env [] 2001 4) chain_cfg genesis
           genesis_extra [] 0 genesis snapshot0 header1 header2 (fresh 3) (fresh 4) b1 b2).
  - apply head0. lia.
  - apply head0. lia.
  - vm_compute. reflexivity.
  - vm_compute. reflexivity.
  - vm_compute. reflexivity.
  - vm_compute. reflexivity.
  - intros env fork [-> | ->] Hf; discriminate Hf.
  - exact Hv1.
  - exact Hv2.
Defined.

(** ** The chain with its first block *)

Lemma hash_at_0 g hs : hash_at g hs 0 = Header_Hash g.
Proof. reflexivity. Qed.
Lemma hash_at_1 g h : hash_at g [h] 1 = Header_Hash h.
Proof. reflexivity. Qed.

Lemma chain1_ok now a : 1000 <= now < 2 ^ 33 →
  chain_ok (chain_env [header1] now a) chain_cfg genesis genesis_extra [header1].
Proof.
  intros Hnow. assert (Header_Hash genesis ≠ Header_Hash header1) as Hne by (vm_compute; discriminate).
  constructor.
  - exact eq_refl.
  - exact eq_refl.
  - exact (genesis_valid _ _ _ Hnow).
  - exact genesis_extract.
  - exact nodes_nodup.
  - intros [|i] h Hh; [|by destruct i]. change (Some header1 = Some h) in Hh. apply (inj Some) in Hh as <-.
    split; [vm_compute; reflexivity|]. split; [vm_compute; reflexivity|].
    cbn [chain_env e_GetHeader]. change (Z.to_nat (Z.of_nat 1)) with 1%nat. cbn [lookup list_lookup].
    by rewrite Z.eqb_refl.
  - reflexivity.
  - intros [|[|i]] [|[|j]] Hi Hj; cbn in Hi, Hj; try (intros _; lia); intros Heq.
    + rewrite hash_at_0, hash_at_1 in Heq. exact (False_ind _ (Hne Heq)).
    + rewrite hash_at_0, hash_at_1 in Heq. exact (False_ind _ (Hne (eq_sym Heq))).
  - discriminate.
  - intros h. exact eq_refl.
  - intros m k s Hs. exact Hs.
Qed.

Lemma snapshot_correct_witness : ∃ rs b',
  snapshots (chain_env [header1] 3000 2) genesis [header1] [1; 0; 1]%nat (fresh 2) = Some (rs, b') ∧
  Forall2 (right_answer chain_cfg genesis genesis_extra [header1]) [1; 0; 1]%nat rs.
Proof.
  apply (snapshot_correct (chain_env [header1] 3000 2) chain_cfg genesis genesis_extra [header1]
           (chain1_ok 3000 2 ltac:(lia)) [1; 0; 1]%nat (fresh 2)).
  - reflexivity.
  - reflexivity.
  - reflexivity.
  - repeat constructor.
Defined.

(** ** Hashes and seals *)

Lemma writeCommittedSeals_hash_witness :
  Header_Hash header1 = Header_Hash (blk_header posted1) ∧ sigHash header1 = sigHash (blk_header posted1) ∧
  ∃ e, ExtractSportExtra (blk_header posted1) = inl e ∧
       ExtractSportExtra header1 = inl (MkSportExtra (ex_Fullnodes e) (ex_Seal e) seals1).
Proof.
  apply (writeCommittedSeals_hash (blk_header posted1) seals1 header1).
  - vm_compute. reflexivity.
  - vm_compute. reflexivity.
Defined.

(** What is hashed of a header. *)
Definition hashed (h : Header) : Header := default h (SportFilteredHeader h true).
Definition hashed_bytes (h : Header) : bytes := default [] (Header_bytes (hashed h)).
Definition extracted (h : Header) : SportExtra :=
  match ExtractSportExtra h with inl e => e | inr _ => MkSportExtra [] [] [] end.
Definition is_sport (h : Header) : bool :=
  (h_MixDigest h =? SportDigest)
  && match ExtractSportExtra h, SportFilteredHeader h true with inl _, Some _ => true | _, _ => false end
  && match Header_bytes (hashed h) with Some _ => true | None => false end.
Lemma sport_of h : is_sport h = true → sport_header h (extracted h) (hashed h) (hashed_bytes h).
Proof.
  unfold is_sport, hashed_bytes, extracted. intros [[Hd%Z.eqb_eq He]%andb_prop Hb]%andb_prop.
  destruct (ExtractSportExtra h) eqn:Hx; [|done]. destruct (SportFilteredHeader h true) eqn:Hf; [|done].
  split; try done.
  - unfold hashed. by rewrite Hf.
  - by destruct (Header_bytes (hashed h)).
Qed.

(** The committed seals are the only difference the hash does not see. *)
Lemma Header_Hash_binds_witness :
  set_Extra (CopyHeader header1) [] = set_Extra (CopyHeader (blk_header posted1)) [] ∧
  take SportExtraVanity (h_Extra header1) = take SportExtraVanity (h_Extra (blk_header posted1)) ∧
  ex_Fullnodes (extracted header1) = ex_Fullnodes (extracted (blk_header posted1)) ∧
  ex_Seal (extracted header1) = ex_Seal (extracted (blk_header posted1)).
Proof.
  apply (Header_Hash_binds header1 (extracted header1) (hashed header1) (hashed_bytes header1)
           (blk_header posted1) (extracted (blk_header posted1)) (hashed (blk_header posted1))
           (hashed_bytes (blk_header posted1))).
  - apply sport_of. vm_compute. reflexivity.
  - apply sport_of. vm_compute. reflexivity.
  - intros _. vm_compute. reflexivity.
  - vm_compute. reflexivity.
Defined.

Lemma in_aba {A} (x y : A) h : h ∈ [x; y; x] → h = x ∨ h = y.
Proof. set_solver. Qed.
Definition looked_up : list Header := [header1; header2; header1].
Lemma looked_up_no_collision : no_collision looked_up.
Proof.
  assert (∀ h, h ∈ looked_up → h = header1 ∨ h = header2) as Hin by exact (in_aba header1 header2).
  assert (sport_header header1 (extracted header1) (hashed header1) (hashed_bytes header1)) as Hs1
    by (apply sport_of; vm_compute; reflexivity).
  assert (sport_header header2 (extracted header2) (hashed header2) (hashed_bytes header2)) as Hs2
    by (apply sport_of; vm_compute; reflexivity).
  assert (Keccak256 (hashed_bytes header1) ≠ Keccak256 (hashed_bytes header2)) as Hne
    by (vm_compute; discriminate).
  intros h1 h2 [->| ->]%Hin [->| ->]%Hin; eexists _, _, _, _, _, _.
  - exact (conj Hs1 (conj Hs1 (λ _, eq_refl))).
  - exact (conj Hs1 (conj Hs2 (λ H, False_ind _ (Hne H)))).
  - exact (conj Hs2 (conj Hs1 (λ H, False_ind _ (Hne (eq_sym H))))).
  - exact (conj Hs2 (conj Hs2 (λ _, eq_refl))).
Qed.
Lemma ecrecover_cached_correct_witness :
  ecrecover_all id ∅ looked_up = ecrecover <$> looked_up ∧ ecrecover <$> looked_up = [inl 1; inl 1; inl 1].
Proof.
  split; [|vm_compute; reflexivity].
  apply (ecrecover_cached_correct id); [intros c k a Hc; exact Hc|exact looked_up_no_collision].
Defined.

Lemma updateBlock_recovers_witness : ecrecover (blk_header posted1) = inl 1.
Proof.
  apply (updateBlock_recovers (λ _, inl (sample_sign 1)) 1 (CopyHeader (blk_header final1.1.1))).
  - intros d sig Hsig. apply (inj inl) in Hsig as <-. vm_compute. reflexivity.
  - vm_compute. reflexivity.
Defined.

(** ** Votes *)

(** Three fullnodes; [a] votes, in block [n], to add candidate 9. *)
Definition voters : fullnodeSet := newFullnodeSet [1; 2; 3] 0.
Definition vote_block (a n : Z) : Header :=
  let h := MkHeader 0 nilUncleHash 9 0 0 0 0 (Some defaultDifficulty) (Some n) 8000000 0 (1000 + n)
             (extra_of [1; 2; 3]) SportDigest nonceAuthVote in
  match updateBlock (λ _, inl (sample_sign a)) h with inl h => h | inr _ => h end.
Definition snap_of (r : option (result Snapshot)) : Snapshot :=
  match r with Some (inl s) => s | _ => newSnapshot 30000 0 0 voters end.
Definition votes0 : Snapshot := newSnapshot 30000 0 0 voters.
Definition votes1 : Snapshot := snap_of (apply_header 30000 votes0 (vote_block 1 1)).
Definition votes2 : Snapshot := snap_of (apply_header 30000 votes1 (vote_block 2 2)).

Lemma votes0_wf : snap_wf votes0.
Proof. apply newSnapshot_wf, newFullnodeSet_wf. apply (bool_decide_unpack _). vm_compute. exact I. Qed.
Lemma votes1_eq : apply_header 30000 votes0 (vote_block 1 1) = Some (inl votes1).
Proof. vm_compute. reflexivity. Qed.
Lemma votes2_eq : apply_header 30000 votes1 (vote_block 2 2) = Some (inl votes2).
Proof. vm_compute. reflexivity. Qed.

Lemma set_change_needs_majority_witness :
  ∃ signer (V : gset address), ecrecover (vote_block 2 2) = inl signer ∧
    (V ⊆ members (s_FullnodeSet votes1)) ∧ Size (s_FullnodeSet votes1) / 2 < Z.of_nat (size V) ∧
    fs_fullnodes (s_FullnodeSet votes2) = [1; 2; 3; 9].
Proof.
  destruct (set_change_needs_majority 30000 votes1 (vote_block 2 2) votes2) as (signer & V & Hs & HV & Hm & _).
  - exact (apply_header_wf 30000 votes0 (vote_block 1 1) votes1 votes0_wf votes1_eq).
  - exact votes2_eq.
  - vm_compute. discriminate.
  - exists signer, V. split; [exact Hs|]. split; [exact HV|]. split; [exact Hm|]. vm_compute. reflexivity.
Defined.

Lemma apply_app_witness :
  erase_res (apply votes0 ([vote_block 1 1] ++ [vote_block 2 2])) =
  erase_res (apply (snap_of (apply votes0 [vote_block 1 1])) [vote_block 2 2]).
Proof.
  apply (apply_app votes0 [vote_block 1 1] [vote_block 2 2] (snap_of (apply votes0 [vote_block 1 1])) [1] [2]).
  - exact votes0_wf.
  - vm_compute. split; [discriminate|reflexivity].
  - repeat constructor.
  - repeat constructor.
  - vm_compute. reflexivity.
Defined.

(** ** Rewards and gossip *)

Lemma AccumulateRewards_supply_witness :
  supply (AccumulateRewards (reverse smiloTokenMetricsTable) (Some 5) {[7 := 10]} 30000000 7) =
  supply {[7 := 10]} + (scheduled_reward 30000000 + scheduled_reward 30000000 / 4).
Proof.
  apply (AccumulateRewards_supply (reverse smiloTokenMetricsTable) (Some 5) {[7 := 10]} 30000000 7).
  apply reverse_Permutation.
Defined.
Lemma scheduled_reward_bounds_witness :
  0 <= scheduled_reward 1700000000 <= scheduled_reward 1600000000 ∧
  scheduled_reward 1600000000 <= 4 * 1000000000000000000 ∧
  (1600000000 <= 1600000000 → scheduled_reward 1600000000 = 0).
Proof. apply (scheduled_reward_bounds 1600000000 1700000000). lia. Defined.

(** Caches that drop everything when they are full. *)
Definition small_arc : arc :=
  MkArc (λ s, if bool_decide (size s <= inmemoryMessages)%nat then s else ∅)
        (λ m, if bool_decide (size m <= inmemoryPeers)%nat then m else ∅).
Lemma small_arc_ok : arc_ok small_arc.
Proof.
  split; simpl.
  - intros s. case_bool_decide; set_solver.
  - intros s Hs. by rewrite bool_decide_eq_true_2.
  - intros m a s. case_bool_decide; [done|]. by rewrite lookup_empty.
  - intros m Hm. by rewrite bool_decide_eq_true_2.
Qed.

Lemma Gossip_delivers_witness :
  let sent := (Gossip small_arc 1 (Some {[2; 3; 7]}) sample_set [x01] (MkGossip ∅ ∅)).2 in
  NoDup sent ∧
  (∀ a, a ∈ sent → a ≠ 1 ∧ a ∈ fs_List sample_set ∧ a ∈ ({[2; 3; 7]} : gset Z)) ∧
  (∀ a, a ≠ 1 → a ∈ fs_List sample_set → a ∈ ({[2; 3; 7]} : gset Z) →
        RLPHash [x01] ∉ default ∅ ((∅ : gmap Z (gset Z)) !! a) → a ∈ sent).
Proof. apply (Gossip_delivers small_arc 1 {[2; 3; 7]} sample_set [x01] (MkGossip ∅ ∅)). exact small_arc_ok. Defined.

Definition received : list (address * bytes) := [(2, [x01]); (3, [x01]); (2, [x02]); (3, [x02]); (4, [x01])].
Lemma HandleMsg_posts_once_witness :
  let posted := (handle_all small_arc (MkGossip ∅ ∅) received).2 in
  NoDup (RLPHash <$> posted) ∧ posted ⊆ received.*2 ∧
  (∀ d, d ∈ received.*2 → RLPHash d ∈ RLPHash <$> posted).
Proof.
  apply (HandleMsg_posts_once small_arc received small_arc_ok). apply Nat.leb_le. vm_compute. reflexivity.
Defined.

(** ** A block dated in the far future *)

Definition future_parent : Header :=
  MkHeader 0 nilUncleHash 0 0 0 0 0 (Some defaultDifficulty) (Some 5) 8000000 0 two63
    (extra_of sample_nodes) SportDigest emptyNonce.
Definition future_env : Env :=
  MkEnv (λ h n, if (h =? Header_Hash future_parent) && (n =? 5) then Some future_parent else None)
    (λ _, None) (λ _, None) None None (2000 * 1000000000) (λ _, 0%nat)
    (inl (λ _, 0)) (λ _, inl (sample_sign 1)) (λ _, None) None id.
Definition future_child : Header :=
  MkHeader (Header_Hash future_parent) nilUncleHash 0 0 0 0 0 (Some defaultDifficulty) (Some 6) 8000000 0
    (next_Time future_env (fresh 1) future_parent) (extra_of sample_nodes) SportDigest emptyNonce.

Lemma far_future_parent_halts_witness :
  i64 (h_Time future_parent) < 0 ∧
  verifyCascadingFields future_env (snapshot future_env) future_child [] (fresh 2) =
    Some (inr errInvalidTimestamp, fresh 2).
Proof.
  apply (far_future_parent_halts future_env future_env chain_cfg 5 future_parent (fresh 1) (fresh 2)
           (snapshot future_env) future_child).
  - reflexivity.
  - reflexivity.
  - discriminate.
  - vm_compute. split; [discriminate|reflexivity].
  - vm_compute. discriminate.
  - vm_compute. reflexivity.
  - vm_compute. reflexivity.
  - vm_compute. reflexivity.
  - reflexivity.
  - reflexivity.
  - reflexivity.
  - reflexivity.
Defined.
