(* ===== verification/StateExamples.v ===== *)
(** * Transactions on a small state

    Two accounts, an EVM that burns half of the gas it is given, and a sequence
    of nested snapshots: concrete inputs for the theorems on the state database
    and on the gas accounting. *)

From Stdlib Require Import ZArith Lia.
From S2P Require Import Prelude Errors Rlp Fullnode Messages SmiloPay StateDB StateRevert EngineVerify.
From S2P Require Import StateTransition StateLaws Core Prque Instances.
Open Scope didux_scope.

Definition memory_db : Database := MkDatabase (λ _, ∅) (λ _, None) (λ m, Z.of_nat (size m)).

Definition rich : Account := MkAccount 0 (1000 * ether) 5000000000000000 1 0 emptyCodeHash.
Definition poor : Account := MkAccount 3 7 0 1 0 emptyCodeHash.
Definition state0 : StateDB := StateDB_New {[11 := rich; 12 := poor]}.

Lemma state0_wf : wf memory_db state0.
Proof. destruct (New_good memory_db {[11 := rich; 12 := poor]}) as [G HG]. apply HG. Qed.
Lemma state0_balances b : 0 <= bal state0 b.
Proof.
  unfold bal, acct, peek, state0. cbn [StateDB_New sd_stateObjects sd_trie]. rewrite lookup_empty.
  destruct (decide (b = 11)) as [->|]; [vm_compute; discriminate|].
  destruct (decide (b = 12)) as [->|]; [vm_compute; discriminate|].
  rewrite lookup_insert_ne, lookup_singleton_ne by done. vm_compute. discriminate.
Qed.

(** ** Reverting *)

Definition edits : list op :=
  [OAddBalance 12 500 2; OSetState 12 1 77; OSnapshot; OSuicide 11; OCreateAccount 12; OSetCode 12 [x01; x02];
   ORevertToSnapshot 1; OAddRefund 9; OSetNonce 13 4; OSubBalance 11 ether 3].
Definition state_of (r : option (() * StateDB)) : StateDB := match r with Some (_, s) => s | None => state0 end.
Definition state1 : StateDB :=
  match StateDB_Snapshot state0 with Some (_, s) => s | None => state0 end.
Definition state2 : StateDB := state_of (exec_all memory_db edits state1).

Lemma RevertToSnapshot_restores_witness : ∃ s3,
  RevertToSnapshot 0 state2 = Some ((), s3) ∧
  (∀ a key bn, observe memory_db s3 a key bn = observe memory_db state0 a key bn) ∧
  sd_logSize s3 = sd_logSize state0 ∧ bal state2 12 = 507.
Proof.
  destruct (RevertToSnapshot_restores memory_db state0 0 state1 edits state2) as (s3 & Hr & _ & Ho & _ & Hl & _).
  - apply New_good.
  - reflexivity.
  - vm_compute. reflexivity.
  - apply (bool_decide_unpack _). vm_compute. exact I.
  - exists s3. split; [exact Hr|]. split; [exact Ho|]. split; [exact Hl|]. vm_compute. reflexivity.
Defined.

(** ** Transactions *)

(** Any call or creation leaves half of its gas and counts a refund. *)
Definition half_run (gas : Z) : M StateDB (bytes * Z * err) :=
  do! AddRefund 100 in mret' ([], gas / 2, None).
Definition half_evm (refunded : bool) : EVM :=
  MkEVM 10 99 true true true refunded None (λ _ _ gas _ _, half_run gas) (λ _ _ _ gas _ _, half_run gas).

Lemma half_run_sane gas : 0 <= gas → sane memory_db (half_run gas) gas.
Proof.
  intros Hg s Hwf Hnn. unfold wp, half_run, mbind'.
  destruct (AddRefund 100 s) as [[[] s']|] eqn:Hr; [|done]. pose proof Hr as Hs.
  apply (AddRefund_steps memory_db 100 s () s' Hwf) in Hs. injection Hr as <-. split_and!.
  - exact (ok_wf _ _ _ Hs).
  - exact Hnn.
  - simpl. apply Z.div_pos; lia.
  - simpl. apply Z.div_le_upper_bound; lia.
  - simpl. apply u64_range.
Qed.
Lemma half_evm_sane refunded : evm_sane memory_db (half_evm refunded).
Proof. split; intros; by apply half_run_sane. Qed.

Definition payment : Message := StateTransition.MkMessage 11 (Some 12) 1000 100000 5 0 true [x01; x00] false.

Lemma transaction_accounting_witness : ∃ r st',
  ApplyMessage (half_evm false) payment 8000000 state0 = Some (r, st') ∧
  account_of (half_evm false) payment 8000000 state0 r st'.
Proof.
  apply (transaction_accounting memory_db (half_evm false) payment).
  - vm_compute. split; [discriminate|reflexivity].
  - vm_compute. discriminate.
  - exact (half_evm_sane false).
  - exact state0_wf.
  - exact state0_balances.
  - vm_compute. split; [discriminate|reflexivity].
  - reflexivity.
Defined.


Lemma SmiloPay_grows_to_max_witness : ∃ max balanceSmilo r,
  MaxSmiloPay (1000 * ether) = Some (max, balanceSmilo) ∧
  CalculateSmiloPay 1 10 5000000000000000 (1000 * ether) = Some r ∧
  (10 <= 1 → r = 5000000000000000) ∧
  (1 < 10 → r <= max ∧ (5000000000000000 <= max → 5000000000000000 <= r)).
Proof.
  apply (SmiloPay_grows_to_max 1 10 5000000000000000 (1000 * ether)).
  - vm_compute. split; [discriminate|reflexivity].
  - vm_compute. split; [discriminate|reflexivity].
  - vm_compute. reflexivity.
Defined.
