(* ===== verification/VmWord.v ===== *)
(** * 256-bit words: common/math of go-ethereum and core/vm/common.go

    A [big.Int] is a [Z]; an EVM word is one in [0 .. 2^256).  The helpers below
    are those the virtual machine calls: truncation, the signed view of a word,
    exponentiation by squaring, single bytes, checked [uint64] arithmetic,
    sizes of memory regions, padded slices. *)

From Stdlib Require Import ZArith Lia.
From S2P Require Import Prelude Errors Rlp Fullnode.
Open Scope didux_scope.

(** ** math/big *)

Definition big_BitLen (x : Z) : Z := if x =? 0 then 0 else Z.log2 (Z.abs x) + 1.
Definition big_IsUint64 (x : Z) : bool := (0 <=? x) && (x <? two64).

(** [Bits]: the 64-bit words of the absolute value, the least significant first,
    without leading zero words. *)
Definition big_Bits (x : Z) : list Z :=
  map (λ i, Z.shiftr (Z.abs x) (64 * Z.of_nat i) mod two64) (seq 0 (Z.to_nat ((big_BitLen x + 63) / 64))).

(** ** common/math/big.go, integer.go *)

Definition tt255 : Z := 2 ^ 255.
Definition tt256 : Z := 2 ^ 256.
Definition tt256m1 : Z := tt256 - 1.

Definition U256 (x : Z) : Z := Z.land x tt256m1.
Definition S256 (x : Z) : Z := if big_Cmp x tt255 <? 0 then x else x - tt256.
Definition BigMin (x y : Z) : Z := if 0 <? big_Cmp x y then y else x.
Definition BigMax (x y : Z) : Z := if big_Cmp x y <? 0 then y else x.

(** One word of the exponent, [n] of its bits still to go. *)
Fixpoint Exp_word (n : nat) (word result base : Z) : Z * Z :=
  match n with
  | O => (result, base)
  | S n' =>
      let result := if Z.land word 1 =? 1 then U256 (result * base) else result in
      Exp_word n' (Z.shiftr word 1) result (U256 (base * base))
  end.
Fixpoint Exp_words (words : list Z) (result base : Z) : Z :=
  match words with
  | [] => result
  | word :: tl => let '(result, base) := Exp_word 64 word result base in Exp_words tl result base
  end.
Definition Exp (base exponent : Z) : Z := Exp_words (big_Bits exponent) 1 base.

Definition bigEndianByteAt (x : Z) (n : Z) : Z :=
  match big_Bits x !! Z.to_nat (n / 8) with
  | None => 0
  | Some word => Z.shiftr word (8 * (n mod 8)) mod 256
  end.
Definition math_Byte (x padlength n : Z) : Z :=
  if padlength <=? n then 0 else bigEndianByteAt x (padlength - 1 - n).

(** [ReadBits]: the bytes of the number, written from the end of the buffer. *)
Definition word_bytes (d : Z) : bytes := map (λ j, Z_byte (Z.shiftr d (8 * Z.of_nat j))) (seq 0 8).
Definition ReadBits (x : Z) (buf : bytes) : bytes :=
  let le := take (length buf) (concat (map word_bytes (big_Bits x))) in
  take (length buf - length le) buf ++ reverse le.

Definition SafeAdd (x y : Z) : Z * bool := (u64 (x + y), MaxUint64 - x <? y).
Definition SafeMul (x y : Z) : Z * bool :=
  if (x =? 0) || (y =? 0) then (0, false) else (u64 (x * y), MaxUint64 / x <? y).

(** ** common/bytes.go, types.go *)

Definition RightPadBytes (slice : bytes) (l : Z) : bytes :=
  if l <=? blen slice then slice else slice ++ replicate (Z.to_nat l - length slice) x00.
Definition LeftPadBytes (slice : bytes) (l : Z) : bytes :=
  if l <=? blen slice then slice else replicate (Z.to_nat l - length slice) x00 ++ slice.

(** The low 32 (20) bytes of the absolute value. *)
Definition BigToHash (b : Z) : hash := Z.abs b mod tt256.
Definition BigToAddress (b : Z) : address := Z.abs b mod 2 ^ 160.

(** ** core/vm/common.go *)

Definition calcMemSize64WithUint (off length64 : Z) : Z * bool :=
  if length64 =? 0 then (0, false)
  else if negb (big_IsUint64 off) then (0, true)
  else let offset64 := big_Uint64 off in
       let val := u64 (offset64 + length64) in
       (val, val <? offset64).
Definition calcMemSize64 (off l : Z) : Z * bool :=
  if negb (big_IsUint64 l) then (0, true) else calcMemSize64WithUint off (big_Uint64 l).

(** [data[lo:hi]]; [None] is a slice bounds panic. *)
Definition slice (data : bytes) (lo hi : Z) : option bytes :=
  if (0 <=? lo) && (lo <=? hi) && (hi <=? blen data)
  then Some (take (Z.to_nat (hi - lo)) (drop (Z.to_nat lo) data)) else None.

Definition getData (data : bytes) (start size : Z) : option bytes :=
  let length := blen data in
  let start := if length <? start then length else start in
  let end_ := u64 (start + size) in
  let end_ := if length <? end_ then length else end_ in
  d ← slice data start end_; Some (RightPadBytes d (i64 size)).

Definition getDataBig (data : bytes) (start size : Z) : option bytes :=
  let dlen := blen data in
  let s := BigMin start dlen in
  let e := BigMin (s + size) dlen in
  d ← slice data (big_Uint64 s) (big_Uint64 e); Some (RightPadBytes d (i64 (big_Uint64 size))).

Definition bigUint64 (v : Z) : Z * bool := (big_Uint64 v, negb (big_IsUint64 v)).

Definition toWordSize (size : Z) : Z :=
  if MaxUint64 - 31 <? size then MaxUint64 / 32 + 1 else u64 (size + 31) / 32.

Definition allZero (b : bytes) : bool := forallb (λ x, byte_Z x =? 0) b.
