(* ===== verification/Vm.v ===== *)
(** * The virtual machine's data: core/vm/{opcodes,stack,memory,contract,analysis,evm}.go

    The operand stack is the list of its items, the top first.  A pointer to a
    state database is one of two names; a transaction that is not private runs
    with the two names equal, as [ApplyTransaction] arranges.  The fields of the
    [EVM] that never change after [NewEVM] are the record [Env]; the others, the
    mutable fields of the [EVMInterpreter], the two databases and the map of
    jump destination analyses that the contracts of one call tree share, are the
    record [VM].  What one activation of the interpreter works on is a [Frame]. *)

From Stdlib Require Import ZArith Lia.
From S2P Require Import Prelude Errors Rlp Fullnode Messages SmiloPay StateDB VmWord.
Open Scope didux_scope.

(** ** Opcodes *)

(** The numbered families [PUSH1]..[PUSH32], [DUP1].., [SWAP1].., [LOG0].. are one
    constructor each. *)
Inductive OpCode : Type :=
  | STOP | ADD | MUL | SUB | DIV | SDIV | MOD | SMOD | ADDMOD | MULMOD | EXP | SIGNEXTEND | LT | GT | SLT 
  | SGT | EQ | ISZERO | AND | OR | XOR | NOT | BYTE | SHL | SHR | SAR | SHA3 | ADDRESS | BALANCE | ORIGIN 
  | CALLER | CALLVALUE | CALLDATALOAD | CALLDATASIZE | CALLDATACOPY | CODESIZE | CODECOPY | GASPRICE 
  | EXTCODESIZE | EXTCODECOPY | RETURNDATASIZE | RETURNDATACOPY | EXTCODEHASH | BLOCKHASH | COINBASE 
  | TIMESTAMP | NUMBER | DIFFICULTY | GASLIMIT | CHAINID | SELFBALANCE | POP | MLOAD | MSTORE | MSTORE8 
  | SLOAD | SSTORE | JUMP | JUMPI | PC | MSIZE | GAS | JUMPDEST | CREATE | CALL | CALLCODE | RETURN 
  | DELEGATECALL | CREATE2 | STATICCALL | REVERT | SELFDESTRUCT 
  | PUSH (n : Z) | DUP (n : Z) | SWAP (n : Z) | LOG (n : Z).

Definition opByte_of (op : OpCode) : Z :=
  match op with
  | STOP => 0x00 | ADD => 0x01 | MUL => 0x02 | SUB => 0x03 | DIV => 0x04 | SDIV => 0x05 | MOD => 0x06 
  | SMOD => 0x07 | ADDMOD => 0x08 | MULMOD => 0x09 | EXP => 0x0a | SIGNEXTEND => 0x0b | LT => 0x10 
  | GT => 0x11 | SLT => 0x12 | SGT => 0x13 | EQ => 0x14 | ISZERO => 0x15 | AND => 0x16 | OR => 0x17 
  | XOR => 0x18 | NOT => 0x19 | BYTE => 0x1a | SHL => 0x1b | SHR => 0x1c | SAR => 0x1d | SHA3 => 0x20 
  | ADDRESS => 0x30 | BALANCE => 0x31 | ORIGIN => 0x32 | CALLER => 0x33 | CALLVALUE => 0x34 
  | CALLDATALOAD => 0x35 | CALLDATASIZE => 0x36 | CALLDATACOPY => 0x37 | CODESIZE => 0x38 | CODECOPY => 0x39 
  | GASPRICE => 0x3a | EXTCODESIZE => 0x3b | EXTCODECOPY => 0x3c | RETURNDATASIZE => 0x3d 
  | RETURNDATACOPY => 0x3e | EXTCODEHASH => 0x3f | BLOCKHASH => 0x40 | COINBASE => 0x41 | TIMESTAMP => 0x42 
  | NUMBER => 0x43 | DIFFICULTY => 0x44 | GASLIMIT => 0x45 | CHAINID => 0x46 | SELFBALANCE => 0x47 
  | POP => 0x50 | MLOAD => 0x51 | MSTORE => 0x52 | MSTORE8 => 0x53 | SLOAD => 0x54 | SSTORE => 0x55 
  | JUMP => 0x56 | JUMPI => 0x57 | PC => 0x58 | MSIZE => 0x59 | GAS => 0x5a | JUMPDEST => 0x5b 
  | CREATE => 0xf0 | CALL => 0xf1 | CALLCODE => 0xf2 | RETURN => 0xf3 | DELEGATECALL => 0xf4 
  | CREATE2 => 0xf5 | STATICCALL => 0xfa | REVERT => 0xfd | SELFDESTRUCT => 0xff 
  | PUSH n => 0x60 + (n - 1) | DUP n => 0x80 + (n - 1) | SWAP n => 0x90 + (n - 1) | LOG n => 0xa0 + n
  end.
Notation "'#' op" := (opByte_of op) (at level 1, format "# op") : didux_scope.

Definition isMutating (op : Z) : bool :=
  (op =? #SELFDESTRUCT) || (op =? #CREATE) || (op =? #SSTORE)
  || (op =? #(LOG 0)) || (op =? #(LOG 1)) || (op =? #(LOG 2)) || (op =? #(LOG 3)) || (op =? #(LOG 4)).

(** ** JUMPDEST analysis *)

(** A [bitvec]: its bytes; [None] is an index out of range. *)
Abbreviation bitvec := (list Z).
Definition bits_or (bits : bitvec) (i v : Z) : option bitvec :=
  b ← bits !! Z.to_nat i; Some (<[Z.to_nat i := Z.lor b v]> bits).
Definition bits_set (bits : bitvec) (pos : Z) : option bitvec :=
  bits_or bits (pos / 8) (Z.shiftr 0x80 (pos mod 8)).
Definition bits_set8 (bits : bitvec) (pos : Z) : option bitvec :=
  bits ← bits_or bits (pos / 8) (Z.shiftr 0xFF (pos mod 8));
  bits_or bits (pos / 8 + 1) (Z.lxor 0xFF (Z.shiftr 0xFF (pos mod 8))).
Definition codeSegment (bits : bitvec) (pos : Z) : option bool :=
  b ← bits !! Z.to_nat (pos / 8); Some (Z.land b (Z.shiftr 0x80 (pos mod 8)) =? 0).

(** The two inner loops of [codeBitmap]: [numbits] argument bytes at [pc], eight at
    a time, then one at a time. *)
Fixpoint bitmap_ones (numbits : nat) (bits : bitvec) (pc : Z) : option (bitvec * Z) :=
  match numbits with
  | O => Some (bits, pc)
  | S n => bits ← bits_set bits pc; bitmap_ones n bits (pc + 1)
  end.
Fixpoint bitmap_eights (numbits : nat) (bits : bitvec) (pc : Z) : option (bitvec * Z) :=
  match numbits with
  | S (S (S (S (S (S (S (S n))))))) => bits ← bits_set8 bits pc; bitmap_eights n bits (pc + 8)
  | n => bitmap_ones n bits pc
  end.
(** The outer loop; every turn advances [pc], so the length of the code is enough
    fuel. *)
Fixpoint bitmap_loop (fuel : nat) (code : bytes) (bits : bitvec) (pc : Z) : option bitvec :=
  match fuel with
  | O => Some bits
  | S fuel' =>
      match code !! Z.to_nat pc with
      | None => Some bits
      | Some b =>
          let op := byte_Z b in
          if (#(PUSH 1) <=? op) && (op <=? #(PUSH 32)) then
            '(bits, pc) ← bitmap_eights (Z.to_nat (op - #(PUSH 1) + 1)) bits (pc + 1);
            bitmap_loop fuel' code bits pc
          else bitmap_loop fuel' code bits (pc + 1)
      end
  end.
Definition codeBitmap (code : bytes) : option bitvec :=
  bitmap_loop (length code) code (replicate (length code / 8 + 1 + 4) 0) 0.

(** ** Memory *)

Record Memory := MkMemory { m_store : bytes; m_lastGasCost : Z }.
Definition NewMemory : Memory := MkMemory [] 0.
Definition mem_Len (m : Memory) : Z := blen (m_store m).

(** [copy(store[offset:], value)]. *)
Definition overwrite (store : bytes) (offset : nat) (value : bytes) : bytes :=
  take offset store ++ value ++ drop (offset + length value) store.

Definition mem_Set (offset size : Z) (value : bytes) (m : Memory) : option Memory :=
  if 0 <? size then
    if mem_Len m <? u64 (offset + size) then None else
    if u64 (offset + size) <? offset then None else
    Some (MkMemory (overwrite (m_store m) (Z.to_nat offset) (take (Z.to_nat size) value)) (m_lastGasCost m))
  else Some m.

Definition mem_Set32 (offset val : Z) (m : Memory) : option Memory :=
  if mem_Len m <? u64 (offset + 32) then None else
  if u64 (offset + 32) <? offset then None else
  Some (MkMemory (overwrite (m_store m) (Z.to_nat offset) (ReadBits val (replicate 32 x00))) (m_lastGasCost m)).

Definition mem_Resize (size : Z) (m : Memory) : Memory :=
  if mem_Len m <? size
  then MkMemory (m_store m ++ replicate (Z.to_nat (size - mem_Len m)) x00) (m_lastGasCost m) else m.

(** [Get] and [GetPtr] differ in the aliasing of the result only.  A region that
    starts inside the store and ends outside of it is a panic. *)
Definition mem_Get (offset size : Z) (m : Memory) : option bytes :=
  if size =? 0 then Some [] else
  if offset <? mem_Len m then slice (m_store m) offset (offset + size) else Some [].

(** ** Contracts *)

Record Contract := MkContract {
  c_CallerAddress : address;
  c_self : address;
  c_analysis : option bitvec;
  c_Code : bytes; c_CodeHash : hash; c_CodeAddr : option address; c_Input : bytes;
  c_Gas : Z;
  c_value : Z
}.

(** A [ContractRef] is an account or the running contract. *)
Inductive ContractRef : Type := AccountRef (a : address) | ContractPtr (c : Contract).
Definition ref_Address (r : ContractRef) : address :=
  match r with AccountRef a => a | ContractPtr c => c_self c end.

Definition set_Gas (gas : Z) (c : Contract) : Contract :=
  MkContract (c_CallerAddress c) (c_self c) (c_analysis c) (c_Code c) (c_CodeHash c) (c_CodeAddr c) (c_Input c) gas (c_value c).
Definition set_Input (input : bytes) (c : Contract) : Contract :=
  MkContract (c_CallerAddress c) (c_self c) (c_analysis c) (c_Code c) (c_CodeHash c) (c_CodeAddr c) input (c_Gas c) (c_value c).
Definition set_analysis (bits : bitvec) (c : Contract) : Contract :=
  MkContract (c_CallerAddress c) (c_self c) (Some bits) (c_Code c) (c_CodeHash c) (c_CodeAddr c) (c_Input c) (c_Gas c) (c_value c).

(** [NewContract] but for the map of analyses, which [new_jumpdests] below sets up. *)
Definition NewContract (caller : ContractRef) (object : address) (value gas : Z) : Contract :=
  MkContract (ref_Address caller) object None [] 0 None [] gas value.
Definition AsDelegate (caller : ContractRef) (c : Contract) : option Contract :=
  match caller with
  | ContractPtr parent =>
      Some (MkContract (c_CallerAddress parent) (c_self c) (c_analysis c) (c_Code c) (c_CodeHash c) (c_CodeAddr c)
              (c_Input c) (c_Gas c) (c_value parent))
  | AccountRef _ => None
  end.
Definition SetCallCode (addr : address) (codeHash : hash) (code : bytes) (c : Contract) : Contract :=
  MkContract (c_CallerAddress c) (c_self c) (c_analysis c) code codeHash (Some addr) (c_Input c) (c_Gas c) (c_value c).

Definition GetByte (c : Contract) (n : Z) : Z :=
  if n <? blen (c_Code c) then default 0 (byte_Z <$> c_Code c !! Z.to_nat n) else 0.
Definition GetOp (c : Contract) (n : Z) : Z := GetByte c n.

(** [None] when there is not enough gas: [UseGas] then changes nothing. *)
Definition UseGas (gas : Z) (c : Contract) : option Contract :=
  if c_Gas c <? gas then None else Some (set_Gas (c_Gas c - gas) c).

(** ** The EVM *)

Inductive dbref : Type := PublicDB | VaultDB.
#[export] Instance dbref_eq_dec : EqDecision dbref.
Proof. solve_decision. Defined.

Record Rules := MkRules {
  IsHomestead : bool; IsEIP150 : bool; IsEIP155 : bool; IsEIP158 : bool;
  IsByzantium : bool; IsConstantinople : bool; IsPetersburg : bool; IsIstanbul : bool
}.
Record Context_ := MkContext {
  ctx_GetHash : Z → hash;
  ctx_Origin : address; ctx_GasPrice : Z;
  ctx_Coinbase : address; ctx_GasLimit : Z; ctx_BlockNumber : Z; ctx_Time : Z; ctx_Difficulty : Z
}.
(** The options of the [Config] that change the execution. *)
Record VmConfig := MkVmConfig {
  cfg_NoRecursion : bool; cfg_EnablePreimageRecording : bool; cfg_EstimateGas : bool
}.
(** [env_IsEWASM] is [chainConfig.IsEWASM] at the block, [env_ChainID] the pointer
    [chainConfig.ChainID].  [env_vaultState] is the name of the vault's database; the public one is always
    [PublicDB]. *)
Record Env := MkEnv {
  env_ctx : Context_; env_rules : Rules; env_IsSmilo : bool; env_IsEWASM : bool; env_ChainID : option Z;
  env_cfg : VmConfig; env_vaultState : dbref
}.

Record VM := MkVM {
  vm_public : StateDB; vm_vault : StateDB;
  vm_StateDB : dbref;
  vm_states : list (option dbref); vm_currentStateDepth : Z;
  vm_smiloReadOnly : bool; vm_readOnlyDepth : Z;
  vm_depth : Z; vm_callGasTemp : Z; vm_abort : bool;
  vm_readOnly : bool; vm_returnData : bytes;
  vm_jumpdests : gmap Z bitvec
}.

Section vm_setters.
Implicit Types v : VM.
Definition set_dbs p q v := MkVM p q (vm_StateDB v) (vm_states v) (vm_currentStateDepth v) (vm_smiloReadOnly v)
  (vm_readOnlyDepth v) (vm_depth v) (vm_callGasTemp v) (vm_abort v) (vm_readOnly v) (vm_returnData v) (vm_jumpdests v).
Definition set_StateDB r v := MkVM (vm_public v) (vm_vault v) r (vm_states v) (vm_currentStateDepth v) (vm_smiloReadOnly v)
  (vm_readOnlyDepth v) (vm_depth v) (vm_callGasTemp v) (vm_abort v) (vm_readOnly v) (vm_returnData v) (vm_jumpdests v).
Definition set_states l n v := MkVM (vm_public v) (vm_vault v) (vm_StateDB v) l n (vm_smiloReadOnly v)
  (vm_readOnlyDepth v) (vm_depth v) (vm_callGasTemp v) (vm_abort v) (vm_readOnly v) (vm_returnData v) (vm_jumpdests v).
Definition set_smiloReadOnly b n v := MkVM (vm_public v) (vm_vault v) (vm_StateDB v) (vm_states v) (vm_currentStateDepth v) b
  n (vm_depth v) (vm_callGasTemp v) (vm_abort v) (vm_readOnly v) (vm_returnData v) (vm_jumpdests v).
Definition set_depth n v := MkVM (vm_public v) (vm_vault v) (vm_StateDB v) (vm_states v) (vm_currentStateDepth v) (vm_smiloReadOnly v)
  (vm_readOnlyDepth v) n (vm_callGasTemp v) (vm_abort v) (vm_readOnly v) (vm_returnData v) (vm_jumpdests v).
Definition set_callGasTemp n v := MkVM (vm_public v) (vm_vault v) (vm_StateDB v) (vm_states v) (vm_currentStateDepth v) (vm_smiloReadOnly v)
  (vm_readOnlyDepth v) (vm_depth v) n (vm_abort v) (vm_readOnly v) (vm_returnData v) (vm_jumpdests v).
Definition set_abort b v := MkVM (vm_public v) (vm_vault v) (vm_StateDB v) (vm_states v) (vm_currentStateDepth v) (vm_smiloReadOnly v)
  (vm_readOnlyDepth v) (vm_depth v) (vm_callGasTemp v) b (vm_readOnly v) (vm_returnData v) (vm_jumpdests v).
Definition set_readOnly b v := MkVM (vm_public v) (vm_vault v) (vm_StateDB v) (vm_states v) (vm_currentStateDepth v) (vm_smiloReadOnly v)
  (vm_readOnlyDepth v) (vm_depth v) (vm_callGasTemp v) (vm_abort v) b (vm_returnData v) (vm_jumpdests v).
Definition set_returnData d v := MkVM (vm_public v) (vm_vault v) (vm_StateDB v) (vm_states v) (vm_currentStateDepth v) (vm_smiloReadOnly v)
  (vm_readOnlyDepth v) (vm_depth v) (vm_callGasTemp v) (vm_abort v) (vm_readOnly v) d (vm_jumpdests v).
Definition set_jumpdests m v := MkVM (vm_public v) (vm_vault v) (vm_StateDB v) (vm_states v) (vm_currentStateDepth v) (vm_smiloReadOnly v)
  (vm_readOnlyDepth v) (vm_depth v) (vm_callGasTemp v) (vm_abort v) (vm_readOnly v) (vm_returnData v) m.
End vm_setters.

(** [NewContract]'s map of analyses: the parent's when the caller is a contract, a
    new one otherwise. *)
Definition new_jumpdests (caller : ContractRef) : M VM () :=
  match caller with ContractPtr _ => mret' () | AccountRef _ => mmod (set_jumpdests ∅) end.

(** A method of the database a pointer stands for. *)
Definition on_db {A} (r : dbref) (m : M StateDB A) : M VM A :=
  λ v, match r with
       | PublicDB => match m (vm_public v) with
                     | Some (a, s) => Some (a, set_dbs s (vm_vault v) v) | None => None end
       | VaultDB => match m (vm_vault v) with
                    | Some (a, s) => Some (a, set_dbs (vm_public v) s v) | None => None end
       end.
(** ... of [evm.StateDB]. *)
Definition on_StateDB {A} (m : M StateDB A) : M VM A :=
  λ v, on_db (vm_StateDB v) m v.

(** ** One activation of the interpreter *)

Record Frame := MkFrame { f_pc : Z; f_stack : list Z; f_mem : Memory; f_contract : Contract; f_vm : VM }.
Definition set_pc pc f := MkFrame pc (f_stack f) (f_mem f) (f_contract f) (f_vm f).
Definition set_stack st f := MkFrame (f_pc f) st (f_mem f) (f_contract f) (f_vm f).
Definition set_mem m f := MkFrame (f_pc f) (f_stack f) m (f_contract f) (f_vm f).
Definition set_contract c f := MkFrame (f_pc f) (f_stack f) (f_mem f) c (f_vm f).
Definition set_vm v f := MkFrame (f_pc f) (f_stack f) (f_mem f) (f_contract f) v.

Definition on_vm {A} (m : M VM A) : M Frame A :=
  λ f, match m (f_vm f) with Some (a, v) => Some (a, set_vm v f) | None => None end.
Definition on_mem (m : Memory → option Memory) : M Frame () :=
  let! f := mget in let! mem := mderef (m (f_mem f)) in mmod (set_mem mem).
Definition get_contract : M Frame Contract := let! f := mget in mret' (f_contract f).

(** *** Stack *)

Definition push (x : Z) : M Frame () := mmod (λ f, set_stack (x :: f_stack f) f).
Definition pop : M Frame Z :=
  let! f := mget in
  match f_stack f with
  | x :: st => do! mmod (set_stack st) in mret' x
  | [] => mpanic
  end.
Definition Back (n : nat) : M Frame Z := let! f := mget in mderef (f_stack f !! n).
Definition stack_dup (n : nat) : M Frame () :=
  let! f := mget in let! x := mderef (f_stack f !! (n - 1)%nat) in push x.
Definition stack_swap (n : nat) : M Frame () :=
  let! f := mget in
  let! x := mderef (f_stack f !! (n - 1)%nat) in
  let! y := mderef (f_stack f !! 0%nat) in
  mmod (set_stack (<[0%nat := x]> (<[(n - 1)%nat := y]> (f_stack f)))).

(** *** Valid jump destinations *)

Definition validJumpdest (dest : Z) : M Frame bool :=
  let! f := mget in
  let c := f_contract f in
  let udest := big_Uint64 dest in
  if (63 <=? big_BitLen dest) || (blen (c_Code c) <=? udest) then mret' false else
  if negb (GetOp c udest =? #JUMPDEST) then mret' false else
  if negb (c_CodeHash c =? 0) then
    let! bits := match vm_jumpdests (f_vm f) !! c_CodeHash c with
                 | Some bits => mret' bits
                 | None =>
                     let! bits := mderef (codeBitmap (c_Code c)) in
                     do! on_vm (mmod (λ v, set_jumpdests (<[c_CodeHash c := bits]> (vm_jumpdests v)) v)) in
                     mret' bits
                 end in
    mderef (codeSegment bits udest)
  else
    let! bits := match c_analysis c with
                 | Some bits => mret' bits
                 | None =>
                     let! bits := mderef (codeBitmap (c_Code c)) in
                     do! mmod (set_contract (set_analysis bits c)) in
                     mret' bits
                 end in
    mderef (codeSegment bits udest).
