(* ===== verification/VmGas.v ===== *)
(** * Gas: core/vm/{gas,gas_table,memory_table}.go and the prices of params/protocol_params.go

    The size of the memory an instruction needs, its dynamic price, and the gas a
    call may take along. *)

From Stdlib Require Import ZArith Lia.
From S2P Require Import Prelude Errors Rlp Fullnode Messages SmiloPay StateDB VmWord Vm.
Open Scope didux_scope.

(** ** Prices *)

Module Params.
Definition CallValueTransferGas : Z := 9000.
Definition CallNewAccountGas : Z := 25000.
Definition QuadCoeffDiv : Z := 512.
Definition LogDataGas : Z := 8.
Definition CallStipend : Z := 2300.
Definition Sha3Gas : Z := 30.
Definition Sha3WordGas : Z := 6.
Definition SstoreSetGas : Z := 20000.
Definition SstoreResetGas : Z := 5000.
Definition SstoreClearGas : Z := 5000.
Definition SstoreRefundGas : Z := 15000.
Definition NetSstoreNoopGas : Z := 200.
Definition NetSstoreInitGas : Z := 20000.
Definition NetSstoreCleanGas : Z := 5000.
Definition NetSstoreDirtyGas : Z := 200.
Definition NetSstoreClearRefund : Z := 15000.
Definition NetSstoreResetRefund : Z := 4800.
Definition NetSstoreResetClearRefund : Z := 19800.
Definition JumpdestGas : Z := 1.
Definition CreateDataGas : Z := 200.
Definition CallCreateDepth : Z := 1024.
Definition ExpGas : Z := 10.
Definition LogGas : Z := 375.
Definition CopyGas : Z := 3.
Definition StackLimit : Z := 1024.
Definition LogTopicGas : Z := 375.
Definition CreateGas : Z := 32000.
Definition Create2Gas : Z := 32000.
Definition SelfdestructRefundGas : Z := 24000.
Definition MemoryGas : Z := 3.
Definition CallGasFrontier : Z := 40.
Definition CallGasEIP150 : Z := 700.
Definition BalanceGasFrontier : Z := 20.
Definition BalanceGasEIP150 : Z := 400.
Definition BalanceGasEIP1884 : Z := 700.
Definition ExtcodeSizeGasFrontier : Z := 20.
Definition ExtcodeSizeGasEIP150 : Z := 700.
Definition SloadGasFrontier : Z := 50.
Definition SloadGasEIP150 : Z := 200.
Definition SloadGasEIP1884 : Z := 800.
Definition ExtcodeHashGasConstantinople : Z := 400.
Definition ExtcodeHashGasEIP1884 : Z := 700.
Definition SelfdestructGasEIP150 : Z := 5000.
Definition ExpByteFrontier : Z := 10.
Definition ExpByteEIP158 : Z := 50.
Definition ExtcodeCopyBaseFrontier : Z := 20.
Definition ExtcodeCopyBaseEIP150 : Z := 700.
Definition CreateBySelfdestructGas : Z := 25000.
Definition MaxCodeSize : Z := 24576.
Definition EcrecoverGas : Z := 3000.
Definition Sha256BaseGas : Z := 60.
Definition Sha256PerWordGas : Z := 12.
Definition Ripemd160BaseGas : Z := 600.
Definition Ripemd160PerWordGas : Z := 120.
Definition IdentityBaseGas : Z := 15.
Definition IdentityPerWordGas : Z := 3.
Definition ModExpQuadCoeffDiv : Z := 20.
Definition Bn256AddGasByzantium : Z := 500.
Definition Bn256AddGasIstanbul : Z := 150.
Definition Bn256ScalarMulGasByzantium : Z := 40000.
Definition Bn256ScalarMulGasIstanbul : Z := 6000.
Definition Bn256PairingBaseGasByzantium : Z := 100000.
Definition Bn256PairingBaseGasIstanbul : Z := 45000.
Definition Bn256PairingPerPointGasByzantium : Z := 80000.
Definition Bn256PairingPerPointGasIstanbul : Z := 34000.
End Params.
Import Params.

Definition GasQuickStep : Z := 2.
Definition GasFastestStep : Z := 3.
Definition GasFastStep : Z := 5.
Definition GasMidStep : Z := 8.
Definition GasSlowStep : Z := 10.
Definition GasExtStep : Z := 20.

(** ** Memory sizes *)

(** The size and whether it overflows; [None] when the stack is too short. *)
Definition memorySizeFunc : Type := list Z → option (Z * bool).

(** The region given by two positions of the stack. *)
Definition memRegion (off l : nat) : memorySizeFunc :=
  λ st, o ← st !! off; n ← st !! l; Some (calcMemSize64 o n).
(** The larger of two regions. *)
Definition memRegion2 (off1 l1 off2 l2 : nat) : memorySizeFunc := λ st,
  '(x, overflow) ← memRegion off1 l1 st;
  if overflow : bool then Some (0, true) else
  '(y, overflow) ← memRegion off2 l2 st;
  if overflow : bool then Some (0, true) else
  if y <? x then Some (x, false) else Some (y, false).

Definition memorySha3 : memorySizeFunc := memRegion 0 1.
Definition memoryCallDataCopy : memorySizeFunc := memRegion 0 2.
Definition memoryReturnDataCopy : memorySizeFunc := memRegion 0 2.
Definition memoryCodeCopy : memorySizeFunc := memRegion 0 2.
Definition memoryExtCodeCopy : memorySizeFunc := memRegion 1 3.
Definition memoryMLoad : memorySizeFunc := λ st, o ← st !! 0%nat; Some (calcMemSize64WithUint o 32).
Definition memoryMStore8 : memorySizeFunc := λ st, o ← st !! 0%nat; Some (calcMemSize64WithUint o 1).
Definition memoryMStore : memorySizeFunc := λ st, o ← st !! 0%nat; Some (calcMemSize64WithUint o 32).
Definition memoryCreate : memorySizeFunc := memRegion 1 2.
Definition memoryCreate2 : memorySizeFunc := memRegion 1 2.
Definition memoryCall : memorySizeFunc := memRegion2 5 6 3 4.
Definition memoryDelegateCall : memorySizeFunc := memRegion2 4 5 2 3.
Definition memoryStaticCall : memorySizeFunc := memRegion2 4 5 2 3.
Definition memoryReturn : memorySizeFunc := memRegion 0 1.
Definition memoryRevert : memorySizeFunc := memRegion 0 1.
Definition memoryLog : memorySizeFunc := memRegion 0 1.

(** ** Gas functions *)

(** Of the requested memory size; an error is in the sum. *)
Definition gasFunc : Type := Z → M Frame (result Z).

(** The rest of a gas function after a call that may return an error. *)
Definition ebind {A B} (m : M Frame (result A)) (f : A → M Frame (result B)) : M Frame (result B) :=
  let! r := m in match r with inl a => f a | inr e => mret' (inr e) end.
Notation "'try!' x ':=' m 'in' k" := (ebind m (λ x, k))
  (at level 10, x pattern, m at level 100, k at level 200,
   format "'[v' 'try!'  x  ':='  m  'in'  '/' k ']'") : didux_scope.
(** [if v, overflow = ...; overflow { return 0, errGasUintOverflow }]. *)
Definition checked (r : Z * bool) : M Frame (result Z) :=
  mret' (if r.2 then inr errGasUintOverflow else inl r.1).

Definition memoryGasCost (newMemSize : Z) : M Frame (result Z) :=
  if newMemSize =? 0 then mret' (inl 0) else
  if 0x1FFFFFFFE0 <? newMemSize then mret' (inr errGasUintOverflow) else
  let newMemSizeWords := toWordSize newMemSize in
  let newMemSize := u64 (newMemSizeWords * 32) in
  let! f := mget in
  if mem_Len (f_mem f) <? newMemSize then
    let square := u64 (newMemSizeWords * newMemSizeWords) in
    let linCoef := u64 (newMemSizeWords * MemoryGas) in
    let quadCoef := square / QuadCoeffDiv in
    let newTotalFee := u64 (linCoef + quadCoef) in
    let fee := u64 (newTotalFee - m_lastGasCost (f_mem f)) in
    do! mmod (set_mem (MkMemory (m_store (f_mem f)) newTotalFee)) in
    mret' (inl fee)
  else mret' (inl 0).

(** The price of the words of the item at a stack position, added to [gas]. *)
Definition wordsGas (stackpos : nat) (perWord gas : Z) : M Frame (result Z) :=
  let! w := Back stackpos in
  try! words := checked (bigUint64 w) in
  try! words := checked (SafeMul (toWordSize words) perWord) in
  checked (SafeAdd gas words).

Definition memoryCopierGas (stackpos : nat) : gasFunc := λ memorySize,
  try! gas := memoryGasCost memorySize in wordsGas stackpos CopyGas gas.
Definition gasCallDataCopy : gasFunc := memoryCopierGas 2.
Definition gasCodeCopy : gasFunc := memoryCopierGas 2.
Definition gasExtCodeCopy : gasFunc := memoryCopierGas 3.
Definition gasReturnDataCopy : gasFunc := memoryCopierGas 2.

Definition gasSha3 : gasFunc := λ memorySize,
  try! gas := memoryGasCost memorySize in wordsGas 1 Sha3WordGas gas.
Definition gasCreate2 : gasFunc := λ memorySize,
  try! gas := memoryGasCost memorySize in wordsGas 2 Sha3WordGas gas.

Definition pureMemoryGascost : gasFunc := memoryGasCost.

Definition makeGasLog (n : Z) : gasFunc := λ memorySize,
  let! s := Back 1 in
  try! requestedSize := checked (bigUint64 s) in
  try! gas := memoryGasCost memorySize in
  try! gas := checked (SafeAdd gas LogGas) in
  try! gas := checked (SafeAdd gas (u64 (n * LogTopicGas))) in
  try! memorySizeGas := checked (SafeMul requestedSize LogDataGas) in
  checked (SafeAdd gas memorySizeGas).

Definition gasExp (perByte : Z) : gasFunc := λ _,
  let! e := Back 1 in
  let expByteLen := (big_BitLen e + 7) / 8 in
  checked (SafeAdd (u64 (expByteLen * perByte)) ExpGas).
Definition gasExpFrontier : gasFunc := gasExp ExpByteFrontier.
Definition gasExpEIP158 : gasFunc := gasExp ExpByteEIP158.

Definition callGas (isEip150 : bool) (availableGas base callCost : Z) : result Z :=
  let requested := if negb (big_IsUint64 callCost) then inr errGasUintOverflow else inl (big_Uint64 callCost) in
  if isEip150 then
    let availableGas := u64 (availableGas - base) in
    let gas := availableGas - availableGas / 64 in
    if negb (big_IsUint64 callCost) || (gas <? big_Uint64 callCost) then inl gas else requested
  else requested.

Section gas_table.
Context `{!Crypto} (D : Database) (env : Env).

(** [getPrivateOrPublicStateDB]. *)
Definition getPrivateOrPublicStateDB (addr : address) : M VM (bool * dbref) :=
  let! inVault := on_db (env_vaultState env) (Exist addr) in
  if inVault : bool then mret' (true, env_vaultState env) else
  let! inPublic := on_db PublicDB (Exist addr) in
  if inPublic : bool then mret' (false, PublicDB) else
  let! v := mget in mret' (false, vm_StateDB v).

Definition gasSStore : gasFunc := λ _,
  let! c := get_contract in
  let! (_, db) := on_vm (getPrivateOrPublicStateDB (c_self c)) in
  let! y := Back 1 in
  let! x := Back 0 in
  let! current := on_vm (on_db db (db_GetState D (c_self c) (BigToHash x))) in
  let AddRefund g := on_vm (on_StateDB (AddRefund g)) in
  let SubRefund g := on_vm (on_StateDB (SubRefund g)) in
  if IsPetersburg (env_rules env) || negb (IsConstantinople (env_rules env)) then
    if (current =? 0) && negb (Z.sgn y =? 0) then mret' (inl SstoreSetGas)
    else if negb (current =? 0) && (Z.sgn y =? 0) then
      do! AddRefund SstoreRefundGas in mret' (inl SstoreClearGas)
    else mret' (inl SstoreResetGas)
  else
    let value := BigToHash y in
    if current =? value then mret' (inl NetSstoreNoopGas) else
    let! original := on_vm (on_StateDB (db_GetCommittedState D (c_self c) (BigToHash x))) in
    if original =? current then
      if original =? 0 then mret' (inl NetSstoreInitGas) else
      do! (if value =? 0 then AddRefund NetSstoreClearRefund else mret' ()) in
      mret' (inl NetSstoreCleanGas)
    else
      do! (if negb (original =? 0) then
             if current =? 0 then SubRefund NetSstoreClearRefund
             else if value =? 0 then AddRefund NetSstoreClearRefund else mret' ()
           else mret' ()) in
      do! (if original =? value then
             if original =? 0 then AddRefund NetSstoreResetClearRefund else AddRefund NetSstoreResetRefund
           else mret' ()) in
      mret' (inl NetSstoreDirtyGas).

(** The end of the gas functions of the calls: the gas the callee gets is kept in
    [evm.callGasTemp] and paid with the rest. *)
Definition withCallGas (gas : Z) : M Frame (result Z) :=
  let! c := get_contract in
  let! requested := Back 0 in
  try! temp := mret' (callGas (IsEIP150 (env_rules env)) (c_Gas c) gas requested) in
  do! on_vm (mmod (set_callGasTemp temp)) in
  checked (SafeAdd gas temp).

Definition gasCall : gasFunc := λ memorySize,
  let! v := Back 2 in
  let transfersValue := negb (Z.sgn v =? 0) in
  let! a := Back 1 in
  let address := BigToAddress a in
  let! (_, thisState) := on_vm (getPrivateOrPublicStateDB address) in
  let! gas := (if IsEIP158 (env_rules env) then
                 if transfersValue then
                   let! e := on_vm (on_db thisState (Empty address)) in mret' (if e : bool then CallNewAccountGas else 0)
                 else mret' 0
               else
                 let! e := on_vm (on_db thisState (Exist address)) in mret' (if e : bool then 0 else CallNewAccountGas)) in
  let gas := if transfersValue then gas + CallValueTransferGas else gas in
  try! memoryGas := memoryGasCost memorySize in
  try! gas := checked (SafeAdd gas memoryGas) in
  withCallGas gas.

Definition gasCallCode : gasFunc := λ memorySize,
  try! memoryGas := memoryGasCost memorySize in
  let! v := Back 2 in
  let gas := if negb (Z.sgn v =? 0) then CallValueTransferGas else 0 in
  try! gas := checked (SafeAdd gas memoryGas) in
  withCallGas gas.

Definition gasDelegateCall : gasFunc := λ memorySize,
  try! gas := memoryGasCost memorySize in withCallGas gas.
Definition gasStaticCall : gasFunc := λ memorySize,
  try! gas := memoryGasCost memorySize in withCallGas gas.

Definition gasSelfdestruct : gasFunc := λ _,
  let! c := get_contract in
  let! gas := (if IsEIP150 (env_rules env) then
                 let! a := Back 0 in
                 let address := BigToAddress a in
                 if IsEIP158 (env_rules env) then
                   let! e := on_vm (on_StateDB (Empty address)) in
                   if e : bool then
                     let! b := on_vm (on_StateDB (GetBalance (c_self c))) in
                     mret' (if negb (Z.sgn b =? 0) then SelfdestructGasEIP150 + CreateBySelfdestructGas
                            else SelfdestructGasEIP150)
                   else mret' SelfdestructGasEIP150
                 else
                   let! e := on_vm (on_StateDB (Exist address)) in
                   mret' (if e : bool then SelfdestructGasEIP150 else SelfdestructGasEIP150 + CreateBySelfdestructGas)
               else mret' 0) in
  let! suicided := on_vm (on_StateDB (HasSuicided (c_self c))) in
  do! (if suicided : bool then mret' () else on_vm (on_StateDB (AddRefund SelfdestructRefundGas))) in
  mret' (inl gas).
End gas_table.
