(* ===== verification/VmContracts.v ===== *)
(** * Precompiled contracts: core/vm/contracts.go

    The hash functions and curves of other packages are the class
    [PrecompileLib].  A contract is its gas function and its [Run]; [None] is a
    panic.  [Run] returns, beside its result, what the input slice holds
    afterwards, because [ecrecover] writes to it. *)

From Stdlib Require Import ZArith Lia Zpow_facts.
From S2P Require Import Prelude Errors Rlp Fullnode Messages VmWord Vm VmGas.
Import VmGas.Params.
Open Scope didux_scope.

Class PrecompileLib := {
  sha256_Sum256 : bytes → bytes;
  ripemd160_Sum : bytes → bytes;
  crypto_Ecrecover : bytes → bytes → result bytes;
  G1 : Type; G2 : Type;
  G1_Unmarshal : bytes → result G1;
  G2_Unmarshal : bytes → result G2;
  G1_Add : G1 → G1 → G1;
  G1_ScalarMult : G1 → Z → G1;
  G1_Marshal : G1 → bytes;
  PairingCheck : list G1 → list G2 → bool
}.

Record PrecompiledContract := MkPrecompiled {
  RequiredGas : bytes → option Z;
  precompile_Run : bytes → option (result bytes * bytes)
}.

(** [crypto.ValidateSignatureValues]. *)
Definition secp256k1N : Z := 0xfffffffffffffffffffffffffffffffebaaedce6af48a03bbfd25e8cd0364141.
Definition secp256k1halfN : Z := secp256k1N / 2.
Definition ValidateSignatureValues (v r s : Z) (homestead : bool) : bool :=
  if (big_Cmp r 1 <? 0) || (big_Cmp s 1 <? 0) then false else
  if homestead && (0 <? big_Cmp s secp256k1halfN) then false else
  (big_Cmp r secp256k1N <? 0) && (big_Cmp s secp256k1N <? 0) && ((v =? 0) || (v =? 1)).

Section contracts.
Context `{!Crypto} `{!PrecompileLib}.

(** ** ecrecover *)

(** [append(input[64:128], v)] reuses the array of [input]: with more than 128
    bytes it overwrites the byte at 128. *)
Definition ecrecover_Run (arg : bytes) : option (result bytes * bytes) :=
  let input := RightPadBytes arg 128 in
  r ← slice input 64 96;
  s ← slice input 96 128;
  hd ← slice input 32 63;
  b ← input !! 63%nat;
  let v := (byte_Z b - 27) mod 256 in
  if negb (allZero hd) || negb (ValidateSignatureValues v (be_val r) (be_val s) false) then Some (inl [], arg) else
  h ← slice input 0 32;
  rs ← slice input 64 128;
  let arg := if 128 <? blen arg then <[128%nat := Z_byte v]> arg else arg in
  match crypto_Ecrecover h (rs ++ [Z_byte v]) with
  | inr _ => Some (inl [], arg)
  | inl pubKey =>
      p ← slice pubKey 1 (blen pubKey);
      Some (inl (LeftPadBytes (be_fix 20 (Keccak256 p)) 32), arg)
  end.
Definition ecrecover : PrecompiledContract := MkPrecompiled (λ _, Some EcrecoverGas) ecrecover_Run.

(** ** Hashes and the identity *)

(** [uint64(len(input)+31)/32*perWord + base]. *)
Definition perWordGas (perWord base : Z) (input : bytes) : option Z :=
  Some (u64 (u64 (u64 (blen input + 31) / 32 * perWord) + base)).
Definition sha256hash : PrecompiledContract :=
  MkPrecompiled (perWordGas Sha256PerWordGas Sha256BaseGas) (λ input, Some (inl (sha256_Sum256 input), input)).
Definition ripemd160hash : PrecompiledContract :=
  MkPrecompiled (perWordGas Ripemd160PerWordGas Ripemd160BaseGas)
    (λ input, Some (inl (LeftPadBytes (ripemd160_Sum input) 32), input)).
Definition dataCopy : PrecompiledContract :=
  MkPrecompiled (perWordGas IdentityPerWordGas IdentityBaseGas) (λ input, Some (inl input, input)).

(** ** Modular exponentiation *)

Definition header_len (input : bytes) (start : Z) : option Z := be_val <$> getData input start 32.
Definition modexp_body (input : bytes) : bytes := if 96 <? blen input then drop 96 input else [].

(** The multiplication complexity of [x]-byte numbers. *)
Definition mult_complexity (x : Z) : Z :=
  if x <=? 64 then x * x
  else if x <=? 1024 then x * x / 4 + (96 * x - 3072)
  else x * x / 16 + (480 * x - 199680).

Definition bigModExp_RequiredGas (input : bytes) : option Z :=
  baseLen ← header_len input 0;
  expLen ← header_len input 32;
  modLen ← header_len input 64;
  let input := modexp_body input in
  expHead ← (if big_Cmp (blen input) baseLen <=? 0 then Some 0
             else if 0 <? big_Cmp expLen 32 then be_val <$> getData input (big_Uint64 baseLen) 32
             else be_val <$> getData input (big_Uint64 baseLen) (big_Uint64 expLen));
  let msb := if 0 <? big_BitLen expHead then big_BitLen expHead - 1 else 0 in
  let adjExpLen := (if 0 <? big_Cmp expLen 32 then 8 * (expLen - 32) else 0) + msb in
  let gas := mult_complexity (BigMax modLen baseLen) * BigMax adjExpLen 1 / ModExpQuadCoeffDiv in
  Some (if 64 <? big_BitLen gas then MaxUint64 else big_Uint64 gas).

Definition bigModExp_Run (arg : bytes) : option (result bytes * bytes) :=
  baseLen ← big_Uint64 <$> header_len arg 0;
  expLen ← big_Uint64 <$> header_len arg 32;
  modLen ← big_Uint64 <$> header_len arg 64;
  let input := modexp_body arg in
  if (baseLen =? 0) && (modLen =? 0) then Some (inl [], arg) else
  base ← be_val <$> getData input 0 baseLen;
  exp ← be_val <$> getData input baseLen expLen;
  mod_ ← be_val <$> getData input (u64 (baseLen + expLen)) modLen;
  if big_BitLen mod_ =? 0 then Some (inl (LeftPadBytes [] (i64 modLen)), arg)
  else Some (inl (LeftPadBytes (putint (Zpow_mod base exp mod_)) (i64 modLen)), arg).
Definition bigModExp : PrecompiledContract := MkPrecompiled bigModExp_RequiredGas bigModExp_Run.

(** ** bn256 *)

Definition newCurvePoint (blob : bytes) : result G1 := G1_Unmarshal blob.
Definition newTwistPoint (blob : bytes) : result G2 := G2_Unmarshal blob.

Definition runBn256Add (input : bytes) : option (result bytes * bytes) :=
  bx ← getData input 0 64;
  match newCurvePoint bx with
  | inr e => Some (inr e, input)
  | inl x =>
      by_ ← getData input 64 64;
      match newCurvePoint by_ with
      | inr e => Some (inr e, input)
      | inl y => Some (inl (G1_Marshal (G1_Add x y)), input)
      end
  end.
Definition bn256AddIstanbul : PrecompiledContract := MkPrecompiled (λ _, Some Bn256AddGasIstanbul) runBn256Add.
Definition bn256AddByzantium : PrecompiledContract := MkPrecompiled (λ _, Some Bn256AddGasByzantium) runBn256Add.

Definition runBn256ScalarMul (input : bytes) : option (result bytes * bytes) :=
  bp ← getData input 0 64;
  match newCurvePoint bp with
  | inr e => Some (inr e, input)
  | inl p => k ← getData input 64 32; Some (inl (G1_Marshal (G1_ScalarMult p (be_val k))), input)
  end.
Definition bn256ScalarMulIstanbul : PrecompiledContract :=
  MkPrecompiled (λ _, Some Bn256ScalarMulGasIstanbul) runBn256ScalarMul.
Definition bn256ScalarMulByzantium : PrecompiledContract :=
  MkPrecompiled (λ _, Some Bn256ScalarMulGasByzantium) runBn256ScalarMul.

Definition true32Byte : bytes := replicate 31 x00 ++ [x01].
Definition false32Byte : bytes := replicate 32 x00.

(** The loop over the blocks of 192 bytes. *)
Fixpoint pairing_points (n : nat) (i : Z) (input : bytes) : option (result (list G1 * list G2)) :=
  match n with
  | O => Some (inl ([], []))
  | S n' =>
      bc ← slice input i (i + 64);
      match newCurvePoint bc with
      | inr e => Some (inr e)
      | inl c =>
          bt ← slice input (i + 64) (i + 192);
          match newTwistPoint bt with
          | inr e => Some (inr e)
          | inl t =>
              r ← pairing_points n' (i + 192) input;
              Some match r with inr e => inr e | inl (cs, ts) => inl (c :: cs, t :: ts) end
          end
      end
  end.
Definition runBn256Pairing (input : bytes) : option (result bytes * bytes) :=
  if 0 <? blen input mod 192 then Some (inr errBadPairingInput, input) else
  r ← pairing_points (length input / 192) 0 input;
  match r with
  | inr e => Some (inr e, input)
  | inl (cs, ts) => Some (inl (if PairingCheck cs ts then true32Byte else false32Byte), input)
  end.
Definition pairingGas (base perPoint : Z) (input : bytes) : option Z :=
  Some (u64 (base + u64 (blen input / 192 * perPoint))).
Definition bn256PairingIstanbul : PrecompiledContract :=
  MkPrecompiled (pairingGas Bn256PairingBaseGasIstanbul Bn256PairingPerPointGasIstanbul) runBn256Pairing.
Definition bn256PairingByzantium : PrecompiledContract :=
  MkPrecompiled (pairingGas Bn256PairingBaseGasByzantium Bn256PairingPerPointGasByzantium) runBn256Pairing.

(** ** The sets *)

Definition PrecompiledContractsHomestead (a : address) : option PrecompiledContract :=
  match a with
  | 1 => Some ecrecover | 2 => Some sha256hash | 3 => Some ripemd160hash | 4 => Some dataCopy
  | _ => None
  end.
Definition PrecompiledContractsByzantium (a : address) : option PrecompiledContract :=
  match a with
  | 1 => Some ecrecover | 2 => Some sha256hash | 3 => Some ripemd160hash | 4 => Some dataCopy
  | 5 => Some bigModExp | 6 => Some bn256AddByzantium | 7 => Some bn256ScalarMulByzantium
  | 8 => Some bn256PairingByzantium
  | _ => None
  end.
Definition PrecompiledContractsIstanbul (a : address) : option PrecompiledContract :=
  match a with
  | 1 => Some ecrecover | 2 => Some sha256hash | 3 => Some ripemd160hash | 4 => Some dataCopy
  | 5 => Some bigModExp | 6 => Some bn256AddIstanbul | 7 => Some bn256ScalarMulIstanbul
  | 8 => Some bn256PairingIstanbul
  | _ => None
  end.
(** The set of a block, as [run] and [Call] choose it. *)
Definition precompiles (r : Rules) (a : address) : option PrecompiledContract :=
  if IsIstanbul r then PrecompiledContractsIstanbul a
  else if IsByzantium r then PrecompiledContractsByzantium a
  else PrecompiledContractsHomestead a.

(** The result, the error and the contract with the gas left.  Nothing reads the
    argument slice after the contract, so what [Run] leaves in it is dropped. *)
Definition RunPrecompiledContract (p : PrecompiledContract) (input : bytes) (c : Contract) : option (bytes * err * Contract) :=
  gas ← RequiredGas p input;
  match UseGas gas c with
  | Some c =>
      r ← precompile_Run p input;
      Some match r.1 with inl ret => (ret, None, c) | inr e => ([], Some e, c) end
  | None => Some ([], Some ErrOutOfGas, c)
  end.
End contracts.
