(* ===== verification/VmEVM.v ===== *)
(** * Calls and creations: core/vm/evm.go, and the transfers of core/evm.go

    [interpreter.Run] is an argument of every method here; VmInterp ties the
    knot.  The tracer and the logs are left out. *)

From Stdlib Require Import ZArith Lia.
From S2P Require Import Prelude Errors Rlp Fullnode Messages SmiloPay StateDB VmWord Vm VmGas VmContracts.
Import VmGas.Params.
Open Scope didux_scope.

(** [Run(contract, input, readOnly, isVault)]: the returned bytes, the error and the
    contract, whose gas it has spent. *)
Definition RunFun : Type := Contract → bytes → bool → bool → M VM (bytes * err * Contract).

Section transfers.
Context `{!Crypto}.
Definition CanTransfer (addr : address) (amount : Z) : M StateDB bool :=
  let! b := GetBalance addr in mret' (0 <=? big_Cmp b amount).
Definition Transfer (sender recipient : address) (amount blockNumber : Z) : M StateDB () :=
  do! SubBalance sender amount blockNumber in AddBalance recipient amount blockNumber.
End transfers.

(** [crypto.CreateAddress] and [CreateAddress2]. *)
Section addresses.
Context `{!Crypto}.
Definition CreateAddress (b : address) (nonce : Z) : address :=
  match enc_struct [enc_array 20 b; enc_uint64 nonce] ≫= EncodeToBytes with
  | Some data => Keccak256 data mod 2 ^ 160
  | None => Keccak256 [] mod 2 ^ 160
  end.
Definition CreateAddress2 (b : address) (salt inithash : hash) : address :=
  Keccak256 ([xff] ++ be_fix 20 b ++ be_fix 32 salt ++ be_fix 32 inithash) mod 2 ^ 160.
End addresses.

Section evm.
Context `{!Crypto} `{!PrecompileLib} (D : Database) (env : Env) (interp : RunFun).
Local Abbreviation rules := (env_rules env).
Local Abbreviation number := (ctx_BlockNumber (env_ctx env)).

(** ** The stack of states *)

(** [states] is an array of 1027 pointers. *)
Definition Push (r : dbref) : M VM () :=
  let! v := mget in
  do! (if negb (bool_decide (env_vaultState env = r)) && negb (vm_smiloReadOnly v)
       then mmod (set_smiloReadOnly true (vm_currentStateDepth v)) else mret' ()) in
  if vm_currentStateDepth v <? 1027 then
    do! mmod (set_states (<[Z.to_nat (vm_currentStateDepth v) := Some r]> (vm_states v)) (u64 (vm_currentStateDepth v + 1))) in
    mmod (set_StateDB r)
  else mpanic.
Definition Pop : M VM () :=
  let! v := mget in
  let depth := u64 (vm_currentStateDepth v - 1) in
  do! mmod (set_states (vm_states v) depth) in
  do! (if (depth =? vm_readOnlyDepth v) && vm_smiloReadOnly v
       then mmod (set_smiloReadOnly false (vm_readOnlyDepth v)) else mret' ()) in
  let! r := mderef (mjoin (vm_states v !! Z.to_nat (u64 (depth - 1)))) in
  mmod (set_StateDB r).

(** ** run *)

Definition CanRun (code : bytes) : bool := true.

Definition run (contract : Contract) (input : bytes) (readOnly isVault : bool) : M VM (bytes * err * Contract) :=
  match c_CodeAddr contract ≫= precompiles rules with
  | Some p => mderef (RunPrecompiledContract p input contract)
  | None => if CanRun (c_Code contract) then interp contract input readOnly isVault
            else mret' ([], Some ErrNoCompatibleInterpreter, contract)
  end.

(** What follows [run] in the calls: on an error the state [r] goes back to the
    snapshot, and the gas is gone unless the callee reverted. *)
Definition after_run (r : M VM dbref) (snapshot : Z) (res : bytes * err * Contract) : M VM (bytes * Z * err) :=
  let '(ret, e, contract) := res in
  match e with
  | None => mret' (ret, c_Gas contract, None)
  | Some e =>
      let! db := r in
      do! on_db db (RevertToSnapshot snapshot) in
      mret' (ret, if bool_decide (e = errExecutionReverted) then c_Gas contract else 0, Some e)
  end.
Definition current_StateDB : M VM dbref := let! v := mget in mret' (vm_StateDB v).

(** A new contract, with the code of an account of [r]. *)
Definition callee (caller : ContractRef) (object : address) (value gas : Z) (r : dbref) (addr : address) : M VM Contract :=
  do! new_jumpdests caller in
  let! h := on_db r (GetCodeHash addr) in
  let! code := on_db r (GetCode D addr) in
  mret' (SetCallCode addr h (default [] code) (NewContract caller object value gas)).

(** [evm.Transfer] under Smilo: skipped when the value is zero, refused for a vault
    account in read-only mode.  [recipient'] is the recipient without Smilo. *)
Definition smilo_transfer (r : M VM dbref) (sender recipient recipient' : address) (value : Z) (isVault : bool) : M VM err :=
  let! v := mget in
  let! db := r in
  if env_IsSmilo env then
    if negb (Z.sgn value =? 0) then
      if vm_smiloReadOnly v && isVault then mret' (Some ErrReadOnlyValueTransfer) else
      do! on_db db (Transfer sender recipient value number) in mret' None
    else mret' None
  else do! on_db db (Transfer sender recipient' value number) in mret' None.

(** ** Call *)

Definition is_precompile (addr : address) : bool := match precompiles rules addr with Some _ => true | None => false end.

(** After the push of the callee's state. *)
Definition Call_body (caller : ContractRef) (addr : address) (input : bytes) (gas value : Z) (isVault : bool)
    : M VM (bytes * Z * err) :=
  let! v := mget in
  if CallCreateDepth <? vm_depth v then mret' ([], gas, Some ErrDepth) else
  let! can := on_db PublicDB (CanTransfer (ref_Address caller) value) in
  if negb can then mret' ([], gas, Some ErrInsufficientBalance) else
  let! snapshot := on_StateDB StateDB_Snapshot in
  let! exists_ := on_StateDB (Exist addr) in
  if negb exists_ && negb (is_precompile addr) && IsEIP158 rules && (Z.sgn value =? 0)
  then mret' ([], gas, None) else
  do! (if exists_ : bool then mret' () else on_StateDB (CreateAccount addr)) in
  let! e := smilo_transfer (mret' PublicDB) (ref_Address caller) addr addr value isVault in
  match e with
  | Some e => mret' ([], gas, Some e)
  | None =>
      let! db := current_StateDB in
      let! contract := callee caller addr value gas db addr in
      let! res := run contract input false isVault in
      after_run current_StateDB snapshot res
  end.
Definition evm_norecursion : M VM bool :=
  let! v := mget in mret' (cfg_NoRecursion (env_cfg env) && (0 <? vm_depth v)).

Definition Call (caller : ContractRef) (addr : address) (input : bytes) (gas value : Z) (isVault : bool)
    : M VM (bytes * Z * err) :=
  let! stop := evm_norecursion in
  if stop : bool then mret' ([], gas, None) else
  let! (isVaultOnDB, thisstate) := getPrivateOrPublicStateDB env addr in
  do! Push thisstate in
  let isVault := if negb (eqb isVault isVaultOnDB) then isVaultOnDB else isVault in
  let! r := Call_body caller addr input gas value isVault in
  do! Pop in mret' r.

(** ** CallCode *)

Definition CallCode_body (caller : ContractRef) (addr : address) (input : bytes) (gas value : Z) (isVault : bool)
    : M VM (bytes * Z * err) :=
  let! v := mget in
  if CallCreateDepth <? vm_depth v then mret' ([], gas, Some ErrDepth) else
  let! can := on_StateDB (CanTransfer (ref_Address caller) value) in
  if negb can then mret' ([], gas, Some ErrInsufficientBalance) else
  let! snapshot := on_StateDB StateDB_Snapshot in
  let! db := current_StateDB in
  let! contract := callee caller (ref_Address caller) value gas db addr in
  let! res := run contract input false isVault in
  after_run current_StateDB snapshot res.
Definition CallCode (caller : ContractRef) (addr : address) (input : bytes) (gas value : Z) (isVault : bool)
    : M VM (bytes * Z * err) :=
  let! stop := evm_norecursion in
  if stop : bool then mret' ([], gas, None) else
  let! (isVaultOnDB, thisstate) := getPrivateOrPublicStateDB env addr in
  do! Push thisstate in
  let isVault := if negb (eqb isVault isVaultOnDB) then isVaultOnDB else isVault in
  let! r := CallCode_body caller addr input gas value isVault in
  do! Pop in mret' r.

(** ** DelegateCall *)

Definition DelegateCall_body (caller : ContractRef) (addr : address) (input : bytes) (gas : Z) (isVault : bool)
    : M VM (bytes * Z * err) :=
  let! v := mget in
  if CallCreateDepth <? vm_depth v then mret' ([], gas, Some ErrDepth) else
  let! snapshot := on_StateDB StateDB_Snapshot in
  let! db := current_StateDB in
  let! contract := callee caller (ref_Address caller) 0 gas db addr in
  let! contract := mderef (AsDelegate caller contract) in
  let! res := run contract input false isVault in
  after_run current_StateDB snapshot res.
Definition DelegateCall (caller : ContractRef) (addr : address) (input : bytes) (gas : Z) (isVault : bool)
    : M VM (bytes * Z * err) :=
  let! stop := evm_norecursion in
  if stop : bool then mret' ([], gas, None) else
  let! (isVaultOnDB, thisstate) := getPrivateOrPublicStateDB env addr in
  do! Push thisstate in
  let isVault := if negb (eqb isVault isVaultOnDB) then isVaultOnDB else isVault in
  let! r := DelegateCall_body caller addr input gas isVault in
  do! Pop in mret' r.

(** ** StaticCall *)

(** The state is not pushed: the snapshot is one of [evm.StateDB], the revert one of
    the callee's state. *)
Definition StaticCall (caller : ContractRef) (addr : address) (input : bytes) (gas : Z) (isVault : bool)
    : M VM (bytes * Z * err) :=
  let! stop := evm_norecursion in
  if stop : bool then mret' ([], gas, None) else
  let! v := mget in
  if CallCreateDepth <? vm_depth v then mret' ([], gas, Some ErrDepth) else
  let! (isVaultOnDB, stateDB) := getPrivateOrPublicStateDB env addr in
  let isVault := if negb (eqb isVault isVaultOnDB) then isVaultOnDB else isVault in
  let! snapshot := on_StateDB StateDB_Snapshot in
  let! contract := callee caller addr 0 gas stateDB addr in
  do! on_db stateDB (AddBalance addr 0 number) in
  let! res := run contract input true isVault in
  after_run (mret' stateDB) snapshot res.

(** ** Create *)

Record codeAndHash := MkCodeAndHash { ch_code : bytes; ch_hash : hash }.
Definition codeAndHash_Hash (c : codeAndHash) : codeAndHash :=
  if ch_hash c =? 0 then MkCodeAndHash (ch_code c) (Keccak256 (ch_code c)) else c.
Definition SetCodeOptionalHash (addr : address) (ch : codeAndHash) (c : Contract) : Contract :=
  MkContract (c_CallerAddress c) (c_self c) (c_analysis c) (ch_code ch) (ch_hash ch) (Some addr) (c_Input c) (c_Gas c) (c_value c).

(** What follows [run]: the code is stored if it is small enough and paid for. *)
Definition after_create (snapshot : Z) (address_ : address) (res : bytes * err * Contract)
    : M VM (bytes * address * Z * err) :=
  let '(ret, e, contract) := res in
  let maxCodeSizeExceeded := IsEIP158 rules && (MaxCodeSize <? blen ret) in
  let! (e, contract) :=
    (if bool_decide (e = None) && negb maxCodeSizeExceeded then
       match UseGas (u64 (blen ret * CreateDataGas)) contract with
       | Some contract => do! on_StateDB (SetCode D address_ ret) in mret' (e, contract)
       | None => mret' (Some ErrCodeStoreOutOfGas, contract)
       end
     else mret' (e, contract)) in
  let! gas :=
    (if maxCodeSizeExceeded ||
        (negb (bool_decide (e = None)) && (IsHomestead rules || negb (bool_decide (e = Some ErrCodeStoreOutOfGas)))) then
       do! on_StateDB (RevertToSnapshot snapshot) in
       mret' (if bool_decide (e = Some errExecutionReverted) then c_Gas contract else 0)
     else mret' (c_Gas contract)) in
  let e := if maxCodeSizeExceeded && bool_decide (e = None) then Some errMaxCodeSizeExceeded else e in
  mret' (ret, address_, gas, e).

(** The nonce of the creator is one of the vault state inside a call, and of the
    public state in a transaction.  Without Smilo the transfer goes to the named
    result [contractAddr], which is still the zero address. *)
Definition creatorStateDb : M VM dbref :=
  let! v := mget in mret' (if 0 <? vm_depth v then env_vaultState env else PublicDB).

Definition create (caller : ContractRef) (ch : codeAndHash) (gas value : Z) (address_ : address) (isVault : bool)
    : M VM (bytes * address * Z * err) :=
  let! v := mget in
  if CallCreateDepth <? vm_depth v then mret' ([], 0, gas, Some ErrDepth) else
  let! can := on_StateDB (CanTransfer (ref_Address caller) value) in
  if negb can then mret' ([], 0, gas, Some ErrInsufficientBalance) else
  let! creator := creatorStateDb in
  let isVaultOnDB := 0 <? vm_depth v in
  let isVault := if negb (eqb isVault isVaultOnDB) then isVaultOnDB else isVault in
  let! nonce := on_db creator (GetNonce (ref_Address caller)) in
  do! on_db creator (SetNonce (ref_Address caller) (u64 (nonce + 1))) in
  let! contractHash := on_StateDB (GetCodeHash address_) in
  let! n := on_StateDB (GetNonce address_) in
  if negb (n =? 0) || (negb (contractHash =? 0) && negb (contractHash =? emptyCodeHash))
  then mret' ([], 0, 0, Some ErrContractAddressCollision) else
  let! snapshot := on_StateDB StateDB_Snapshot in
  do! on_StateDB (CreateAccount address_) in
  do! (if IsEIP158 rules then on_StateDB (SetNonce address_ 1) else mret' ()) in
  let! e := smilo_transfer current_StateDB (ref_Address caller) address_ 0 value isVault in
  match e with
  | Some e => mret' ([], 0, gas, Some e)
  | None =>
      do! new_jumpdests caller in
      let contract := SetCodeOptionalHash address_ ch (NewContract caller address_ value gas) in
      let! stop := evm_norecursion in
      if stop : bool then mret' ([], address_, gas, None) else
      let! res := run contract [] false isVault in
      after_create snapshot address_ res
  end.

Definition Create (caller : ContractRef) (code : bytes) (gas value : Z) (isVault : bool)
    : M VM (bytes * address * Z * err) :=
  let! creator := creatorStateDb in
  let! nonce := on_db creator (GetNonce (ref_Address caller)) in
  create caller (MkCodeAndHash code 0) gas value (CreateAddress (ref_Address caller) nonce) isVault.

Definition Create2 (caller : ContractRef) (code : bytes) (gas endowment salt : Z) (isVault : bool)
    : M VM (bytes * address * Z * err) :=
  let ch := codeAndHash_Hash (MkCodeAndHash code 0) in
  create caller ch gas endowment (CreateAddress2 (ref_Address caller) (BigToHash salt) (ch_hash ch)) isVault.
End evm.
