(* ===== verification/VmInstr.v ===== *)
(** * Instructions: core/vm/instructions.go and the ones of eips.go

    An item that the source updates in place is popped and pushed again; the pool
    of integers, which only recycles them, is left out.  [isVault] reaches the
    calls and creations only. *)

From Stdlib Require Import ZArith Lia.
From S2P Require Import Prelude Errors Rlp Fullnode Messages SmiloPay StateDB VmWord Vm VmGas VmContracts VmEVM.
Import VmGas.Params.
Open Scope didux_scope.

(** Of the interpreter and [isVault]. *)
Definition executionFunc : Type := RunFun → bool → M Frame (bytes * err).

Definition done_ : M Frame (bytes * err) := mret' ([], None).
Definition push_done (x : Z) : M Frame (bytes * err) := do! push x in done_.
(** Instructions that compute on the top of the stack. *)
Definition unary (g : Z → Z) : executionFunc := λ _ _, let! x := pop in push_done (g x).
Definition binary (g : Z → Z → Z) : executionFunc := λ _ _, let! x := pop in let! y := pop in push_done (g x y).
Definition ternary (g : Z → Z → Z → Z) : executionFunc :=
  λ _ _, let! x := pop in let! y := pop in let! z := pop in push_done (g x y z).
Definition bool_word (b : bool) : Z := if b then 1 else 0.

(** ** Arithmetic *)

Definition opAdd : executionFunc := binary (λ x y, U256 (x + y)).
Definition opSub : executionFunc := binary (λ x y, U256 (x - y)).
Definition opMul : executionFunc := binary (λ x y, U256 (x * y)).
Definition opDiv : executionFunc := binary (λ x y, if negb (Z.sgn y =? 0) then U256 (x / y) else 0).
Definition opSdiv : executionFunc := binary (λ x y,
  let x := S256 x in
  let y := S256 y in
  if (Z.sgn y =? 0) || (Z.sgn x =? 0) then 0
  else if negb (Z.sgn x =? Z.sgn y) then U256 (- (Z.abs x / Z.abs y))
  else U256 (Z.abs x / Z.abs y)).
Definition opMod : executionFunc := binary (λ x y, if Z.sgn y =? 0 then 0 else U256 (x mod y)).
Definition opSmod : executionFunc := binary (λ x y,
  let x := S256 x in
  let y := S256 y in
  if Z.sgn y =? 0 then 0
  else if Z.sgn x <? 0 then U256 (- (Z.abs x mod Z.abs y))
  else U256 (Z.abs x mod Z.abs y)).
Definition opExp : executionFunc := binary (λ base exponent,
  let cmpToOne := big_Cmp exponent 1 in
  if cmpToOne <? 0 then 1
  else if Z.sgn base =? 0 then 0
  else if cmpToOne =? 0 then base
  else Exp base exponent).
(** Nothing more is popped when the byte index is 31 or above. *)
Definition opSignExtend : executionFunc := λ _ _,
  let! back := pop in
  if big_Cmp back 31 <? 0 then
    let bit := u64 (big_Uint64 back * 8 + 7) in
    let! num := pop in
    let mask := Z.shiftl 1 bit - 1 in
    push_done (U256 (if Z.testbit num bit then Z.lor num (Z.lnot mask) else Z.land num mask))
  else done_.
Definition opAddmod : executionFunc := ternary (λ x y z, if 0 <? big_Cmp z 0 then U256 ((x + y) mod z) else 0).
Definition opMulmod : executionFunc := ternary (λ x y z, if 0 <? big_Cmp z 0 then U256 ((x * y) mod z) else 0).

(** ** Comparisons and bits *)

Definition opNot : executionFunc := unary (λ x, U256 (Z.lnot x)).
Definition opLt : executionFunc := binary (λ x y, bool_word (big_Cmp x y <? 0)).
Definition opGt : executionFunc := binary (λ x y, bool_word (0 <? big_Cmp x y)).
Definition opSlt : executionFunc := binary (λ x y,
  let xSign := big_Cmp x tt255 in
  let ySign := big_Cmp y tt255 in
  if (0 <=? xSign) && (ySign <? 0) then 1
  else if (xSign <? 0) && (0 <=? ySign) then 0
  else bool_word (big_Cmp x y <? 0)).
Definition opSgt : executionFunc := binary (λ x y,
  let xSign := big_Cmp x tt255 in
  let ySign := big_Cmp y tt255 in
  if (0 <=? xSign) && (ySign <? 0) then 0
  else if (xSign <? 0) && (0 <=? ySign) then 1
  else bool_word (0 <? big_Cmp x y)).
Definition opEq : executionFunc := binary (λ x y, bool_word (big_Cmp x y =? 0)).
Definition opIszero : executionFunc := unary (λ x, if 0 <? Z.sgn x then 0 else 1).
Definition opAnd : executionFunc := binary Z.land.
Definition opOr : executionFunc := binary Z.lor.
Definition opXor : executionFunc := binary Z.lxor.
Definition opByte : executionFunc := binary (λ th val,
  if big_Cmp th 32 <? 0 then math_Byte val 32 (big_Int64 th) else 0).
Definition opSHL : executionFunc := binary (λ shift value,
  let shift := U256 shift in
  let value := U256 value in
  if 0 <=? big_Cmp shift 256 then 0 else U256 (Z.shiftl value (big_Uint64 shift))).
Definition opSHR : executionFunc := binary (λ shift value,
  let shift := U256 shift in
  let value := U256 value in
  if 0 <=? big_Cmp shift 256 then 0 else U256 (Z.shiftr value (big_Uint64 shift))).
Definition opSAR : executionFunc := binary (λ shift value,
  let shift := U256 shift in
  let value := S256 value in
  if 0 <=? big_Cmp shift 256 then U256 (if 0 <=? Z.sgn value then 0 else -1)
  else U256 (Z.shiftr value (big_Uint64 shift))).

Section instructions.
Context `{!Crypto} `{!PrecompileLib} (D : Database) (env : Env).
Local Abbreviation ctx := (env_ctx env).

(** ** Environment *)

Definition opSha3 : executionFunc := λ _ _,
  let! offset := pop in
  let! size := pop in
  let! f := mget in
  let! data := mderef (mem_Get (big_Int64 offset) (big_Int64 size) (f_mem f)) in
  let h := Keccak256 data in
  do! (if cfg_EnablePreimageRecording (env_cfg env) then on_vm (on_StateDB (AddPreimage h data)) else mret' ()) in
  push_done h.
Definition opAddress : executionFunc := λ _ _, let! c := get_contract in push_done (c_self c).
Definition opBalance : executionFunc := λ _ _,
  let! slot := pop in
  let addr := BigToAddress slot in
  let! (_, thisstate) := on_vm (getPrivateOrPublicStateDB env addr) in
  let! balance := on_vm (on_db thisstate (GetBalance addr)) in
  push_done balance.
Definition opOrigin : executionFunc := λ _ _, push_done (ctx_Origin ctx).
Definition opCaller : executionFunc := λ _ _, let! c := get_contract in push_done (c_CallerAddress c).
Definition opCallValue : executionFunc := λ _ _, let! c := get_contract in push_done (c_value c).
Definition opCallDataLoad : executionFunc := λ _ _,
  let! c := get_contract in
  let! off := pop in
  let! d := mderef (getDataBig (c_Input c) off 32) in
  push_done (be_val d).
Definition opCallDataSize : executionFunc := λ _ _, let! c := get_contract in push_done (blen (c_Input c)).

(** [memory.Set] of a padded piece of [data]. *)
Definition copy_to_memory (memOffset dataOffset length : Z) (data : bytes) : M Frame (bytes * err) :=
  let! d := mderef (getDataBig data dataOffset length) in
  do! on_mem (mem_Set (big_Uint64 memOffset) (big_Uint64 length) d) in done_.

Definition opCallDataCopy : executionFunc := λ _ _,
  let! memOffset := pop in
  let! dataOffset := pop in
  let! length := pop in
  let! c := get_contract in
  copy_to_memory memOffset dataOffset length (c_Input c).
Definition opReturnDataSize : executionFunc := λ _ _, let! f := mget in push_done (blen (vm_returnData (f_vm f))).
Definition opReturnDataCopy : executionFunc := λ _ _,
  let! memOffset := pop in
  let! dataOffset := pop in
  let! length := pop in
  let end_ := dataOffset + length in
  let! f := mget in
  let returnData := vm_returnData (f_vm f) in
  if negb (big_IsUint64 end_) || (blen returnData <? big_Uint64 end_) then mret' ([], Some errReturnDataOutOfBounds) else
  let! d := mderef (slice returnData (big_Uint64 dataOffset) (big_Uint64 end_)) in
  do! on_mem (mem_Set (big_Uint64 memOffset) (big_Uint64 length) d) in done_.
Definition opExtCodeSize : executionFunc := λ _ _,
  let! slot := pop in
  let addr := BigToAddress slot in
  let! (_, thisstate) := on_vm (getPrivateOrPublicStateDB env addr) in
  let! size := on_vm (on_db thisstate (GetCodeSize D addr)) in
  push_done (u64 size).
Definition opCodeSize : executionFunc := λ _ _, let! c := get_contract in push_done (blen (c_Code c)).
Definition opCodeCopy : executionFunc := λ _ _,
  let! memOffset := pop in
  let! codeOffset := pop in
  let! length := pop in
  let! c := get_contract in
  copy_to_memory memOffset codeOffset length (c_Code c).
Definition opExtCodeCopy : executionFunc := λ _ _,
  let! a := pop in
  let addr := BigToAddress a in
  let! memOffset := pop in
  let! codeOffset := pop in
  let! length := pop in
  let! (_, thisstate) := on_vm (getPrivateOrPublicStateDB env addr) in
  let! code := on_vm (on_db thisstate (GetCode D addr)) in
  copy_to_memory memOffset codeOffset length (default [] code).
Definition opExtCodeHash : executionFunc := λ _ _,
  let! slot := pop in
  let address := BigToAddress slot in
  let! e := on_vm (on_StateDB (Empty address)) in
  if e : bool then push_done 0 else
  let! h := on_vm (on_StateDB (GetCodeHash address)) in push_done h.
Definition opGasprice : executionFunc := λ _ _, push_done (ctx_GasPrice ctx).
Definition opSelfBalance : executionFunc := λ _ _,
  let! c := get_contract in
  let! balance := on_vm (on_StateDB (GetBalance (c_self c))) in push_done balance.
Definition opChainID : executionFunc := λ _ _, let! chainId := mderef (env_ChainID env) in push_done chainId.

(** ** Block *)

Definition opBlockhash : executionFunc := unary (λ num,
  let n := ctx_BlockNumber ctx - 257 in
  if (0 <? big_Cmp num n) && (big_Cmp num (ctx_BlockNumber ctx) <? 0) then ctx_GetHash ctx (big_Uint64 num) else 0).
Definition opCoinbase : executionFunc := λ _ _, push_done (ctx_Coinbase ctx).
Definition opTimestamp : executionFunc := λ _ _, push_done (U256 (ctx_Time ctx)).
Definition opNumber : executionFunc := λ _ _, push_done (U256 (ctx_BlockNumber ctx)).
Definition opDifficulty : executionFunc := λ _ _, push_done (U256 (ctx_Difficulty ctx)).
Definition opGasLimit : executionFunc := λ _ _, push_done (U256 (ctx_GasLimit ctx)).

(** ** Stack, memory, storage and flow *)

Definition opPop : executionFunc := λ _ _, do! pop in done_.
Definition opMload : executionFunc := λ _ _,
  let! offset := pop in
  let! f := mget in
  let! d := mderef (mem_Get (big_Int64 offset) 32 (f_mem f)) in
  push_done (be_val d).
Definition opMstore : executionFunc := λ _ _,
  let! mStart := pop in
  let! val := pop in
  do! on_mem (mem_Set32 (big_Uint64 mStart) val) in done_.
Definition opMstore8 : executionFunc := λ _ _,
  let! off := pop in
  let! val := pop in
  let off := big_Int64 off in
  let! f := mget in
  if (0 <=? off) && (off <? mem_Len (f_mem f)) then
    do! mmod (set_mem (MkMemory (<[Z.to_nat off := Z_byte (Z.land (big_Int64 val) 0xff)]> (m_store (f_mem f)))
                                (m_lastGasCost (f_mem f)))) in done_
  else mpanic.
Definition opSload : executionFunc := λ _ _,
  let! loc := pop in
  let! c := get_contract in
  let! (_, thisstate) := on_vm (getPrivateOrPublicStateDB env (c_self c)) in
  let! val := on_vm (on_db thisstate (db_GetState D (c_self c) (BigToHash loc))) in
  push_done val.
Definition opSstore : executionFunc := λ _ _,
  let! loc := pop in
  let! val := pop in
  let! c := get_contract in
  let! (_, thisstate) := on_vm (getPrivateOrPublicStateDB env (c_self c)) in
  do! on_vm (on_db thisstate (SetState D (c_self c) (BigToHash loc) (BigToHash val))) in done_.

Definition jump_to (pos : Z) : M Frame (bytes * err) :=
  let! ok := validJumpdest pos in
  if negb ok then
    let! c := get_contract in mret' ([], Some (errInvalidJump (GetOp c (big_Uint64 pos)) pos))
  else do! mmod (set_pc (big_Uint64 pos)) in done_.
Definition opJump : executionFunc := λ _ _, let! pos := pop in jump_to pos.
Definition opJumpi : executionFunc := λ _ _,
  let! pos := pop in
  let! cond := pop in
  if negb (Z.sgn cond =? 0) then jump_to pos
  else do! mmod (λ f, set_pc (u64 (f_pc f + 1)) f) in done_.
Definition opJumpdest : executionFunc := λ _ _, done_.
Definition opPc : executionFunc := λ _ _, let! f := mget in push_done (f_pc f).
Definition opMsize : executionFunc := λ _ _, let! f := mget in push_done (mem_Len (f_mem f)).
Definition opGas : executionFunc := λ _ _, let! c := get_contract in push_done (c_Gas c).

(** ** Creations *)

(** [UseGas(gas)], whose answer is ignored. *)
Definition charge (gas : Z) : M Frame () := mmod (λ f, set_contract (default (f_contract f) (UseGas gas (f_contract f))) f).
(** [contract.Gas += returnGas]. *)
Definition refill (returnGas : Z) : M Frame () :=
  mmod (λ f, set_contract (set_Gas (u64 (c_Gas (f_contract f) + returnGas)) (f_contract f)) f).
(** A method of the EVM, called by the running contract. *)
Definition by_contract {A} (m : ContractRef → M VM A) : M Frame A :=
  let! c := get_contract in on_vm (m (ContractPtr c)).

Definition opCreate : executionFunc := λ interp isVault,
  let! value := pop in
  let! offset := pop in
  let! size := pop in
  let! f := mget in
  let! input := mderef (mem_Get (big_Int64 offset) (big_Int64 size) (f_mem f)) in
  let gas := c_Gas (f_contract f) in
  let gas := if IsEIP150 (env_rules env) then gas - gas / 64 else gas in
  do! charge gas in
  let! (res, addr, returnGas, suberr) := by_contract (λ c, Create D env interp c input gas value isVault) in
  do! (if IsHomestead (env_rules env) && bool_decide (suberr = Some ErrCodeStoreOutOfGas) then push 0
       else if negb (bool_decide (suberr = None)) && negb (bool_decide (suberr = Some ErrCodeStoreOutOfGas)) then push 0
       else push addr) in
  do! refill returnGas in
  mret' (if bool_decide (suberr = Some errExecutionReverted) then res else [], None).

Definition opCreate2 : executionFunc := λ interp isVault,
  let! endowment := pop in
  let! offset := pop in
  let! size := pop in
  let! salt := pop in
  let! f := mget in
  let! input := mderef (mem_Get (big_Int64 offset) (big_Int64 size) (f_mem f)) in
  let gas := c_Gas (f_contract f) in
  let gas := gas - gas / 64 in
  do! charge gas in
  let! (res, addr, returnGas, suberr) := by_contract (λ c, Create2 D env interp c input gas endowment salt isVault) in
  do! (if negb (bool_decide (suberr = None)) then push 0 else push addr) in
  do! refill returnGas in
  mret' (if bool_decide (suberr = Some errExecutionReverted) then res else [], None).

(** ** Calls *)

(** From the answer of the call on. *)
Definition after_call (retOffset retSize : Z) (r : bytes * Z * err) : M Frame (bytes * err) :=
  let '(ret, returnGas, e) := r in
  do! push (if bool_decide (e = None) then 1 else 0) in
  do! (if bool_decide (e = None) || bool_decide (e = Some errExecutionReverted)
       then on_mem (mem_Set (big_Uint64 retOffset) (big_Uint64 retSize) ret) else mret' ()) in
  do! refill returnGas in
  mret' (ret, None).

Definition with_value (call : RunFun → ContractRef → address → bytes → Z → Z → bool → M VM (bytes * Z * err)) : executionFunc :=
  λ interp isVault,
  do! pop in
  let! f := mget in
  let gas := vm_callGasTemp (f_vm f) in
  let! addr := pop in
  let! value := pop in
  let! inOffset := pop in
  let! inSize := pop in
  let! retOffset := pop in
  let! retSize := pop in
  let value := U256 value in
  let! f := mget in
  let! args := mderef (mem_Get (big_Int64 inOffset) (big_Int64 inSize) (f_mem f)) in
  let gas := if negb (Z.sgn value =? 0) then u64 (gas + CallStipend) else gas in
  let! r := by_contract (λ c, call interp c (BigToAddress addr) args gas value isVault) in
  after_call retOffset retSize r.
Definition opCall : executionFunc := with_value (Call D env).
Definition opCallCode : executionFunc := with_value (CallCode D env).

Definition without_value (call : RunFun → ContractRef → address → bytes → Z → bool → M VM (bytes * Z * err)) : executionFunc :=
  λ interp isVault,
  do! pop in
  let! f := mget in
  let gas := vm_callGasTemp (f_vm f) in
  let! addr := pop in
  let! inOffset := pop in
  let! inSize := pop in
  let! retOffset := pop in
  let! retSize := pop in
  let! f := mget in
  let! args := mderef (mem_Get (big_Int64 inOffset) (big_Int64 inSize) (f_mem f)) in
  let! r := by_contract (λ c, call interp c (BigToAddress addr) args gas isVault) in
  after_call retOffset retSize r.
Definition opDelegateCall : executionFunc := without_value (DelegateCall D env).
Definition opStaticCall : executionFunc := without_value (StaticCall D env).

(** ** Halting *)

Definition opReturn : executionFunc := λ _ _,
  let! offset := pop in
  let! size := pop in
  let! f := mget in
  let! ret := mderef (mem_Get (big_Int64 offset) (big_Int64 size) (f_mem f)) in
  mret' (ret, None).
Definition opRevert : executionFunc := opReturn.
Definition opStop : executionFunc := λ _ _, done_.
Definition opSuicide : executionFunc := λ _ _,
  let! c := get_contract in
  let! (_, db) := on_vm (getPrivateOrPublicStateDB env (c_self c)) in
  let! balance := on_vm (on_db db (GetBalance (c_self c))) in
  let! beneficiary := pop in
  do! on_vm (on_db db (AddBalance (BigToAddress beneficiary) balance (ctx_BlockNumber ctx))) in
  do! on_vm (on_db db (Suicide (c_self c))) in done_.

(** ** Families *)

Fixpoint pop_topics (n : nat) : M Frame (list hash) :=
  match n with
  | O => mret' []
  | S n' => let! x := pop in let! tl := pop_topics n' in mret' (BigToHash x :: tl)
  end.
Definition makeLog (size : nat) : executionFunc := λ _ _,
  let! mStart := pop in
  let! mSize := pop in
  let! topics := pop_topics size in
  let! f := mget in
  let! d := mderef (mem_Get (big_Int64 mStart) (big_Int64 mSize) (f_mem f)) in
  do! on_vm (on_StateDB (AddLog (MkLog (c_self (f_contract f)) topics d (big_Uint64 (ctx_BlockNumber ctx)) 0 0 0 0 false))) in
  done_.

Definition opPush1 : executionFunc := λ _ _,
  do! mmod (λ f, set_pc (u64 (f_pc f + 1)) f) in
  let! f := mget in
  let c := f_contract f in
  if f_pc f <? blen (c_Code c) then push_done (GetByte c (f_pc f)) else push_done 0.
(** The next position is converted to a signed integer. *)
Definition makePush (size pushByteSize : Z) : executionFunc := λ _ _,
  let! f := mget in
  let code := c_Code (f_contract f) in
  let codeLen := blen code in
  let next := i64 (u64 (f_pc f + 1)) in
  let startMin := if next <? codeLen then next else codeLen in
  let endMin := if startMin + pushByteSize <? codeLen then startMin + pushByteSize else codeLen in
  let! d := mderef (slice code startMin endMin) in
  do! push (be_val (RightPadBytes d pushByteSize)) in
  do! mmod (λ f, set_pc (u64 (f_pc f + size)) f) in done_.
Definition makeDup (size : nat) : executionFunc := λ _ _, do! stack_dup size in done_.
Definition makeSwap (size : nat) : executionFunc := λ _ _, do! stack_swap (S size) in done_.
End instructions.
