(* ===== verification/VmInterp.v ===== *)
(** * Jump tables and the interpreter: core/vm/{jump_table,stack_table,eips,interpreter}.go

    An [operation] is the source's struct; a jump table maps the opcodes that have
    one.  Each fork's table is the previous one with some entries changed.

    [step] is one turn of the loop of [Run]; [None] continues.  [loop] takes fuel for
    the turns and the nested calls together: every turn that does not end the run
    pays at least one unit of gas, and a nested call starts with less gas than its
    caller had, so one more than the gas is enough (VmLaws). *)

From Stdlib Require Import ZArith Lia.
From S2P Require Import Prelude Errors Rlp Fullnode Messages SmiloPay StateDB VmWord Vm VmGas VmContracts VmEVM VmInstr.
Import VmGas.Params.
Open Scope didux_scope.

Record operation := MkOperation {
  execute : executionFunc;
  constantGas : Z;
  dynamicGas : option gasFunc;
  op_minStack : Z; op_maxStack : Z;
  memorySize : option memorySizeFunc;
  halts : bool; jumps : bool; writes : bool; valid : bool; reverts : bool; returns : bool
}.

Definition minStack (pops push : Z) : Z := pops.
Definition maxStack (pop push : Z) : Z := StackLimit + pop - push.

(** The entry of an instruction that pops and pushes some items, and the other
    fields of the struct. *)
Definition op_ (e : executionFunc) (gas pops pushes : Z) : operation :=
  MkOperation e gas None (minStack pops pushes) (maxStack pops pushes) None false false false true false false.
Definition with_constantGas (gas : Z) (o : operation) : operation :=
  MkOperation (execute o) gas (dynamicGas o) (op_minStack o) (op_maxStack o) (memorySize o)
    (halts o) (jumps o) (writes o) (valid o) (reverts o) (returns o).
Definition priced (g : gasFunc) (o : operation) : operation :=
  MkOperation (execute o) (constantGas o) (Some g) (op_minStack o) (op_maxStack o) (memorySize o)
    (halts o) (jumps o) (writes o) (valid o) (reverts o) (returns o).
Definition sized (m : memorySizeFunc) (o : operation) : operation :=
  MkOperation (execute o) (constantGas o) (dynamicGas o) (op_minStack o) (op_maxStack o) (Some m)
    (halts o) (jumps o) (writes o) (valid o) (reverts o) (returns o).
Definition halting (o : operation) : operation :=
  MkOperation (execute o) (constantGas o) (dynamicGas o) (op_minStack o) (op_maxStack o) (memorySize o)
    true (jumps o) (writes o) (valid o) (reverts o) (returns o).
Definition jumping (o : operation) : operation :=
  MkOperation (execute o) (constantGas o) (dynamicGas o) (op_minStack o) (op_maxStack o) (memorySize o)
    (halts o) true (writes o) (valid o) (reverts o) (returns o).
Definition writing (o : operation) : operation :=
  MkOperation (execute o) (constantGas o) (dynamicGas o) (op_minStack o) (op_maxStack o) (memorySize o)
    (halts o) (jumps o) true (valid o) (reverts o) (returns o).
Definition reverting (o : operation) : operation :=
  MkOperation (execute o) (constantGas o) (dynamicGas o) (op_minStack o) (op_maxStack o) (memorySize o)
    (halts o) (jumps o) (writes o) (valid o) true (returns o).
Definition returning (o : operation) : operation :=
  MkOperation (execute o) (constantGas o) (dynamicGas o) (op_minStack o) (op_maxStack o) (memorySize o)
    (halts o) (jumps o) (writes o) (valid o) (reverts o) true.

Abbreviation JumpTable := (gmap Z operation).
(** The zero value of an entry that is not set. *)
Definition no_operation : operation :=
  MkOperation (λ _ _, mpanic) 0 None 0 0 None false false false false false false.

Section tables.
Context `{!Crypto} `{!PrecompileLib} (D : Database) (env : Env).

(** The instructions of the first release. *)
Definition frontier_list : list (Z * operation) :=
  [(#STOP, halting (op_ opStop 0 0 0));
   (#ADD, op_ opAdd GasFastestStep 2 1);
   (#MUL, op_ opMul GasFastStep 2 1);
   (#SUB, op_ opSub GasFastestStep 2 1);
   (#DIV, op_ opDiv GasFastStep 2 1);
   (#SDIV, op_ opSdiv GasFastStep 2 1);
   (#MOD, op_ opMod GasFastStep 2 1);
   (#SMOD, op_ opSmod GasFastStep 2 1);
   (#ADDMOD, op_ opAddmod GasMidStep 3 1);
   (#MULMOD, op_ opMulmod GasMidStep 3 1);
   (#EXP, priced gasExpFrontier (op_ opExp 0 2 1));
   (#SIGNEXTEND, op_ opSignExtend GasFastStep 2 1);
   (#LT, op_ opLt GasFastestStep 2 1);
   (#GT, op_ opGt GasFastestStep 2 1);
   (#SLT, op_ opSlt GasFastestStep 2 1);
   (#SGT, op_ opSgt GasFastestStep 2 1);
   (#EQ, op_ opEq GasFastestStep 2 1);
   (#ISZERO, op_ opIszero GasFastestStep 1 1);
   (#AND, op_ opAnd GasFastestStep 2 1);
   (#XOR, op_ opXor GasFastestStep 2 1);
   (#OR, op_ opOr GasFastestStep 2 1);
   (#NOT, op_ opNot GasFastestStep 1 1);
   (#BYTE, op_ opByte GasFastestStep 2 1);
   (#SHA3, priced gasSha3 (sized memorySha3 (op_ (opSha3 env) Sha3Gas 2 1)));
   (#ADDRESS, op_ opAddress GasQuickStep 0 1);
   (#BALANCE, op_ (opBalance env) BalanceGasFrontier 1 1);
   (#ORIGIN, op_ (opOrigin env) GasQuickStep 0 1);
   (#CALLER, op_ opCaller GasQuickStep 0 1);
   (#CALLVALUE, op_ opCallValue GasQuickStep 0 1);
   (#CALLDATALOAD, op_ opCallDataLoad GasFastestStep 1 1);
   (#CALLDATASIZE, op_ opCallDataSize GasQuickStep 0 1);
   (#CALLDATACOPY, priced gasCallDataCopy (sized memoryCallDataCopy (op_ opCallDataCopy GasFastestStep 3 0)));
   (#CODESIZE, op_ opCodeSize GasQuickStep 0 1);
   (#CODECOPY, priced gasCodeCopy (sized memoryCodeCopy (op_ opCodeCopy GasFastestStep 3 0)));
   (#GASPRICE, op_ (opGasprice env) GasQuickStep 0 1);
   (#EXTCODESIZE, op_ (opExtCodeSize D env) ExtcodeSizeGasFrontier 1 1);
   (#EXTCODECOPY, priced gasExtCodeCopy (sized memoryExtCodeCopy (op_ (opExtCodeCopy D env) ExtcodeCopyBaseFrontier 4 0)));
   (#BLOCKHASH, op_ (opBlockhash env) GasExtStep 1 1);
   (#COINBASE, op_ (opCoinbase env) GasQuickStep 0 1);
   (#TIMESTAMP, op_ (opTimestamp env) GasQuickStep 0 1);
   (#NUMBER, op_ (opNumber env) GasQuickStep 0 1);
   (#DIFFICULTY, op_ (opDifficulty env) GasQuickStep 0 1);
   (#GASLIMIT, op_ (opGasLimit env) GasQuickStep 0 1);
   (#POP, op_ opPop GasQuickStep 1 0);
   (#MLOAD, priced pureMemoryGascost (sized memoryMLoad (op_ opMload GasFastestStep 1 1)));
   (#MSTORE, priced pureMemoryGascost (sized memoryMStore (op_ opMstore GasFastestStep 2 0)));
   (#MSTORE8, priced pureMemoryGascost (sized memoryMStore8 (op_ opMstore8 GasFastestStep 2 0)));
   (#SLOAD, op_ (opSload D env) SloadGasFrontier 1 1);
   (#SSTORE, writing (priced (gasSStore D env) (op_ (opSstore D env) 0 2 0)));
   (#JUMP, jumping (op_ opJump GasMidStep 1 0));
   (#JUMPI, jumping (op_ opJumpi GasSlowStep 2 0));
   (#PC, op_ opPc GasQuickStep 0 1);
   (#MSIZE, op_ opMsize GasQuickStep 0 1);
   (#GAS, op_ opGas GasQuickStep 0 1);
   (#JUMPDEST, op_ opJumpdest JumpdestGas 0 0);
   (#(PUSH 1), op_ opPush1 GasFastestStep 0 1);
   (#(LOG 0), writing (priced (makeGasLog 0) (sized memoryLog (op_ (makeLog env 0) 0 2 0))));
   (#(LOG 1), writing (priced (makeGasLog 1) (sized memoryLog (op_ (makeLog env 1) 0 3 0))));
   (#(LOG 2), writing (priced (makeGasLog 2) (sized memoryLog (op_ (makeLog env 2) 0 4 0))));
   (#(LOG 3), writing (priced (makeGasLog 3) (sized memoryLog (op_ (makeLog env 3) 0 5 0))));
   (#(LOG 4), writing (priced (makeGasLog 4) (sized memoryLog (op_ (makeLog env 4) 0 6 0))));
   (#CREATE, returning (writing (priced pureMemoryGascost (sized memoryCreate (op_ (opCreate D env) CreateGas 3 1)))));
   (#CALL, returning (priced (gasCall env) (sized memoryCall (op_ (opCall D env) CallGasFrontier 7 1))));
   (#CALLCODE, returning (priced (gasCallCode env) (sized memoryCall (op_ (opCallCode D env) CallGasFrontier 7 1))));
   (#RETURN, halting (priced pureMemoryGascost (sized memoryReturn (op_ opReturn 0 2 0))));
   (#SELFDESTRUCT, writing (halting (priced (gasSelfdestruct env) (op_ (opSuicide env) 0 1 0))))]
  ++ map (λ n, (#(PUSH n), op_ (makePush n n) GasFastestStep 0 1)) (seqZ 2 31)
  ++ map (λ n, (#(DUP n), op_ (makeDup (Z.to_nat n)) GasFastestStep n (n + 1))) (seqZ 1 16)
  ++ map (λ n, (#(SWAP n), op_ (makeSwap (Z.to_nat n)) GasFastestStep (n + 1) (n + 1))) (seqZ 1 16).
Definition newFrontierInstructionSet : JumpTable := list_to_map frontier_list.

Definition newHomesteadInstructionSet : JumpTable :=
  <[#DELEGATECALL := returning (priced (gasDelegateCall env) (sized memoryDelegateCall
      (op_ (opDelegateCall D env) CallGasFrontier 6 1)))]> newFrontierInstructionSet.

(** [instructionSet[op].constantGas = gas]. *)
Definition reprice (op : OpCode) (gas : Z) (jt : JumpTable) : JumpTable :=
  <[#op := with_constantGas gas (default no_operation (jt !! #op))]> jt.
Definition newTangerineWhistleInstructionSet : JumpTable :=
  reprice DELEGATECALL CallGasEIP150 (reprice CALLCODE CallGasEIP150 (reprice CALL CallGasEIP150
    (reprice EXTCODECOPY ExtcodeCopyBaseEIP150 (reprice SLOAD SloadGasEIP150
      (reprice EXTCODESIZE ExtcodeSizeGasEIP150 (reprice BALANCE BalanceGasEIP150 newHomesteadInstructionSet)))))).

Definition newSpuriousDragonInstructionSet : JumpTable :=
  let jt := newTangerineWhistleInstructionSet in
  <[#EXP := priced gasExpEIP158 (default no_operation (jt !! #EXP))]> jt.

Definition newByzantiumInstructionSet : JumpTable :=
  <[#REVERT := returning (reverting (priced pureMemoryGascost (sized memoryRevert (op_ opRevert 0 2 0))))]>
  (<[#RETURNDATACOPY := priced gasReturnDataCopy (sized memoryReturnDataCopy
       (op_ opReturnDataCopy GasFastestStep 3 0))]>
  (<[#RETURNDATASIZE := op_ opReturnDataSize GasQuickStep 0 1]>
  (<[#STATICCALL := returning (priced (gasStaticCall env) (sized memoryStaticCall
       (op_ (opStaticCall D env) CallGasEIP150 6 1)))]> newSpuriousDragonInstructionSet))).

Definition newConstantinopleInstructionSet : JumpTable :=
  <[#CREATE2 := returning (writing (priced gasCreate2 (sized memoryCreate2 (op_ (opCreate2 D env) Create2Gas 4 1))))]>
  (<[#EXTCODEHASH := op_ opExtCodeHash ExtcodeHashGasConstantinople 1 1]>
  (<[#SAR := op_ opSAR GasFastestStep 2 1]>
  (<[#SHR := op_ opSHR GasFastestStep 2 1]>
  (<[#SHL := op_ opSHL GasFastestStep 2 1]> newByzantiumInstructionSet)))).

(** ** EIPs *)

Definition enable1884 (jt : JumpTable) : JumpTable :=
  <[#SELFBALANCE := op_ opSelfBalance GasFastStep 0 1]>
  (reprice SLOAD SloadGasEIP1884 (reprice EXTCODEHASH ExtcodeHashGasEIP1884 (reprice BALANCE BalanceGasEIP1884 jt))).
Definition enable1344 (jt : JumpTable) : JumpTable :=
  <[#CHAINID := op_ (opChainID env) GasQuickStep 0 1]> jt.
Definition EnableEIP (eipNum : Z) (jt : JumpTable) : result JumpTable :=
  if eipNum =? 1884 then inl (enable1884 jt)
  else if eipNum =? 1344 then inl (enable1344 jt)
  else inr (errUndefinedEip eipNum).

(** ** The interpreter's table *)

Definition fork_table : JumpTable :=
  let r := env_rules env in
  if IsConstantinople r then newConstantinopleInstructionSet
  else if IsByzantium r then newByzantiumInstructionSet
  else if IsEIP158 r then newSpuriousDragonInstructionSet
  else if IsEIP150 r then newTangerineWhistleInstructionSet
  else if IsHomestead r then newHomesteadInstructionSet
  else newFrontierInstructionSet.

(** The loop of [NewEVMInterpreter] over [cfg.ExtraEips], from index [i]: [n] turns
    are left, [arr] is the array below the slice, [len] the length of the slice.
    The range clause keeps the first length; a rejected number is removed by
    shifting the rest of the slice. *)
Fixpoint enable_eips (n : nat) (i : nat) (arr : list Z) (len : nat) (jt : JumpTable) : option (JumpTable * list Z) :=
  match n with
  | O => Some (jt, take len arr)
  | S n' =>
      eip ← arr !! i;
      match EnableEIP eip jt with
      | inl jt => enable_eips n' (S i) arr len jt
      | inr _ =>
          if (S i <=? len)%nat then
            enable_eips n' (S i) (take i arr ++ take (len - S i) (drop (S i) arr) ++ drop (len - 1) arr) (len - 1) jt
          else None
      end
  end.
Definition NewEVMInterpreter (extraEips : list Z) : option (JumpTable * list Z) :=
  enable_eips (length extraEips) 0 extraEips (length extraEips) fork_table.
End tables.

Section interpreter.
Context `{!Crypto} `{!PrecompileLib} (D : Database) (env : Env) (jt : JumpTable).

(** [return nil, err]. *)
Definition stop_with (e : error) : M Frame (option (bytes * err)) := mret' (Some ([], Some e)).

(** [contract.UseGas]. *)
Definition use_gas (gas : Z) : M Frame bool :=
  let! f := mget in
  match UseGas gas (f_contract f) with
  | Some c => do! mmod (set_contract c) in mret' true
  | None => mret' false
  end.

(** The execution of the operation and what follows it. *)
Definition step_execute (interp : RunFun) (readOnly : bool) (o : operation) : M Frame (option (bytes * err)) :=
  let! (res, e) := execute o interp readOnly in
  do! (if returns o then on_vm (mmod (set_returnData res)) else mret' ()) in
  match e with
  | Some e => stop_with e
  | None =>
      if reverts o then mret' (Some (res, Some errExecutionReverted))
      else if halts o then mret' (Some (res, None))
      else do! (if jumps o then mret' () else mmod (λ f, set_pc (u64 (f_pc f + 1)) f)) in mret' None
  end.

(** The size of the memory, in bytes; [None] when it overflows. *)
Definition step_memory (o : operation) : M Frame (option Z) :=
  match memorySize o with
  | None => mret' (Some 0)
  | Some m =>
      let! f := mget in
      let! (memSize, overflow) := mderef (m (f_stack f)) in
      if overflow : bool then mret' None else
      let (size, overflow) := SafeMul (toWordSize memSize) 32 in
      mret' (if overflow : bool then None else Some size)
  end.

(** From the constant price on. *)
Definition step_body (interp : RunFun) (readOnly : bool) (o : operation) : M Frame (option (bytes * err)) :=
  let! paid := use_gas (constantGas o) in
  if negb paid then stop_with ErrOutOfGas else
  let! size := step_memory o in
  match size with
  | None => stop_with errGasUintOverflow
  | Some size =>
      let! paid := match dynamicGas o with
                   | None => mret' true
                   | Some g => let! cost := g size in
                               match cost with inl cost => use_gas cost | inr _ => mret' false end
                   end in
      if negb paid then stop_with ErrOutOfGas else
      do! (if 0 <? size then mmod (λ f, set_mem (mem_Resize size (f_mem f)) f) else mret' ()) in
      step_execute interp readOnly o
  end.

(** The operation of the opcode, once the stack and the write protection allow it. *)
Definition step (interp : RunFun) (readOnly : bool) : M Frame (option (bytes * err)) :=
  let! f := mget in
  let op := GetOp (f_contract f) (f_pc f) in
  if negb (cfg_EstimateGas (env_cfg env)) && vm_smiloReadOnly (f_vm f) && isMutating op
  then stop_with ErrReadOnlyMutateOpcode else
  let o := default no_operation (jt !! op) in
  if negb (valid o) then stop_with (errInvalidOpcode op) else
  let sLen := Z.of_nat (length (f_stack f)) in
  if sLen <? op_minStack o then stop_with (errStackUnderflow sLen (op_minStack o)) else
  if op_maxStack o <? sLen then stop_with (errStackLimit sLen (op_maxStack o)) else
  let! protected :=
    (if vm_readOnly (f_vm f) && IsByzantium (env_rules env) then
       if writes o then mret' true
       else if op =? #CALL then let! value := Back 2 in mret' (negb (Z.sgn value =? 0)) else mret' false
     else mret' false) in
  if protected : bool then stop_with errWriteProtection else
  step_body interp readOnly o.

(** The body of [Run] around its loop. *)
Definition Run_with (loop : M Frame (bytes * err)) (contract : Contract) (input : bytes) (readOnly : bool)
    : M VM (bytes * err * Contract) :=
  let! v := mget in
  do! mmod (set_depth (vm_depth v + 1)) in
  let sets := readOnly && negb (vm_readOnly v) in
  do! (if sets then mmod (set_readOnly true) else mret' ()) in
  do! mmod (set_returnData []) in
  let! r :=
    (if (length (c_Code contract) =? 0)%nat then mret' ([], None, contract) else
     let! v := mget in
     let! (r, f) := mderef (loop (MkFrame 0 [] NewMemory (set_Input input contract) v)) in
     do! mput (f_vm f) in mret' (r, f_contract f)) in
  do! (if sets then mmod (set_readOnly false) else mret' ()) in
  do! mmod (λ v, set_depth (vm_depth v - 1) v) in
  mret' r.

Fixpoint loop (fuel : nat) (readOnly : bool) : M Frame (bytes * err) :=
  match fuel with
  | O => mpanic
  | S fuel' =>
      let! f := mget in
      if vm_abort (f_vm f) then mret' ([], None) else
      let! r := step (λ contract input readOnly _, Run_with (loop fuel' readOnly) contract input readOnly) readOnly in
      match r with
      | Some r => mret' r
      | None => loop fuel' readOnly
      end
  end.
Definition Run (fuel : nat) : RunFun := λ contract input readOnly _, Run_with (loop fuel readOnly) contract input readOnly.
End interpreter.

(** [NewEVM] panics when EWASM is on; the vault state is pushed first. *)
Definition NewEVM (env : Env) (public vault : StateDB) : option VM :=
  if env_IsEWASM env then None else
  snd <$> Push env (env_vaultState env)
            (MkVM public vault PublicDB (replicate 1027 None) 0 false 0 0 0 false false [] ∅).
Definition Cancel : M VM () := mmod (set_abort true).
