(* ===== verification/VmAnalysis.v ===== *)
(** * The JUMPDEST analysis is exact

    [codeBitmap] never indexes outside of its bit vector and marks exactly the
    argument bytes of the PUSH instructions, as the left-to-right reference
    [data_mask] finds them. *)

From Stdlib Require Import ZArith Lia.
From S2P Require Import Prelude Errors Rlp Fullnode VmWord Vm.
Open Scope didux_scope.

(** The number of argument bytes of an instruction. *)
Definition push_args (b : byte) : nat :=
  let op := byte_Z b in
  if (#(PUSH 1) <=? op) && (op <=? #(PUSH 32)) then Z.to_nat (op - #(PUSH 1) + 1) else 0%nat.

(** Which bytes are arguments; [skip] of them are still to come. *)
Fixpoint data_mask (skip : nat) (code : bytes) : list bool :=
  match code with
  | [] => []
  | b :: tl => match skip with
               | S k => true :: data_mask k tl
               | O => false :: data_mask (push_args b) tl
               end
  end.

Lemma length_data_mask skip code : length (data_mask skip code) = length code.
Proof. revert skip. induction code as [|b tl IH]; intros [|k]; simpl; by rewrite ?IH. Qed.
Lemma data_mask_skip n code : data_mask n code = replicate (n `min` length code) true ++ data_mask 0 (drop n code).
Proof. revert n. induction code as [|b tl IH]; intros [|n]; simpl; [done..|]. by rewrite IH. Qed.

(** ** Bits *)

Definition getbit (bits : bitvec) (p : Z) : bool :=
  Z.testbit (default 0 (bits !! Z.to_nat (p / 8))) (7 - p mod 8).

Definition bytes_ok (bits : bitvec) : Prop := Forall (λ b, 0 <= b) bits.

Lemma codeSegment_getbit bits p : 0 <= p < 8 * Z.of_nat (length bits) → bytes_ok bits →
  codeSegment bits p = Some (negb (getbit bits p)).
Proof.
  intros Hp Hok. unfold codeSegment, getbit.
  assert (0 <= p / 8 < Z.of_nat (length bits)) as Hi by (split; [apply Z.div_pos|apply Z.div_lt_upper_bound]; lia).
  destruct (lookup_lt_is_Some_2 bits (Z.to_nat (p / 8)) ltac:(lia)) as [b Hb]. rewrite Hb. cbn [default from_option id mbind option_bind].
  f_equal. pose proof (Z.mod_pos_bound p 8 ltac:(lia)) as Hm.
  assert (Z.shiftr 128 (p mod 8) = 2 ^ (7 - p mod 8)) as ->.
  { change 128 with (2 ^ 7). rewrite Z.shiftr_div_pow2 by lia. rewrite <-Z.pow_sub_r by lia. done. }
  set (k := 7 - p mod 8) in *. destruct (Z.testbit b k) eqn:Ht; cbn [negb].
  - apply Z.eqb_neq. intros H0. apply (f_equal (λ z, Z.testbit z k)) in H0. rewrite Z.land_spec, Ht, Z.bits_0 in H0.
    by rewrite Z.pow2_bits_true in H0 by lia.
  - apply Z.eqb_eq, Z.bits_inj'. intros n Hn. rewrite Z.land_spec, Z.bits_0, Z.pow2_bits_eqb by lia.
    destruct (Z.eqb_spec k n) as [<-|]; [by rewrite Ht|by rewrite andb_false_r].
Qed.

Lemma bits_or_spec bits i v : 0 <= i < Z.of_nat (length bits) → 0 <= v → bytes_ok bits →
  ∃ bits', bits_or bits i v = Some bits' ∧ length bits' = length bits ∧ bytes_ok bits' ∧
    ∀ p, 0 <= p → getbit bits' p = getbit bits p || ((p / 8 =? i) && Z.testbit v (7 - p mod 8)).
Proof.
  intros Hi Hv Hok. unfold bits_or. destruct (lookup_lt_is_Some_2 bits (Z.to_nat i) ltac:(lia)) as [b Hb].
  rewrite Hb. cbn [mbind option_bind]. eexists. split; [done|]. rewrite length_insert. split; [done|].
  assert (0 <= b) by by apply (Forall_lookup_1 _ _ _ _ Hok Hb).
  split; [apply Forall_insert; [done|]; by apply Z.lor_nonneg|].
  intros p Hp. unfold getbit. destruct (Z.eqb_spec (p / 8) i) as [->|Hne].
  - rewrite list_lookup_insert_eq by lia. rewrite Hb. cbn [default from_option id]. by rewrite Z.lor_spec.
  - rewrite list_lookup_insert_ne; [by rewrite orb_false_r|]. pose proof (Z.div_pos p 8). lia.
Qed.

(** A mask of ones in the low [k] bits. *)
Lemma ones_bits m n : 0 <= m → 0 <= n → Z.testbit (Z.shiftr 0xFF m) n = bool_decide (n + m < 8).
Proof.
  intros Hm Hn. rewrite Z.shiftr_spec by done. change 255 with (Z.ones 8).
  destruct (decide (n + m < 8)); [rewrite bool_decide_true by done; apply Z.ones_spec_low; lia|].
  rewrite bool_decide_false by done. apply Z.ones_spec_high. lia.
Qed.

Lemma div_mod_eq p q : p / 8 = q / 8 → p mod 8 - q mod 8 = p - q.
Proof. pose proof (Z.div_mod p 8). pose proof (Z.div_mod q 8). lia. Qed.

Lemma bits_set_spec bits pos : 0 <= pos < 8 * Z.of_nat (length bits) → bytes_ok bits →
  ∃ bits', bits_set bits pos = Some bits' ∧ length bits' = length bits ∧ bytes_ok bits' ∧
    ∀ p, 0 <= p → getbit bits' p = getbit bits p || (p =? pos).
Proof.
  intros Hpos Hok. pose proof (Z.mod_pos_bound pos 8 ltac:(lia)).
  destruct (bits_or_spec bits (pos / 8) (Z.shiftr 0x80 (pos mod 8))) as (bits' & Hs & Hl & Hok' & Hb); [|by apply Z.shiftr_nonneg|done|].
  { split; [apply Z.div_pos; lia|apply Z.div_lt_upper_bound; lia]. }
  exists bits'. split_and!; [done..|]. intros p Hp. rewrite Hb by done. f_equal.
  pose proof (Z.mod_pos_bound p 8 ltac:(lia)). rewrite Z.shiftr_spec by lia. change 128 with (2 ^ 7). rewrite Z.pow2_bits_eqb by lia.
  apply eq_bool_prop_intro. rewrite andb_True, !Is_true_true, !Z.eqb_eq.
  split; [intros [Hd He]; pose proof (div_mod_eq _ _ Hd); lia|intros ->; lia].
Qed.

Lemma bits_set8_spec bits pos : 0 <= pos → pos + 8 < 8 * Z.of_nat (length bits) → bytes_ok bits →
  ∃ bits', bits_set8 bits pos = Some bits' ∧ length bits' = length bits ∧ bytes_ok bits' ∧
    ∀ p, 0 <= p → getbit bits' p = getbit bits p || ((pos <=? p) && (p <? pos + 8)).
Proof.
  intros Hpos Hlen Hok. pose proof (Z.mod_pos_bound pos 8 ltac:(lia)) as Hm. pose proof (Z.div_mod pos 8 ltac:(lia)) as Hdm.
  unfold bits_set8.
  destruct (bits_or_spec bits (pos / 8) (Z.shiftr 0xFF (pos mod 8))) as (b1 & Hs1 & Hl1 & Hok1 & Hb1); [lia|by apply Z.shiftr_nonneg|done|].
  rewrite Hs1. cbn [mbind option_bind].
  destruct (bits_or_spec b1 (pos / 8 + 1) (Z.lxor 0xFF (Z.shiftr 0xFF (pos mod 8)))) as (b2 & Hs2 & Hl2 & Hok2 & Hb2);
    [lia|apply Z.lxor_nonneg; split; intros; [by apply Z.shiftr_nonneg|lia]|done|].
  exists b2. split_and!; [done|lia|done|]. intros p Hp. rewrite Hb2, Hb1 by done. rewrite <-orb_assoc. f_equal.
  pose proof (Z.mod_pos_bound p 8 ltac:(lia)) as Hpm. pose proof (Z.div_mod p 8 ltac:(lia)) as Hpd.
  rewrite Z.lxor_spec, !ones_bits by lia. change 255 with (Z.ones 8). rewrite Z.ones_spec_low by lia.
  apply eq_bool_prop_intro. rewrite orb_True, !andb_True, !Is_true_true, !Z.eqb_eq, Z.leb_le, Z.ltb_lt, bool_decide_eq_true.
  rewrite xorb_true_l, negb_true_iff, bool_decide_eq_false. lia.
Qed.

(** [n] bits from [pc] on. *)
Lemma bitmap_ones_spec n bits pc : 0 <= pc → pc + Z.of_nat n <= 8 * Z.of_nat (length bits) → bytes_ok bits →
  ∃ bits', bitmap_ones n bits pc = Some (bits', pc + Z.of_nat n) ∧ length bits' = length bits ∧ bytes_ok bits' ∧
    ∀ p, 0 <= p → getbit bits' p = getbit bits p || ((pc <=? p) && (p <? pc + Z.of_nat n)).
Proof.
  revert bits pc. induction n as [|n IH]; intros bits pc Hpc Hlen Hok; cbn [bitmap_ones].
  - exists bits. split; [do 2 f_equal; lia|]. split_and!; [done..|]. intros p Hp.
    destruct (Z.leb_spec pc p), (Z.ltb_spec p (pc + Z.of_nat 0)); try lia; by rewrite ?orb_false_r.
  - destruct (bits_set_spec bits pc) as (b1 & -> & Hl1 & Hok1 & Hb1); [lia|done|]. cbn [mbind option_bind].
    destruct (IH b1 (pc + 1)) as (b2 & -> & Hl2 & Hok2 & Hb2); [lia|lia|done|]. exists b2.
    split; [do 2 f_equal; lia|]. split_and!; [lia|done|]. intros p Hp. rewrite Hb2, Hb1 by done. rewrite <-orb_assoc. f_equal.
    apply eq_bool_prop_intro. rewrite orb_True, !andb_True, !Is_true_true, Z.eqb_eq, !Z.leb_le, !Z.ltb_lt. lia.
Qed.

Lemma bitmap_eights_spec n bits pc : 0 <= pc → pc + Z.of_nat n < 8 * Z.of_nat (length bits) → bytes_ok bits →
  ∃ bits', bitmap_eights n bits pc = Some (bits', pc + Z.of_nat n) ∧ length bits' = length bits ∧ bytes_ok bits' ∧
    ∀ p, 0 <= p → getbit bits' p = getbit bits p || ((pc <=? p) && (p <? pc + Z.of_nat n)).
Proof.
  revert bits pc. induction (lt_wf n) as [n _ IH]. intros bits pc Hpc Hlen Hok.
  do 8 (destruct n as [|n]; [cbn [bitmap_eights]; apply bitmap_ones_spec; (done || lia)|]). cbn [bitmap_eights].
  destruct (bits_set8_spec bits pc) as (b1 & -> & Hl1 & Hok1 & Hb1); [lia|lia|done|]. cbn [mbind option_bind].
  destruct (IH n ltac:(lia) b1 (pc + 8)) as (b2 & -> & Hl2 & Hok2 & Hb2); [lia|lia|done|]. exists b2.
  split; [do 2 f_equal; lia|]. split_and!; [lia|done|]. intros p Hp. rewrite Hb2, Hb1 by done. rewrite <-orb_assoc. f_equal.
  apply eq_bool_prop_intro. rewrite orb_True, !andb_True, !Is_true_true, !Z.leb_le, !Z.ltb_lt. lia.
Qed.

(** ** The loop *)

Lemma push_args_le b : (push_args b <= 32)%nat.
Proof. unfold push_args. cbn [opByte_of]. case_match; lia. Qed.

(** The bits below [pc] are those of the reference, the others are clear. *)
Record scanned (code : bytes) (bits : bitvec) (pc : Z) : Prop := {
  sc_pc : 0 <= pc <= Z.of_nat (length code) + 32;
  sc_len : length bits = (length code / 8 + 5)%nat;
  sc_ok : bytes_ok bits;
  sc_rest : drop (Z.to_nat pc) (data_mask 0 code) = data_mask 0 (drop (Z.to_nat pc) code);
  sc_below p : 0 <= p < pc → p < Z.of_nat (length code) → Some (getbit bits p) = data_mask 0 code !! Z.to_nat p;
  sc_above p : pc <= p → getbit bits p = false
}.

Lemma bitmap_room (code : bytes) (bits : bitvec) (n : Z) : length bits = (length code / 8 + 5)%nat →
  n <= Z.of_nat (length code) + 32 → n < 8 * Z.of_nat (length bits).
Proof. intros -> Hn. rewrite Nat2Z.inj_add, Nat2Z.inj_div. pose proof (Z.div_mod (Z.of_nat (length code)) 8). pose proof (Z.mod_pos_bound (Z.of_nat (length code)) 8). lia. Qed.

(** One instruction further. *)
Lemma scanned_next code bits bits' pc b : scanned code bits pc → code !! Z.to_nat pc = Some b →
  length bits' = length bits → bytes_ok bits' →
  (∀ p, 0 <= p → getbit bits' p = getbit bits p || ((pc + 1 <=? p) && (p <? pc + 1 + Z.of_nat (push_args b)))) →
  scanned code bits' (pc + 1 + Z.of_nat (push_args b)).
Proof.
  intros [Hpc Hlen Hok Hrest Hbelow Habove] Hb Hl' Hok' Hget.
  pose proof (lookup_lt_Some _ _ _ Hb) as Hlt. pose proof (push_args_le b) as Hle.
  set (n := push_args b) in *.
  rewrite (drop_S _ b) in Hrest by done. cbn [data_mask] in Hrest. fold n in Hrest. rewrite (data_mask_skip n) in Hrest.
  assert (data_mask 0 code = take (Z.to_nat pc) (data_mask 0 code) ++ false ::
    replicate (n `min` length (drop (S (Z.to_nat pc)) code)) true ++ data_mask 0 (drop n (drop (S (Z.to_nat pc)) code))) as Hmask.
  { by rewrite <-Hrest, take_drop. }
  assert (length (take (Z.to_nat pc) (data_mask 0 code)) = Z.to_nat pc) as Htl.
  { rewrite length_take, length_data_mask. lia. }
  split; [lia|lia|done|..].
  - replace (Z.to_nat (pc + 1 + Z.of_nat n)) with (Z.to_nat pc + (1 + n))%nat by lia. rewrite <-drop_drop, Hrest. cbn [drop plus].
    rewrite length_drop. replace (drop (Z.to_nat pc + S n) code) with (drop n (drop (S (Z.to_nat pc)) code))
      by (rewrite drop_drop; f_equal; lia).
    destruct (decide (n <= length code - S (Z.to_nat pc))%nat).
    + rewrite Nat.min_l by lia. rewrite drop_app_length'; [done|by rewrite length_replicate].
    + rewrite Nat.min_r by lia. rewrite drop_app_ge by (rewrite length_replicate; lia).
      rewrite !(drop_ge (drop _ code)) by (rewrite length_drop; lia). cbn [data_mask]. apply drop_nil.
  - intros p Hp Hpl. rewrite Hget by lia. destruct (decide (p < pc)).
    + destruct (Z.leb_spec (pc + 1) p); [lia|]. rewrite orb_false_r. apply Hbelow; lia.
    + rewrite Habove by lia. rewrite Hmask, lookup_app_r, Htl by lia.
      destruct (decide (p = pc)) as [->|].
      * rewrite Nat.sub_diag. cbn. by destruct (Z.leb_spec (pc + 1) pc); [lia|].
      * rewrite lookup_cons_ne_0 by lia. replace (Nat.pred (Z.to_nat p - Z.to_nat pc)) with (Z.to_nat (p - pc - 1)) by lia.
        rewrite lookup_app_l by (rewrite length_replicate, length_drop; lia).
        rewrite lookup_replicate_2 by (rewrite length_drop; lia).
        destruct (Z.leb_spec (pc + 1) p), (Z.ltb_spec p (pc + 1 + Z.of_nat n)); (done || lia).
  - intros p Hp. rewrite Hget by lia. rewrite Habove by lia.
    by destruct (Z.ltb_spec p (pc + 1 + Z.of_nat n)); [lia|rewrite andb_false_r].
Qed.

Lemma bitmap_loop_spec fuel code bits pc : scanned code bits pc → Z.of_nat (length code) <= pc + Z.of_nat fuel →
  ∃ bits' pc', bitmap_loop fuel code bits pc = Some bits' ∧ scanned code bits' pc' ∧ Z.of_nat (length code) <= pc'.
Proof.
  revert bits pc. induction fuel as [|fuel IH]; intros bits pc Hsc Hf; cbn [bitmap_loop]; [exists bits, pc; split_and!; [done..|lia]|].
  destruct (code !! Z.to_nat pc) as [b|] eqn:Hb.
  2: { apply lookup_ge_None in Hb. exists bits, pc. split_and!; [done..|]. pose proof (sc_pc _ _ _ Hsc). lia. }
  pose proof (lookup_lt_Some _ _ _ Hb) as Hlt. pose proof (sc_pc _ _ _ Hsc) as Hpc. pose proof (push_args_le b) as Hle.
  unfold push_args in Hle. cbn [opByte_of] in *. destruct (_ && _) eqn:Hpush.
  - destruct (bitmap_eights_spec (Z.to_nat (byte_Z b - (96 + (1 - 1)) + 1)) bits (pc + 1)) as (b1 & -> & Hl1 & Hok1 & Hb1);
      [lia| |apply Hsc|].
    { apply (bitmap_room code); [apply Hsc|lia]. }
    cbn [mbind option_bind].
    assert (push_args b = Z.to_nat (byte_Z b - (96 + (1 - 1)) + 1)) as Hn by (unfold push_args; cbn [opByte_of]; by rewrite Hpush).
    rewrite <-Hn in *. apply IH; [by eapply scanned_next|]. lia.
  - assert (push_args b = 0%nat) as Hn by (unfold push_args; cbn [opByte_of]; by rewrite Hpush).
    replace (pc + 1) with (pc + 1 + Z.of_nat (push_args b)) by lia. apply IH; [|lia].
    eapply scanned_next; [done..|apply Hsc|]. intros p Hp. rewrite Hn.
    destruct (Z.leb_spec (pc + 1) p), (Z.ltb_spec p (pc + 1 + Z.of_nat 0)); try lia; by rewrite orb_false_r.
Qed.

Lemma codeBitmap_spec code : ∃ bits, codeBitmap code = Some bits ∧
  ∀ pos, 0 <= pos < blen code → ∃ d, data_mask 0 code !! Z.to_nat pos = Some d ∧ codeSegment bits pos = Some (negb d).
Proof.
  unfold codeBitmap. set (bits0 := replicate _ 0).
  assert (∀ p, getbit bits0 p = false) as H0.
  { intros p. unfold getbit, bits0. destruct (replicate _ 0 !! _) as [b|] eqn:Hb; [|apply Z.bits_0].
    apply lookup_replicate in Hb as [-> _]. apply Z.bits_0. }
  destruct (bitmap_loop_spec (length code) code bits0 0) as (bits & pc & Hrun & Hsc & Hpc); [|lia|].
  { split; [lia|unfold bits0; rewrite length_replicate; lia|by apply Forall_replicate|done|lia|done]. }
  exists bits. split; [done|]. unfold blen. intros pos Hpos.
  exists (getbit bits pos). split; [symmetry; apply (sc_below _ _ _ Hsc); lia|].
  apply codeSegment_getbit; [|apply Hsc]. split; [lia|].
  apply (bitmap_room code); [apply Hsc|lia].
Qed.

(** C29. The analysis of a code, whatever its bytes: [codeBitmap] does not leave its bit
    vector, and marks as data exactly the bytes that are arguments of a push, as a
    scan that reads the code one instruction at a time finds them. *)
Theorem codeBitmap_exact code : ∃ bits, codeBitmap code = Some bits ∧
  ∀ pos, 0 <= pos < blen code → ∃ d, data_mask 0 code !! Z.to_nat pos = Some d ∧ codeSegment bits pos = Some (negb d).
Proof. apply codeBitmap_spec. Qed.
