(* ===== verification/VmWordLaws.v ===== *)
(** * Laws of the word helpers

    Truncation is reduction modulo [2^256], the checked operations are exact when
    they do not report an overflow, sizes round up, padded slices have the size
    that was asked for, and exponentiation by squaring computes the power. *)

From Stdlib Require Import ZArith Lia.
From S2P Require Import Prelude Errors Rlp Fullnode VmWord.
Open Scope didux_scope.

Lemma tt256_pos : 0 < tt256.
Proof. done. Qed.
Lemma tt256_half : tt256 = 2 * tt255.
Proof. done. Qed.

Definition word (x : Z) : Prop := 0 <= x < tt256.

Lemma U256_mod x : U256 x = x mod tt256.
Proof. unfold U256. change tt256m1 with (Z.ones 256). by rewrite Z.land_ones. Qed.
Lemma U256_word x : word (U256 x).
Proof. rewrite U256_mod. by apply Z.mod_pos_bound. Qed.
Lemma U256_small x : word x → U256 x = x.
Proof. intros. rewrite U256_mod. by apply Z.mod_small. Qed.

Lemma big_Cmp_ltb x y : (big_Cmp x y <? 0) = (x <? y).
Proof. unfold big_Cmp. destruct (Z.compare_spec x y), (Z.ltb_spec x y); (done || lia). Qed.
Lemma big_Cmp_gtb x y : (0 <? big_Cmp x y) = (y <? x).
Proof. unfold big_Cmp. destruct (Z.compare_spec x y), (Z.ltb_spec y x); (done || lia). Qed.
Lemma big_Cmp_geb x y : (0 <=? big_Cmp x y) = (y <=? x).
Proof. unfold big_Cmp. destruct (Z.compare_spec x y), (Z.leb_spec y x); (done || lia). Qed.
Lemma big_Cmp_leb x y : (big_Cmp x y <=? 0) = (x <=? y).
Proof. unfold big_Cmp. destruct (Z.compare_spec x y), (Z.leb_spec x y); (done || lia). Qed.
Lemma big_Cmp_eqb x y : (big_Cmp x y =? 0) = (x =? y).
Proof. unfold big_Cmp. destruct (Z.compare_spec x y), (Z.eqb_spec x y); (done || lia). Qed.
Lemma sgn_eqb x : (Z.sgn x =? 0) = (x =? 0).
Proof. destruct x; done. Qed.

(** The signed value of a word. *)
Definition signed (x : Z) : Z := if x <? tt255 then x else x - tt256.
Lemma S256_signed x : S256 x = signed x.
Proof. unfold S256, signed. by rewrite big_Cmp_ltb. Qed.
Lemma signed_range x : word x → - tt255 <= signed x < tt255.
Proof. unfold word, signed. rewrite tt256_half. case_match; lia. Qed.
Lemma signed_mod x : word x → signed x mod tt256 = x.
Proof.
  unfold word, signed. intros. case_match; [by apply Z.mod_small|].
  replace (x - tt256) with (x + (-1) * tt256) by lia. rewrite Z.mod_add by done. by apply Z.mod_small.
Qed.

Lemma BigMin_min x y : BigMin x y = Z.min x y.
Proof. unfold BigMin. rewrite big_Cmp_gtb. case_match; lia. Qed.
Lemma BigMax_max x y : BigMax x y = Z.max x y.
Proof. unfold BigMax. rewrite big_Cmp_ltb. case_match; lia. Qed.

(** ** Checked arithmetic *)

Lemma SafeAdd_spec x y r : 0 <= x < two64 → 0 <= y < two64 → SafeAdd x y = (r, false) → r = x + y ∧ r < two64.
Proof.
  unfold SafeAdd, MaxUint64. intros Hx Hy [= <- Ho]. apply Z.ltb_ge in Ho.
  rewrite u64_small by (unfold two64 in *; lia). unfold two64 in *. lia.
Qed.
Lemma SafeMul_spec x y r : 0 <= x < two64 → 0 <= y < two64 → SafeMul x y = (r, false) → r = x * y ∧ 0 <= r < two64.
Proof.
  unfold SafeMul, MaxUint64. intros Hx Hy. destruct ((x =? 0) || (y =? 0)) eqn:H0.
  { intros [= <-]. split; [|done]. apply orb_prop in H0 as [->%Z.eqb_eq| ->%Z.eqb_eq]; lia. }
  intros [= <- Ho]. apply Z.ltb_ge in Ho. apply orb_false_elim in H0 as [Hx0%Z.eqb_neq Hy0%Z.eqb_neq].
  assert (x * y < two64).
  { pose proof (Z.mul_div_le 18446744073709551615 x ltac:(lia)). unfold two64. nia. }
  rewrite u64_small by nia. split; [done|]. nia.
Qed.

Lemma big_IsUint64_spec x : big_IsUint64 x = true ↔ 0 <= x < two64.
Proof. unfold big_IsUint64. rewrite andb_true_iff, Z.leb_le, Z.ltb_lt. done. Qed.
Lemma bigUint64_spec v r : bigUint64 v = (r, false) → r = v ∧ 0 <= v < two64.
Proof.
  unfold bigUint64. intros [= <- Ho]. apply negb_false_iff, big_IsUint64_spec in Ho.
  split; [by apply big_Uint64_small|done].
Qed.

(** ** Sizes *)

(** A size that is not an overflow: nothing, or the end of the region. *)
Lemma calcMemSize64WithUint_spec off l r : 0 <= l < two64 → calcMemSize64WithUint off l = (r, false) →
  0 <= r < two64 ∧ (l = 0 ∧ r = 0 ∨ 0 < l ∧ 0 <= off ∧ r = off + l).
Proof.
  unfold calcMemSize64WithUint. intros Hl. destruct (Z.eqb_spec l 0) as [->|]; [intros [= <-]; split; [done|by left]|].
  destruct (big_IsUint64 off) eqn:Ho; cbn [negb]; [|done]. apply big_IsUint64_spec in Ho. rewrite big_Uint64_small by done.
  intros [= <- Hlt]. apply Z.ltb_ge in Hlt. split; [apply u64_range|]. right. split_and!; [lia|lia|].
  unfold u64 in *. destruct (decide (off + l < two64)); [by rewrite Z.mod_small by lia|].
  replace (off + l) with (off + l - two64 + 1 * two64) in Hlt by lia. rewrite Z.mod_add in Hlt by done.
  rewrite Z.mod_small in Hlt by lia. lia.
Qed.
Lemma calcMemSize64_spec off l r : calcMemSize64 off l = (r, false) →
  0 <= l < two64 ∧ 0 <= r < two64 ∧ (l = 0 ∧ r = 0 ∨ 0 < l ∧ 0 <= off ∧ r = off + l).
Proof.
  unfold calcMemSize64. destruct (big_IsUint64 l) eqn:Hl; cbn [negb]; [|done]. apply big_IsUint64_spec in Hl.
  rewrite big_Uint64_small by done. intros H%calcMemSize64WithUint_spec; done.
Qed.

Lemma toWordSize_spec size : 0 <= size < two64 → 32 * (toWordSize size - 1) < size <= 32 * toWordSize size.
Proof.
  unfold toWordSize, MaxUint64. intros H. destruct (Z.ltb_spec (18446744073709551615 - 31) size).
  - change (18446744073709551615 / 32 + 1) with 576460752303423488. unfold two64 in *. lia.
  - rewrite u64_small by (unfold two64 in *; lia). pose proof (Z.div_mod (size + 31) 32). pose proof (Z.mod_pos_bound (size + 31) 32). lia.
Qed.
Lemma toWordSize_range size : 0 <= size < two64 → 0 <= toWordSize size <= 576460752303423488.
Proof. intros H. pose proof (toWordSize_spec size H). unfold two64 in *. lia. Qed.

(** ** Slices *)

Lemma blen_nonneg b : 0 <= blen b.
Proof. unfold blen. lia. Qed.
Lemma slice_Some data lo hi : 0 <= lo <= hi → hi <= blen data → ∃ d, slice data lo hi = Some d ∧ blen d = hi - lo.
Proof.
  intros Hlo Hhi. unfold slice. rewrite !(proj2 (Z.leb_le _ _)) by lia. simpl. eexists. split; [done|].
  unfold blen in *. rewrite length_take, length_drop. lia.
Qed.
Lemma blen_RightPad d l : blen (RightPadBytes d l) = Z.max (blen d) l.
Proof.
  unfold RightPadBytes. case_match; unfold blen in *; [lia|]. rewrite length_app, length_replicate. lia.
Qed.
Lemma blen_LeftPad d l : blen (LeftPadBytes d l) = Z.max (blen d) l.
Proof.
  unfold LeftPadBytes. case_match; unfold blen in *; [lia|]. rewrite length_app, length_replicate. lia.
Qed.

(** The padded slice of the reference: byte by byte. *)
Definition padded (data : bytes) (start size : nat) : bytes := take size (drop start data ++ replicate size x00).

Lemma padded_spec data s e (size : Z) : 0 <= s <= blen data → 0 <= size < two63 → e = Z.min (s + size) (blen data) →
  (d ← slice data s e; Some (RightPadBytes d (i64 size))) = Some (padded data (Z.to_nat s) (Z.to_nat size)).
Proof.
  intros Hs Hsize ->. rewrite i64_small by (unfold two63 in *; lia). unfold slice.
  rewrite !(proj2 (Z.leb_le _ _)) by lia. cbn [andb mbind option_bind]. f_equal. unfold RightPadBytes, padded, blen in *.
  rewrite length_take, length_drop. destruct (Z.leb_spec size (Z.of_nat (Z.to_nat (Z.min (s + size) (Z.of_nat (length data)) - s) `min` (length data - Z.to_nat s)))); destruct (decide (s + size <= Z.of_nat (length data))).
  - rewrite Z.min_l by lia. rewrite take_app_le by (rewrite length_drop; lia). f_equal. lia.
  - exfalso. lia.
  - exfalso. lia.
  - rewrite Z.min_r by lia. rewrite (take_ge (drop _ data)) by (rewrite length_drop; lia).
    rewrite take_app_ge by (rewrite length_drop; lia). rewrite length_drop, take_replicate. f_equal. f_equal. lia.
Qed.

(** [getData] is total as long as [start + size] does not wrap around. *)
Lemma getData_spec data start size : 0 <= start → 0 <= size < two63 → blen data < two63 →
  getData data start size = Some (padded data (Z.to_nat (Z.min start (blen data))) (Z.to_nat size)).
Proof.
  intros Hs Hsize Hd. pose proof (blen_nonneg data). unfold getData.
  replace (if blen data <? start then blen data else start) with (Z.min start (blen data)) by (case_match; lia).
  rewrite u64_small by (unfold two63, two64 in *; lia). apply padded_spec; [lia|done|]. case_match; lia.
Qed.
Lemma getDataBig_spec data start size : 0 <= start → 0 <= size < two63 → blen data < two63 →
  getDataBig data start size = Some (padded data (Z.to_nat (Z.min start (blen data))) (Z.to_nat size)).
Proof.
  intros Hs Hsize Hd. pose proof (blen_nonneg data). unfold getDataBig. rewrite !BigMin_min.
  rewrite !big_Uint64_small by (unfold two63, two64 in *; lia). apply padded_spec; [lia|done|done].
Qed.
Lemma length_padded data start size : length (padded data start size) = size.
Proof. unfold padded. rewrite length_take, length_app, length_replicate. lia. Qed.

(** ** Words of a big integer *)

Lemma big_BitLen_bound x : 0 <= x → x < 2 ^ big_BitLen x.
Proof.
  intros Hx. unfold big_BitLen. destruct (Z.eqb_spec x 0) as [->|]; [done|]. rewrite Z.abs_eq by done.
  pose proof (Z.log2_spec x). replace (Z.log2 x + 1) with (Z.succ (Z.log2 x)) by lia. lia.
Qed.
Lemma big_BitLen_nonneg x : 0 <= big_BitLen x.
Proof. unfold big_BitLen. case_match; [done|]. pose proof (Z.log2_nonneg (Z.abs x)). lia. Qed.
Lemma big_BitLen_le x n : 0 <= n → 0 <= x < 2 ^ n → big_BitLen x <= n.
Proof.
  intros Hn Hx. unfold big_BitLen. destruct (Z.eqb_spec x 0); [lia|]. rewrite Z.abs_eq by lia.
  assert (Z.log2 x < n); [|lia]. apply Z.log2_lt_pow2; lia.
Qed.

(** The value of a list of 64-bit words. *)
Fixpoint words_val (l : list Z) : Z := match l with [] => 0 | w :: tl => w + two64 * words_val tl end.
Lemma two64_pow : two64 = 2 ^ 64.
Proof. done. Qed.

Lemma words_val_shifts x n k : 0 <= x →
  words_val (map (λ i, Z.shiftr x (64 * Z.of_nat i) mod two64) (seq k n)) =
  Z.shiftr x (64 * Z.of_nat k) mod 2 ^ (64 * Z.of_nat n).
Proof.
  intros Hx. revert k. induction n as [|n IH]; intros k; cbn [seq map words_val]; [by rewrite Z.mod_1_r|].
  rewrite IH. rewrite !Z.shiftr_div_pow2 by lia. set (y := x / 2 ^ (64 * Z.of_nat k)).
  replace (x / 2 ^ (64 * Z.of_nat (S k))) with (y / two64).
  2: { unfold y. pose proof (Z.pow_pos_nonneg 2 (64 * Z.of_nat k)). rewrite Z.div_div by (done || lia). f_equal. rewrite two64_pow, <-Z.pow_add_r by lia. f_equal. lia. }
  replace (2 ^ (64 * Z.of_nat (S n))) with (two64 * 2 ^ (64 * Z.of_nat n)).
  2: { rewrite two64_pow, <-Z.pow_add_r by lia. f_equal. lia. }
  rewrite Z.rem_mul_r; [lia|done|]. apply Z.pow_pos_nonneg; lia.
Qed.
Lemma big_Bits_val x : 0 <= x → words_val (big_Bits x) = x.
Proof.
  intros Hx. unfold big_Bits. rewrite Z.abs_eq by done. rewrite words_val_shifts by done. rewrite Z.mul_0_r, Z.shiftr_0_r.
  apply Z.mod_small. split; [done|]. pose proof (big_BitLen_bound x Hx). pose proof (big_BitLen_nonneg x).
  eapply Z.lt_le_trans; [done|]. apply Z.pow_le_mono_r; [done|]. rewrite Z2Nat.id by (apply Z.div_pos; lia).
  pose proof (Z.div_mod (big_BitLen x + 63) 64). pose proof (Z.mod_pos_bound (big_BitLen x + 63) 64). lia.
Qed.
Lemma big_Bits_range x : Forall (λ w, 0 <= w < two64) (big_Bits x).
Proof. apply Forall_map, Forall_forall. intros i _. by apply Z.mod_pos_bound. Qed.

(** ** Exponentiation *)

Lemma U256_mul_l x y : U256 (U256 x * y) = U256 (x * y).
Proof. by rewrite !U256_mod, Z.mul_mod_idemp_l. Qed.
Lemma U256_mul_r x y : U256 (x * U256 y) = U256 (x * y).
Proof. by rewrite !U256_mod, Z.mul_mod_idemp_r. Qed.
Lemma U256_pow x n : U256 (U256 x ^ n) = U256 (x ^ n).
Proof.
  destruct (Z.neg_nonneg_cases n) as [|Hn]; [by rewrite !Z.pow_neg_r|]. pattern n. apply natlike_ind; [done| |done].
  clear n Hn. intros n Hn IH. rewrite !Z.pow_succ_r by done. by rewrite U256_mul_l, <-U256_mul_r, IH, U256_mul_r.
Qed.

Lemma Exp_word_spec n word_ result base : 0 <= word_ →
  ∃ r b, Exp_word n word_ result base = (r, b) ∧
    U256 r = U256 (result * base ^ (word_ mod 2 ^ Z.of_nat n)) ∧ U256 b = U256 (base ^ 2 ^ Z.of_nat n) ∧
    (word result → word r).
Proof.
  revert word_ result base. induction n as [|n IH]; intros word_ result base Hw; cbn [Exp_word].
  { exists result, base. rewrite Z.mod_1_r, Z.pow_0_r, Z.mul_1_r. change (2 ^ Z.of_nat 0) with 1. by rewrite Z.pow_1_r. }
  set (result' := if Z.land word_ 1 =? 1 then U256 (result * base) else result).
  destruct (IH (Z.shiftr word_ 1) result' (U256 (base * base))) as (r & b & -> & Hr & Hb & Hwr); [by apply Z.shiftr_nonneg|].
  exists r, b. split; [done|].
  assert (2 ^ Z.of_nat (S n) = 2 * 2 ^ Z.of_nat n) as H2 by (rewrite Nat2Z.inj_succ, Z.pow_succ_r by lia; done).
  pose proof (Z.pow_pos_nonneg 2 (Z.of_nat n) ltac:(lia) ltac:(lia)) as Hp.
  rewrite Hr, Hb. rewrite H2. split_and!.
  - rewrite Z.rem_mul_r by lia. rewrite Z.shiftr_div_pow2 by lia. change (2 ^ 1) with 2.
    set (h := word_ / 2 mod 2 ^ Z.of_nat n). assert (0 <= h) by (apply Z.mod_pos_bound; lia).
    rewrite <-U256_mul_r, U256_pow, U256_mul_r. rewrite Z.pow_add_r, Z.pow_mul_r by (try apply Z.mod_pos_bound; lia).
    rewrite Z.pow_2_r. unfold result'. change 1 with (Z.ones 1) at 1. rewrite Z.land_ones by lia. change (2 ^ 1) with 2.
    destruct (Z.eqb_spec (word_ mod 2) 1) as [->|Hne].
    + rewrite U256_mul_l. f_equal. lia.
    + assert (word_ mod 2 = 0) as -> by (pose proof (Z.mod_pos_bound word_ 2); lia). f_equal. lia.
  - rewrite U256_pow. rewrite Z.pow_mul_r, Z.pow_2_r by lia. done.
  - intros Hres. apply Hwr. unfold result'. case_match; [apply U256_word|done].
Qed.

Lemma Exp_words_spec words result base : Forall (λ w, 0 <= w < two64) words → word result →
  Exp_words words result base = U256 (result * base ^ words_val words).
Proof.
  revert result base. induction words as [|w tl IH]; intros result base Hall Hres; cbn [Exp_words words_val].
  { rewrite Z.mul_1_r. by rewrite U256_small. }
  apply Forall_cons in Hall as [Hw Htl]. destruct (Exp_word_spec 64 w result base) as (r & b & -> & Hr & Hb & Hwr); [lia|].
  rewrite IH by auto. rewrite <-U256_mul_l, Hr, <-(U256_mul_r _ (b ^ _)), <-(U256_pow b), Hb, U256_pow, U256_mul_l, U256_mul_r.
  change (2 ^ Z.of_nat 64) with two64. rewrite Z.mod_small by done.
  assert (0 <= words_val tl). { clear -Htl. induction Htl; simpl; unfold two64 in *; lia. }
  rewrite Z.pow_add_r, Z.pow_mul_r by (unfold two64 in *; lia). f_equal. lia.
Qed.
Lemma Exp_spec base exponent : 0 <= exponent → Exp base exponent = base ^ exponent mod tt256.
Proof.
  intros He. unfold Exp. rewrite Exp_words_spec by (apply big_Bits_range || done).
  rewrite big_Bits_val by done. by rewrite Z.mul_1_l, U256_mod.
Qed.

(** ** Bytes *)

Lemma bigEndianByteAt_spec x n : 0 <= x → 0 <= n → bigEndianByteAt x n = x / 256 ^ n mod 256.
Proof.
  intros Hx Hn. unfold bigEndianByteAt. pose proof (Z.mod_pos_bound n 8 ltac:(lia)). pose proof (Z.div_mod n 8 ltac:(lia)) as Hdm.
  pose proof (Z.div_pos n 8 ltac:(lia) ltac:(lia)).
  change 256 with (2 ^ 8). rewrite <-Z.pow_mul_r by lia. rewrite <-Z.shiftr_div_pow2 by lia.
  destruct (big_Bits x !! Z.to_nat (n / 8)) as [w|] eqn:Hw.
  - unfold big_Bits in Hw. rewrite list_lookup_fmap in Hw.
    destruct (seq 0 _ !! Z.to_nat (n / 8)) as [i|] eqn:Hi; [|done]. apply lookup_seq in Hi as [-> _]. injection Hw as <-.
    rewrite Z.abs_eq by done. apply Z.bits_inj'. intros k Hk.
    destruct (Z.ltb_spec k 8); [|by rewrite !Z.mod_pow2_bits_high by lia].
    rewrite !Z.mod_pow2_bits_low by lia. rewrite !Z.shiftr_spec by lia. rewrite two64_pow, Z.mod_pow2_bits_low by lia.
    rewrite Z.shiftr_spec by lia. f_equal. lia.
  - apply lookup_ge_None in Hw. unfold big_Bits in Hw. rewrite length_map, length_seq in Hw.
    rewrite Z.shiftr_div_pow2 by lia. rewrite Z.div_small; [done|]. split; [done|].
    pose proof (big_BitLen_bound x Hx). pose proof (big_BitLen_nonneg x). eapply Z.lt_le_trans; [done|].
    apply Z.pow_le_mono_r; [done|]. pose proof (Z.div_mod (big_BitLen x + 63) 64). pose proof (Z.mod_pos_bound (big_BitLen x + 63) 64). lia.
Qed.
Lemma math_Byte_spec x n : 0 <= x → 0 <= n < 32 → math_Byte x 32 n = x / 256 ^ (31 - n) mod 256.
Proof. intros Hx Hn. unfold math_Byte. destruct (Z.leb_spec 32 n); [lia|]. by rewrite bigEndianByteAt_spec by lia. Qed.
