(* ===== verification/VmArith.v ===== *)
(** * What the instructions compute

    [word_result] is the arithmetic of words written down directly; the
    instruction of every arithmetic, comparison and bit opcode leaves exactly
    that word.  A word stored in the memory is read back. *)

From Stdlib Require Import ZArith Lia.
From S2P Require Import Prelude Errors Rlp Fullnode Messages SmiloPay StateDB VmWord VmWordLaws.
From S2P Require Import Vm VmGas VmContracts VmEVM VmInstr VmInterp.
Import VmGas.Params.
Open Scope didux_scope.

(** ** The reference *)

Definition wrap (x : Z) : Z := x mod tt256.
Definition sign_extended (k x : Z) : Z :=
  if k <? 31 then
    let b := 8 * (k + 1) in
    let m := x mod 2 ^ b in
    if m <? 2 ^ (b - 1) then m else wrap (m - 2 ^ b)
  else x.

Definition word_result (op : OpCode) (args : list Z) : option Z :=
  match op, args with
  | ADD, [x; y] => Some (wrap (x + y))
  | MUL, [x; y] => Some (wrap (x * y))
  | SUB, [x; y] => Some (wrap (x - y))
  | DIV, [x; y] => Some (if y =? 0 then 0 else x / y)
  | SDIV, [x; y] => Some (if y =? 0 then 0 else wrap (signed x ÷ signed y))
  | MOD, [x; y] => Some (if y =? 0 then 0 else x mod y)
  | SMOD, [x; y] => Some (if y =? 0 then 0 else wrap (Z.rem (signed x) (signed y)))
  | ADDMOD, [x; y; z] => Some (if z =? 0 then 0 else (x + y) mod z)
  | MULMOD, [x; y; z] => Some (if z =? 0 then 0 else (x * y) mod z)
  | EXP, [x; y] => Some (wrap (x ^ y))
  | SIGNEXTEND, [k; x] => Some (sign_extended k x)
  | LT, [x; y] => Some (bool_word (x <? y))
  | GT, [x; y] => Some (bool_word (y <? x))
  | SLT, [x; y] => Some (bool_word (signed x <? signed y))
  | SGT, [x; y] => Some (bool_word (signed y <? signed x))
  | EQ, [x; y] => Some (bool_word (x =? y))
  | ISZERO, [x] => Some (bool_word (x =? 0))
  | AND, [x; y] => Some (Z.land x y)
  | OR, [x; y] => Some (Z.lor x y)
  | XOR, [x; y] => Some (Z.lxor x y)
  | NOT, [x] => Some (tt256 - 1 - x)
  | BYTE, [i; x] => Some (if i <? 32 then x / 256 ^ (31 - i) mod 256 else 0)
  | SHL, [n; x] => Some (wrap (x * 2 ^ n))
  | SHR, [n; x] => Some (x / 2 ^ n)
  | SAR, [n; x] => Some (wrap (signed x / 2 ^ n))
  | _, _ => None
  end.

(** ** Each operation *)

Lemma wrap_word x : word (wrap x).
Proof. by apply Z.mod_pos_bound. Qed.
Lemma wrap_small x : word x → wrap x = x.
Proof. apply Z.mod_small. Qed.
Lemma U256_wrap x : U256 x = wrap x.
Proof. apply U256_mod. Qed.
Lemma bool_word_word b : word (bool_word b).
Proof. by destruct b. Qed.

Lemma signed_eqb x : word x → (signed x =? 0) = (x =? 0).
Proof. unfold word, signed. rewrite tt256_half. intros. assert (0 < tt255) by done. case_match; destruct (Z.eqb_spec x 0); lia. Qed.

(** The quotient by absolute values, with the sign of the quotient. *)
Lemma quot_abs x y : y ≠ 0 → x ≠ 0 → x ÷ y = if Z.sgn x =? Z.sgn y then Z.abs x / Z.abs y else - (Z.abs x / Z.abs y).
Proof.
  intros Hy Hx. destruct x as [|p|p], y as [|q|q]; try done; cbn [Z.sgn Z.eqb Pos.eqb Z.abs];
    rewrite <-?Pos2Z.opp_pos; rewrite ?Z.quot_opp_opp, ?Z.quot_opp_l, ?Z.quot_opp_r by lia; by rewrite Z.quot_div_nonneg by lia.
Qed.
Lemma rem_abs x y : y ≠ 0 → Z.rem x y = if Z.sgn x <? 0 then - (Z.abs x mod Z.abs y) else Z.abs x mod Z.abs y.
Proof.
  intros Hy. rewrite <-Z.rem_mod_nonneg by lia. rewrite Z.rem_abs_r by done. destruct x as [|p|p]; cbn [Z.sgn Z.ltb Z.compare Z.abs]; [done..|].
  rewrite <-Pos2Z.opp_pos, Z.rem_opp_l by done. done.
Qed.

(** A function of the items on top of the stack. *)
Definition top_of (e : executionFunc) (args : list Z) (r : Z) : Prop :=
  ∀ interp isVault f st, f_stack f = args ++ st → e interp isVault f = Some (([], None), set_stack (r :: st) f).

Lemma top_unary g x r : g x = r → top_of (unary g) [x] r.
Proof. intros <- interp v f st Hf. unfold unary, pop, push_done, push, done_, mbind', mget, mmod, mret'. by rewrite Hf. Qed.
Lemma top_binary g x y r : g x y = r → top_of (binary g) [x; y] r.
Proof. intros <- interp v f st Hf. unfold binary, pop, push_done, push, done_, mbind', mget, mmod, mret'. by rewrite Hf. Qed.
Lemma top_ternary g x y z r : g x y z = r → top_of (ternary g) [x; y; z] r.
Proof. intros <- interp v f st Hf. unfold ternary, pop, push_done, push, done_, mbind', mget, mmod, mret'. by rewrite Hf. Qed.

Lemma div_word x y : word x → 0 < y → word (x / y).
Proof. unfold word. intros Hx Hy. split; [apply Z.div_pos; lia|]. apply Z.div_lt_upper_bound; nia. Qed.
Lemma mod_word x y : word y → y ≠ 0 → word (x mod y).
Proof. unfold word. intros Hy H0. pose proof (Z.mod_pos_bound x y). lia. Qed.

Lemma land_word x y : word x → word y → word (Z.land x y).
Proof.
  intros Hx Hy. rewrite <-(U256_small y) by done. unfold U256. rewrite Z.land_assoc.
  change (word (U256 (Z.land x y))). apply U256_word.
Qed.
Lemma bits_word x : 0 <= x → (∀ n, 256 <= n → Z.testbit x n = false) → word x.
Proof.
  intros Hx Hb. split; [done|]. replace x with (U256 x); [apply U256_word|]. unfold U256. change tt256m1 with (Z.ones 256).
  apply Z.bits_inj'. intros n Hn. rewrite Z.land_spec. destruct (Z.ltb_spec n 256).
  - by rewrite Z.ones_spec_low, andb_true_r by lia.
  - by rewrite Hb.
Qed.
Lemma word_bits x n : word x → 256 <= n → Z.testbit x n = false.
Proof.
  intros [Hx Hlt] Hn. destruct (decide (x = 0)) as [->|]; [apply Z.bits_0|]. apply Z.bits_above_log2; [done|].
  assert (Z.log2 x < 256); [|lia]. apply Z.log2_lt_pow2; [lia|done].
Qed.
Lemma lor_word x y : word x → word y → word (Z.lor x y).
Proof.
  intros Hx Hy. apply bits_word; [apply Z.lor_nonneg; split; [apply Hx|apply Hy]|].
  intros n Hn. by rewrite Z.lor_spec, !word_bits.
Qed.
Lemma lxor_word x y : word x → word y → word (Z.lxor x y).
Proof.
  intros Hx Hy. apply bits_word; [apply Z.lxor_nonneg; split; intros; [apply Hy|apply Hx]|].
  intros n Hn. by rewrite Z.lxor_spec, !word_bits.
Qed.

Lemma lor_lnot_ones x b : 0 <= b → Z.lor x (Z.lnot (Z.ones b)) = x mod 2 ^ b - 2 ^ b.
Proof.
  intros Hb. rewrite <-Z.land_ones by done.
  assert (Z.land (Z.land x (Z.ones b)) (Z.lnot (Z.ones b)) = 0) as Hd.
  { apply Z.bits_inj'. intros n Hn. rewrite !Z.land_spec, Z.lnot_spec, Z.bits_0 by done.
    by destruct (Z.testbit x n), (Z.testbit (Z.ones b) n). }
  replace (Z.land x (Z.ones b) - 2 ^ b) with (Z.land x (Z.ones b) + Z.lnot (Z.ones b)) by (rewrite Z.ones_equiv; unfold Z.lnot; lia).
  rewrite Z.add_nocarry_lxor, Z.lxor_lor by done. apply Z.bits_inj'. intros n Hn.
  rewrite !Z.lor_spec, Z.lnot_spec, Z.land_spec by done. by destruct (Z.testbit x n), (Z.testbit (Z.ones b) n).
Qed.

Lemma SignExtend_value k num : word k → word num → k < 31 →
  let bit := u64 (big_Uint64 k * 8 + 7) in
  let mask := Z.shiftl 1 bit - 1 in
  U256 (if Z.testbit num bit then Z.lor num (Z.lnot mask) else Z.land num mask) = sign_extended k num.
Proof.
  intros [Hk0 _] [Hn0 Hn] Hk. rewrite big_Uint64_small by (unfold two64; lia). rewrite u64_small by (unfold two64; lia).
  cbv zeta. unfold sign_extended. destruct (Z.ltb_spec k 31); [|lia].
  set (b := k * 8 + 7). replace (8 * (k + 1)) with (b + 1) by lia. replace (b + 1 - 1) with b by lia. cbv zeta.
  assert (0 <= b < 255) as Hb by lia. rewrite Z.shiftl_1_l, U256_wrap.
  assert (0 < 2 ^ b) by (apply Z.pow_pos_nonneg; lia).
  assert (2 ^ (b + 1) = 2 * 2 ^ b) as H2 by (rewrite Z.add_1_r, Z.pow_succ_r by lia; done).
  assert (2 ^ b < tt255) by (apply Z.pow_lt_mono_r; lia).
  pose proof (Z.mod_pos_bound num (2 ^ b) ltac:(lia)) as Hm.
  assert (num mod 2 ^ (b + 1) = num mod 2 ^ b + 2 ^ b * (num / 2 ^ b mod 2)) as Hsplit.
  { rewrite H2, Z.mul_comm. by rewrite Z.rem_mul_r by lia. }
  replace (2 ^ b - 1) with (Z.ones b) by (rewrite Z.ones_equiv; lia).
  pose proof (Z.testbit_spec' num b ltac:(lia)) as Hbit. rewrite <-Hbit in Hsplit. clear Hbit.
  destruct (Z.testbit num b); cbn [Z.b2z] in Hsplit; rewrite Hsplit.
  - destruct (Z.ltb_spec (num mod 2 ^ b + 2 ^ b * 1) (2 ^ b)); [lia|]. rewrite lor_lnot_ones by lia. f_equal. lia.
  - destruct (Z.ltb_spec (num mod 2 ^ b + 2 ^ b * 0) (2 ^ b)); [|lia].
    rewrite Z.land_ones by lia. rewrite wrap_small; [lia|]. unfold word. rewrite tt256_half. lia.
Qed.

Lemma top_SignExtend k x : word k → word x → top_of opSignExtend [k; x] (sign_extended k x).
Proof.
  intros Hk Hx interp v f st Hf. unfold opSignExtend, pop, push_done, push, done_, mbind', mget, mmod, mret'. rewrite Hf. cbn [app].
  rewrite big_Cmp_ltb. destruct (Z.ltb_spec k 31).
  - cbn [set_stack f_stack]. by rewrite (SignExtend_value k x).
  - unfold sign_extended. destruct (Z.ltb_spec k 31); [lia|]. done.
Qed.

Lemma sign_extended_word k x : word k → word x → word (sign_extended k x).
Proof.
  intros [Hk0 _] Hx. unfold sign_extended. destruct (Z.ltb_spec k 31); [|done]. cbv zeta. case_match; [|apply wrap_word].
  pose proof (Z.mod_pos_bound x (2 ^ (8 * (k + 1)))) as Hb. pose proof (Z.pow_pos_nonneg 2 (8 * (k + 1))).
  assert (2 ^ (8 * (k + 1)) <= tt256) by (apply Z.pow_le_mono_r; lia). unfold word. lia.
Qed.

Lemma Slt_value x y : word x → word y →
  (if (tt255 <=? x) && (y <? tt255) then 1 else if (x <? tt255) && (tt255 <=? y) then 0 else bool_word (x <? y)) =
  bool_word (signed x <? signed y).
Proof.
  unfold word, signed. rewrite tt256_half. intros Hx Hy.
  destruct (Z.leb_spec tt255 x), (Z.ltb_spec y tt255), (Z.ltb_spec x tt255), (Z.leb_spec tt255 y); try lia; cbn [andb].
  - destruct (Z.ltb_spec (x - 2 * tt255) y); [done|lia].
  - destruct (Z.ltb_spec x y), (Z.ltb_spec (x - 2 * tt255) (y - 2 * tt255)); (done || lia).
  - destruct (Z.ltb_spec x y), (Z.ltb_spec x y); (done || lia).
  - destruct (Z.ltb_spec x (y - 2 * tt255)); [lia|done].
Qed.
Lemma Sgt_value x y : word x → word y →
  (if (tt255 <=? x) && (y <? tt255) then 0 else if (x <? tt255) && (tt255 <=? y) then 1 else bool_word (y <? x)) =
  bool_word (signed y <? signed x).
Proof.
  intros Hx Hy. rewrite <-Slt_value by done. destruct (Z.leb_spec tt255 x), (Z.ltb_spec y tt255), (Z.ltb_spec x tt255), (Z.leb_spec tt255 y); try lia; done.
Qed.

Lemma shift_out x n : word x → 256 <= n → wrap (x * 2 ^ n) = 0 ∧ x / 2 ^ n = 0.
Proof.
  intros Hx Hn. unfold wrap. replace n with (256 + (n - 256)) by lia. rewrite Z.pow_add_r by lia. change (2 ^ 256) with tt256.
  split; [rewrite Z.mul_assoc, (Z.mul_comm x), <-Z.mul_assoc, Z.mul_comm; by apply Z.mod_mul|].
  apply Z.div_small. unfold word in Hx. pose proof (Z.pow_pos_nonneg 2 (n - 256)). nia.
Qed.
Lemma signed_shift_out x n : word x → 256 <= n → signed x / 2 ^ n = if 0 <=? Z.sgn (signed x) then 0 else -1.
Proof.
  intros Hx Hn. pose proof (signed_range x Hx) as Hs.
  assert (tt256 <= 2 ^ n) by (apply Z.pow_le_mono_r; lia). assert (tt255 < tt256) by done.
  destruct (Z.leb_spec 0 (Z.sgn (signed x))) as [Hsg|Hsg].
  - apply Z.div_small. apply Z.sgn_nonneg in Hsg. lia.
  - apply Z.sgn_neg_iff in Hsg. symmetry. apply (Z.div_unique_pos _ _ _ (signed x + 2 ^ n)); lia.
Qed.

Lemma small_shift n : word n → n < 256 → big_Uint64 n = n.
Proof. unfold word. intros. apply big_Uint64_small. unfold two64. lia. Qed.

Section arith.
Context `{!Crypto} `{!PrecompileLib} (D : Database) (env : Env).

(** The instruction of an opcode in the last table. *)
Definition instruction (op : OpCode) : executionFunc :=
  execute (default no_operation (newConstantinopleInstructionSet D env !! #op)).

Ltac cmp := cbv beta zeta; rewrite ?big_Cmp_ltb, ?big_Cmp_gtb, ?big_Cmp_geb, ?big_Cmp_leb, ?big_Cmp_eqb, ?sgn_eqb, ?S256_signed, ?U256_wrap.

Lemma Sdiv_value x y : word x → word y →
  (if (signed y =? 0) || (signed x =? 0) then 0
   else if negb (Z.sgn (signed x) =? Z.sgn (signed y)) then wrap (- (Z.abs (signed x) / Z.abs (signed y)))
   else wrap (Z.abs (signed x) / Z.abs (signed y))) = if y =? 0 then 0 else wrap (signed x ÷ signed y).
Proof.
  intros Hx Hy. rewrite (signed_eqb y Hy), (signed_eqb x Hx). pose proof (signed_eqb y Hy) as Ey. pose proof (signed_eqb x Hx) as Ex.
  destruct (Z.eqb_spec y 0) as [|Hy0]; [done|]. apply Z.eqb_neq in Ey. cbn [orb]. destruct (Z.eqb_spec x 0) as [|Hx0].
  - apply Z.eqb_eq in Ex. rewrite Ex. by rewrite Z.quot_0_l.
  - apply Z.eqb_neq in Ex. rewrite quot_abs by done. by destruct (_ =? _).
Qed.
Lemma Smod_value x y : word x → word y →
  (if signed y =? 0 then 0
   else if Z.sgn (signed x) <? 0 then wrap (- (Z.abs (signed x) mod Z.abs (signed y)))
   else wrap (Z.abs (signed x) mod Z.abs (signed y))) = if y =? 0 then 0 else wrap (Z.rem (signed x) (signed y)).
Proof.
  intros Hx Hy. rewrite (signed_eqb y Hy). pose proof (signed_eqb y Hy) as Ey. destruct (Z.eqb_spec y 0); [done|].
  apply Z.eqb_neq in Ey. rewrite rem_abs by done. by destruct (_ <? _).
Qed.
Lemma Exp_value x y : word x → word y →
  (if y <? 1 then 1 else if x =? 0 then 0 else if y =? 1 then x else Exp x y) = wrap (x ^ y).
Proof.
  intros Hx Hy. destruct (Z.ltb_spec y 1); [assert (y = 0) as -> by (unfold word in *; lia); done|].
  destruct (Z.eqb_spec x 0) as [->|]; [by rewrite Z.pow_0_l by lia|].
  destruct (Z.eqb_spec y 1) as [->|]; [by rewrite Z.pow_1_r, wrap_small|]. apply Exp_spec. lia.
Qed.
Lemma Not_value x : word x → wrap (Z.lnot x) = tt256 - 1 - x.
Proof.
  intros Hx. unfold wrap, Z.lnot, word in *. replace (Z.pred (- x)) with (tt256 - 1 - x + (-1) * tt256) by lia.
  rewrite Z.mod_add by done. apply Z.mod_small. lia.
Qed.

(** Each opcode, its value first, then that it is a word. *)
Lemma result_top op args r : word_result op args = Some r → Forall word args → top_of (instruction op) args r ∧ word r.
Proof using D env.
  intros Hr Hall.
  destruct op; try done; destruct args as [|x [|y [|z [|]]]]; try done; injection Hr as <-;
    rewrite ?Forall_cons in Hall; destruct_and?.
  - split; [apply top_binary; by cmp|apply wrap_word].
  - split; [apply top_binary; by cmp|apply wrap_word].
  - split; [apply top_binary; by cmp|apply wrap_word].
  - assert (word (if y =? 0 then 0 else x / y)) by (case_match; [done|]; apply div_word; unfold word in *; lia).
    split; [|done]. apply top_binary. cmp. destruct (Z.eqb_spec y 0); [done|]. by apply wrap_small.
  - split; [|case_match; [done|apply wrap_word]]. apply top_binary. cmp. by apply Sdiv_value.
  - assert (word (if y =? 0 then 0 else x mod y)) by (case_match; [done|]; apply mod_word; [done|lia]).
    split; [|done]. apply top_binary. cmp. destruct (Z.eqb_spec y 0); [done|]. by apply wrap_small.
  - split; [|case_match; [done|apply wrap_word]]. apply top_binary. cmp. by apply Smod_value.
  - assert (word (if z =? 0 then 0 else (x + y) mod z)) by (case_match; [done|]; apply mod_word; [done|lia]).
    split; [|done]. apply top_ternary. cmp. unfold word in *. destruct (Z.ltb_spec 0 z), (Z.eqb_spec z 0); try lia. by apply wrap_small.
  - assert (word (if z =? 0 then 0 else (x * y) mod z)) by (case_match; [done|]; apply mod_word; [done|lia]).
    split; [|done]. apply top_ternary. cmp. unfold word in *. destruct (Z.ltb_spec 0 z), (Z.eqb_spec z 0); try lia. by apply wrap_small.
  - split; [|apply wrap_word]. apply top_binary. cmp. by apply Exp_value.
  - split; [by apply top_SignExtend|by apply sign_extended_word].
  - split; [apply top_binary; by cmp|apply bool_word_word].
  - split; [apply top_binary; by cmp|apply bool_word_word].
  - split; [apply top_binary; cmp; by apply Slt_value|apply bool_word_word].
  - split; [apply top_binary; cmp; by apply Sgt_value|apply bool_word_word].
  - split; [apply top_binary; by cmp|apply bool_word_word].
  - split; [|apply bool_word_word]. apply top_unary. unfold word in *. destruct (Z.eqb_spec x 0) as [->|]; [done|]. by destruct x; [|..|lia].
  - split; [by apply top_binary|by apply land_word].
  - split; [by apply top_binary|by apply lor_word].
  - split; [by apply top_binary|by apply lxor_word].
  - split; [|unfold word in *; lia]. apply top_unary. cmp. by apply Not_value.
  - split; [|case_match; [|done]; pose proof (Z.mod_pos_bound (y / 256 ^ (31 - x)) 256); unfold word; assert (256 < tt256) by done; lia].
    apply top_binary. cmp. unfold word in *. destruct (Z.ltb_spec x 32); [|done]. rewrite big_Int64_small by (unfold two63; lia).
    apply math_Byte_spec; lia.
  - split; [|apply wrap_word]. apply top_binary. rewrite !U256_small by done. cmp. destruct (Z.leb_spec 256 x); [by rewrite (proj1 (shift_out y x ltac:(done) ltac:(done)))|].
    rewrite small_shift by done. by rewrite Z.shiftl_mul_pow2 by (unfold word in *; lia).
  - assert (word (y / 2 ^ x)) by (apply div_word; [done|]; apply Z.pow_pos_nonneg; unfold word in *; lia).
    split; [|done]. apply top_binary. rewrite !U256_small by done. cmp. destruct (Z.leb_spec 256 x); [by rewrite (proj2 (shift_out y x ltac:(done) ltac:(done)))|].
    rewrite small_shift by done. rewrite Z.shiftr_div_pow2 by (unfold word in *; lia). by apply wrap_small.
  - split; [|apply wrap_word]. apply top_binary. rewrite (U256_small x) by done. cmp. destruct (Z.leb_spec 256 x); [by rewrite signed_shift_out by done|].
    rewrite small_shift by done. by rewrite Z.shiftr_div_pow2 by (unfold word in *; lia).
Qed.

(** C28. Every arithmetic, comparison and bit instruction replaces its operands by the
    word of the reference, and changes nothing else. *)
Theorem arithmetic_correct op args r st interp isVault f :
  word_result op args = Some r → Forall word args → f_stack f = args ++ st →
  instruction op interp isVault f = Some (([], None), set_stack (r :: st) f) ∧ word r.
Proof using D env. intros Hr Hall Hf. destruct (result_top op args r Hr Hall) as [Ht Hw]. split; [by apply Ht|done]. Qed.
End arith.

(** ** Words in the memory *)

Lemma Z_byte_mod z k : 0 <= k → Z_byte (z mod 2 ^ (8 + k)) = Z_byte z.
Proof.
  intros Hk. unfold Z_byte. rewrite Z.pow_add_r by lia. change (2 ^ 8) with 256. rewrite Z.rem_mul_r by lia.
  by rewrite Z.mul_comm, Z.mod_add, Z.mod_mod by lia.
Qed.
Definition byte_at (x : Z) (j : nat) : byte := Z_byte (Z.shiftr x (8 * Z.of_nat j)).
Lemma word_bytes_at x i : 0 <= x → word_bytes (Z.shiftr x (64 * Z.of_nat i) mod two64) = map (byte_at x) (seq (8 * i) 8).
Proof.
  intros Hx. unfold word_bytes. apply list_eq. intros j. rewrite !list_lookup_fmap. destruct (decide (j < 8)%nat) as [Hj|Hj].
  - rewrite !lookup_seq_lt by done. cbn [fmap option_fmap option_map]. f_equal. unfold byte_at. rewrite two64_pow, <-Z.land_ones by lia.
    rewrite Z.shiftr_land, Z.shiftr_shiftr by lia. rewrite Nat.add_0_l.
    replace (Z.shiftr (Z.ones 64) (8 * Z.of_nat j)) with (Z.ones (64 - 8 * Z.of_nat j)) by (rewrite Z.shiftr_div_pow2, Z.ones_div_pow2 by lia; done).
    rewrite Z.land_ones by lia. replace (64 - 8 * Z.of_nat j) with (8 + (56 - 8 * Z.of_nat j)) by lia. rewrite Z_byte_mod by lia.
    do 2 f_equal. lia.
  - by rewrite !lookup_seq_ge by lia.
Qed.
Lemma big_Bits_bytes x : 0 <= x → ∃ n, concat (map word_bytes (big_Bits x)) = map (byte_at x) (seq 0 n) ∧ x < 256 ^ Z.of_nat n.
Proof.
  intros Hx. unfold big_Bits. rewrite Z.abs_eq by done. set (n := Z.to_nat _).
  exists (8 * n)%nat. split.
  - assert (∀ k m, concat (map word_bytes (map (λ i, Z.shiftr x (64 * Z.of_nat i) mod two64) (seq k m))) = map (byte_at x) (seq (8 * k) (8 * m))) as Hk.
    { intros k m. revert k. induction m as [|m IH]; intros k; [by rewrite Nat.mul_0_r|]. cbn [seq map concat]. rewrite IH, word_bytes_at by done.
      rewrite <-map_app. f_equal. replace (8 * S k)%nat with (8 * k + 8)%nat by lia. rewrite <-seq_app. f_equal. lia. }
    by rewrite Hk.
  - eapply Z.lt_le_trans; [by apply big_BitLen_bound|]. pose proof (big_BitLen_nonneg x). change 256 with (2 ^ 8). rewrite <-Z.pow_mul_r by lia.
    apply Z.pow_le_mono_r; [done|]. assert (Z.of_nat n = (big_BitLen x + 63) / 64) as Hn by (unfold n; rewrite Z2Nat.id; [done|apply Z.div_pos; lia]).
    pose proof (Z.div_mod (big_BitLen x + 63) 64). pose proof (Z.mod_pos_bound (big_BitLen x + 63) 64). lia.
Qed.
Lemma be_fix_bytes n x : 0 <= x → be_fix n x = reverse (map (byte_at x) (seq 0 n)).
Proof.
  revert x. induction n as [|n IH]; intros x Hx; [done|]. cbn [be_fix]. rewrite IH by (apply Z.div_pos; lia). cbn [seq map]. rewrite reverse_cons. f_equal.
  f_equal. rewrite <-seq_shift, map_map. apply map_ext. intros j. unfold byte_at. f_equal. change 256 with (2 ^ 8). rewrite <-Z.shiftr_div_pow2, Z.shiftr_shiftr by lia.
  f_equal. lia.
Qed.
Lemma byte_at_high x n j : 0 <= x < 256 ^ Z.of_nat n → (n <= j)%nat → byte_at x j = x00.
Proof.
  intros Hx Hj. unfold byte_at. rewrite Z.shiftr_div_pow2 by lia. rewrite Z.div_small; [done|]. split; [lia|].
  eapply Z.lt_le_trans; [apply Hx|]. change 256 with (2 ^ 8). rewrite <-Z.pow_mul_r by lia. apply Z.pow_le_mono_r; lia.
Qed.
(** [ReadBits] writes the big-endian bytes. *)
Lemma ReadBits_be x n : 0 <= x < 256 ^ Z.of_nat n → ReadBits x (replicate n x00) = be_fix n x.
Proof.
  intros Hx. unfold ReadBits. rewrite length_replicate. destruct (big_Bits_bytes x) as (m & -> & Hm); [lia|]. rewrite be_fix_bytes by lia.
  rewrite take_replicate. assert (take n (map (byte_at x) (seq 0 m)) = map (byte_at x) (seq 0 (n `min` m))) as ->.
  { apply list_eq. intros j. rewrite lookup_take. destruct (decide (j < n)%nat); rewrite ?decide_True, ?decide_False by done; rewrite !list_lookup_fmap.
    - destruct (decide (j < m)%nat); [by rewrite !lookup_seq_lt by lia|by rewrite !lookup_seq_ge by lia].
    - by rewrite lookup_seq_ge by lia. }
  rewrite length_map, length_seq. destruct (decide (n <= m)%nat).
  - replace (n `min` m)%nat with n by lia. by replace ((n - n) `min` n)%nat with 0%nat by lia.
  - replace (n `min` m)%nat with m by lia. replace ((n - m) `min` n)%nat with (n - m)%nat by lia. replace (seq 0 n) with (seq 0 m ++ seq m (n - m)) by (rewrite <-(Nat.add_0_l m) at 2; rewrite <-seq_app; f_equal; lia).
    rewrite map_app, reverse_app. f_equal. replace (map (byte_at x) (seq m (n - m))) with (replicate (n - m) x00); [by rewrite reverse_replicate|].
    apply replicate_as_Forall. split; [by rewrite length_map, length_seq|]. apply Forall_forall. intros b (j & -> & Hj)%list_elem_of_fmap.
    apply elem_of_seq in Hj. symmetry. apply (byte_at_high x m); lia.
Qed.

Section memory.
Context `{!Crypto} `{!PrecompileLib} (D : Database) (env : Env).

Lemma slice_overwrite store off value : (off + length value <= length store)%nat →
  slice (overwrite store off value) (Z.of_nat off) (Z.of_nat off + blen value) = Some value.
Proof.
  intros Hl. unfold slice, overwrite, blen. rewrite !length_app, length_take, length_drop. rewrite !(proj2 (Z.leb_le _ _)) by lia. cbn [andb]. f_equal.
  rewrite Nat2Z.id, drop_app_length' by (rewrite length_take; lia). replace (Z.to_nat (Z.of_nat off + Z.of_nat (length value) - Z.of_nat off)) with (length value) by lia.
  apply take_app_length.
Qed.

(** A word stored in the memory is read back: [MSTORE] at an offset where the memory is
    large enough, then [MLOAD] at the same offset, leave the word on the stack. *)
Theorem mstore_mload interp isVault f off x st : f_stack f = off :: x :: off :: st → word x → 0 <= off → off + 32 <= mem_Len (f_mem f) → mem_Len (f_mem f) < two63 →
  ∃ mem, (do! opMstore interp isVault in opMload interp isVault) f = Some (([], None), set_mem mem (set_stack (x :: st) f)) ∧ mem_Len mem = mem_Len (f_mem f).
Proof.
  intros Hst Hx Ho Hle Hlen. unfold two63 in Hlen. destruct f as [pc stk mem c v]. cbn in *. subst stk.
  assert (0 <= x < 256 ^ Z.of_nat 32) as Hx' by exact Hx. set (b := be_fix 32 x). assert (length b = 32%nat) as Hb by apply length_be_fix.
  set (mem' := MkMemory (overwrite (m_store mem) (Z.to_nat off) b) (m_lastGasCost mem)).
  assert (length (overwrite (m_store mem) (Z.to_nat off) b) = length (m_store mem)) as Hov.
  { unfold overwrite. rewrite !length_app, length_take, length_drop. unfold mem_Len, blen in *. lia. }
  exists mem'. split; [|unfold mem_Len, blen, mem'; cbn [m_store]; by rewrite Hov].
  assert (mem_Set32 (big_Uint64 off) x mem = Some mem') as Hset.
  { unfold mem_Set32. rewrite big_Uint64_small, u64_small by (unfold two64; lia). destruct (Z.ltb_spec (mem_Len mem) (off + 32)); [lia|].
    destruct (Z.ltb_spec (off + 32) off); [lia|]. by rewrite (ReadBits_be x 32). }
  assert (mem_Get (big_Int64 off) 32 mem' = Some b) as Hget.
  { unfold mem_Get. rewrite big_Int64_small by (unfold two63; lia). cbn [Z.eqb]. unfold mem_Len, blen, mem' in *. cbn [m_store]. rewrite Hov.
    destruct (Z.ltb_spec off (Z.of_nat (length (m_store mem)))); [|lia]. rewrite <-(Z2Nat.id off) at 2 3 by done.
    replace 32 with (blen b) by (unfold blen; by rewrite Hb). apply slice_overwrite. lia. }
  unfold opMstore, opMload, pop, on_mem, mbind', mget, mmod, mderef, mret', done_, push_done, push. cbn -[mem_Set32 mem_Get be_val].
  rewrite Hset. cbn -[mem_Set32 mem_Get be_val]. rewrite Hget. unfold b. cbn -[be_val be_fix]. by rewrite (be_val_be_fix 32 x).
Qed.
End memory.
