(* ===== verification/VmState.v ===== *)
(** * The state database under the virtual machine

    What one operation of the database does to a state that can be reverted:
    [evolves] keeps every snapshot good, [dbgood] holds of the states a
    transaction goes through (balances and words are not negative, code has its
    hash), and [quiet] is what a static call may do. *)

From Stdlib Require Import ZArith Lia.
From S2P Require Import Prelude Errors Rlp Fullnode Messages SmiloPay StateDB StateRevert StateTransition StateLaws VmWord.
Open Scope didux_scope.

(** ** The allowance is not negative *)

Definition bf_nn (x : bigFloat) : Prop := 0 < bf_prec x ∧ 0 <= bf_m x.
Lemma bf_nn_round p m e : 0 < p → 0 <= m → bf_nn (bf_round p m e).
Proof. intros Hp Hm. rewrite bf_round_nonneg by done. split; [done|]. by apply round_sig_nonneg. Qed.
Lemma bf_nn_SetInt x : 0 <= x → bf_nn (bf_SetInt x).
Proof. intros Hx. apply bf_nn_round; [lia|done]. Qed.
Lemma bf_nn_Mul x y : bf_nn x → bf_nn y → bf_nn (bf_Mul x y).
Proof. intros [? ?] [? ?]. apply bf_nn_round; [lia|by apply Z.mul_nonneg_nonneg]. Qed.
Lemma bf_nn_Add x y : bf_nn x → bf_nn y → bf_nn (bf_Add x y).
Proof. intros [? ?] [? ?]. apply bf_nn_round; [lia|]. apply Z.add_nonneg_nonneg; by apply bf_align_nonneg. Qed.
Lemma bf_nn_Quo x y : bf_nn x → bf_nn y → bf_nn (bf_Quo x y).
Proof.
  intros [? ?] [? ?]. apply bf_nn_round; [lia|]. apply sticky_nonneg. destruct (Z.eq_dec (bf_m y) 0) as [->|]; [by rewrite Z.div_0_r|].
  apply Z.div_pos; [|lia]. apply Z.mul_nonneg_nonneg; [done|]. apply Z.pow_nonneg. lia.
Qed.
Lemma bf_nn_Sqrt x y : bf_nn x → bf_Sqrt x = Some y → bf_nn y.
Proof. intros [? ?]. unfold bf_Sqrt. case_match; [done|]. intros [= <-]. apply bf_nn_round; [done|]. apply sticky_nonneg, Z.sqrt_nonneg. Qed.
Lemma floatToBigInt_nonneg x p : bf_nn x → 0 <= p → 0 <= floatToBigInt x p.
Proof.
  intros [Hp Hm] Hp0. unfold floatToBigInt. assert (bf_nn (bf_SetPrec 64 x)) as [_ Hs].
  { unfold bf_SetPrec. case_match; [by apply bf_nn_round|by split]. }
  assert (bf_nn (bf_Mul_prec 64 (bf_SetPrec 64 x) (bf_SetInt p))) as [_ Hr].
  { apply bf_nn_round; [done|]. apply Z.mul_nonneg_nonneg; [done|]. by apply bf_nn_SetInt. }
  unfold bf_Int. case_match; [apply Z.mul_nonneg_nonneg; [done|]; apply Z.pow_nonneg; lia|].
  assert (0 < 2 ^ (- bf_e (bf_Mul_prec 64 (bf_SetPrec 64 x) (bf_SetInt p)))) by (apply Z.pow_pos_nonneg; lia). by apply Z.quot_pos.
Qed.
Lemma CalculateSmiloPay_nonneg pb nb prev balance r : 0 <= prev → 0 <= balance → CalculateSmiloPay pb nb prev balance = Some r → 0 <= r.
Proof.
  intros Hp Hb. unfold CalculateSmiloPay. destruct (Z.leb_spec 0 (big_Cmp pb nb)) as [|Hc]; [by intros [= <-]|]. rewrite big_Cmp_lt in Hc.
  unfold MaxSmiloPay. set (b := balance / _). assert (bf_nn (bf_SetInt b)) as Hnb by (apply bf_nn_SetInt, Z.div_pos; [done|lia]).
  destruct (bf_Sqrt (bf_SetInt b)) as [f|] eqn:Hf; [|done]. pose proof (bf_nn_Sqrt _ _ Hnb Hf) as Hnf. cbv iota beta zeta. rewrite Hf.
  assert (∀ m e, 0 <= m → bf_nn (bf_NewFloat m e)) as Hc0 by done.
  assert (bf_nn (bf_SetInt (nb - pb))) by (apply bf_nn_SetInt; lia). assert (bf_nn (bf_SetInt prev)) by by apply bf_nn_SetInt.
  case_match; intros [= <-]; apply floatToBigInt_nonneg; try done; repeat first [apply bf_nn_Mul|apply bf_nn_Add|apply bf_nn_Quo|apply Hc0]; done.
Qed.

(** ** Good states *)

(** The database below: code is stored under its hash, words are 32-byte values. *)
Record db_ok `{!Crypto} (D : Database) : Prop := {
  do_code h c : db_ContractCode D h = Some c → Keccak256 c = h ∧ blen c < two63;
  do_word r k v : db_OpenStorageTrie D r !! k = Some v → 0 <= v;
  do_hash b : 0 <= Keccak256 b
}.

Section state.
Context `{!Crypto} (D : Database).
Implicit Types s : StateDB.
Implicit Types o : stateObject.

(** The allowance of an account at a block. *)
Definition allowance (bn : Z) (d : Account) : option Z := CalculateSmiloPay (ac_BlockNumber d) bn (ac_SmiloPay d) (ac_Balance d).
(** What RLP can encode of an account beside its balance. *)
Definition pay_ok (d : Account) : Prop := 0 <= ac_SmiloPay d ∧ 0 <= ac_BlockNumber d.

Record obj_good (o : stateObject) : Prop := {
  og_balance : 0 <= ac_Balance (so_data o);
  og_hash : 0 <= ac_CodeHash (so_data o);
  og_code c : code_of D o = Some c → Keccak256 c = ac_CodeHash (so_data o) ∧ blen c < two63;
  og_word k : 0 <= current D o k;
  og_committed k : 0 <= committed D o k;
  og_pay : pay_ok (so_data o)
}.
Definition objs (s : StateDB) : Prop := ∀ a o, peek s a = Some o → obj_good o.
Record dbgood (s : StateDB) : Prop := {
  dg_snaps : good D s; dg_objs : objs s; dg_refund : 0 <= sd_refund s
}.
Lemma dbgood_wf s : dbgood s → wf D s.
Proof. intros [[G HG] _ _]. apply HG. Qed.
Lemma dbgood_bal s a : dbgood s → 0 <= bal s a.
Proof. intros [_ Ho _]. unfold bal, acct. destruct (peek s a) as [o|] eqn:Hp; [by apply (og_balance _ (Ho a o Hp))|done]. Qed.

Lemma obj_rel_good a o p : obj_rel D a o p → obj_good p → obj_good o.
Proof.
  intros [_ _ Hd Hc Hk Hm _] [H1 H2 H3 H4 H5 H6]. split; rewrite ?Hd, ?Hc; [done..| | |done]; intros k; by rewrite ?Hk, ?Hm.
Qed.
Lemma same_state_objs s t : same_state D s t → objs t → objs s.
Proof.
  intros Hst Ht a o Hp. pose proof (ss_obj _ _ _ Hst a) as Ho. rewrite Hp in Ho.
  destruct (peek t a) as [p|] eqn:Hpt; [|done]. by eapply obj_rel_good, Ht.
Qed.
Lemma obj_rel_new_refl a : obj_rel D a (setNonce 0 (newObject a emptyAccount)) (setNonce 0 (newObject a emptyAccount)).
Proof. by apply obj_rel_refl. Qed.

(** ** Evolution *)

(** The transaction and the block a state is prepared for. *)
Definition tx_of (s : StateDB) : hash * hash * Z := (sd_thash s, sd_bhash s, sd_txIndex s).
Lemma keeps_setStateObject o : keeps tx_of (setStateObject o).
Proof. by apply keeps_mod. Qed.
Lemma keeps_append e : keeps tx_of (append e).
Proof. by apply keeps_mod. Qed.
Hint Resolve keeps_setStateObject keeps_append : keeps.
Lemma keeps_getStateObject a : keeps tx_of (getStateObject a).
Proof. unfold getStateObject. keeps_tac. Qed.
Hint Resolve keeps_getStateObject : keeps.
Lemma keeps_revert_entry e : keeps tx_of (revert_entry e).
Proof. destruct e; cbn [revert_entry]; unfold on_object, update; keeps_tac. Qed.
Hint Resolve keeps_revert_entry : keeps.
Lemma keeps_revert_entries l : keeps tx_of (revert_entries l).
Proof. induction l as [|e l IH]; cbn [revert_entries]; keeps_tac. Qed.

Record evolves (s s' : StateDB) : Prop := {
  ev_tx : tx_of s' = tx_of s;
  ev_revs : sd_validRevisions s `prefix_of` sd_validRevisions s';
  ev_snaps G : snaps_ok D s G → ∃ G', snaps_ok D s' G' ∧ ∀ id, id ∈ (sd_validRevisions s).*1 → G' id = G id
}.
Lemma evolves_refl s : evolves s s.
Proof. split; [done|done|]. intros G HG. by exists G. Qed.
Lemma evolves_trans s1 s2 s3 : evolves s1 s2 → evolves s2 s3 → evolves s1 s3.
Proof.
  intros [Ht1 Hr1 Hs1] [Ht2 Hr2 Hs2]. split; [by rewrite Ht2|by etrans|]. intros G HG.
  destruct (Hs1 G HG) as (G1 & HG1 & Hg1). destruct (Hs2 G1 HG1) as (G2 & HG2 & Hg2). exists G2. split; [done|].
  intros id Hid. rewrite Hg2; [by apply Hg1|]. destruct Hr1 as [l ->]. rewrite fmap_app. apply elem_of_app. by left.
Qed.
Lemma evolves_ok s s' : ok D s s' → evolves s s'.
Proof.
  intros Hok. pose proof Hok as [es Hst]. destruct (st_revisions _ _ _ _ Hst) as [Hr _]. split; [|by rewrite Hr|].
  { destruct (st_undo _ _ _ _ Hst) as (s2 & Hu & Hss). rewrite <-(keeps_revert_entries _ _ _ _ Hu). unfold tx_of. by destruct (ss_tx _ _ _ Hss) as (-> & -> & ->). }
  intros G HG. exists G. split; [by eapply snaps_step|done].
Qed.
Lemma evolves_good s s' : evolves s s' → good D s → good D s'.
Proof. intros He [G HG]. destruct (ev_snaps _ _ He G HG) as (G' & HG' & _). by exists G'. Qed.

(** What a static call leaves: accounts, code, storage, the refund counter and the
    logs stay; an account that did not exist may be there, empty. *)
Record quiet (s s' : StateDB) : Prop := {
  qu_obj a o : peek s a = Some o → ∃ o', peek s' a = Some o' ∧ obj_rel D a o' o;
  qu_new a : peek s a = None → opt_rel (obj_rel D a) (peek s' a) None ∨
    opt_rel (obj_rel D a) (peek s' a) (Some (setNonce 0 (newObject a emptyAccount)));
  qu_refund : sd_refund s' = sd_refund s;
  qu_logs h : default [] (sd_logs s' !! h) = default [] (sd_logs s !! h);
  qu_logSize : sd_logSize s' = sd_logSize s
}.
Lemma quiet_same s s' : same_state D s' s → quiet s s'.
Proof.
  intros [Ho _ Hr _ Hl [Hn _] _ _ _]. split; [| |done|done|done].
  - intros a o Hp. specialize (Ho a). rewrite Hp in Ho. destruct (peek s' a) as [o'|]; [|done]. by exists o'.
  - intros a Hp. specialize (Ho a). rewrite Hp in Ho. left. by destruct (peek s' a).
Qed.
Lemma db_quiet_trans s1 s2 s3 : quiet s1 s2 → quiet s2 s3 → quiet s1 s3.
Proof.
  intros [Ho1 Hn1 Hr1 Hl1 Hs1] [Ho2 Hn2 Hr2 Hl2 Hs2]. split; [| |congruence| |congruence].
  - intros a o Hp. destruct (Ho1 a o Hp) as (o1 & Hp1 & Hrel1). destruct (Ho2 a o1 Hp1) as (o2 & Hp2 & Hrel2).
    exists o2. split; [done|by eapply obj_rel_trans].
  - intros a Hp. destruct (Hn1 a Hp) as [H1|H1]; destruct (peek s2 a) as [o1|] eqn:Hp1; try done.
    + by apply Hn2.
    + destruct (Ho2 a o1 Hp1) as (o2 & -> & Hrel2). right. simpl in *. by eapply obj_rel_trans.
  - intros h. by rewrite Hl2, Hl1.
Qed.

(** A step of the machine on the database; with [ro] it is quiet. *)
Record dbrel (ro : bool) (s s' : StateDB) : Prop := {
  dr_evolves : evolves s s';
  dr_good : dbgood s';
  dr_quiet : ro = true → quiet s s'
}.
Lemma dbrel_refl ro s : dbgood s → dbrel ro s s.
Proof. intros Hg. split; [apply evolves_refl|done|]. intros _. by apply quiet_same, dbgood_wf. Qed.
Lemma dbrel_trans ro s1 s2 s3 : dbrel ro s1 s2 → dbrel ro s2 s3 → dbrel ro s1 s3.
Proof. intros [] []. split; [by eapply evolves_trans|done|]. intros Hro. eapply db_quiet_trans; eauto. Qed.
Lemma dbrel_weaken ro s s' : dbrel true s s' → dbrel ro s s'.
Proof. intros []. split; eauto. Qed.

(** ** Loads *)

Definition loads (s s' : StateDB) : Prop := same_state D s' s ∧ frame s s'.
Lemma loads_refl s : wf D s → loads s s.
Proof. done. Qed.
Lemma loads_trans s1 s2 s3 : loads s1 s2 → loads s2 s3 → loads s1 s3.
Proof. intros [H1 H2] [H3 H4]. split; [by etransitivity|by eapply frame_trans]. Qed.
Lemma loads_dbrel ro s s' : dbgood s → loads s s' → dbrel ro s s'.
Proof.
  intros Hg [Hss Hfr]. pose proof (evolves_ok _ _ (ok_same D _ _ Hss Hfr)) as Hev. split; [done| |intros _; by apply quiet_same].
  split; [by eapply evolves_good, Hg|by eapply same_state_objs, Hg|]. rewrite (ss_refund _ _ _ Hss). apply Hg.
Qed.
Lemma loads_wf s s' : loads s s' → wf D s'.
Proof. intros [Hss _]. by eapply same_state_wf_l. Qed.
Lemma loads_acct s s' a : loads s s' → acct s' a = acct s a.
Proof.
  intros [Hss _]. pose proof (ss_obj _ _ _ Hss a) as Ho. unfold acct.
  destruct (peek s' a), (peek s a); try done. by rewrite (or_data _ _ _ _ Ho).
Qed.
Lemma loads_bal s s' a : loads s s' → bal s' a = bal s a.
Proof. intros Hl. unfold bal. by rewrite (loads_acct _ _ _ Hl). Qed.

Lemma getStateObject_loads a s : wf D s →
  wp (getStateObject a) (λ r s', r = peek s a ∧ loads s s' ∧ peek s' a = peek s a) s.
Proof.
  intros Hwf. destruct (getStateObject_run a s) as (s' & Hg & Hs & Hn). apply (wp_of_run _ _ _ _ _ Hg).
  pose proof (getStateObject_frame _ _ _ _ Hg) as Hfr. split; [done|]. destruct (peek s a) as [o|] eqn:Hp.
  - destruct (Hs o eq_refl) as [Hs1 _]. split; [split; [by eapply loads_same|done]|].
    destruct Hs1 as [->| ->]; [done|]. rewrite peek_upd, decide_True by (done || apply (wf_peek D _ _ _ Hwf Hp)). done.
  - rewrite Hn in * by done. split; [by apply loads_refl|done].
Qed.
Lemma with_object_loads {A} a (dflt : A) f s : wf D s →
  wp (with_object a dflt f) (λ r s', r = match peek s a with Some o => f o | None => dflt end ∧ loads s s') s.
Proof.
  intros Hwf. eapply wp_seq; [by apply getStateObject_loads|]. intros r s' (-> & Hl & _). by wp_step.
Qed.
(** A reader that leaves an object that looks the same. *)
Lemma read_loads {A} a (f : stateObject → A * stateObject) (g : stateObject → A) (dflt : A) s : wf D s →
  (∀ b o c o', obj_ok b o → f o = (c, o') → c = g o ∧ obj_rel D b o' o) →
  wp (let! obj := getStateObject a in
      match obj with None => mret' dflt | Some o => let '(c, o) := f o in do! update o in mret' c end)
    (λ r s', r = match peek s a with Some o => g o | None => dflt end ∧ loads s s') s.
Proof.
  intros Hwf Hf. eapply wp_seq; [by apply getStateObject_loads|]. intros r s1 (-> & Hl & Hp1).
  destruct (peek s a) as [o|] eqn:Hp; [|by wp_step]. destruct (f o) as [c o'] eqn:Hfo.
  pose proof (wf_peek D _ _ _ Hwf Hp) as Hok. destruct (Hf a o c o' Hok Hfo) as [-> Hrel].
  unfold update, setStateObject. wp_steps. split; [done|]. eapply loads_trans; [done|].
  rewrite (oo_address _ _ (or_l _ _ _ _ Hrel)). change (loads s1 (upd a o' s1)). split; [|done].
  eapply same_state_upd_l; [by eapply loads_wf|done|done].
Qed.

(** ** One account *)

(** Everything but the account stays. *)
Record only (a : address) (s s' : StateDB) : Prop := {
  on_peek b : b ≠ a → peek s' b = peek s b;
  on_refund : sd_refund s' = sd_refund s;
  on_logs : sd_logs s' = sd_logs s;
  on_logSize : sd_logSize s' = sd_logSize s
}.
Lemma only_refl a s : only a s s.
Proof. done. Qed.
Lemma only_trans a s1 s2 s3 : only a s1 s2 → only a s2 s3 → only a s1 s3.
Proof. intros [H1 ? ? ?] [H2 ? ? ?]. split; try congruence. intros b Hb. by rewrite H2, H1. Qed.
Lemma only_objs a s s' o : only a s s' → objs s → peek s' a = Some o → obj_good o → objs s'.
Proof.
  intros Hon Hs Hp Ho b p Hb. destruct (decide (b = a)) as [->|Hne]; [congruence|].
  rewrite (on_peek _ _ _ Hon) in Hb by done. by eapply Hs.
Qed.
Lemma only_acct a s s' b : only a s s' → b ≠ a → acct s' b = acct s b.
Proof. intros Hon Hb. unfold acct. by rewrite (on_peek _ _ _ Hon). Qed.

Lemma wp_write {A} e o1 (r : A) s a : obj_ok a o1 →
  wp (do! append e in do! update o1 in mret' r) (λ x s', x = r ∧ only a s s' ∧ peek s' a = Some o1) s.
Proof.
  intros [Ha1 _ Hd1]. unfold append, update, setStateObject. wp_steps. split; [done|]. rewrite Ha1.
  set (s0 := set_journal _ s). change (set_stateObjects _ s0) with (upd a o1 s0).
  split; [split; try done|rewrite peek_upd, decide_True by done; done].
  intros b Hb. rewrite peek_upd, decide_False by done. done.
Qed.

(** The object that the setters work on. *)
Definition fresh (a : address) : stateObject := setNonce 0 (newObject a emptyAccount).
Record gotten (a : address) (s s' : StateDB) (o : stateObject) : Prop := {
  gt_only : only a s s';
  gt_peek : peek s' a = Some o;
  gt_ok : obj_ok a o;
  gt_from : peek s a = Some o ∨ peek s a = None ∧ o = fresh a;
  gt_loads : peek s a = Some o → loads s s'
}.
Lemma wp_GetOrNew_obj a s : wf D s → wp (GetOrNewStateObject a) (λ o s', gotten a s s' o) s.
Proof.
  intros Hwf. unfold GetOrNewStateObject. unfold wp, mbind' at 1.
  pose proof (getStateObject_loads a s Hwf) as Hload. unfold wp in Hload.
  destruct (getStateObject_run a s) as (s1 & Hg & Hs & Hn). rewrite Hg in *.
  destruct Hload as (_ & Hload & Hp1). destruct (peek s a) as [o|] eqn:Hp.
  - pose proof (wf_peek D _ _ _ Hwf Hp) as Hok. rewrite (oo_deleted _ _ Hok). unfold mret'.
    split; [|done|done|by left|done]. destruct (Hs o eq_refl) as [[->| ->] _]; [done|]. split; try done.
    intros b Hb. rewrite peek_upd, decide_False by (done || apply Hok). done.
  - rewrite Hn in * by done. unfold createObject, mbind'. rewrite Hg. unfold append, setStateObject, mmod, mret'. simpl.
    change (set_stateObjects _ (set_journal ?j s)) with (upd a (fresh a) (set_journal j s)).
    split; [split; try done|rewrite peek_upd, decide_True by done; done|done|by right|by rewrite Hp].
    intros b Hb. rewrite peek_upd, decide_False by done. done.
Qed.

Lemma gotten_bal a s s' o b : gotten a s s' o → bal s' b = bal s b.
Proof.
  intros [Hon Hp _ Hf _]. unfold bal. destruct (decide (b = a)) as [->|]; [|by rewrite (only_acct _ _ _ _ Hon)].
  unfold acct. rewrite Hp. destruct Hf as [->|[-> ->]]; done.
Qed.
Lemma gotten_data a s s' o : gotten a s s' o → so_data o = acct s a.
Proof. intros [_ _ _ Hf _]. unfold acct. by destruct Hf as [->|[-> ->]]. Qed.
Lemma gotten_balance a s s' o : gotten a s s' o → ac_Balance (so_data o) = bal s a.
Proof. intros Hg. rewrite <-(gotten_bal _ _ _ _ a Hg). unfold bal, acct. by rewrite (gt_peek _ _ _ _ Hg). Qed.
End state.

Section good_state.
Context `{!Crypto} (D : Database) (HD : db_ok D).
#[local] Set Default Proof Using "HD".
Implicit Types s : StateDB.
Implicit Types o : stateObject.

Lemma fresh_good a : obj_good D (fresh a).
Proof.
  split; try done.
  - simpl. apply (do_hash D HD).
  - intros c. unfold code_of. simpl. by rewrite Z.eqb_refl.
  - intros k. unfold current, committed, getTrie. simpl. rewrite lookup_empty. simpl.
    destruct (db_OpenStorageTrie D 0 !! k) as [v|] eqn:Hv; [by apply (do_word D HD 0 k)|done].
  - intros k. unfold committed, getTrie. simpl.
    destruct (db_OpenStorageTrie D 0 !! k) as [v|] eqn:Hv; [by apply (do_word D HD 0 k)|done].
Qed.
Lemma gotten_good a s s' o : objs D s → gotten D a s s' o → obj_good D o.
Proof. intros Hs [_ _ _ [Hp|[_ ->]] _]; [by eapply Hs|apply fresh_good]. Qed.

(** A change of the account data that keeps code and storage. *)
Lemma set_data_good f o : obj_good D o → 0 <= ac_Balance (f (so_data o)) → pay_ok (f (so_data o)) →
  ac_Root (f (so_data o)) = ac_Root (so_data o) → ac_CodeHash (f (so_data o)) = ac_CodeHash (so_data o) →
  obj_good D (set_data f o).
Proof.
  intros [Hb Hh Hc Hw Hm Hp] Hb' Hp' Hr Hch. split; [done|simpl; by rewrite Hch| | | |done].
  - intros c. unfold code_of in *. simpl. rewrite Hch. apply Hc.
  - intros k. unfold current, committed, getTrie in *. simpl. rewrite Hr. apply Hw.
  - intros k. unfold committed, getTrie in *. simpl. rewrite Hr. apply Hm.
Qed.

(** ** Operations *)

(** From the effect on the objects and the undoable step to the relation. *)
Lemma wp_dbrel {A} (m : M StateDB A) (R : A → StateDB → Prop) s : dbgood D s → steps D m →
  wp m (λ x s', objs D s' ∧ 0 <= sd_refund s' ∧ R x s') s → wp m (λ x s', dbrel D false s s' ∧ R x s') s.
Proof.
  intros Hg Hst Hw. unfold wp in *. destruct (m s) as [[x s']|] eqn:Hm; [|done]. destruct Hw as (Ho & Hr & HR). split; [|done].
  pose proof (evolves_ok D _ _ (Hst _ _ _ (dbgood_wf D _ Hg) Hm)) as Hev.
  split; [done| |done]. split; [by eapply evolves_good, Hg|done|done].
Qed.

(** A method of the object of an account. *)
Lemma wp_on_account {A} a (m : stateObject → M StateDB A) (R : A → StateDB → Prop) s : dbgood D s → obj_steps D m →
  (∀ o s1, gotten D a s s1 o → obj_good D o →
    wp (m o) (λ x s', ∃ o', only a s1 s' ∧ peek s' a = Some o' ∧ obj_good D o' ∧ R x s') s1) →
  wp (let! o := GetOrNewStateObject a in m o) (λ x s', dbrel D false s s' ∧ R x s') s.
Proof.
  intros Hg Hst Hm. apply wp_dbrel; [done|by apply steps_GetOrNew|].
  eapply wp_seq; [apply (wp_GetOrNew_obj D a), (dbgood_wf D), Hg|]. intros o s1 Hgt.
  pose proof (gotten_good a s s1 o (dg_objs _ _ Hg) Hgt) as Hgo.
  eapply wp_wand; [by apply Hm|]. intros x s' (o' & Hon & Hp & Ho' & HR).
  pose proof (only_trans _ _ _ _ (gt_only _ _ _ _ _ Hgt) Hon) as Hon'.
  split; [by eapply only_objs, Ho'; [|apply Hg|]|]. split; [|done]. rewrite (on_refund _ _ _ Hon'). apply Hg.
Qed.

(** Balances, through the SmiloPay accounting. *)
Definition data_change (o o' : stateObject) (v : Z) : Prop :=
  ∃ f, o' = set_data f o ∧ ac_Balance (f (so_data o)) = v ∧ (pay_ok (so_data o) → pay_ok (f (so_data o))) ∧
    ac_Root (f (so_data o)) = ac_Root (so_data o) ∧ ac_CodeHash (f (so_data o)) = ac_CodeHash (so_data o).
Lemma data_change_trans o1 o2 o3 v w : data_change o1 o2 v → data_change o2 o3 w → data_change o1 o3 w.
Proof. intros (f & -> & ? & ? & ? & ?) (g & -> & ? & ? & ? & ?). exists (λ d, g (f d)). simpl in *. split_and!; [done|done|auto|congruence..]. Qed.
Lemma data_change_good o o' v : obj_good D o → 0 <= v → data_change o o' v → obj_good D o'.
Proof. intros Ho Hv (f & -> & Hb & Hp & Hr & Hc). apply set_data_good; [done|by rewrite Hb|by apply Hp, Ho|done..]. Qed.
Lemma data_change_ok a o o' v : obj_ok a o → data_change o o' v → obj_ok a o'.
Proof. intros [] (f & -> & _). by split. Qed.
Lemma data_change_bal o o' v : data_change o o' v → ac_Balance (so_data o') = v.
Proof. by intros (f & -> & Hb & _). Qed.

Lemma wp_so_UpdateSmiloPay bn a o s : 0 <= bn → obj_ok a o → 0 <= ac_Balance (so_data o) →
  wp (so_UpdateSmiloPay bn o) (λ o' s', only a s s' ∧ peek s' a = Some o' ∧ data_change o o' (ac_Balance (so_data o)) ∧
    allowance bn (so_data o) = Some (ac_SmiloPay (so_data o'))) s.
Proof.
  intros Hbn Hok Hb. unfold so_UpdateSmiloPay.
  destruct (CalculateSmiloPay_total (ac_BlockNumber (so_data o)) bn (ac_SmiloPay (so_data o)) _ Hb) as [r Hr]. rewrite Hr. wp_step.
  eapply wp_wand; [apply (wp_write _ (setSmiloPayAndBlock r bn o) _ s a); by destruct Hok|].
  intros x s' (-> & Hon & Hp). split; [done|]. split; [done|]. split; [|exact Hr]. eexists. split_and!; try done. intros [Hpay _]. split; [exact (CalculateSmiloPay_nonneg _ _ _ _ _ Hpay Hb Hr)|done].
Qed.
Lemma wp_so_SetBalance v bn a o s : 0 <= bn → obj_ok a o → 0 <= ac_Balance (so_data o) →
  wp (so_SetBalance v bn o) (λ o' s', only a s s' ∧ peek s' a = Some o' ∧ data_change o o' v) s.
Proof.
  intros Hbn Hok Hb. eapply wp_seq; [by apply (wp_so_UpdateSmiloPay bn a)|]. intros o1 s1 (Hon1 & Hp1 & Hc1 & _).
  pose proof (data_change_ok _ _ _ _ Hok Hc1) as Hok1.
  eapply wp_wand; [apply (wp_write _ (setBalance v o1) _ s1 a); by destruct Hok1|].
  intros x s' (-> & Hon & Hp). split; [by eapply only_trans|]. split; [done|]. eapply data_change_trans; [done|]. by eexists.
Qed.

Lemma wp_so_SubBalance v bn a o s : 0 <= bn → obj_ok a o → 0 <= ac_Balance (so_data o) → peek s a = Some o →
  wp (so_SubBalance v bn o) (λ _ s', ∃ o', only a s s' ∧ peek s' a = Some o' ∧ data_change o o' (ac_Balance (so_data o) - v)) s.
Proof.
  intros Hbn Hok Hb Hp. unfold so_SubBalance. destruct (Z.eqb_spec (Z.sgn v) 0) as [Hz|Hz].
  { assert (v = 0) as -> by lia. wp_step. exists o. split; [done|]. split; [done|]. exists id. split_and!; [by destruct o|simpl; lia|done..]. }
  eapply wp_seq; [by apply (wp_so_SetBalance _ bn a)|]. intros o1 s1 H1. wp_step. by exists o1.
Qed.
Lemma wp_touch a o s : so_address o = a → peek s a = Some o → wp (touch o) (λ _ s', only a s s' ∧ peek s' a = Some o) s.
Proof. intros Ha Hp. unfold touch, append. wp_steps. destruct (so_address o =? ripemd); by wp_steps. Qed.
Lemma wp_so_AddBalance v bn a o s : 0 <= bn → obj_ok a o → 0 <= ac_Balance (so_data o) → peek s a = Some o →
  wp (so_AddBalance v bn o) (λ _ s', ∃ o', only a s s' ∧ peek s' a = Some o' ∧ data_change o o' (ac_Balance (so_data o) + v)) s.
Proof.
  intros Hbn Hok Hb Hp. unfold so_AddBalance. destruct (Z.eqb_spec (Z.sgn v) 0) as [Hz|Hz].
  - assert (v = 0) as -> by lia.
    assert (data_change o o (ac_Balance (so_data o) + 0)) as Hc by (exists id; split_and!; [by destruct o|simpl; lia|done..]).
    destruct (empty o); [|wp_step; by exists o].
    eapply wp_wand; [by apply (wp_touch a), Hp; apply Hok|]. intros [] s' [Hon Hp']. by exists o.
  - eapply wp_seq; [by apply (wp_so_UpdateSmiloPay bn a)|]. intros o1 s1 (Hon1 & Hp1 & Hc1 & _).
    pose proof (data_change_ok _ _ _ _ Hok Hc1) as Hok1. pose proof (data_change_bal _ _ _ Hc1) as Hb1.
    eapply wp_seq; [apply (wp_so_SetBalance _ bn a); [done|done|lia]|]. intros o2 s2 (Hon2 & Hp2 & Hc2). wp_step.
    exists o2. split; [by eapply only_trans|]. split; [done|]. rewrite Hb1 in Hc2. by eapply data_change_trans.
Qed.

(** The balances after a change of one account. *)
Lemma bal_only a s s1 s' o o' v b : gotten D a s s1 o → only a s1 s' → peek s' a = Some o' →
  data_change o o' v → bal s' b = if decide (b = a) then v else bal s b.
Proof.
  intros Hgt Hon Hp Hc. case_decide as Hb.
  - subst b. unfold bal, acct. rewrite Hp. by apply (data_change_bal o).
  - unfold bal. rewrite (only_acct _ _ _ _ Hon) by done. fold (bal s1 b). by rewrite (gotten_bal D _ _ _ _ b Hgt).
Qed.

Lemma wp_SubBalance_good a v bn s : dbgood D s → 0 <= bn → v <= bal s a →
  wp (SubBalance a v bn) (λ _ s', dbrel D false s s' ∧ ∀ b, bal s' b = if decide (b = a) then bal s a - v else bal s b) s.
Proof.
  intros Hg Hbn Hv. apply (wp_on_account a (so_SubBalance v bn)); [done|apply SubBalance_steps|].
  intros o s1 Hgt Ho. pose proof (gotten_balance D _ _ _ _ Hgt) as Hbal.
  eapply wp_wand; [apply (wp_so_SubBalance v bn a); [done|apply Hgt|apply Ho|apply Hgt]|].
  intros [] s' (o' & Hon & Hp & Hc). exists o'. split; [done|]. split; [done|]. rewrite Hbal in Hc.
  split; [eapply data_change_good; [done| |done]; lia|]. intros b. by eapply bal_only.
Qed.
Lemma wp_AddBalance_good a v bn s : dbgood D s → 0 <= bn → 0 <= v →
  wp (AddBalance a v bn) (λ _ s', dbrel D false s s' ∧ ∀ b, bal s' b = if decide (b = a) then bal s a + v else bal s b) s.
Proof.
  intros Hg Hbn Hv. apply (wp_on_account a (so_AddBalance v bn)); [done|apply AddBalance_steps|].
  intros o s1 Hgt Ho. pose proof (gotten_balance D _ _ _ _ Hgt) as Hbal. pose proof (og_balance _ _ Ho).
  eapply wp_wand; [apply (wp_so_AddBalance v bn a); [done|apply Hgt|done|apply Hgt]|].
  intros [] s' (o' & Hon & Hp & Hc). exists o'. split; [done|]. split; [done|]. rewrite Hbal in Hc.
  split; [eapply data_change_good; [done| |done]; lia|]. intros b. by eapply bal_only.
Qed.
Lemma wp_SetNonce_good a n s : dbgood D s → wp (SetNonce a n) (λ _ s', dbrel D false s s' ∧ ∀ b, bal s' b = bal s b) s.
Proof.
  intros Hg. apply (wp_on_account a (so_SetNonce n)); [done|apply SetNonce_steps|].
  intros o s1 Hgt Ho. pose proof (gotten_balance D _ _ _ _ Hgt) as Hbal. pose proof (gt_ok _ _ _ _ _ Hgt) as Hok.
  eapply wp_wand; [apply (wp_write _ (setNonce n o) () s1 a); by destruct Hok|].
  intros [] s' (_ & Hon & Hp). exists (setNonce n o).
  assert (data_change o (setNonce n o) (bal s a)) as Hc by (eexists; split_and!; done).
  split; [done|]. split; [done|]. split; [eapply data_change_good; [done|by apply (dbgood_bal D)|done]|].
  intros b. rewrite (bal_only _ _ _ _ _ _ _ b Hgt Hon Hp Hc). by case_decide; subst.
Qed.
Lemma wp_SetCode_good a code s : dbgood D s → blen code < two63 →
  wp (SetCode D a code) (λ _ s', dbrel D false s s' ∧ True) s.
Proof.
  intros Hg Hlen. apply (wp_on_account a (so_SetCode D (Keccak256 code) code)); [done|apply SetCode_steps|].
  intros o s1 Hgt Ho. unfold so_SetCode. destruct (Code D o) as [prev o1] eqn:Hc.
  destruct (Code_rel D a o prev o1) as [-> Hrel]; [apply Hgt|done|]. pose proof (or_l _ _ _ _ Hrel) as Hok1.
  pose proof (obj_rel_good D _ _ _ Hrel Ho) as [Hb _ _ Hw Hm Hpay].
  eapply wp_wand; [apply (wp_write _ (setCode (Keccak256 code) (Some code) o1) () s1 a); by destruct Hok1|].
  intros [] s' (_ & Hon & Hp). eexists. split; [done|]. split; [done|]. split; [|done]. split; [done|apply (do_hash D HD)| | |exact Hm|done].
  - intros c. unfold code_of. simpl. by intros [= <-].
  - intros k. specialize (Hw k). unfold current, committed, getTrie in *. done.
Qed.
Lemma wp_SetState_good a k v s : dbgood D s → 0 <= v → wp (SetState D a k v) (λ _ s', dbrel D false s s' ∧ True) s.
Proof.
  intros Hg Hv. apply (wp_on_account a (so_SetState D k v)); [done|apply SetState_steps|].
  intros o s1 Hgt Ho. unfold so_SetState. pose proof (gt_ok _ _ _ _ _ Hgt) as Hok. rewrite (oo_fake _ _ Hok).
  destruct (GetState D o k) as [prev o1] eqn:Hc. destruct (GetState_rel D a o k prev o1 Hok Hc) as [-> Hrel].
  pose proof (or_l _ _ _ _ Hrel) as Hok1. pose proof (obj_rel_good D _ _ _ Hrel Ho) as Ho1.
  unfold update at 1, setStateObject. wp_steps. rewrite (oo_address _ _ Hok1). change (set_stateObjects _ s1) with (upd a o1 s1).
  assert (only a s1 (upd a o1 s1) ∧ peek (upd a o1 s1) a = Some o1) as [Hon1 Hp1].
  { split; [split; try done|rewrite peek_upd, decide_True by (done || apply Hok1); done].
    intros b Hb. rewrite peek_upd, decide_False by (done || apply Hok1). done. }
  destruct (current D o k =? v); [wp_step; by exists o1|].
  eapply wp_wand; [apply (wp_write _ (setState k v o1) () _ a); by destruct Hok1|].
  intros [] s' (_ & Hon & Hp). exists (setState k v o1). split; [by eapply only_trans|]. split; [done|]. split; [|done].
  destruct Ho1 as [Hb Hh Hcd Hw Hm Hpay]. split; [done..| |exact Hm|done]. intros k'. rewrite current_setState by apply Hok1. by case_decide.
Qed.

Lemma wp_Suicide_good a s : dbgood D s → wp (Suicide a) (λ _ s', dbrel D false s s' ∧ True) s.
Proof.
  intros Hg. apply wp_dbrel; [done|apply Suicide_steps|]. pose proof (dbgood_wf D _ Hg) as Hwf.
  eapply wp_seq; [by apply (getStateObject_loads D a)|]. intros r s1 (-> & Hl & Hp1).
  pose proof (loads_dbrel D false _ _ Hg Hl) as [_ Hg1 _].
  destruct (peek s a) as [o|] eqn:Hp; [|wp_step; split_and!; apply Hg1 || done].
  pose proof (wf_peek D _ _ _ Hwf Hp) as [Ha Hf Hd]. pose proof (dg_objs _ _ Hg1 _ _ Hp1) as Ho.
  eapply wp_wand; [by apply (wp_write _ (setBalance 0 (set_suicided true o)) true s1 a)|].
  intros x s' (_ & Hon & Hp'). split; [|split; [rewrite (on_refund _ _ _ Hon); apply Hg1|done]].
  eapply only_objs; [done|apply Hg1|done|]. destruct Ho as [Hb Hh Hc Hw Hm Hpay]. by split.
Qed.
Lemma wp_CreateAccount_good a s : dbgood D s → wp (CreateAccount a) (λ _ s', dbrel D false s s' ∧ ∀ b, bal s' b = bal s b) s.
Proof.
  intros Hg. apply wp_dbrel; [done|apply CreateAccount_steps|]. pose proof (dbgood_wf D _ Hg) as Hwf.
  unfold CreateAccount, createObject. apply wp_bind. eapply wp_seq; [by apply (getStateObject_loads D a)|]. intros r s1 (-> & Hl & Hp1).
  pose proof (loads_dbrel D false _ _ Hg Hl) as [_ Hg1 _]. unfold append, setStateObject. wp_steps. cbn [snd fst].
  change (set_stateObjects _ (set_journal ?j s1)) with (upd a (fresh a) (set_journal j s1)). set (s0 := set_journal _ s1).
  assert (∀ o1, obj_ok a o1 → only a s1 (upd a o1 s0) ∧ peek (upd a o1 s0) a = Some o1) as Hupd.
  { intros o1 Hok1. split; [split; try done|rewrite peek_upd, decide_True by (done || apply Hok1); done].
    intros b Hb. rewrite peek_upd, decide_False by (done || apply Hok1). done. }
  assert (∀ o1 s', obj_good D o1 → only a s1 s' → peek s' a = Some o1 → ac_Balance (so_data o1) = bal s a →
    objs D s' ∧ 0 <= sd_refund s' ∧ ∀ b, bal s' b = bal s b) as Hfin.
  { intros o1 s' Ho1 Hon Hp' Hb1. split; [by eapply only_objs, Ho1; [|apply Hg1|]|]. split; [rewrite (on_refund _ _ _ Hon); apply Hg1|].
    intros b. destruct (decide (b = a)) as [->|]; [unfold bal at 1, acct; by rewrite Hp'|].
    unfold bal. rewrite (only_acct _ _ _ _ Hon) by done. by rewrite (loads_acct D _ _ _ Hl). }
  destruct (peek s a) as [p|] eqn:Hp.
  - unfold update, setStateObject. wp_steps. cbn [so_address setBalance set_data setNonce newObject].
    change (set_stateObjects _ (upd a (fresh a) s0)) with (upd a (setBalance (ac_Balance (so_data p)) (fresh a)) (upd a (fresh a) s0)).
    rewrite upd_upd. destruct (Hupd (setBalance (ac_Balance (so_data p)) (fresh a)) ltac:(done)) as [Hon Hp'].
    apply (Hfin (setBalance (ac_Balance (so_data p)) (fresh a))); [|done|done|unfold bal, acct; by rewrite Hp].
    apply set_data_good; [apply fresh_good|by apply (dg_objs _ _ Hg a p)|by split|done..].
  - wp_step. destruct (Hupd (fresh a) ltac:(done)) as [Hon Hp'].
    apply (Hfin (fresh a)); [apply fresh_good|done|done|unfold bal, acct; by rewrite Hp].
Qed.

Lemma wp_AddRefund_good g s : dbgood D s → wp (AddRefund g) (λ _ s', dbrel D false s s' ∧ True) s.
Proof.
  intros Hg. apply wp_dbrel; [done|apply AddRefund_steps|]. unfold AddRefund, append. wp_steps.
  split; [apply Hg|]. split; [apply u64_range|done].
Qed.
Lemma wp_AddLog_good l s : dbgood D s → wp (AddLog l) (λ _ s', dbrel D false s s' ∧ True) s.
Proof. intros Hg. apply wp_dbrel; [done|apply AddLog_steps|]. unfold AddLog, append. wp_steps. split; [apply Hg|]. split; [apply Hg|done]. Qed.
Lemma AddPreimage_quiet h b s : wf D s → wp (AddPreimage h b) (λ _ s', quiet D s s' ∧ objs D s' = objs D s ∧ sd_refund s' = sd_refund s) s.
Proof.
  intros Hwf. unfold AddPreimage, append. wp_step. pose proof (quiet_same D _ _ Hwf) as Hq.
  destruct (sd_preimages s !! h); wp_steps; [done|]. split; [|done]. by destruct Hq.
Qed.
Lemma wp_AddPreimage_good ro h b s : dbgood D s → wp (AddPreimage h b) (λ _ s', dbrel D ro s s') s.
Proof.
  intros Hg. pose proof (AddPreimage_quiet h b s (dbgood_wf D _ Hg)) as Hq.
  assert (wp (AddPreimage h b) (λ x s', dbrel D false s s' ∧ quiet D s s') s) as Hw.
  { apply wp_dbrel; [done|apply AddPreimage_steps|]. eapply wp_wand; [exact Hq|]. intros x s' (? & Ho & Hr). rewrite Ho, Hr.
    split; [apply Hg|]. split; [apply Hg|done]. }
  eapply wp_wand; [exact Hw|]. intros x s' [[H1 H2 _] H3]. by split.
Qed.

(** An account that is got or made, and left as it is. *)
Lemma quiet_gotten a s s1 s' o : wf D s → gotten D a s s1 o → only a s1 s' → peek s' a = Some o → quiet D s s'.
Proof.
  intros Hwf Hgt Hon Hp'. pose proof (only_trans _ _ _ _ (gt_only _ _ _ _ _ Hgt) Hon) as Hon'.
  split; [| |apply Hon'|intros h; by rewrite (on_logs _ _ _ Hon')|apply Hon'].
  - intros b p Hb. destruct (decide (b = a)) as [->|Hne].
    + exists o. split; [done|]. destruct (gt_from _ _ _ _ _ Hgt) as [Hf|[Hf _]]; [|congruence].
      assert (p = o) as -> by congruence. by apply obj_rel_refl, (wf_peek D s).
    + exists p. rewrite (on_peek _ _ _ Hon') by done. split; [done|]. by apply obj_rel_refl, (wf_peek D s).
  - intros b Hb. destruct (decide (b = a)) as [->|Hne].
    + rewrite Hp'. destruct (gt_from _ _ _ _ _ Hgt) as [Hf|[_ ->]]; [congruence|]. right. apply obj_rel_new_refl.
    + left. rewrite (on_peek _ _ _ Hon') by done. by rewrite Hb.
Qed.
Lemma wp_quiet_account {A} ro a (m : stateObject → M StateDB A) s : dbgood D s → obj_steps D m →
  (∀ o s1, obj_ok a o → peek s1 a = Some o → wp (m o) (λ _ s', only a s1 s' ∧ peek s' a = Some o) s1) →
  wp (let! o := GetOrNewStateObject a in m o) (λ _ s', dbrel D ro s s') s.
Proof.
  intros Hg Hst Hm. pose proof (dbgood_wf D _ Hg) as Hwf.
  assert (wp (let! o := GetOrNewStateObject a in m o) (λ _ s', dbrel D false s s' ∧ quiet D s s') s) as Hw.
  { apply (wp_on_account a m); [done..|]. intros o s1 Hgt Ho.
    eapply wp_wand; [apply Hm; apply Hgt|]. intros x s' [Hon Hp]. exists o. split_and!; [done..|]. by eapply quiet_gotten. }
  eapply wp_wand; [exact Hw|]. intros x s' [[H1 H2 _] H3]. by split.
Qed.
(** The touch of a static call, and the transfer of nothing. *)
Lemma wp_AddBalance_0 ro a bn s : dbgood D s → wp (AddBalance a 0 bn) (λ _ s', dbrel D ro s s') s.
Proof.
  intros Hg. apply (wp_quiet_account ro a (so_AddBalance 0 bn)); [done|apply AddBalance_steps|]. intros o s1 Hok Hp.
  unfold so_AddBalance. cbn [Z.sgn Z.eqb]. destruct (empty o); [|by wp_step]. apply (wp_touch a); [apply Hok|done].
Qed.
Lemma wp_SubBalance_0 ro a bn s : dbgood D s → wp (SubBalance a 0 bn) (λ _ s', dbrel D ro s s') s.
Proof.
  intros Hg. apply (wp_quiet_account ro a (so_SubBalance 0 bn)); [done|apply SubBalance_steps|]. intros o s1 Hok Hp. unfold so_SubBalance. cbn [Z.sgn Z.eqb]. by wp_step.
Qed.
(** A new account where there was none. *)
Lemma wp_CreateAccount_new ro a s : dbgood D s → peek s a = None →
  wp (CreateAccount a) (λ _ s', dbrel D ro s s' ∧ ∀ b, bal s' b = bal s b) s.
Proof.
  intros Hg Hp. pose proof (dbgood_wf D _ Hg) as Hwf. pose proof (wp_CreateAccount_good a s Hg) as Hw.
  assert (wp (CreateAccount a) (λ _ s', quiet D s s') s) as Hq.
  { unfold CreateAccount, createObject, wp, mbind'. destruct (getStateObject_run a s) as (s1 & -> & _ & Hn).
    rewrite Hp, Hn by done. unfold append, setStateObject, mmod, mret'. simpl.
    change (set_stateObjects _ (set_journal ?j s)) with (upd a (fresh a) (set_journal j s)). split; try done.
    - intros b o Hb. exists o. split; [|by apply obj_rel_refl, (wf_peek D s)]. rewrite peek_upd by done.
      destruct (decide (b = a)); [congruence|done].
    - intros b Hb. rewrite peek_upd by done. destruct (decide (b = a)) as [->|]; [right; apply obj_rel_new_refl|left; change (opt_rel (obj_rel D b) (peek s b) None); by rewrite Hb]. }
  unfold wp in *. destruct (CreateAccount a s) as [[x s']|]; [|done]. destruct Hw as [[] ?]. by split.
Qed.

(** ** Snapshots *)

Lemma wp_Snapshot s : dbgood D s → wp StateDB_Snapshot (λ id s1, dbrel D true s s1 ∧ (∀ b, bal s1 b = bal s b) ∧
  sd_validRevisions s1 = sd_validRevisions s ++ [(id, length (j_entries (sd_journal s)))] ∧ (id ∉ (sd_validRevisions s).*1) ∧
  (∀ G, snaps_ok D s G → ∃ G1, snaps_ok D s1 G1 ∧ G1 id = s ∧ ∀ i, i ∈ (sd_validRevisions s).*1 → G1 i = G i)) s.
Proof.
  intros Hg. pose proof (dg_snaps _ _ Hg) as [G0 HG0].
  assert (∃ id s1, StateDB_Snapshot s = Some (id, s1) ∧ id = sd_nextRevisionId s ∧ (∀ a, peek s1 a = peek s a) ∧
    sd_refund s1 = sd_refund s ∧ sd_logs s1 = sd_logs s ∧ sd_logSize s1 = sd_logSize s ∧ tx_of s1 = tx_of s ∧
    sd_validRevisions s1 = sd_validRevisions s ++ [(id, length (j_entries (sd_journal s)))]) as (id & s1 & Hr & Hid & Hp & Hrf & Hl & Hls & Htx & Hv).
  { unfold StateDB_Snapshot, mbind', mget, mmod, mret'. do 2 eexists. split; [done|]. done. }
  apply (wp_of_run _ _ _ _ _ Hr).
  assert (∀ G, snaps_ok D s G → ∃ G1, snaps_ok D s1 G1 ∧ G1 id = s ∧ ∀ i, i ∈ (sd_validRevisions s).*1 → G1 i = G i) as Hsn.
  { intros G HG. destruct (snaps_Snapshot D _ _ _ _ HG Hr) as (_ & _ & H1). eexists. split; [exact H1|]. simpl. rewrite Z.eqb_refl.
    split; [done|]. intros i Hi. pose proof (sn_next _ _ _ HG) as Hn. rewrite Forall_forall in Hn. specialize (Hn i Hi).
    destruct (Z.eqb_spec i id); [lia|done]. }
  split_and!; [|intros b; unfold bal, acct; by rewrite Hp|done| |done].
  - split; [split; [done|rewrite Hv; by apply prefix_app_r|]| |].
    + intros G HG. destruct (Hsn G HG) as (G1 & H1 & _ & H2). by exists G1.
    + split; [destruct (Hsn G0 HG0) as (G1 & H1 & _); by exists G1|intros a o Ha; rewrite Hp in Ha; by eapply Hg|rewrite Hrf; apply Hg].
    + intros _. pose proof (dbgood_wf D _ Hg) as Hwf. split; [| |done|intros h; by rewrite Hl|done].
      * intros a o Ha. exists o. rewrite Hp. split; [done|]. by apply obj_rel_refl, (wf_peek D s).
      * intros a Ha. left. by rewrite Hp, Ha.
  - intros Hin. pose proof (sn_next _ _ _ HG0) as Hn. rewrite Forall_forall in Hn. specialize (Hn id Hin). lia.
Qed.

(** Going back to a snapshot, whatever happened since. *)
Lemma wp_Revert s id s1 s2 : dbgood D s → dbgood D s2 →
  sd_validRevisions s1 = sd_validRevisions s ++ [(id, length (j_entries (sd_journal s)))] → id ∉ (sd_validRevisions s).*1 →
  (∀ G, snaps_ok D s G → ∃ G1, snaps_ok D s1 G1 ∧ G1 id = s ∧ ∀ i, i ∈ (sd_validRevisions s).*1 → G1 i = G i) →
  evolves D s1 s2 → wp (RevertToSnapshot id) (λ _ s3, dbrel D true s s3 ∧ same_state D s3 s) s2.
Proof.
  intros Hg Hg2 Hv Hnid Hsn Hev. set (idx := length (j_entries (sd_journal s))) in *.
  assert ((id, idx) ∈ sd_validRevisions s2) as Hin2.
  { destruct (ev_revs _ _ _ Hev) as [l ->]. rewrite Hv. set_solver. }
  assert (∀ G, snaps_ok D s G → ∃ G2 s3, snaps_ok D s2 G2 ∧ G2 id = s ∧ (∀ i, i ∈ (sd_validRevisions s).*1 → G2 i = G i) ∧
    RevertToSnapshot id s2 = Some ((), s3) ∧ same_state D s3 s ∧ snaps_ok D s3 G2 ∧ sd_validRevisions s3 = sd_validRevisions s) as Hrev.
  { intros G HG. destruct (Hsn G HG) as (G1 & HG1 & Hid1 & Hag1). destruct (ev_snaps _ _ _ Hev G1 HG1) as (G2 & HG2 & Hag2).
    assert (G2 id = s) as Hid2.
    { rewrite Hag2; [done|]. rewrite Hv, fmap_app. set_solver. }
    destruct (revert_run D s2 G2 id idx HG2 Hin2) as (s3 & Hr & Hss & _ & Hrv & _). rewrite Hid2 in Hss.
    destruct (snaps_Revert D _ _ _ _ HG2 Hr) as [HG3 _]. exists G2, s3. split_and!; [done|done| |done|done|done|].
    - intros i Hi. rewrite Hag2; [by apply Hag1|]. rewrite Hv, fmap_app. set_solver.
    - rewrite Hrv. destruct (ev_revs _ _ _ Hev) as [l Hl]. rewrite Hv, <-app_assoc in Hl.
      assert (search_revision (sd_validRevisions s2) id = length (sd_validRevisions s)) as ->.
      { pose proof (search_revision_found _ id idx (sn_ids _ _ _ HG2) Hin2) as Hf.
        apply (NoDup_lookup (sd_validRevisions s2).*1 _ _ id).
        - pose proof (sn_ids _ _ _ HG2) as Hs. clear -Hs. induction Hs as [|x l Hs IH Hx]; constructor; [|done].
          intros Hin. rewrite Forall_forall in Hx. specialize (Hx x Hin). lia.
        - by rewrite list_lookup_fmap, Hf.
        - rewrite list_lookup_fmap, Hl, lookup_app_r, Nat.sub_diag by done. done. }
      rewrite Hl. by rewrite take_app_length. }
  pose proof (dg_snaps _ _ Hg) as [G0 HG0]. destruct (Hrev G0 HG0) as (G2 & s3 & HG2 & _ & _ & Hr & Hss & HG3 & Hv3).
  apply (wp_of_run _ _ _ _ _ Hr). split; [|done]. split.
  - split; [unfold tx_of; by destruct (ss_tx _ _ _ Hss) as (-> & -> & ->)|by rewrite Hv3|]. intros G HG. destruct (Hrev G HG) as (G2' & s3' & _ & _ & Hag & Hr' & _ & HG3' & _).
    rewrite Hr in Hr'. injection Hr' as <-. by exists G2'.
  - split; [by exists G2|by eapply same_state_objs, Hg|]. rewrite (ss_refund _ _ _ Hss). apply Hg.
  - intros _. by apply quiet_same.
Qed.
End good_state.
