(* ===== verification/VmPrecompiled.v ===== *)
(** * Precompiled contracts run to the end

    Whatever the input, a precompiled contract that was paid for returns, with a
    result of bounded size.  For the modular exponentiation this rests on its price:
    below 2^62 units of gas the lengths of the header cannot wrap around. *)

From Stdlib Require Import ZArith Lia Zpow_facts.
From S2P Require Import Prelude Errors Rlp Fullnode Messages VmWord VmWordLaws Vm VmGas VmContracts.
Import VmGas.Params.
Open Scope didux_scope.

(** A byte string that a call can take or return. *)
Definition small (b : bytes) : Prop := blen b < 2 ^ 62.

(** The sizes that the other packages promise. *)
Class PrecompileLaws `{!PrecompileLib} : Prop := {
  sha256_length b : length (sha256_Sum256 b) = 32%nat;
  ripemd160_length b : length (ripemd160_Sum b) = 20%nat;
  Ecrecover_length h s p : crypto_Ecrecover h s = inl p → length p = 65%nat;
  G1_Marshal_length g : length (G1_Marshal g) = 64%nat
}.

Section precompiled.
Context `{!Crypto} `{!PrecompileLib} `{PL : !PrecompileLaws}.
#[local] Set Default Proof Using "PL".

(** [getData] as long as the end does not wrap. *)
Lemma getData_total data start size : 0 <= start → 0 <= size → blen data + size < two64 → ∃ d, getData data start size = Some d.
Proof using Type.
  intros Hs Hz Hl. pose proof (blen_nonneg data). unfold getData. set (s := if blen data <? start then blen data else start).
  assert (0 <= s <= blen data) by (unfold s; case_match; lia). rewrite u64_small by lia.
  destruct (slice_Some data s (if blen data <? s + size then blen data else s + size)) as (d & -> & _); [case_match; lia..|]. by eexists.
Qed.
Lemma header_len_ok input start : small input → 0 <= start → ∃ n, header_len input start = Some n ∧ 0 <= n.
Proof using Type.
  intros Hi Hs. unfold header_len. unfold small in Hi. destruct (getData_total input start 32) as [d ->]; [lia|lia|unfold two64; lia|].
  eexists. split; [done|]. apply be_val_nonneg.
Qed.

(** ** The price of a modular exponentiation *)

Lemma mult_complexity_pos x : 0 < x → 1 <= mult_complexity x.
Proof using Type.
  intros Hx. unfold mult_complexity. destruct (Z.leb_spec x 64); [nia|].
  assert (∀ k, 0 < k → 0 <= x * x / k) as Hd by (intros k Hk; apply Z.div_pos; nia).
  pose proof (Hd 4). pose proof (Hd 16). destruct (Z.leb_spec x 1024); lia.
Qed.
Lemma mult_complexity_square x : 0 <= x → x * x < 16 * mult_complexity x + 16.
Proof using Type.
  intros Hx. unfold mult_complexity. destruct (Z.leb_spec x 64); [nia|].
  pose proof (Z.div_mod (x * x) 4). pose proof (Z.mod_pos_bound (x * x) 4). pose proof (Z.div_mod (x * x) 16). pose proof (Z.mod_pos_bound (x * x) 16).
  destruct (Z.leb_spec x 1024); [|lia]. assert (0 <= x * x / 4) by (apply Z.div_pos; nia). lia.
Qed.
(** What was paid bounds the lengths. *)
Lemma modexp_bounds x adj e : 0 < x → 0 <= adj → (32 < e → 8 * (e - 32) <= adj) →
  mult_complexity x * Z.max adj 1 / 20 < 2 ^ 62 → x < 2 ^ 36 ∧ e < 3 * 2 ^ 62.
Proof using Type.
  intros Hx Hadj He Hg. pose proof (mult_complexity_pos x Hx) as Hc. pose proof (mult_complexity_square x ltac:(lia)) as Hsq.
  set (c := mult_complexity x) in *. set (m := Z.max adj 1) in *. assert (1 <= m) by (unfold m; lia).
  pose proof (Z.div_mod (c * m) 20 ltac:(lia)). pose proof (Z.mod_pos_bound (c * m) 20 ltac:(lia)).
  assert (c * m < 20 * 2 ^ 62 + 20) as Hcm by lia. assert (c <= c * m) by nia. assert (m <= c * m) by nia.
  split; [|unfold m in *; lia]. destruct (Z.lt_ge_cases x (2 ^ 36)) as [|Hge]; [done|]. exfalso.
  assert (2 ^ 36 * 2 ^ 36 <= x * x) by (apply Z.mul_le_mono_nonneg; lia). lia.
Qed.

Lemma big_BitLen_small x : 0 <= x → big_BitLen x <= 64 → big_Uint64 x = x.
Proof using Type.
  intros Hx Hb. apply big_Uint64_small. pose proof (big_BitLen_bound x Hx). rewrite two64_pow.
  assert (2 ^ big_BitLen x <= 2 ^ 64) by (apply Z.pow_le_mono_r; lia). lia.
Qed.
(** The price is never missing, and its size is that of the exponentiation. *)
Lemma bigModExp_gas input b e m : small input → header_len input 0 = Some b → header_len input 32 = Some e → header_len input 64 = Some m →
  0 <= b → 0 <= e → 0 <= m →
  ∃ gas, bigModExp_RequiredGas input = Some gas ∧ 0 <= gas ∧ (gas < 2 ^ 62 → 0 < Z.max m b → Z.max m b < 2 ^ 36 ∧ e < 3 * 2 ^ 62).
Proof using Type.
  intros Hi Hb He Hm Hb0 He0 Hm0. unfold bigModExp_RequiredGas. rewrite Hb, He, Hm. cbn [mbind option_bind].
  set (inp := modexp_body input). assert (blen inp <= blen input) as Hinp.
  { unfold inp, modexp_body. pose proof (blen_nonneg input). case_match; [|done]. unfold blen. rewrite length_drop. lia. }
  unfold small in Hi. pose proof (u64_range (Z.abs b)) as Hub. fold (big_Uint64 b) in Hub.
  match goal with |- context [mbind _ ?t] => assert (∃ h, t = Some h ∧ 0 <= h) as (h & -> & Hh) end.
  { rewrite big_Cmp_gtb. repeat case_match; [by exists 0|..].
    - destruct (getData_total inp (big_Uint64 b) 32) as [d ->]; [lia|lia|unfold two64; lia|]. eexists. split; [done|apply be_val_nonneg].
    - match goal with H : (32 <? e) = false |- _ => apply Z.ltb_ge in H end. rewrite (big_Uint64_small e) by (unfold two64; lia).
      destruct (getData_total inp (big_Uint64 b) e) as [d ->]; [lia|lia|unfold two64; lia|]. eexists. split; [done|apply be_val_nonneg]. }
  cbn [mbind option_bind]. eexists. split; [done|]. rewrite big_Cmp_gtb, !BigMax_max. set (msb := if 0 <? big_BitLen h then _ else _).
  assert (0 <= msb) by (unfold msb; case_match; [|done]; match goal with H : (0 <? _) = true |- _ => apply Z.ltb_lt in H end; lia).
  set (adj := _ + msb). assert (0 <= adj ∧ (32 < e → 8 * (e - 32) <= adj)) as [Ha1 Ha2] by (unfold adj; destruct (Z.ltb_spec 32 e); lia).
  change ModExpQuadCoeffDiv with 20. set (g := mult_complexity _ * _ / 20). split; [case_match; [done|apply u64_range]|].
  intros Hg Hx. assert (0 <= g).
  { apply Z.div_pos; [|lia]. pose proof (mult_complexity_pos _ Hx). nia. }
  apply (modexp_bounds _ adj e Hx Ha1 Ha2). destruct (Z.ltb_spec 64 (big_BitLen g)) as [|Hbl]; [unfold MaxUint64 in Hg; lia|].
  by rewrite big_BitLen_small in Hg.
Qed.

(** ** Runs *)

Definition runs_with (gas : Z) (p : PrecompiledContract) (input : bytes) : Prop :=
  ∃ need, RequiredGas p input = Some need ∧ 0 <= need ∧
    (need <= gas → ∃ r arg, precompile_Run p input = Some (r, arg) ∧ match r with inl ret => small ret | inr _ => True end).

Lemma small_length b n : length b = n → Z.of_nat n < 2 ^ 62 → small b.
Proof using Type. unfold small, blen. lia. Qed.
Lemma bigModExp_runs gas input : small input → gas < 2 ^ 62 → runs_with gas bigModExp input.
Proof using Type.
  intros Hi Hgas. destruct (header_len_ok input 0 Hi) as (b & Hb & Hb0); [done|]. destruct (header_len_ok input 32 Hi) as (e & He & He0); [done|].
  destruct (header_len_ok input 64 Hi) as (m & Hm & Hm0); [done|].
  destruct (bigModExp_gas input b e m) as (need & Hneed & Hn0 & Hbounds); [done..|]. exists need. split; [done|]. split; [done|].
  intros Hle. cbn [precompile_Run bigModExp]. unfold bigModExp_Run. rewrite Hb, He, Hm. cbn [fmap option_fmap option_map mbind option_bind].
  set (inp := modexp_body input). assert (blen inp <= blen input) as Hinp.
  { unfold inp, modexp_body. pose proof (blen_nonneg input). case_match; [|done]. unfold blen. rewrite length_drop. lia. }
  unfold small in Hi. destruct (Z.eq_dec (Z.max m b) 0) as [Hz|Hz].
  { assert (b = 0) as -> by lia. assert (m = 0) as -> by lia. by eexists _, _. }
  destruct Hbounds as [Hx Hebd]; [lia|lia|]. rewrite !big_Uint64_small by (unfold two64; lia).
  case_match; [by eexists _, _|].
  destruct (getData_total inp 0 b) as [d0 ->]; [lia|lia|unfold two64; lia|]. destruct (getData_total inp b e) as [d1 ->]; [lia|lia|unfold two64; lia|].
  pose proof (u64_range (b + e)). rewrite (getData_spec inp (u64 (b + e)) m) by (unfold two63; lia). cbn [fmap option_fmap option_map mbind option_bind].
  set (pd := padded _ _ _). assert (blen pd = m) as Hpd by (unfold pd, blen; rewrite length_padded; lia). rewrite i64_small by (unfold two63; lia).
  case_match; eexists _, _; (split; [done|]); unfold small; rewrite blen_LeftPad; [change (blen []) with 0; lia|].
  set (r := Zpow_mod _ _ _). assert (blen (putint r) <= m); [|lia]. unfold blen, putint. rewrite length_be_fix.
  assert (intsize r <= Z.to_nat m)%nat; [|lia]. apply intsize_le. rewrite Z2Nat.id by done. pose proof (be_val_bound pd) as Hbd. rewrite Hpd in Hbd.
  pose proof (be_val_nonneg pd). destruct (Z.eq_dec (be_val pd) 0) as [Hpd0|Hpd0]; [by rewrite Hpd0 in *|].
  unfold r. rewrite Zpow_mod_correct by done. pose proof (Z.mod_pos_bound (be_val d0 ^ be_val d1) (be_val pd)). lia.
Qed.
Lemma ecrecover_runs gas input : small input → runs_with gas ecrecover input.
Proof.
  intros Hi. exists EcrecoverGas. split; [done|]. split; [done|]. intros _. cbn [precompile_Run ecrecover]. unfold ecrecover_Run.
  set (inp := RightPadBytes input 128). pose proof (blen_RightPad input 128) as Hl. fold inp in Hl.
  destruct (slice_Some inp 64 96) as (d1 & -> & _); [lia..|]. destruct (slice_Some inp 96 128) as (d2 & -> & _); [lia..|].
  destruct (slice_Some inp 32 63) as (d3 & -> & _); [lia..|]. cbn [mbind option_bind].
  destruct (lookup_lt_is_Some_2 inp 63) as [b ->]; [unfold blen in *; lia|]. cbn [mbind option_bind].
  case_match; [by eexists _, _|]. destruct (slice_Some inp 0 32) as (d4 & -> & _); [lia..|]. destruct (slice_Some inp 64 128) as (d5 & -> & _); [lia..|].
  cbn [mbind option_bind]. destruct (crypto_Ecrecover _ _) as [p|] eqn:Hp; [|by eexists _, _]. apply Ecrecover_length in Hp.
  destruct (slice_Some p 1 (blen p)) as (d6 & -> & _); [unfold blen; lia..|]. cbn [mbind option_bind]. eexists _, _. split; [done|].
  unfold small. rewrite blen_LeftPad. unfold blen. rewrite length_be_fix. lia.
Qed.
Lemma perWord_runs gas perWord base (run : bytes → bytes) input : small (run input) →
  runs_with gas (MkPrecompiled (perWordGas perWord base) (λ i, Some (inl (run i), i))) input.
Proof using Type. intros Hr. eexists. split; [done|]. split; [apply u64_range|]. intros _. by eexists _, _. Qed.
Lemma small_G1 g : small (G1_Marshal g).
Proof. eapply small_length; [apply G1_Marshal_length|done]. Qed.
Lemma runBn256Add_ok input : small input →
  ∃ r arg, runBn256Add input = Some (r, arg) ∧ match r with inl ret => small ret | inr _ => True end.
Proof.
  unfold small at 1. intros Hi. unfold runBn256Add. destruct (getData_total input 0 64) as [d1 ->]; [lia|lia|unfold two64; lia|].
  destruct (getData_total input 64 64) as [d2 ->]; [lia|lia|unfold two64; lia|]. cbn [mbind option_bind].
  repeat case_match; eexists _, _; (split; [done|]); try done. apply small_G1.
Qed.
Lemma runBn256ScalarMul_ok input : small input →
  ∃ r arg, runBn256ScalarMul input = Some (r, arg) ∧ match r with inl ret => small ret | inr _ => True end.
Proof.
  unfold small at 1. intros Hi. unfold runBn256ScalarMul. destruct (getData_total input 0 64) as [d1 ->]; [lia|lia|unfold two64; lia|].
  destruct (getData_total input 64 32) as [d2 ->]; [lia|lia|unfold two64; lia|]. cbn [mbind option_bind].
  repeat case_match; eexists _, _; (split; [done|]); try done. apply small_G1.
Qed.
Lemma pairing_points_total n i input : 0 <= i → i + 192 * Z.of_nat n <= blen input → ∃ r, pairing_points n i input = Some r.
Proof using Type.
  revert i. induction n as [|n IH]; intros i Hi Hl; cbn [pairing_points]; [by eexists|].
  destruct (slice_Some input i (i + 64)) as (d1 & -> & _); [lia..|]. destruct (slice_Some input (i + 64) (i + 192)) as (d2 & -> & _); [lia..|].
  cbn [mbind option_bind]. destruct (newCurvePoint d1); [|by eexists]. destruct (newTwistPoint d2); [|by eexists].
  destruct (IH (i + 192)) as [r ->]; [lia|lia|]. by eexists.
Qed.
Lemma runBn256Pairing_ok input :
  ∃ r arg, runBn256Pairing input = Some (r, arg) ∧ match r with inl ret => small ret | inr _ => True end.
Proof using Type.
  unfold runBn256Pairing. case_match; [by eexists _, _|].
  destruct (pairing_points_total (length input / 192) 0 input) as [r ->]; [done| |].
  { unfold blen. pose proof (Nat.Div0.mul_div_le (length input) 192). lia. }
  cbn [mbind option_bind]. destruct r as [[cs ts]|e]; eexists _, _; (split; [done|]); [|done]. cbv beta iota. destruct (PairingCheck cs ts); reflexivity.
Qed.
Lemma precompiles_run r a p gas input : precompiles r a = Some p → small input → gas < 2 ^ 62 → runs_with gas p input.
Proof.
  intros Hp Hi Hg. assert (small (sha256_Sum256 input)) by (eapply small_length; [apply sha256_length|done]).
  assert (small (LeftPadBytes (ripemd160_Sum input) 32)).
  { unfold small. rewrite blen_LeftPad. unfold blen. rewrite ripemd160_length. lia. }
  assert (∀ need q, 0 <= need → (∃ r arg, q input = Some (r, arg) ∧ match r with inl ret => small ret | inr _ => True end) →
    runs_with gas (MkPrecompiled (λ _, Some need) q) input) as Hconst by (intros need q Hn Hq; exists need; eauto).
  assert (∀ b n, runs_with gas (MkPrecompiled (pairingGas b n) runBn256Pairing) input) as Hpair.
  { intros b n. eexists. split; [done|]. split; [apply u64_range|]. intros _. apply runBn256Pairing_ok. }
  pose proof (ecrecover_runs gas input Hi) as Hec. pose proof (bigModExp_runs gas input Hi Hg) as Hme.
  pose proof (runBn256Add_ok input Hi) as Hadd. pose proof (runBn256ScalarMul_ok input Hi) as Hmul.
  unfold precompiles, PrecompiledContractsIstanbul, PrecompiledContractsByzantium, PrecompiledContractsHomestead in Hp.
  repeat case_match; simplify_eq; try done; first [apply Hpair | by apply Hconst | by apply (perWord_runs gas _ _ sha256_Sum256) | by apply (perWord_runs gas _ _ (λ i, LeftPadBytes (ripemd160_Sum i) 32)) | by apply (perWord_runs gas _ _ (λ i, i))].
Qed.

(** A precompiled contract returns; the gas only goes down. *)
Lemma RunPrecompiledContract_ok r a p input c : precompiles r a = Some p → small input → 0 <= c_Gas c < 2 ^ 62 →
  ∃ ret e gas, RunPrecompiledContract p input c = Some (ret, e, set_Gas gas c) ∧ 0 <= gas <= c_Gas c ∧ small ret.
Proof.
  intros Hp Hi Hc. destruct (precompiles_run r a p (c_Gas c) input Hp Hi ltac:(lia)) as (need & Hn & Hn0 & Hrun).
  unfold RunPrecompiledContract. rewrite Hn. cbn [mbind option_bind]. unfold UseGas. destruct (Z.ltb_spec (c_Gas c) need) as [|Hle].
  - exists [], (Some ErrOutOfGas), (c_Gas c). split; [by destruct c|]. split; [lia|done].
  - destruct (Hrun Hle) as (res & arg & -> & Hres). cbn [mbind option_bind]. destruct res as [ret|e]; eexists _, _, _; (split; [done|]); (split; [lia|done]).
Qed.
End precompiled.
