(* ===== verification/VmInv.v ===== *)
(** * Invariants of the virtual machine

    [frame_ok] holds of every activation of the interpreter of a public
    transaction: the items of the stack are not negative, the memory is paid for,
    the gas fits, the state can be reverted, and the cached jump destinations are
    those of a code with that hash.  [fresh] says that the analysis cached for the
    hash of a frame's code is that of this code. *)

From Stdlib Require Import ZArith Lia.
From S2P Require Import Prelude Errors Rlp Fullnode Messages SmiloPay StateDB StateRevert StateTransition StateLaws VmWord VmWordLaws.
From S2P Require Import Vm VmAnalysis VmGas VmContracts VmEVM VmInstr VmInterp VmState VmPrecompiled.
Import VmGas.Params.
Open Scope didux_scope.

(** ** Runs of the machine

    [wp], with the rules that follow the shape of a program. *)

Definition wpx {S A} (m : M S A) (Q : A → S → Prop) (s : S) : Prop := wp m Q s.
Arguments wpx : simpl never.

Section wpx.
Context {S : Type}.
Implicit Types s : S.
Lemma wpx_wp {A} (m : M S A) (Q : A → S → Prop) s : wp m Q s → wpx m Q s.
Proof. done. Qed.
Lemma wpx_seq {A B} (m : M S A) (f : A → M S B) (P : A → S → Prop) (Q : B → S → Prop) s :
  wpx m P s → (∀ a s', P a s' → wpx (f a) Q s') → wpx (mbind' m f) Q s.
Proof.
  unfold wpx, wp, mbind'. intros Hm Hf. destruct (m s) as [[a s']|]; [|done]. by apply Hf.
Qed.
Lemma wpx_bind {A B} (m : M S A) (f : A → M S B) (Q : B → S → Prop) s :
  wpx m (λ a, wpx (f a) Q) s → wpx (mbind' m f) Q s.
Proof. intros Hm. by eapply wpx_seq. Qed.
Lemma wpx_wand {A} (m : M S A) (P Q : A → S → Prop) s : wpx m P s → (∀ a s', P a s' → Q a s') → wpx m Q s.
Proof. apply wp_wand. Qed.
Lemma wpx_ret {A} (a : A) (Q : A → S → Prop) s : Q a s → wpx (mret' a) Q s.
Proof. done. Qed.
Lemma wpx_get {B} (f : S → M S B) (Q : B → S → Prop) s : wpx (f s) Q s → wpx (mbind' mget f) Q s.
Proof. done. Qed.
Lemma wpx_mod {B} (g : S → S) (f : () → M S B) (Q : B → S → Prop) s : wpx (f ()) Q (g s) → wpx (mbind' (mmod g) f) Q s.
Proof. done. Qed.
Lemma wpx_retb {A B} (a : A) (f : A → M S B) (Q : B → S → Prop) s : wpx (f a) Q s → wpx (mbind' (mret' a) f) Q s.
Proof. done. Qed.
Lemma wpx_derefb {A B} (a : A) (f : A → M S B) (Q : B → S → Prop) s : wpx (f a) Q s → wpx (mbind' (mderef (Some a)) f) Q s.
Proof. done. Qed.
Lemma wpx_assoc {A B C} (m : M S A) (f : A → M S B) (g : B → M S C) (Q : C → S → Prop) s :
  wpx (mbind' m (λ a, mbind' (f a) g)) Q s → wpx (mbind' (mbind' m f) g) Q s.
Proof. unfold wpx, wp, mbind'. by destruct (m s) as [[? ?]|]. Qed.
End wpx.

(** One step at the head of a program. *)
Ltac x_step :=
  lazymatch goal with
  | |- wpx (mbind' (mbind' _ _) _) _ _ => apply wpx_assoc
  | |- wpx (mbind' mget _) _ _ => apply wpx_get; cbv beta
  | |- wpx (mbind' (mmod _) _) _ _ => apply wpx_mod; cbv beta
  | |- wpx (mbind' (mret' _) _) _ _ => apply wpx_retb; cbv beta
  | |- wpx (mbind' (mderef (Some _)) _) _ _ => apply wpx_derefb; cbv beta
  | |- wpx (mderef (Some _)) _ _ => apply wpx_wp, wp_deref; cbv beta
  | |- wpx (mret' _) _ _ => apply wpx_ret; cbv beta
  end.
Ltac x_steps := repeat x_step.

(** ** Memory *)

Definition max_memory : Z := 0x1FFFFFFFE0.
(** The price of [w] words of memory. *)
Definition mem_fee (w : Z) : Z := 3 * w + w * w / 512.
Record mem_ok (m : Memory) : Prop := {
  mo_words : ∃ w, 0 <= w <= 0xFFFFFFFF ∧ mem_Len m = 32 * w ∧ m_lastGasCost m = mem_fee w
}.

Lemma NewMemory_ok : mem_ok NewMemory.
Proof. split. by exists 0. Qed.
Lemma mem_ok_len m : mem_ok m → 0 <= mem_Len m <= max_memory.
Proof. intros [(w & Hw & -> & _)]. unfold max_memory. lia. Qed.
Lemma mem_fee_mono w w' : 0 <= w <= w' → mem_fee w <= mem_fee w'.
Proof. intros. unfold mem_fee. assert (w * w / 512 <= w' * w' / 512) by (apply Z.div_le_mono; nia). lia. Qed.
Lemma mem_fee_bound w : 0 <= w <= 0xFFFFFFFF → 0 <= mem_fee w < 2 ^ 56.
Proof.
  intros. unfold mem_fee. assert (0 <= w * w / 512) by (apply Z.div_pos; nia).
  assert (w * w / 512 <= 0xFFFFFFFF * 0xFFFFFFFF / 512) by (apply Z.div_le_mono; nia). change (0xFFFFFFFF * 0xFFFFFFFF / 512) with 36028797002186752 in *. lia.
Qed.

Lemma mem_Resize_Len n m : mem_Len (mem_Resize n m) = Z.max (mem_Len m) n.
Proof.
  unfold mem_Resize. destruct (Z.ltb_spec (mem_Len m) n); [|lia]. unfold mem_Len, blen in *. simpl. rewrite length_app, length_replicate. lia.
Qed.

(** The cost of a size is the difference of the prices of the sizes; the new total is
    kept for the next time. *)
Lemma memoryGasCost_spec n f : mem_ok (f_mem f) → 0 <= n < two64 → n mod 32 = 0 →
  ∃ r mem, memoryGasCost n f = Some (r, set_mem mem f) ∧ m_store mem = m_store (f_mem f) ∧
    match r with
    | inl fee => n <= max_memory ∧ mem_ok (mem_Resize n mem) ∧
        fee = mem_fee (mem_Len (mem_Resize n mem) / 32) - mem_fee (mem_Len (f_mem f) / 32) ∧ 0 <= fee < 2 ^ 56
    | inr _ => True
    end.
Proof.
  intros [(w & Hw & Hlen & Hlast)] Hn Hmod. unfold memoryGasCost.
  assert (f = set_mem (f_mem f) f) as Hf by by destruct f.
  destruct (Z.eqb_spec n 0) as [->|Hn0].
  { exists (inl 0), (f_mem f). rewrite <-Hf. split; [done|]. split; [done|]. unfold mem_Resize. destruct (Z.ltb_spec (mem_Len (f_mem f)) 0); [lia|].
    split; [done|]. split; [split; by exists w|]. lia. }
  destruct (Z.ltb_spec 0x1FFFFFFFE0 n); [exists (inr errGasUintOverflow), (f_mem f); by rewrite <-Hf|].
  pose proof (toWordSize_spec n Hn) as Htw. set (w' := toWordSize n) in *.
  assert (n = 32 * w') as Hnw by (pose proof (Z.div_mod n 32); lia).
  assert (0 <= w' <= 0xFFFFFFFF) as Hw' by lia. pose proof (mem_fee_bound w Hw) as Hbw. pose proof (mem_fee_bound w' Hw') as Hbw'.
  rewrite (u64_small (w' * 32)) by (unfold two64; lia). unfold mbind' at 1, mget. rewrite Hlen.
  destruct (Z.ltb_spec (32 * w) (w' * 32)).
  - rewrite (u64_small (w' * w')) by (unfold two64; nia). rewrite (u64_small (w' * MemoryGas)) by (unfold MemoryGas, two64; lia).
    assert (w' * MemoryGas + w' * w' / QuadCoeffDiv = mem_fee w') as Hfee by (unfold MemoryGas, QuadCoeffDiv, mem_fee; lia).
    rewrite Hfee. rewrite (u64_small (mem_fee w')) by (unfold two64; lia). rewrite Hlast.
    pose proof (mem_fee_mono w w' ltac:(lia)). rewrite (u64_small (mem_fee w' - mem_fee w)) by (unfold two64; lia).
    unfold mbind', mmod, mret'. eexists (inl _), _. split; [done|]. split; [done|].
    assert (mem_Len (mem_Resize n (MkMemory (m_store (f_mem f)) (mem_fee w'))) = 32 * w') as Hres.
    { rewrite mem_Resize_Len. unfold mem_Len in *. simpl. lia. }
    rewrite Hres, !(Z.mul_comm 32), !Z.div_mul by lia. split; [unfold max_memory; lia|]. split; [|lia].
    split. exists w'. split; [done|]. split; [done|]. unfold mem_Resize. by case_match.
  - unfold mret'. exists (inl 0), (f_mem f). rewrite <-Hf. split; [done|]. split; [done|]. rewrite mem_Resize_Len, Hlen.
    rewrite Z.max_l by lia. rewrite (Z.mul_comm 32 w), Z.div_mul by lia. split; [unfold max_memory; lia|]. split; [|lia].
    split. exists w. rewrite mem_Resize_Len, Hlen. split; [done|]. split; [lia|]. unfold mem_Resize. rewrite Hlen.
    by destruct (Z.ltb_spec (32 * w) n); [lia|].
Qed.

(** A region that lies in the memory. *)
Definition region (len off l : Z) : Prop := l = 0 ∨ 0 < l ∧ 0 <= off ∧ off + l <= len.

Lemma overwrite_length store off value : (off + length value <= length store)%nat → length (overwrite store off value) = length store.
Proof. intros. unfold overwrite. rewrite !length_app, length_take, length_drop. lia. Qed.

Lemma mem_Set_ok off l value m : mem_ok m → region (mem_Len m) off l → ∃ m', mem_Set (big_Uint64 off) (big_Uint64 l) value m = Some m' ∧ mem_ok m' ∧ mem_Len m' = mem_Len m.
Proof.
  intros Hm Hr. pose proof (mem_ok_len m Hm) as Hlen. unfold max_memory in Hlen. unfold mem_Set.
  destruct Hr as [->|(Hl & Ho & He)]; [by exists m|]. rewrite !big_Uint64_small by (unfold two64; lia).
  destruct (Z.ltb_spec 0 l); [|lia]. rewrite u64_small by (unfold two64; lia).
  destruct (Z.ltb_spec (mem_Len m) (off + l)); [lia|]. destruct (Z.ltb_spec (off + l) off); [lia|]. eexists. split; [done|].
  assert (mem_Len (MkMemory (overwrite (m_store m) (Z.to_nat off) (take (Z.to_nat l) value)) (m_lastGasCost m)) = mem_Len m) as Hl'.
  { unfold mem_Len, blen in *. simpl. rewrite overwrite_length; [done|]. rewrite length_take. lia. }
  split; [|done]. destruct Hm as [(w & Hw & Hmw & Hf)]. split. exists w. by rewrite Hl'.
Qed.
Lemma length_ReadBits x buf : length (ReadBits x buf) = length buf.
Proof. unfold ReadBits. rewrite length_app, length_reverse, !length_take. lia. Qed.
Lemma mem_Set32_ok off val m : mem_ok m → 0 <= off → off + 32 <= mem_Len m →
  ∃ m', mem_Set32 (big_Uint64 off) val m = Some m' ∧ mem_ok m' ∧ mem_Len m' = mem_Len m.
Proof.
  intros Hm Ho He. pose proof (mem_ok_len m Hm) as Hlen. unfold max_memory in Hlen. unfold mem_Set32.
  rewrite !big_Uint64_small by (unfold two64; lia). rewrite u64_small by (unfold two64; lia).
  destruct (Z.ltb_spec (mem_Len m) (off + 32)); [lia|]. destruct (Z.ltb_spec (off + 32) off); [lia|]. eexists. split; [done|].
  set (m' := MkMemory _ _). assert (mem_Len m' = mem_Len m) as Hl'.
  { unfold m', mem_Len, blen in *. cbn [m_store]. rewrite overwrite_length; [done|]. rewrite length_ReadBits, length_replicate. lia. }
  split; [|done]. destruct Hm as [(w & Hw & Hmw & Hf)]. split. exists w. by rewrite Hl'.
Qed.
Lemma mem_Get_ok off l m : mem_ok m → region (mem_Len m) off l →
  ∃ d, mem_Get (big_Int64 off) (big_Int64 l) m = Some d ∧ blen d = l.
Proof.
  intros Hm Hr. pose proof (mem_ok_len m Hm) as Hlen. unfold max_memory in Hlen. unfold mem_Get.
  destruct Hr as [->|(Hl & Ho & He)]; [by exists []|]. rewrite !big_Int64_small by (unfold two63; lia).
  destruct (Z.eqb_spec l 0); [lia|]. destruct (Z.ltb_spec off (mem_Len m)); [|lia].
  destruct (slice_Some (m_store m) off (off + l)) as (d & -> & Hd); [lia|done|]. exists d. split; [done|lia].
Qed.

(** ** Contracts and jump destinations *)


Section inv.
Context `{!Crypto} `{!PrecompileLib} (D : Database) (env : Env).

Record contract_ok (c : Contract) : Prop := {
  co_code : blen (c_Code c) < two63;
  co_hash : c_CodeHash c = 0 ∨ c_Code c = [] ∨ Keccak256 (c_Code c) = c_CodeHash c;
  co_input : small (c_Input c);
  co_gas : 0 <= c_Gas c < 2 ^ 62;
  co_value : 0 <= c_value c;
  co_self : 0 <= c_self c; co_caller : 0 <= c_CallerAddress c;
  co_analysis bits : c_analysis c = Some bits → codeBitmap (c_Code c) = Some bits
}.
Lemma set_Gas_ok gas c : contract_ok c → 0 <= gas < 2 ^ 62 → contract_ok (set_Gas gas c).
Proof. intros []. by split. Qed.

Definition cache_ok (m : gmap Z bitvec) : Prop :=
  ∀ h bits, m !! h = Some bits → ∃ c, Keccak256 c = h ∧ codeBitmap c = Some bits.

(** ** The machine *)

Record vm_ok (v : VM) : Prop := {
  vo_db : dbgood D (vm_public v);
  vo_ref : vm_StateDB v = PublicDB;
  vo_len : length (vm_states v) = 1027%nat;
  vo_states i : 0 <= i < vm_currentStateDepth v → vm_states v !! Z.to_nat i = Some (Some PublicDB);
  vo_csd : 1 <= vm_currentStateDepth v <= vm_depth v + 2;
  vo_depth : 0 <= vm_depth v <= 1025;
  vo_ro : vm_smiloReadOnly v = false;
  vo_cache : cache_ok (vm_jumpdests v)
}.
(** One more state can be pushed. *)
Definition room (v : VM) : Prop := vm_currentStateDepth v <= vm_depth v + 1.
(** Whether writes are refused. *)
Definition static (v : VM) : bool := vm_readOnly v && IsByzantium (env_rules env).
Record vm_rel (v v' : VM) : Prop := {
  vr_db : dbrel D (static v) (vm_public v) (vm_public v');
  vr_vault : vm_vault v' = vm_vault v;
  vr_csd : vm_currentStateDepth v' = vm_currentStateDepth v;
  vr_depth : vm_depth v' = vm_depth v;
  vr_readOnly : vm_readOnly v' = vm_readOnly v;
  vr_abort : vm_abort v' = vm_abort v
}.
Lemma vm_rel_static v v' : vm_rel v v' → static v' = static v.
Proof. intros Hr. unfold static. by rewrite (vr_readOnly _ _ Hr). Qed.
Lemma vm_rel_refl v : vm_ok v → vm_rel v v.
Proof. intros Hv. split; try done. by apply dbrel_refl, Hv. Qed.
Lemma vm_rel_trans v1 v2 v3 : vm_rel v1 v2 → vm_rel v2 v3 → vm_rel v1 v3.
Proof.
  intros H1 H2. pose proof (vm_rel_static _ _ H1) as Hs. destruct H1, H2. split; try congruence.
  rewrite Hs in *. by eapply dbrel_trans.
Qed.

Record frame_ok (f : Frame) : Prop := {
  fo_stack : Forall (λ x, 0 <= x) (f_stack f);
  fo_len : (length (f_stack f) <= 1024)%nat;
  fo_mem : mem_ok (f_mem f);
  fo_contract : contract_ok (f_contract f);
  fo_vm : vm_ok (f_vm f);
  fo_room : room (f_vm f);
  fo_pc : 0 <= f_pc f < blen (c_Code (f_contract f)) + 33
}.

(** *** Operations on the databases *)

(** In a public transaction every pointer is the public state. *)
Lemma wp_on_public {A} (m : M StateDB A) (Q : A → VM → Prop) v :
  wp m (λ a s, Q a (set_dbs s (vm_vault v) v)) (vm_public v) → wp (on_db PublicDB m) Q v.
Proof. unfold wp, on_db. by destruct (m (vm_public v)) as [[? ?]|]. Qed.
Lemma wp_on_StateDB {A} (m : M StateDB A) (Q : A → VM → Prop) v : vm_StateDB v = PublicDB →
  wp m (λ a s, Q a (set_dbs s (vm_vault v) v)) (vm_public v) → wp (on_StateDB m) Q v.
Proof. intros Hr Hw. unfold on_StateDB, wp. rewrite Hr. by apply wp_on_public. Qed.

Lemma set_dbs_ok s v : vm_ok v → dbgood D s → vm_ok (set_dbs s (vm_vault v) v).
Proof. intros [] Hs. by split. Qed.
Lemma set_dbs_rel s v : dbrel D (static v) (vm_public v) s → vm_rel v (set_dbs s (vm_vault v) v).
Proof. by split. Qed.

(** An operation that is a step of the database. *)
Lemma wp_db {A} (m : M StateDB A) (R : A → StateDB → Prop) v : vm_ok v →
  wp m (λ a s, dbrel D (static v) (vm_public v) s ∧ R a s) (vm_public v) →
  wp (on_db PublicDB m) (λ a v', vm_ok v' ∧ vm_rel v v' ∧ vm_jumpdests v' = vm_jumpdests v ∧ R a (vm_public v')) v.
Proof.
  intros Hv Hm. apply wp_on_public. eapply wp_wand; [exact Hm|]. intros a s [Hs HR].
  split; [apply set_dbs_ok; [done|apply Hs]|]. split; [by apply set_dbs_rel|done].
Qed.
Lemma on_StateDB_public {A} (m : M StateDB A) v : vm_StateDB v = PublicDB → on_StateDB m v = on_db PublicDB m v.
Proof. intros Hr. unfold on_StateDB. by rewrite Hr. Qed.

Lemma wpx_on_vm {A B} (m : M VM A) (k : A → M Frame B) (Q : B → Frame → Prop) f :
  wp m (λ a v, wpx (k a) Q (set_vm v f)) (f_vm f) → wpx (mbind' (on_vm m) k) Q f.
Proof.
  unfold wpx, wp, on_vm, mbind'. by destruct (m (f_vm f)) as [[? ?]|].
Qed.

(** The analysis cached for the hash of the code is that of the code. *)
Definition fresh (f : Frame) : Prop := c_Code (f_contract f) ≠ [] → c_CodeHash (f_contract f) ≠ 0 → ∀ bits,
  vm_jumpdests (f_vm f) !! c_CodeHash (f_contract f) = Some bits → codeBitmap (c_Code (f_contract f)) = Some bits.
(** If it is not, another code was met that has the same hash. *)
Lemma not_fresh f : frame_ok f → ¬ fresh f →
  ∃ c bits, c ≠ c_Code (f_contract f) ∧ Keccak256 c = Keccak256 (c_Code (f_contract f)) ∧
    vm_jumpdests (f_vm f) !! Keccak256 c = Some bits ∧ codeBitmap c = Some bits.
Proof.
  intros Hf Hn. set (c := f_contract f) in *. destruct (decide (c_Code c = [])) as [He|Hne]; [destruct Hn; intros Hne; by destruct Hne|].
  destruct (decide (c_CodeHash c = 0)) as [Hz|Hz]; [destruct Hn; intros _ Hz2; by destruct Hz2|].
  destruct (vm_jumpdests (f_vm f) !! c_CodeHash c) as [bits|] eqn:Hb; [|destruct Hn; intros _ _ bits; fold c; by rewrite Hb].
  destruct (vo_cache _ (fo_vm _ Hf) _ _ Hb) as (c' & Hk & Hbits). exists c', bits.
  assert (c_CodeHash c = Keccak256 (c_Code c)) as Heq by (destruct (co_hash _ (fo_contract _ Hf)) as [|[He|Hkc]]; [done|fold c in He; congruence|by symmetry]).
  split; [|split; [congruence|split; [by rewrite Hk|done]]]. intros ->. apply Hn. intros _ _ bits'. fold c. rewrite Hb. by intros [= <-].
Qed.

(** [validJumpdest] finds the analysis of its own code, in the cache or not. *)
Lemma wpx_validJumpdest dest f : frame_ok f → fresh f →
  wpx (validJumpdest dest) (λ b f', frame_ok f' ∧ vm_rel (f_vm f) (f_vm f') ∧ f_stack f' = f_stack f ∧
    f_mem f' = f_mem f ∧ c_Gas (f_contract f') = c_Gas (f_contract f) ∧ c_Code (f_contract f') = c_Code (f_contract f) ∧ f_pc f' = f_pc f ∧
    (b = true → big_Uint64 dest < blen (c_Code (f_contract f)))) f.
Proof.
  intros Hf Hfresh. pose proof (vm_rel_refl _ (fo_vm _ Hf)) as Hrefl. pose proof (fo_contract _ Hf) as Hc.
  unfold validJumpdest. x_step. set (c := f_contract f). set (ud := big_Uint64 dest).
  destruct ((63 <=? big_BitLen dest) || (blen (c_Code c) <=? ud)) eqn:Hrange; [by x_step|].
  apply orb_false_elim in Hrange as [_ Hlt%Z.leb_gt]. pose proof (u64_range (Z.abs dest)) as Hud. fold (big_Uint64 dest) in Hud. fold ud in Hud.
  destruct (negb (GetOp c ud =? #JUMPDEST)); [by x_step|].
  destruct (codeBitmap_spec (c_Code c)) as (bits & Hbits & Hseg). destruct (Hseg ud ltac:(lia)) as (d & _ & Hd).
  destruct (Z.eqb_spec (c_CodeHash c) 0) as [|Hh]; cbn [negb].
  - destruct (c_analysis c) as [b|] eqn:Ha.
    + pose proof (co_analysis _ Hc b Ha) as Hb. fold c in Hb. assert (b = bits) as -> by congruence. x_step. rewrite Hd. by x_step.
    + rewrite Hbits. x_steps. rewrite Hd. x_step. destruct Hf. split; [|done]. split; try done. destruct Hc. split; try done.
      intros b [= <-]. done.
  - destruct (vm_jumpdests (f_vm f) !! c_CodeHash c) as [b|] eqn:Hcache.
    + x_step. assert (c_Code c ≠ []) as Hne by (intros He; rewrite He in Hlt; unfold blen in Hlt; simpl in Hlt; lia).
      pose proof (Hfresh Hne Hh b Hcache) as Hcb. fold c in Hcb. assert (b = bits) as -> by congruence. rewrite Hd. by x_step.
    + rewrite Hbits. x_steps. apply wpx_on_vm. unfold wp, mmod. x_step. rewrite Hd. x_step.
      destruct (co_hash _ Hc) as [|[He|Hkc]]; [done|fold c in He; rewrite He in Hlt; unfold blen in Hlt; simpl in Hlt; lia|fold c in Hkc].
      pose proof (fo_vm _ Hf) as Hv. split; [|split; [|done]]; [destruct Hf; split; try done|by destruct Hrefl].
      destruct Hv. split; try done. intros h b. cbn [f_vm set_vm vm_jumpdests set_jumpdests]. rewrite lookup_insert_Some.
      intros [[<- <-]|[_ Hb]]; [by exists (c_Code c)|by apply (vo_cache0 h b)].
Qed.
End inv.
