(* ===== verification/VmGasLaws.v ===== *)
(** * What the gas functions charge

    A gas function never panics on a good frame: it leaves the stack, the contract
    and the bytes of the memory alone, returns a 64-bit cost, and after it the memory
    can be resized to the size that was paid for. *)

From Stdlib Require Import ZArith Lia.
From S2P Require Import Prelude Errors Rlp Fullnode Messages SmiloPay StateDB StateRevert StateTransition StateLaws VmWord VmWordLaws.
From S2P Require Import Vm VmAnalysis VmGas VmContracts VmEVM VmInstr VmInterp VmState VmInv.
Import VmGas.Params.
Open Scope didux_scope.

Section reads.
Context `{!Crypto} (D : Database) (HD : db_ok D).
Implicit Types s : StateDB.
#[local] Set Default Proof Using "HD".

(** ** Reads of the database *)

Lemma wp_read {A} ro (m : M StateDB A) (R : A → Prop) s : dbgood D s →
  wp m (λ r s', R r ∧ loads D s s') s → wp m (λ r s', dbrel D ro s s' ∧ R r) s.
Proof. intros Hg Hm. eapply wp_wand; [exact Hm|]. intros r s' [HR Hl]. split; [by apply loads_dbrel|done]. Qed.

Lemma wp_with_object {A} ro a (dflt : A) f (R : A → Prop) s : dbgood D s → R dflt → (∀ o, peek s a = Some o → obj_good D o → R (f o)) →
  wp (with_object a dflt f) (λ r s', dbrel D ro s s' ∧ R r) s.
Proof.
  intros Hg Hd Hf. apply wp_read; [done|]. eapply wp_wand; [apply with_object_loads, dbgood_wf, Hg|].
  intros r s' [-> Hl]. split; [|done]. destruct (peek s a) as [o|] eqn:Hp; [|done]. apply Hf; [done|]. by eapply dg_objs.
Qed.

Lemma rd_Exist ro a s : dbgood D s →
  wp (Exist a) (λ r s', dbrel D ro s s' ∧ (r = false → peek s' a = None) ∧ loads D s s') s.
Proof.
  intros Hg. eapply wp_wand; [apply with_object_loads, dbgood_wf, Hg|]. intros r s' [-> Hl].
  split; [by apply loads_dbrel|]. split; [|done]. destruct Hl as [Hss _]. pose proof (ss_obj _ _ _ Hss a) as Ho.
  destruct (peek s a); [done|]. by destruct (peek s' a).
Qed.
Lemma rd_Empty ro a s : dbgood D s → wp (Empty a) (λ _ s', dbrel D ro s s' ∧ True) s.
Proof. intros Hg. by apply wp_with_object. Qed.
Lemma rd_GetBalance ro a s : dbgood D s →
  wp (GetBalance a) (λ r s', dbrel D ro s s' ∧ 0 <= r ∧ r = bal s a ∧ loads D s s') s.
Proof.
  intros Hg. eapply wp_wand; [apply with_object_loads, dbgood_wf, Hg|]. intros r s' [-> Hl].
  split; [by apply loads_dbrel|]. pose proof (dbgood_bal D s a Hg) as Hb. unfold bal, acct in Hb |- *.
  split; [by destruct (peek s a)|]. split; [by destruct (peek s a)|done].
Qed.
Lemma rd_GetNonce ro a s : dbgood D s → wp (GetNonce a) (λ _ s', dbrel D ro s s' ∧ loads D s s') s.
Proof.
  intros Hg. eapply wp_wand; [apply with_object_loads, dbgood_wf, Hg|]. intros r s' [_ Hl].
  split; [by apply loads_dbrel|done].
Qed.
Lemma rd_HasSuicided ro a s : dbgood D s → wp (HasSuicided a) (λ _ s', dbrel D ro s s' ∧ True) s.
Proof. intros Hg. by apply wp_with_object. Qed.
Lemma rd_GetCodeHash ro a s : dbgood D s → wp (GetCodeHash a) (λ h s', dbrel D ro s s' ∧ 0 <= h) s.
Proof. intros Hg. apply wp_with_object; [done|done|]. intros o _ Ho. apply Ho. Qed.
Lemma rd_GetCodeSize ro a s : dbgood D s → wp (GetCodeSize D a) (λ _ s', dbrel D ro s s' ∧ True) s.
Proof. intros Hg. by apply wp_with_object. Qed.

(** The code of an account and its hash. *)
Definition code_at s a : bytes := default [] (peek s a ≫= code_of D).
Definition hash_at s a : hash := match peek s a with Some o => ac_CodeHash (so_data o) | None => 0 end.
Lemma code_at_ok s a : dbgood D s →
  blen (code_at s a) < two63 ∧ (hash_at s a = 0 ∨ code_at s a = [] ∨ Keccak256 (code_at s a) = hash_at s a).
Proof.
  intros Hg. unfold code_at, hash_at. destruct (peek s a) as [o|] eqn:Hp; cbn [mbind option_bind]; [|split; [done|by left]].
  destruct (code_of D o) as [c|] eqn:Hc; cbn [default]; [|split; [done|right; by left]].
  destruct (og_code _ _ (dg_objs _ _ Hg a o Hp) c Hc). split; [done|right; by right].
Qed.
Lemma loads_code s s' a : loads D s s' → code_at s' a = code_at s a ∧ hash_at s' a = hash_at s a.
Proof.
  intros [Hss _]. pose proof (ss_obj _ _ _ Hss a) as Ho. unfold code_at, hash_at.
  destruct (peek s' a) as [p|], (peek s a) as [q|]; try done. cbn [mbind option_bind].
  by rewrite (or_code _ _ _ _ Ho), (or_data _ _ _ _ Ho).
Qed.
Lemma GetCode_loads a s : wf D s → wp (GetCode D a) (λ r s', default [] r = code_at s a ∧ loads D s s') s.
Proof.
  intros Hwf. eapply wp_wand; [apply (read_loads D a (Code D) (code_of D)); [done|]|].
  { intros b o c o' Hok Hc. by apply (Code_rel D b). }
  intros r s' [-> Hl]. split; [|done]. unfold code_at. by destruct (peek s a).
Qed.
Lemma rd_GetCode ro a s : dbgood D s → wp (GetCode D a) (λ r s', dbrel D ro s s' ∧ blen (default [] r) < two63) s.
Proof.
  intros Hg. apply (wp_read ro _ (λ r : option bytes, blen (default [] r) < two63)); [done|].
  eapply wp_wand; [apply GetCode_loads, dbgood_wf, Hg|]. intros r s' [-> Hl]. split; [apply code_at_ok, Hg|done].
Qed.
Lemma rd_GetState ro a k s : dbgood D s → wp (db_GetState D a k) (λ r s', dbrel D ro s s' ∧ 0 <= r) s.
Proof.
  intros Hg. apply (wp_read ro _ (λ r, 0 <= r)); [done|].
  eapply wp_wand; [apply (read_loads D a (λ o, GetState D o k) (λ o, current D o k)); [apply dbgood_wf, Hg|]|].
  { intros b o c o' Hok Hc. by apply (GetState_rel D b). }
  intros r s' [-> Hl]. split; [|done]. destruct (peek s a) as [o|] eqn:Hp; [|done]. apply (dg_objs _ _ Hg a o Hp).
Qed.
End reads.

(** ** The environment of a public transaction *)

(** The pointer to the vault state is the public state; the numbers are not
    negative; EWASM, for which the source has no interpreter, is off; there is a
    chain id; storage is not priced by EIP-1283, that is, there is no Constantinople
    without Petersburg.  The configurations of the SPoRT networks meet the last
    condition at every block; Rinkeby has blocks between the two forks, to which
    the theorems do not apply. *)
Record env_ok (env : Env) : Prop := {
  eo_vault : env_vaultState env = PublicDB;
  eo_origin : 0 <= ctx_Origin (env_ctx env);
  eo_coinbase : 0 <= ctx_Coinbase (env_ctx env);
  eo_number : 0 <= ctx_BlockNumber (env_ctx env);
  eo_gasPrice : 0 <= ctx_GasPrice (env_ctx env);
  eo_hash n : 0 <= ctx_GetHash (env_ctx env) n;
  eo_ewasm : env_IsEWASM env = false;
  eo_chain : ∃ c, env_ChainID env = Some c ∧ 0 <= c;
  eo_sstore : IsPetersburg (env_rules env) || negb (IsConstantinople (env_rules env)) = true
}.

Section gas.
Context `{!Crypto} (D : Database) (HD : db_ok D) (env : Env) (HE : env_ok env).
#[local] Set Default Proof Using "HD HE".
Implicit Types f : Frame.
Local Abbreviation vm_ok := (vm_ok D).
Local Abbreviation vm_rel := (vm_rel D env).
Local Abbreviation frame_ok := (frame_ok D).
Local Abbreviation static := (static env).

(** ** Steps of a frame *)

Lemma wpx_db {A B} (m : M StateDB A) (R : A → StateDB → Prop) (k : A → M Frame B) (Q : B → Frame → Prop) f : vm_ok (f_vm f) →
  wp m (λ a s, dbrel D (static (f_vm f)) (vm_public (f_vm f)) s ∧ R a s) (vm_public (f_vm f)) →
  (∀ a v, vm_ok v → vm_rel (f_vm f) v → R a (vm_public v) → wpx (k a) Q (set_vm v f)) →
  wpx (mbind' (on_vm (on_db PublicDB m)) k) Q f.
Proof.
  intros Hv Hm Hk. apply wpx_on_vm. eapply wp_wand; [by eapply wp_db|]. intros a v (Hok & Hrel & _ & HR). by apply Hk.
Qed.
Lemma wpx_StateDB {A B} (m : M StateDB A) (R : A → StateDB → Prop) (k : A → M Frame B) (Q : B → Frame → Prop) f : vm_ok (f_vm f) →
  wp m (λ a s, dbrel D (static (f_vm f)) (vm_public (f_vm f)) s ∧ R a s) (vm_public (f_vm f)) →
  (∀ a v, vm_ok v → vm_rel (f_vm f) v → R a (vm_public v) → wpx (k a) Q (set_vm v f)) →
  wpx (mbind' (on_vm (on_StateDB m)) k) Q f.
Proof.
  intros Hv Hm Hk. pose proof (wpx_db m R k Q f Hv Hm Hk) as Hw. unfold wpx, wp, mbind', on_vm in *.
  by rewrite (on_StateDB_public m _ (vo_ref _ _ Hv)).
Qed.

(** In a public transaction the state of an address is the public one. *)
Lemma wp_getPrivateOrPublicStateDB a v : vm_ok v →
  wp (getPrivateOrPublicStateDB env a) (λ r v', r.2 = PublicDB ∧ vm_ok v' ∧ vm_rel v v' ∧ loads D (vm_public v) (vm_public v')) v.
Proof.
  intros Hv. unfold getPrivateOrPublicStateDB. rewrite (eo_vault _ HE).
  eapply wp_seq; [apply wp_db; [done|apply rd_Exist, Hv; exact HD]|].
  intros b1 v1 (Hv1 & Hr1 & _ & _ & Hb1). destruct b1; [by wp_step|].
  eapply wp_seq; [apply wp_db; [done|apply rd_Exist, Hv1; exact HD]|].
  intros b2 v2 (Hv2 & Hr2 & _ & _ & Hb2). pose proof (vm_rel_trans _ _ _ _ _ Hr1 Hr2) as Hr. pose proof (loads_trans D _ _ _ Hb1 Hb2).
  destruct b2; [by wp_step|]. wp_steps. split; [|done]. simpl. apply Hv2.
Qed.
Lemma wpx_getState {B} a (k : bool * dbref → M Frame B) (Q : B → Frame → Prop) f : vm_ok (f_vm f) →
  (∀ b v, vm_ok v → vm_rel (f_vm f) v → wpx (k (b, PublicDB)) Q (set_vm v f)) →
  wpx (mbind' (on_vm (getPrivateOrPublicStateDB env a)) k) Q f.
Proof.
  intros Hv Hk. apply wpx_on_vm. eapply wp_wand; [by apply wp_getPrivateOrPublicStateDB|].
  intros [b r] v (Hr & Hok & Hrel & _). simpl in Hr. subst r. by apply Hk.
Qed.

Lemma wpx_Back {B} n x (k : Z → M Frame B) (Q : B → Frame → Prop) f : f_stack f !! n = Some x →
  wpx (k x) Q f → wpx (mbind' (Back n) k) Q f.
Proof using Type. intros Hx Hk. unfold Back. x_steps. rewrite Hx. by x_step. Qed.
Lemma wpx_pop {B} x st (k : Z → M Frame B) (Q : B → Frame → Prop) f : f_stack f = x :: st →
  wpx (k x) Q (set_stack st f) → wpx (mbind' pop k) Q f.
Proof using Type. intros Hx Hk. unfold pop. x_steps. rewrite Hx. by x_steps. Qed.
Lemma wpx_contract {B} (k : Contract → M Frame B) (Q : B → Frame → Prop) f :
  wpx (k (f_contract f)) Q f → wpx (mbind' get_contract k) Q f.
Proof using Type. intros Hk. unfold get_contract. by x_steps. Qed.

(** *** Errors of gas functions *)

Lemma wpx_ebind {A B} (m : M Frame (result A)) (k : A → M Frame (result B)) (Q : result B → Frame → Prop) f :
  wpx m (λ r f', match r with inl a => wpx (k a) Q f' | inr e => Q (inr e) f' end) f → wpx (ebind m k) Q f.
Proof using Type. intros Hm. unfold ebind. eapply wpx_seq; [exact Hm|]. intros [a|e] f' Hr; [done|by x_step]. Qed.
Lemma wpx_checked (p : Z * bool) (Q : result Z → Frame → Prop) f : (∀ e, Q (inr e) f) → (∀ r, p = (r, false) → Q (inl r) f) →
  wpx (checked p) Q f.
Proof using Type. intros He Hr. unfold checked. x_step. destruct p as [r []]; simpl; [apply He|by apply Hr]. Qed.

(** ** The effect of a gas function *)

Record grown (size : Z) (f f' : Frame) : Prop := {
  gr_pc : f_pc f' = f_pc f; gr_stack : f_stack f' = f_stack f; gr_contract : f_contract f' = f_contract f;
  gr_vm : vm_ok (f_vm f'); gr_rel : vm_rel (f_vm f) (f_vm f');
  gr_mem : mem_ok (mem_Resize size (f_mem f'))
}.
(** After an error. *)
Record failed (f f' : Frame) : Prop := {
  fa_contract : f_contract f' = f_contract f; fa_vm : vm_ok (f_vm f'); fa_rel : vm_rel (f_vm f) (f_vm f')
}.
Lemma grown_failed size f f' : grown size f f' → failed f f'.
Proof using Type. by intros []. Qed.
Lemma failed_refl f : vm_ok (f_vm f) → failed f f.
Proof using Type. intros Hv. split; [done|done|by apply vm_rel_refl]. Qed.
Lemma failed_vm f f' v : failed f f' → vm_ok v → vm_rel (f_vm f') v → failed f (set_vm v f').
Proof using Type. intros [] Hv Hr. split; [done|done|]. by eapply vm_rel_trans. Qed.
Lemma grown_vm size f f' v : grown size f f' → vm_ok v → vm_rel (f_vm f') v → grown size f (set_vm v f').
Proof using Type. intros [] Hv Hr. split; try done. by eapply vm_rel_trans. Qed.
Lemma mem_Resize_0 m : mem_ok m → mem_Resize 0 m = m.
Proof using Type. intros Hm%mem_ok_len. unfold mem_Resize. by destruct (Z.ltb_spec (mem_Len m) 0); [lia|]. Qed.
Lemma grown_refl f : frame_ok f → grown 0 f f.
Proof using Type.
  intros Hf. split; [done..|apply Hf|apply vm_rel_refl, Hf|]. rewrite mem_Resize_0 by apply Hf. apply Hf.
Qed.

(** What a gas function does for an operation that takes [args] items. *)
Definition dyn_spec (args : nat) (T : list Z → Z → VM → Prop) (pre : Z → Frame → Prop) (g : gasFunc) : Prop :=
  ∀ f size, frame_ok f → (args <= length (f_stack f))%nat → 0 <= size < two64 → size mod 32 = 0 → pre size f →
  wpx (g size) (λ r f', match r with
                        | inl cost => 0 <= cost < two64 ∧ grown size f f' ∧ T (f_stack f) cost (f_vm f')
                        | inr _ => failed f f'
                        end) f.

Lemma wpx_memoryGasCost (Q : result Z → Frame → Prop) f f0 size : grown 0 f0 f → 0 <= size < two64 → size mod 32 = 0 →
  (∀ fee f', grown size f0 f' → f_vm f' = f_vm f → 0 <= fee < 2 ^ 56 → Q (inl fee) f') →
  (∀ e f', failed f0 f' → Q (inr e) f') → wpx (memoryGasCost size) Q f.
Proof using Type.
  intros Hg Hs Hm Hok He. assert (mem_ok (f_mem f)) as Hmem.
  { destruct Hg as [_ _ _ _ _ [(w & Hw & Hl & Hc)]]. rewrite mem_Resize_Len in Hl. pose proof (blen_nonneg (m_store (f_mem f))) as Hnn.
    fold (mem_Len (f_mem f)) in Hnn. rewrite Z.max_l in Hl by lia. unfold mem_Resize in Hc. split. exists w. split; [done|]. split; [done|].
    by destruct (Z.ltb_spec (mem_Len (f_mem f)) 0); [lia|]. }
  destruct (memoryGasCost_spec size f Hmem Hs Hm) as (r & mem & Hrun & Hst & Hr). apply wpx_wp. unfold wp. rewrite Hrun.
  destruct r as [fee|e]; [apply Hok; [|done|apply Hr]|apply He]; destruct Hg; [|done].
  by destruct Hr as (_ & Hmo & _).
Qed.

(** ** Each of them *)

Definition at_least (lo : Z) : list Z → Z → VM → Prop := λ _ cost _, lo <= cost.
Definition any : Z → Frame → Prop := λ _ _, True.
(** A function of an operation without memory, that may write. *)
Definition no_memory : Z → Frame → Prop := λ size _, size = 0.
Definition may_write : Z → Frame → Prop := λ size f, size = 0 ∧ static (f_vm f) = false.

Lemma pureMemoryGascost_dyn : dyn_spec 0 (at_least 0) any pureMemoryGascost.
Proof using Type.
  intros f size Hf _ Hs Hm _. apply (wpx_memoryGasCost _ _ f); [by apply grown_refl|done|done| |done].
  intros fee f' Hg _ Hfee. split; [unfold two64; lia|]. split; [done|]. unfold at_least. lia.
Qed.

Lemma wpx_wordsGas pos x perWord gas f0 f size : f_stack f !! pos = Some x → 0 <= perWord < two64 → 0 <= gas < two64 → grown size f0 f →
  wpx (wordsGas pos perWord gas) (λ r f', match r with
      | inl cost => 0 <= cost < two64 ∧ grown size f0 f' ∧ at_least gas (f_stack f0) cost (f_vm f')
      | inr _ => failed f0 f'
      end) f.
Proof using Type.
  intros Hx Hp Hgas Hg. pose proof (grown_failed _ _ _ Hg) as Hfa. unfold wordsGas. apply (wpx_Back pos x); [done|]. apply wpx_ebind, wpx_checked; [done|]. intros r1 [-> Hr1]%bigUint64_spec.
  apply wpx_ebind, wpx_checked; [done|]. pose proof (toWordSize_range x Hr1) as Hw. intros r2 [Hr2 Hr2']%SafeMul_spec; [|unfold two64; lia|done].
  apply wpx_checked; [done|]. intros r3 [-> Hr3]%SafeAdd_spec; [|done|done]. unfold at_least. split; [lia|]. split; [done|lia].
Qed.
Lemma copier_dyn pos perWord g : 0 <= perWord < two64 → (∀ size, g size = ebind (memoryGasCost size) (wordsGas pos perWord)) →
  dyn_spec (S pos) (at_least 0) any g.
Proof using Type.
  intros Hp Hgd f size Hf Hlen Hs Hm _. rewrite Hgd. apply wpx_ebind.
  apply (wpx_memoryGasCost _ _ f); [by apply grown_refl|done|done| |done]. intros fee f' Hg _ Hfee.
  destruct (lookup_lt_is_Some_2 (f_stack f) pos) as [x Hx]; [lia|].
  eapply wpx_wand; [apply (wpx_wordsGas pos x perWord fee f f' size); [by rewrite (gr_stack _ _ _ Hg)|done|unfold two64; lia|done]|].
  intros [cost|e] f''; [|done]. unfold at_least. intros (? & ? & ?). split; [done|]. split; [done|lia].
Qed.
Lemma memoryCopierGas_dyn pos : dyn_spec (S pos) (at_least 0) any (memoryCopierGas pos).
Proof using Type. by apply (copier_dyn pos CopyGas). Qed.
Lemma gasSha3_dyn : dyn_spec 2 (at_least 0) any gasSha3.
Proof using Type. by apply (copier_dyn 1 Sha3WordGas). Qed.
Lemma gasCreate2_dyn : dyn_spec 3 (at_least 0) any gasCreate2.
Proof using Type. by apply (copier_dyn 2 Sha3WordGas). Qed.

Lemma makeGasLog_dyn n : 0 <= n <= 4 → dyn_spec 2 (at_least 375) any (makeGasLog n).
Proof using Type.
  intros Hn f size Hf Hlen Hs Hm _. unfold makeGasLog. destruct (lookup_lt_is_Some_2 (f_stack f) 1) as [x Hx]; [lia|].
  pose proof (failed_refl f (fo_vm _ _ Hf)) as Hfa0.
  apply (wpx_Back 1 x); [done|]. apply wpx_ebind, wpx_checked; [done|]. intros req [-> Hreq]%bigUint64_spec. apply wpx_ebind.
  apply (wpx_memoryGasCost _ _ f); [by apply grown_refl|done|done| |done]. intros fee f' Hg _ Hfee. pose proof (grown_failed _ _ _ Hg) as Hfa.
  apply wpx_ebind, wpx_checked; [done|]. intros g1 [-> Hg1]%SafeAdd_spec; [|unfold two64; lia|done].
  rewrite (u64_small (n * LogTopicGas)) by (unfold two64, LogTopicGas; lia).
  apply wpx_ebind, wpx_checked; [done|]. intros g2 [-> Hg2]%SafeAdd_spec; [|unfold LogGas in *; lia|unfold two64, LogTopicGas; lia].
  apply wpx_ebind, wpx_checked; [done|]. intros g3 [-> Hg3]%SafeMul_spec; [|done|done].
  unfold LogGas, LogTopicGas, LogDataGas in *.
  apply wpx_checked; [done|]. intros g4 [-> Hg4]%SafeAdd_spec; [|lia|done]. unfold at_least. split; [lia|]. split; [done|lia].
Qed.

Lemma gasExp_dyn perByte : 0 <= perByte → dyn_spec 2 (at_least 10) no_memory (gasExp perByte).
Proof using Type.
  intros Hp f size Hf Hlen _ _ Hz. unfold no_memory in Hz. subst size. unfold gasExp. destruct (lookup_lt_is_Some_2 (f_stack f) 1) as [x Hx]; [lia|].
  apply (wpx_Back 1 x); [done|]. apply wpx_checked; [intros _; apply failed_refl, Hf|].
  pose proof (u64_range ((big_BitLen x + 7) / 8 * perByte)). intros r [-> Hr]%SafeAdd_spec; [|done|done]. unfold at_least, ExpGas in *.
  split; [lia|]. split; [by apply grown_refl|lia].
Qed.

(** The cost is one of the constants of the table. *)
Lemma gasSStore_dyn : dyn_spec 2 (at_least 1) may_write (gasSStore D env).
Proof.
  intros f size Hf Hlen _ _ [-> Hro]. unfold gasSStore. destruct (f_stack f) as [|x [|y st]] eqn:Hst; [simpl in Hlen; lia..|].
  pose proof (fo_vm _ _ Hf) as Hv. apply wpx_contract, wpx_getState; [done|]. intros _ v1 Hv1 Hr1.
  apply (wpx_Back 1 y); [simpl; by rewrite Hst|]. apply (wpx_Back 0 x); [simpl; by rewrite Hst|].
  eapply wpx_db; [done|apply rd_GetState, Hv1; exact HD|]. intros cur v2 Hv2 Hr2 Hcur. rewrite (eo_sstore _ HE).
  assert (grown 0 f (set_vm v2 (set_vm v1 f))) as Hg by (by apply grown_vm; [apply grown_vm; [apply grown_refl| |]| |]).
  set (f2 := set_vm v2 (set_vm v1 f)) in *. destruct ((cur =? 0) && negb (Z.sgn y =? 0)); [by x_step|].
  destruct (negb (cur =? 0) && (Z.sgn y =? 0)); [|by x_step].
  eapply wpx_StateDB; [done| |].
  { rewrite (vm_rel_static _ _ _ _ (gr_rel _ _ _ Hg)), Hro. apply wp_AddRefund_good, Hv2. exact HD. }
  intros _ v3 Hv3 Hr3 _. x_step. split; [done|]. split; [by apply grown_vm|done].
Qed.

Lemma gasSelfdestruct_dyn : dyn_spec 1 (at_least 0) may_write (gasSelfdestruct env).
Proof.
  intros f size Hf Hlen _ _ [-> Hro]. unfold gasSelfdestruct. destruct (f_stack f) as [|x st] eqn:Hst; [simpl in Hlen; lia|].
  apply wpx_contract. apply (wpx_seq _ _ (λ gas f', 0 <= gas < two64 ∧ grown 0 f f')).
  - pose proof (grown_refl f Hf) as Hg. destruct (IsEIP150 (env_rules env)); [|by x_step].
    apply (wpx_Back 0 x); [by rewrite Hst|]. destruct (IsEIP158 (env_rules env)).
    + eapply wpx_StateDB; [apply Hf|apply rd_Empty, Hf; exact HD|]. intros e v1 Hv1 Hr1 _. pose proof (grown_vm _ _ _ _ Hg Hv1 Hr1) as Hg1.
      destruct e; [|by x_step]. eapply wpx_StateDB; [done|apply rd_GetBalance, Hv1; exact HD|]. intros b v2 Hv2 Hr2 _. x_step.
      split; [by destruct (negb _)|]. by apply (grown_vm _ _ _ _ Hg1).
    + eapply wpx_StateDB; [apply Hf|apply rd_Exist, Hf; exact HD|]. intros e v1 Hv1 Hr1 _. x_step. split; [by destruct e|]. by apply (grown_vm _ _ _ _ Hg).
  - intros gas f1 [Hgas Hg]. eapply wpx_StateDB; [apply Hg|apply rd_HasSuicided, (gr_vm _ _ _ Hg); exact HD|].
    intros su v2 Hv2 Hr2 _. pose proof (grown_vm _ _ _ _ Hg Hv2 Hr2) as Hg2. destruct su; [x_steps; split; [done|]; split; [done|]; unfold at_least; lia|].
    eapply wpx_StateDB; [done| |].
    { rewrite (vm_rel_static _ _ _ _ (gr_rel _ _ _ Hg2)), Hro. apply wp_AddRefund_good, Hv2. exact HD. }
    intros _ v3 Hv3 Hr3 _. x_step. split; [done|]. split; [by apply (grown_vm _ _ _ _ Hg2)|]. unfold at_least. lia.
Qed.

(** The cost of a call contains the gas of the callee, and the price of the transfer
    when there is a value. *)
Definition for_call (value : list Z → bool) : list Z → Z → VM → Prop := λ st cost v,
  ∃ base, cost = base + vm_callGasTemp v ∧ 0 <= vm_callGasTemp v ∧ 0 <= base ∧ (value st = true → CallValueTransferGas <= base).
Definition no_value (st : list Z) : bool := false.
Definition stack_value (st : list Z) : bool := match st !! 2%nat with Some v => negb (v =? 0) | None => false end.

Lemma callGas_range b avail base req temp : 0 <= avail < two64 → callGas b avail base req = inl temp → 0 <= temp < two64.
Proof using Type.
  intros Ha. unfold callGas. pose proof (u64_range (avail - base)) as Hu. pose proof (u64_range (Z.abs req)) as Hr. fold (big_Uint64 req) in Hr.
  pose proof (Z.div_pos (u64 (avail - base)) 64). pose proof (Z.div_le_upper_bound (u64 (avail - base)) 64 (u64 (avail - base))).
  repeat case_match; intros [= <-]; lia.
Qed.
Lemma wpx_withCallGas value gas f0 f size : grown size f0 f → 0 <= c_Gas (f_contract f) < two64 → (1 <= length (f_stack f))%nat → 0 <= gas < two64 →
  (value (f_stack f0) = true → CallValueTransferGas <= gas) →
  wpx (withCallGas env gas) (λ r f', match r with
      | inl cost => 0 <= cost < two64 ∧ grown size f0 f' ∧ for_call value (f_stack f0) cost (f_vm f')
      | inr _ => failed f0 f'
      end) f.
Proof using Type.
  intros Hg Hc Hlen Hgas Hval. pose proof (grown_failed _ _ _ Hg) as Hfa. unfold withCallGas.
  destruct (f_stack f) as [|x st] eqn:Hst; [simpl in Hlen; lia|].
  apply wpx_contract, (wpx_Back 0 x); [by rewrite Hst|]. apply wpx_ebind. x_step.
  destruct (callGas _ _ _ _) as [temp|e] eqn:Hcg; [|done]. apply callGas_range in Hcg; [|done].
  assert (vm_ok (set_callGasTemp temp (f_vm f)) ∧ vm_rel (f_vm f) (set_callGasTemp temp (f_vm f))) as [Hok Hrel].
  { pose proof (gr_vm _ _ _ Hg) as Hv. pose proof (vm_rel_refl D env _ Hv) as []. by destruct Hv. }
  apply wpx_on_vm. unfold wp, mmod. apply wpx_checked; [intros _; by apply failed_vm|].
  intros r [-> Hr]%SafeAdd_spec; [|done|done]. split; [lia|]. split; [by apply grown_vm|]. exists gas. split; [done|]. split; [apply Hcg|]. split; [lia|done].
Qed.
Lemma frame_gas f : frame_ok f → 0 <= c_Gas (f_contract f) < two64.
Proof using Type. intros Hf. pose proof (co_gas _ (fo_contract _ _ Hf)). unfold two64. lia. Qed.

Lemma gasDelegateCall_dyn : dyn_spec 1 (for_call no_value) any (gasDelegateCall env).
Proof using Type.
  intros f size Hf Hlen Hs Hm _. unfold gasDelegateCall. apply wpx_ebind.
  apply (wpx_memoryGasCost _ _ f); [by apply grown_refl|done|done| |done]. intros fee f' Hg _ Hfee.
  apply wpx_withCallGas; [done|rewrite (gr_contract _ _ _ Hg); by apply frame_gas|by rewrite (gr_stack _ _ _ Hg)|unfold two64; lia|done].
Qed.
Lemma gasCallCode_dyn : dyn_spec 3 (for_call stack_value) any (gasCallCode env).
Proof using Type.
  intros f size Hf Hlen Hs Hm _. unfold gasCallCode. apply wpx_ebind.
  apply (wpx_memoryGasCost _ _ f); [by apply grown_refl|done|done| |done]. intros fee f' Hg _ Hfee. pose proof (grown_failed _ _ _ Hg) as Hfa.
  destruct (lookup_lt_is_Some_2 (f_stack f) 2) as [x Hx]; [lia|]. apply (wpx_Back 2 x); [by rewrite (gr_stack _ _ _ Hg)|].
  set (g0 := if negb (Z.sgn x =? 0) then CallValueTransferGas else 0). assert (0 <= g0 <= 9000) by (unfold g0; by case_match).
  apply wpx_ebind, wpx_checked; [done|]. intros gas [-> Hgas]%SafeAdd_spec; [|unfold two64; lia|unfold two64; lia].
  apply wpx_withCallGas; [done|rewrite (gr_contract _ _ _ Hg); by apply frame_gas|rewrite (gr_stack _ _ _ Hg); lia|lia|].
  unfold stack_value. rewrite Hx. intros Hx0. unfold g0. rewrite sgn_eqb, Hx0. lia.
Qed.
Lemma gasCall_dyn : dyn_spec 3 (for_call stack_value) any (gasCall env).
Proof.
  intros f size Hf Hlen Hs Hm _. unfold gasCall. destruct (lookup_lt_is_Some_2 (f_stack f) 2) as [x Hx]; [lia|].
  destruct (lookup_lt_is_Some_2 (f_stack f) 1) as [y Hy]; [lia|]. apply (wpx_Back 2 x); [done|]. apply (wpx_Back 1 y); [done|].
  apply wpx_getState; [apply Hf|]. intros _ v1 Hv1 Hr1. pose proof (grown_vm _ _ _ _ (grown_refl f Hf) Hv1 Hr1) as Hg1.
  set (f1 := set_vm v1 f) in *. apply (wpx_seq _ _ (λ gas f', 0 <= gas <= 25000 ∧ grown 0 f f')).
  - destruct (IsEIP158 (env_rules env)); [destruct (negb (Z.sgn x =? 0)); [|by x_step]|].
    + eapply wpx_db; [done|apply rd_Empty, Hv1; exact HD|]. intros e v2 Hv2 Hr2 _. x_step. split; [by destruct e|by apply (grown_vm _ _ _ _ Hg1)].
    + eapply wpx_db; [done|apply rd_Exist, Hv1; exact HD|]. intros e v2 Hv2 Hr2 _. x_step. split; [by destruct e|by apply (grown_vm _ _ _ _ Hg1)].
  - intros g0 f2 [Hg0 Hg2]. set (g1 := if negb (Z.sgn x =? 0) then g0 + CallValueTransferGas else g0). assert (0 <= g1 <= 34000) by (unfold g1, CallValueTransferGas; case_match; lia).
    apply wpx_ebind, (wpx_memoryGasCost _ _ f); [done|done|done| |done]. intros fee f' Hg _ Hfee. pose proof (grown_failed _ _ _ Hg) as Hfa.
    apply wpx_ebind, wpx_checked; [done|]. intros gas [-> Hgas]%SafeAdd_spec; [|unfold two64; lia|unfold two64; lia].
    apply wpx_withCallGas; [done|rewrite (gr_contract _ _ _ Hg); by apply frame_gas|rewrite (gr_stack _ _ _ Hg); lia|lia|].
    unfold stack_value. rewrite Hx. intros Hx0. unfold g1. rewrite sgn_eqb, Hx0. lia.
Qed.
End gas.
