(* ===== verification/VmOps.v ===== *)
(** * What the instructions do to a good frame

    [exec_plain pops pushes pre e]: on a good frame with enough items, room for the
    result and [pre], [e] does not panic and leaves a good frame with the same gas.
    Calls and creations are in VmCalls. *)

From Stdlib Require Import ZArith Lia.
From S2P Require Import Prelude Errors Rlp Fullnode Messages SmiloPay StateDB StateRevert StateTransition StateLaws VmWord VmWordLaws.
From S2P Require Import Vm VmAnalysis VmGas VmContracts VmEVM VmInstr VmInterp VmState VmPrecompiled VmInv VmGasLaws.
Import VmGas.Params.
Open Scope didux_scope.

Section ops.
Context `{!Crypto} `{!PrecompileLib} (D : Database) (HD : db_ok D) (env : Env) (HE : env_ok env).
#[local] Set Default Proof Using "HD HE".
Implicit Types f : Frame.
Local Abbreviation vm_ok := (vm_ok D).
Local Abbreviation vm_rel := (vm_rel D env).
Local Abbreviation frame_ok := (frame_ok D).
Local Abbreviation static := (static env).

(** ** The frame after an instruction *)

(** Without the gas. *)
Record after f f' : Prop := {
  af_vm : vm_ok (f_vm f'); af_rel : vm_rel (f_vm f) (f_vm f');
  af_stack : Forall (λ x, 0 <= x) (f_stack f'); af_len : (length (f_stack f') <= 1024)%nat;
  af_mem : mem_ok (f_mem f'); af_contract : contract_ok (f_contract f');
  af_code : c_Code (f_contract f') = c_Code (f_contract f);
  af_pc : 0 <= f_pc f' < blen (c_Code (f_contract f)) + 32
}.
Lemma after_ok f f' : frame_ok f → after f f' → frame_ok f'.
Proof using Type.
  intros Hf []. split; try done.
  - unfold room. rewrite (vr_csd _ _ _ _ af_rel0), (vr_depth _ _ _ _ af_rel0). apply Hf.
  - rewrite af_code0. lia.
Qed.

Definition exec_plain (pops pushes : Z) (pre : Frame → Prop) (e : executionFunc) : Prop :=
  ∀ interp isVault f, frame_ok f → pops <= Z.of_nat (length (f_stack f)) → Z.of_nat (length (f_stack f)) - pops + pushes <= 1024 →
  f_pc f < blen (c_Code (f_contract f)) → pre f →
  wpx (e interp isVault) (λ r f', after f f' ∧ c_Gas (f_contract f') = c_Gas (f_contract f) ∧ small r.1) f.
Definition no_pre : Frame → Prop := λ _, True.

(** The parts of the frame that instructions change. *)
Lemma after_parts f st mem v : frame_ok f → f_pc f < blen (c_Code (f_contract f)) →
  vm_ok v → vm_rel (f_vm f) v → Forall (λ x, 0 <= x) st → (length st <= 1024)%nat → mem_ok mem →
  after f (MkFrame (f_pc f) st mem (f_contract f) v).
Proof using Type. intros [] Hpc Hv Hr Hst Hl Hm. split; simpl; try done. lia. Qed.
Lemma after_stack f st : frame_ok f → f_pc f < blen (c_Code (f_contract f)) → Forall (λ x, 0 <= x) st → (length st <= 1024)%nat →
  after f (set_stack st f).
Proof using Type. intros Hf Hpc Hst Hl. apply after_parts; try done; [apply Hf|apply vm_rel_refl, Hf|apply Hf]. Qed.
Lemma small_nil : small [].
Proof using Type. done. Qed.
Lemma small_len b : blen b <= max_memory → small b.
Proof using Type. unfold small, max_memory. lia. Qed.

Lemma wpx_push_done x (Q : bytes * err → Frame → Prop) f : Q ([], None) (set_stack (x :: f_stack f) f) → wpx (push_done x) Q f.
Proof using Type. intros HQ. unfold push_done, push, done_. by x_steps. Qed.
Lemma wpx_done (Q : bytes * err → Frame → Prop) f : Q ([], None) f → wpx done_ Q f.
Proof using Type. intros HQ. unfold done_. by x_step. Qed.
Lemma wpx_on_mem {B} (m : Memory → option Memory) mem (k : () → M Frame B) (Q : B → Frame → Prop) f :
  m (f_mem f) = Some mem → wpx (k ()) Q (set_mem mem f) → wpx (mbind' (on_mem m) k) Q f.
Proof using Type. intros Hm Hk. unfold on_mem. x_steps. rewrite Hm. by x_steps. Qed.

(** The frame and its top items, the rest of the stack in [st]. *)
Local Tactic Notation "exec_start" simple_intropattern(p) :=
  intros interp isVault f Hf Hlen Hmax Hpc Hpre; pose proof (fo_stack _ _ Hf) as Hall; pose proof (fo_vm _ _ Hf) as Hv;
  destruct (f_stack f) as p eqn:Hst; cbn [length] in Hlen, Hmax; try lia; rewrite ?Forall_cons in Hall;
  repeat match goal with H : _ ∧ Forall _ _ |- _ => destruct H end; destruct_and?.
Local Ltac x_pop := eapply wpx_pop; [first [eassumption|reflexivity]|]; cbv beta.
Local Ltac parts := first [assumption | apply vm_rel_refl; assumption | lia |
  match goal with Hf : VmInv.frame_ok _ _ |- mem_ok _ => apply Hf end | idtac].
(** The end of an instruction that leaves the contract alone. *)
Local Ltac finish f :=
  split; [|split; [reflexivity|exact small_nil]];
  lazymatch goal with |- after _ ?f' =>
    let st := eval cbn in (f_stack f') in let mem := eval cbn in (f_mem f') in let v := eval cbn in (f_vm f') in
    apply (after_parts f st mem v); parts; cbn [length]; parts; rewrite ?Forall_cons; split_and?; parts
  end.

(** ** Instructions on the stack *)

Lemma unary_exec g : (∀ x, 0 <= x → 0 <= g x) → exec_plain 1 1 no_pre (unary g).
Proof using Type. intros Hg. exec_start [|x st]. unfold unary. x_pop. apply wpx_push_done. finish f. by apply Hg. Qed.
Lemma binary_exec g : (∀ x y, 0 <= x → 0 <= y → 0 <= g x y) → exec_plain 2 1 no_pre (binary g).
Proof using Type. intros Hg. exec_start [|x [|y st]]. unfold binary. do 2 x_pop. apply wpx_push_done. finish f. by apply Hg. Qed.
Lemma ternary_exec g : (∀ x y z, 0 <= x → 0 <= y → 0 <= z → 0 <= g x y z) → exec_plain 3 1 no_pre (ternary g).
Proof using Type. intros Hg. exec_start [|x [|y [|z st]]]. unfold ternary. do 3 x_pop. apply wpx_push_done. finish f. by apply Hg. Qed.
Lemma push_exec (val : Frame → Z) (e : executionFunc) : (∀ i b f, e i b f = push_done (val f) f) → (∀ f, frame_ok f → 0 <= val f) →
  exec_plain 0 1 no_pre e.
Proof using Type.
  intros He Hval interp isVault f Hf _ Hmax Hpc _. pose proof (fo_vm _ _ Hf) as Hv. pose proof (fo_stack _ _ Hf) as Hst. unfold wpx, wp. rewrite He.
  apply wpx_wp. unfold push_done, push, done_, mbind', mmod, mret'. finish f. by apply Hval.
Qed.

Lemma U256_nonneg x : 0 <= U256 x.
Proof using Type. apply U256_word. Qed.
Lemma bool_word_nonneg b : 0 <= bool_word b.
Proof using Type. by destruct b. Qed.
Lemma Exp_nonneg base e : 0 <= e → 0 <= Exp base e.
Proof using Type. intros He. rewrite Exp_spec by done. by apply Z.mod_pos_bound. Qed.
Lemma math_Byte_nonneg x n : 0 <= x → 0 <= n → 0 <= math_Byte x 32 n.
Proof using Type.
  intros Hx Hn. destruct (Z.lt_ge_cases n 32); [rewrite math_Byte_spec by lia; by apply Z.mod_pos_bound|].
  unfold math_Byte. by rewrite (proj2 (Z.leb_le _ _)).
Qed.
Local Ltac word_op := intros; cbv beta zeta; repeat first [apply U256_nonneg | apply bool_word_nonneg | by apply Exp_nonneg | lia | case_match].
Lemma opAdd_exec : exec_plain 2 1 no_pre opAdd.
Proof using Type. apply binary_exec. word_op. Qed.
Lemma opMul_exec : exec_plain 2 1 no_pre opMul.
Proof using Type. apply binary_exec. word_op. Qed.
Lemma opSub_exec : exec_plain 2 1 no_pre opSub.
Proof using Type. apply binary_exec. word_op. Qed.
Lemma opDiv_exec : exec_plain 2 1 no_pre opDiv.
Proof using Type. apply binary_exec. word_op. Qed.
Lemma opSdiv_exec : exec_plain 2 1 no_pre opSdiv.
Proof using Type. apply binary_exec. word_op. Qed.
Lemma opMod_exec : exec_plain 2 1 no_pre opMod.
Proof using Type. apply binary_exec. word_op. Qed.
Lemma opSmod_exec : exec_plain 2 1 no_pre opSmod.
Proof using Type. apply binary_exec. word_op. Qed.
Lemma opAddmod_exec : exec_plain 3 1 no_pre opAddmod.
Proof using Type. apply ternary_exec. word_op. Qed.
Lemma opMulmod_exec : exec_plain 3 1 no_pre opMulmod.
Proof using Type. apply ternary_exec. word_op. Qed.
Lemma opExp_exec : exec_plain 2 1 no_pre opExp.
Proof using Type. apply binary_exec. word_op. Qed.
Lemma opLt_exec : exec_plain 2 1 no_pre opLt.
Proof using Type. apply binary_exec. word_op. Qed.
Lemma opGt_exec : exec_plain 2 1 no_pre opGt.
Proof using Type. apply binary_exec. word_op. Qed.
Lemma opSlt_exec : exec_plain 2 1 no_pre opSlt.
Proof using Type. apply binary_exec. word_op. Qed.
Lemma opSgt_exec : exec_plain 2 1 no_pre opSgt.
Proof using Type. apply binary_exec. word_op. Qed.
Lemma opEq_exec : exec_plain 2 1 no_pre opEq.
Proof using Type. apply binary_exec. word_op. Qed.
Lemma opIszero_exec : exec_plain 1 1 no_pre opIszero.
Proof using Type. apply unary_exec. word_op. Qed.
Lemma opNot_exec : exec_plain 1 1 no_pre opNot.
Proof using Type. apply unary_exec. word_op. Qed.
Lemma opAnd_exec : exec_plain 2 1 no_pre opAnd.
Proof using Type. apply binary_exec. intros. apply Z.land_nonneg. by left. Qed.
Lemma opOr_exec : exec_plain 2 1 no_pre opOr.
Proof using Type. apply binary_exec. intros. by apply Z.lor_nonneg. Qed.
Lemma opXor_exec : exec_plain 2 1 no_pre opXor.
Proof using Type. apply binary_exec. intros. by apply Z.lxor_nonneg. Qed.
Lemma opByte_exec : exec_plain 2 1 no_pre opByte.
Proof using Type.
  apply binary_exec. intros x y Hx Hy. rewrite big_Cmp_ltb. destruct (Z.ltb_spec x 32); [|done].
  rewrite big_Int64_small by (unfold two63; lia). by apply math_Byte_nonneg.
Qed.
Lemma opSHL_exec : exec_plain 2 1 no_pre opSHL.
Proof using Type. apply binary_exec. word_op. Qed.
Lemma opSHR_exec : exec_plain 2 1 no_pre opSHR.
Proof using Type. apply binary_exec. word_op. Qed.
Lemma opSAR_exec : exec_plain 2 1 no_pre opSAR.
Proof using Type. apply binary_exec. word_op. Qed.
Lemma opSignExtend_exec : exec_plain 2 1 no_pre opSignExtend.
Proof using Type.
  exec_start [|x [|y st]]. unfold opSignExtend. x_pop. case_match.
  - x_pop. apply wpx_push_done. finish f. apply U256_nonneg.
  - apply wpx_done. finish f.
Qed.
Lemma opPop_exec : exec_plain 1 0 no_pre opPop.
Proof using Type. exec_start [|x st]. unfold opPop. x_pop. apply wpx_done. finish f. Qed.

Lemma opAddress_exec : exec_plain 0 1 no_pre opAddress.
Proof using Type. apply (push_exec (λ f, c_self (f_contract f))); [done|]. intros f Hf. apply Hf. Qed.
Lemma opCaller_exec : exec_plain 0 1 no_pre opCaller.
Proof using Type. apply (push_exec (λ f, c_CallerAddress (f_contract f))); [done|]. intros f Hf. apply Hf. Qed.
Lemma opCallValue_exec : exec_plain 0 1 no_pre opCallValue.
Proof using Type. apply (push_exec (λ f, c_value (f_contract f))); [done|]. intros f Hf. apply Hf. Qed.
Lemma opCallDataSize_exec : exec_plain 0 1 no_pre opCallDataSize.
Proof using Type. apply (push_exec (λ f, blen (c_Input (f_contract f)))); [done|]. intros f _. apply blen_nonneg. Qed.
Lemma opReturnDataSize_exec : exec_plain 0 1 no_pre opReturnDataSize.
Proof using Type. apply (push_exec (λ f, blen (vm_returnData (f_vm f)))); [done|]. intros f _. apply blen_nonneg. Qed.
Lemma opCodeSize_exec : exec_plain 0 1 no_pre opCodeSize.
Proof using Type. apply (push_exec (λ f, blen (c_Code (f_contract f)))); [done|]. intros f _. apply blen_nonneg. Qed.
Lemma opOrigin_exec : exec_plain 0 1 no_pre (opOrigin env).
Proof using HE. apply (push_exec (λ _, ctx_Origin (env_ctx env))); [done|]. intros f _. apply HE. Qed.
Lemma opGasprice_exec : exec_plain 0 1 no_pre (opGasprice env).
Proof using HE. apply (push_exec (λ _, ctx_GasPrice (env_ctx env))); [done|]. intros f _. apply HE. Qed.
Lemma opChainID_exec : exec_plain 0 1 no_pre (opChainID env).
Proof using HE.
  destruct (eo_chain _ HE) as (c & Hc & Hpos). apply (push_exec (λ _, c)); [|done]. intros i b f. unfold opChainID. by rewrite Hc.
Qed.
Lemma opCoinbase_exec : exec_plain 0 1 no_pre (opCoinbase env).
Proof using HE. apply (push_exec (λ _, ctx_Coinbase (env_ctx env))); [done|]. intros f _. apply HE. Qed.
Lemma opTimestamp_exec : exec_plain 0 1 no_pre (opTimestamp env).
Proof using Type. apply (push_exec (λ _, U256 (ctx_Time (env_ctx env)))); [done|]. intros f _. apply U256_nonneg. Qed.
Lemma opNumber_exec : exec_plain 0 1 no_pre (opNumber env).
Proof using Type. apply (push_exec (λ _, U256 (ctx_BlockNumber (env_ctx env)))); [done|]. intros f _. apply U256_nonneg. Qed.
Lemma opDifficulty_exec : exec_plain 0 1 no_pre (opDifficulty env).
Proof using Type. apply (push_exec (λ _, U256 (ctx_Difficulty (env_ctx env)))); [done|]. intros f _. apply U256_nonneg. Qed.
Lemma opGasLimit_exec : exec_plain 0 1 no_pre (opGasLimit env).
Proof using Type. apply (push_exec (λ _, U256 (ctx_GasLimit (env_ctx env)))); [done|]. intros f _. apply U256_nonneg. Qed.
Lemma opPc_exec : exec_plain 0 1 no_pre opPc.
Proof using Type. apply (push_exec f_pc); [done|]. intros f Hf. apply Hf. Qed.
Lemma opMsize_exec : exec_plain 0 1 no_pre opMsize.
Proof using Type. apply (push_exec (λ f, mem_Len (f_mem f))); [done|]. intros f _. apply blen_nonneg. Qed.
Lemma opGas_exec : exec_plain 0 1 no_pre opGas.
Proof using Type. apply (push_exec (λ f, c_Gas (f_contract f))); [done|]. intros f Hf. apply (co_gas _ (fo_contract _ _ Hf)). Qed.
Lemma opBlockhash_exec : exec_plain 1 1 no_pre (opBlockhash env).
Proof using HE. apply unary_exec. intros x _. cbv zeta. case_match; [apply HE|done]. Qed.
Lemma opStop_exec : exec_plain 0 0 no_pre opStop.
Proof using Type.
  intros interp isVault f Hf _ _ Hpc _. unfold opStop. apply wpx_done. split; [|done]. destruct f as [pc st mem c v].
  apply (after_stack _ st Hf Hpc); apply Hf.
Qed.
Lemma opJumpdest_exec : exec_plain 0 0 no_pre opJumpdest.
Proof using Type. exact opStop_exec. Qed.

(** ** Instructions on the memory *)

(** The region given by two items lies in the memory; the region of [n] bytes at the
    first item does. *)
Definition has_region (i j : nat) (f : Frame) : Prop :=
  ∃ o l, f_stack f !! i = Some o ∧ f_stack f !! j = Some l ∧ region (mem_Len (f_mem f)) o l.
Definition has_bytes (n : Z) (f : Frame) : Prop := ∃ o, f_stack f !! 0%nat = Some o ∧ region (mem_Len (f_mem f)) o n.

Lemma region_len m o l : mem_ok m → region (mem_Len m) o l → 0 <= l <= max_memory.
Proof using Type. intros Hm%mem_ok_len [->|(Hl & Ho & Hr)]; lia. Qed.
(** Reading a region. *)
Lemma wpx_Get {B} o l (k : bytes → M Frame B) (Q : B → Frame → Prop) f m : mem_ok m → region (mem_Len m) o l →
  (∀ d, blen d = l → small d → wpx (k d) Q f) → wpx (mbind' (mderef (mem_Get (big_Int64 o) (big_Int64 l) m)) k) Q f.
Proof using Type.
  intros Hm Hr Hk. destruct (mem_Get_ok o l m Hm Hr) as (d & -> & Hd). x_step. apply Hk; [done|]. apply small_len.
  rewrite Hd. by eapply region_len.
Qed.
Lemma wpx_Set {B} o l value (k : () → M Frame B) (Q : B → Frame → Prop) f : mem_ok (f_mem f) → region (mem_Len (f_mem f)) o l →
  (∀ m, mem_ok m → mem_Len m = mem_Len (f_mem f) → wpx (k ()) Q (set_mem m f)) →
  wpx (mbind' (on_mem (mem_Set (big_Uint64 o) (big_Uint64 l) value)) k) Q f.
Proof using Type.
  intros Hm Hr Hk. destruct (mem_Set_ok o l value _ Hm Hr) as (m & Hset & Hm' & Hl). eapply wpx_on_mem; [done|]. by apply Hk.
Qed.

Local Ltac regions := 
  repeat match goal with H : has_region _ _ _ |- _ => destruct H as (? & ? & ? & ? & ?) | H : has_bytes _ _ |- _ => destruct H as (? & ? & ?) end;
  repeat match goal with Hs : f_stack ?f = _, H : f_stack ?f !! _ = Some _ |- _ => rewrite Hs in H; cbn in H; injection H as <- end.

Lemma opSha3_exec : exec_plain 2 1 (has_region 0 1) (opSha3 env).
Proof.
  exec_start [|x [|y st]]. regions. unfold opSha3. do 2 x_pop. x_step. apply wpx_Get; [apply Hf|done|]. intros d _ _.
  pose proof (do_hash _ HD d). destruct (cfg_EnablePreimageRecording (env_cfg env)).
  - eapply (wpx_StateDB D HD env HE); [done| |].
    { eapply wp_wand; [apply (wp_AddPreimage_good D HD (static (f_vm f))), Hv|]. intros u s' Hs. split; [exact Hs|exact I]. }
    intros _ v Hv1 Hr1 _. apply wpx_push_done. finish f.
  - x_step. apply wpx_push_done. finish f.
Qed.
Lemma opCallDataLoad_exec : exec_plain 1 1 no_pre opCallDataLoad.
Proof using Type.
  exec_start [|x st]. unfold opCallDataLoad. apply wpx_contract. x_pop.
  pose proof (co_input _ (fo_contract _ _ Hf)) as Hin. unfold small in Hin. rewrite getDataBig_spec by (unfold two63; lia). x_step. apply wpx_push_done. finish f. apply be_val_nonneg.
Qed.
Lemma wpx_copy mo off l data (Q : bytes * err → Frame → Prop) f : mem_ok (f_mem f) → region (mem_Len (f_mem f)) mo l → 0 <= off → blen data < two63 →
  (∀ m, mem_ok m → Q ([], None) (set_mem m f)) → wpx (copy_to_memory mo off l data) Q f.
Proof using Type.
  intros Hm Hr Ho Hd HQ. pose proof (region_len _ _ _ Hm Hr) as Hl. unfold max_memory in Hl. unfold copy_to_memory.
  rewrite getDataBig_spec by (unfold two63 in *; lia). x_step. apply wpx_Set; [done|done|]. intros m Hm' _. apply wpx_done. by apply HQ.
Qed.
Lemma frame_input f : frame_ok f → blen (c_Input (f_contract f)) < two63.
Proof using Type. intros Hf. pose proof (co_input _ (fo_contract _ _ Hf)) as Hin. unfold small in Hin. unfold two63. lia. Qed.
Lemma opCallDataCopy_exec : exec_plain 3 0 (has_region 0 2) opCallDataCopy.
Proof using Type.
  exec_start [|x [|y [|z st]]]. regions. unfold opCallDataCopy. do 3 x_pop. apply wpx_contract.
  apply wpx_copy; [apply Hf|done|done|by apply (frame_input f)|]. intros m Hm. finish f.
Qed.
Lemma opCodeCopy_exec : exec_plain 3 0 (has_region 0 2) opCodeCopy.
Proof using Type.
  exec_start [|x [|y [|z st]]]. regions. unfold opCodeCopy. do 3 x_pop. apply wpx_contract.
  apply wpx_copy; [apply Hf|done|done|apply Hf|]. intros m Hm. finish f.
Qed.
Lemma opExtCodeCopy_exec : exec_plain 4 0 (has_region 1 3) (opExtCodeCopy D env).
Proof.
  exec_start [|a [|x [|y [|z st]]]]. regions. unfold opExtCodeCopy. do 4 x_pop. apply (wpx_getState D HD env HE); [done|]. intros _ v1 Hv1 Hr1.
  eapply (wpx_db D HD env HE); [done|apply rd_GetCode, Hv1; exact HD|]. intros code v2 Hv2 Hr2 Hcode. cbn in Hr1, Hr2. pose proof (vm_rel_trans _ _ _ _ _ Hr1 Hr2) as Hr.
  apply wpx_copy; [apply Hf|done|done|done|]. intros m Hm. finish f.
Qed.
Lemma opReturnDataCopy_exec : exec_plain 3 0 (has_region 0 2) opReturnDataCopy.
Proof using Type.
  exec_start [|x [|y [|z st]]]. regions. unfold opReturnDataCopy. do 3 x_pop. x_step.
  match goal with Hr : region _ _ _ |- _ => pose proof (region_len _ _ _ (fo_mem _ _ Hf) Hr) as Hl end.
  destruct (negb (big_IsUint64 (y + z)) || _) eqn:Hchk; [x_step; finish f|]. apply orb_false_elim in Hchk as [Hu Hle].
  apply negb_false_iff, big_IsUint64_spec in Hu. apply Z.ltb_ge in Hle. rewrite (big_Uint64_small (y + z)) in * by done.
  rewrite (big_Uint64_small y) by lia. destruct (slice_Some (vm_returnData (f_vm (set_stack st f))) y (y + z)) as (d & Hd & _); [lia|done|].
  cbn in Hd |- *. rewrite Hd. x_step. apply wpx_Set; [apply Hf|done|]. intros m Hm _. apply wpx_done. finish f.
Qed.
Lemma opMload_exec : exec_plain 1 1 (has_bytes 32) opMload.
Proof using Type.
  exec_start [|x st]. regions. unfold opMload. x_pop. x_step. apply (wpx_Get x 32); [apply Hf|done|]. intros d _ _.
  apply wpx_push_done. finish f. apply be_val_nonneg.
Qed.
Lemma opMstore_exec : exec_plain 2 0 (has_bytes 32) opMstore.
Proof using Type.
  exec_start [|x [|y st]]. regions. unfold opMstore. do 2 x_pop. match goal with Hr : region _ _ _ |- _ => destruct Hr as [|(_ & Ho & Hle)]; [done|] end.
  destruct (mem_Set32_ok x y (f_mem f) (fo_mem _ _ Hf) Ho Hle) as (m & Hs & Hm & _). eapply wpx_on_mem; [exact Hs|]. apply wpx_done. finish f.
Qed.
Lemma opMstore8_exec : exec_plain 2 0 (has_bytes 1) opMstore8.
Proof using Type.
  exec_start [|x [|y st]]. regions. unfold opMstore8. do 2 x_pop. match goal with Hr : region _ _ _ |- _ => destruct Hr as [|(_ & Ho & Hle)]; [done|] end.
  pose proof (mem_ok_len _ (fo_mem _ _ Hf)) as Hl. unfold max_memory in Hl. rewrite (big_Int64_small x) by (unfold two63; lia). x_step. cbn [f_mem set_stack].
  rewrite (proj2 (Z.leb_le _ _)), (proj2 (Z.ltb_lt _ _)) by lia. cbn [andb]. x_step. apply wpx_done.
  match goal with |- context [set_mem ?m _] => assert (mem_ok m) as Hm end.
  { destruct (fo_mem _ _ Hf) as [(w & Hw & Hlen' & Hfee)]. split. exists w. split; [done|]. split; [|done]. rewrite <-Hlen'.
    unfold mem_Len, blen. cbn [m_store]. by rewrite length_insert. }
  finish f.
Qed.
Lemma opReturn_exec : exec_plain 2 0 (has_region 0 1) opReturn.
Proof using Type.
  exec_start [|x [|y st]]. regions. unfold opReturn. do 2 x_pop. x_step. apply wpx_Get; [apply Hf|done|]. intros d _ Hd. x_step.
  split; [|done]. apply (after_parts f st (f_mem f) (f_vm f)); parts. all: first [apply Hf | lia].
Qed.

(** ** Instructions on the state *)

Definition unprotected (f : Frame) : Prop := static (f_vm f) = false.
Local Ltac rel_trans := repeat match goal with
  | H1 : VmInv.vm_rel _ _ ?a ?b, H2 : VmInv.vm_rel _ _ ?b ?c |- VmInv.vm_rel _ _ ?a ?c => exact (vm_rel_trans _ _ _ _ _ H1 H2)
  | H1 : VmInv.vm_rel _ _ ?a ?b |- VmInv.vm_rel _ _ ?a ?c => apply (vm_rel_trans _ _ _ _ _ H1)
  end.

Lemma opBalance_exec : exec_plain 1 1 no_pre (opBalance env).
Proof.
  exec_start [|x st]. unfold opBalance. x_pop. apply (wpx_getState D HD env HE); [done|]. intros _ v1 Hv1 Hr1.
  eapply (wpx_db D HD env HE); [done|apply rd_GetBalance, Hv1; exact HD|]. intros b v2 Hv2 Hr2 (Hb & _). cbn in Hr1, Hr2.
  apply wpx_push_done. finish f. rel_trans.
Qed.
Lemma opSelfBalance_exec : exec_plain 0 1 no_pre opSelfBalance.
Proof.
  intros interp isVault f Hf _ Hmax Hpc _. pose proof (fo_vm _ _ Hf) as Hv. pose proof (fo_stack _ _ Hf). unfold opSelfBalance. apply wpx_contract. eapply (wpx_StateDB D HD env HE); [done|apply rd_GetBalance, Hv; exact HD|].
  intros b v2 Hv2 Hr2 (Hb & _). apply wpx_push_done. finish f.
Qed.
Lemma opExtCodeSize_exec : exec_plain 1 1 no_pre (opExtCodeSize D env).
Proof.
  exec_start [|x st]. unfold opExtCodeSize. x_pop. apply (wpx_getState D HD env HE); [done|]. intros _ v1 Hv1 Hr1.
  eapply (wpx_db D HD env HE); [done|apply rd_GetCodeSize, Hv1; exact HD|]. intros b v2 Hv2 Hr2 _. cbn in Hr1, Hr2.
  apply wpx_push_done. finish f; [rel_trans|]. apply u64_range.
Qed.
Lemma opExtCodeHash_exec : exec_plain 1 1 no_pre opExtCodeHash.
Proof.
  exec_start [|x st]. unfold opExtCodeHash. x_pop.
  eapply (wpx_StateDB D HD env HE); [done|apply rd_Empty, Hv; exact HD|]. intros e v1 Hv1 Hr1 _. cbn in Hr1.
  destruct e; [apply wpx_push_done; finish f|].
  eapply (wpx_StateDB D HD env HE); [done|apply rd_GetCodeHash, Hv1; exact HD|]. intros h v2 Hv2 Hr2 Hh. cbn in Hr2.
  apply wpx_push_done. finish f. rel_trans.
Qed.
Lemma opSload_exec : exec_plain 1 1 no_pre (opSload D env).
Proof.
  exec_start [|x st]. unfold opSload. x_pop. apply wpx_contract, (wpx_getState D HD env HE); [done|]. intros _ v1 Hv1 Hr1.
  eapply (wpx_db D HD env HE); [done|apply rd_GetState, Hv1; exact HD|]. intros b v2 Hv2 Hr2 Hb. cbn in Hr1, Hr2.
  apply wpx_push_done. finish f. rel_trans.
Qed.
(** A write to the database when they are allowed. *)
Lemma wpx_write {A B} (m : M StateDB A) (R : A → StateDB → Prop) (k : A → M Frame B) (Q : B → Frame → Prop) f : vm_ok (f_vm f) → static (f_vm f) = false →
  wp m (λ a s, dbrel D false (vm_public (f_vm f)) s ∧ R a s) (vm_public (f_vm f)) →
  (∀ a v, vm_ok v → vm_rel (f_vm f) v → static v = false → R a (vm_public v) → wpx (k a) Q (set_vm v f)) →
  wpx (mbind' (on_vm (on_db PublicDB m)) k) Q f.
Proof.
  intros Hv Hs Hm Hk. eapply (wpx_db D HD env HE); [done|rewrite Hs; exact Hm|]. intros a v Hv' Hr HR. apply Hk; [done..| |done].
  by rewrite (vm_rel_static _ _ _ _ Hr).
Qed.
Lemma BigToHash_nonneg x : 0 <= BigToHash x.
Proof using Type. by apply Z.mod_pos_bound. Qed.
Lemma opSstore_exec : exec_plain 2 0 unprotected (opSstore D env).
Proof.
  exec_start [|x [|y st]]. unfold opSstore. do 2 x_pop. apply wpx_contract, (wpx_getState D HD env HE); [done|]. intros _ v1 Hv1 Hr1. cbn in Hr1.
  eapply wpx_write; [done|cbn; by rewrite (vm_rel_static _ _ _ _ Hr1)|apply wp_SetState_good; [done|apply Hv1|apply BigToHash_nonneg]|].
  intros _ v2 Hv2 Hr2 _ _. cbn in Hr2. apply wpx_done. finish f. rel_trans.
Qed.
Lemma opSuicide_exec : exec_plain 1 0 unprotected (opSuicide env).
Proof.
  exec_start [|x st]. unfold opSuicide. apply wpx_contract, (wpx_getState D HD env HE); [done|]. intros _ v1 Hv1 Hr1.
  eapply (wpx_db D HD env HE); [done|apply rd_GetBalance, Hv1; exact HD|]. intros b v2 Hv2 Hr2 (Hb & _). cbn in Hr1, Hr2. x_pop.
  eapply wpx_write; [done|cbn; by rewrite (vm_rel_static _ _ _ _ Hr2), (vm_rel_static _ _ _ _ Hr1)|by apply wp_AddBalance_good; [|apply Hv2|apply HE|]|].
  intros _ v3 Hv3 Hr3 Hs3 _. cbn in Hr3.
  eapply wpx_write; [done|done|apply wp_Suicide_good; [done|apply Hv3]|]. intros _ v4 Hv4 Hr4 _ _. cbn in Hr4.
  apply wpx_done. finish f. rel_trans.
Qed.
Lemma wpx_pop_topics {B} n (k : list hash → M Frame B) (Q : B → Frame → Prop) f xs st : f_stack f = xs ++ st → length xs = n →
  wpx (k (map BigToHash xs)) Q (set_stack st f) → wpx (mbind' (pop_topics n) k) Q f.
Proof using Type.
  revert xs f k. induction n as [|n IH]; intros xs f k Hst Hlen Hk; destruct xs as [|x xs]; try done; cbn [pop_topics].
  - x_step. destruct f. cbn in Hst. subst. exact Hk.
  - x_step. eapply wpx_pop; [exact Hst|]. x_step. eapply (IH xs); [done|by injection Hlen|]. by x_step.
Qed.
Lemma makeLog_exec n : exec_plain (2 + Z.of_nat n) 0 (λ f, has_region 0 1 f ∧ unprotected f) (makeLog env n).
Proof.
  intros interp isVault f Hf Hlen Hmax Hpc [Hreg Hun]. pose proof (fo_stack _ _ Hf) as Hall. pose proof (fo_vm _ _ Hf) as Hv.
  destruct (f_stack f) as [|x [|y st]] eqn:Hst; [cbn [length] in Hlen; lia..|]. regions. unfold makeLog. do 2 x_pop. cbn [length] in Hlen, Hmax.
  rewrite !Forall_cons in Hall. destruct Hall as (_ & _ & Hall). rewrite <-(take_drop n st) in Hall. apply Forall_app in Hall as [_ Hall].
  eapply (wpx_pop_topics n _ _ _ (take n st) (drop n st)); [cbn; by rewrite take_drop|rewrite length_take; lia|]. x_step.
  apply wpx_Get; [apply Hf|done|]. intros d _ _.
  eapply (wpx_StateDB D HD env HE); [done|cbn [f_vm set_stack]; rewrite Hun; apply wp_AddLog_good, Hv; exact HD|].
  intros _ v1 Hv1 Hr1 _. cbn in Hr1. apply wpx_done. finish f. rewrite length_drop. lia.
Qed.

(** ** Flow *)

Lemma wpx_jump_to pos st f : frame_ok f → fresh f → 0 <= pos → f_pc f < blen (c_Code (f_contract f)) →
  Forall (λ x, 0 <= x) st → (length st <= 1024)%nat →
  wpx (jump_to pos) (λ r f', after f f' ∧ c_Gas (f_contract f') = c_Gas (f_contract f) ∧ small r.1) (set_stack st f).
Proof using Type.
  intros Hf Hfr Hpos Hpc Hst Hlen. unfold jump_to. pose proof (fo_pc _ _ Hf) as Hpc0. assert (frame_ok (set_stack st f)) as Hf' by by destruct Hf.
  eapply wpx_seq; [by apply (wpx_validJumpdest D env)|]. intros b f1 ([] & Hr & Hs & Hm & Hg & Hc & Hp & Hb). cbn in *.
  destruct b; cbn [negb].
  - x_step. apply wpx_done. specialize (Hb eq_refl). split; [|done]. split; cbn; try congruence; try done.
    pose proof (u64_range (Z.abs pos)) as Hu. fold (big_Uint64 pos) in Hu. lia.
  - apply wpx_contract. x_step. split; [|done]. split; cbn; try congruence; try done. lia.
Qed.
Lemma opJump_exec : exec_plain 1 0 fresh opJump.
Proof using Type. exec_start [|x st]. unfold opJump. x_pop. apply wpx_jump_to; [done..|lia]. Qed.
Lemma opJumpi_exec : exec_plain 2 0 fresh opJumpi.
Proof using Type.
  exec_start [|x [|y st]]. unfold opJumpi. do 2 x_pop. case_match; [apply (wpx_jump_to x st f); [done..|lia]|]. x_step. apply wpx_done.
  split; [|done]. pose proof (fo_pc _ _ Hf). pose proof (co_code _ (fo_contract _ _ Hf)). pose proof (vm_rel_refl D env _ Hv).
  destruct Hf. split; cbn; try done; [lia|]. rewrite u64_small by (unfold two63, two64 in *; lia). lia.
Qed.

(** ** Families *)

Lemma after_push f x pc : frame_ok f → 0 <= x → Z.of_nat (length (f_stack f)) <= 1023 → 0 <= pc < blen (c_Code (f_contract f)) + 32 →
  after f (set_pc pc (set_stack (x :: f_stack f) f)).
Proof using Type.
  intros Hf Hx Hl Hpc. pose proof (vm_rel_refl D env _ (fo_vm _ _ Hf)). destruct Hf. split; cbn; try done; [by apply Forall_cons|lia].
Qed.
Lemma byte_nonneg b : 0 <= byte_Z b.
Proof using Type. pose proof (byte_Z_range b). lia. Qed.
Lemma GetByte_nonneg c n : 0 <= GetByte c n.
Proof using Type. unfold GetByte. case_match; [|done]. destruct (_ !! _); [apply byte_nonneg|done]. Qed.
Lemma opPush1_exec : exec_plain 0 1 no_pre opPush1.
Proof using Type.
  intros interp isVault f Hf _ Hmax Hpc _. unfold opPush1. x_steps. pose proof (fo_pc _ _ Hf). pose proof (co_code _ (fo_contract _ _ Hf)).
  assert (u64 (f_pc f + 1) = f_pc f + 1) as Hu by (apply u64_small; unfold two63, two64 in *; lia).
  case_match; apply wpx_push_done; (split; [|done]).
  - apply (after_push f _ (u64 (f_pc f + 1))); [done|apply GetByte_nonneg|lia|lia].
  - apply (after_push f _ (u64 (f_pc f + 1))); [done|done|lia|lia].
Qed.
Lemma makePush_exec n : 0 <= n <= 32 → exec_plain 0 1 no_pre (makePush n n).
Proof using Type.
  intros Hn interp isVault f Hf _ Hmax Hpc _. unfold makePush. x_step. pose proof (fo_pc _ _ Hf). pose proof (co_code _ (fo_contract _ _ Hf)).
  rewrite (u64_small (f_pc f + 1)) by (unfold two63, two64 in *; lia). pose proof (blen_nonneg (c_Code (f_contract f))).
  destruct (Z.eq_dec (f_pc f + 1) two63) as [He|He]; [unfold two63 in *; lia|].
  rewrite (i64_small (f_pc f + 1)) by (unfold two63 in *; lia).
  match goal with |- context [slice ?c ?a ?b] => destruct (slice_Some c a b) as (d & -> & Hd); [repeat case_match; lia..|] end.
  unfold push. x_steps. apply wpx_done. split; [|done]. apply after_push; [done|apply be_val_nonneg|lia|].
  cbn [f_pc set_stack]. rewrite u64_small by (unfold two63, two64 in *; lia). lia.
Qed.
Lemma makeDup_exec n : (1 <= n)%nat → exec_plain (Z.of_nat n) (Z.of_nat n + 1) no_pre (makeDup n).
Proof using Type.
  intros Hn interp isVault f Hf Hlen Hmax Hpc _. unfold makeDup, stack_dup. x_steps. pose proof (fo_stack _ _ Hf) as Hall.
  destruct (lookup_lt_is_Some_2 (f_stack f) (n - 1)) as [x Hx]; [lia|]. rewrite Hx. unfold push. x_steps. apply wpx_done. split; [|done].
  pose proof (proj1 (Forall_lookup _ _) Hall _ _ Hx). apply after_stack; [done|done|by apply Forall_cons|cbn; lia].
Qed.
Lemma makeSwap_exec n : exec_plain (Z.of_nat n + 1) (Z.of_nat n + 1) no_pre (makeSwap n).
Proof using Type.
  intros interp isVault f Hf Hlen Hmax Hpc _. unfold makeSwap, stack_swap. x_steps. pose proof (fo_stack _ _ Hf) as Hall.
  destruct (lookup_lt_is_Some_2 (f_stack f) (S n - 1)) as [x Hx]; [lia|]. destruct (lookup_lt_is_Some_2 (f_stack f) 0) as [y Hy]; [lia|].
  rewrite Hx, Hy. x_steps. apply wpx_done. split; [|done]. pose proof (proj1 (Forall_lookup _ _) Hall _ _ Hx) as Hx0. pose proof (proj1 (Forall_lookup _ _) Hall _ _ Hy) as Hy0.
  apply after_stack; [done|done| |]; [by apply Forall_insert; [apply Forall_insert|]|]. rewrite !length_insert. apply Hf.
Qed.
End ops.
