(* ===== verification/VmCalls.v ===== *)
(** * Calls and creations on a good state

    Given an interpreter that is right for less than [n] units of gas ([interp_ok]),
    each of the calls returns, spends no more gas than it was given, and leaves the
    state as it was when it returns an error; a creation leaves it as it was but for
    the nonce of the creator. *)

From Stdlib Require Import ZArith Lia.
From S2P Require Import Prelude Errors Rlp Fullnode Messages SmiloPay StateDB StateRevert StateTransition StateLaws VmWord VmWordLaws.
From S2P Require Import Vm VmAnalysis VmGas VmContracts VmEVM VmInstr VmInterp VmState VmPrecompiled VmInv VmGasLaws VmOps.
Import VmGas.Params.
Open Scope didux_scope.

(** A run that also tells its own result. *)
Lemma wp_eqn {S A} (m : M S A) (Q : A → S → Prop) s : wp m Q s → wp m (λ a s', Q a s' ∧ m s = Some (a, s')) s.
Proof. unfold wp. by destruct (m s) as [[? ?]|]. Qed.

Section calls.
Context `{!Crypto} `{!PrecompileLib} `{PL : !PrecompileLaws} (D : Database) (HD : db_ok D) (env : Env) (HE : env_ok env).
#[local] Set Default Proof Using "PL HD HE".
Implicit Types v : VM.
Local Abbreviation vm_ok := (vm_ok D).
Local Abbreviation vm_rel := (vm_rel D env).
Local Abbreviation static := (static env).

(** ** Steps of the machine *)

Lemma vx_db {A B} (m : M StateDB A) (R : A → StateDB → Prop) (k : A → M VM B) (Q : B → VM → Prop) v : vm_ok v →
  wp m (λ a s, dbrel D (static v) (vm_public v) s ∧ R a s) (vm_public v) →
  (∀ a v', vm_ok v' → vm_rel v v' → R a (vm_public v') → wpx (k a) Q v') → wpx (mbind' (on_db PublicDB m) k) Q v.
Proof using Type.
  intros Hv Hm Hk. eapply wpx_seq; [apply wpx_wp; by apply (wp_db D env)|]. intros a v' (Hok & Hr & _ & HR). by apply Hk.
Qed.
Lemma vx_StateDB {A B} (m : M StateDB A) (R : A → StateDB → Prop) (k : A → M VM B) (Q : B → VM → Prop) v : vm_ok v →
  wp m (λ a s, dbrel D (static v) (vm_public v) s ∧ R a s) (vm_public v) →
  (∀ a v', vm_ok v' → vm_rel v v' → R a (vm_public v') → wpx (k a) Q v') → wpx (mbind' (on_StateDB m) k) Q v.
Proof using Type.
  intros Hv Hm Hk. pose proof (vx_db m R k Q v Hv Hm Hk) as Hw. unfold wpx, wp, mbind' in *.
  by rewrite (on_StateDB_public m _ (vo_ref _ _ Hv)).
Qed.

Lemma vx_StateDB_end {A} (m : M StateDB A) (R : A → StateDB → Prop) v : vm_ok v →
  wp m (λ a s, dbrel D (static v) (vm_public v) s ∧ R a s) (vm_public v) →
  wpx (on_StateDB m) (λ a v', vm_ok v' ∧ vm_rel v v' ∧ R a (vm_public v')) v.
Proof using Type.
  intros Hv Hm. apply wpx_wp. unfold wp. rewrite (on_StateDB_public m _ (vo_ref _ _ Hv)).
  eapply wp_wand; [by apply (wp_db D env)|]. by intros a v' (? & ? & _ & ?).
Qed.

(** ** The interpreter that the calls use *)

Record run_post (ro : bool) v (gas : Z) (r : bytes * err * Contract) v' : Prop := {
  rp_vm : vm_ok v'; rp_rel : vm_rel v v';
  rp_quiet : ro && IsByzantium (env_rules env) = true → quiet D (vm_public v) (vm_public v');
  rp_gas : 0 <= c_Gas r.2 <= gas; rp_ret : small r.1.1
}.
Definition interp_ok (n : Z) (interp : RunFun) : Prop :=
  ∀ c input ro isVault v, vm_ok v → vm_depth v <= 1024 → contract_ok c → c_Gas c < n → small input →
  wpx (interp c input ro isVault) (run_post ro v (c_Gas c)) v.

Context (n : Z) (interp : RunFun) (HI : interp_ok n interp).
#[local] Set Default Proof Using "PL HD HE HI".

Lemma wpx_run c input ro isVault v : vm_ok v → vm_depth v <= 1024 → contract_ok c → c_Gas c < n → small input →
  wpx (run env interp c input ro isVault) (run_post ro v (c_Gas c)) v.
Proof.
  intros Hv Hd Hc Hg Hi. unfold run. destruct (c_CodeAddr c ≫= precompiles (env_rules env)) as [p|] eqn:Hp; [|by apply HI].
  destruct (c_CodeAddr c) as [a|]; [|done]. cbn in Hp.
  destruct (RunPrecompiledContract_ok _ _ _ input c Hp Hi (co_gas _ Hc)) as (ret & e & gas & -> & Hgas & Hret). x_step.
  split; [done|by apply vm_rel_refl| |done|done]. intros _. apply quiet_same. by apply dbgood_wf, Hv.
Qed.

(** ** Snapshots *)

(** [id] is a snapshot of [s], taken in [s1]. *)
Record snap_of (s : StateDB) (id : Z) (s1 : StateDB) : Prop := {
  sn_revs : sd_validRevisions s1 = sd_validRevisions s ++ [(id, length (j_entries (sd_journal s)))];
  sn_new : id ∉ (sd_validRevisions s).*1;
  sn_snaps G : snaps_ok D s G → ∃ G1, snaps_ok D s1 G1 ∧ G1 id = s ∧ ∀ i, i ∈ (sd_validRevisions s).*1 → G1 i = G i
}.
Lemma wp_Snapshot_of ro s : dbgood D s →
  wp StateDB_Snapshot (λ id s1, dbrel D ro s s1 ∧ snap_of s id s1 ∧ ∀ b, bal s1 b = bal s b) s.
Proof using HD.
  intros Hs. eapply wp_wand; [by apply (wp_Snapshot D HD)|]. intros id s1 (Hr & Hb & Hrev & Hnew & Hsn).
  split; [by apply dbrel_weaken|]. split; [by split|done].
Qed.

(** What a call promises. *)
Record call_post v (gas : Z) (r : bytes * Z * err) v' : Prop := {
  cp_vm : vm_ok v'; cp_rel : vm_rel v v';
  cp_gas : 0 <= r.1.2 <= gas; cp_ret : small r.1.1;
  cp_undo : r.2 ≠ None → same_state D (vm_public v') (vm_public v)
}.
Lemma call_post_start v v1 gas r v' : vm_rel v v1 → loads D (vm_public v) (vm_public v1) → call_post v1 gas r v' → call_post v gas r v'.
Proof using Type.
  intros Hr Hl []. split; try done; [by eapply vm_rel_trans|]. intros He. etrans; [by apply cp_undo0|]. apply Hl.
Qed.
Lemma call_post_err v v1 gas e : vm_ok v1 → vm_rel v v1 → loads D (vm_public v) (vm_public v1) → 0 <= gas → call_post v gas ([], gas, Some e) v1.
Proof using Type. intros Hv Hr [Hs _] Hg. by split. Qed.

(** Going back to a snapshot from any later state. *)
Lemma vx_revert v0 id v1 v : vm_ok v0 → vm_ok v → vm_rel v0 v → snap_of (vm_public v0) id (vm_public v1) → vm_rel v1 v →
  wp (on_db PublicDB (RevertToSnapshot id)) (λ _ v', vm_ok v' ∧ vm_rel v0 v' ∧ same_state D (vm_public v') (vm_public v0)) v.
Proof using HD.
  intros Hv0 Hv Hr Hsn Hr1. apply wp_on_public.
  eapply wp_wand; [eapply (wp_Revert D HD (vm_public v0) id (vm_public v1)); [apply Hv0|apply Hv|apply Hsn|apply Hsn|apply Hsn|apply (vr_db _ _ _ _ Hr1)]|].
  intros [] s3 [Hd Hss]. split; [apply set_dbs_ok; [done|apply Hd]|]. split; [|done]. destruct Hr. split; try done. by apply dbrel_weaken.
Qed.

Lemma vx_after_run (r : M VM dbref) v0 id v1 v2 ro gas res v : (∀ v, vm_ok v → r v = Some (PublicDB, v)) → vm_ok v0 →
  vm_rel v0 v1 → snap_of (vm_public v0) id (vm_public v1) → vm_rel v1 v2 → run_post ro v2 gas res v →
  wpx (after_run r id res) (λ r v', call_post v0 gas r v' ∧ (r.2 = None → v' = v)) v.
Proof using HD.
  intros Hr Hv0 H01 Hsn H12 [Hv H2 _ Hg Hret]. destruct res as [[ret e] c]. cbn in Hg, Hret. unfold after_run.
  pose proof (vm_rel_trans _ _ _ _ _ H12 H2) as H1. pose proof (vm_rel_trans _ _ _ _ _ H01 H1) as H0v. destruct e as [e|]; [|by x_step].
  apply (wpx_seq _ _ (λ db v', db = PublicDB ∧ v' = v)); [apply wpx_wp; by apply (wp_of_run _ _ _ _ _ (Hr v Hv))|].
  intros db v' [-> ->]. eapply wpx_seq; [apply wpx_wp; by eapply (vx_revert v0 id v1)|]. intros _ v' (Hv' & Hr' & Hss). x_step.
  split; [|done]. split; try done. cbn. case_match; lia.
Qed.
Lemma current_StateDB_public v : vm_ok v → current_StateDB v = Some (PublicDB, v).
Proof using Type. intros Hv. unfold current_StateDB, mbind', mget, mret'. by rewrite (vo_ref _ _ Hv). Qed.

(** ** The callee *)

Definition caller_ok (c : ContractRef) : Prop := 0 <= ref_Address c ∧ match c with ContractPtr p => contract_ok p | AccountRef _ => True end.

Lemma new_jumpdests_ok caller v : vm_ok v → wp (new_jumpdests caller) (λ _ v', vm_ok v' ∧ vm_rel v v' ∧ vm_public v' = vm_public v) v.
Proof using Type.
  intros Hv. pose proof (vm_rel_refl D env v Hv) as Hr. destruct caller; [|by apply wp_ret]. unfold new_jumpdests, wp, mmod. split; [|split; [|done]].
  - destruct Hv. by split.
  - by destruct Hr.
Qed.
Lemma vx_callee {B} caller object value gas addr (k : Contract → M VM B) (Q : B → VM → Prop) v : vm_ok v → caller_ok caller →
  0 <= object → 0 <= value → 0 <= gas < 2 ^ 62 →
  (∀ c v', contract_ok c → c_Gas c = gas → vm_ok v' → vm_rel v v' → loads D (vm_public v) (vm_public v') → wpx (k c) Q v') →
  wpx (mbind' (callee D caller object value gas PublicDB addr) k) Q v.
Proof using HD.
  intros Hv [Hca _] Ho Hval Hgas Hk. unfold callee. x_step. eapply wpx_seq; [apply wpx_wp; by apply new_jumpdests_ok|].
  intros _ v0 (Hv0 & Hr0 & Hp0). x_step.
  eapply (vx_db _ (λ h s', h = hash_at (vm_public v0) addr ∧ loads D (vm_public v0) s')); [done| |].
  { eapply wp_wand; [apply with_object_loads, dbgood_wf, Hv0|]. intros h s' [-> Hl]. split; [apply loads_dbrel; [apply Hv0|done]|done]. }
  intros h v1 Hv1 Hr1 [-> Hl1]. x_step.
  eapply (vx_db _ (λ r s', default [] r = code_at D (vm_public v1) addr ∧ loads D (vm_public v1) s')); [done| |].
  { eapply wp_wand; [apply GetCode_loads, dbgood_wf, Hv1; done|]. intros r s' [Hc Hl]. split; [apply loads_dbrel; [apply Hv1|done]|done]. }
  intros r v2 Hv2 Hr2 [Hc Hl2]. x_step. destruct (loads_code D HD _ _ addr Hl1) as [Hc1 Hh1]. destruct (code_at_ok D HD (vm_public v1) addr (vo_db _ _ Hv1)) as [Hlen Hhash].
  apply Hk; [|done|done|by eapply vm_rel_trans, Hr2; eapply vm_rel_trans|rewrite <-Hp0; by eapply loads_trans]. split; cbn; rewrite ?Hc, <-?Hh1; try done.
Qed.

(** ** Transfers *)

Lemma wp_Transfer ro a b value bn s : dbgood D s → 0 <= bn → 0 <= value <= bal s a → (ro = true → value = 0) →
  wp (Transfer a b value bn) (λ _ s', dbrel D ro s s' ∧ True) s.
Proof using HD.
  intros Hs Hbn Hval Hro. unfold Transfer. destruct ro.
  - rewrite Hro by done. apply (wp_seq _ _ (λ _ s', dbrel D true s s')); [by apply (wp_SubBalance_0 D HD true)|]. intros _ s1 H1. pose proof (dr_good _ _ _ _ H1) as Hg1.
    apply (wp_wand _ (λ _ s', dbrel D true s1 s')); [by apply (wp_AddBalance_0 D HD true)|]. intros _ s2 H2. split; [by eapply dbrel_trans|done].
  - eapply wp_seq; [apply (wp_SubBalance_good D HD); [done|done|lia]|]. intros u1 s1 [H1 _]. pose proof (dr_good _ _ _ _ H1) as Hg1.
    eapply wp_wand; [apply (wp_AddBalance_good D HD); [done|done|lia]|]. intros u2 s2 [H2 _]. split; [by eapply dbrel_trans|done].
Qed.
Lemma vx_transfer (r : M VM dbref) a b b' value isVault v : (∀ v, vm_ok v → r v = Some (PublicDB, v)) → vm_ok v →
  0 <= value <= bal (vm_public v) a → (static v = true → value = 0) →
  wpx (smilo_transfer env r a b b' value isVault) (λ e v', e = None ∧ vm_ok v' ∧ vm_rel v v') v.
Proof using HD HE.
  intros Hr Hv Hval Hs. unfold smilo_transfer. x_step. pose proof (vm_rel_refl D env v Hv) as Hrefl.
  apply (wpx_seq _ _ (λ db v', db = PublicDB ∧ v' = v)); [apply wpx_wp; by apply (wp_of_run _ _ _ _ _ (Hr v Hv))|]. intros db v' [-> ->].
  rewrite (vo_ro _ _ Hv). cbn [andb]. destruct (env_IsSmilo env); [destruct (negb (Z.sgn value =? 0)); [|by x_step]|].
  all: eapply vx_db; [done|apply wp_Transfer; [apply Hv|apply HE|done|done]|]; intros _ v' Hv' Hr' _; by x_step.
Qed.
Lemma wp_CanTransfer ro a value s : dbgood D s →
  wp (CanTransfer a value) (λ b s', dbrel D ro s s' ∧ (b = true → value <= bal s' a) ∧ loads D s s') s.
Proof using HD.
  intros Hs. unfold CanTransfer. eapply wp_seq; [by apply (rd_GetBalance D HD ro)|]. intros b s' (Hr & _ & -> & Hl). wp_step.
  split; [done|]. split; [|done]. rewrite big_Cmp_geb, (loads_bal D _ _ a Hl). by intros ?%Z.leb_le.
Qed.

(** ** The stack of states *)

Definition pushed v : VM :=
  set_StateDB PublicDB (set_states (<[Z.to_nat (vm_currentStateDepth v) := Some PublicDB]> (vm_states v)) (vm_currentStateDepth v + 1) v).
Lemma Push_public v : vm_ok v → room v → Push env PublicDB v = Some ((), pushed v) ∧ vm_ok (pushed v).
Proof using HE.
  intros Hv Hroom. destruct Hv as [Hdb Href Hlen Hst Hcsd Hdep Hro Hc]. unfold room in Hroom. unfold Push, mbind' at 1, mget.
  rewrite (eo_vault _ HE), bool_decide_eq_true_2 by done. cbn [negb andb].
  unfold mret', mbind' at 1. destruct (Z.ltb_spec (vm_currentStateDepth v) 1027); [|lia].
  rewrite u64_small by (unfold two64; lia). split; [done|]. split; cbn; try done; [by rewrite length_insert| |lia].
  intros i Hi. destruct (Z.eq_dec i (vm_currentStateDepth v)) as [->|Hne]; [apply list_lookup_insert_eq; lia|].
  rewrite list_lookup_insert_ne by lia. apply Hst. lia.
Qed.
Lemma Pop_public v0 v : vm_ok v0 → room v0 → vm_ok v → vm_rel (pushed v0) v →
  wp Pop (λ _ v', vm_ok v' ∧ vm_rel v0 v' ∧ vm_public v' = vm_public v) v.
Proof using Type.
  intros Hv0 Hroom Hv Hr. unfold room in Hroom. pose proof (vo_csd _ _ Hv0) as Hcsd0. pose proof (vo_depth _ _ Hv0) as Hd0.
  pose proof (vr_csd _ _ _ _ Hr) as Hcsd. pose proof (vr_depth _ _ _ _ Hr) as Hdep. cbn in Hcsd, Hdep.
  destruct Hv as [Hdb Href Hlen Hst Hcsd' Hdep' Hro Hc].
  unfold Pop. wp_steps. rewrite Hcsd, Hro, andb_false_r. replace (vm_currentStateDepth v0 + 1 - 1) with (vm_currentStateDepth v0) by lia.
  rewrite !u64_small by (rewrite ?u64_small by (unfold two64; lia); unfold two64; lia). wp_steps.
  rewrite (Hst (vm_currentStateDepth v0 - 1)) by lia. cbn [mjoin option_join]. wp_steps.
  split; [|split; [|done]].
  - split; cbn; try done; [intros i Hi; apply Hst; lia|lia].
  - destruct Hr. by split.
Qed.

(** What a call does around its body. *)
Lemma vx_pushed (body : M VM (bytes * Z * err)) gas v : vm_ok v → room v → (wpx body (call_post (pushed v) gas) (pushed v)) →
  wpx (do! Push env PublicDB in let! r := body in do! Pop in mret' r) (call_post v gas) v.
Proof using HE.
  intros Hv Hroom Hb. destruct (Push_public v Hv Hroom) as [Hp _].
  apply (wpx_seq _ _ (λ _ v', v' = pushed v)); [apply wpx_wp; by apply (wp_of_run _ _ _ _ _ Hp)|]. intros _ v' ->.
  eapply wpx_seq; [exact Hb|]. intros r v2 [Hv2 Hr2 Hg Hret Hu]. eapply wpx_seq; [apply wpx_wp; by apply (Pop_public v)|].
  intros _ v3 (Hv3 & Hr3 & Hpub). x_step. split; try done. rewrite Hpub. exact Hu.
Qed.

(** ** Calls *)

Lemma vx_norecursion {B} (k : bool → M VM B) (Q : B → VM → Prop) v : (∀ b, wpx (k b) Q v) → wpx (mbind' (evm_norecursion env) k) Q v.
Proof using Type. intros Hk. unfold evm_norecursion. by x_steps. Qed.
Lemma call_post_ok v v1 gas : vm_ok v1 → vm_rel v v1 → 0 <= gas → call_post v gas ([], gas, None) v1.
Proof using Type. by split. Qed.

(** The state of the callee, pushed. *)
Lemma vx_with_state (body : bool → M VM (bytes * Z * err)) addr isVault gas v : vm_ok v → room v → 0 <= gas →
  (∀ b v', vm_ok (pushed v') → vm_rel v v' → wpx (body b) (call_post (pushed v') gas) (pushed v')) →
  wpx (let! stop := evm_norecursion env in
       if stop : bool then mret' ([], gas, None) else
       let! (isVaultOnDB, thisstate) := getPrivateOrPublicStateDB env addr in
       do! Push env thisstate in
       let isVault := if negb (eqb isVault isVaultOnDB) then isVaultOnDB else isVault in
       let! r := body isVault in
       do! Pop in mret' r) (call_post v gas) v.
Proof using HD HE.
  intros Hv Hroom Hgas Hb. apply vx_norecursion. intros stop. pose proof (vm_rel_refl D env v Hv).
  destruct stop; [x_step; by apply call_post_ok|].
  eapply wpx_seq; [apply wpx_wp; by apply (wp_getPrivateOrPublicStateDB D HD env HE)|]. intros [b db] v1 (Hdb & Hv1 & Hr1 & Hl1). cbn in Hdb. subst db.
  assert (room v1) as Hroom1 by (unfold room; by rewrite (vr_csd _ _ _ _ Hr1), (vr_depth _ _ _ _ Hr1)).
  eapply wpx_wand; [apply vx_pushed; [done|done|apply Hb; [by apply Push_public|done]]|].
  intros r v2. by apply call_post_start.
Qed.

(** The check of the depth, and the check of the balance of the caller. *)
Local Ltac depth_check Hd :=
  x_step; match goal with |- context [CallCreateDepth <? ?d] => destruct (Z.ltb_spec CallCreateDepth d) as [|Hd];
    [x_step; by apply call_post_err; [|apply vm_rel_refl|apply loads_refl, dbgood_wf, vo_db|lia]|unfold CallCreateDepth in Hd] end.
Lemma rel_depth v v' : vm_rel v v' → vm_depth v <= 1024 → vm_depth v' <= 1024.
Proof using Type. intros Hr. by rewrite (vr_depth _ _ _ _ Hr). Qed.

Lemma vx_Call_body caller addr input gas value isVault v : vm_ok v → caller_ok caller → 0 <= addr → small input → 0 <= gas < n → gas < 2 ^ 62 →
  0 <= value → (static v = true → value = 0) →
  wpx (Call_body D env interp caller addr input gas value isVault) (call_post v gas) v.
Proof.
  intros Hv Hca Ha Hi Hg Hg' Hval Hst. unfold Call_body. depth_check Hd.
  eapply vx_db; [done|apply wp_CanTransfer, Hv|]. intros can v1 Hv1 Hr1 [Hcan Hl1].
  destruct can; cbn [negb]; [specialize (Hcan eq_refl)|x_step; by apply call_post_err; [..|lia]].
  eapply vx_StateDB; [done|apply wp_Snapshot_of, Hv1|]. intros id v2 Hv2 Hr2 [Hsn Hb2].
  eapply vx_StateDB; [done|apply rd_Exist, Hv2; exact HD|]. intros ex v3 Hv3 Hr3 [Hne Hl3].
  pose proof (vm_rel_trans _ _ _ _ _ Hr1 Hr2) as H02. pose proof (vm_rel_trans _ _ _ _ _ H02 Hr3) as H03.
  case_match; [x_step; apply call_post_ok; [done|done|lia]|].
  apply (wpx_seq _ _ (λ _ v4, vm_ok v4 ∧ vm_rel v3 v4 ∧ ∀ b, bal (vm_public v4) b = bal (vm_public v3) b)).
  { destruct ex; [x_step; split; [done|]; split; [by apply vm_rel_refl|done]|].
    apply (vx_StateDB_end _ (λ _ s, ∀ b, bal s b = bal (vm_public v3) b)); [done|]. apply wp_CreateAccount_new; [done|apply Hv3|by apply Hne]. }
  intros _ v4 (Hv4 & Hr4 & Hb4). pose proof (vm_rel_trans _ _ _ _ _ H03 Hr4) as H04.
  eapply wpx_seq; [apply (vx_transfer (mret' PublicDB)); [done|done| |by rewrite (vm_rel_static _ _ _ _ H04)]|].
  { rewrite Hb4, (loads_bal D _ _ _ Hl3), Hb2. lia. }
  intros e v5 (-> & Hv5 & Hr5). cbv iota.
  apply (wpx_seq _ _ (λ db v', db = PublicDB ∧ v' = v5)); [apply wpx_wp; by apply (wp_of_run _ _ _ _ _ (current_StateDB_public _ Hv5))|]. intros db v' [-> ->].
  apply vx_callee; [done|done|done|done|lia|]. intros c v6 Hc Hcg Hv6 Hr6 _.
  assert (vm_rel v2 v6) as H26 by (eapply vm_rel_trans, Hr6; eapply vm_rel_trans, Hr5; by eapply vm_rel_trans).
  eapply wpx_seq; [apply wpx_run; [done| |done|lia|done]|].
  { eapply rel_depth; [exact H26|]. by eapply rel_depth. }
  intros res v7 Hpost. rewrite Hcg in Hpost.
  eapply wpx_wand; [by eapply (vx_after_run current_StateDB v1 id v2 v6 false gas); [apply current_StateDB_public|..]|].
  intros r v8 [Hcp _]. by apply (call_post_start v v1).
Qed.
Lemma vx_Call caller addr input gas value isVault v : vm_ok v → room v → caller_ok caller → 0 <= addr → small input → 0 <= gas < n → gas < 2 ^ 62 →
  0 <= value → (static v = true → value = 0) →
  wpx (Call D env interp caller addr input gas value isVault) (call_post v gas) v.
Proof.
  intros Hv Hroom Hca Ha Hi Hg Hg' Hval Hst. apply (vx_with_state (Call_body D env interp caller addr input gas value)); [done|done|lia|].
  intros b v' Hp Hr. apply vx_Call_body; try done. intros Hs. apply Hst. by rewrite <-(vm_rel_static _ _ _ _ Hr).
Qed.
Lemma vx_CallCode_body caller addr input gas value isVault v : vm_ok v → caller_ok caller → small input → 0 <= gas < n → gas < 2 ^ 62 → 0 <= value →
  wpx (CallCode_body D env interp caller addr input gas value isVault) (call_post v gas) v.
Proof.
  intros Hv Hca Hi Hg Hg' Hval. unfold CallCode_body. depth_check Hd.
  eapply vx_StateDB; [done|apply wp_CanTransfer, Hv|]. intros can v1 Hv1 Hr1 [_ Hl1].
  destruct can; cbn [negb]; [|x_step; by apply call_post_err; [..|lia]].
  eapply vx_StateDB; [done|apply wp_Snapshot_of, Hv1|]. intros id v2 Hv2 Hr2 [Hsn _].
  apply (wpx_seq _ _ (λ db v', db = PublicDB ∧ v' = v2)); [apply wpx_wp; by apply (wp_of_run _ _ _ _ _ (current_StateDB_public _ Hv2))|]. intros db v' [-> ->].
  apply vx_callee; [done|done|apply Hca|done|lia|]. intros c v6 Hc Hcg Hv6 Hr6 _.
  eapply wpx_seq; [apply wpx_run; [done| |done|lia|done]|].
  { eapply rel_depth; [exact Hr6|]. eapply rel_depth; [exact Hr2|]. by eapply rel_depth. }
  intros res v7 Hpost. rewrite Hcg in Hpost.
  eapply wpx_wand; [by eapply (vx_after_run current_StateDB v1 id v2 v6 false gas); [apply current_StateDB_public|..]|].
  intros r v8 [Hcp _]. by apply (call_post_start v v1).
Qed.
Lemma vx_CallCode caller addr input gas value isVault v : vm_ok v → room v → caller_ok caller → small input → 0 <= gas < n → gas < 2 ^ 62 → 0 <= value →
  wpx (CallCode D env interp caller addr input gas value isVault) (call_post v gas) v.
Proof.
  intros Hv Hroom Hca Hi Hg Hg' Hval. apply (vx_with_state (CallCode_body D env interp caller addr input gas value)); [done|done|lia|].
  intros b v' Hp Hr. by apply vx_CallCode_body.
Qed.
(** Only a contract can make a delegate call. *)
Lemma vx_DelegateCall_body c addr input gas isVault v : vm_ok v → caller_ok (ContractPtr c) → small input → 0 <= gas < n → gas < 2 ^ 62 →
  wpx (DelegateCall_body D env interp (ContractPtr c) addr input gas isVault) (call_post v gas) v.
Proof.
  intros Hv Hca Hi Hg Hg'. unfold DelegateCall_body. depth_check Hd.
  eapply vx_StateDB; [done|apply wp_Snapshot_of, Hv|]. intros id v2 Hv2 Hr2 [Hsn _].
  apply (wpx_seq _ _ (λ db v', db = PublicDB ∧ v' = v2)); [apply wpx_wp; by apply (wp_of_run _ _ _ _ _ (current_StateDB_public _ Hv2))|]. intros db v' [-> ->].
  apply vx_callee; [done|done|apply Hca|done|lia|]. intros c' v6 Hc Hcg Hv6 Hr6 _. cbn [AsDelegate]. x_step.
  destruct Hca as [_ Hpc]. set (c2 := MkContract _ _ _ _ _ _ _ _ _). assert (contract_ok c2) as Hc2 by (destruct Hc, Hpc; by split).
  eapply wpx_seq; [apply wpx_run; [done| |done|cbn; lia|done]|].
  { eapply rel_depth; [exact Hr6|]. by eapply rel_depth. }
  intros res v7 Hpost. cbn in Hpost. rewrite Hcg in Hpost.
  eapply wpx_wand; [by eapply (vx_after_run current_StateDB v id v2 v6 false gas); [apply current_StateDB_public|..]|].
  by intros r v8 [Hcp _].
Qed.
Lemma vx_DelegateCall c addr input gas isVault v : vm_ok v → room v → caller_ok (ContractPtr c) → small input → 0 <= gas < n → gas < 2 ^ 62 →
  wpx (DelegateCall D env interp (ContractPtr c) addr input gas isVault) (call_post v gas) v.
Proof.
  intros Hv Hroom Hca Hi Hg Hg'. apply (vx_with_state (DelegateCall_body D env interp (ContractPtr c) addr input gas)); [done|done|lia|].
  intros b v' Hp Hr. by apply vx_DelegateCall_body.
Qed.

(** From Byzantium on a static call writes nothing. *)
Lemma vx_StaticCall caller addr input gas isVault v : vm_ok v → caller_ok caller → 0 <= addr → small input → 0 <= gas < n → gas < 2 ^ 62 →
  wpx (StaticCall D env interp caller addr input gas isVault) (λ r v', call_post v gas r v' ∧
    (IsByzantium (env_rules env) = true → quiet D (vm_public v) (vm_public v'))) v.
Proof.
  intros Hv Hca Ha Hi Hg Hg'. pose proof (quiet_same D _ _ (dbgood_wf D _ (vo_db _ _ Hv))) as Hq0.
  unfold StaticCall. apply vx_norecursion. intros stop. destruct stop; [x_step; split; [apply call_post_ok; [done|by apply vm_rel_refl|lia]|done]|].
  x_step. destruct (Z.ltb_spec CallCreateDepth (vm_depth v)) as [|Hd].
  { x_step. split; [|done]. apply call_post_err; [done|by apply vm_rel_refl|apply loads_refl, dbgood_wf, Hv|lia]. }
  unfold CallCreateDepth in Hd. eapply wpx_seq; [apply wpx_wp; by apply (wp_getPrivateOrPublicStateDB D HD env HE)|].
  intros [b db] v1 (Hdb & Hv1 & Hr1 & Hl1). cbn in Hdb. subst db. cbv beta iota zeta.
  eapply (vx_StateDB _ (λ id s1, dbrel D true (vm_public v1) s1 ∧ snap_of (vm_public v1) id s1)); [done| |].
  { eapply wp_wand; [apply (wp_Snapshot_of true), Hv1|]. intros id s1 (Hs1 & Hsn & _). split; [by apply dbrel_weaken|done]. }
  intros id v2 Hv2 Hr2 [Hq2 Hsn].
  apply vx_callee; [done|done|done|done|lia|]. intros c v3 Hc Hcg Hv3 Hr3 Hl3.
  eapply (vx_db _ (λ _ s, dbrel D true (vm_public v3) s)); [done| |].
  { apply (wp_wand _ (λ _ s, dbrel D true (vm_public v3) s)); [apply (wp_AddBalance_0 D HD true), Hv3|]. intros u s Hs. split; [by apply dbrel_weaken|done]. }
  intros _ v4 Hv4 Hr4 Hq4. pose proof (vm_rel_trans _ _ _ _ _ Hr3 Hr4) as H24.
  eapply wpx_seq; [apply wpx_run; [done| |done|lia|done]|].
  { eapply rel_depth; [exact H24|]. eapply rel_depth; [exact Hr2|]. by eapply rel_depth. }
  intros res v5 Hpost. rewrite Hcg in Hpost.
  eapply wpx_wand; [by eapply (vx_after_run (mret' PublicDB) v1 id v2 v4 true gas)|]. intros r v6 [Hcp Hnone].
  split; [by apply (call_post_start v v1)|]. intros Hbyz. apply (db_quiet_trans D _ (vm_public v1)); [apply quiet_same, Hl1|].
  destruct (r.2) eqn:He; [apply quiet_same, (cp_undo _ _ _ _ Hcp); by rewrite He|]. rewrite Hnone by done.
  apply (db_quiet_trans D _ (vm_public v2)); [by apply Hq2|]. apply (db_quiet_trans D _ (vm_public v3)); [apply quiet_same, Hl3|].
  apply (db_quiet_trans D _ (vm_public v4)); [by apply Hq4|]. apply (rp_quiet _ _ _ _ _ Hpost). by rewrite Hbyz.
Qed.

(** ** Creations *)

(** [s'] is [s] but for the nonce of [a]. *)
Definition but_nonce (a : address) (s s' : StateDB) : Prop :=
  ∃ s0 s1, same_state D s0 s ∧ (s1 = s0 ∨ ∃ nonce, SetNonce a nonce s0 = Some ((), s1)) ∧ same_state D s' s1.
Record create_post (creator : address) v (gas : Z) (r : bytes * address * Z * err) v' : Prop := {
  cr_vm : vm_ok v'; cr_rel : vm_rel v v';
  cr_gas : 0 <= r.1.2 <= gas; cr_ret : small r.1.1.1; cr_addr : 0 <= r.1.1.2;
  cr_undo : IsHomestead (env_rules env) = true → r.2 ≠ None → but_nonce creator (vm_public v) (vm_public v')
}.
Lemma but_nonce_loads a s s' : loads D s s' → but_nonce a s s'.
Proof using Type. intros [Hs _]. exists s', s'. split; [done|]. split; [by left|]. by apply (same_state_wf_l D _ s). Qed.

(** Going back to the snapshot of a creation, or not. *)
Lemma vx_after_create creator v v0 id v1 v2 gas addr res v3 : vm_ok v0 → static v = false → 0 <= addr →
  vm_rel v v0 → but_nonce creator (vm_public v) (vm_public v0) →
  vm_rel v0 v1 → snap_of (vm_public v0) id (vm_public v1) → vm_rel v1 v2 → run_post false v2 gas res v3 → gas < 2 ^ 62 →
  wpx (after_create D env id addr res) (create_post creator v gas) v3.
Proof using HD.
  intros Hv0 Hst Ha Hr0 Hbn H01 Hsn H12 [Hv3 H23 _ Hg Hret] Hg62. destruct res as [[ret e] c]. cbn in Hg, Hret.
  pose proof (vm_rel_trans _ _ _ _ _ H12 H23) as H13. unfold after_create. set (big := _ && (MaxCodeSize <? blen ret)).
  apply (wpx_seq _ _ (λ p v4, vm_ok v4 ∧ vm_rel v1 v4 ∧ 0 <= c_Gas p.2 <= gas)).
  { destruct (bool_decide (e = None) && negb big); [|by x_step].
    unfold UseGas. pose proof (u64_range (blen ret * CreateDataGas)). destruct (Z.ltb_spec (c_Gas c) (u64 (blen ret * CreateDataGas))); [by x_step|].
    eapply (vx_StateDB _ (λ _ _, True)); [done| |].
    { rewrite (vm_rel_static _ _ _ _ H13), (vm_rel_static _ _ _ _ H01), (vm_rel_static _ _ _ _ Hr0), Hst.
      unfold small in Hret. apply wp_SetCode_good; [done|apply Hv3|unfold two63; lia]. }
    intros _ v4 Hv4 Hr4 _. x_step. split; [done|]. split; [by eapply vm_rel_trans|cbn; lia]. }
  intros [e' c'] v4 (Hv4 & H14 & Hg'). cbn in Hg'. pose proof (vm_rel_trans _ _ _ _ _ H01 H14) as H04.
  destruct (big || _) eqn:Hrev.
  - x_step. eapply wpx_seq.
    { apply wpx_wp. unfold wp. rewrite (on_StateDB_public _ _ (vo_ref _ _ Hv4)). by eapply (vx_revert v0 id v1). }
    intros _ v5 (Hv5 & Hr5 & Hss). x_steps. split; try done; [by eapply vm_rel_trans|cbn; case_match; lia|].
    intros _ _. destruct Hbn as (s0 & s1 & Hs0 & Hs1 & Hs2). exists s0, s1. split; [done|]. split; [done|]. by etrans.
  - x_steps. split; try done; [by eapply vm_rel_trans|]. intros Hh. cbn. apply orb_false_elim in Hrev as [-> Hrev]. cbn.
    rewrite Hh in Hrev. cbn in Hrev. rewrite andb_true_r in Hrev. apply negb_false_iff, bool_decide_eq_true_1 in Hrev. by subst.
Qed.

Lemma vx_create caller ch gas value addr isVault v : vm_ok v → caller_ok caller → 0 <= addr → small (ch_code ch) →
  (ch_hash ch = 0 ∨ Keccak256 (ch_code ch) = ch_hash ch) → 0 <= gas < n → gas < 2 ^ 62 → 0 <= value → static v = false →
  wpx (create D env interp caller ch gas value addr isVault) (create_post (ref_Address caller) v gas) v.
Proof.
  intros Hv Hca Ha Hcode Hch Hg Hg' Hval Hst. unfold create. x_step. set (a := ref_Address caller) in *.
  assert (∀ e v', vm_ok v' → vm_rel v v' → loads D (vm_public v) (vm_public v') → create_post a v gas ([], 0, gas, Some e) v') as Herr.
  { intros e v' Hv' Hr' Hl'. split; try done; [cbn; lia|]. intros _ _. by apply but_nonce_loads. }
  destruct (Z.ltb_spec CallCreateDepth (vm_depth v)) as [|Hd].
  { x_step. apply Herr; [done|by apply vm_rel_refl|apply loads_refl, dbgood_wf, Hv]. }
  unfold CallCreateDepth in Hd.
  eapply vx_StateDB; [done|apply wp_CanTransfer, Hv|]. intros can v1 Hv1 Hr1 [Hcan Hl1].
  destruct can; cbn [negb]; [specialize (Hcan eq_refl)|x_step; by apply Herr].
  assert (∀ v', creatorStateDb env v' = Some (PublicDB, v')) as Hcr.
  { intros v'. unfold creatorStateDb, mbind', mget, mret'. rewrite (eo_vault _ HE). by destruct (0 <? vm_depth v'). }
  apply (wpx_seq _ _ (λ db v', db = PublicDB ∧ v' = v1)); [apply wpx_wp; by apply (wp_of_run _ _ _ _ _ (Hcr v1))|]. intros db v' [-> ->]. cbv zeta.
  eapply vx_db; [done|apply rd_GetNonce, Hv1; exact HD|]. intros nonce v2 Hv2 Hr2 Hl2. pose proof (vm_rel_trans _ _ _ _ _ Hr1 Hr2) as H02.
  assert (∀ v', vm_rel v v' → static v' = false) as Hsta by (intros v' Hr'; by rewrite (vm_rel_static _ _ _ _ Hr')).
  set (nonce' := u64 (nonce + 1)). eapply (vx_db _ (λ _ s', (∀ b, bal s' b = bal (vm_public v2) b) ∧ SetNonce a nonce' (vm_public v2) = Some ((), s'))); [done| |].
  { rewrite Hsta by done. eapply wp_wand; [apply wp_eqn, (wp_SetNonce_good D HD), Hv2|]. intros [] s' [[Hs' Hb'] Hrun]. split; [done|]. by split. }
  intros [] v3 Hv3 Hr3 [Hb3 Hrun3]. pose proof (vm_rel_trans _ _ _ _ _ H02 Hr3) as H03.
  eapply (vx_StateDB _ (λ _ s', loads D (vm_public v3) s')); [done| |].
  { eapply wp_wand; [apply with_object_loads, dbgood_wf, Hv3|]. intros h s' [_ Hl]. split; [apply loads_dbrel; [apply Hv3|done]|done]. }
  intros h v4 Hv4 Hr4 Hl4. pose proof (vm_rel_trans _ _ _ _ _ H03 Hr4) as H04.
  eapply vx_StateDB; [done|apply rd_GetNonce, Hv4; exact HD|]. intros nn v5 Hv5 Hr5 Hl5. pose proof (vm_rel_trans _ _ _ _ _ H04 Hr5) as H05.
  pose proof (loads_trans D _ _ _ Hl4 Hl5) as Hl35.
  assert (but_nonce a (vm_public v) (vm_public v5)) as Hbn.
  { exists (vm_public v2), (vm_public v3). split; [apply (loads_trans D _ _ _ Hl1 Hl2)|]. split; [right; by eexists|]. apply Hl35. }
  case_match; [x_step; split; try done; cbn; lia|].
  eapply vx_StateDB; [done|apply wp_Snapshot_of, Hv5|]. intros id v6 Hv6 Hr6 [Hsn Hb6]. pose proof (vm_rel_trans _ _ _ _ _ H05 Hr6) as H06.
  eapply (vx_StateDB _ (λ _ s, ∀ b, bal s b = bal (vm_public v6) b)); [done|rewrite Hsta by done; apply wp_CreateAccount_good, Hv6; exact HD|]. intros _ v7 Hv7 Hr7 Hb7. pose proof (vm_rel_trans _ _ _ _ _ H06 Hr7) as H07.
  apply (wpx_seq _ _ (λ _ v8, vm_ok v8 ∧ vm_rel v7 v8 ∧ ∀ b, bal (vm_public v8) b = bal (vm_public v7) b)).
  { destruct (IsEIP158 (env_rules env)); [|x_step; split; [done|]; split; [by apply vm_rel_refl|done]].
    apply (vx_StateDB_end _ (λ _ s, ∀ b, bal s b = bal (vm_public v7) b)); [done|]. rewrite Hsta by done. apply wp_SetNonce_good; [done|apply Hv7]. }
  intros _ v8 (Hv8 & Hr8 & Hb8). pose proof (vm_rel_trans _ _ _ _ _ H07 Hr8) as H08.
  eapply wpx_seq; [apply (vx_transfer current_StateDB); [apply current_StateDB_public|done| |by rewrite Hsta]|].
  { rewrite Hb8, Hb7, Hb6, (loads_bal D _ _ _ Hl35), Hb3, (loads_bal D _ _ _ Hl2). fold a. lia. }
  intros e v9 (-> & Hv9 & Hr9). cbv iota. eapply wpx_seq; [apply wpx_wp; by apply new_jumpdests_ok|]. intros _ v10 (Hv10 & Hr10 & _). cbv zeta.
  assert (vm_rel v6 v10) as H610 by (eapply vm_rel_trans, Hr10; eapply vm_rel_trans, Hr9; by eapply vm_rel_trans).
  apply vx_norecursion. intros stop. destruct stop; [x_step; split; try done; [exact (vm_rel_trans _ _ _ _ _ H06 H610)|cbn; lia]|].
  set (c := SetCodeOptionalHash _ _ _). assert (contract_ok c) as Hc.
  { unfold small in Hcode. split; cbn; try done; [unfold two63; lia|tauto|lia|apply Hca]. }
  eapply wpx_seq; [apply wpx_run; [done| |done|cbn; lia|done]|].
  { eapply rel_depth; [exact H610|]. by eapply rel_depth. }
  intros res v11 Hpost. by eapply (vx_after_create a v v5 id v6 v10).
Qed.
Lemma vx_Create caller code gas value isVault v : vm_ok v → caller_ok caller → small code → 0 <= gas < n → gas < 2 ^ 62 → 0 <= value → static v = false →
  wpx (Create D env interp caller code gas value isVault) (create_post (ref_Address caller) v gas) v.
Proof.
  intros Hv Hca Hcode Hg Hg' Hval Hst. unfold Create.
  assert (creatorStateDb env v = Some (PublicDB, v)) as Hcr.
  { unfold creatorStateDb, mbind', mget, mret'. rewrite (eo_vault _ HE). by destruct (0 <? vm_depth v). }
  apply (wpx_seq _ _ (λ db v', db = PublicDB ∧ v' = v)); [apply wpx_wp; by apply (wp_of_run _ _ _ _ _ Hcr)|]. intros db v' [-> ->].
  eapply vx_db; [done|apply rd_GetNonce, Hv; exact HD|]. intros nonce v1 Hv1 Hr1 Hl1.
  eapply wpx_wand; [apply vx_create; try done; [|by left|by rewrite (vm_rel_static _ _ _ _ Hr1)]|].
  { unfold CreateAddress. case_match; by apply Z.mod_pos_bound. }
  intros r v2 []. split; try done; [by eapply vm_rel_trans|]. intros Hh Hne. destruct (cr_undo0 Hh Hne) as (s0 & s1 & H1 & H2 & H3).
  exists s0, s1. split; [|done]. etrans; [exact H1|apply Hl1].
Qed.
Lemma vx_Create2 caller code gas endowment salt isVault v : vm_ok v → caller_ok caller → small code → 0 <= gas < n → gas < 2 ^ 62 → 0 <= endowment → static v = false →
  wpx (Create2 D env interp caller code gas endowment salt isVault) (create_post (ref_Address caller) v gas) v.
Proof.
  intros Hv Hca Hcode Hg Hg' Hval Hst. unfold Create2. cbv zeta. unfold codeAndHash_Hash. cbn. apply vx_create; try done; [by apply Z.mod_pos_bound|by right].
Qed.
End calls.
