(* ===== verification/VmStep.v ===== *)
(** * One turn of the interpreter on a good frame

    [op_ok] is what the interpreter needs of an entry of the jump table: the
    bounds of the stack are those of the instruction, the memory function gives the
    memory it uses, the gas function pays for it, and the instruction does not panic
    and is not free.  [step_ok]: a turn on a good frame does not panic; it ends the run
    or leaves a good frame with less gas. *)

From Stdlib Require Import ZArith Lia.
From S2P Require Import Prelude Errors Rlp Fullnode Messages SmiloPay StateDB StateRevert StateTransition StateLaws VmWord VmWordLaws.
From S2P Require Import Vm VmAnalysis VmGas VmContracts VmEVM VmInstr VmInterp VmState VmPrecompiled VmInv VmGasLaws VmOps VmCalls.
Import VmGas.Params.
Open Scope didux_scope.

Section step.
Context `{!Crypto} `{!PrecompileLib} `{PL : !PrecompileLaws} (D : Database) (HD : db_ok D) (env : Env) (HE : env_ok env).
#[local] Set Default Proof Using "PL HD HE".
Implicit Types f : Frame.
Local Abbreviation vm_ok := (vm_ok D).
Local Abbreviation vm_rel := (vm_rel D env).
Local Abbreviation static := (static env).
Local Abbreviation frame_ok := (frame_ok D).
Local Abbreviation after := (after D env).
Local Abbreviation exec_plain := (exec_plain D env).
Local Abbreviation interp_ok := (interp_ok D env).

(** ** Entries of the jump table *)

Definition mem_spec (args : Z) (m : memorySizeFunc) (mpre : Frame → Prop) : Prop :=
  ∀ st, args <= Z.of_nat (length st) → ∃ r o, m st = Some (r, o) ∧
    (o = false → 0 <= r < two64 ∧ ∀ f, f_stack f = st → r <= mem_Len (f_mem f) → mpre f).

(** A [CALL] that is executed in a static call has no value. *)
Definition call_guard (op : Z) f : Prop :=
  op = #CALL → static (f_vm f) = true → ∀ x, f_stack f !! 2%nat = Some x → x = 0.

(** The instruction, after [k] and [cost] were paid. *)
Definition exec_spec (op : Z) (o : operation) (pops pushes k : Z) (mpre : Frame → Prop) (T : list Z → Z → VM → Prop) : Prop :=
  ∀ n interp isVault f cost, interp_ok n interp → frame_ok f →
  pops <= Z.of_nat (length (f_stack f)) → Z.of_nat (length (f_stack f)) - pops + pushes <= 1024 →
  f_pc f < blen (c_Code (f_contract f)) → mpre f → (writes o = true → static (f_vm f) = false) → call_guard op f → (dynamicGas o = None → fresh f) →
  T (f_stack f) cost (f_vm f) → 0 <= cost → c_Gas (f_contract f) + k + cost <= n → c_Gas (f_contract f) + k + cost < 2 ^ 62 →
  wpx (execute o interp isVault) (λ r f', after f f' ∧ small r.1 ∧
    0 <= c_Gas (f_contract f') <= c_Gas (f_contract f) + k + cost ∧
    (halts o || reverts o = false → c_Gas (f_contract f') < c_Gas (f_contract f) + k + cost)) f.

Record op_spec (op : Z) (o : operation) (pops pushes kmin : Z) (mpre : Frame → Prop) (T : list Z → Z → VM → Prop) : Prop := {
  os_pops : 0 <= pops; os_min : op_minStack o = pops; os_max : op_maxStack o = 1024 + pops - pushes;
  os_kmin : 0 <= kmin <= 1; os_const : kmin <= constantGas o;
  os_mem : match memorySize o with Some m => mem_spec pops m mpre | None => ∀ f, mpre f end;
  os_dyn : match dynamicGas o with
           | Some g => dyn_spec D env (Z.to_nat pops) T (λ size f, (memorySize o = None → size = 0) ∧ (writes o = true → static (f_vm f) = false)) g
           | None => memorySize o = None ∧ ∀ st v, T st 0 v
           end;
  os_exec k : kmin <= k → exec_spec op o pops pushes k mpre T
}.
Definition op_ok (op : Z) (o : operation) : Prop := valid o = true → ∃ pops pushes kmin mpre T, op_spec op o pops pushes kmin mpre T.

(** A new constant price. *)
Lemma op_ok_gas op gas o : 1 <= gas → op_ok op o → op_ok op (with_constantGas gas o).
Proof using Type.
  intros Hg Ho Hval. destruct (Ho Hval) as (pops & pushes & kmin & mpre & T & []). exists pops, pushes, kmin, mpre, T. split; try done. cbn. lia.
Qed.

(** *** Memory functions *)

Lemma memRegion_spec i j args : (Z.of_nat i < args) → (Z.of_nat j < args) → mem_spec args (memRegion i j) (has_region i j).
Proof using Type.
  intros Hi Hj st Hl. destruct (lookup_lt_is_Some_2 st i) as [x Hx]; [lia|]. destruct (lookup_lt_is_Some_2 st j) as [y Hy]; [lia|].
  unfold memRegion. rewrite Hx, Hy. cbn [mbind option_bind]. destruct (calcMemSize64 x y) as [r o] eqn:Hc. exists r, o. split; [done|].
  intros ->. apply calcMemSize64_spec in Hc as (Hy' & Hr & Hcase). split; [done|]. intros f <- Hle. exists x, y. split; [done|]. split; [done|].
  destruct Hcase as [[-> _]|(? & ? & ->)]; [by left|right; lia].
Qed.
Lemma memRegion2_spec i j k l args : Z.of_nat i < args → Z.of_nat j < args → Z.of_nat k < args → Z.of_nat l < args →
  mem_spec args (memRegion2 i j k l) (λ f, has_region i j f ∧ has_region k l f).
Proof using Type.
  intros Hi Hj Hk Hl st Hlen. destruct (memRegion_spec i j args Hi Hj st Hlen) as (r1 & o1 & H1 & P1).
  destruct (memRegion_spec k l args Hk Hl st Hlen) as (r2 & o2 & H2 & P2). unfold memRegion2. rewrite H1, H2. cbn [mbind option_bind].
  destruct o1; [by exists 0, true|]. destruct o2; [by exists 0, true|]. destruct (P1 eq_refl) as [R1 Q1]. destruct (P2 eq_refl) as [R2 Q2].
  destruct (Z.ltb_spec r2 r1); eexists _, false; (split; [done|]); intros _; (split; [done|]); intros f Hf Hle; (split; [apply Q1|apply Q2]); try done; lia.
Qed.
Lemma memBytes_spec b args (m : memorySizeFunc) : 0 < b < two64 → 0 < args → (∀ st, m st = o ← st !! 0%nat; Some (calcMemSize64WithUint o b)) →
  mem_spec args m (has_bytes b).
Proof using Type.
  intros Hb Ha Hm st Hl. rewrite Hm. destruct st as [|x st]; [cbn in Hl; lia|]. cbn [lookup list_lookup mbind option_bind].
  destruct (calcMemSize64WithUint x b) as [r o] eqn:Hc. exists r, o. split; [done|]. intros ->.
  apply calcMemSize64WithUint_spec in Hc as (Hr & Hcase); [|lia]. split; [done|]. intros f Hst Hle. exists x. rewrite Hst. split; [done|].
  destruct Hcase as [[-> _]|(? & ? & ->)]; [lia|right; lia].
Qed.

(** *** Instructions without calls *)

Lemma exec_of_plain op o pops pushes k (mpre pre : Frame → Prop) lo : exec_plain pops pushes pre (execute o) →
  (∀ f, mpre f → (writes o = true → static (f_vm f) = false) → (dynamicGas o = None → fresh f) → pre f) →
  0 <= k → (halts o || reverts o = false → 1 <= k + lo) → exec_spec op o pops pushes k mpre (at_least lo).
Proof using Type.
  intros He Hpre Hk Hfree n interp isVault f cost _ Hf Hlen Hmax Hpc Hm Hw _ Hfr Hlo Hc Hn Hn'. unfold at_least in Hlo.
  eapply wpx_wand; [apply He; [done..|by apply Hpre]|]. intros r f' (Ha & Hg & Hs). pose proof (co_gas _ (fo_contract _ _ Hf)).
  split; [done|]. split; [done|]. rewrite Hg. split; [lia|]. intros Hh. specialize (Hfree Hh). lia.
Qed.
Lemma op_plain op e gas pops pushes : exec_plain pops pushes no_pre e → 0 <= pops → 1 <= gas → op_ok op (op_ e gas pops pushes).
Proof using Type.
  intros He Hp Hg _. exists pops, pushes, 1, no_pre, (at_least 0). split; try done.
  intros k Hk. apply (exec_of_plain _ _ _ _ _ _ no_pre); [done|done|lia|lia].
Qed.
Lemma dyn_weaken args args' T (pre pre' : Z → Frame → Prop) g : (args <= args')%nat → (∀ size f, pre' size f → pre size f) →
  dyn_spec D env args T pre g → dyn_spec D env args' T pre' g.
Proof using Type. intros Ha Hp Hd f size Hf Hl Hs Hm Hpre. apply Hd; [done|lia|done|done|by apply Hp]. Qed.
Lemma op_priced op o pops pushes kmin lo (mpre pre : Frame → Prop) g args (dpre : Z → Frame → Prop) : 
  op_minStack o = pops → op_maxStack o = 1024 + pops - pushes → dynamicGas o = Some g →
  (args <= Z.to_nat pops)%nat → dyn_spec D env args (at_least lo) dpre g →
  (∀ size f, (memorySize o = None → size = 0) ∧ (writes o = true → static (f_vm f) = false) → dpre size f) →
  match memorySize o with Some m => mem_spec pops m mpre | None => ∀ f, mpre f end →
  exec_plain pops pushes pre (execute o) → (∀ f, mpre f → (writes o = true → static (f_vm f) = false) → pre f) →
  0 <= pops → 0 <= kmin <= 1 → kmin <= constantGas o → (halts o || reverts o = false → 1 <= kmin + lo) → op_ok op o.
Proof using Type.
  intros Hmin Hmax Hg Hargs Hdyn Hdp Hmem He Hpre Hp Hk Hc Hfree _. exists pops, pushes, kmin, mpre, (at_least lo). split; try done.
  - rewrite Hg. by eapply dyn_weaken.
  - intros k Hk'. apply (exec_of_plain _ _ _ _ _ _ pre); [done|intros; by apply Hpre|lia|]. intros Hh. specialize (Hfree Hh). lia.
Qed.

(** *** Calls and creations *)

Lemma wpx_by_contract {A B} (m : ContractRef → M VM A) (k : A → M Frame B) (Q : B → Frame → Prop) f :
  wpx (m (ContractPtr (f_contract f))) (λ a v, wpx (k a) Q (set_vm v f)) (f_vm f) → wpx (mbind' (by_contract m) k) Q f.
Proof using Type.
  intros Hw. unfold by_contract. x_step. apply wpx_contract. by apply wpx_on_vm.
Qed.
Lemma contract_caller c : contract_ok c → caller_ok (ContractPtr c).
Proof using Type. intros Hc. split; [apply Hc|done]. Qed.

(** The end of a call, in the frame whose stack has lost the arguments. *)
Lemma wpx_after_call f0 f retOff retSize ret returnGas e gas lim : frame_ok f0 → f_pc f0 < blen (c_Code (f_contract f0)) →
  (length (f_stack f) <= 1023)%nat → Forall (λ x, 0 <= x) (f_stack f) → f_pc f = f_pc f0 → f_mem f = f_mem f0 → f_contract f = f_contract f0 →
  vm_ok (f_vm f) → vm_rel (f_vm f0) (f_vm f) → region (mem_Len (f_mem f0)) retOff retSize → small ret → 0 <= returnGas <= gas →
  c_Gas (f_contract f0) + gas < lim → lim < 2 ^ 62 →
  wpx (after_call retOff retSize (ret, returnGas, e)) (λ r f', after f0 f' ∧ small r.1 ∧ 0 <= c_Gas (f_contract f') < lim) f.
Proof using Type.
  intros Hf0 Hpc Hlen Hst Hp Hm Hc Hv Hr Hreg Hret Hrg Hlim Hlim'. unfold after_call. set (x := if bool_decide (e = None) then 1 else 0).
  assert (0 <= x) by (unfold x; by case_match). unfold push. x_step.
  apply (wpx_seq _ _ (λ _ f2, ∃ m, mem_ok m ∧ f2 = set_mem m (set_stack (x :: f_stack f) f))).
  { destruct (_ || _).
    - destruct (mem_Set_ok retOff retSize ret (f_mem f0) (fo_mem _ _ Hf0) Hreg) as (m & Hset & Hmo & _). apply wpx_wp. unfold wp, on_mem, mbind', mget. cbn. rewrite Hm, Hset. by exists m.
    - x_step. exists (f_mem f). split; [rewrite Hm; apply Hf0|done]. }
  intros _ f2 (m & Hmo & ->). unfold refill. x_steps. cbn. rewrite Hc. pose proof (co_gas _ (fo_contract _ _ Hf0)).
  rewrite u64_small by (unfold two64; lia). split; [|split; [done|lia]]. destruct Hf0. split; cbn; rewrite ?Hc; try done.
  - by apply Forall_cons.
  - lia.
  - apply set_Gas_ok; [done|lia].
  - lia.
Qed.

(** The seven items of [CALL] and [CALLCODE]. *)
Lemma exec_with_value op o k (call : RunFun → ContractRef → address → bytes → Z → Z → bool → M VM (bytes * Z * err)) :
  execute o = with_value call → halts o || reverts o = false → 1 <= k →
  (∀ n interp c addr input gas value isVault v, interp_ok n interp → vm_ok v → room v → contract_ok c → 0 <= addr → small input →
     0 <= gas < n → gas < 2 ^ 62 → 0 <= value → (op = #CALL → static v = true → value = 0) →
     wpx (call interp (ContractPtr c) addr input gas value isVault) (call_post D env v gas) v) →
  exec_spec op o 7 1 k (λ f, has_region 5 6 f ∧ has_region 3 4 f) (for_call stack_value).
Proof using Type.
  intros He Hh Hk Hcall n interp isVault f cost HI Hf Hlen Hmax Hpc [Hret Hin] _ Hguard _ (base & Hcost & Htemp & Hbase & Hval) Hc0 Hn Hn'.
  rewrite He. pose proof (fo_stack _ _ Hf) as Hall. unfold stack_value in Hval. unfold call_guard in Hguard. destruct Hret as (ro & rs & Hro & Hrs & Hreg). destruct Hin as (io & is_ & Hio & His & Hregi).
  destruct (f_stack f) as [|x0 [|x1 [|x2 [|x3 [|x4 [|x5 [|x6 st]]]]]]] eqn:Hst; cbn [length] in Hlen, Hmax; try lia.
  cbn in Hro, Hrs, Hio, His, Hval. injection Hro as <-. injection Hrs as <-. injection Hio as <-. injection His as <-.
  rewrite !Forall_cons in Hall. destruct Hall as (? & ? & Hx2 & ? & ? & ? & ? & Hall). pose proof (fo_contract _ _ Hf) as Hco. pose proof (co_gas _ Hco) as Hcg.
  unfold with_value. eapply wpx_pop; [exact Hst|]. x_step. cbv zeta. do 6 (eapply wpx_pop; [reflexivity|]; cbv beta). x_step.
  apply wpx_Get; [apply Hf|done|]. intros args _ Hargs. set (temp := vm_callGasTemp (f_vm f)) in *. cbn [f_vm set_stack]. fold temp.
  set (gas := if negb (Z.sgn (U256 x2) =? 0) then u64 (temp + CallStipend) else temp).
  assert (0 <= gas ∧ c_Gas (f_contract f) + gas < c_Gas (f_contract f) + k + cost) as [Hg0 Hg1].
  { unfold gas. rewrite sgn_eqb. destruct (Z.eqb_spec (U256 x2) 0) as [|Hne]; cbn [negb]; [lia|].
    assert (x2 ≠ 0) as Hx by (intros ->; done). apply Z.eqb_neq in Hx. rewrite Hx in Hval. specialize (Hval eq_refl). unfold CallValueTransferGas, CallStipend in *.
    rewrite u64_small by (unfold two64; lia). lia. }
  apply wpx_by_contract. cbn [f_contract f_vm set_stack].
  eapply wpx_wand; [apply (Hcall n); [done|apply Hf|apply Hf|done|by apply Z.mod_pos_bound|done|lia|lia|apply U256_word|]|].
  { intros Hop Hs. rewrite (Hguard Hop Hs x2) by done. done. }
  intros [[ret rg] e] v' [Hv' Hr' Hg' Hret' _]. cbn in Hg', Hret'.
  eapply wpx_wand; [eapply (wpx_after_call f); try done; cbn; lia|].
  intros r f' (Ha & Hs & Hgas). split; [done|]. split; [done|]. split; [lia|]. intros _. lia.
Qed.
Lemma exec_without_value op o k (call : RunFun → ContractRef → address → bytes → Z → bool → M VM (bytes * Z * err)) :
  execute o = without_value call → halts o || reverts o = false → 1 <= k →
  (∀ n interp c addr input gas isVault v, interp_ok n interp → vm_ok v → room v → contract_ok c → 0 <= addr → small input →
     0 <= gas < n → gas < 2 ^ 62 →
     wpx (call interp (ContractPtr c) addr input gas isVault) (call_post D env v gas) v) →
  exec_spec op o 6 1 k (λ f, has_region 4 5 f ∧ has_region 2 3 f) (for_call no_value).
Proof using Type.
  intros He Hh Hk Hcall n interp isVault f cost HI Hf Hlen Hmax Hpc [Hret Hin] _ Hguard _ (base & Hcost & Htemp & Hbase & _) Hc0 Hn Hn'.
  rewrite He. pose proof (fo_stack _ _ Hf) as Hall. destruct Hret as (ro & rs & Hro & Hrs & Hreg). destruct Hin as (io & is_ & Hio & His & Hregi).
  destruct (f_stack f) as [|x0 [|x1 [|x2 [|x3 [|x4 [|x5 st]]]]]] eqn:Hst; cbn [length] in Hlen, Hmax; try lia.
  cbn in Hro, Hrs, Hio, His. injection Hro as <-. injection Hrs as <-. injection Hio as <-. injection His as <-.
  rewrite !Forall_cons in Hall. destruct Hall as (? & ? & Hx2 & ? & ? & ? & Hall). pose proof (fo_contract _ _ Hf) as Hco. pose proof (co_gas _ Hco) as Hcg.
  unfold without_value. eapply wpx_pop; [exact Hst|]. x_step. cbv zeta. do 5 (eapply wpx_pop; [reflexivity|]; cbv beta). x_step.
  apply wpx_Get; [apply Hf|done|]. intros args _ Hargs. set (temp := vm_callGasTemp (f_vm f)) in *. cbn [f_vm set_stack]. fold temp.
  apply wpx_by_contract. cbn [f_contract f_vm set_stack].
  eapply wpx_wand; [apply (Hcall n); [done|apply Hf|apply Hf|done|by apply Z.mod_pos_bound|done|lia|lia]|].
  intros [[ret rg] e] v' [Hv' Hr' Hg' Hret' _]. cbn in Hg', Hret'.
  eapply wpx_wand; [eapply (wpx_after_call f _ _ _ _ _ _ _ (c_Gas (f_contract f) + k + cost)); try done; cbn; lia|].
  intros r f' (Ha & Hs & Hgas). split; [done|]. split; [done|]. split; [lia|]. intros _. lia.
Qed.

(** The gas of a creation comes back at most. *)
Lemma wpx_create_gas {A} gas (mk : ContractRef → M VM (bytes * address * Z * err)) (k : bytes * address * Z * err → M Frame A) (Q : A → Frame → Prop) f creator :
  0 <= gas <= c_Gas (f_contract f) →
  (contract_ok (set_Gas (c_Gas (f_contract f) - gas) (f_contract f)) →
    wpx (mk (ContractPtr (set_Gas (c_Gas (f_contract f) - gas) (f_contract f)))) (create_post D env creator (f_vm f) gas) (f_vm f)) →
  contract_ok (f_contract f) →
  (∀ r v, create_post D env creator (f_vm f) gas r v →
    wpx (k r) Q (set_vm v (set_contract (set_Gas (c_Gas (f_contract f) - gas) (f_contract f)) f))) →
  wpx (do! charge gas in let! r := by_contract mk in k r) Q f.
Proof using Type.
  intros Hg Hmk Hc Hk. unfold charge. x_step. pose proof (co_gas _ Hc).
  assert (UseGas gas (f_contract f) = Some (set_Gas (c_Gas (f_contract f) - gas) (f_contract f))) as ->.
  { unfold UseGas. by destruct (Z.ltb_spec (c_Gas (f_contract f)) gas); [lia|]. }
  cbn [default]. apply wpx_by_contract. cbn [f_contract f_vm set_contract]. eapply wpx_wand; [apply Hmk; apply set_Gas_ok; [done|lia]|].
  intros r v Hp. by apply Hk.
Qed.
(** What follows it: the address or zero on the stack, and the gas. *)
Lemma after_create_ok f st addr v gas rg k cost : frame_ok f → f_pc f < blen (c_Code (f_contract f)) → Forall (λ x, 0 <= x) st → (length st <= 1023)%nat → 0 <= addr →
  vm_ok v → vm_rel (f_vm f) v → 0 <= rg <= gas → gas <= c_Gas (f_contract f) → 1 <= k → 0 <= cost →
  let c := set_Gas (u64 (c_Gas (f_contract f) - gas + rg)) (set_Gas (c_Gas (f_contract f) - gas) (f_contract f)) in
  after f (MkFrame (f_pc f) (addr :: st) (f_mem f) c v) ∧ 0 <= c_Gas c < c_Gas (f_contract f) + k + cost.
Proof using Type.
  intros Hf Hpc Hst Hlen Ha Hv Hr Hrg Hgas Hk Hc c. pose proof (fo_contract _ _ Hf) as Hco. pose proof (co_gas _ Hco).
  unfold c. cbn. rewrite u64_small by (unfold two64; lia). split; [|lia]. destruct Hf. split; cbn; try done; [by apply Forall_cons|lia| |lia].
  apply set_Gas_ok; [apply set_Gas_ok; [done|lia]|lia].
Qed.
Lemma exec_create op o k : execute o = opCreate D env → writes o = true → halts o || reverts o = false → 1 <= k →
  exec_spec op o 3 1 k (has_region 1 2) (at_least 0).
Proof.
  intros He Hw Hh Hk n interp isVault f cost HI Hf Hlen Hmax Hpc (off & size & Hoff & Hsize & Hreg) Hst _ _ _ Hc0 Hn Hn'. specialize (Hst Hw).
  rewrite He. pose proof (fo_stack _ _ Hf) as Hall. pose proof (fo_contract _ _ Hf) as Hco. pose proof (co_gas _ Hco) as Hcg.
  destruct (f_stack f) as [|x0 [|x1 [|x2 st]]] eqn:Hstk; cbn [length] in Hlen, Hmax; try lia. cbn in Hoff, Hsize. injection Hoff as <-. injection Hsize as <-.
  rewrite !Forall_cons in Hall. destruct Hall as (? & ? & ? & Hall).
  unfold opCreate. eapply wpx_pop; [exact Hstk|]. do 2 (eapply wpx_pop; [reflexivity|]; cbv beta). x_step. apply wpx_Get; [apply Hf|done|]. intros input _ Hin.
  cbv zeta. cbn [f_contract set_stack]. set (gas := if IsEIP150 (env_rules env) then _ else _).
  assert (0 <= gas <= c_Gas (f_contract f)) as Hgas.
  { unfold gas. pose proof (Z.div_pos (c_Gas (f_contract f)) 64). pose proof (Z.div_le_upper_bound (c_Gas (f_contract f)) 64 (c_Gas (f_contract f))). case_match; lia. }
  eapply (wpx_create_gas gas _ _ _ (set_stack st (set_stack (x2 :: st) (set_stack (x1 :: x2 :: st) f)))); [done| |done|].
  { intros Hcc. eapply vx_Create; try done; [apply Hf|by apply contract_caller|lia|lia]. }
  intros [[[res addr] rg] suberr] v []. cbn in *.
  apply (wpx_seq _ _ (λ _ f2, ∃ a, 0 <= a ∧ f2 = MkFrame (f_pc f) (a :: st) (f_mem f) (set_Gas (c_Gas (f_contract f) - gas) (f_contract f)) v)).
  { unfold push. repeat case_match; apply wpx_wp; (eexists; split; [|reflexivity]; done). }
  intros _ f2 (a & Ha & ->). unfold refill. x_steps. cbn.
  destruct (after_create_ok f st a v gas rg k cost) as [Haf [Hl Hu]]; [done..|lia|done|done|done|done|lia|done|done|]. cbn in Hl, Hu.
  split; [done|]. split; [by destruct (bool_decide _)|]. split; [lia|]. intros _. exact Hu.
Qed.
Lemma exec_create2 op o k : execute o = opCreate2 D env → writes o = true → halts o || reverts o = false → 1 <= k →
  exec_spec op o 4 1 k (has_region 1 2) (at_least 0).
Proof.
  intros He Hw Hh Hk n interp isVault f cost HI Hf Hlen Hmax Hpc (off & size & Hoff & Hsize & Hreg) Hst _ _ _ Hc0 Hn Hn'. specialize (Hst Hw).
  rewrite He. pose proof (fo_stack _ _ Hf) as Hall. pose proof (fo_contract _ _ Hf) as Hco. pose proof (co_gas _ Hco) as Hcg.
  destruct (f_stack f) as [|x0 [|x1 [|x2 [|x3 st]]]] eqn:Hstk; cbn [length] in Hlen, Hmax; try lia. cbn in Hoff, Hsize. injection Hoff as <-. injection Hsize as <-.
  rewrite !Forall_cons in Hall. destruct Hall as (? & ? & ? & ? & Hall).
  unfold opCreate2. eapply wpx_pop; [exact Hstk|]. do 3 (eapply wpx_pop; [reflexivity|]; cbv beta). x_step. apply wpx_Get; [apply Hf|done|]. intros input _ Hin.
  cbv zeta. cbn [f_contract set_stack]. set (gas := c_Gas (f_contract f) - c_Gas (f_contract f) / 64).
  assert (0 <= gas <= c_Gas (f_contract f)) as Hgas.
  { unfold gas. pose proof (Z.div_pos (c_Gas (f_contract f)) 64). pose proof (Z.div_le_upper_bound (c_Gas (f_contract f)) 64 (c_Gas (f_contract f))). lia. }
  eapply (wpx_create_gas gas _ _ _ (set_stack st (set_stack (x3 :: st) (set_stack (x2 :: x3 :: st) (set_stack (x1 :: x2 :: x3 :: st) f))))); [done| |done|].
  { intros Hcc. eapply vx_Create2; try done; [apply Hf|by apply contract_caller|lia|lia]. }
  intros [[[res addr] rg] suberr] v []. cbn in *.
  apply (wpx_seq _ _ (λ _ f2, ∃ a, 0 <= a ∧ f2 = MkFrame (f_pc f) (a :: st) (f_mem f) (set_Gas (c_Gas (f_contract f) - gas) (f_contract f)) v)).
  { unfold push. repeat case_match; apply wpx_wp; (eexists; split; [|reflexivity]; done). }
  intros _ f2 (a & Ha & ->). unfold refill. x_steps. cbn.
  destruct (after_create_ok f st a v gas rg k cost) as [Haf [Hl Hu]]; [done..|lia|done|done|done|done|lia|done|done|]. cbn in Hl, Hu.
  split; [done|]. split; [by destruct (bool_decide _)|]. split; [lia|]. intros _. exact Hu.
Qed.
End step.
