(* ===== verification/VmRun.v ===== *)
(** * Runs of the interpreter

    Every entry of every jump table is right ([table_ok]); a turn makes progress
    ([step_ok]); with one unit of fuel more than gas the loop returns ([loop_ok]), and
    so does [Run], which discharges the assumption of VmCalls about the interpreter.
    The exception are runs in which the cache of jump destinations, keyed by code
    hash, holds the analysis of another code ([stale_run]). *)

From Stdlib Require Import ZArith Lia ClassicalEpsilon FunctionalExtensionality.
From S2P Require Import Prelude Errors Rlp Fullnode Messages SmiloPay StateDB StateRevert StateTransition StateLaws VmWord VmWordLaws.
From S2P Require Import Vm VmAnalysis VmGas VmContracts VmEVM VmInstr VmInterp VmState VmPrecompiled VmInv VmGasLaws VmOps VmCalls VmStep.
Import VmGas.Params.
Open Scope didux_scope.

Section run.
Context `{!Crypto} `{!PrecompileLib} `{PL : !PrecompileLaws} (D : Database) (HD : db_ok D) (env : Env) (HE : env_ok env).
#[local] Set Default Proof Using "PL HD HE".
Implicit Types f : Frame.
Local Abbreviation vm_ok := (vm_ok D).
Local Abbreviation vm_rel := (vm_rel D env).
Local Abbreviation static := (static env).
Local Abbreviation frame_ok := (frame_ok D).
Local Abbreviation interp_ok := (interp_ok D env).
Local Abbreviation op_ok := (op_ok D env).

(** ** The turn *)

Record step_post f (r : option (bytes * err)) f' : Prop := {
  sp_vm : vm_ok (f_vm f'); sp_rel : vm_rel (f_vm f) (f_vm f');
  sp_gas : 0 <= c_Gas (f_contract f') <= c_Gas (f_contract f);
  sp_next : match r with None => frame_ok f' ∧ c_Gas (f_contract f') < c_Gas (f_contract f) | Some (ret, _) => small ret end
}.
Lemma step_stop f e : frame_ok f → step_post f (Some ([], Some e)) f.
Proof using Type.
  intros Hf. pose proof (co_gas _ (fo_contract _ _ Hf)). split; [apply Hf|apply vm_rel_refl, Hf|lia|done].
Qed.

Lemma wpx_use_gas {B} gas (k : bool → M Frame B) (Q : B → Frame → Prop) f : 0 <= gas →
  (gas <= c_Gas (f_contract f) → wpx (k true) Q (set_contract (set_Gas (c_Gas (f_contract f) - gas) (f_contract f)) f)) →
  wpx (k false) Q f → wpx (mbind' (use_gas gas) k) Q f.
Proof using Type.
  intros Hg Ht Hf. unfold use_gas. x_steps. unfold UseGas. destruct (Z.ltb_spec (c_Gas (f_contract f)) gas); x_steps; [done|]. by apply Ht.
Qed.

(** The memory that an operation asks for. *)
Lemma wpx_step_memory {B} (o : operation) pops mpre (k : option Z → M Frame B) (Q : B → Frame → Prop) f :
  match memorySize o with Some m => mem_spec pops m mpre | None => ∀ f, mpre f end → pops <= Z.of_nat (length (f_stack f)) →
  wpx (k None) Q f →
  (∀ size, 0 <= size < two64 → size mod 32 = 0 → (memorySize o = None → size = 0) →
    (∀ f', f_stack f' = f_stack f → size <= mem_Len (f_mem f') → mpre f') → wpx (k (Some size)) Q f) →
  wpx (mbind' (step_memory o) k) Q f.
Proof using Type.
  intros Hm Hl Hn Hs. unfold step_memory. destruct (memorySize o) as [m|] eqn:Hmem; [|x_step; apply Hs; try done; by intros f' _ _].
  destruct (Hm (f_stack f) Hl) as (r & ov & Hr & Hok). x_steps. rewrite Hr. x_step. destruct ov; [by x_step|]. destruct (Hok eq_refl) as [Hrange Hpre].
  destruct (SafeMul (toWordSize r) 32) as [size ov] eqn:Hmul. x_step. destruct ov; [done|].
  pose proof (toWordSize_spec r Hrange). pose proof (toWordSize_range r Hrange). apply SafeMul_spec in Hmul as [Hsz Hsr]; [|unfold two64; lia|done].
  apply Hs; [done|rewrite Hsz; by apply Z.mod_mul|done|]. intros f' Hf' Hle. apply Hpre; [done|lia].
Qed.

(** The price that depends on the arguments. *)
Lemma wpx_dynamic {B} (o : operation) pops T size (k : bool → M Frame B) (Q : B → Frame → Prop) f :
  match dynamicGas o with
  | Some g => dyn_spec D env (Z.to_nat pops) T (λ size f, (memorySize o = None → size = 0) ∧ (writes o = true → static (f_vm f) = false)) g
  | None => memorySize o = None ∧ ∀ st v, T st 0 v
  end → frame_ok f → pops <= Z.of_nat (length (f_stack f)) → 0 <= size < two64 → size mod 32 = 0 → (memorySize o = None → size = 0) →
  (writes o = true → static (f_vm f) = false) →
  (∀ cost f', 0 <= cost <= c_Gas (f_contract f) → grown D env size f f' → (dynamicGas o = None → f_vm f' = f_vm f) → T (f_stack f) cost (f_vm f') →
    wpx (k true) Q (set_contract (set_Gas (c_Gas (f_contract f) - cost) (f_contract f)) f')) →
  (∀ f', failed D env f f' → wpx (k false) Q f') →
  wpx (mbind' match dynamicGas o with
              | None => mret' true
              | Some g => let! cost := g size in match cost with inl cost => use_gas cost | inr _ => mret' false end
              end k) Q f.
Proof using Type.
  intros Hd Hf Hl Hs Hm Hz Hw Ht Hfail. destruct (dynamicGas o) as [g|].
  - x_step. eapply wpx_seq; [apply Hd; [done|lia|done|done|done]|]. intros [cost|e] f'; [|intros Hfa; x_step; by apply Hfail].
    intros (Hc & Hg & HT). apply wpx_use_gas; [lia| |by eapply Hfail, grown_failed]. rewrite (gr_contract _ _ _ _ _ Hg). intros Hle. apply Ht; [lia|done|done|done].
  - x_step. destruct Hd as [Hmem HT]. rewrite (Hz Hmem) in *. pose proof (co_gas _ (fo_contract _ _ Hf)).
    pose proof (Ht 0 f ltac:(lia) (grown_refl D env f Hf) (λ _, eq_refl) (HT _ _)) as Hk. rewrite Z.sub_0_r in Hk.
    by replace (set_contract (set_Gas (c_Gas (f_contract f)) (f_contract f)) f) with f in Hk by (by destruct f as [? ? ? [] ?]).
Qed.

(** What follows the instruction. *)
Lemma wpx_step_execute o interp ro f lim : frame_ok f →
  wpx (execute o interp ro) (λ r f', after D env f f' ∧ small r.1 ∧ 0 <= c_Gas (f_contract f') <= lim ∧
    (halts o || reverts o = false → c_Gas (f_contract f') < lim)) f →
  wpx (step_execute interp ro o) (λ r f', vm_ok (f_vm f') ∧ vm_rel (f_vm f) (f_vm f') ∧ 0 <= c_Gas (f_contract f') <= lim ∧
    match r with None => frame_ok f' ∧ c_Gas (f_contract f') < lim | Some (ret, _) => small ret end) f.
Proof using Type.
  intros Hf He. unfold step_execute. eapply wpx_seq; [exact He|]. intros [res e] f1 (Ha & Hs & Hg & Hlt). cbn in Hs.
  apply (wpx_seq _ _ (λ _ f2, after D env f f2 ∧ c_Gas (f_contract f2) = c_Gas (f_contract f1))).
  { destruct (returns o); [|by x_step]. apply wpx_wp. unfold wp, on_vm, mmod. split; [|done]. destruct Ha. split; cbn; try done; [by destruct af_vm|by destruct af_rel]. }
  intros _ f2 [Ha2 Hg2]. destruct e as [e|].
  { unfold stop_with. x_step. rewrite Hg2. split; [apply Ha2|]. split; [apply Ha2|]. split; [lia|done]. }
  destruct (reverts o) eqn:Hrev; [x_step; rewrite Hg2; split; [apply Ha2|]; split; [apply Ha2|]; by split|].
  destruct (halts o) eqn:Hh; [x_step; rewrite Hg2; split; [apply Ha2|]; split; [apply Ha2|]; by split|]. specialize (Hlt eq_refl).
  pose proof (after_ok D env f f2 Hf Ha2) as Hok2. pose proof (co_code _ (fo_contract _ _ Hok2)) as Hcode. pose proof (af_pc _ _ _ _ Ha2) as Hpc. rewrite <-(af_code _ _ _ _ Ha2) in Hpc.
  destruct (jumps o); x_steps; cbn; rewrite Hg2; (split; [apply Ha2|]); (split; [apply Ha2|]); (split; [done|]); (split; [|done]); [done|].
  destruct Hok2. split; cbn; try done. rewrite u64_small by (unfold two63, two64 in *; lia). lia.
Qed.

Lemma step_body_ok op o n interp ro f : op_ok op o → valid o = true → interp_ok n interp → frame_ok f → c_Gas (f_contract f) <= n →
  op_minStack o <= Z.of_nat (length (f_stack f)) <= op_maxStack o → f_pc f < blen (c_Code (f_contract f)) →
  (writes o = true → static (f_vm f) = false) → call_guard env op f → fresh f →
  wpx (step_body interp ro o) (step_post f) f.
Proof using Type.
  intros Ho Hval HI Hf Hn Hst Hpc Hw Hguard Hfresh. destruct (Ho Hval) as (pops & pushes & kmin & mpre & T & [Hp Hmin Hmax Hk Hc Hmem Hdyn Hex]).
  rewrite Hmin, Hmax in Hst. pose proof (fo_contract _ _ Hf) as Hco. pose proof (co_gas _ Hco) as Hcg. unfold step_body.
  apply wpx_use_gas; [lia| |cbn [negb]; unfold stop_with; x_step; by apply step_stop]. intros Hle. cbn [negb].
  set (f1 := set_contract _ f). assert (frame_ok f1) as Hf1 by (destruct Hf; split; try done; apply set_Gas_ok; [done|lia]).
  assert (∀ f', failed D env f1 f' → ∀ e, step_post f (Some ([], Some e)) f') as Hstop.
  { intros f' [Hfc Hfv Hfr] e. split; [done|done| |done]. rewrite Hfc. cbn. lia. }
  eapply (wpx_step_memory o pops mpre); [done|cbn; lia| |].
  { unfold stop_with. x_step. apply Hstop, failed_refl, Hf1. }
  intros size Hs Hs32 Hs0 Hpre. eapply (wpx_dynamic o pops T size); [done|done|cbn; lia|done|done|done|done| |].
  2:{ intros f' Hfa. cbn [negb]. unfold stop_with. x_step. by apply Hstop. }
  intros cost f2 Hcost Hgr Hsame HT. cbn [negb]. cbn in Hcost. destruct Hgr as [Gpc Gst Gc Gv Gr Gm]. cbn in Gpc, Gst, Gr.
  set (c3 := set_Gas (c_Gas (f_contract f1) - cost) (f_contract f1)). set (mem3 := mem_Resize size (f_mem f2)) in *.
  set (f3 := MkFrame (f_pc f) (f_stack f) mem3 c3 (f_vm f2)).
  assert (frame_ok f3) as Hf3.
  { destruct Hf. split; cbn; try done; [apply set_Gas_ok; [apply set_Gas_ok; [done|lia]|cbn; lia]|]. unfold room. by rewrite (vr_csd _ _ _ _ Gr), (vr_depth _ _ _ _ Gr). }
  apply (wpx_seq _ _ (λ _ f', f' = f3)).
  { assert (∀ m, set_mem m (set_contract c3 f2) = MkFrame (f_pc f) (f_stack f) m c3 (f_vm f2)) as Heq by (intros m; unfold set_mem, set_contract; cbn; by rewrite Gpc, Gst).
    destruct (Z.ltb_spec 0 size); [apply wpx_wp; unfold wp, mmod; by rewrite Heq|]. apply wpx_wp. unfold wp, mret', f3, mem3. assert (size = 0) as -> by lia.
    rewrite <-Heq. unfold set_mem, set_contract. cbn. f_equal. unfold mem_Resize. pose proof (blen_nonneg (m_store (f_mem f2))) as Hnn. fold (mem_Len (f_mem f2)) in Hnn.
    by destruct (Z.ltb_spec (mem_Len (f_mem f2)) 0); [lia|]. }
  intros _ f' ->. eapply wpx_wand.
  { eapply (wpx_step_execute o interp ro f3 (c_Gas c3 + constantGas o + cost)); [done|]. apply (Hex (constantGas o) Hc n); try done; cbn; try lia.
    - apply Hpre; [done|]. cbn. unfold mem3. rewrite mem_Resize_Len. lia.
    - intros Hwr. rewrite (vm_rel_static _ _ _ _ Gr). by apply Hw.
    - intros Hop Hsta. cbn in Hsta. rewrite (vm_rel_static _ _ _ _ Gr) in Hsta. by apply Hguard.
    - intros Hnone. unfold fresh. cbn. rewrite (Hsame Hnone). exact Hfresh. }
  intros r f' (Hv' & Hr' & Hg' & Hnext). cbn in Hr', Hg', Hnext. split; [done|by eapply vm_rel_trans|lia|].
  destruct r as [[ret e]|]; [done|]. split; [apply Hnext|]. lia.
Qed.

(** ** The loop *)

Record table_ok (jt : JumpTable) : Prop := {
  tb_ops op o : jt !! op = Some o → op_ok op o;
  tb_stop : jt !! #STOP = Some (halting (op_ opStop 0 0 0));
  tb_call : ∃ o, jt !! #CALL = Some o ∧ 3 <= op_minStack o
}.
Context (jt : JumpTable) (HT : table_ok jt).
#[local] Set Default Proof Using "PL HD HE HT".

(** The code has ended. *)
Lemma step_body_stop interp ro f : frame_ok f → wpx (step_body interp ro (halting (op_ opStop 0 0 0))) (step_post f) f.
Proof using Type.
  intros Hf. pose proof (co_gas _ (fo_contract _ _ Hf)) as Hg. unfold step_body. apply wpx_use_gas; [done|intros _|cbn in *; unfold stop_with; x_step; by apply step_stop].
  cbn. unfold step_memory, step_execute, opStop, done_. cbn. x_steps. cbn. x_steps. split; [apply Hf|apply vm_rel_refl, Hf|cbn; lia|done].
Qed.
Lemma GetOp_end c pc : blen (c_Code c) <= pc → GetOp c pc = #STOP.
Proof using Type. intros Hle. unfold GetOp, GetByte. by destruct (Z.ltb_spec pc (blen (c_Code c))); [lia|]. Qed.

Lemma step_ok n interp ro f : interp_ok n interp → frame_ok f → fresh f → c_Gas (f_contract f) <= n → wpx (step env jt interp ro) (step_post f) f.
Proof.
  intros HI Hf Hfresh Hn. unfold step. x_step. rewrite (vo_ro _ _ (fo_vm _ _ Hf)), andb_false_r. cbn [andb]. unfold stop_with.
  set (op := GetOp (f_contract f) (f_pc f)). destruct (jt !! op) as [o|] eqn:Hop; [change (default no_operation (Some o)) with o|cbn; x_step; by apply step_stop].
  destruct (valid o) eqn:Hval; cbn [negb]; [|x_step; by apply step_stop].
  destruct (Z.ltb_spec (Z.of_nat (length (f_stack f))) (op_minStack o)); [x_step; by apply step_stop|].
  destruct (Z.ltb_spec (op_maxStack o) (Z.of_nat (length (f_stack f)))); [x_step; by apply step_stop|].
  apply (wpx_seq _ _ (λ b f', f' = f ∧ (b = false → (writes o = true → static (f_vm f) = false) ∧ call_guard env op f))).
  - change (vm_readOnly (f_vm f) && IsByzantium (env_rules env)) with (static (f_vm f)). unfold call_guard. destruct (static (f_vm f)) eqn:Hs; [|by x_step].
    destruct (writes o); [by x_step|]. destruct (Z.eqb_spec op #CALL) as [Heq|Hne]; [|x_step; split; [done|]; by intros _].
    rewrite Heq in Hop. destruct (tb_call _ HT) as (o' & Hop' & Hmin). rewrite Hop in Hop'. injection Hop' as <-. destruct (lookup_lt_is_Some_2 (f_stack f) 2) as [x Hx]; [lia|].
    apply (wpx_Back 2 x); [done|]. x_step. split; [done|]. intros Hz%negb_false_iff. rewrite sgn_eqb in Hz. apply Z.eqb_eq in Hz. split; [done|].
    intros _ _ y Hy. rewrite Hx in Hy. injection Hy as <-. exact Hz.
  - intros b f' [-> Hb]. destruct b; [x_step; by apply step_stop|]. destruct (Hb eq_refl) as [Hw Hguard].
    destruct (Z.lt_ge_cases (f_pc f) (blen (c_Code (f_contract f)))) as [Hpc|Hpc].
    + eapply (step_body_ok op o n); try done. by apply (tb_ops _ HT).
    + unfold op in Hop. rewrite GetOp_end, (tb_stop _ HT) in Hop by done. injection Hop as <-. by apply step_body_stop.
Qed.

Record loop_post f (r : bytes * err) f' : Prop := {
  lp_vm : vm_ok (f_vm f'); lp_rel : vm_rel (f_vm f) (f_vm f');
  lp_gas : 0 <= c_Gas (f_contract f') <= c_Gas (f_contract f); lp_ret : small r.1
}.
Lemma dbrel_mono ro ro' s s' : (ro' = true → ro = true) → dbrel D ro s s' → dbrel D ro' s s'.
Proof using Type. intros Hro []. split; [done|done|]. eauto. Qed.

(** The frame that [Run] starts with. *)
Definition start_frame (c : Contract) (input : bytes) (ro : bool) (v : VM) : Frame :=
  MkFrame 0 [] NewMemory (set_Input input c) (set_returnData [] (set_readOnly (vm_readOnly v || ro) (set_depth (vm_depth v + 1) v))).
Lemma start_frame_ok c input ro v : vm_ok v → vm_depth v <= 1024 → contract_ok c → small input → frame_ok (start_frame c input ro v).
Proof using Type.
  intros Hv Hd Hc Hin. pose proof (vo_depth _ _ Hv) as Hdep. pose proof (vo_csd _ _ Hv) as Hcsd. pose proof (blen_nonneg (c_Code c)).
  split; cbn; [by apply Forall_nil|lia|apply NewMemory_ok| | |unfold room; cbn; lia|lia]; [destruct Hc; by split|].
  destruct Hv; split; cbn; try done; lia.
Qed.

Lemma Run_with_ok (lp : M Frame (bytes * err)) c input ro v : vm_ok v → vm_depth v <= 1024 → contract_ok c → small input →
  (c_Code c ≠ [] → wpx lp (loop_post (start_frame c input ro v)) (start_frame c input ro v)) →
  wpx (Run_with lp c input ro) (run_post D env ro v (c_Gas c)) v.
Proof using Type.
  intros Hv Hd Hc Hin Hlp. pose proof (start_frame_ok c input ro v Hv Hd Hc Hin) as Hf0. unfold Run_with. x_steps.
  set (sets := ro && negb (vm_readOnly v)). set (f0 := start_frame c input ro v) in *. set (v1 := f_vm f0).
  assert (vm_ok v1) as Hv1 by apply Hf0.
  apply (wpx_seq _ _ (λ _ v', set_returnData [] v' = v1)).
  { unfold sets, v1, f0. destruct ro, (vm_readOnly v) eqn:Hro; apply wpx_wp; unfold wp, mret', mmod; cbn; destruct v; cbn in *; by subst. }
  intros _ v' Hv'. x_step. rewrite Hv'. clear v' Hv'.
  apply (wpx_seq _ _ (λ r v2, vm_ok v2 ∧ vm_rel v1 v2 ∧ 0 <= c_Gas r.2 <= c_Gas c ∧ small r.1.1)).
  { pose proof (co_gas _ Hc). destruct (Nat.eqb_spec (length (c_Code c)) 0) as [|Hne]; [x_step; split; [done|]; split; [by apply vm_rel_refl|]; split; [cbn; lia|done]|].
    x_step. change (MkFrame 0 [] NewMemory (set_Input input c) v1) with f0.
    assert (wp lp (loop_post f0) f0) as Hw by (apply Hlp; intros Hnil; by rewrite Hnil in Hne).
    unfold wp in Hw. destruct (lp f0) as [[r f1]|]; [|done].
    destruct Hw. apply wpx_wp. unfold wp, mbind', mderef, mput, mret'. split; [done|]. split; [done|]. split; [cbn in *; lia|done]. }
  intros r v2 (Hv2 & Hr2 & Hg & Hs). set (v3 := set_depth (vm_depth v) (set_readOnly (vm_readOnly v) v2)).
  assert (vm_ok v3) as Hv3.
  { pose proof (vr_csd _ _ _ _ Hr2) as Hc2. pose proof (vo_depth _ _ Hv). pose proof (vo_csd _ _ Hv). cbn in Hc2. destruct Hv2. split; cbn; try done; lia. }
  assert (dbrel D (static v1) (vm_public v) (vm_public v2)) as Hdb by apply (vr_db _ _ _ _ Hr2).
  assert (vm_rel v v3) as Hr3.
  { destruct Hr2 as [_ R1 R2 R3 R4 R5]. split; cbn; try done. eapply dbrel_mono, Hdb. unfold VmInv.static, v1. cbn. by destruct (vm_readOnly v). }
  apply (wpx_seq _ _ (λ _ v', v' = set_readOnly (vm_readOnly v) v2)).
  { pose proof (vr_readOnly _ _ _ _ Hr2) as Hro2. cbn in Hro2. unfold sets. apply wpx_wp. unfold wp.
    destruct ro, (vm_readOnly v) eqn:Hro; cbn [andb negb orb] in *; unfold mmod, mret'; try done; destruct v2; cbn in *; by subst. }
  intros _ v' ->. x_steps. cbn. rewrite (vr_depth _ _ _ _ Hr2). cbn. replace (vm_depth v + 1 - 1) with (vm_depth v) by lia.
  split; [exact Hv3|exact Hr3| |exact Hg|exact Hs]. intros Hq. apply (dr_quiet _ _ _ _ Hdb). unfold VmInv.static, v1. cbn.
  apply andb_prop in Hq as [-> ->]. by rewrite orb_true_r.
Qed.

(** ** Runs that meet a stale analysis *)

(** The outcome of [m] depends on nested runs in [B]. *)
Definition enters {S A} (B : Contract → bytes → bool → VM → Prop) (R : RunFun) (m : RunFun → M S A) (s : S) : Prop :=
  ∃ R' : RunFun, (∀ c input ro isVault v, ¬ B c input ro v → R' c input ro isVault v = R c input ro isVault v) ∧ m R' s ≠ m R s.

(** The arguments with which a good machine starts a run. *)
Record proper (n : Z) (c : Contract) (input : bytes) (v : VM) : Prop := {
  pr_vm : vm_ok v; pr_depth : vm_depth v <= 1024; pr_contract : contract_ok c; pr_gas : c_Gas c < n; pr_input : small input
}.
(** A frame of the run, or of a nested run it depends on, is not fresh. *)
Fixpoint stale_loop (fuel : nat) (ro : bool) f : Prop :=
  match fuel with
  | O => False
  | S fuel' =>
      vm_abort (f_vm f) = false ∧
      (¬ fresh f ∨
       enters (λ c input ro v, proper (Z.of_nat fuel') c input v ∧ c_Code c ≠ [] ∧ stale_loop fuel' ro (start_frame c input ro v)) (Run env jt fuel') (λ interp, step env jt interp ro) f ∨
       ∃ f', step env jt (Run env jt fuel') ro f = Some (None, f') ∧ stale_loop fuel' ro f')
  end.
Definition stale_run (fuel : nat) c input ro v : Prop := proper (Z.of_nat fuel) c input v ∧ c_Code c ≠ [] ∧ stale_loop fuel ro (start_frame c input ro v).

(** An interpreter that is right but for some runs is made right by changing only those. *)
Definition repaired (B : Contract → bytes → bool → VM → Prop) (R : RunFun) : RunFun := λ c input ro isVault v,
  if excluded_middle_informative (B c input ro v) then Some (([], None, c), v) else R c input ro isVault v.
Lemma repaired_same B R c input ro isVault v : ¬ B c input ro v → repaired B R c input ro isVault v = R c input ro isVault v.
Proof using Type. intros HB. unfold repaired. by destruct (excluded_middle_informative _). Qed.
Lemma repaired_ok n B R :
  (∀ c input ro isVault v, ¬ B c input ro v → proper n c input v → wpx (R c input ro isVault) (run_post D env ro v (c_Gas c)) v) →
  interp_ok n (repaired B R).
Proof using Type.
  intros HR c input ro isVault v Hv Hd Hc Hn Hin. unfold wpx, wp, repaired. destruct (excluded_middle_informative _) as [|HB]; [|by apply HR].
  pose proof (co_gas _ Hc). split; [done|by apply vm_rel_refl| |cbn; lia|done]. intros _. apply quiet_same, (dbgood_wf D), Hv.
Qed.

Lemma loop_ok fuel ro f : frame_ok f → c_Gas (f_contract f) < Z.of_nat fuel → ¬ stale_loop fuel ro f → wpx (loop env jt fuel ro) (loop_post f) f.
Proof.
  revert ro f. induction fuel as [|fuel IH]; intros ro f Hf Hfuel Hns; [pose proof (co_gas _ (fo_contract _ _ Hf)); lia|].
  cbn [loop]. x_step. pose proof (co_gas _ (fo_contract _ _ Hf)) as Hg. cbn [stale_loop] in Hns. destruct (vm_abort (f_vm f)).
  { x_step. split; [apply Hf|apply vm_rel_refl, Hf|lia|done]. }
  assert (fresh f) as Hfresh by (apply NNPP; naive_solver).
  set (R' := repaired (stale_run fuel) (Run env jt fuel)). assert (interp_ok (Z.of_nat fuel) R') as HR'.
  { apply repaired_ok. intros c input ro' isVault v HB Hp. pose proof Hp as []. apply Run_with_ok; [done..|]. intros Hne. apply IH; [by apply start_frame_ok|done|].
    intros Hst. by apply HB. }
  assert (step env jt R' ro f = step env jt (Run env jt fuel) ro f) as Heq by (apply NNPP; intros Hne; apply Hns; split; [done|]; right; left; exists R'; split; [by apply repaired_same|done]).
  eapply (wpx_seq _ _ (λ r f', step_post f r f' ∧ step env jt (Run env jt fuel) ro f = Some (r, f'))).
  { pose proof (step_ok (Z.of_nat fuel) R' ro f HR' Hf Hfresh ltac:(lia)) as Hstep. unfold wpx, wp in *. rewrite Heq in Hstep. fold (Run env jt fuel).
    change (λ contract input readOnly (_ : bool), Run_with (loop env jt fuel readOnly) contract input readOnly) with (Run env jt fuel).
    by destruct (step env jt (Run env jt fuel) ro f) as [[r f']|]. }
  intros [[ret e]|] f' [[] Hstep]; [x_step; by split|]. destruct sp_next0 as [Hf' Hlt]. eapply wpx_wand; [apply IH; [done|lia|]|].
  { intros Hst. apply Hns. split; [done|]. right. right. by exists f'. }
  intros r f'' []. split; [done|by eapply vm_rel_trans|lia|done].
Qed.
(** With one unit of fuel more than gas, [Run] is what the calls assume of it, but for stale runs. *)
Lemma Run_ok fuel c input ro isVault v : ¬ stale_run fuel c input ro v → proper (Z.of_nat fuel) c input v →
  wpx (Run env jt fuel c input ro isVault) (run_post D env ro v (c_Gas c)) v.
Proof.
  intros HB Hp. pose proof Hp as []. apply Run_with_ok; [done..|]. intros Hne. apply loop_ok; [by apply start_frame_ok|done|]. intros Hst. by apply HB.
Qed.

(** When no two codes have the same hash, no run is stale. *)
Lemma never_stale_loop fuel ro f : (∀ c c' : bytes, Keccak256 c = Keccak256 c' → c = c') →
  frame_ok f → c_Gas (f_contract f) < Z.of_nat fuel → ¬ stale_loop fuel ro f.
Proof.
  intros Hinj. revert ro f. induction fuel as [|fuel IH]; intros ro f Hf Hfuel; [by intros []|].
  assert (∀ c input ro v, ¬ stale_run fuel c input ro v) as Hrun.
  { intros c input ro' v ([] & _ & Hst). revert Hst. apply IH; [by apply start_frame_ok|done]. }
  assert (fresh f) as Hfresh by (apply NNPP; intros Hn; destruct (not_fresh D f Hf Hn) as (c' & _ & Hne & Hk & _); by apply Hne, Hinj).
  cbn [stale_loop]. intros (_ & [Hn|[(R' & Hagree & Hne)|(f' & Hstep & Hst)]]); [done| |].
  - apply Hne. f_equal. replace R' with (Run env jt fuel); [done|]. do 5 (apply functional_extensionality; intro). symmetry. apply Hagree, Hrun.
  - assert (interp_ok (Z.of_nat fuel) (Run env jt fuel)) as HI by (intros c input ro' isVault v Hv Hd Hc Hg Hin; by apply Run_ok).
    pose proof (step_ok (Z.of_nat fuel) _ ro f HI Hf Hfresh ltac:(lia)) as Hw. unfold wpx, wp in Hw. rewrite Hstep in Hw.
    destruct Hw as [_ _ _ [Hf' Hlt]]. revert Hst. apply IH; [done|lia].
Qed.
Lemma never_stale fuel c input ro v : (∀ c c' : bytes, Keccak256 c = Keccak256 c' → c = c') → ¬ stale_run fuel c input ro v.
Proof. intros Hinj ([] & _ & Hst). revert Hst. by apply never_stale_loop; [|apply start_frame_ok|]. Qed.
End run.
