(* ===== verification/VmTables.v ===== *)
(** * The jump tables are right

    Every entry of every jump table of VmInterp meets [op_ok], and so do the tables
    with the extra EIPs: the interpreter that [NewEVMInterpreter] builds can run. *)

From Stdlib Require Import ZArith Lia.
From S2P Require Import Prelude Errors Rlp Fullnode Messages SmiloPay StateDB StateRevert StateTransition StateLaws VmWord VmWordLaws.
From S2P Require Import Vm VmAnalysis VmGas VmContracts VmEVM VmInstr VmInterp VmState VmPrecompiled VmInv VmGasLaws VmOps VmCalls VmStep VmRun.
Import VmGas.Params.
Open Scope didux_scope.

Section tables.
Context `{!Crypto} `{!PrecompileLib} `{PL : !PrecompileLaws} (D : Database) (HD : db_ok D) (env : Env) (HE : env_ok env).
#[local] Set Default Proof Using "PL HD HE".
Local Abbreviation op_ok := (op_ok D env).

(** ** Entries *)

(** An instruction on a region of the memory. *)
Lemma op_region op o pops pushes i j pre g args m : op_minStack o = pops → op_maxStack o = 1024 + pops - pushes →
  memorySize o = Some m → m = memRegion i j → dynamicGas o = Some g → dyn_spec D env args (at_least 0) any g → (args <= Z.to_nat pops)%nat →
  Z.of_nat i < pops → Z.of_nat j < pops →
  exec_plain D env pops pushes pre (execute o) → (∀ f, has_region i j f → (writes o = true → static env (f_vm f) = false) → pre f) →
  1 <= constantGas o ∨ 0 <= constantGas o ∧ halts o || reverts o = true → op_ok op o.
Proof using Type.
  intros Hmin Hmax Hm -> Hg Hd Ha Hi Hj He Hpre Hc.
  apply (op_priced D env op o pops pushes (if halts o || reverts o then 0 else 1) 0 (has_region i j) pre g args any); try done.
  - rewrite Hm. by apply memRegion_spec.
  - lia.
  - by destruct (_ || _).
  - destruct Hc as [|[? ->]]; [destruct (_ || _); lia|done].
  - by intros ->.
Qed.
Lemma op_log op n : (n <= 4)%nat → op_ok op (writing (priced (makeGasLog (Z.of_nat n)) (sized memoryLog (op_ (makeLog env n) 0 (2 + Z.of_nat n) 0)))).
Proof using HD HE.
  intros Hn. apply (op_priced D env _ _ (2 + Z.of_nat n) 0 0 375 (has_region 0 1) (λ f, has_region 0 1 f ∧ unprotected env f) (makeGasLog (Z.of_nat n)) 2 any); try done; try lia.
  - apply makeGasLog_dyn. lia.
  - cbn. apply memRegion_spec; lia.
  - by apply makeLog_exec.
  - intros f Hr Hw. split; [done|by apply Hw].
Qed.
Lemma op_with_value op o call g : op_minStack o = 7 → op_maxStack o = 1024 + 7 - 1 → execute o = with_value call → memorySize o = Some memoryCall →
  dynamicGas o = Some g → dyn_spec D env 3 (for_call stack_value) any g → halts o || reverts o = false → 1 <= constantGas o →
  (∀ n interp c addr input gas value isVault v, interp_ok D env n interp → vm_ok D v → room v → contract_ok c → 0 <= addr → small input →
     0 <= gas < n → gas < 2 ^ 62 → 0 <= value → (op = #CALL → static env v = true → value = 0) →
     wpx (call interp (ContractPtr c) addr input gas value isVault) (call_post D env v gas) v) → op_ok op o.
Proof using Type.
  intros Hmin Hmax He Hm Hg Hd Hh Hc Hcall _. exists 7, 1, 1, (λ f, has_region 5 6 f ∧ has_region 3 4 f), (for_call stack_value). split; try done.
  - rewrite Hm. by apply (memRegion2_spec 5 6 3 4).
  - rewrite Hg. eapply dyn_weaken, Hd; [|done]. lia.
  - intros k Hk. by apply (exec_with_value D env op o k call).
Qed.
Lemma op_without_value op o call g : op_minStack o = 6 → op_maxStack o = 1024 + 6 - 1 → execute o = without_value call →
  memorySize o = Some memoryDelegateCall → dynamicGas o = Some g → dyn_spec D env 1 (for_call no_value) any g → halts o || reverts o = false → 1 <= constantGas o →
  (∀ n interp c addr input gas isVault v, interp_ok D env n interp → vm_ok D v → room v → contract_ok c → 0 <= addr → small input →
     0 <= gas < n → gas < 2 ^ 62 → wpx (call interp (ContractPtr c) addr input gas isVault) (call_post D env v gas) v) → op_ok op o.
Proof using Type.
  intros Hmin Hmax He Hm Hg Hd Hh Hc Hcall _. exists 6, 1, 1, (λ f, has_region 4 5 f ∧ has_region 2 3 f), (for_call no_value). split; try done.
  - rewrite Hm. by apply (memRegion2_spec 4 5 2 3).
  - rewrite Hg. eapply dyn_weaken, Hd; [|done]. lia.
  - intros k Hk. by apply (exec_without_value D env op o k call).
Qed.
Lemma op_creation op o pops g args : op_minStack o = pops → op_maxStack o = 1024 + pops - 1 → memorySize o = Some memoryCreate → dynamicGas o = Some g →
  dyn_spec D env args (at_least 0) any g → (args <= Z.to_nat pops)%nat → 3 <= pops → 1 <= constantGas o →
  (∀ k, 1 <= k → exec_spec D env op o pops 1 k (has_region 1 2) (at_least 0)) → op_ok op o.
Proof using Type.
  intros Hmin Hmax Hm Hg Hd Ha Hp Hc He _. exists pops, 1, 1, (has_region 1 2), (at_least 0). split; try done; [lia| |].
  - rewrite Hm. apply memRegion_spec; lia.
  - rewrite Hg. by eapply dyn_weaken, Hd.
Qed.

(** ** The first table *)

Lemma opCall_ok gas : 1 <= gas → op_ok #CALL (returning (priced (gasCall env) (sized memoryCall (op_ (opCall D env) gas 7 1)))).
Proof.
  intros Hg. apply (op_with_value _ _ (Call D env) (gasCall env)); try done; [by apply gasCall_dyn|].
  intros n interp c addr input g value isVault v HI Hv Hroom Hc Ha Hi Hg1 Hg2 Hval Hs.
  apply (vx_Call D HD env HE n interp HI); try done; [by apply contract_caller|by apply Hs].
Qed.
Lemma opCallCode_ok gas : 1 <= gas → op_ok #CALLCODE (returning (priced (gasCallCode env) (sized memoryCall (op_ (opCallCode D env) gas 7 1)))).
Proof.
  intros Hg. apply (op_with_value _ _ (CallCode D env) (gasCallCode env)); try done; [apply gasCallCode_dyn|].
  intros n interp c addr input g value isVault v HI Hv Hroom Hc Ha Hi Hg1 Hg2 Hval _.
  apply (vx_CallCode D HD env HE n interp HI); try done. by apply contract_caller.
Qed.
Lemma opDelegateCall_ok gas : 1 <= gas → op_ok #DELEGATECALL (returning (priced (gasDelegateCall env) (sized memoryDelegateCall (op_ (opDelegateCall D env) gas 6 1)))).
Proof.
  intros Hg. apply (op_without_value _ _ (DelegateCall D env) (gasDelegateCall env)); try done; [apply gasDelegateCall_dyn|].
  intros n interp c addr input g isVault v HI Hv Hroom Hc Ha Hi Hg1 Hg2.
  apply (vx_DelegateCall D HD env HE n interp HI); try done. by apply contract_caller.
Qed.
Lemma opStaticCall_ok gas : 1 <= gas → op_ok #STATICCALL (returning (priced (gasStaticCall env) (sized memoryStaticCall (op_ (opStaticCall D env) gas 6 1)))).
Proof.
  intros Hg. apply (op_without_value _ _ (StaticCall D env) (gasStaticCall env)); try done; [apply gasDelegateCall_dyn|].
  intros n interp c addr input g isVault v HI Hv Hroom Hc Ha Hi Hg1 Hg2.
  eapply wpx_wand; [apply (vx_StaticCall D HD env HE n interp HI); try done; by apply contract_caller|]. by intros r v' [Hp _].
Qed.
(** Instructions with a price of their own. *)
Lemma opExp_ok perByte : 0 <= perByte → op_ok #EXP (priced (gasExp perByte) (op_ opExp 0 2 1)).
Proof using Type.
  intros Hp. apply (op_priced D env _ _ 2 1 0 10 no_pre no_pre (gasExp perByte) 2 no_memory); try done; try lia.
  - by apply gasExp_dyn.
  - intros size f [Hz _]. by apply Hz.
  - apply opExp_exec.
Qed.
Lemma opSstore_ok : op_ok #SSTORE (writing (priced (gasSStore D env) (op_ (opSstore D env) 0 2 0))).
Proof using HD HE.
  apply (op_priced D env _ _ 2 0 0 1 no_pre (unprotected env) (gasSStore D env) 2 (may_write env)); try done; try lia.
  - by apply gasSStore_dyn.
  - intros size f [Hz Hw]. split; [by apply Hz|by apply Hw].
  - by apply opSstore_exec.
  - intros f _ Hw. by apply Hw.
Qed.
Lemma opSuicide_ok : op_ok #SELFDESTRUCT (writing (halting (priced (gasSelfdestruct env) (op_ (opSuicide env) 0 1 0)))).
Proof using HD HE.
  apply (op_priced D env _ _ 1 0 0 0 no_pre (unprotected env) (gasSelfdestruct env) 1 (may_write env)); try done; try lia.
  - by apply gasSelfdestruct_dyn.
  - intros size f [Hz Hw]. split; [by apply Hz|by apply Hw].
  - by apply opSuicide_exec.
  - intros f _ Hw. by apply Hw.
Qed.
Lemma op_bytes op b e gas pops pushes m : 0 < b < two64 → (∀ st, m st = o ← st !! 0%nat; Some (calcMemSize64WithUint o b)) →
  exec_plain D env pops pushes (has_bytes b) e → 1 <= pops → 1 <= gas → op_ok op (priced pureMemoryGascost (sized m (op_ e gas pops pushes))).
Proof using Type.
  intros Hb Hm He Hp Hg. apply (op_priced D env _ _ pops pushes 1 0 (has_bytes b) (has_bytes b) pureMemoryGascost 0 any); try done; try lia.
  - apply pureMemoryGascost_dyn.
  - cbn. apply memBytes_spec; [done|lia|done].
Qed.
Lemma op_stop op : op_ok op (halting (op_ opStop 0 0 0)).
Proof using Type.
  intros _. exists 0, 0, 0, no_pre, (at_least 0). split; try done. intros k Hk. apply (exec_of_plain D env _ _ _ _ _ _ no_pre); [apply opStop_exec|done|lia|done].
Qed.
Lemma op_jumping op e gas pops : exec_plain D env pops 0 fresh e → 0 <= pops → 1 <= gas → op_ok op (jumping (op_ e gas pops 0)).
Proof using Type.
  intros He Hp Hg _. exists pops, 0, 1, no_pre, (at_least 0). split; try done.
  intros k Hk. apply (exec_of_plain D env _ _ _ _ _ _ fresh); [done|by intros f _ _ Hfr; apply Hfr|lia|lia].
Qed.
Create HintDb vm_exec.
#[local] Hint Constants Opaque : vm_exec.
#[local] Hint Resolve opAdd_exec opMul_exec opSub_exec opDiv_exec opSdiv_exec opMod_exec opSmod_exec opAddmod_exec opMulmod_exec opSignExtend_exec
  opLt_exec opGt_exec opSlt_exec opSgt_exec opEq_exec opIszero_exec opAnd_exec opXor_exec opOr_exec opNot_exec opByte_exec opSHL_exec opSHR_exec opSAR_exec
  opAddress_exec opBalance_exec opOrigin_exec opCaller_exec opCallValue_exec opCallDataLoad_exec opCallDataSize_exec opCodeSize_exec opGasprice_exec
  opExtCodeSize_exec opBlockhash_exec opCoinbase_exec opTimestamp_exec opNumber_exec opDifficulty_exec opGasLimit_exec opPop_exec opSload_exec opPc_exec
  opMsize_exec opGas_exec opJumpdest_exec opPush1_exec opReturnDataSize_exec opExtCodeHash_exec opSelfBalance_exec opChainID_exec
  opJump_exec opJumpi_exec opMload_exec opMstore_exec opMstore8_exec : vm_exec.
(** The entry of an instruction, by its shape. *)
Local Ltac entry := lazymatch goal with
  | |- VmStep.op_ok _ _ _ (op_ _ _ _ _) => apply op_plain; [eauto with vm_exec|done|done]
  | |- VmStep.op_ok _ _ _ (jumping _) => apply op_jumping; [eauto with vm_exec|done|done]
  | |- VmStep.op_ok _ _ _ (halting (op_ _ _ _ _)) => apply op_stop
  | |- VmStep.op_ok _ _ _ (priced gasExpFrontier _) => by apply opExp_ok
  | |- VmStep.op_ok _ _ _ (priced pureMemoryGascost (sized memoryMStore8 _)) => apply (op_bytes _ 1); [done|done|eauto with vm_exec|done|done]
  | |- VmStep.op_ok _ _ _ (priced pureMemoryGascost (sized memoryMLoad _)) => apply (op_bytes _ 32); [done|done|eauto with vm_exec|done|done]
  | |- VmStep.op_ok _ _ _ (priced pureMemoryGascost (sized memoryMStore _)) => apply (op_bytes _ 32); [done|done|eauto with vm_exec|done|done]
  | |- VmStep.op_ok _ _ #SSTORE _ => apply opSstore_ok
  | |- VmStep.op_ok _ _ #SELFDESTRUCT _ => apply opSuicide_ok
  | |- VmStep.op_ok _ _ #CALL _ => by apply opCall_ok
  | |- VmStep.op_ok _ _ #CALLCODE _ => by apply opCallCode_ok
  | |- VmStep.op_ok _ _ #(LOG ?n) _ => let k := eval vm_compute in (Z.to_nat n) in apply (op_log _ k); lia
  | |- _ => idtac
  end.

(** Instructions on a region. *)
Lemma op_copier op e m i j pos gas pops : m = memRegion i j → exec_plain D env pops 0 (has_region i j) e → Z.of_nat pos < pops →
  Z.of_nat i < pops → Z.of_nat j < pops → 1 <= gas → op_ok op (priced (memoryCopierGas pos) (sized m (op_ e gas pops 0))).
Proof using Type.
  intros -> He Hp Hi Hj Hg. apply (op_region _ _ pops 0 i j (has_region i j) (memoryCopierGas pos) (S pos) (memRegion i j)); try done; [apply memoryCopierGas_dyn|lia|by left].
Qed.
Lemma opSha3_ok : op_ok #SHA3 (priced gasSha3 (sized memorySha3 (op_ (opSha3 env) Sha3Gas 2 1))).
Proof using HD HE. apply (op_region _ _ 2 1 0 1 (has_region 0 1) gasSha3 2 (memRegion 0 1)); try done; [apply gasSha3_dyn|by apply opSha3_exec|by left]. Qed.
Lemma opReturn_ok : op_ok #RETURN (halting (priced pureMemoryGascost (sized memoryReturn (op_ opReturn 0 2 0)))).
Proof using Type. apply (op_region _ _ 2 0 0 1 (has_region 0 1) pureMemoryGascost 0 (memRegion 0 1)); try done; [apply pureMemoryGascost_dyn|cbn; lia|apply opReturn_exec|by right]. Qed.
Lemma opRevert_ok : op_ok #REVERT (returning (reverting (priced pureMemoryGascost (sized memoryRevert (op_ opRevert 0 2 0))))).
Proof using Type. apply (op_region _ _ 2 0 0 1 (has_region 0 1) pureMemoryGascost 0 (memRegion 0 1)); try done; [apply pureMemoryGascost_dyn|cbn; lia|apply opReturn_exec|by right]. Qed.
Lemma opCreate_ok : op_ok #CREATE (returning (writing (priced pureMemoryGascost (sized memoryCreate (op_ (opCreate D env) CreateGas 3 1))))).
Proof. apply (op_creation _ _ 3 pureMemoryGascost 0); try done; [apply pureMemoryGascost_dyn|cbn; lia|]. intros k Hk. by apply exec_create. Qed.
Lemma opCreate2_ok : op_ok #CREATE2 (returning (writing (priced gasCreate2 (sized memoryCreate2 (op_ (opCreate2 D env) Create2Gas 4 1))))).
Proof. apply (op_creation _ _ 4 gasCreate2 3); try done; [apply gasCreate2_dyn|cbn; lia|]. intros k Hk. by apply exec_create2. Qed.

Lemma frontier_ok : Forall (λ p, op_ok p.1 p.2) (frontier_list D env).
Proof.
  unfold frontier_list. rewrite !Forall_app. split; [|split; [|split]].
  - repeat (apply Forall_cons; split; [cbn [fst snd]; entry|]); try by apply Forall_nil.
    + apply opSha3_ok.
    + apply (op_copier _ _ _ 0 2 2); try done. apply opCallDataCopy_exec.
    + apply (op_copier _ _ _ 0 2 2); try done. apply opCodeCopy_exec.
    + apply (op_copier _ _ _ 1 3 3); try done. by apply opExtCodeCopy_exec.
    + apply opCreate_ok.
    + apply opReturn_ok.
  - apply Forall_forall. intros p (x & -> & Hx)%list_elem_of_fmap. apply elem_of_seqZ in Hx. cbn [fst snd]. apply op_plain; [apply makePush_exec; lia|done|done].
  - apply Forall_forall. intros p (x & -> & Hx)%list_elem_of_fmap. apply elem_of_seqZ in Hx. cbn [fst snd].
    pose proof (makeDup_exec D env (Z.to_nat x) ltac:(lia)) as He. rewrite Z2Nat.id in He by lia. apply op_plain; [done|lia|done].
  - apply Forall_forall. intros p (x & -> & Hx)%list_elem_of_fmap. apply elem_of_seqZ in Hx. cbn [fst snd].
    pose proof (makeSwap_exec D env (Z.to_nat x)) as He. rewrite Z2Nat.id in He by lia. apply op_plain; [done|lia|done].
Qed.

(** ** The forks *)

Local Abbreviation table_ok := (table_ok D env).
Lemma frontier_table : table_ok (newFrontierInstructionSet D env).
Proof.
  split; [|reflexivity|].
  - intros op o Ho%elem_of_list_to_map_2. exact (proj1 (Forall_forall _ _) frontier_ok _ Ho).
  - eexists. split; [reflexivity|]. done.
Qed.
Lemma table_insert (jt : JumpTable) op o : table_ok jt → op ≠ #STOP → op ≠ #CALL → op_ok op o → table_ok (<[op := o]> jt).
Proof using Type.
  intros [Hops Hstop Hcall] Hs Hc Ho. split.
  - intros op' o'. rewrite lookup_insert_Some. intros [[<- <-]|[_ Hl]]; [done|by apply Hops].
  - by rewrite lookup_insert_ne.
  - by rewrite lookup_insert_ne.
Qed.
Lemma table_reprice (jt : JumpTable) op gas : table_ok jt → #op ≠ #STOP → 1 <= gas → table_ok (reprice op gas jt).
Proof using Type.
  intros [Hops Hstop (o & Hcall & Hmin)] Hs Hg. unfold reprice. split.
  - intros op' o'. rewrite lookup_insert_Some. intros [[<- <-]|[_ Hl]]; [|by apply Hops]. apply op_ok_gas; [done|].
    destruct (jt !! #op) as [o1|] eqn:Hl; [by apply Hops|done].
  - by rewrite lookup_insert_ne.
  - destruct (decide (#op = #CALL)) as [->|Hne]; [|rewrite lookup_insert_ne by done; by exists o].
    rewrite lookup_insert_eq, Hcall. by eexists.
Qed.
Lemma homestead_table : table_ok (newHomesteadInstructionSet D env).
Proof. apply table_insert; [apply frontier_table|done|done|by apply opDelegateCall_ok]. Qed.
Lemma tangerine_table : table_ok (newTangerineWhistleInstructionSet D env).
Proof. unfold newTangerineWhistleInstructionSet. repeat (apply table_reprice; [|done|done]). apply homestead_table. Qed.
Lemma spurious_table : table_ok (newSpuriousDragonInstructionSet D env).
Proof.
  unfold newSpuriousDragonInstructionSet. apply table_insert; [apply tangerine_table|done|done|].
  replace (newTangerineWhistleInstructionSet D env !! #EXP) with (Some (priced gasExpFrontier (op_ opExp 0 2 1))) by reflexivity. by apply (opExp_ok ExpByteEIP158).
Qed.
Lemma byzantium_table : table_ok (newByzantiumInstructionSet D env).
Proof.
  unfold newByzantiumInstructionSet. apply table_insert; [|done|done|apply opRevert_ok]. apply table_insert; [|done|done|].
  { apply table_insert; [|done|done|apply op_plain; [eauto with vm_exec|done|done]].
    apply table_insert; [apply spurious_table|done|done|by apply opStaticCall_ok]. }
  apply (op_copier _ _ _ 0 2 2); try done. apply opReturnDataCopy_exec.
Qed.
Lemma constantinople_table : table_ok (newConstantinopleInstructionSet D env).
Proof.
  unfold newConstantinopleInstructionSet. apply table_insert; [|done|done|apply opCreate2_ok].
  do 4 (apply table_insert; [|done|done|apply op_plain; [eauto with vm_exec|done|done]]). apply byzantium_table.
Qed.
Lemma fork_table_ok : table_ok (fork_table D env).
Proof.
  unfold fork_table. repeat case_match;
    eauto using frontier_table, homestead_table, tangerine_table, spurious_table, byzantium_table, constantinople_table.
Qed.
Lemma EnableEIP_ok eip jt jt' : table_ok jt → EnableEIP env eip jt = inl jt' → table_ok jt'.
Proof.
  intros Hjt. unfold EnableEIP, enable1884, enable1344. repeat case_match; intros [= <-].
  - apply table_insert; [|done|done|apply op_plain; [eauto with vm_exec|done|done]]. by repeat (apply table_reprice; [|done|done]).
  - apply table_insert; [done|done|done|apply op_plain; [eauto with vm_exec|done|done]].
Qed.
Lemma enable_eips_ok n i arr len jt jt' eips : table_ok jt → enable_eips env n i arr len jt = Some (jt', eips) → table_ok jt'.
Proof.
  revert i arr len jt. induction n as [|n IH]; intros i arr len jt Hjt; cbn [enable_eips]; [by intros [= <- _]|].
  destruct (arr !! i) as [eip|]; cbn [mbind option_bind]; [|done]. destruct (EnableEIP env eip jt) as [jt1|] eqn:He.
  - apply IH. by eapply EnableEIP_ok.
  - case_match; [|done]. by apply IH.
Qed.
Lemma NewEVMInterpreter_ok extra jt eips : NewEVMInterpreter D env extra = Some (jt, eips) → table_ok jt.
Proof. apply enable_eips_ok, fork_table_ok. Qed.
End tables.
