(* ===== verification/VmLaws.v ===== *)
(** * What the virtual machine guarantees

    The theorems about a public transaction's EVM, as [NewEVM] and
    [NewEVMInterpreter] set it up: with one unit of fuel more than gas it returns,
    an error leaves the state as it was, a static call writes nothing.  They hold of
    runs that depend on no stale analysis ([meets_stale]): the cache of jump
    destinations is keyed by code hash alone. *)

From Stdlib Require Import ZArith Lia ClassicalEpsilon FunctionalExtensionality.
From S2P Require Import Prelude Errors Rlp Fullnode Messages SmiloPay StateDB StateRevert StateTransition StateLaws VmWord VmWordLaws.
From S2P Require Import Vm VmAnalysis VmGas VmContracts VmEVM VmInstr VmInterp VmState VmPrecompiled VmInv VmGasLaws VmOps VmCalls VmStep VmRun VmTables.
Import VmGas.Params.
Open Scope didux_scope.

(** ** The EVM of a transaction *)

(** The interpreter for an amount of gas: one unit of fuel more. *)
Definition runs `{!Crypto} `{!PrecompileLib} (env : Env) (jt : JumpTable) (gas : Z) : RunFun := Run env jt (S (Z.to_nat gas)).

Section machine.
Context `{!Crypto} `{!PrecompileLib} (D : Database) (env : Env) (R : Z → RunFun).

(** [vmenv := NewEVM(...)], one of its methods with an account as caller, and the
    public state afterwards. *)
Definition on_EVM {A} (gas : Z) (m : RunFun → M VM A) : M StateDB A := λ s,
  v ← NewEVM env s s;
  '(r, v') ← m (R gas) v;
  Some (r, vm_public v').
Definition tx_Call (from to : address) (data : bytes) (gas value : Z) (isVault : bool) : M StateDB (bytes * Z * err) :=
  on_EVM gas (λ interp, Call D env interp (AccountRef from) to data gas value isVault).
Definition tx_StaticCall (from to : address) (data : bytes) (gas : Z) (isVault : bool) : M StateDB (bytes * Z * err) :=
  on_EVM gas (λ interp, StaticCall D env interp (AccountRef from) to data gas isVault).
Definition tx_Create (from : address) (data : bytes) (gas value : Z) (isVault : bool) : M StateDB (bytes * Z * err) :=
  on_EVM gas (λ interp, let! (ret, _, gas, e) := Create D env interp (AccountRef from) data gas value isVault in mret' (ret, gas, e)).
End machine.

Section laws.
Context `{!Crypto} `{!PrecompileLib} `{PL : !PrecompileLaws} (D : Database) (env : Env).
Context (extra : list Z) (jt : JumpTable) (eips : list Z).
Hypotheses (HD : db_ok D) (HE : env_ok env) (Hjt : NewEVMInterpreter D env extra = Some (jt, eips)).
#[local] Set Default Proof Using "PL HD HE Hjt".

(** *** Runs that depend on a stale analysis *)

Definition meets_stale {B} (m : (Z → RunFun) → B) : Prop :=
  ∃ R : Z → RunFun,
    (∀ gas c input ro isVault v, ¬ stale_run D env jt (S (Z.to_nat gas)) c input ro v →
      R gas c input ro isVault v = runs env jt gas c input ro isVault v) ∧
    m R ≠ m (runs env jt).
(** What [m] does with a right interpreter, it does with the interpreter of the code. *)
Lemma unless_stale {B} (m : (Z → RunFun) → B) (P : B → Prop) :
  (∀ R : Z → RunFun, (∀ gas, 0 <= gas → interp_ok D env (gas + 1) (R gas)) → P (m R)) → meets_stale m ∨ P (m (runs env jt)).
Proof.
  intros HP. set (R := λ gas, repaired (stale_run D env jt (S (Z.to_nat gas))) (runs env jt gas)).
  assert (P (m R)) as HR.
  { apply HP. intros gas Hg. apply repaired_ok. intros c input ro isVault v HB Hp.
    apply (Run_ok D HD env HE jt (NewEVMInterpreter_ok D HD env HE extra jt eips Hjt)); [done|].
    by replace (Z.of_nat (S (Z.to_nat gas))) with (gas + 1) by lia. }
  destruct (classic (m R = m (runs env jt))) as [Heq|Hne]; [right; by rewrite <-Heq|left].
  exists R. split; [|done]. intros gas c input ro isVault v HB. by apply repaired_same.
Qed.
Lemma unless_stale_wp {T A} (m : (Z → RunFun) → M T A) (Q : A → T → Prop) s :
  (∀ R : Z → RunFun, (∀ gas, 0 <= gas → interp_ok D env (gas + 1) (R gas)) → wp (m R) Q s) → meets_stale (λ R, m R s) ∨ wp (m (runs env jt)) Q s.
Proof. apply (unless_stale (λ R, m R s) (λ o, match o with Some (a, s') => Q a s' | None => False end)). Qed.
(** A collision-free hash leaves no stale analysis. *)
Lemma never_meets_stale {B} (m : (Z → RunFun) → B) : (∀ c c' : bytes, Keccak256 c = Keccak256 c' → c = c') → ¬ meets_stale m.
Proof.
  intros Hinj (R & HR & Hne). apply Hne. f_equal. do 6 (apply functional_extensionality; intro). apply HR.
  by apply (never_stale D HD env HE jt (NewEVMInterpreter_ok D HD env HE extra jt eips Hjt)).
Qed.

(** *** The machine of a transaction *)

Lemma NewEVM_ok s : dbgood D s → ∃ v, NewEVM env s s = Some v ∧ vm_ok D v ∧ room v ∧ vm_public v = s ∧ vm_readOnly v = false.
Proof using HE.
  intros Hs. unfold NewEVM. rewrite (eo_ewasm _ HE), (eo_vault _ HE). eexists. split.
  { unfold Push, mbind', mget, mret', mmod. cbn. rewrite (eo_vault _ HE). reflexivity. }
  split; [|done]. split; cbn; try done; try lia.
  intros i Hi. change (0 <= i < 1) in Hi. assert (i = 0) as -> by lia. done.
Qed.

Section right_interpreter.
Context (R : Z → RunFun) (HR : ∀ gas, 0 <= gas → interp_ok D env (gas + 1) (R gas)).
#[local] Set Default Proof Using "PL HD HE HR".

(** Whatever [m] promises of a good machine. *)
Lemma on_EVM_ok {A} gas (m : RunFun → M VM A) (Q : A → StateDB → Prop) s : dbgood D s → 0 <= gas →
  (∀ interp v, interp_ok D env (gas + 1) interp → vm_ok D v → room v → vm_public v = s → vm_readOnly v = false →
    wpx (m interp) (λ r v', Q r (vm_public v')) v) →
  wp (on_EVM env R gas m) Q s.
Proof.
  intros Hs Hg Hm. destruct (NewEVM_ok s Hs) as (v & Hv & Hok & Hroom & Hpub & Hro). unfold wp, on_EVM. rewrite Hv. cbn [mbind option_bind].
  pose proof (Hm _ v (HR gas Hg) Hok Hroom Hpub Hro) as Hw. unfold wpx, wp in Hw. by destruct (m _ v) as [[r v']|].
Qed.

(** The result of a call from outside: the gas left, the state good, nothing changed on an error. *)
Record returned (gas : Z) (s : StateDB) (r : bytes * Z * err) (s' : StateDB) : Prop := {
  re_gas : 0 <= r.1.2 <= gas; re_good : dbgood D s'; re_tx : tx_of s' = tx_of s;
  re_undo : r.2 ≠ None → same_state D s' s
}.
Lemma tx_Call_ok s from to data gas value isVault : dbgood D s → 0 <= from → 0 <= to → small data → 0 <= gas < 2 ^ 62 → 0 <= value →
  wp (tx_Call D env R from to data gas value isVault) (returned gas s) s.
Proof.
  intros Hs Hf Ht Hd Hg Hv. apply on_EVM_ok; [done|lia|]. intros interp v HI Hok Hroom Hpub Hro.
  eapply wpx_wand; [apply (vx_Call D HD env HE (gas + 1) interp HI); try done; try lia|].
  - unfold static. by rewrite Hro.
  - intros r v' [Hvm [Hdb _ _ _ _ _] Hleft _ Hundo]. rewrite Hpub in Hundo, Hdb. split; [done|apply Hvm|apply Hdb|done].
Qed.
Lemma tx_StaticCall_ok s from to data gas isVault : dbgood D s → IsByzantium (env_rules env) = true →
  0 <= from → 0 <= to → small data → 0 <= gas < 2 ^ 62 →
  wp (tx_StaticCall D env R from to data gas isVault) (λ r s', returned gas s r s' ∧ quiet D s s') s.
Proof.
  intros Hs Hbyz Hf Ht Hd Hg. apply on_EVM_ok; [done|lia|]. intros interp v HI Hok Hroom Hpub Hro.
  eapply wpx_wand; [apply (vx_StaticCall D HD env HE (gas + 1) interp HI); try done; lia|].
  intros r v' [[Hvm [Hdb _ _ _ _ _] Hleft _ Hundo] Hq]. rewrite Hpub in Hundo, Hq, Hdb. split; [split; [done|apply Hvm|apply Hdb|done]|by apply Hq].
Qed.
(** A failed creation undoes all but the nonce of the creator. *)
Record created (gas : Z) (from : address) (s : StateDB) (r : bytes * Z * err) (s' : StateDB) : Prop := {
  cr_gas : 0 <= r.1.2 <= gas; cr_good : dbgood D s'; cr_tx : tx_of s' = tx_of s;
  cr_undo : IsHomestead (env_rules env) = true → r.2 ≠ None → but_nonce D from s s'
}.
Lemma tx_Create_ok s from data gas value isVault : dbgood D s → 0 <= from → small data → 0 <= gas < 2 ^ 62 → 0 <= value →
  wp (tx_Create D env R from data gas value isVault) (created gas from s) s.
Proof.
  intros Hs Hf Hd Hg Hv. apply on_EVM_ok; [done|lia|]. intros interp v HI Hok Hroom Hpub Hro.
  eapply wpx_seq; [apply (vx_Create D HD env HE (gas + 1) interp HI); try done; try lia; unfold static; by rewrite Hro|].
  intros [[[ret addr] left] e] v' [Hvm [Hdb _ _ _ _ _] Hleft _ _ Hundo]. x_step. cbn in *. rewrite Hpub in Hundo, Hdb. split; [done|apply Hvm|apply Hdb|done].
Qed.
End right_interpreter.

(** C6. A public call returns.  From a good state, an account can call any address with
    any input and any gas below 2^62: the interpreter does not panic, whatever the
    code; it stops within [gas + 1] turns; it returns no more gas than it was given;
    the state it leaves is good again; and when it returns an error, the state is the
    one before the call.  The EVM is one of a public transaction: its pointer to the vault state is the public state; EWASM is
    off, the chain has an id, and storage is not priced by EIP-1283 (no Constantinople without Petersburg; [env_ok]).  The exception
    is a run that depends on a frame for whose
    code the cache holds the analysis of another code with the same hash ([meets_stale]), which needs a collision of Keccak256
    ([never_meets_stale]). *)
Theorem Call_total s from to data gas value isVault : dbgood D s → 0 <= from → 0 <= to → small data → 0 <= gas < 2 ^ 62 → 0 <= value →
  meets_stale (λ R, tx_Call D env R from to data gas value isVault s) ∨
  wp (tx_Call D env (runs env jt) from to data gas value isVault) (returned gas s) s.
Proof.
  intros Hs Hf Ht Hd Hg Hv. apply (unless_stale_wp (λ R, tx_Call D env R from to data gas value isVault)). intros R HR. exact (tx_Call_ok R HR s from to data gas value isVault Hs Hf Ht Hd Hg Hv).
Qed.

(** C11. From Byzantium on a static call changes nothing: after it every account has the
    balance, nonce, code and storage it had, the refund counter and the logs are
    the same, and the only new accounts are empty.  As for calls, this is about the EVM of a public transaction that meets [env_ok] (the
    pointer to the vault state is the public state, EWASM off, a chain id, no EIP-1283), and leaves out the runs that depend on the analysis of
    another code with the same hash. *)
Theorem StaticCall_writes_nothing s from to data gas isVault : dbgood D s → IsByzantium (env_rules env) = true →
  0 <= from → 0 <= to → small data → 0 <= gas < 2 ^ 62 →
  meets_stale (λ R, tx_StaticCall D env R from to data gas isVault s) ∨
  wp (tx_StaticCall D env (runs env jt) from to data gas isVault) (λ r s', returned gas s r s' ∧ quiet D s s') s.
Proof.
  intros Hs Hb Hf Ht Hd Hg. apply (unless_stale_wp (λ R, tx_StaticCall D env R from to data gas isVault)). intros R HR. exact (tx_StaticCall_ok R HR s from to data gas isVault Hs Hb Hf Ht Hd Hg).
Qed.

(** A creation returns too; from Homestead on, one that fails leaves the state as it
    was but for the nonce of the creator. *)
Theorem Create_total s from data gas value isVault : dbgood D s → 0 <= from → small data → 0 <= gas < 2 ^ 62 → 0 <= value →
  meets_stale (λ R, tx_Create D env R from data gas value isVault s) ∨
  wp (tx_Create D env (runs env jt) from data gas value isVault) (created gas from s) s.
Proof.
  intros Hs Hf Hd Hg Hv. apply (unless_stale_wp (λ R, tx_Create D env R from data gas value isVault)). intros R HR. exact (tx_Create_ok R HR s from data gas value isVault Hs Hf Hd Hg Hv).
Qed.

(** C7. A turn of the interpreter keeps frames well-formed.  In a public transaction under rules
    that meet [env_ok], from a well-formed frame whose code has no other code's jump
    analysis cached under its hash ([fresh]), a turn, with the same interpreter for the
    calls and creations it makes, does not panic, and either ends the run or leaves a
    frame with at most 1024 items that are not negative, a memory that was paid for, a
    position in the code, a good state, and less gas; unless a nested run depends on a
    stale analysis ([meets_stale]). *)
Theorem step_preserves gas ro f : frame_ok D f → fresh f → c_Gas (f_contract f) <= gas →
  meets_stale (λ R, step env jt (R gas) ro f) ∨ wp (step env jt (runs env jt gas) ro) (step_post D env f) f.
Proof.
  intros Hf Hfr Hg. pose proof (co_gas _ (fo_contract _ _ Hf)) as Hpos. apply (unless_stale_wp (λ R, step env jt (R gas) ro)). intros R HR.
  apply (step_ok D HD env HE jt (NewEVMInterpreter_ok D HD env HE extra jt eips Hjt) (gas + 1)); [apply HR; lia|done|done|lia].
Qed.
End laws.

(** ** The price of the memory *)

(** A sequence of sizes, each paid for and then given to the memory. *)
Fixpoint grow_all (sizes : list Z) : M Frame (result Z) :=
  match sizes with
  | [] => mret' (inl 0)
  | n :: tl => try! fee := memoryGasCost n in
               do! mmod (λ f, set_mem (mem_Resize n (f_mem f)) f) in
               try! rest := grow_all tl in mret' (inl (fee + rest))
  end.
Lemma grow_all_ok sizes f : mem_ok (f_mem f) → Forall (λ n, 0 <= n <= max_memory ∧ n mod 32 = 0) sizes →
  ∃ mem, grow_all sizes f = Some (inl (mem_fee (mem_Len mem / 32) - mem_fee (mem_Len (f_mem f) / 32)), set_mem mem f) ∧ mem_ok mem ∧
    mem_Len mem = Z.max (mem_Len (f_mem f)) (foldr Z.max 0 sizes).
Proof.
  revert f. induction sizes as [|n tl IH]; intros f Hm Hall; cbn [grow_all foldr].
  { exists (f_mem f). rewrite Z.sub_diag. split; [by destruct f|]. split; [done|]. pose proof (mem_ok_len _ Hm). lia. }
  apply Forall_cons in Hall as [[Hn Hmod] Hall]. unfold max_memory in Hn.
  destruct (memoryGasCost_spec n f Hm) as (r & mem & Hrun & Hst & Hr); [unfold two64; lia|done|].
  assert (∃ fee, r = inl fee) as [fee ->].
  { destruct r as [fee|e]; [by eexists|]. exfalso. unfold memoryGasCost, mbind', mget, mmod, mret' in Hrun.
    destruct (n =? 0); [by simplify_eq|]. destruct (Z.ltb_spec 0x1FFFFFFFE0 n); [lia|]. case_match; by simplify_eq. }
  destruct Hr as (_ & Hmo & Hfee & _). unfold ebind, mbind', mmod. rewrite Hrun. cbn [f_mem set_mem].
  destruct (IH (set_mem (mem_Resize n mem) (set_mem mem f))) as (mem2 & Hrun2 & Hm2 & Hl2); [done|done|].
  unfold mbind' in Hrun2. rewrite Hrun2. cbn [f_mem set_mem] in *. exists mem2.
  assert (mem_Len (mem_Resize n mem) = Z.max (mem_Len (f_mem f)) n) as Hres.
  { rewrite mem_Resize_Len. unfold mem_Len. by rewrite Hst. }
  split; [unfold mret'; do 3 f_equal; lia|]. split; [done|]. lia.
Qed.
(** The memory is priced by its largest size: however a run grows it, in the end it has
    paid [3 w + w^2 / 512] for [w] words, [w] the largest size it asked for. *)
Theorem memory_fee_path sizes f : f_mem f = NewMemory → Forall (λ n, 0 <= n <= max_memory ∧ n mod 32 = 0) sizes →
  ∃ mem, grow_all sizes f = Some (inl (mem_fee (foldr Z.max 0 sizes / 32)), set_mem mem f) ∧ mem_Len mem = foldr Z.max 0 sizes.
Proof.
  intros Hm Hall. destruct (grow_all_ok sizes f) as (mem & Hrun & _ & Hl); [rewrite Hm; apply NewMemory_ok|done|]. rewrite Hm in Hl, Hrun.
  assert (0 <= foldr Z.max 0 sizes) by (clear; induction sizes; simpl; lia). change (mem_Len NewMemory) with 0 in Hl, Hrun.
  assert (mem_Len mem = foldr Z.max 0 sizes) as Hl' by lia. exists mem. rewrite Hrun, Hl'. split; [|done]. do 3 f_equal. change (mem_fee (0 / 32)) with 0. lia.
Qed.
