(* ===== verification/VmVault.v ===== *)
(** * Calls of vault transactions that fail

    In a vault transaction [evm.StateDB] is the vault state, while the values move
    in the public state and [StaticCall] works on the state that has the callee.
    Whatever the interpreter does, two of the reverts of core/vm/evm.go then miss the
    state they are meant for. *)

From Stdlib Require Import ZArith Lia.
From S2P Require Import Prelude Errors Rlp Fullnode Messages SmiloPay StateDB StateRevert StateTransition StateLaws VmWord VmWordLaws.
From S2P Require Import Vm VmAnalysis VmGas VmContracts VmEVM VmInstr VmInterp VmState VmPrecompiled VmInv VmGasLaws VmOps VmCalls VmLaws.
Import VmGas.Params.
Open Scope didux_scope.

(** [m] does not panic, and what follows does. *)
Lemma panic_seq {S A B} (m : M S A) (f : A → M S B) (P : A → S → Prop) s :
  wp m P s → (∀ a s', P a s' → f a s' = None) → mbind' m f s = None.
Proof. unfold wp, mbind'. destruct (m s) as [[a s']|]; [|done]. intros HP Hf. by apply Hf. Qed.

(** A snapshot that is not there. *)
Lemma RevertToSnapshot_panics `{!Crypto} id s : id ∉ (sd_validRevisions s).*1 → RevertToSnapshot id s = None.
Proof.
  intros Hid. unfold RevertToSnapshot, mbind' at 1, mget. destruct (_ !! sort_Search _ _ _ _) as [[i j]|] eqn:Hl; [|done].
  destruct (Z.eqb_spec i id) as [->|]; [|done]. destruct Hid. apply list_elem_of_fmap. exists (id, j). split; [done|]. by eapply list_elem_of_lookup_2.
Qed.

Section revisions.
Context `{!Crypto}.
#[local] Hint Extern 1 (keeps sd_validRevisions (setStateObject _)) => by apply keeps_mod : keeps.
#[local] Hint Extern 1 (keeps sd_validRevisions (append _)) => by apply keeps_mod : keeps.
Lemma keeps_revs_AddBalance a v bn : keeps sd_validRevisions (AddBalance a v bn).
Proof.
  unfold AddBalance, GetOrNewStateObject, createObject, getStateObject, so_AddBalance, so_SetBalance, so_UpdateSmiloPay, so_SetSmiloPay, touch, update. keeps_tac.
Qed.
End revisions.

Section vault.
Context `{!Crypto} `{!PrecompileLib} (D : Database) (HD : db_ok D) (env : Env) (interp : RunFun).
Context (Hvault : env_vaultState env = VaultDB) (Hnumber : 0 <= ctx_BlockNumber (env_ctx env)) (Hrec : cfg_NoRecursion (env_cfg env) = false).
Implicit Types v : VM.

(** All of the EVM but the two states and what the interpreter keeps for itself. *)
Definition control v := (vm_StateDB v, vm_states v, vm_currentStateDepth v, vm_smiloReadOnly v, vm_readOnlyDepth v, vm_depth v, vm_abort v, vm_readOnly v).

(** The EVM of a vault transaction, inside a vault contract or at the start. *)
Record in_vault v : Prop := {
  iv_public : dbgood D (vm_public v);
  iv_vault : dbgood D (vm_vault v);
  iv_StateDB : vm_StateDB v = VaultDB;
  iv_csd : 1 <= vm_currentStateDepth v < 1027;
  iv_below : ∃ r, vm_states v !! Z.to_nat (vm_currentStateDepth v - 1) = Some (Some r);
  iv_ro : vm_smiloReadOnly v = false;
  iv_depth : vm_depth v <= CallCreateDepth
}.
(** [NewEVM] starts one. *)
Lemma NewEVM_in_vault public vault v : dbgood D public → dbgood D vault → NewEVM env public vault = Some v → in_vault v.
Proof using Hvault.
  intros Hp Hq. unfold NewEVM, Push. case_match; [done|]. rewrite Hvault. intros [= <-].
  split; try done. by exists VaultDB.
Qed.

(** The code fails when the interpreter runs it: in an EVM that is not cancelled it ends in an
    error and is back where it was.  What it did to the vault state can be reverted,
    it moved no public balance and left no snapshot of the public state. *)
Definition fails (code input : bytes) (ro : bool) : Prop := ∀ c isVault v, c_Code c = code → vm_abort v = false →
  dbgood D (vm_public v) → dbgood D (vm_vault v) → ∃ ret e c' v',
  interp c input ro isVault v = Some ((ret, Some e, c'), v') ∧ control v' = control v ∧
  dbrel D false (vm_vault v) (vm_vault v') ∧ (∀ a, bal (vm_public v') a = bal (vm_public v) a) ∧
  sd_validRevisions (vm_public v') = sd_validRevisions (vm_public v).

(** A read of one of the two states. *)
Lemma wp_on_vault {A} (m : M StateDB A) (Q : A → VM → Prop) v :
  wp m (λ a s, Q a (set_dbs (vm_public v) s v)) (vm_vault v) → wp (on_db VaultDB m) Q v.
Proof using Type. unfold wp, on_db. by destruct (m (vm_vault v)) as [[? ?]|]. Qed.
Lemma wp_Exist a s : wf D s → wp (Exist a) (λ r s', r = bool_decide (is_Some (peek s a)) ∧ loads D s s') s.
Proof using Type.
  intros Hs. eapply wp_wand; [by apply (with_object_loads D)|]. intros r s' [-> Hl]. split; [|done]. destruct (peek s a); [by rewrite bool_decide_eq_true_2|].
  by rewrite bool_decide_eq_false_2 by (by intros [? ?]).
Qed.

Lemma loads_is_Some s s' a : loads D s s' → is_Some (peek s a) → is_Some (peek s' a).
Proof using Type. intros [Hss _] [o Ho]. pose proof (ss_obj _ _ _ Hss a) as Hrel. rewrite Ho in Hrel. by destruct (peek s' a). Qed.

(** Both states are only loaded from; the rest stays. *)
Record looks v v' : Prop := {
  lk_public : loads D (vm_public v) (vm_public v');
  lk_vault : loads D (vm_vault v) (vm_vault v');
  lk_control : control v' = control v
}.
Lemma looks_trans v1 v2 v3 : looks v1 v2 → looks v2 v3 → looks v1 v3.
Proof using Type. intros [] []. split; [by eapply loads_trans..|congruence]. Qed.
Lemma wp_look {A} db (m : M StateDB A) (R : A → Prop) v : wf D (vm_public v) → wf D (vm_vault v) →
  (let s := match db with PublicDB => vm_public v | VaultDB => vm_vault v end in wp m (λ r s', R r ∧ loads D s s') s) →
  wp (on_db db m) (λ r v', R r ∧ looks v v') v.
Proof using Type.
  intros Hp Hq Hm. destruct db; [apply wp_on_public|apply wp_on_vault]; (eapply wp_wand; [exact Hm|]); intros r s' [HR Hl];
    (split; [done|]); split; cbn; try done; by apply loads_refl.
Qed.
Lemma looks_wf v v' : looks v v' → wf D (vm_public v') ∧ wf D (vm_vault v').
Proof using Type. intros [Hp Hq _]. split; by eapply loads_wf. Qed.
Lemma looks_good v v' : looks v v' → dbgood D (vm_public v) → dbgood D (vm_vault v) → dbgood D (vm_public v') ∧ dbgood D (vm_vault v').
Proof using Type. intros [Hp Hq _] Hgp Hgq. split; [apply (dr_good D false (vm_public v))|apply (dr_good D false (vm_vault v))]; by apply loads_dbrel. Qed.

Definition db_at (r : dbref) v : StateDB := match r with PublicDB => vm_public v | VaultDB => vm_vault v end.
Lemma looks_db v v' r : looks v v' → loads D (db_at r v) (db_at r v').
Proof using Type. intros []. by destruct r. Qed.

(** The state of the callee: the vault state if it has the account. *)
Lemma wp_find addr v : dbgood D (vm_public v) → dbgood D (vm_vault v) → is_Some (peek (vm_public v) addr) ∨ is_Some (peek (vm_vault v) addr) →
  wp (getPrivateOrPublicStateDB env addr) (λ r v', r = (if bool_decide (is_Some (peek (vm_vault v) addr)) then (true, VaultDB) else (false, PublicDB)) ∧ looks v v') v.
Proof using Hvault.
  intros Hp Hq Hex. unfold getPrivateOrPublicStateDB. rewrite Hvault. apply dbgood_wf in Hp, Hq.
  eapply wp_seq; [apply (wp_look VaultDB); [done..|by apply wp_Exist]|]. intros b v1 [-> H1]. destruct (decide (is_Some (peek (vm_vault v) addr))) as [Hv|Hv].
  { rewrite bool_decide_eq_true_2 by done. by wp_step. }
  rewrite bool_decide_eq_false_2 by done. destruct (looks_wf _ _ H1) as [Hp1 Hq1].
  eapply wp_seq; [apply (wp_look PublicDB); [done..|by apply wp_Exist]|]. intros b v2 [-> H2].
  rewrite bool_decide_eq_true_2; [wp_step; split; [done|by eapply looks_trans]|].
  destruct Hex; [|done]. eapply loads_is_Some; [apply H1|done].
Qed.
Lemma wp_callee_of caller object value gas r addr v : dbgood D (vm_public v) → dbgood D (vm_vault v) →
  wp (callee D caller object value gas r addr) (λ c v', c_Code c = code_at D (db_at r v) addr ∧ c_CodeAddr c = Some addr ∧ looks v v') v.
Proof using HD.
  intros Hp Hq. apply dbgood_wf in Hp, Hq. unfold callee.
  apply (wp_seq _ _ (λ _ v', looks v v' ∧ db_at r v' = db_at r v)).
  { destruct caller; cbn [new_jumpdests]; wp_step; by destruct r. }
  intros _ v1 [H1 <-]. destruct (looks_wf _ _ H1) as [Hp1 Hq1].
  eapply wp_seq; [apply (wp_look r _ (λ _, True)); [done..|]|].
  { destruct r; (eapply wp_wand; [by apply with_object_loads|]); by intros ? ? [_ ?]. }
  intros h v2 [_ H2]. destruct (looks_wf _ _ H2) as [Hp2 Hq2].
  eapply wp_seq; [apply (wp_look r _ (λ code, default [] code = code_at D (db_at r v2) addr)); [done..|by destruct r; apply GetCode_loads]|].
  intros code v3 [Hc H3]. wp_step. cbn. rewrite Hc. destruct (loads_code D HD _ _ addr (looks_db _ _ r H2)) as [-> _].
  split; [done|]. split; [done|]. eapply looks_trans, H3. by eapply looks_trans.
Qed.

(** A snapshot of the vault state. *)
Lemma wp_vault_Snapshot v : vm_StateDB v = VaultDB → dbgood D (vm_vault v) →
  wp (on_StateDB StateDB_Snapshot) (λ id v', id = sd_nextRevisionId (vm_vault v) ∧ control v' = control v ∧ vm_public v' = vm_public v ∧
    dbgood D (vm_vault v') ∧ snap_of D (vm_vault v) id (vm_vault v') ∧ ∀ a, peek (vm_vault v') a = peek (vm_vault v) a) v.
Proof using HD.
  intros Hr Hg. unfold on_StateDB, wp. rewrite Hr. apply wp_on_vault. pose proof (wp_Snapshot_of D HD false _ Hg) as Hw. unfold wp in *. cbn in *.
  destruct Hw as (Hrel & Hsn & _). by pose proof (dr_good _ _ _ _ Hrel).
Qed.
(** The run of a contract that fails. *)
Lemma wp_fails c addr input ro isVault v : fails (c_Code c) input ro → c_CodeAddr c = Some addr → precompiles (env_rules env) addr = None →
  vm_abort v = false → dbgood D (vm_public v) → dbgood D (vm_vault v) →
  wp (run env interp c input ro isVault) (λ r v', (∃ ret e c', r = (ret, Some e, c')) ∧ control v' = control v ∧
    dbrel D false (vm_vault v) (vm_vault v') ∧ (∀ a, bal (vm_public v') a = bal (vm_public v) a) ∧
    sd_validRevisions (vm_public v') = sd_validRevisions (vm_public v)) v.
Proof using Type.
  intros Hf Hca Hpre Hab Hp Hq. unfold run, CanRun. rewrite Hca. cbn [mbind option_bind]. rewrite Hpre.
  destruct (Hf c isVault v) as (ret & e & c' & v' & Hr & Hrest); [done..|]. apply (wp_of_run _ _ _ _ _ Hr). split; [by do 3 eexists|done].
Qed.

(** ** A static call of a public contract *)


(** ** A call with a value *)

Lemma wp_Transfer_bal a b value s : dbgood D s → a ≠ b → 0 <= value <= bal s a →
  wp (Transfer a b value (ctx_BlockNumber (env_ctx env))) (λ _ s', dbgood D s' ∧ bal s' a = bal s a - value ∧ bal s' b = bal s b + value) s.
Proof using HD Hnumber.
  intros Hs Hab Hval. unfold Transfer. eapply wp_seq; [apply (wp_SubBalance_good D HD); [done|done|lia]|]. intros u1 s1 [Hr1 Hb1].
  pose proof (dr_good _ _ _ _ Hr1) as Hg1. eapply wp_wand; [apply (wp_AddBalance_good D HD); [done|done|lia]|]. intros u2 s2 [Hr2 Hb2].
  split; [by eapply dr_good|]. rewrite !Hb2, !Hb1. by repeat case_decide.
Qed.
(** The value moves in the public state, under Smilo or not. *)
Lemma wp_vault_transfer a b value isVault v : dbgood D (vm_public v) → vm_smiloReadOnly v = false → a ≠ b → 0 < value <= bal (vm_public v) a →
  wp (smilo_transfer env (mret' PublicDB) a b b value isVault) (λ e v', e = None ∧ control v' = control v ∧ vm_vault v' = vm_vault v ∧ dbgood D (vm_public v') ∧
    bal (vm_public v') a = bal (vm_public v) a - value ∧ bal (vm_public v') b = bal (vm_public v) b + value) v.
Proof using HD Hnumber.
  intros Hp Hro Hab Hval. unfold smilo_transfer. wp_steps. rewrite Hro. cbn [andb]. replace (Z.sgn value =? 0) with false by lia. cbn [negb].
  case_match; apply wp_bind, wp_on_public; (eapply wp_wand; [apply wp_Transfer_bal; [done..|lia]|]); intros ? s' Hs; by wp_step.
Qed.

(** What a failed call leaves of the public balances of the two accounts. *)
Definition value_kept (a b : address) (value : Z) v (r : bytes * Z * err) v' : Prop :=
  r.2 ≠ None ∧ bal (vm_public v') a = bal (vm_public v) a - value ∧ bal (vm_public v') b = bal (vm_public v) b + value.

(** The run of the callee and the revert, which is one of the vault state. *)
Lemma wp_failed_run caller addr input gas value isVault id s s1 v : dbgood D (vm_public v) → dbgood D (vm_vault v) → vm_StateDB v = VaultDB → vm_abort v = false →
  precompiles (env_rules env) addr = None → fails (code_at D (vm_vault v) addr) input false → dbgood D s → snap_of D s id s1 → evolves D s1 (vm_vault v) →
  wp (let! db := current_StateDB in let! contract := callee D caller addr value gas db addr in let! res := run env interp contract input false isVault in
      after_run current_StateDB id res) (λ r v', r.2 ≠ None ∧ control v' = control v ∧ ∀ a, bal (vm_public v') a = bal (vm_public v) a) v.
Proof using HD.
  intros Hp Hq Href Hab Hpre Hf Hs [Hrevs Hnew Hsnaps] Hev. unfold current_StateDB at 1. wp_steps. rewrite Href.
  eapply wp_seq; [by apply wp_callee_of|]. intros c v1 (Hcode & Haddr & Hk). cbn [db_at] in Hcode. destruct (looks_good _ _ Hk Hp Hq) as [Hp1 Hq1].
  injection (lk_control _ _ Hk) as Href1 _ _ _ _ _ Hab1 _.
  eapply wp_seq; [apply (wp_fails c addr); [by rewrite Hcode|done|done|congruence|done..]|]. intros r v2 ((ret & e & c' & ->) & Hc2 & Hrel2 & Hb2 & _).
  pose proof Hc2 as [= Href2 _ _ _ _ _ _ _]. unfold after_run, current_StateDB. wp_steps. rewrite Href2, Href1, Href.
  apply wp_bind, wp_on_vault. eapply wp_wand; [apply (wp_Revert D HD s id s1); [done|apply Hrel2|done|done|done|]|].
  { eapply evolves_trans; [exact Hev|]. eapply evolves_trans, (dr_evolves _ _ _ _ Hrel2). apply (dr_evolves _ false), loads_dbrel; [done|apply Hk]. }
  intros u s3 _. wp_step. cbn. split; [done|]. split; [exact (eq_trans Hc2 (lk_control _ _ Hk))|]. intros a. by rewrite Hb2, (loads_bal D _ _ a (lk_public _ _ Hk)).
Qed.
Lemma wp_failed_body caller addr input gas value isVault v : dbgood D (vm_public v) → dbgood D (vm_vault v) → vm_StateDB v = VaultDB →
  vm_smiloReadOnly v = false → vm_depth v <= CallCreateDepth → vm_abort v = false → is_Some (peek (vm_vault v) addr) → precompiles (env_rules env) addr = None →
  fails (code_at D (vm_vault v) addr) input false → ref_Address caller ≠ addr → 0 < value <= bal (vm_public v) (ref_Address caller) →
  wp (Call_body D env interp caller addr input gas value isVault) (λ r v', value_kept (ref_Address caller) addr value v r v' ∧ control v' = control v) v.
Proof using HD Hnumber.
  intros Hp Hq Href Hro Hdep Hab Hex Hpre Hf Hne Hval. unfold Call_body. wp_step. destruct (Z.ltb_spec CallCreateDepth (vm_depth v)); [lia|].
  pose proof (dbgood_wf D _ Hp) as Hwp. pose proof (dbgood_wf D _ Hq) as Hwq.
  eapply wp_seq; [apply (wp_look PublicDB _ (λ b, b = true)); [done..|]|].
  { unfold CanTransfer. eapply wp_seq; [by apply (rd_GetBalance D HD false)|]. intros b s' (_ & _ & -> & Hl). wp_step. split; [|done]. rewrite big_Cmp_geb. lia. }
  intros can v1 [-> Hk1]. cbn [negb]. destruct (looks_good _ _ Hk1 Hp Hq) as [Hp1 Hq1]. pose proof (lk_control _ _ Hk1) as Hc1. pose proof Hc1 as [= Href1 _ _ Hro1 _ _ Hab1 _].
  eapply wp_seq; [apply wp_vault_Snapshot; [by rewrite Href1|done]|]. intros id v2 (_ & Hc2 & Hpub2 & Hq2 & Hsn & Hpeek2). pose proof Hc2 as [= Href2 _ _ Hro2 _ _ Hab2 _].
  pose proof (dbgood_wf D _ Hq2) as Hwq2. assert (wf D (vm_public v2)) as Hwp2 by (rewrite Hpub2; by apply dbgood_wf).
  apply (wp_seq _ _ (λ b v', b = true ∧ looks v2 v')).
  { unfold on_StateDB, wp. rewrite Href2, Href1, Href. apply (wp_look VaultDB); [done..|]. eapply wp_wand; [by apply wp_Exist|]. intros r s' [-> Hl].
    split; [|done]. apply bool_decide_eq_true_2. rewrite Hpeek2. eapply loads_is_Some; [apply Hk1|done]. }
  intros b v3 [-> Hk3]. cbn [negb andb]. wp_step. destruct (looks_good _ _ Hk3) as [Hp3 Hq3]; [by rewrite Hpub2|done|]. injection (lk_control _ _ Hk3) as Href3 _ _ Hro3 _ _ Hab3 _.
  assert (∀ a, bal (vm_public v3) a = bal (vm_public v) a) as Hb3.
  { intros a. by rewrite (loads_bal D _ _ a (lk_public _ _ Hk3)), Hpub2, (loads_bal D _ _ a (lk_public _ _ Hk1)). }
  eapply wp_seq; [apply wp_vault_transfer; [done|congruence|done|by rewrite Hb3]|]. intros e v4 (-> & Hc4 & Hv4 & Hp4 & Hba & Hbb). pose proof Hc4 as [= Href4 _ _ _ _ _ Hab4 _].
  assert (code_at D (vm_vault v4) addr = code_at D (vm_vault v) addr) as Hcode.
  { rewrite Hv4, (proj1 (loads_code D HD _ _ addr (lk_vault _ _ Hk3))). unfold code_at at 1. rewrite Hpeek2. exact (proj1 (loads_code D HD _ _ addr (lk_vault _ _ Hk1))). }
  cbv iota. eapply wp_wand; [apply (wp_failed_run _ _ _ _ _ _ id (vm_vault v1) (vm_vault v2)); [done|by rewrite Hv4|congruence|congruence|done|by rewrite Hcode|done|done|]|].
  { rewrite Hv4. apply (dr_evolves _ false), loads_dbrel; [done|apply Hk3]. }
  intros r v' (Hr & Hc' & Hb'). split; [|rewrite Hc', Hc4, (lk_control _ _ Hk3); congruence]. split; [done|]. by rewrite !Hb', Hba, Hbb, !Hb3.
Qed.

End vault.

(** Code that starts with an undefined opcode fails in the interpreter. *)
Section undefined.
Context `{!Crypto} `{!PrecompileLib} (D : Database) (env : Env) (jt : JumpTable) (op : byte) (rest : bytes).
Context (Hundef : jt !! byte_Z op = None) (Hmut : isMutating (byte_Z op) = false).
Lemma undefined_loop n ro f : f_pc f = 0 → c_Code (f_contract f) = op :: rest → vm_abort (f_vm f) = false →
  loop env jt (S n) ro f = Some (([], Some (errInvalidOpcode (byte_Z op))), f).
Proof using Hundef Hmut.
  intros Hpc Hcode Hab. cbn [loop]. unfold mbind' at 1, mget. rewrite Hab. unfold mbind' at 1, step, mbind' at 1, mget, GetOp, GetByte.
  rewrite Hpc, Hcode, (proj2 (Z.ltb_lt 0 (blen (op :: rest)))) by done.
  change (default 0 (byte_Z <$> (op :: rest) !! Z.to_nat 0)) with (byte_Z op). by rewrite Hmut, andb_false_r, Hundef.
Qed.
Lemma undefined_fails gas input ro : fails D (runs env jt gas) (op :: rest) input ro.
Proof using Hundef Hmut.
  intros c isVault v Hcode Hab Hp Hq. unfold runs, Run, Run_with.
  exists [], (errInvalidOpcode (byte_Z op)), (set_Input input c), (set_depth (vm_depth v) (set_readOnly (vm_readOnly v) (set_returnData [] v))).
  split; [|by split; [|split; [apply dbrel_refl|]]].
  unfold mbind' at 1 2, mget, mmod. rewrite Hcode. cbn [length Nat.eqb].
  destruct v as [? ? ? ? ? ? ? ? ? ? vro ? ?]. destruct ro, vro; cbn [andb negb vm_readOnly]; unfold mbind', mret', mget, mderef; rewrite undefined_loop by done;
    cbn; by rewrite Z.add_simpl_r.
Qed.
End undefined.
