(* ===== verification/VmTx.v ===== *)
(** * Transactions on the virtual machine

    The state transition of StateTransition with the virtual machine of VmEVM as
    its EVM: a public transaction is applied without a panic, with the accounts of
    StateLaws, and leaves a good state. *)

From Stdlib Require Import ZArith Lia Classical_Prop.
From S2P Require Import Prelude Errors Rlp Fullnode Messages SmiloPay StateDB StateRevert StateTransition StateLaws VmWord VmWordLaws.
From S2P Require Import Vm VmAnalysis VmGas VmContracts VmEVM VmInstr VmInterp VmState VmPrecompiled VmInv VmGasLaws VmOps VmCalls VmStep VmRun VmTables VmLaws.
Open Scope didux_scope.

(** The EVM that [ApplyMessage] gets; [vault] answers for the private payloads. *)
Definition tx_EVM `{!Crypto} `{!PrecompileLib} (D : Database) (env : Env) (R : Z → RunFun) (isGas isGasRefunded : bool)
    (vault : option (bytes → result bytes)) : EVM :=
  MkEVM (ctx_BlockNumber (env_ctx env)) (ctx_Coinbase (env_ctx env)) (IsHomestead (env_rules env)) (env_IsSmilo env)
    isGas isGasRefunded vault (tx_Create D env R) (tx_Call D env R).

(** ** Steps that keep the state good *)

(** If it returns, then in [Q]. *)
Definition wlp {S A} (m : M S A) (Q : A → S → Prop) (s : S) : Prop := ∀ a s', m s = Some (a, s') → Q a s'.
Lemma wlp_wp {S A} (m : M S A) (Q : A → S → Prop) s : wp m Q s → wlp m Q s.
Proof. intros Hw a s' Hm. by eapply wp_run. Qed.
Lemma wlp_bind {S A B} (m : M S A) (f : A → M S B) (Q : B → S → Prop) s : wlp m (λ a, wlp (f a) Q) s → wlp (mbind' m f) Q s.
Proof. intros Hm b s'. unfold mbind'. destruct (m s) as [[a s1]|] eqn:Hr; [|done]. intros Hf. by eapply Hm. Qed.
Lemma wlp_wand {S A} (m : M S A) (P Q : A → S → Prop) s : wlp m P s → (∀ a s', P a s' → Q a s') → wlp m Q s.
Proof. intros Hm Hf a s' Hr. by apply Hf, Hm. Qed.
Lemma wlp_ret {S A} (a : A) (Q : A → S → Prop) s : Q a s → wlp (mret' a) Q s.
Proof. by intros HQ ? ? [= <- <-]. Qed.
Lemma wlp_get {S B} (f : S → M S B) (Q : B → S → Prop) s : wlp (f s) Q s → wlp (mbind' mget f) Q s.
Proof. intros Hf b s' Hr. by apply Hf. Qed.
Lemma wlp_mod {S} (g : S → S) (Q : () → S → Prop) s : Q () (g s) → wlp (mmod g) Q s.
Proof. by intros HQ ? ? [= <- <-]. Qed.
Lemma wlp_deref {S A} (o : option A) (Q : A → S → Prop) s : (∀ a, o = Some a → Q a s) → wlp (mderef o) Q s.
Proof. intros HQ a s' Hr. destruct o; [|done]. injection Hr as <- <-. by apply HQ. Qed.
Implicit Types st : StateTransition.
Lemma wlp_state `{!Crypto} {A} (m : M StateDB A) (Q : A → StateTransition → Prop) st :
  wp m (λ a s, Q a (MkST (st_gp st) (st_gas st) (st_initialGas st) s)) (st_state st) → wlp (on_state m) Q st.
Proof.
  intros Hm a st' Hr. unfold on_state in Hr. cbn in Hr. unfold wp in Hm. destruct (m (st_state st)) as [[b s]|]; [|done]. by injection Hr as <- <-.
Qed.

Section good_steps.
Context `{!Crypto} (D : Database) (HD : db_ok D) (evm : EVM) (msg : Message).
Hypotheses (Hprice : 0 <= msg_GasPrice msg) (Hnum : 0 <= evm_BlockNumber evm) (Hgas : 0 <= msg_Gas msg).
#[local] Set Default Proof Using "HD Hprice Hnum Hgas".

Lemma good_SubSmiloPay a v bn s : dbgood D s → 0 <= bn → (v ≠ 0 → ∃ pay, allowance bn (acct s a) = Some pay ∧ v <= pay) →
  wp (SubSmiloPay a v bn) (λ _ s', dbrel D false s s' ∧ ∀ b, bal s' b = bal s b) s.
Proof using HD.
  intros Hg Hbn Hpay. apply (wp_on_account D HD a (so_SubSmiloPay v bn)); [done|apply SubSmiloPay_steps|].
  intros o s1 Hgt Ho. pose proof (gt_ok _ _ _ _ _ Hgt) as Hok. pose proof (og_balance _ _ Ho) as Hb. unfold so_SubSmiloPay.
  destruct (Z.eqb_spec (Z.sgn v) 0) as [|Hv].
  { wp_step. exists o. split; [apply only_refl|]. split; [apply Hgt|]. split; [done|]. intros b. by apply (gotten_bal D a s s1 o). }
  eapply wp_seq; [by apply (wp_so_UpdateSmiloPay D HD bn a)|]. intros o1 s2 (Hon1 & Hp1 & Hc1 & Hal).
  destruct Hpay as (pay & Hpay & Hle); [lia|]. rewrite (gotten_data D _ _ _ _ Hgt), Hpay in Hal. injection Hal as ->.
  pose proof (data_change_ok D HD _ _ _ _ Hok Hc1) as Hok1. unfold so_SetSmiloPay.
  apply wp_bind. eapply wp_wand; [apply (wp_write _ (setSmiloPay (ac_SmiloPay (so_data o1) - v) o1) _ s2 a); by destruct Hok1|].
  intros x s3 (-> & Hon3 & Hp3). wp_step.
  assert (data_change o (setSmiloPay (ac_SmiloPay (so_data o1) - v) o1) (ac_Balance (so_data o))) as Hc.
  { eapply data_change_trans; [exact HD|exact Hc1|]. eexists. split; [reflexivity|]. split; [apply (data_change_bal D HD _ _ _ Hc1)|].
    split; [|done]. intros [_ ?]. split; [cbn; lia|done]. }
  pose proof (only_trans _ _ _ _ Hon1 Hon3) as Hon. eexists. split; [exact Hon|]. split; [exact Hp3|].
  split; [by eapply (data_change_good D HD)|]. intros b. rewrite (bal_only D HD a s s1 s3 o _ _ b Hgt Hon Hp3 Hc). case_decide; [|done].
  subst b. by rewrite (gotten_balance D _ _ _ _ Hgt).
Qed.

Local Abbreviation stgood := (λ st, dbgood D (st_state st)).
Lemma good_on {A} (m : M StateDB A) (R : A → StateDB → Prop) st :
  wp m (λ a s, dbrel D false (st_state st) s ∧ R a s) (st_state st) → wlp (on_state m) (λ a st', stgood st' ∧ R a (st_state st') ∧
    st_gas st' = st_gas st ∧ st_gp st' = st_gp st ∧ st_initialGas st' = st_initialGas st) st.
Proof using Type. intros Hm. apply wlp_state. eapply wp_wand; [exact Hm|]. intros a s [Hr HR]. split; [apply Hr|done]. Qed.

Lemma good_GetSmiloPay a bn s : dbgood D s →
  wp (GetSmiloPay a bn) (λ pay s', dbrel D false s s' ∧ (pay = 0 ∨ allowance bn (acct s' a) = Some pay)) s.
Proof using HD.
  intros Hg. eapply wp_seq; [apply (getStateObject_loads D a), (dbgood_wf D), Hg|]. intros o s1 (-> & Hl & Hp).
  pose proof (loads_dbrel D false _ _ Hg Hl) as Hr. destruct (peek s a) as [o|] eqn:Ho; [|wp_step; by split; [|left]].
  destruct (CalculateSmiloPay_total (ac_BlockNumber (so_data o)) bn (ac_SmiloPay (so_data o)) (ac_Balance (so_data o))) as [r Hc]; [by apply (dg_objs _ _ Hg a o)|].
  cbv zeta. rewrite Hc. wp_step. split; [done|]. right. unfold acct. by rewrite Hp.
Qed.
Lemma good_buyGas st : stgood st → wlp (buyGas evm msg) (λ _ st', stgood st') st.
Proof.
  intros Hg. unfold buyGas. cbv zeta. set (mgval := msg_Gas msg * msg_GasPrice msg). assert (0 <= mgval) by (unfold mgval; nia). apply wlp_bind.
  eapply wlp_wand; [eapply (good_on _ _ st), good_GetSmiloPay, Hg|]. intros pay st1 (Hg1 & Hpay & _ & _).
  destruct (Z.ltb_spec (big_Cmp pay mgval) 0) as [|Hle]; [by apply wlp_ret|].
  assert (mgval <= pay) as Hmg by (apply Z.nlt_ge; rewrite <-big_Cmp_lt; lia). apply wlp_bind.
  eapply wlp_wand; [eapply (good_on _ _ st1); apply (rd_GetBalance D HD false), Hg1|]. intros b st2 (Hg2 & (_ & -> & Hl2) & _).
  destruct (Z.ltb_spec (big_Cmp (bal (st_state st1) (msg_From msg)) mgval) 0) as [|Hbal]; [by apply wlp_ret|].
  assert (mgval <= bal (st_state st2) (msg_From msg)) as Hcost.
  { rewrite (loads_bal D _ _ _ Hl2). apply Z.nlt_ge. rewrite <-big_Cmp_lt. lia. }
  apply wlp_get. destruct (SubGas _ _) as [gp|]; [|by apply wlp_ret]. apply wlp_bind, wlp_mod, wlp_bind.
  eapply wlp_wand; [eapply (good_on _ _ (MkST gp _ _ (st_state st2))); apply good_SubSmiloPay; [exact Hg2|done|]|].
  { intros Hne. cbn [st_state]. rewrite (loads_acct D _ _ _ Hl2). destruct Hpay as [->|Hpay]; [lia|]. by exists pay. }
  intros _ st3 (Hg3 & Hb3 & _). apply wlp_bind.
  eapply wlp_wand; [eapply (good_on _ _ st3); apply (wp_SubBalance_good D HD); [done|done|by rewrite Hb3]|]. intros _ st4 (Hg4 & _). by apply wlp_ret.
Qed.
Lemma good_preCheck st : stgood st → wlp (preCheck evm msg) (λ _ st', stgood st') st.
Proof.
  intros Hg. unfold preCheck. destruct (msg_CheckNonce msg); [|by apply good_buyGas]. apply wlp_bind.
  eapply wlp_wand; [eapply (good_on _ _ st); apply (rd_GetNonce D HD false), Hg|]. intros n st1 (Hg1 & _).
  case_match; [by apply wlp_ret|]. case_match; [by apply wlp_ret|]. by apply good_buyGas.
Qed.
Lemma good_incrementNonce st : stgood st → wlp (incrementNonce msg) (λ _ st', stgood st') st.
Proof using HD.
  intros Hg. unfold incrementNonce. apply wlp_bind. eapply wlp_wand; [eapply (good_on _ _ st); apply (rd_GetNonce D HD false), Hg|].
  intros n st1 (Hg1 & _). eapply wlp_wand; [eapply (good_on _ _ st1); apply (wp_SetNonce_good D HD), Hg1|]. by intros _ st2 (Hg2 & _).
Qed.
Lemma good_credit a v bn st : stgood st → 0 <= bn → 0 <= v → wlp (on_state (AddBalance a v bn)) (λ _ st', stgood st' ∧ st_gas st' = st_gas st) st.
Proof using HD.
  intros Hg Hbn Hv. eapply wlp_wand; [eapply (good_on _ _ st); apply (wp_AddBalance_good D HD); done|]. by intros _ st1 (Hg1 & _ & ? & _).
Qed.
Lemma gasUsed_nonneg (st : StateTransition) : 0 <= gasUsed st * msg_GasPrice msg.
Proof using Hprice. pose proof (u64_range (st_initialGas st - st_gas st)). unfold gasUsed. nia. Qed.
Lemma good_apply_refund st : stgood st → wlp apply_refund (λ _ st', stgood st' ∧ 0 <= st_gas st') st.
Proof using Type.
  intros Hg. unfold apply_refund. apply wlp_get, wlp_bind, wlp_state. unfold GetRefund. wp_steps. apply wlp_mod. cbn. split; [done|apply u64_range].
Qed.
Lemma good_return_gas st : stgood st → wlp return_gas (λ _ st', stgood st') st.
Proof using Type. intros Hg. unfold return_gas. apply wlp_get, wlp_bind, wlp_deref. intros gp _. by apply wlp_mod. Qed.
Lemma good_after_evm ret left vmerr st : stgood st → 0 <= left → wlp (after_evm evm msg false ret left vmerr) (λ _ st', stgood st') st.
Proof.
  intros Hg Hl. unfold after_evm. case_match; [by apply wlp_ret|]. apply wlp_bind, wlp_mod. apply wlp_bind.
  apply (wlp_wand _ (λ _ st', stgood st')); [|intros _ st1 Hg1; apply wlp_get, wlp_ret; exact Hg1]. case_match.
  - unfold refundGasSmiloVersion. apply wlp_get, wlp_bind. eapply wlp_wand; [apply good_credit; [done|done|apply gasUsed_nonneg]|].
    intros _ st1 [Hg1 _]. apply wlp_bind. eapply wlp_wand; [by apply good_apply_refund|]. intros _ st2 [Hg2 _]. by apply good_return_gas.
  - apply wlp_bind. eapply wlp_wand with (P := λ _ st', stgood st').
    { unfold refundGas. apply wlp_bind. eapply wlp_wand; [by apply good_apply_refund|]. intros _ st1 [Hg1 Hgas1]. apply wlp_get, wlp_bind.
      eapply wlp_wand; [apply good_credit; [done|done|nia]|]. intros _ st2 [Hg2 _]. by apply good_return_gas. }
    intros _ st1 Hg1. unfold pay_coinbase. apply wlp_get. eapply wlp_wand; [apply good_credit; [done|done|apply gasUsed_nonneg]|]. by intros _ st2 [Hg2 _].
Qed.
End good_steps.

(** ** Steps that keep the transaction prepared *)

Section keeps_steps.
Context `{!Crypto} (evm : EVM) (msg : Message).
Implicit Types o : stateObject.
Local Abbreviation txs := (λ st : StateTransition, tx_of (st_state st)).

Lemma keeps_on_state {A} (m : M StateDB A) : keeps tx_of m → keeps txs (on_state m).
Proof. intros Hm st a st' Hr. unfold on_state in Hr. cbn in Hr. destruct (m (st_state st)) as [[b s]|] eqn:Hs; [|done]. injection Hr as <- <-. by apply (Hm _ _ _ Hs). Qed.
Hint Resolve keeps_setStateObject keeps_append keeps_getStateObject keeps_on_state : keeps.
Lemma keeps_reads a bn : keeps tx_of (GetSmiloPay a bn) ∧ keeps tx_of (GetBalance a) ∧ keeps tx_of (GetNonce a) ∧ keeps tx_of GetRefund.
Proof. unfold GetSmiloPay, GetBalance, GetNonce, GetRefund, with_object. split_and!; keeps_tac. Qed.
Lemma keeps_so v bn o : keeps tx_of (so_UpdateSmiloPay bn o) ∧ keeps tx_of (so_SetSmiloPay v o) ∧ keeps tx_of (touch o).
Proof. unfold so_UpdateSmiloPay, so_SetSmiloPay, touch, update. split_and!; keeps_tac. Qed.
Lemma keeps_so_SetBalance v bn o : keeps tx_of (so_SetBalance v bn o).
Proof. unfold so_SetBalance, update. apply keeps_bind; [by apply keeps_so|]. intros. keeps_tac. Qed.
Lemma keeps_GetOrNew a : keeps tx_of (GetOrNewStateObject a).
Proof. unfold GetOrNewStateObject, createObject. keeps_tac. Qed.
Lemma keeps_writes a v bn : keeps tx_of (SubSmiloPay a v bn) ∧ keeps tx_of (SubBalance a v bn) ∧ keeps tx_of (AddBalance a v bn) ∧ keeps tx_of (SetNonce a v).
Proof.
  pose proof keeps_GetOrNew. pose proof keeps_so_SetBalance. pose proof (λ v bn o, proj1 (keeps_so v bn o)). pose proof (λ v bn o, proj1 (proj2 (keeps_so v bn o))).
  pose proof (λ v bn o, proj2 (proj2 (keeps_so v bn o))).
  unfold SubSmiloPay, SubBalance, AddBalance, SetNonce, so_SubSmiloPay, so_SubBalance, so_AddBalance, so_SetNonce, update. split_and!; keeps_tac.
Qed.

Lemma keeps_buyGas : keeps txs (buyGas evm msg).
Proof.
  pose proof (λ a bn, proj1 (keeps_reads a bn)). pose proof (λ a bn, proj1 (proj2 (keeps_reads a bn))).
  pose proof (λ a v bn, proj1 (keeps_writes a v bn)). pose proof (λ a v bn, proj1 (proj2 (keeps_writes a v bn))).
  unfold buyGas. keeps_tac.
Qed.
Lemma keeps_incrementNonce : keeps txs (incrementNonce msg).
Proof.
  unfold incrementNonce. apply keeps_bind; [apply keeps_on_state, (keeps_reads _ 0)|]. intros n. apply keeps_on_state, (keeps_writes _ _ 0).
Qed.
Lemma keeps_preCheck : keeps txs (preCheck evm msg).
Proof.
  pose proof keeps_buyGas. pose proof (λ a, proj1 (proj2 (proj2 (keeps_reads a 0)))). unfold preCheck. case_match; [|done].
  apply keeps_bind; [by apply keeps_on_state|]. intros n. keeps_tac.
Qed.
Lemma keeps_after_evm ret left vmerr : keeps txs (after_evm evm msg false ret left vmerr).
Proof.
  pose proof (λ a v bn, proj1 (proj2 (proj2 (keeps_writes a v bn)))). pose proof (proj2 (proj2 (proj2 (keeps_reads 0 0)))).
  unfold after_evm, refundGasSmiloVersion, refundGas, apply_refund, return_gas, pay_coinbase. keeps_tac.
Qed.
End keeps_steps.

(** ** The transaction *)

Record msg_ok (msg : Message) : Prop := {
  mg_gas : 0 <= msg_Gas msg < 2 ^ 62; mg_price : 0 <= msg_GasPrice msg; mg_value : 0 <= msg_Value msg;
  mg_from : 0 <= msg_From msg; mg_to to : msg_To msg = Some to → 0 <= to; mg_data : small (msg_Data msg)
}.
Lemma wp_wlp_and {S A} (m : M S A) (P Q : A → S → Prop) s : wp m P s → wlp m Q s → wp m (λ a s', P a s' ∧ Q a s') s.
Proof. intros Hp Hq. unfold wp in *. destruct (m s) as [[a s']|] eqn:Hm; [|done]. split; [done|by apply Hq]. Qed.

Lemma wlp_and {S A} (m : M S A) (P Q : A → S → Prop) s : wlp m P s → wlp m Q s → wlp m (λ a s', P a s' ∧ Q a s') s.
Proof. intros Hp Hq a s' Hr. split; [by apply Hp|by apply Hq]. Qed.

Section transactions.
Context `{!Crypto} `{!PrecompileLib} `{PL : !PrecompileLaws} (D : Database) (env : Env).
Context (extra : list Z) (jt : JumpTable) (eips : list Z).
Hypotheses (HD : db_ok D) (HE : env_ok env) (Hjt : NewEVMInterpreter D env extra = Some (jt, eips)).
Context (isGas isGasRefunded : bool) (vault : option (bytes → result bytes)) (msg : Message) (HM : msg_ok msg).

Local Abbreviation evm_of R := (tx_EVM D env R isGas isGasRefunded vault).
Local Abbreviation evm := (evm_of (runs env jt)).
#[local] Set Default Proof Using "All".

Lemma msg_gas64 : 0 <= msg_Gas msg < two64.
Proof. pose proof (mg_gas _ HM). unfold two64. lia. Qed.

(** What [TransitionDb] does before the EVM: the outcome if it ends there, else the gas for the EVM. *)
Definition enter : M StateTransition (outcome + Z) :=
  let! e := preCheck evm msg in
  match e with
  | Some e => mret' (inl ([], 0, false, Some e))
  | None =>
      match IntrinsicGas (msg_Data msg) (bool_decide (msg_To msg = None)) (evm_homestead evm) with
      | inr e => mret' (inl ([], 0, false, Some e))
      | inl gas =>
          let! e := useGas gas in
          match e with
          | Some e => mret' (inl ([], 0, false, Some e))
          | None =>
              let! st := mget in
              do! (if bool_decide (msg_To msg = None) then mret' () else incrementNonce msg) in
              mret' (inr (st_gas st))
          end
      end
  end.
(** The call or creation of the message. *)
Definition run_evm (R : Z → RunFun) (gas : Z) : M StateDB (bytes * Z * err) :=
  match msg_To msg with
  | None => evm_Create (evm_of R) (msg_From msg) (msg_Data msg) gas (msg_Value msg) false
  | Some to => evm_Call (evm_of R) (msg_From msg) to (msg_Data msg) gas (msg_Value msg) false
  end.
Lemma TransitionDb_enter st : env_IsSmilo env && msg_IsVault msg = false →
  TransitionDb evm msg st =
  (let! x := enter in
   match x with
   | inl r => mret' r
   | inr gas => let! r := on_state (run_evm (runs env jt) gas) in let '(ret, gasNotUsed, vmerr) := r in after_evm evm msg false ret gasNotUsed vmerr
   end) st.
Proof using Type.
  intros Hpub. unfold TransitionDb, enter, StateTransition.execute, run_evm. cbn [evm_IsSmilo tx_EVM]. rewrite Hpub. unfold mbind'.
  destruct (preCheck evm msg st) as [[[e|] st1]|]; [done| |done]. destruct (IntrinsicGas _ _ _) as [gas|e]; [|done].
  unfold mret' at 1. destruct (useGas gas st1) as [[[e|] st2]|]; [done| |done]. unfold mget.
  destruct (msg_To msg) as [to|] eqn:Hto.
  - rewrite bool_decide_false by done. destruct (incrementNonce msg st2) as [[[] st3]|]; [|done]. by rewrite andb_false_r.
  - by rewrite bool_decide_true.
Qed.

(** The state and the gas that the EVM is given. *)
Record entered (gp : Z) (s : StateDB) (gas : Z) (st : StateTransition) : Prop := {
  en_initial : st_initialGas st = msg_Gas msg; en_pool : st_gp st = gp - msg_Gas msg; en_pool0 : 0 <= st_gp st;
  en_gas : 0 <= gas <= msg_Gas msg; en_good : dbgood D (st_state st);
  en_paid b : bal (st_state st) b = bal s b + at_ (msg_From msg) (- (msg_Gas msg * msg_GasPrice msg)) b
}.
Lemma wp_enter gp s : dbgood D s → 0 <= gp < two64 →
  wp enter (λ x st, match x with
    | inl r => r.2 ≠ None ∧ dbgood D (st_state st)
    | inr gas => entered gp s gas st
    end) (NewStateTransition gp s).
Proof.
  intros Hs Hgp. pose proof msg_gas64 as Hg64. pose proof (mg_gas _ HM) as Hg62. unfold enter. eapply wp_seq.
  { apply wp_wlp_and; [apply (wp_preCheck D evm msg Hg64 (mg_price _ HM)); [by apply (dbgood_wf D)|intros b; by apply (dbgood_bal D)|done]|].
    apply (good_preCheck D HD evm msg (mg_price _ HM) (eo_number _ HE)); [lia|exact Hs]. }
  intros e st [Hb Hgood]. destruct e as [e|]; [done|].
  destruct (Hb eq_refl) as (Hgp1 & Hgp0 & Hg & Hi & Hm & Hnn). cbn [st_gp st_state NewStateTransition] in Hgp1, Hm.
  rewrite IntrinsicGas_total. set (total := intrinsic_total _ _ _). assert (0 <= total).
  { unfold total, intrinsic_total, TxGas, TxGasContractCreation. pose proof (nonzero_bytes_range (msg_Data msg)). case_match; lia. }
  destruct (Z.leb_spec total MaxUint64); [|done]. eapply (wp_seq _ _ (λ e st', match e with Some _ => st' = st | None => total <= msg_Gas msg ∧ st' = set_gas (msg_Gas msg - total) st end)).
  { unfold useGas, wp, mbind', mget. rewrite Hg. destruct (Z.ltb_spec (msg_Gas msg) total); [done|]. by split. }
  intros [e|] st1; [by intros ->|]. intros [Hle ->]. unfold wp at 1, mbind' at 1, mget. cbn [set_gas st_gas].
  eapply (wp_seq _ _ (λ _ st', entered gp s (msg_Gas msg - total) st')); [|done]. case_bool_decide as Hto.
  - split; cbn; try done; [lia|]. intros b. apply (mv_bal _ _ _ _ Hm).
  - eapply wp_wand; [apply wp_wlp_and; [apply (wp_incrementNonce D evm msg Hg64 (mg_price _ HM)); cbn; apply Hm|apply (good_incrementNonce D HD msg); exact Hgood]|].
    cbn [set_gas st_gp st_gas st_initialGas st_state]. intros [] st2 [(Hgp2 & Hg2 & Hi2 & Hwf2 & Hb2) Hgood2].
    split; [by rewrite Hi2|by rewrite Hgp2|by rewrite Hgp2|lia|done|]. intros b. by rewrite Hb2, (mv_bal _ _ _ _ Hm).
Qed.

(** The EVM's answer, and the rest of the transition. *)
Lemma keeps_enter : keeps (λ st : StateTransition, tx_of (st_state st)) enter.
Proof using Type.
  pose proof (keeps_preCheck evm msg). pose proof (keeps_incrementNonce msg). unfold enter, useGas. keeps_tac.
Qed.
(** What the run of the EVM promises. *)
Definition evm_post (gas : Z) (s : StateDB) (r : bytes * Z * err) (s' : StateDB) : Prop := 0 <= r.1.2 <= gas ∧ dbgood D s' ∧ tx_of s' = tx_of s.
Lemma wp_evm gp s gas st : entered gp s gas st → gp < two64 →
  wp (run_evm (runs env jt) gas) (evm_post gas (st_state st)) (st_state st) →
  wp (let! r := on_state (run_evm (runs env jt) gas) in let '(ret, gasNotUsed, vmerr) := r in after_evm evm msg false ret gasNotUsed vmerr)
    (λ r st', account_of evm msg gp s r st' ∧ dbgood D (st_state st') ∧ tx_of (st_state st') = tx_of (st_state st)) st.
Proof.
  intros [Hi Hgp' Hgp Hgas _ Hpaid] Hfit Hw. unfold wp in Hw.
  destruct (run_evm (runs env jt) gas (st_state st)) as [[[[ret rest] vmerr] s2]|] eqn:Hrun; [|done]. destruct Hw as (Hleft & Hg2 & Ht2). cbn in Hleft.
  eapply wp_state_seq; [by apply (wp_of_run _ (λ x y, x = (ret, rest, vmerr) ∧ y = s2) _ _ _ Hrun)|]. intros ? ? [-> ->].
  eapply wp_wand; [apply wp_wlp_and; [|apply (wlp_and _ (λ _ st', dbgood D (st_state st')) (λ _ st', tx_of (st_state st') = tx_of s2)); [apply (good_after_evm D HD); [apply HM|apply HE|lia|cbn; exact Hg2|lia]|]]|].
  - apply (wp_after_evm D evm msg msg_gas64 (mg_price _ HM) _ ret rest vmerr gp s (st_state st) s2); cbn; try done; try lia;
      [by apply (dbgood_wf D)|intros b; by apply (dbgood_bal D)|apply Hg2|].
    exists (msg_Data msg), gas. split; [lia|]. split; [lia|]. rewrite <-Hrun. unfold run_evm. by destruct (msg_To msg).
  - intros x st' Hr. by rewrite (keeps_after_evm evm msg _ _ _ _ _ _ Hr).
  - intros [[[ret' used] failed] e] st' [Hacc [Hg' Ht']]. split; [|by rewrite Ht']. intros He. destruct (Hacc He) as [-> ?]. by exists (st_state st), s2, rest, vmerr.
Qed.
Lemma run_evm_ok R gas s : (∀ gas, 0 <= gas → interp_ok D env (gas + 1) (R gas)) → dbgood D s → 0 <= gas <= msg_Gas msg →
  wp (run_evm R gas) (evm_post gas s) s.
Proof.
  intros HR Hs Hgas. pose proof (mg_gas _ HM). unfold run_evm. destruct (msg_To msg) as [to|] eqn:Hto.
  - eapply wp_wand; [apply (tx_Call_ok D env HD HE R HR); [done|apply HM|by apply (mg_to _ HM)|apply HM|lia|apply HM]|]. intros r s' []. by split.
  - eapply wp_wand; [apply (tx_Create_ok D env HD HE R HR); [done|apply HM|apply HM|lia|apply HM]|]. intros r s' []. by split.
Qed.

(** The run of the EVM in this transaction depends on a stale analysis. *)
Definition tx_meets_stale (gp : Z) (s : StateDB) : Prop :=
  ∃ gas st, enter (NewStateTransition gp s) = Some (inr gas, st) ∧ meets_stale D env jt (λ R, run_evm R gas (st_state st)).

Lemma ApplyMessage_runs gp s : dbgood D s → 0 <= gp < two64 → env_IsSmilo env && msg_IsVault msg = false →
  tx_meets_stale gp s ∨
  ∃ r st', ApplyMessage evm msg gp s = Some (r, st') ∧ account_of evm msg gp s r st' ∧ dbgood D (st_state st') ∧ tx_of (st_state st') = tx_of s.
Proof.
  intros Hs Hgp Hpub. destruct (classic (tx_meets_stale gp s)) as [|Hno]; [by left|right].
  enough (wp (TransitionDb evm msg) (λ r st', account_of evm msg gp s r st' ∧ dbgood D (st_state st') ∧ tx_of (st_state st') = tx_of s) (NewStateTransition gp s)) as Hw.
  { unfold wp in Hw. unfold ApplyMessage. destruct (TransitionDb evm msg (NewStateTransition gp s)) as [[r st']|]; [|done]. by exists r, st'. }
  unfold wp. rewrite TransitionDb_enter by done. pose proof (wp_enter gp s Hs Hgp) as He. unfold wp in He. unfold mbind' at 1.
  destruct (enter (NewStateTransition gp s)) as [[[r|gas] st]|] eqn:Hen; [| |done]; pose proof (keeps_enter _ _ _ Hen) as Ht; cbn [st_state NewStateTransition] in Ht.
  - destruct He as [Hne Hg]. destruct r as [[[ret used] failed] e]. unfold mret'. split; [|by split]. intros ->. by destruct Hne.
  - rewrite <-Ht. apply (wp_evm gp s gas st He (proj2 Hgp)).
    destruct (unless_stale_wp D env extra jt eips HD HE Hjt (λ R, run_evm R gas) (evm_post gas (st_state st)) (st_state st)) as [Hst|Hw]; [|by destruct Hno; exists gas, st|done].
    intros R HR. by apply run_evm_ok; [|apply He..].
Qed.

End transactions.
