(* ===== verification/ChainConfig.v ===== *)
(** * Chain configuration: params/config.go

    Which rules hold at which block, and whether a stored configuration may be
    replaced by a new one.  [CheckCompatible] looks for the lowest conflict by going
    back from the head; it ends when the check of the EIP-155 fields is off, and with
    the check on it can run forever. *)

From Stdlib Require Import ZArith Lia String.
From S2P Require Import Prelude Vm VmWordLaws.
Open Scope didux_scope.

(** A nil block or chain id is [None]; [EIP150Hash], the settings of the engines ([Ethash], [Clique],
    [Sport]) and [RequiredMinFunds] are left out. *)
Record ChainConfig := MkChainConfig {
  cc_ChainID : option Z;
  cc_HomesteadBlock : option Z;
  cc_DAOForkBlock : option Z; cc_DAOForkSupport : bool;
  cc_EIP150Block : option Z; cc_EIP155Block : option Z; cc_EIP158Block : option Z;
  cc_SixtySixPercentBlock : option Z;
  cc_ByzantiumBlock : option Z; cc_ConstantinopleBlock : option Z; cc_PetersburgBlock : option Z;
  cc_IstanbulBlock : option Z; cc_EWASMBlock : option Z;
  cc_IsSmilo : bool; cc_IsGas : bool; cc_IsGasRefunded : bool;
  cc_CustomTransactionSizeLimit : Z
}.

Definition isForked (s head : option Z) : bool :=
  match s, head with Some s, Some head => big_Cmp s head <=? 0 | _, _ => false end.
Definition configNumEqual (x y : option Z) : bool :=
  match x, y with None, None => true | Some x, Some y => big_Cmp x y =? 0 | _, _ => false end.
Definition isForkIncompatible (s1 s2 head : option Z) : bool :=
  (isForked s1 head || isForked s2 head) && negb (configNumEqual s1 s2).

Section rules.
Context (c : ChainConfig) (num : option Z).
Definition cc_IsHomestead : bool := isForked (cc_HomesteadBlock c) num.
Definition cc_IsDAOFork : bool := isForked (cc_DAOForkBlock c) num.
Definition cc_IsEIP150 : bool := isForked (cc_EIP150Block c) num.
Definition cc_IsEIP155 : bool := isForked (cc_EIP155Block c) num.
Definition cc_IsEIP158 : bool := isForked (cc_EIP158Block c) num.
Definition cc_IsByzantium : bool := isForked (cc_ByzantiumBlock c) num.
Definition cc_IsConstantinople : bool := isForked (cc_ConstantinopleBlock c) num.
Definition cc_IsPetersburg : bool :=
  isForked (cc_PetersburgBlock c) num || bool_decide (cc_PetersburgBlock c = None) && isForked (cc_ConstantinopleBlock c) num.
Definition cc_IsIstanbul : bool := isForked (cc_IstanbulBlock c) num.
Definition cc_IsEWASM : bool := isForked (cc_EWASMBlock c) num.
(** [Rules]; the chain id is apart, in the [Env] of the virtual machine. *)
Definition cc_Rules : Rules :=
  MkRules cc_IsHomestead cc_IsEIP150 cc_IsEIP155 cc_IsEIP158 cc_IsByzantium cc_IsConstantinople cc_IsPetersburg cc_IsIstanbul.
End rules.

Definition IsValid (c : ChainConfig) : bool :=
  negb ((cc_CustomTransactionSizeLimit c <? 32) || (128 <? cc_CustomTransactionSizeLimit c)).

(** ** Compatibility *)

Record ConfigCompatError := MkCompatError { ce_What : string; ce_StoredConfig : option Z; ce_NewConfig : option Z; ce_RewindTo : Z }.

Definition newCompatError (what : string) (storedblock newblock : option Z) : ConfigCompatError :=
  let rew := match storedblock, newblock with
             | None, _ => newblock
             | Some s, None => storedblock
             | Some s, Some n => if big_Cmp s n <? 0 then storedblock else newblock
             end in
  MkCompatError what storedblock newblock match rew with Some r => if 0 <? Z.sgn r then u64 (big_Uint64 r - 1) else 0 | None => 0 end.

Definition checkCompatible (c newcfg : ChainConfig) (head : Z) (isSmiloEIP155Activated : bool) : option ConfigCompatError :=
  let h := Some head in
  let fork (what : string) (f : ChainConfig → option Z) (rest : option ConfigCompatError) :=
    if isForkIncompatible (f c) (f newcfg) h then Some (newCompatError what (f c) (f newcfg)) else rest in
  fork "Homestead fork block" cc_HomesteadBlock
  (fork "DAO fork block" cc_DAOForkBlock
  (if cc_IsDAOFork c h && negb (eqb (cc_DAOForkSupport c) (cc_DAOForkSupport newcfg))
   then Some (newCompatError "DAO fork support flag" (cc_DAOForkBlock c) (cc_DAOForkBlock newcfg)) else
  (fork "EIP150 fork block" cc_EIP150Block
  (if isSmiloEIP155Activated && bool_decide (is_Some (cc_ChainID c)) && isForkIncompatible (cc_EIP155Block c) (cc_EIP155Block newcfg) h
   then Some (newCompatError "EIP155 fork block" (cc_EIP155Block c) (cc_EIP155Block newcfg)) else
  (if isSmiloEIP155Activated && bool_decide (is_Some (cc_ChainID c)) && cc_IsEIP155 c h && negb (configNumEqual (cc_ChainID c) (cc_ChainID newcfg))
   then Some (newCompatError "EIP155 chain ID" (cc_ChainID c) (cc_ChainID newcfg)) else
  (fork "EIP158 fork block" cc_EIP158Block
  (if cc_IsEIP158 c h && negb (configNumEqual (cc_ChainID c) (cc_ChainID newcfg))
   then Some (newCompatError "EIP158 chain ID" (cc_EIP158Block c) (cc_EIP158Block newcfg)) else
  (fork "Byzantium fork block" cc_ByzantiumBlock
  (fork "Constantinople fork block" cc_ConstantinopleBlock
  (fork "Petersburg fork block" cc_PetersburgBlock
  (fork "Istanbul fork block" cc_IstanbulBlock
  (fork "ewasm fork block" cc_EWASMBlock None)))))))))))).

(** The loop of [CheckCompatible]; the outer [None] is the end of the fuel. *)
Fixpoint compat_loop (fuel : nat) (c newcfg : ChainConfig) (bhead : Z) (activated : bool) (lasterr : option ConfigCompatError) :
    option (option ConfigCompatError) :=
  match fuel with
  | O => None
  | S fuel =>
      match checkCompatible c newcfg bhead activated with
      | None => Some lasterr
      | Some err =>
          if match lasterr with Some l => ce_RewindTo err =? ce_RewindTo l | None => false end then Some lasterr
          else compat_loop fuel c newcfg (ce_RewindTo err) activated (Some err)
      end
  end.
Definition CheckCompatible (fuel : nat) (c newcfg : ChainConfig) (height : Z) (activated : bool) : option (option ConfigCompatError) :=
  compat_loop fuel c newcfg height activated None.

(** ** When two configurations agree *)

(** The blocks that switch rules on, as far as the check without EIP-155 looks at them. *)
Definition forks : list (ChainConfig → option Z) :=
  [cc_HomesteadBlock; cc_DAOForkBlock; cc_EIP150Block; cc_EIP158Block; cc_ByzantiumBlock; cc_ConstantinopleBlock; cc_PetersburgBlock;
   cc_IstanbulBlock; cc_EWASMBlock].
(** Up to block [h] the two configurations switch on the same of these rules, with the same
    answer to the DAO fork and the same chain id. *)
Record agree (c n : ChainConfig) (h : Z) : Prop := {
  ag_fork f b : f ∈ forks → 0 <= b <= h → isForked (f c) (Some b) = isForked (f n) (Some b);
  ag_dao : cc_IsDAOFork c (Some h) = true → cc_DAOForkSupport c = cc_DAOForkSupport n;
  ag_chain : cc_IsEIP158 c (Some h) = true → cc_ChainID c = cc_ChainID n
}.
Definition sane (c : ChainConfig) : Prop := ∀ f v, f ∈ forks → f c = Some v → 0 <= v.

Lemma isForked_spec s h : isForked s (Some h) = true ↔ ∃ v, s = Some v ∧ v <= h.
Proof.
  unfold isForked. destruct s as [v|]; [|split; [done|by intros (v & ? & _)]]. rewrite big_Cmp_leb, Z.leb_le.
  split; [by exists v|by intros (? & [= <-] & ?)].
Qed.
Lemma isForked_mono s h h' : isForked s (Some h) = true → h <= h' → isForked s (Some h') = true.
Proof. rewrite !isForked_spec. intros (v & -> & ?) ?. exists v. split; [done|lia]. Qed.
Lemma configNumEqual_spec x y : configNumEqual x y = true ↔ x = y.
Proof.
  unfold configNumEqual. destruct x as [x|], y as [y|]; try done. rewrite Z.eqb_eq, big_Cmp_eq. split; [by intros ->|by intros [= ->]].
Qed.
Lemma agree_mono c n h h' : agree c n h' → h <= h' → agree c n h.
Proof.
  intros [Hf Hd Hc] Hle. split; [intros f b Hin Hb; apply Hf; [done|lia]|intros Hx; apply Hd; by eapply isForked_mono|intros Hx; apply Hc; by eapply isForked_mono].
Qed.

(** An error says to go back before a block on which the configurations disagree. *)
Definition blames (c n : ChainConfig) (head : Z) (e : ConfigCompatError) : Prop :=
  ∃ rew, 0 <= rew <= head ∧ ¬ agree c n rew ∧ ce_RewindTo e = Z.max 0 (rew - 1).

Lemma newCompatError_rewind what s n : (∀ v, s = Some v → 0 <= v) → (∀ v, n = Some v → 0 <= v) → ∀ h, h < two64 →
  isForked s (Some h) = true ∨ isForked n (Some h) = true →
  ∃ rew, 0 <= rew <= h ∧ ce_RewindTo (newCompatError what s n) = Z.max 0 (rew - 1) ∧
    ((s = Some rew ∧ isForked n (Some rew) = bool_decide (s = n)) ∨ (n = Some rew ∧ isForked s (Some rew) = bool_decide (s = n))).
Proof.
  intros Hs Hn h Hh Hf.
  assert (∀ r, 0 <= r <= h → (if 0 <? Z.sgn r then u64 (big_Uint64 r - 1) else 0) = Z.max 0 (r - 1)) as Hr.
  { intros r Hr. destruct (Z.ltb_spec 0 (Z.sgn r)) as [Hpos|]; [apply Z.sgn_pos_iff in Hpos|lia]. unfold big_Uint64, u64. rewrite Z.abs_eq, (Z.mod_small r), Z.mod_small by (unfold two64 in *; lia). lia. }
  rewrite !isForked_spec in Hf. unfold newCompatError. cbn. destruct s as [s|], n as [n|].
  - specialize (Hs s eq_refl). specialize (Hn n eq_refl). destruct (Z.ltb_spec (big_Cmp s n) 0) as [Hlt|Hge].
    + rewrite big_Cmp_lt in Hlt. exists s. assert (0 <= s <= h) by (destruct Hf as [(? & [= <-] & ?)|(? & [= <-] & ?)]; lia).
      split; [done|]. split; [by apply Hr|]. left. split; [done|]. rewrite bool_decide_false by (intros [= ->]; lia).
      apply not_true_is_false. rewrite isForked_spec. intros (? & [= <-] & ?). lia.
    + assert (n <= s) by (apply Z.nlt_ge; rewrite <-big_Cmp_lt; lia). exists n.
      assert (0 <= n <= h) by (destruct Hf as [(? & [= <-] & ?)|(? & [= <-] & ?)]; lia).
      split; [done|]. split; [by apply Hr|]. right. split; [done|]. case_bool_decide as Heq.
      * injection Heq as ->. apply isForked_spec. by exists n.
      * apply not_true_is_false. rewrite isForked_spec. intros (? & [= <-] & ?). destruct Heq. f_equal. lia.
  - specialize (Hs s eq_refl). destruct Hf as [(? & [= <-] & ?)|(? & ? & ?)]; [|done]. exists s. split; [lia|]. split; [by apply Hr|]. by left.
  - specialize (Hn n eq_refl). destruct Hf as [(? & ? & ?)|(? & [= <-] & ?)]; [done|]. exists n. split; [lia|]. split; [by apply Hr|]. by right.
  - by destruct Hf as [(? & ? & ?)|(? & ? & ?)].
Qed.

Section compatible.
Context (c n : ChainConfig) (Hc : sane c) (Hn : sane n).
#[local] Set Default Proof Using "Hc Hn".

Lemma fork_blames what f h : f ∈ forks → h < two64 → isForkIncompatible (f c) (f n) (Some h) = true →
  blames c n h (newCompatError what (f c) (f n)).
Proof.
  intros Hf Hh (Hfk & Hne%negb_true_iff)%andb_true_iff. apply orb_true_iff in Hfk.
  assert (f c ≠ f n) as Hneq by (rewrite <-configNumEqual_spec; congruence).
  destruct (newCompatError_rewind what (f c) (f n)) with (h := h) as (rew & Hrew & Hto & Hcase); [intros v; by apply Hc|intros v; by apply Hn|done|done|].
  exists rew. split; [done|]. split; [|done]. intros Hag. pose proof (ag_fork _ _ _ Hag f rew Hf ltac:(lia)) as Heq.
  rewrite bool_decide_false in Hcase by done.
  destruct Hcase as [[Hs Hx]|[Hs Hx]]; rewrite Hx in Heq; rewrite Hs in Heq; unfold isForked in Heq; rewrite big_Cmp_leb, Z.leb_refl in Heq; done.
Qed.
Lemma fork_agrees f h b : isForkIncompatible (f c) (f n) (Some h) = false → b <= h → isForked (f c) (Some b) = isForked (f n) (Some b).
Proof.
  intros Hi Hb. unfold isForkIncompatible in Hi. apply andb_false_iff in Hi as [[H1 H2]%orb_false_iff|Heq%negb_false_iff%configNumEqual_spec]; [|by rewrite Heq].
  assert (∀ s, isForked s (Some h) = false → isForked s (Some b) = false) as Hm.
  { intros s Hs. destruct (isForked s (Some b)) eqn:Hb'; [|done]. by rewrite (isForked_mono s b h Hb' Hb) in Hs. }
  by rewrite (Hm _ H1), (Hm _ H2).
Qed.
(** A field that goes with a fork on which the two agree. *)
Lemma field_blames what f h : f ∈ forks → h < two64 → isForkIncompatible (f c) (f n) (Some h) = false → isForked (f c) (Some h) = true →
  (∀ rew, isForked (f c) (Some rew) = true → ¬ agree c n rew) → blames c n h (newCompatError what (f c) (f n)).
Proof.
  intros Hf Hh Hi Hfk Hno.
  assert (f c = f n) as Heq.
  { unfold isForkIncompatible in Hi. rewrite Hfk in Hi. by apply negb_false_iff, configNumEqual_spec in Hi. }
  destruct (newCompatError_rewind what (f c) (f n)) with (h := h) as (rew & Hrew & Hto & Hcase); [intros v; by apply Hc|intros v; by apply Hn|done|by left|].
  exists rew. split; [done|]. split; [|done]. apply Hno. apply isForked_spec. exists rew. split; [|lia]. destruct Hcase as [[? _]|[? _]]; congruence.
Qed.

Ltac fork_case H := lazymatch goal with
  | |- context [isForkIncompatible (?f c) (?f n) ?h] =>
      destruct (isForkIncompatible (f c) (f n) h) eqn:H; [apply (fork_blames _ f); [set_solver|lia|done]|]
  end.
Lemma checkCompatible_spec h : 0 <= h < two64 →
  match checkCompatible c n h false with None => agree c n h | Some e => blames c n h e end.
Proof.
  intros Hh. unfold checkCompatible. cbn [andb]. fork_case H1. fork_case H2.
  destruct (cc_IsDAOFork c (Some h) && _) eqn:Hdao.
  { apply andb_true_iff in Hdao as [Hdao Hne%negb_true_iff%eqb_false_iff]. apply (field_blames _ cc_DAOForkBlock); [set_solver|lia|done..|].
    intros rew Hr Hag. by apply Hne, (ag_dao _ _ _ Hag). }
  fork_case H3. fork_case H4. destruct (cc_IsEIP158 c (Some h) && _) eqn:Hid.
  { apply andb_true_iff in Hid as [Hid Hne%negb_true_iff]. apply (field_blames _ cc_EIP158Block); [set_solver|lia|done..|].
    intros rew Hr Hag. pose proof (ag_chain _ _ _ Hag Hr) as Heq. apply configNumEqual_spec in Heq. congruence. }
  fork_case H5. fork_case H6. fork_case H7. fork_case H8. fork_case H9. split.
  - intros f b Hf Hb. apply (fork_agrees f h); [|lia]. unfold forks in Hf. rewrite !elem_of_cons, elem_of_nil in Hf. naive_solver.
  - intros Hx. rewrite Hx in Hdao. by destruct (cc_DAOForkSupport c), (cc_DAOForkSupport n).
  - intros Hx. rewrite Hx in Hid. by apply negb_false_iff, configNumEqual_spec in Hid.
Qed.

(** ** The loop *)

Lemma compat_loop_ok height fuel bhead last : 0 <= height < two64 → 0 <= bhead →
  match last with
  | None => (S (Z.to_nat bhead) < fuel)%nat ∧ bhead = height
  | Some l => (Z.to_nat bhead < fuel)%nat ∧ bhead = ce_RewindTo l ∧ ∃ rew, 0 <= rew <= height ∧ ¬ agree c n rew ∧ bhead = Z.max 0 (rew - 1)
  end →
  ∃ r, compat_loop fuel c n bhead false last = Some r ∧
    match r with
    | None => agree c n height
    | Some e => 0 <= ce_RewindTo e ∧ ¬ agree c n height ∧ ∀ b, 0 < b <= height → agree c n b ↔ b <= ce_RewindTo e
    end.
Proof.
  intros Hh. revert bhead last. induction fuel as [|fuel IH]; intros bhead last Hb Hlast; [destruct last; lia|].
  assert (bhead <= height) as Hbh by (destruct last as [l|]; [destruct Hlast as (_ & _ & rew & ? & _ & ->); lia|lia]).
  pose proof (checkCompatible_spec bhead ltac:(lia)) as Hspec. cbn [compat_loop].
  destruct last as [l|]; cycle 1.
  - destruct (checkCompatible c n bhead false) as [e|]; [|exists None; by destruct Hlast as [_ <-]].
    destruct Hspec as (rew & Hrew & Hno & Hto). apply IH; [lia|]. split; [lia|]. split; [done|]. exists rew. split; [lia|]. by split.
  - destruct Hlast as (Hfuel & Hl & rew & Hrew & Hno & Hto).
    assert (agree c n bhead ∨ bhead = 0 → 0 <= ce_RewindTo l ∧ ¬ agree c n height ∧ ∀ b, 0 < b <= height → agree c n b ↔ b <= ce_RewindTo l) as Hdone.
    { intros Hend. rewrite <-Hl. split; [done|]. split; [intros Hag; apply Hno; eapply agree_mono; [done|lia]|]. intros b Hb0. split.
      - intros Hag. destruct (Z.le_gt_cases b bhead) as [|Hgt]; [done|]. exfalso. apply Hno. eapply agree_mono; [done|lia].
      - intros Hle. destruct Hend as [Hag|]; [eapply agree_mono; [done|lia]|lia]. }
    destruct (checkCompatible c n bhead false) as [e|]; [|exists (Some l); split; [done|]; apply Hdone; by left].
    destruct Hspec as (rew' & Hrew' & Hno' & Hto').
    destruct (Z.eqb_spec (ce_RewindTo e) (ce_RewindTo l)) as [Heq|Hne]; [exists (Some l); split; [done|]; apply Hdone; right; lia|].
    apply IH; [lia|]. split; [lia|]. split; [done|]. exists rew'. split; [lia|]. by split.
Qed.

(** C32. [CheckCompatible], without the check of the EIP-155 fields, ends after at most [height + 3]
    checks.  It reports no error exactly when the two configurations agree, on every
    block up to the head, about the nine forks that are compared ([forks]: not the 66% block), the DAO
    flag and the chain id; otherwise [RewindTo] is the highest block up to which they agree. *)
Theorem CheckCompatible_exact height : 0 <= height < two64 →
  ∃ r, CheckCompatible (Z.to_nat height + 3) c n height false = Some r ∧
    match r with
    | None => agree c n height
    | Some e => 0 <= ce_RewindTo e ∧ ¬ agree c n height ∧ ∀ b, 0 < b <= height → agree c n b ↔ b <= ce_RewindTo e
    end.
Proof. intros Hh. apply compat_loop_ok; [done|lia|]. split; [lia|done]. Qed.
End compatible.

(** ** What is not compared *)

Definition set_SixtySixPercentBlock (b : option Z) (c : ChainConfig) : ChainConfig :=
  MkChainConfig (cc_ChainID c) (cc_HomesteadBlock c) (cc_DAOForkBlock c) (cc_DAOForkSupport c) (cc_EIP150Block c) (cc_EIP155Block c) (cc_EIP158Block c)
    b (cc_ByzantiumBlock c) (cc_ConstantinopleBlock c) (cc_PetersburgBlock c) (cc_IstanbulBlock c) (cc_EWASMBlock c)
    (cc_IsSmilo c) (cc_IsGas c) (cc_IsGasRefunded c) (cc_CustomTransactionSizeLimit c).
Lemma isForkIncompatible_refl s h : isForkIncompatible s s h = false.
Proof. unfold isForkIncompatible. by rewrite (proj2 (configNumEqual_spec s s) eq_refl), andb_false_r. Qed.

(** The 66% block, from which on a header needs the seals of a full quorum, is not compared: a
    configuration with any other value of it is accepted, however far the chain has
    grown, with and without the EIP-155 check. *)
Theorem SixtySixPercentBlock_unchecked c b height activated : CheckCompatible 1 c (set_SixtySixPercentBlock b c) height activated = Some None.
Proof.
  unfold CheckCompatible. cbn [compat_loop]. unfold checkCompatible. cbn [set_SixtySixPercentBlock cc_ChainID cc_HomesteadBlock cc_DAOForkBlock cc_DAOForkSupport
    cc_EIP150Block cc_EIP155Block cc_EIP158Block cc_ByzantiumBlock cc_ConstantinopleBlock cc_PetersburgBlock cc_IstanbulBlock cc_EWASMBlock].
  rewrite !isForkIncompatible_refl, eqb_reflx, (proj2 (configNumEqual_spec (cc_ChainID c) (cc_ChainID c)) eq_refl). cbn [negb]. by rewrite !andb_false_r.
Qed.

(** ** Running forever *)

(** Two private chains: other chain ids, and a Homestead block that was moved. *)
Definition old_chain : ChainConfig :=
  MkChainConfig (Some 1001) (Some 500) None false (Some 0) (Some 0) None None None None None None None true false false 64.
Definition new_chain : ChainConfig :=
  MkChainConfig (Some 2000) (Some 600) None false (Some 0) (Some 0) None None None None None None None true false false 64.

(** C37. With the EIP-155 check on, [CheckCompatible] may not end: the error on the chain id says to
    rewind to a block number computed from the chain ids, above the head, where
    another conflict leads back below it. *)
Theorem CheckCompatible_diverges fuel : CheckCompatible fuel old_chain new_chain 100 true = None.
Proof.
  unfold CheckCompatible.
  assert (∀ n last, (match last with Some l => ce_RewindTo l = 499 ∨ ce_RewindTo l = 100 | None => True end → compat_loop n old_chain new_chain 100 true last = None) ∧
    (∀ l, last = Some l → ce_RewindTo l = 1000 → compat_loop n old_chain new_chain 1000 true last = None) ∧
    (∀ l, last = Some l → ce_RewindTo l = 499 → compat_loop n old_chain new_chain 499 true last = None)) as H; [|by apply (H fuel None)].
  induction n as [|n IH]; intros last; [done|]. split_and!.
  - intros Hl. cbn [compat_loop]. change (checkCompatible old_chain new_chain 100 true) with (Some (newCompatError "EIP155 chain ID" (Some 1001) (Some 2000))).
    change (ce_RewindTo (newCompatError "EIP155 chain ID" (Some 1001) (Some 2000))) with 1000.
    destruct last as [l|]; [destruct Hl as [-> | ->]; cbn [Z.eqb]|]; by eapply IH.
  - intros l -> Hl. cbn [compat_loop]. rewrite Hl. change (checkCompatible old_chain new_chain 1000 true) with (Some (newCompatError "Homestead fork block" (Some 500) (Some 600))).
    change (ce_RewindTo (newCompatError "Homestead fork block" (Some 500) (Some 600))) with 499. by eapply IH.
  - intros l -> Hl. cbn [compat_loop]. rewrite Hl. change (checkCompatible old_chain new_chain 499 true) with (Some (newCompatError "EIP155 chain ID" (Some 1001) (Some 2000))).
    change (ce_RewindTo (newCompatError "EIP155 chain ID" (Some 1001) (Some 2000))) with 1000. by eapply IH.
Qed.
