(* ===== verification/TxSign.v ===== *)
(** * Transactions and their signatures: core/types/{transaction,transaction_signing}.go

    A transaction carries its signature in [V], [R] and [S]; [V] also says which
    signer it was made with: 27 or 28 without replay protection, 37 or 38 for a vault
    transaction, otherwise 35 or 36 plus twice the chain id.  The cached hash and size
    are functions of the data and are left out; the cached sender is kept, since
    [Sender] trusts it. *)

From Stdlib Require Import ZArith Lia.
From S2P Require Import Prelude Errors Rlp Fullnode Messages Header StateTransition VmWord Vm VmWordLaws VmContracts ChainConfig.
Open Scope didux_scope.

(** [EIP155Signer] has a second field, always twice the first. *)
Inductive Signer : Type := FrontierSigner | HomesteadSigner | EIP155Signer (chainId : Z).

Record Transaction := MkTx {
  tx_AccountNonce : Z; tx_Price : Z; tx_GasLimit : Z; tx_Recipient : option address; tx_Amount : Z; tx_Payload : bytes;
  tx_V : Z; tx_R : Z; tx_S : Z;
  tx_from : option (Signer * address)
}.
Definition newTransaction (nonce : Z) (to : option address) (amount : option Z) (gasLimit : Z) (gasPrice : option Z) (data : bytes) : Transaction :=
  MkTx nonce (default 0 gasPrice) gasLimit to (default 0 amount) data 0 0 0 None.

Definition isProtectedV (V : Z) : bool :=
  if big_BitLen V <=? 8 then let v := big_Uint64 V in negb ((v =? 27) || (v =? 28)) else true.
(** [Div] is Euclidean division. *)
Definition deriveChainId (v : Z) : Z :=
  if big_BitLen v <=? 64 then
    let v := big_Uint64 v in
    if (v =? 27) || (v =? 28) then 0 else u64 (v - 35) / 2
  else (v - 35) / 2.

Section tx.
Implicit Types tx : Transaction.

Definition Protected tx : bool := isProtectedV (tx_V tx).
Definition ChainId tx : Z := deriveChainId (tx_V tx).
Definition IsVault tx : bool := (big_Uint64 (tx_V tx) =? 37) || (big_Uint64 (tx_V tx) =? 38).
Definition set_VRS (v r s : Z) tx : Transaction :=
  MkTx (tx_AccountNonce tx) (tx_Price tx) (tx_GasLimit tx) (tx_Recipient tx) (tx_Amount tx) (tx_Payload tx) v r s None.
Definition SetVault tx : Transaction :=
  if IsVault tx then tx else
  MkTx (tx_AccountNonce tx) (tx_Price tx) (tx_GasLimit tx) (tx_Recipient tx) (tx_Amount tx) (tx_Payload tx)
    (if big_Int64 (tx_V tx) =? 28 then 38 else 37) (tx_R tx) (tx_S tx) (tx_from tx).
Definition Cost tx : Z := tx_Price tx * tx_GasLimit tx + tx_Amount tx.

(** A nil address is the empty string; the decoder takes any empty value for it. *)
Definition enc_to (to : option address) : option item :=
  match to with None => Some (Str []) | Some a => enc_array 20 a end.
Definition dec_to (i : item) : option (option address) :=
  match i with Str [] | Lst [] => Some None | _ => Some <$> dec_array 20 i end.

(** What the signer of a transaction signs, and the whole transaction. *)
Definition payload_fields tx : list (option item) :=
  [enc_uint64 (tx_AccountNonce tx); enc_big (tx_Price tx); enc_uint64 (tx_GasLimit tx); enc_to (tx_Recipient tx);
   enc_big (tx_Amount tx); enc_bytes (tx_Payload tx)].
Definition Tx_EncodeRLP tx : option item :=
  enc_struct (payload_fields tx ++ [enc_big (tx_V tx); enc_big (tx_R tx); enc_big (tx_S tx)]).
Definition Tx_DecodeRLP (i : item) : option Transaction :=
  match dec_struct i with
  | Some [nonce; price; gas; to; amount; payload; v; r; s] =>
      match dec_uint64 nonce, dec_big price, dec_uint64 gas, dec_to to, dec_big amount, dec_bytes payload, dec_big v, dec_big r, dec_big s with
      | Some nonce, Some price, Some gas, Some to, Some amount, Some payload, Some v, Some r, Some s =>
          Some (MkTx nonce price gas to amount payload v r s None)
      | _, _, _, _, _, _, _, _, _ => None
      end
  | _ => None
  end.
End tx.

Section signing.
Context `{!Crypto} `{!PrecompileLib}.
Implicit Types tx : Transaction.

Definition Tx_Hash tx : hash := rlpHash (Tx_EncodeRLP tx).

(** [Hash] of a signer. *)
Definition Signer_Hash (s : Signer) tx : hash :=
  rlpHash (enc_struct (payload_fields tx ++ match s with
                                            | EIP155Signer chainId => [enc_big chainId; enc_uint64 0; enc_uint64 0]
                                            | _ => []
                                            end)).
Definition Signer_Equal (s s2 : Signer) : bool :=
  match s, s2 with
  | FrontierSigner, FrontierSigner | HomesteadSigner, HomesteadSigner => true
  | EIP155Signer c, EIP155Signer c2 => big_Cmp c2 c =? 0
  | _, _ => false
  end.

(** The bytes of a number in a field of 32 bytes; the slice panics when it does not fit. *)
Definition field32 (z : Z) : option bytes := if Nat.leb (intsize z) 32 then Some (replicate (32 - intsize z) x00 ++ putint z) else None.

(** [PubkeyToAddress] on the bytes of a public key. *)
Definition pub_address (pub : bytes) : address := Keccak256 (drop 1 pub) mod 2 ^ 160.

Definition recoverPlain (sighash : hash) (R S' Vb : Z) (homestead isVault : bool) : option (result address) :=
  if 8 <? big_BitLen Vb then Some (inr ErrInvalidSig) else
  let offset := if isVault then 37 else 27 in
  let V := (u64 (big_Uint64 Vb - offset)) mod 256 in
  if negb (ValidateSignatureValues V R S' homestead) then Some (inr ErrInvalidSig) else
  match field32 R, field32 S' with
  | Some r, Some s =>
      match crypto_Ecrecover (be_fix 32 sighash) (r ++ s ++ [Z_byte V]) with
      | inr e => Some (inr e)
      | inl pub =>
          match pub with
          | x04 :: _ => Some (inl (pub_address pub))
          | _ => Some (inr errInvalidPublicKey)
          end
      end
  | _, _ => None
  end.

(** [Sender] of a signer. *)
Definition Frontier_Sender tx : option (result address) :=
  recoverPlain (Signer_Hash FrontierSigner tx) (tx_R tx) (tx_S tx) (tx_V tx) false (IsVault tx).
Definition Homestead_Sender tx : option (result address) :=
  recoverPlain (Signer_Hash HomesteadSigner tx) (tx_R tx) (tx_S tx) (tx_V tx) true (IsVault tx).
Definition EIP155_Sender (chainId : Z) tx : option (result address) :=
  if IsVault tx then Homestead_Sender tx else
  if negb (Protected tx) then Homestead_Sender tx else
  if negb (big_Cmp (ChainId tx) chainId =? 0) then Some (inr ErrInvalidChainID) else
  recoverPlain (Signer_Hash (EIP155Signer chainId) tx) (tx_R tx) (tx_S tx) (tx_V tx - chainId * 2 - 8) true (IsVault tx).
Definition Signer_Sender (s : Signer) tx : option (result address) :=
  match s with
  | FrontierSigner => Frontier_Sender tx
  | HomesteadSigner => Homestead_Sender tx
  | EIP155Signer c => EIP155_Sender c tx
  end.

(** [Sender], with its cache: the answer and the transaction that holds it. *)
Definition set_from (c : Signer * address) tx : Transaction :=
  MkTx (tx_AccountNonce tx) (tx_Price tx) (tx_GasLimit tx) (tx_Recipient tx) (tx_Amount tx) (tx_Payload tx) (tx_V tx) (tx_R tx) (tx_S tx) (Some c).
Definition Sender (s : Signer) tx : option (result address * Transaction) :=
  match tx_from tx with
  | Some (s', from) => if Signer_Equal s' s then Some (inl from, tx) else
      match Signer_Sender s tx with
      | None => None
      | Some (inr e) => Some (inr e, tx)
      | Some (inl a) => Some (inl a, set_from (s, a) tx)
      end
  | None =>
      match Signer_Sender s tx with
      | None => None
      | Some (inr e) => Some (inr e, tx)
      | Some (inl a) => Some (inl a, set_from (s, a) tx)
      end
  end.

(** [SignatureValues]: R, S and V; a signature of the wrong size panics. *)
Definition Frontier_SignatureValues tx (sig : bytes) : option (Z * Z * Z) :=
  match sig !! 64%nat with
  | Some v => if (length sig =? 65)%nat
              then Some (be_val (take 32 sig), be_val (take 32 (drop 32 sig)), (byte_Z v + if IsVault tx then 37 else 27) mod 256)
              else None
  | None => None
  end.
Definition SignatureValues (s : Signer) tx (sig : bytes) : option (Z * Z * Z) :=
  match s with
  | FrontierSigner | HomesteadSigner => Frontier_SignatureValues tx sig
  | EIP155Signer chainId =>
      if IsVault tx then Frontier_SignatureValues tx sig else
      match Frontier_SignatureValues tx sig, sig !! 64%nat with
      | Some (R, S', V), Some v => Some (R, S', if negb (Z.sgn chainId =? 0) then (byte_Z v + 35) mod 256 + chainId * 2 else V)
      | _, _ => None
      end
  end.
Definition WithSignature (s : Signer) (sig : bytes) tx : option Transaction :=
  match SignatureValues s tx sig with
  | Some (r, s, v) => Some (set_VRS v r s tx)
  | None => None
  end.

Definition MakeSigner (config : ChainConfig) (blockNumber : option Z) : Signer :=
  if cc_IsEIP155 config blockNumber then EIP155Signer (default 0 (cc_ChainID config))
  else if cc_IsHomestead config blockNumber then HomesteadSigner else FrontierSigner.
Definition deriveSigner (V : Z) : Signer :=
  if negb (Z.sgn V =? 0) && isProtectedV V then EIP155Signer (deriveChainId V) else HomesteadSigner.

Definition AsMessage (s : Signer) tx : option (result Message * Transaction) :=
  match Sender s tx with
  | None => None
  | Some (inr e, tx) => Some (inr e, tx)
  | Some (inl from, tx) =>
      Some (inl (MkMessage from (tx_Recipient tx) (tx_Price tx) (tx_GasLimit tx) (tx_Amount tx) (tx_AccountNonce tx) true (tx_Payload tx) (IsVault tx)), tx)
  end.
End signing.

(** [crypto.Sign] with a private key. *)
Class Signing (K : Type) := { crypto_Sign : bytes → K → result bytes; public_key : K → bytes }.
Definition SignTx `{!Crypto} {K} `{!Signing K} (tx : Transaction) (s : Signer) (prv : K) : option (result Transaction) :=
  match crypto_Sign (be_fix 32 (Signer_Hash s tx)) prv with
  | inr e => Some (inr e)
  | inl sig => inl <$> WithSignature s sig tx
  end.

(** What secp256k1 documents: a signature recovers the key that made it, its [s] is
    in the lower half, and the recovery id is 0 or 1. *)
Class SigningLaws (K : Type) `{!PrecompileLib} `{!Signing K} : Prop := {
  sign_recover h k sig : crypto_Sign h k = inl sig → crypto_Ecrecover h sig = inl (public_key k);
  sign_size h k sig : crypto_Sign h k = inl sig → length sig = 65%nat;
  sign_r h k sig : crypto_Sign h k = inl sig → 1 <= be_val (take 32 sig) < secp256k1N;
  sign_s h k sig : crypto_Sign h k = inl sig → 1 <= be_val (take 32 (drop 32 sig)) <= secp256k1halfN;
  sign_v h k sig v : crypto_Sign h k = inl sig → sig !! 64%nat = Some v → byte_Z v = 0 ∨ byte_Z v = 1;
  public_head k : ∃ l, public_key k = x04 :: l
}.

Lemma BitLen_iff z n : 0 <= n → 0 <= z → big_BitLen z <= n ↔ z < 2 ^ n.
Proof.
  intros Hn Hz. unfold big_BitLen. destruct (Z.eqb_spec z 0) as [->|Hne]; [split; [intros; by apply Z.pow_pos_nonneg|lia]|].
  rewrite Z.abs_eq by done. rewrite Z.log2_lt_pow2 by lia. lia.
Qed.

(** The 32 bytes of a number, cut off from a signature and padded again. *)
Lemma field32_be_val b : length b = 32%nat → field32 (be_val b) = Some b.
Proof.
  intros Hl. unfold field32. pose proof (be_val_nonneg b). pose proof (be_val_bound b) as Hb. unfold blen in Hb. rewrite Hl in Hb.
  pose proof (intsize_le (be_val b) 32 Hb). rewrite (proj2 (Nat.leb_le _ _)) by done. f_equal. apply be_val_inj.
  - rewrite length_app, length_replicate. unfold putint. rewrite length_be_fix. lia.
  - by rewrite be_val_zeros, be_val_putint.
Qed.
Lemma sig_parts (sig : bytes) v : length sig = 65%nat → sig !! 64%nat = Some v → take 32 sig ++ take 32 (drop 32 sig) ++ [v] = sig.
Proof.
  intros Hl Hv. rewrite <-(take_drop 32 sig) at 3. f_equal. rewrite <-(take_drop 32 (drop 32 sig)) at 2. f_equal. rewrite drop_drop.
  apply list_eq. intros [|i]; rewrite lookup_drop; [change (32 + 32 + 0)%nat with 64%nat; by rewrite Hv|].
  rewrite (lookup_ge_None_2 sig); [done|lia].
Qed.

Section laws.
Context `{!Crypto} `{!PrecompileLib} {K : Type} `{!Signing K} `{!SigningLaws K}.
#[local] Set Default Proof Using "All".
Implicit Types tx : Transaction.

(** The signature of a hash, with the offset of its recovery id, recovers the signer. *)
Lemma recoverPlain_sign h k sig v (homestead isVault : bool) : crypto_Sign (be_fix 32 h) k = inl sig → sig !! 64%nat = Some v →
  recoverPlain h (be_val (take 32 sig)) (be_val (take 32 (drop 32 sig))) (byte_Z v + if isVault then 37 else 27) homestead isVault
    = Some (inl (pub_address (public_key k))).
Proof.
  intros Hs Hv. pose proof (sign_v _ _ _ _ Hs Hv) as Hv01. pose proof (sign_size _ _ _ Hs) as Hl. unfold recoverPlain.
  set (off := if isVault then 37 else 27). assert (27 <= off <= 37) by (unfold off; destruct isVault; lia).
  rewrite (proj2 (Z.ltb_ge _ _)) by (apply BitLen_iff; lia). cbv zeta. rewrite big_Uint64_small by (unfold two64; lia).
  replace (byte_Z v + off - off) with (byte_Z v) by lia. replace (u64 (byte_Z v) mod 256) with (byte_Z v) by (by destruct Hv01 as [-> | ->]).
  pose proof (sign_r _ _ _ Hs) as Hr. pose proof (sign_s _ _ _ Hs) as Hss. assert (secp256k1halfN < secp256k1N) by done.
  assert (ValidateSignatureValues (byte_Z v) (be_val (take 32 sig)) (be_val (take 32 (drop 32 sig))) homestead = true) as ->.
  { unfold ValidateSignatureValues. rewrite !big_Cmp_ltb, big_Cmp_gtb. rewrite !(proj2 (Z.ltb_ge _ _)) by lia. rewrite andb_false_r. cbn [orb].
    rewrite !(proj2 (Z.ltb_lt _ _)) by lia. destruct Hv01 as [-> | ->]; done. }
  cbn [negb]. rewrite !field32_be_val by (rewrite ?length_take, ?length_drop, Hl; done). rewrite Z_byte_Z, sig_parts by done.
  rewrite (sign_recover _ _ _ Hs). by destruct (public_head k) as [l ->].
Qed.

(** When a signer's own signature can be checked by it: vault transactions are signed without a chain id, the
    [V] of chain id 0 is that of an unprotected transaction, and with a chain id that is 1 modulo 2{^63} the low 64 bits of [V]
    are those of a vault transaction ([chain_one_is_vault]). *)
Definition signs_for (s : Signer) tx : Prop :=
  match s with EIP155Signer c => 0 < c ∧ c mod 2 ^ 63 ≠ 1 ∧ IsVault tx = false | _ => True end.

Lemma SignTx_inv tx s k tx' : SignTx tx s k = Some (inl tx') → ∃ sig r s0 v, crypto_Sign (be_fix 32 (Signer_Hash s tx)) k = inl sig ∧
  SignatureValues s tx sig = Some (r, s0, v) ∧ tx' = set_VRS v r s0 tx.
Proof.
  unfold SignTx, WithSignature. destruct (crypto_Sign _ k) as [sig|e] eqn:Hs; [|done]. destruct (SignatureValues s tx sig) as [[[r s0] v]|] eqn:Hv; [|done].
  intros [= <-]. by exists sig, r, s0, v.
Qed.
(** [V] of a protected transaction. *)
Lemma vault_V c v : v = 0 ∨ v = 1 → 0 < c → let V := v + 35 + c * 2 in
  (big_Uint64 V =? 37) || (big_Uint64 V =? 38) = bool_decide (c mod 2 ^ 63 = 1).
Proof using Type.
  intros Hv Hc V. assert (big_Uint64 V = V mod 2 ^ 64) as -> by (unfold big_Uint64, u64; rewrite Z.abs_eq by lia; done).
  pose proof (Z.div_mod c (2 ^ 63) ltac:(lia)) as Hq. pose proof (Z.mod_pos_bound c (2 ^ 63) ltac:(lia)) as Hm.
  set (m := c mod 2 ^ 63) in *. set (q := c / 2 ^ 63) in *.
  assert (V mod 2 ^ 64 = (v + 35 + 2 * m) mod 2 ^ 64) as ->.
  { replace V with (v + 35 + 2 * m + q * 2 ^ 64) by (unfold V; lia). by rewrite Z_mod_plus_full. }
  assert ((v + 35 + 2 * m) mod 2 ^ 64 = v + 35 + 2 * m ∨ (v + 35 + 2 * m) mod 2 ^ 64 = v + 35 + 2 * m - 2 ^ 64) as Hu.
  { destruct (Z.lt_ge_cases (v + 35 + 2 * m) (2 ^ 64)); [left; apply Z.mod_small; lia|right]. symmetry. apply (Z.mod_unique_pos _ _ 1); lia. }
  pose proof (Z.mod_pos_bound (v + 35 + 2 * m) (2 ^ 64) ltac:(lia)).
  case_bool_decide; destruct (Z.eqb_spec ((v + 35 + 2 * m) mod 2 ^ 64) 37), (Z.eqb_spec ((v + 35 + 2 * m) mod 2 ^ 64) 38); try done; lia.
Qed.
Lemma protected_V c v : 0 < c → v = 0 ∨ v = 1 → let V := v + 35 + c * 2 in isProtectedV V = true ∧ deriveChainId V = c.
Proof using Type.
  intros Hc Hv V. assert (0 <= V) by lia. assert (v / 2 = 0) as Hhalf by (by destruct Hv as [-> | ->]). assert (V - 35 = c * 2 + v) as HV by lia.
  assert (big_Uint64 V = u64 V) as Hb64 by (unfold big_Uint64; by rewrite Z.abs_eq).
  unfold isProtectedV, deriveChainId. rewrite Hb64. split.
  - destruct (Z.leb_spec (big_BitLen V) 8) as [Hb|]; [|done]. rewrite BitLen_iff in Hb by lia.
    rewrite u64_small by (unfold two64; lia). destruct (Z.eqb_spec V 27), (Z.eqb_spec V 28); try done; lia.
  - destruct (Z.leb_spec (big_BitLen V) 64) as [Hb|Hb]; [|rewrite HV, Z.div_add_l by lia; rewrite Hhalf; lia].
    rewrite BitLen_iff in Hb by lia. rewrite (u64_small V) by (unfold two64; lia).
    destruct (Z.eqb_spec V 27), (Z.eqb_spec V 28); try lia. cbn [orb]. unfold u64. rewrite HV, Z.mod_small by (unfold two64; lia).
    rewrite Z.div_add_l by lia. rewrite Hhalf. lia.
Qed.

Lemma Frontier_values tx sig v : length sig = 65%nat → sig !! 64%nat = Some v → byte_Z v = 0 ∨ byte_Z v = 1 →
  Frontier_SignatureValues tx sig = Some (be_val (take 32 sig), be_val (take 32 (drop 32 sig)), byte_Z v + if IsVault tx then 37 else 27).
Proof using Type.
  intros Hl Hv Hv01. unfold Frontier_SignatureValues. rewrite Hv, Hl. cbn [Nat.eqb]. do 2 f_equal. destruct (IsVault tx), Hv01 as [-> | ->]; done.
Qed.
Lemma IsVault_offset tx v r s0 : v = 0 ∨ v = 1 → IsVault (set_VRS (v + if IsVault tx then 37 else 27) r s0 tx) = IsVault tx.
Proof using Type. intros Hv. unfold IsVault at 1. cbn [tx_V set_VRS]. by destruct (IsVault tx), Hv as [-> | ->]. Qed.

(** What [SignTx] makes of a transaction, and what its signer says of it. *)
Lemma SignTx_Sender tx s k sig : signs_for s tx → crypto_Sign (be_fix 32 (Signer_Hash s tx)) k = inl sig →
  ∃ v r s0, SignTx tx s k = Some (inl (set_VRS v r s0 tx)) ∧ Signer_Sender s (set_VRS v r s0 tx) = Some (inl (pub_address (public_key k))) ∧
    match s with EIP155Signer c => IsVault (set_VRS v r s0 tx) = false ∧ isProtectedV v = true ∧ deriveChainId v = c | _ => True end.
Proof.
  intros Hfor Hs. pose proof (sign_size _ _ _ Hs) as Hl. destruct (lookup_lt_is_Some_2 sig 64 ltac:(lia)) as [v Hv].
  pose proof (sign_v _ _ _ _ Hs Hv) as Hv01. pose proof (Frontier_values tx sig v Hl Hv Hv01) as Hf. unfold SignTx. rewrite Hs. unfold WithSignature, SignatureValues.
  destruct s as [| |c].
  - rewrite Hf. eexists _, _, _. split; [reflexivity|]. split; [|done]. unfold Signer_Sender, Frontier_Sender. rewrite IsVault_offset by done. by apply recoverPlain_sign.
  - rewrite Hf. eexists _, _, _. split; [reflexivity|]. split; [|done]. unfold Signer_Sender, Homestead_Sender. rewrite IsVault_offset by done. by apply recoverPlain_sign.
  - destruct Hfor as (Hc & Hone & Hvault). rewrite Hvault, Hf, Hv. destruct (protected_V c (byte_Z v) Hc Hv01) as (Hprot & Hid).
    pose proof (vault_V c (byte_Z v) Hv01 Hc) as H37. rewrite bool_decide_eq_false_2 in H37 by done. set (V := byte_Z v + 35 + c * 2) in *.
    rewrite (proj2 (Z.eqb_neq (Z.sgn c) 0)) by lia. cbn [negb]. replace ((byte_Z v + 35) mod 256 + c * 2) with V by (unfold V; f_equal; by destruct Hv01 as [-> | ->]).
    eexists _, _, _. split; [reflexivity|]. split; [|done].
    unfold Signer_Sender, EIP155_Sender, IsVault, Protected, ChainId. cbn [tx_V tx_R tx_S set_VRS]. rewrite H37, Hprot, Hid. cbn [negb].
    rewrite big_Cmp_eqb, Z.eqb_refl. cbn [negb]. replace (V - c * 2 - 8) with (byte_Z v + 27) by (unfold V; lia).
    exact (recoverPlain_sign _ k sig v true false Hs Hv).
Qed.

(** C10. The sender of a signed transaction is the signer: [SignTx] changes only [V], [R] and [S], and [Sender] recovers the address of the
    key, with the Frontier and the Homestead signer and with the EIP-155 signer of a chain id that is positive and not 1 modulo 2{^63}, on a
    transaction that is not a vault one; the signature scheme is one whose signatures recover their key ([SigningLaws]).
    A transaction signed for one chain is refused on every other. *)
Theorem Sender_of_signed tx s k sig : signs_for s tx → crypto_Sign (be_fix 32 (Signer_Hash s tx)) k = inl sig →
  ∃ v r s0 tx'', let tx' := set_VRS v r s0 tx in
    SignTx tx s k = Some (inl tx') ∧ Sender s tx' = Some (inl (pub_address (public_key k)), tx'') ∧
    ∀ c c', s = EIP155Signer c → c ≠ c' → Sender (EIP155Signer c') tx' = Some (inr ErrInvalidChainID, tx').
Proof.
  intros Hfor Hs. destruct (SignTx_Sender tx s k sig Hfor Hs) as (v & r & s0 & Hsign & Hsend & Hv).
  eexists v, r, s0, _. split; [done|]. unfold Sender. cbn [tx_from set_VRS]. rewrite Hsend. split; [done|].
  intros c c' -> Hne. destruct Hv as (Hvault & Hprot & Hid). cbn [Signer_Sender]. unfold EIP155_Sender. rewrite Hvault.
  unfold Protected, ChainId. cbn [tx_V set_VRS]. rewrite Hprot, Hid. cbn [negb]. by rewrite big_Cmp_eqb, (proj2 (Z.eqb_neq c c')).
Qed.

(** On a chain with id 1 (as on the Ethereum main net) a signed transaction is taken for a vault one: its sender is looked for with the hash of the
    Homestead signer, which is not the hash that was signed. *)
Theorem chain_one_is_vault tx c k sig : 0 < c → c mod 2 ^ 63 = 1 → IsVault tx = false → crypto_Sign (be_fix 32 (Signer_Hash (EIP155Signer c) tx)) k = inl sig →
  ∃ v r s0, let tx' := set_VRS v r s0 tx in
    SignTx tx (EIP155Signer c) k = Some (inl tx') ∧ IsVault tx' = true ∧
    Signer_Sender (EIP155Signer c) tx' = recoverPlain (Signer_Hash HomesteadSigner tx) r s0 v true true.
Proof.
  intros Hc Hone Hvault Hs. pose proof (sign_size _ _ _ Hs) as Hl. destruct (lookup_lt_is_Some_2 sig 64 ltac:(lia)) as [v Hv].
  pose proof (sign_v _ _ _ _ Hs Hv) as Hv01. pose proof (Frontier_values tx sig v Hl Hv Hv01) as Hf. unfold SignTx. rewrite Hs. unfold WithSignature, SignatureValues.
  rewrite Hvault, Hf, Hv, (proj2 (Z.eqb_neq (Z.sgn c) 0)) by lia. cbn [negb].
  replace ((byte_Z v + 35) mod 256 + c * 2) with (byte_Z v + 35 + c * 2) by (f_equal; by destruct Hv01 as [-> | ->]).
  pose proof (vault_V c (byte_Z v) Hv01 Hc) as H37. rewrite bool_decide_eq_true_2 in H37 by done.
  eexists _, _, _. split; [reflexivity|]. unfold Signer_Sender, EIP155_Sender, Homestead_Sender.
  assert (∀ r s0, IsVault (set_VRS (byte_Z v + 35 + c * 2) r s0 tx) = true) as Hisv by (intros; unfold IsVault; cbn [tx_V set_VRS]; exact H37).
  by rewrite !Hisv.
Qed.
End laws.

Section caches.
Context `{!Crypto} `{!PrecompileLib}.
Implicit Types tx : Transaction.

(** The cached sender is the one its signer would find. *)
Definition from_ok tx : Prop := ∀ s a, tx_from tx = Some (s, a) → Signer_Sender s tx = Some (inl a).
Lemma Signer_Equal_eq s s2 : Signer_Equal s s2 = true → s = s2.
Proof. destruct s, s2; try done. cbn. rewrite big_Cmp_eqb, Z.eqb_eq. by intros ->. Qed.

(** The cache of [Sender] is transparent. *)
Lemma Sender_cached s tx : from_ok tx → (fst <$> Sender s tx) = Signer_Sender s tx ∧
  ∀ r tx', Sender s tx = Some (r, tx') → from_ok tx' ∧ ∀ s', Signer_Sender s' tx' = Signer_Sender s' tx.
Proof.
  intros Hok. unfold Sender. unfold from_ok in Hok.
  assert (∀ a, Signer_Sender s tx = Some (inl a) → from_ok (set_from (s, a) tx)) as Hset.
  { intros a Ha s1 a1 [= <- <-]. exact Ha. }
  destruct (tx_from tx) as [[s1 a1]|] eqn:Hf.
  - destruct (Signer_Equal s1 s) eqn:Heq.
    + apply Signer_Equal_eq in Heq as ->. rewrite (Hok s a1 eq_refl). split; [done|]. intros r tx' [= <- <-]. split; [|done]. intros s2 a2 Hx. rewrite Hf in Hx. by apply Hok.
    + destruct (Signer_Sender s tx) as [[a|e]|] eqn:Hs; (split; [done|]); intros r tx' Hx; try done; injection Hx as <- <-; (split; [|by intros []]); [by apply Hset|].
      intros s2 a2 Hx. rewrite Hf in Hx. by apply Hok.
  - destruct (Signer_Sender s tx) as [[a|e]|] eqn:Hs; (split; [done|]); intros r tx' Hx; try done; injection Hx as <- <-; (split; [|by intros []]); [by apply Hset|].
    intros s2 a2 Hx. by rewrite Hf in Hx.
Qed.
End caches.

(** ** The wire format *)

Lemma dec_enc_to to i : enc_to to = Some i → dec_to i = Some to.
Proof.
  destruct to as [a|]; cbn; [|by intros [= <-]]. intros Hi. pose proof (dec_enc_array 20 a i Hi) as Hd. unfold enc_array in Hi. case_match; [|done].
  injection Hi as <-. unfold dec_to. destruct (be_fix 20 a) eqn:Hb; [pose proof (length_be_fix 20 a) as Hl; by rewrite Hb in Hl|]. by rewrite Hd.
Qed.
(** A transaction that can be encoded is decoded to itself, without the cached sender. *)
Theorem tx_roundtrip tx i : Tx_EncodeRLP tx = Some i → Tx_DecodeRLP i = Some (set_VRS (tx_V tx) (tx_R tx) (tx_S tx) tx).
Proof.
  unfold Tx_EncodeRLP, Tx_DecodeRLP, payload_fields. intros He. struct_fields He. cbn [dec_struct].
  by erewrite !dec_enc_uint64, !dec_enc_big, dec_enc_to, dec_enc_bytes by done.
Qed.
