(* ===== verification/StateFinalise.v ===== *)
(** * Between transactions: Finalise of core/state/statedb.go

    [Finalise] writes the objects a transaction touched to the account trie, their
    dirty words to the storage tries, and drops the accounts that have
    committed suicide or are empty.  It does not panic on a good state, leaves a good
    state with nothing to revert, and every account it keeps reads as before. *)

From Stdlib Require Import ZArith Lia.
From S2P Require Import Prelude Errors Rlp Fullnode Messages SmiloPay StateDB StateRevert StateLaws VmState.
Open Scope didux_scope.

Section finalise.
Context `{!Crypto} (D : Database) (HD : db_ok D).
Implicit Types s : StateDB.
Implicit Types o : stateObject.

(** ** Writing the storage *)

(** The word a dirty entry leaves in the cache and in the trie. *)
Lemma updateTrie_fold (origin dirty tr : gmap Z Z) :
  let r := map_fold (λ key value '(origin', tr'),
      if value =? default 0 (origin !! key) then (origin', tr')
      else (<[key := value]> origin', if value =? 0 then delete key tr' else <[key := value]> tr')) (origin, tr) dirty in
  ∀ k, match dirty !! k with
       | Some v => if v =? default 0 (origin !! k) then r.1 !! k = origin !! k ∧ r.2 !! k = tr !! k
                   else r.1 !! k = Some v ∧ r.2 !! k = (if v =? 0 then None else Some v)
       | None => r.1 !! k = origin !! k ∧ r.2 !! k = tr !! k
       end.
Proof.
  cbv zeta. apply (map_fold_weak_ind (λ (r : gmap Z Z * gmap Z Z) (m : gmap Z Z), ∀ k, match m !! k with
     | Some v => if v =? default 0 (origin !! k) then r.1 !! k = origin !! k ∧ r.2 !! k = tr !! k
                   else r.1 !! k = Some v ∧ r.2 !! k = (if v =? 0 then None else Some v)
     | None => r.1 !! k = origin !! k ∧ r.2 !! k = tr !! k end)); [done|].
  intros i x m [o1 t1] Hi IH k. specialize (IH k). destruct (decide (i = k)) as [->|Hne].
  - rewrite lookup_insert, decide_True by done. rewrite Hi in IH. destruct (x =? default 0 (origin !! k)); [exact IH|]. simpl. rewrite lookup_insert, decide_True by done.
    split; [done|]. case_match; [by rewrite lookup_delete, decide_True|by rewrite lookup_insert, decide_True].
  - rewrite lookup_insert_ne by done. destruct (x =? default 0 (origin !! i)); [exact IH|]. simpl in *.
    rewrite !lookup_insert_ne by done. by destruct (x =? 0); rewrite ?lookup_delete_ne, ?lookup_insert_ne.
Qed.
Lemma updateTrie_storage o k : let o' := updateTrie D o in
  match so_dirtyStorage o !! k with
  | Some v => if v =? default 0 (so_originStorage o !! k) then so_originStorage o' !! k = so_originStorage o !! k ∧ getTrie D o' !! k = getTrie D o !! k
              else so_originStorage o' !! k = Some v ∧ getTrie D o' !! k = (if v =? 0 then None else Some v)
  | None => so_originStorage o' !! k = so_originStorage o !! k ∧ getTrie D o' !! k = getTrie D o !! k
  end.
Proof.
  cbv zeta. pose proof (updateTrie_fold (so_originStorage o) (so_dirtyStorage o) (getTrie D o) k) as Hf. unfold updateTrie.
  destruct (map_fold _ _ _) as [origin tr]. exact Hf.
Qed.
Lemma updateTrie_fields o : let o' := updateTrie D o in
  so_address o' = so_address o ∧ so_data o' = so_data o ∧ so_code o' = so_code o ∧ so_fakeStorage o' = so_fakeStorage o ∧
  so_deleted o' = so_deleted o ∧ so_suicided o' = so_suicided o ∧ so_dirtyStorage o' = ∅ ∧ is_Some (so_trie o').
Proof. cbv zeta. unfold updateTrie. by destruct (map_fold _ _ _) as [origin tr]. Qed.

(** Every dirty word was read before: [SetState] reads the word it replaces. *)
Definition cached (o : stateObject) : Prop := ∀ k v, so_dirtyStorage o !! k = Some v → is_Some (so_originStorage o !! k).

Lemma committed_updateRoot o k : so_fakeStorage o = None →
  committed D (updateRoot D o) k = committed D o k ∨ committed D (updateRoot D o) k = current D o k.
Proof.
  intros Hf. destruct (updateTrie_fields o) as (_ & _ & _ & Hf' & _ & _ & _ & [tr Htr]). rewrite Hf in Hf'. pose proof (updateTrie_storage o k) as Hk.
  unfold updateRoot, committed, current, getTrie in *. cbn. rewrite Hf', Htr, Hf in *. cbv zeta in Hk.
  destruct (so_dirtyStorage o !! k) as [v|]; [|destruct Hk as [-> ->]; by left].
  destruct (v =? _); destruct Hk as [-> Ht]; [left; by rewrite Ht|by right].
Qed.
Lemma current_updateRoot o k : so_fakeStorage o = None → current D (updateRoot D o) k = committed D (updateRoot D o) k.
Proof.
  intros Hf. destruct (updateTrie_fields o) as (_ & _ & _ & Hf' & _ & _ & Hd & _). unfold updateRoot, current, committed. cbn. by rewrite Hf', Hf, Hd, lookup_empty.
Qed.
Lemma updateRoot_current o k : so_fakeStorage o = None → cached o → current D (updateRoot D o) k = current D o k.
Proof.
  intros Hf Hc. rewrite current_updateRoot by done. destruct (updateTrie_fields o) as (_ & _ & _ & Hf' & _ & _ & _ & [tr Htr]). rewrite Hf in Hf'.
  pose proof (updateTrie_storage o k) as Hk. unfold updateRoot, current, committed, getTrie in *. cbn. rewrite Hf', Htr, Hf in *. cbv zeta in Hk.
  destruct (so_dirtyStorage o !! k) as [v|] eqn:Hd; [|by destruct Hk as [-> ->]].
  destruct (Hc k v Hd) as [w Hw]. rewrite Hw in Hk. cbn in Hk. destruct (Z.eqb_spec v w) as [->|]; destruct Hk as [-> _]; done.
Qed.

Lemma updateRoot_ok a o : obj_ok a o → obj_ok a (updateRoot D o).
Proof. intros [Ha Hf Hd]. destruct (updateTrie_fields o) as (H1 & _ & _ & H4 & H5 & _). split; cbn; congruence. Qed.
Lemma updateRoot_good o : so_fakeStorage o = None → obj_good D o → obj_good D (updateRoot D o).
Proof.
  intros Hf [Hb Hh Hc Hw Hm Hp]. destruct (updateTrie_fields o) as (_ & Hd & Hcode & _).
  assert (∀ k, 0 <= committed D (updateRoot D o) k) as Hcom by (intros k; destruct (committed_updateRoot o k Hf) as [-> | ->]; auto).
  split; [by cbn; rewrite Hd|by cbn; rewrite Hd| | |done|unfold pay_ok; by cbn; rewrite Hd].
  - intros c. unfold code_of in *. cbn. rewrite Hd, Hcode. apply Hc.
  - intros k. by rewrite current_updateRoot.
Qed.

(** ** The loop *)

Lemma wf_iff s : wf D s ↔ (∀ a o, peek s a = Some o → obj_ok a o) ∧ 0 <= sd_logSize s < two64 ∧ dead_ok s.
Proof.
  split; [intros Hwf; split_and!; [intros a o; by apply (wf_peek D)|apply Hwf..]|]. intros (Ho & Hl & Hd). split; try done.
  intros a. destruct (peek s a) as [o|] eqn:Hp; [|done]. by apply obj_rel_refl, Ho.
Qed.

(** What [Finalise] makes of the object of a dirty account. *)
Definition finalised (o : stateObject) : option stateObject :=
  if so_suicided o || empty o then None else Some (updateRoot D o).
Definition touched (s : StateDB) (l : list address) (a : address) : Prop := a ∈ l ∧ is_Some (sd_stateObjects s !! a).

(** What the loop leaves alone. *)
Record rest_same (s s' : StateDB) : Prop := {
  rs_refund : sd_refund s' = sd_refund s; rs_logs : sd_logs s' = sd_logs s; rs_logSize : sd_logSize s' = sd_logSize s;
  rs_tx : sd_thash s' = sd_thash s ∧ sd_bhash s' = sd_bhash s ∧ sd_txIndex s' = sd_txIndex s; rs_preimages : sd_preimages s' = sd_preimages s
}.
Definition finalise_one (a : address) : M StateDB () :=
  let! s := mget in
  match sd_stateObjects s !! a with
  | None => mret' ()
  | Some o =>
      do! (if so_suicided o || (true && empty o) then deleteStateObject o
           else let o := updateRoot D o in do! update o in updateStateObject o) in
      mmod (λ s, set_stateObjectsDirty (sd_stateObjectsDirty s ∪ {[a]}) s)
  end.
Lemma finalise_all_cons a l s : finalise_all D true (a :: l) s = (do! finalise_one a in finalise_all D true l) s.
Proof. unfold finalise_one, mbind', mget. cbn. unfold mbind', mget. by destruct (sd_stateObjects s !! a). Qed.

Lemma wp_finalise_one a s : wf D s → objs D s →
  wp (finalise_one a) (λ _ s', wf D s' ∧ objs D s' ∧ rest_same s s' ∧
    (∀ b, b ≠ a → peek s' b = peek s b ∧ sd_stateObjects s' !! b = sd_stateObjects s !! b) ∧
    peek s' a = (match sd_stateObjects s !! a with Some _ => peek s a ≫= finalised | None => peek s a end)) s.
Proof using Type.
  intros Hwf Ho. pose proof (proj1 (wf_iff s) Hwf) as (Hok & Hl & Hd). unfold finalise_one. wp_step.
  destruct (sd_stateObjects s !! a) as [o|] eqn:Ha; [|by wp_step].
  assert (so_address o = a) as Hadr.
  { destruct (so_deleted o) eqn:Hdel; [by apply (Hd a o)|]. apply (Hok a o). unfold peek. by rewrite Ha, Hdel. }
  cbn [andb]. destruct (so_suicided o || empty o) eqn:Hgone.
  - unfold deleteStateObject, update, setStateObject. wp_steps. cbn [so_address set_deleted]. rewrite Hadr.
    set (s' := set_stateObjectsDirty _ _).
    assert (∀ b, b ≠ a → peek s' b = peek s b ∧ sd_stateObjects s' !! b = sd_stateObjects s !! b) as Hother.
    { intros b Hb. unfold peek. cbn. by rewrite lookup_insert_ne, lookup_delete_ne. }
    assert (peek s' a = None) as Hpa by (unfold peek; cbn; by rewrite lookup_insert, decide_True).
    split; [|split_and!; [|done|done|]].
    + apply wf_iff. split_and!; [|apply Hl..|].
      * intros b p Hp. destruct (decide (b = a)) as [->|Hb]; [congruence|]. apply Hok. by rewrite <-(proj1 (Hother b Hb)).
      * intros b p. cbn. destruct (decide (b = a)) as [->|Hb].
        -- rewrite lookup_insert, decide_True by done. intros [= <-] _. by rewrite lookup_delete, decide_True.
        -- rewrite lookup_insert_ne, lookup_delete_ne by done. apply Hd.
    + intros b p Hp. destruct (decide (b = a)) as [->|Hb]; [congruence|]. apply (Ho b). by rewrite <-(proj1 (Hother b Hb)).
    + rewrite Hpa. unfold peek. rewrite Ha. destruct (so_deleted o); [done|]. cbn. unfold finalised. by rewrite Hgone.
  - destruct (so_deleted o) eqn:Hdel; [destruct (Hd a o Ha Hdel) as (_ & _ & ?); congruence|].
    assert (peek s a = Some o) as Hp by (unfold peek; by rewrite Ha, Hdel). pose proof (Hok a o Hp) as Hoo. pose proof (Ho a o Hp) as Hog.
    pose proof (updateRoot_ok a o Hoo) as [Hadr' Hf' Hdel']. pose proof (updateRoot_good o (oo_fake _ _ Hoo) Hog) as Hog'.
    cbv zeta. unfold update, setStateObject, updateStateObject. wp_steps.
    pose proof (og_balance _ _ Hog') as Hb'. pose proof (og_pay _ _ Hog') as [Hp1 Hp2]. do 3 (rewrite (proj2 (Z.ltb_ge _ 0)) by done). cbn [orb]. wp_steps. rewrite Hadr'. set (s' := set_stateObjectsDirty _ _).
    assert (∀ b, b ≠ a → peek s' b = peek s b ∧ sd_stateObjects s' !! b = sd_stateObjects s !! b) as Hother.
    { intros b Hb. unfold peek. cbn. by rewrite !lookup_insert_ne. }
    assert (peek s' a = Some (updateRoot D o)) as Hpa by (unfold peek; cbn; by rewrite lookup_insert, decide_True, Hdel').
    split; [|split_and!; [|done|done|]].
    + apply wf_iff. split_and!; [|apply Hl..|].
      * intros b p Hb. destruct (decide (b = a)) as [->|Hne]; [rewrite Hpa in Hb; by injection Hb as <-|]. apply Hok. by rewrite <-(proj1 (Hother b Hne)).
      * intros b p. cbn. destruct (decide (b = a)) as [->|Hne].
        -- rewrite lookup_insert, decide_True by done. intros [= <-]. by rewrite Hdel'.
        -- rewrite !lookup_insert_ne by done. apply Hd.
    + intros b p Hb. destruct (decide (b = a)) as [->|Hne]; [rewrite Hpa in Hb; by injection Hb as <-|]. apply (Ho b). by rewrite <-(proj1 (Hother b Hne)).
    + rewrite Hpa, Hp. cbn. unfold finalised. by rewrite Hgone.
Qed.
Lemma rest_same_trans s1 s2 s3 : rest_same s1 s2 → rest_same s2 s3 → rest_same s1 s3.
Proof. intros [? ? ? (?&?&?) ?] [? ? ? (?&?&?) ?]. split; split_and?; congruence. Qed.

Lemma wp_finalise_all l s : NoDup l → wf D s → objs D s →
  wp (finalise_all D true l) (λ _ s', wf D s' ∧ objs D s' ∧ rest_same s s' ∧
    ∀ b, peek s' b = (if decide (b ∈ l ∧ is_Some (sd_stateObjects s !! b)) then peek s b ≫= finalised else peek s b)) s.
Proof using Type.
  revert s. induction l as [|a l IH]; intros s Hnd Hwf Ho.
  { apply wp_ret. split_and!; [done..|]. intros b. by rewrite decide_False by (rewrite elem_of_nil; tauto). }
  apply NoDup_cons in Hnd as [Ha Hnd]. unfold wp. rewrite finalise_all_cons.
  change (wp (do! finalise_one a in finalise_all D true l) (λ _ s', wf D s' ∧ objs D s' ∧ rest_same s s' ∧
    ∀ b, peek s' b = (if decide (b ∈ a :: l ∧ is_Some (sd_stateObjects s !! b)) then peek s b ≫= finalised else peek s b)) s).
  eapply wp_seq; [by apply wp_finalise_one|]. intros _ s1 (Hwf1 & Ho1 & Hr1 & Hother & Hpa).
  eapply wp_wand; [by apply IH|]. intros _ s2 (Hwf2 & Ho2 & Hr2 & Hp2). split_and!; [done|done|by eapply rest_same_trans|].
  intros b. rewrite Hp2. destruct (decide (b = a)) as [->|Hb].
  - rewrite decide_False by tauto. rewrite Hpa. destruct (sd_stateObjects s !! a) as [o|].
    + rewrite decide_True; [done|]. split; [by left|by eexists].
    + rewrite decide_False; [done|]. intros [_ []]. done.
  - destruct (Hother b Hb) as [-> ->]. apply decide_ext. rewrite elem_of_cons. tauto.
Qed.

(** The accounts the journal holds dirty. *)
Definition dirty (s : StateDB) (a : address) : Prop := is_Some (j_dirties (sd_journal s) !! a) ∧ is_Some (sd_stateObjects s !! a).
#[export] Instance dirty_dec s a : Decision (dirty s a).
Proof. apply _. Defined.

(** [Finalise]: a good state with nothing to revert; the logs stay, and an account is as
    it was, written to the trie, or dropped. *)
Lemma wp_Finalise s : dbgood D s →
  wp (StateDB_Finalise D true) (λ _ s', dbgood D s' ∧ sd_refund s' = 0 ∧ sd_validRevisions s' = [] ∧ sd_journal s' = newJournal ∧
    sd_logs s' = sd_logs s ∧ sd_thash s' = sd_thash s ∧ sd_bhash s' = sd_bhash s ∧ sd_txIndex s' = sd_txIndex s ∧
    ∀ b, peek s' b = if decide (dirty s b) then peek s b ≫= finalised else peek s b) s.
Proof using Type.
  intros Hg. unfold StateDB_Finalise. wp_step. eapply wp_seq; [apply wp_finalise_all; [apply NoDup_fst_map_to_list|by apply (dbgood_wf D)|apply Hg]|].
  intros _ s1 (Hwf & Ho & [Hr Hl Hls (Ht & Hb & Hi) Hp] & Hpk). unfold clearJournalAndRefund. wp_step. set (s2 := set_refund _ _).
  assert (∀ b, peek s2 b = peek s1 b) as Hp2 by done.
  split; [split|].
  - exists (λ _, s2). split; [|constructor..|by intros ? ? ?%elem_of_nil]. apply wf_iff in Hwf as (Hok & Hsize & Hd). by apply wf_iff.
  - intros b o. rewrite Hp2. apply Ho.
  - done.
  - cbn. split_and!; try done. intros b. rewrite Hp2, Hpk. apply decide_ext. unfold dirty. rewrite list_elem_of_fmap. split.
    + intros [([k v] & -> & Hk%elem_of_map_to_list) ?]. by split; [eexists|].
    + intros [[v Hv] ?]. split; [|done]. exists (b, v). split; [done|]. by apply elem_of_map_to_list.
Qed.
End finalise.
