(* ===== verification/Bloom.v ===== *)
(** * Bloom filters and receipts: core/types/bloom9.go and core/types/receipt.go

    The bloom filter of a block lets a client skip the blocks without a log it
    looks for.  A filter is its 256 bytes; the theorems show that it has no false
    negatives and that the filter of a block is the union of those of its receipts. *)

From Stdlib Require Import ZArith Lia.
From S2P Require Import Prelude Errors Rlp Fullnode Messages StateDB.
Open Scope didux_scope.

(** ** Receipts *)

(** The consensus fields, and those added when a transaction is processed. *)
Record Receipt := MkReceipt {
  rc_PostState : bytes; rc_Status : Z; rc_CumulativeGasUsed : Z; rc_Bloom : bytes; rc_Logs : list Log;
  rc_TxHash : hash; rc_ContractAddress : address; rc_GasUsed : Z;
  rc_BlockHash : hash; rc_BlockNumber : option Z; rc_TransactionIndex : Z
}.
Definition ReceiptStatusFailed : Z := 0.
Definition ReceiptStatusSuccessful : Z := 1.
Definition BloomByteLength : nat := 256.
Definition zeroBloom : bytes := replicate BloomByteLength x00.
Definition NewReceipt (root : bytes) (failed : bool) (cumulativeGasUsed : Z) : Receipt :=
  MkReceipt root (if failed then ReceiptStatusFailed else ReceiptStatusSuccessful) cumulativeGasUsed zeroBloom [] 0 0 0 0 None 0.

(** ** Filters *)

(** [SetBytes] writes the end of the filter, and panics on more than 256 bytes. *)
Definition Bloom_SetBytes (d b : bytes) : option bytes :=
  if (BloomByteLength <? length d)%nat then None else Some (take (BloomByteLength - length d) b ++ d).
Definition BytesToBloom (b : bytes) : option bytes := Bloom_SetBytes b zeroBloom.
Definition Big (b : bytes) : Z := be_val b.

Section bloom.
Context `{!Crypto}.

(** The bit of the filter that the [i]-th pair of bytes of the hash selects. *)
Definition bloom_bit (h : bytes) (i : nat) : Z :=
  Z.land (byte_Z (nth (i + 1) h x00) + Z.shiftl (byte_Z (nth i h x00)) 8) 2047.
Definition bloom9 (b : bytes) : Z :=
  let h := be_fix 32 (Keccak256 b) in
  foldl (λ r i, Z.lor r (Z.shiftl 1 (bloom_bit h i))) 0 [0; 2; 4]%nat.

Definition log_bloom (bin : Z) (l : Log) : Z :=
  foldl (λ bin t, Z.lor bin (bloom9 (be_fix 32 t))) (Z.lor bin (bloom9 (be_fix 20 (lg_Address l)))) (lg_Topics l).
Definition LogsBloom (logs : list Log) : Z := foldl log_bloom 0 logs.
Definition CreateBloom (receipts : list Receipt) : option bytes :=
  BytesToBloom (putint (foldl (λ bin r, Z.lor bin (LogsBloom (rc_Logs r))) 0 receipts)).

(** [BloomLookup]; [topic] are the bytes of the address or the topic. *)
Definition BloomLookup (bin topic : bytes) : bool :=
  let cmp := bloom9 topic in big_Cmp (Z.land (Big bin) cmp) cmp =? 0.
(** [Add] and [Test] take a number, [TestBytes] the number that bytes stand for. *)
Definition Bloom_Add (d : Z) (b : bytes) : option bytes := Bloom_SetBytes (putint (Z.lor (Big b) (bloom9 (putint d)))) b.
Definition Bloom_Test (b : bytes) (test : Z) : bool := BloomLookup b (putint test).
Definition TestBytes (b test : bytes) : bool := Bloom_Test b (be_val test).
Definition OrOperationOnBloom (b new : bytes) : option bytes := Bloom_SetBytes (putint (Z.lor (be_val b) (be_val new))) b.

(** ** Laws *)

(** [x] has all the bits of [y]. *)
Definition covers (x y : Z) : Prop := Z.land x y = y.
Lemma covers_lor_l x y z : covers x z → covers (Z.lor x y) z.
Proof. unfold covers. intros Hx. apply Z.bits_inj'. intros n Hn. rewrite Z.land_spec, Z.lor_spec. apply (f_equal (λ v, Z.testbit v n)) in Hx. rewrite Z.land_spec in Hx. destruct (Z.testbit x n), (Z.testbit y n), (Z.testbit z n); done. Qed.
Lemma covers_lor_r x y z : covers y z → covers (Z.lor x y) z.
Proof. rewrite Z.lor_comm. apply covers_lor_l. Qed.
Lemma covers_refl x : covers x x.
Proof. apply Z.land_diag. Qed.

(** A union over a list covers what it starts from and what each element adds. *)
Lemma foldl_lor {A} (f : A → Z) l z : foldl (λ bin a, Z.lor bin (f a)) z l = Z.lor z (foldl (λ bin a, Z.lor bin (f a)) 0 l).
Proof.
  revert z. induction l as [|a l IH]; intros z; cbn; [by rewrite Z.lor_0_r|]. rewrite IH, (IH (Z.lor 0 (f a))). by rewrite Z.lor_0_l, Z.lor_assoc.
Qed.
Lemma foldl_lor_covers {A} (f : A → Z) l z a : a ∈ l → covers (foldl (λ bin a, Z.lor bin (f a)) z l) (f a).
Proof.
  intros Ha. revert z. induction Ha as [a l|a b l Ha IH]; intros z; cbn; [|apply IH]. rewrite foldl_lor. apply covers_lor_l, covers_lor_r, covers_refl.
Qed.
Lemma log_bloom_lor l bin : log_bloom bin l = Z.lor bin (log_bloom 0 l).
Proof.
  unfold log_bloom. rewrite (foldl_lor (λ t, bloom9 (be_fix 32 t)) _ (Z.lor bin _)), (foldl_lor (λ t, bloom9 (be_fix 32 t)) _ (Z.lor 0 _)). by rewrite Z.lor_0_l, !Z.lor_assoc.
Qed.
Lemma LogsBloom_lor logs : LogsBloom logs = foldl (λ bin l, Z.lor bin (log_bloom 0 l)) 0 logs.
Proof.
  unfold LogsBloom. generalize 0 at 1 3. induction logs as [|l logs IH]; intros z; [done|]. cbn. by rewrite log_bloom_lor, IH.
Qed.

(** ** Sizes *)

Lemma lor_range n x y : 0 <= n → 0 <= x < 2 ^ n → 0 <= y < 2 ^ n → 0 <= Z.lor x y < 2 ^ n.
Proof.
  intros Hn Hx Hy. split; [apply Z.lor_nonneg; lia|]. destruct (decide (Z.lor x y = 0)) as [->|Hne]; [lia|].
  pose proof (proj2 (Z.lor_nonneg x y)). destruct (decide (x = 0)) as [->|Hx0]; [rewrite Z.lor_0_l; lia|]. destruct (decide (y = 0)) as [->|Hy0]; [rewrite Z.lor_0_r; lia|].
  apply Z.log2_lt_pow2; [lia|]. rewrite Z.log2_lor by lia. apply Z.max_lub_lt; apply Z.log2_lt_pow2; lia.
Qed.
Definition bloom_range (z : Z) : Prop := 0 <= z < 2 ^ 2048.
Lemma bloom_range_lor x y : bloom_range x → bloom_range y → bloom_range (Z.lor x y).
Proof. apply lor_range. lia. Qed.
Lemma foldl_lor_range {A} (f : A → Z) l z : bloom_range z → (∀ a, bloom_range (f a)) → bloom_range (foldl (λ bin a, Z.lor bin (f a)) z l).
Proof. intros Hz Hf. revert z Hz. induction l as [|a l IH]; intros z Hz; [done|]. apply IH. by apply bloom_range_lor. Qed.
Lemma bloom_range_0 : bloom_range 0.
Proof. done. Qed.
Lemma bloom9_range b : bloom_range (bloom9 b).
Proof.
  assert (∀ h i, bloom_range (Z.shiftl 1 (bloom_bit h i))) as Hsh.
  { intros h i. assert (0 <= bloom_bit h i < 2048) as Hbit.
    { unfold bloom_bit. change 2047 with (Z.ones 11). rewrite Z.land_ones by lia. apply Z.mod_pos_bound. lia. }
    rewrite Z.shiftl_1_l. split; [apply Z.pow_nonneg; lia|]. apply Z.pow_lt_mono_r; lia. }
  unfold bloom9. apply (foldl_lor_range (λ i, Z.shiftl 1 (bloom_bit _ i))); [apply bloom_range_0|done].
Qed.
Lemma LogsBloom_range logs : bloom_range (LogsBloom logs).
Proof.
  rewrite LogsBloom_lor. apply (foldl_lor_range (log_bloom 0)); [apply bloom_range_0|]. intros l. unfold log_bloom.
  apply (foldl_lor_range (λ t, bloom9 (be_fix 32 t))); [|intros; apply bloom9_range]. apply bloom_range_lor; [apply bloom_range_0|apply bloom9_range].
Qed.
(** A number below 2^2048 fits in a filter. *)
Lemma BytesToBloom_putint z : bloom_range z → ∃ b, BytesToBloom (putint z) = Some b ∧ length b = BloomByteLength ∧ Big b = z.
Proof.
  intros [Hz Hlt]. unfold BytesToBloom, Bloom_SetBytes, Big.
  assert (length (putint z) <= BloomByteLength)%nat as Hl.
  { unfold putint. rewrite length_be_fix. apply (intsize_le z 256). by change (256 ^ Z.of_nat 256) with (2 ^ 2048). }
  rewrite (proj2 (Nat.ltb_ge _ _)) by done. eexists. split; [reflexivity|]. unfold zeroBloom. rewrite take_replicate.
  rewrite length_app, length_replicate, be_val_zeros, be_val_putint by done. split; [lia|done].
Qed.
Lemma CreateBloom_value rs : ∃ b, CreateBloom rs = Some b ∧ length b = BloomByteLength ∧ Big b = foldl (λ bin r, Z.lor bin (LogsBloom (rc_Logs r))) 0 rs.
Proof. apply BytesToBloom_putint, (foldl_lor_range (λ r, LogsBloom (rc_Logs r))); [apply bloom_range_0|]. intros. apply LogsBloom_range. Qed.

Lemma BloomLookup_covers b t : BloomLookup b t = true ↔ covers (Big b) (bloom9 t).
Proof. unfold BloomLookup, covers. cbv zeta. by rewrite Z.eqb_eq, big_Cmp_eq. Qed.
Lemma covers_trans x y z : covers x y → covers y z → covers x z.
Proof. unfold covers. intros Hxy Hyz. rewrite <-Hyz at 1. by rewrite Z.land_assoc, Hxy. Qed.

(** The things a client can look for: the address and the topics of a log. *)
Definition searched (l : Log) (t : bytes) : Prop := t = be_fix 20 (lg_Address l) ∨ ∃ topic, topic ∈ lg_Topics l ∧ t = be_fix 32 topic.
Lemma log_bloom_covers l t : searched l t → covers (log_bloom 0 l) (bloom9 t).
Proof.
  unfold log_bloom. intros [-> |(topic & Hin & ->)].
  - rewrite (foldl_lor (λ t, bloom9 (be_fix 32 t))). apply covers_lor_l, covers_lor_r, covers_refl.
  - by apply (foldl_lor_covers (λ t, bloom9 (be_fix 32 t))).
Qed.
Lemma LogsBloom_covers logs l t : l ∈ logs → searched l t → covers (LogsBloom logs) (bloom9 t).
Proof.
  intros Hl Ht. eapply covers_trans; [|by apply (log_bloom_covers l)]. rewrite LogsBloom_lor. by apply (foldl_lor_covers (log_bloom 0)).
Qed.

(** C33. A bloom filter has no false negatives: [CreateBloom] does not panic, and in its filter every
    address and every topic of a log of the receipts is found. *)
Theorem CreateBloom_complete rs : ∃ b, CreateBloom rs = Some b ∧ length b = BloomByteLength ∧
  ∀ r l t, r ∈ rs → l ∈ rc_Logs r → searched l t → BloomLookup b t = true.
Proof.
  destruct (CreateBloom_value rs) as (b & Hb & Hl & Hv). exists b. split; [done|]. split; [done|]. intros r l t Hr Hin Ht.
  apply BloomLookup_covers. rewrite Hv. eapply covers_trans; [|by eapply LogsBloom_covers]. by apply (foldl_lor_covers (λ r, LogsBloom (rc_Logs r))).
Qed.
(** The filter of a block is the union of the filters of its receipts. *)
Lemma CreateBloom_union rs b : CreateBloom rs = Some b →
  Big b = foldl Z.lor 0 ((λ r, default 0 (Big <$> CreateBloom [r])) <$> rs).
Proof.
  destruct (CreateBloom_value rs) as (b' & -> & _ & Hv). intros [= <-]. rewrite Hv. clear. generalize 0 at 1 2.
  induction rs as [|r rs IH]; intros z; [done|]. cbn [foldl fmap list_fmap]. rewrite IH. f_equal. f_equal.
  destruct (CreateBloom_value [r]) as (c & -> & _ & Hc). cbn [fmap option_fmap option_map default]. rewrite Hc. cbn [foldl]. by rewrite Z.lor_0_l.
Qed.
End bloom.
