(* ===== verification/Processor.v ===== *)
(** * Processing a block: core/state_processor.go, and the contexts of core/evm.go

    [Process] applies the transactions of a block one after the other, makes a receipt
    of each, and lets the consensus engine pay its rewards.  A public transaction has
    the public state as its only database ([ApplyTransaction] sets [vaultState] to
    [statedb]); a vault transaction runs on both.  The sender that [AsMessage] caches in
    the transaction is left out ([Sender_cached] of TxSign).

    The chain is the interface [ChainContext]; [accountRoot] is the hash of the account
    trie, which is a map here as in StateDB; [vault] answers for private payloads. *)

From Stdlib Require Import ZArith Lia.
From S2P Require Import Prelude Errors Rlp Fullnode Messages Header Engine SmiloPay StateDB StateTransition VmWord Vm VmGas VmContracts VmEVM VmInstr VmInterp.
From S2P Require Import VmLaws VmTx ChainConfig TxSign Bloom.
Open Scope didux_scope.

(** ** The context of a transaction *)

Record ChainContext := MkChainContext { cx_Author : Header → result address; cx_GetHeader : hash → Z → option Header }.

Section context.
Context (chain : ChainContext).

(** The loop of the function that [GetHashFn] returns, with its cache; [None]: a nil number, or
    the end of the fuel. *)
Fixpoint hash_walk (fuel : nat) (header : option Header) (cache : gmap Z hash) (n : Z) : option (hash * gmap Z hash) :=
  match header with
  | None => Some (0, cache)
  | Some h =>
      match fuel, h_Number h with
      | S fuel, Some number =>
          let k := u64 (big_Uint64 number - 1) in
          let cache := <[k := h_ParentHash h]> cache in
          if n =? k then Some (h_ParentHash h, cache) else hash_walk fuel (cx_GetHeader chain (h_ParentHash h) k) cache n
      | _, _ => None
      end
  end.
Definition GetHashFn (fuel : nat) (ref : Header) (cache : option (gmap Z hash)) (n : Z) : option (hash * gmap Z hash) :=
  match h_Number ref with
  | None => None
  | Some number =>
      let parent := u64 (big_Uint64 number - 1) in
      let cache := default {[parent := h_ParentHash ref]} cache in
      match cache !! n with
      | Some h => Some (h, cache)
      | None => hash_walk fuel (cx_GetHeader chain (h_ParentHash ref) parent) cache n
      end
  end.

(** [GetHash] is a function of the number: the cache does not change its answers. *)
Definition NewEVMContext (msg : Message) (header : Header) (author : option address) : option Context_ :=
  let beneficiary := match author with
                     | Some a => a
                     | None => match cx_Author chain header with inl a => a | inr _ => 0 end
                     end in
  match h_Number header, h_Difficulty header with
  | Some number, Some difficulty =>
      Some (MkContext (λ n, default 0 (fst <$> GetHashFn (S (Z.to_nat number)) header None n)) (msg_From msg) (msg_GasPrice msg)
        beneficiary (h_GasLimit header) number (h_Time header) difficulty)
  | _, _ => None
  end.
End context.

(** ** The state of a processor *)

Record ProcState := MkProc { pr_gp : Z; pr_statedb : StateDB; pr_vault : StateDB; pr_usedGas : Z }.
Definition on_statedb {A} (m : M StateDB A) : M ProcState A := λ p,
  match m (pr_statedb p) with Some (a, s) => Some (a, MkProc (pr_gp p) s (pr_vault p) (pr_usedGas p)) | None => None end.
Definition on_vault {A} (m : M StateDB A) : M ProcState A := λ p,
  match m (pr_vault p) with Some (a, s) => Some (a, MkProc (pr_gp p) (pr_statedb p) s (pr_usedGas p)) | None => None end.
Definition add_usedGas (gas : Z) (p : ProcState) : ProcState := MkProc (pr_gp p) (pr_statedb p) (pr_vault p) (u64 (pr_usedGas p + gas)).

Definition GetLogs (h : hash) : M StateDB (list Log) := let! s := mget in mret' (default [] (sd_logs s !! h)).

Section processor.
Context `{!Crypto} `{!PrecompileLib} (D : Database) (accountRoot : gmap Z Account → hash).
Context (config : ChainConfig) (chain : ChainContext) (cfg : VmConfig) (extra : list Z) (vault : option (bytes → result bytes)).
Local Abbreviation PM A := (M ProcState A).

Definition IntermediateRoot (deleteEmptyObjects : bool) : M StateDB hash :=
  do! StateDB_Finalise D deleteEmptyObjects in
  let! s := mget in mret' (accountRoot (sd_trie s)).

(** ** One transaction *)

(** [vm.NewEVM] for a transaction: the constant part. *)
Definition tx_env (ctx : Context_) (isVault : bool) : Env :=
  MkEnv ctx (cc_Rules config (Some (ctx_BlockNumber ctx))) (cc_IsSmilo config) (cc_IsEWASM config (Some (ctx_BlockNumber ctx))) (cc_ChainID config) cfg
    (if isVault then VaultDB else PublicDB).
(** The EVM of a vault transaction, on both databases. *)
Definition on_EVMs (env : Env) (R : Z → RunFun) {A} (gas : Z) (m : RunFun → M VM A) : M (StateDB * StateDB) A := λ s,
  v ← NewEVM env s.1 s.2;
  '(r, v') ← m (R gas) v;
  Some (r, (vm_public v', vm_vault v')).
Definition vault_EVM (env : Env) (R : Z → RunFun) : EVM_ (StateDB * StateDB) :=
  MkEVM (ctx_BlockNumber (env_ctx env)) (ctx_Coinbase (env_ctx env)) (IsHomestead (env_rules env)) (env_IsSmilo env)
    (cc_IsGas config) (cc_IsGasRefunded config) vault
    (λ from data gas value isVault, on_EVMs env R gas (λ interp,
       let! (ret, _, gas, e) := Create D env interp (AccountRef from) data gas value isVault in mret' (ret, gas, e)))
    (λ from to data gas value isVault, on_EVMs env R gas (λ interp, Call D env interp (AccountRef from) to data gas value isVault)).

(** [ApplyMessage] on the databases of the transaction. *)
Definition apply_message (isVault : bool) (env : Env) (jt : JumpTable) (msg : Message) : PM outcome := λ p,
  if isVault then
    match ApplyMessage (vault_EVM env (runs env jt)) msg (pr_gp p) (pr_statedb p, pr_vault p) with
    | Some (r, st) => Some (r, MkProc (st_gp st) (st_state st).1 (st_state st).2 (pr_usedGas p))
    | None => None
    end
  else
    match ApplyMessage (tx_EVM D env (runs env jt) (cc_IsGas config) (cc_IsGasRefunded config) vault) msg (pr_gp p) (pr_statedb p) with
    | Some (r, st) => Some (r, MkProc (st_gp st) (st_state st) (pr_vault p) (pr_usedGas p))
    | None => None
    end.

(** The state root that goes into a receipt: none from Byzantium on. *)
Definition finalise_tx (number : option Z) : M StateDB bytes :=
  if cc_IsByzantium config number then do! StateDB_Finalise D true in mret' []
  else let! root := IntermediateRoot (cc_IsEIP158 config number) in mret' (be_fix 32 root).

(** The receipt of a transaction, with its bloom. *)
Definition fill_receipt (r : Receipt) (tx : Transaction) (msg : Message) (gas : Z) (logs : list Log) (blockHash : hash) (blockNumber : option Z)
    (txIndex : Z) : option Receipt :=
  let contract := match msg_To msg with None => CreateAddress (msg_From msg) (tx_AccountNonce tx) | Some _ => rc_ContractAddress r end in
  let r := MkReceipt (rc_PostState r) (rc_Status r) (rc_CumulativeGasUsed r) (rc_Bloom r) logs (Tx_Hash tx) contract gas
             (rc_BlockHash r) (rc_BlockNumber r) (rc_TransactionIndex r) in
  match CreateBloom [r] with
  | None => None
  | Some bloom => Some (MkReceipt (rc_PostState r) (rc_Status r) (rc_CumulativeGasUsed r) bloom (rc_Logs r) (rc_TxHash r) (rc_ContractAddress r)
                    (rc_GasUsed r) blockHash blockNumber txIndex)
  end.

Definition ApplyTransaction (author : option address) (header : Header) (tx : Transaction) : PM (result (Receipt * option Receipt * Z)) :=
  let isVault := cc_IsSmilo config && IsVault tx in
  if negb (cc_IsGas config) && (0 <? big_Cmp (tx_Price tx) 0) then mret' (inr ErrInvalidGasPrice) else
  let! (m, _) := mderef (AsMessage (MakeSigner config (h_Number header)) tx) in
  match m with
  | inr e => mret' (inr e)
  | inl msg =>
      let! ctx := mderef (NewEVMContext chain msg header author) in
      let env := tx_env ctx isVault in
      let! p := mget in
      let! _ := mderef (NewEVM env (pr_statedb p) (if isVault then pr_vault p else pr_statedb p)) in
      let! (jt, _) := mderef (NewEVMInterpreter D env extra) in
      let! (_, gas, failed, e) := apply_message isVault env jt msg in
      match e with
      | Some e => mret' (inr e)
      | None =>
          let! root := on_statedb (finalise_tx (h_Number header)) in
          do! mmod (add_usedGas gas) in
          let! p := mget in
          let! logs := on_statedb (GetLogs (Tx_Hash tx)) in
          let! receipt := mderef (fill_receipt (NewReceipt root (negb isVault && failed) (pr_usedGas p)) tx msg gas logs
                                    (sd_bhash (pr_statedb p)) (h_Number header) (sd_txIndex (pr_statedb p))) in
          if isVault then
            let! vaultRoot := on_vault (finalise_tx (h_Number header)) in
            let! logs := on_vault (GetLogs (Tx_Hash tx)) in
            let! vaultReceipt := mderef (fill_receipt (NewReceipt vaultRoot failed (pr_usedGas p)) tx msg gas logs 0 None 0) in
            mret' (inl (receipt, Some vaultReceipt, gas))
          else mret' (inl (receipt, None, gas))
      end
  end.

(** ** A block *)

(** [misc.ApplyDAOHardFork]: its body is commented out. *)
Definition ApplyDAOHardFork (blockNumber : Z) : M StateDB () := mret' ().

Fixpoint process_txs (header : Header) (blockHash : hash) (i : Z) (txs : list Transaction) :
    PM (result (list Receipt * list Receipt * list Log)) :=
  match txs with
  | [] => mret' (inl ([], [], []))
  | tx :: txs =>
      do! on_statedb (Prepare (Tx_Hash tx) blockHash i) in
      do! on_vault (Prepare (Tx_Hash tx) blockHash i) in
      let! r := ApplyTransaction None header tx in
      match r with
      | inr e => mret' (inr e)
      | inl (receipt, vaultReceipt, _) =>
          let! rest := process_txs header blockHash (i + 1) txs in
          match rest with
          | inr e => mret' (inr e)
          | inl (receipts, vaultReceipts, allLogs) =>
              mret' (inl (receipt :: receipts,
                          match vaultReceipt with Some v => v :: vaultReceipts | None => vaultReceipts end,
                          rc_Logs receipt ++ match vaultReceipt with Some v => rc_Logs v ++ allLogs | None => allLogs end))
          end
      end
  end.

(** The engine's [Finalize], as far as the state goes: the rewards, and the root. *)
Definition AccumulateRewards_db (community : option address) (number : Z) (coinbase : address) : M StateDB () :=
  let blockReward := getSmiloBlockReward smiloTokenMetricsTable number in
  if coinbase =? 0 then mret' () else
  do! match community with
      | Some c => AddBalance c (blockReward / 4) number
      | None => mret' ()
      end in
  AddBalance coinbase blockReward number.
Definition engine_Finalize (community : option address) (header : Header) (txs : nat) : M StateDB hash :=
  let! number := mderef (h_Number header) in
  do! (if pays_rewards number txs then AccumulateRewards_db community number (h_Coinbase header) else mret' ()) in
  IntermediateRoot (cc_IsEIP158 config (h_Number header)).

(** The receipts, the vault receipts, the logs and the gas used. *)
Definition Process (community : option address) (block : Block Transaction) (statedb vaultState : StateDB) :
    option (result (list Receipt * list Receipt * list Log * Z) * ProcState) :=
  let header := CopyHeader (blk_header block) in
  let number := big_or_zero (h_Number header) in
  match AddGas 0 (h_GasLimit header) with
  | None => None
  | Some gp =>
      (do! (if cc_DAOForkSupport config && match cc_DAOForkBlock config with Some b => big_Cmp b number =? 0 | None => false end
            then on_statedb (ApplyDAOHardFork number) else mret' ()) in
       let! r := process_txs header (Header_Hash (blk_header block)) 0 (blk_txs block) in
       match r with
       | inr e => mret' (inr e)
       | inl (receipts, vaultReceipts, allLogs) =>
           do! on_statedb (engine_Finalize community header (length (blk_txs block))) in
           let! p := mget in mret' (inl (receipts, vaultReceipts, allLogs, pr_usedGas p))
       end) (MkProc gp statedb vaultState 0)
  end.
End processor.
