(* ===== verification/ProcessorLaws.v ===== *)
(** * What processing a block guarantees

    A block of public transactions is processed without a panic, whatever code they run,
    to an error or to a good state with one receipt for each transaction. *)

From Stdlib Require Import ZArith Lia Classical_Prop.
From S2P Require Import Prelude Errors Rlp Fullnode Messages Header Engine SmiloPay StateDB StateRevert StateTransition StateLaws VmWord VmWordLaws.
From S2P Require Import Vm VmGas VmContracts VmEVM VmInstr VmInterp VmState VmPrecompiled VmInv VmGasLaws VmLaws VmTx ChainConfig TxSign StateFinalise Bloom Processor.
Open Scope didux_scope.

(** ** Senders *)

Section senders.
Context `{!Crypto} `{!PrecompileLib}.
Implicit Types tx : Transaction.

Lemma field32_small z : z < 2 ^ 256 → is_Some (field32 z).
Proof.
  intros Hz. unfold field32. rewrite (proj2 (Nat.leb_le _ _)); [done|]. apply (intsize_le z 32). by change (256 ^ Z.of_nat 32) with (2 ^ 256).
Qed.
(** A signature is checked without a panic, and gives an address or an error. *)
Lemma recoverPlain_total h r s v homestead isVault : ∃ x, recoverPlain h r s v homestead isVault = Some x ∧ ∀ a, x = inl a → 0 <= a.
Proof.
  unfold recoverPlain. case_match; [by eexists|]. cbv zeta. destruct (ValidateSignatureValues _ r s homestead) eqn:Hv; [|eexists; by split].
  cbn [negb]. assert (r < secp256k1N ∧ s < secp256k1N) as [Hr Hs].
  { unfold ValidateSignatureValues in Hv. case_match; [done|]. case_match; [done|]. rewrite !big_Cmp_ltb in Hv.
    apply andb_true_iff in Hv as [[?%Z.ltb_lt ?%Z.ltb_lt]%andb_true_iff _]. done. }
  assert (secp256k1N < 2 ^ 256) by done. destruct (field32_small r ltac:(lia)) as [br ->], (field32_small s ltac:(lia)) as [bs ->].
  destruct (crypto_Ecrecover _ _) as [pub|e]; [|by eexists]. destruct pub as [|x pub]; [by eexists|].
  destruct x; try by eexists. eexists. split; [done|]. intros a [= <-]. apply Z.mod_pos_bound. done.
Qed.
Lemma Signer_Sender_total s tx : ∃ x, Signer_Sender s tx = Some x ∧ ∀ a, x = inl a → 0 <= a.
Proof.
  destruct s; [apply recoverPlain_total..|]. cbn. unfold EIP155_Sender. case_match; [apply recoverPlain_total|]. case_match; [apply recoverPlain_total|].
  case_match; [by eexists|apply recoverPlain_total].
Qed.
Lemma AsMessage_total s tx : from_ok tx → ∃ m tx', AsMessage s tx = Some (m, tx') ∧
  match m with
  | inr e => True
  | inl msg => 0 <= msg_From msg ∧ msg_To msg = tx_Recipient tx ∧ msg_GasPrice msg = tx_Price tx ∧ msg_Gas msg = tx_GasLimit tx ∧
      msg_Value msg = tx_Amount tx ∧ msg_Data msg = tx_Payload tx ∧ msg_IsVault msg = IsVault tx
  end.
Proof.
  intros Hok. destruct (Sender_cached s tx Hok) as [Hs _]. destruct (Signer_Sender_total s tx) as (x & Hx & Hpos). rewrite Hx in Hs.
  unfold AsMessage. destruct (Sender s tx) as [[r tx']|] eqn:Hr; [|done]. injection Hs as ->.
  assert (tx' = tx ∨ ∃ c, tx' = set_from c tx) as Htx.
  { unfold Sender in Hr. destruct (tx_from tx) as [[s1 a1]|]; [destruct (Signer_Equal s1 s); [injection Hr as _ <-; by left|]|];
      destruct (Signer_Sender s tx) as [[a|e]|]; try done; injection Hr as _ <-; eauto. }
  destruct x as [a|e]; (eexists _, _; split; [done|]); [|done]. destruct Htx as [-> |[c ->]]; cbn; split_and!; try done; by apply Hpos.
Qed.
End senders.

(** ** Hashes of ancestors *)

Section ancestors.
Context `{!Crypto} (chain : ChainContext) (hs : list Header) (ref : Header).

(** The ancestors of a header, by number, as the chain stores them. *)
Record ancestors : Prop := {
  an_number i h : hs !! i = Some h → h_Number h = Some (Z.of_nat i);
  an_stored i h : hs !! i = Some h → cx_GetHeader chain (Header_Hash h) (Z.of_nat i) = Some h;
  an_parent i h h' : hs !! i = Some h → hs !! S i = Some h' → h_ParentHash h' = Header_Hash h;
  an_ref : h_Number ref = Some (Z.of_nat (length hs));
  an_ref_parent h : hs !! (length hs - 1)%nat = Some h → h_ParentHash ref = Header_Hash h;
  an_size : Z.of_nat (length hs) < two64
}.
Hypothesis HA : ancestors.

(** What the cache holds is right, and it holds the parent. *)
Record hashes_ok (c : gmap Z hash) : Prop := {
  ho_right i h v : hs !! i = Some h → c !! Z.of_nat i = Some v → v = Header_Hash h;
  ho_parent : is_Some (c !! Z.of_nat (length hs - 1))
}.
Lemma number_pred i h : hs !! S i = Some h → u64 (big_Uint64 (Z.of_nat (S i)) - 1) = Z.of_nat i.
Proof using HA.
  intros Hi%lookup_lt_Some. pose proof (an_size HA). rewrite big_Uint64_small by lia. unfold u64. rewrite Z.mod_small by lia. lia.
Qed.
Lemma hash_walk_ok fuel i h c n hn : hs !! i = Some h → hs !! n = Some hn → (n < i)%nat → (i - n <= fuel)%nat → hashes_ok c →
  ∃ c', hash_walk chain fuel (Some h) c (Z.of_nat n) = Some (Header_Hash hn, c') ∧ hashes_ok c'.
Proof using HA.
  revert i h c. induction fuel as [|fuel IH]; intros i h c Hi Hn Hlt Hf Hc; [lia|]. destruct i as [|i]; [lia|]. cbn [hash_walk].
  rewrite (an_number HA _ _ Hi), (number_pred i h Hi). destruct (lookup_lt_is_Some_2 hs i) as [hp Hp]; [apply lookup_lt_Some in Hi; lia|].
  rewrite (an_parent HA _ _ _ Hp Hi). cbv zeta. assert (hashes_ok (<[Z.of_nat i := Header_Hash hp]> c)) as Hc'.
  { split; [|apply lookup_insert_is_Some'; right; apply Hc]. intros j hj v Hj.
    destruct (decide (j = i)) as [->|Hne]; [rewrite lookup_insert, decide_True by done; congruence|]. rewrite lookup_insert_ne by lia. by apply Hc. }
  destruct (Z.eqb_spec (Z.of_nat n) (Z.of_nat i)) as [Heq|Hne].
  - assert (n = i) as -> by lia. eexists. split; [|exact Hc']. congruence.
  - rewrite (an_stored HA _ _ Hp). by apply (IH i); [..|lia|lia|].
Qed.
(** The function of [GetHashFn], which the BLOCKHASH instruction calls, finds the hash of every
    ancestor, whatever it was asked before, in at most as many steps as there are ancestors. *)
Theorem GetHashFn_correct cache n hn : hs !! n = Some hn → (∀ c, cache = Some c → hashes_ok c) →
  ∃ c', GetHashFn chain (S (length hs)) ref cache (Z.of_nat n) = Some (Header_Hash hn, c') ∧ hashes_ok c'.
Proof using HA.
  intros Hn Hc. pose proof (lookup_lt_Some _ _ _ Hn) as Hlt. unfold GetHashFn. rewrite (an_ref HA). pose proof (an_size HA).
  assert (u64 (big_Uint64 (Z.of_nat (length hs)) - 1) = Z.of_nat (length hs - 1)) as ->.
  { rewrite big_Uint64_small by lia. unfold u64. rewrite Z.mod_small by lia. lia. }
  destruct (lookup_lt_is_Some_2 hs (length hs - 1)) as [hp Hp]; [lia|]. rewrite (an_ref_parent HA _ Hp). set (c := default _ cache).
  assert (hashes_ok c) as Hok.
  { unfold c. destruct cache as [c0|]; [by apply Hc|]. split; [|cbn; by rewrite lookup_singleton, decide_True].
    intros i h v Hi Hv. cbn in Hv. apply lookup_singleton_Some in Hv as [Heq <-]. assert (i = length hs - 1)%nat as -> by lia. congruence. }
  destruct (c !! Z.of_nat n) as [v|] eqn:Hv; [exists c; split; [|done]; by rewrite (ho_right _ Hok n hn v)|].
  rewrite (an_stored HA _ _ Hp). eapply (hash_walk_ok _ _ _ _ _ _ Hp Hn); [|lia|done].
  destruct (decide (n = length hs - 1)%nat) as [->|]; [|lia]. destruct (ho_parent _ Hok). congruence.
Qed.
End ancestors.

(** ** The context *)

Section laws.
Context `{!Crypto} `{!PrecompileLib} `{PL : !PrecompileLaws} (D : Database) (accountRoot : gmap Z Account → hash).
Context (config : ChainConfig) (chain : ChainContext) (cfg : VmConfig) (extra : list Z) (vault : option (bytes → result bytes)).
Hypothesis HD : db_ok D.
#[local] Set Default Proof Using "PL HD".

(** The chain answers with hashes and addresses. *)
Record chain_ok : Prop := {
  ch_author h a : cx_Author chain h = inl a → 0 <= a;
  ch_parent x n h : cx_GetHeader chain x n = Some h → 0 <= h_ParentHash h
}.
(** The rules of the block: Byzantium and EIP-158 are on, and so is the repair of Constantinople's
    gas metering if that is; EWASM is off; there is a chain id; the extra EIPs are known. *)
Record block_ok (header : Header) (number : Z) : Prop := {
  bk_number : h_Number header = Some number; bk_pos : 0 <= number;
  bk_difficulty : is_Some (h_Difficulty header);
  bk_parent : 0 <= h_ParentHash header; bk_coinbase : 0 <= h_Coinbase header;
  bk_gas : 0 <= h_GasLimit header < two64;
  bk_byzantium : cc_IsByzantium config (Some number) = true;
  bk_eip158 : cc_IsEIP158 config (Some number) = true;
  bk_sstore : cc_IsPetersburg config (Some number) || negb (cc_IsConstantinople config (Some number)) = true;
  bk_ewasm : cc_IsEWASM config (Some number) = false;
  bk_chain : ∃ c, cc_ChainID config = Some c ∧ 0 <= c;
  bk_eips env : is_Some (NewEVMInterpreter D env extra)
}.
Hypothesis HC : chain_ok.

Lemma GetHash_nonneg fuel header cache n : 0 <= h_ParentHash header → (∀ c k v, cache = Some c → c !! k = Some v → 0 <= v) →
  0 <= default 0 (fst <$> GetHashFn chain fuel header cache n).
Proof using HC.
  intros Hp Hc. unfold GetHashFn. destruct (h_Number header) as [number|]; [|done].
  set (c := default _ cache). assert (∀ k v, c !! k = Some v → 0 <= v) as Hc0.
  { unfold c. destruct cache as [c'|]; [intros k v; by apply (Hc c')|]. intros k v Hv. cbn in Hv. by apply lookup_singleton_Some in Hv as [_ <-]. }
  destruct (c !! n) as [v|] eqn:Hn; [by eapply Hc0|]. clear Hn.
  assert (∀ h, cx_GetHeader chain (h_ParentHash header) (u64 (big_Uint64 number - 1)) = Some h → 0 <= h_ParentHash h) as Hh by (intros h; apply (ch_parent HC)).
  revert Hh. generalize (cx_GetHeader chain (h_ParentHash header) (u64 (big_Uint64 number - 1))). generalize c. clear Hc Hc0 c. clear -HC.
  induction fuel as [|fuel IH]; intros c [h|] Hh; cbn; try done. destruct (h_Number h) as [num|]; [|done].
  case_match; [by apply Hh|]. apply IH. intros h'. apply (ch_parent HC).
Qed.
Lemma tx_env_ok header number msg : block_ok header number → 0 <= msg_From msg → 0 <= msg_GasPrice msg →
  ∃ ctx, NewEVMContext chain msg header None = Some ctx ∧ env_ok (tx_env config cfg ctx false) ∧ ctx_BlockNumber ctx = number.
Proof using HC.
  intros HB Hf Hg. unfold NewEVMContext. rewrite (bk_number _ _ HB). destruct (bk_difficulty _ _ HB) as [d ->].
  eexists. split; [reflexivity|]. split; [|done]. split; cbn; try done; try apply HB.
  - destruct (cx_Author chain header) as [a|] eqn:Ha; [by eapply ch_author|done].
  - intros n. apply GetHash_nonneg; [apply HB|done].
Qed.

(** ** One transaction *)

(** A public transaction, with the numbers that its wire format allows. *)
Record tx_ok (tx : Transaction) : Prop := {
  tk_from : from_ok tx; tk_public : cc_IsSmilo config && IsVault tx = false;
  tk_gas : 0 <= tx_GasLimit tx < 2 ^ 62; tk_price : 0 <= tx_Price tx; tk_amount : 0 <= tx_Amount tx;
  tk_to a : tx_Recipient tx = Some a → 0 <= a; tk_payload : small (tx_Payload tx)
}.
(** The run of the EVM for the transaction depends on a stale analysis. *)
Definition stale_tx (header : Header) (tx : Transaction) (p : ProcState) : Prop :=
  ∃ msg tx' ctx jt eips, AsMessage (MakeSigner config (h_Number header)) tx = Some (inl msg, tx') ∧ NewEVMContext chain msg header None = Some ctx ∧
    NewEVMInterpreter D (tx_env config cfg ctx false) extra = Some (jt, eips) ∧
    tx_meets_stale D (tx_env config cfg ctx false) jt (cc_IsGas config) (cc_IsGasRefunded config) vault msg (pr_gp p) (pr_statedb p).

(** The receipt of a transaction that used [gas], after [used] units of the block. *)
Record receipt_ok (used : Z) (tx : Transaction) (t : hash * Z) (number : Z) (r : Receipt) : Prop := {
  rk_gas : 0 <= rc_GasUsed r <= tx_GasLimit tx;
  rk_cumulative : rc_CumulativeGasUsed r = used + rc_GasUsed r;
  rk_txhash : rc_TxHash r = Tx_Hash tx;
  rk_block : rc_BlockHash r = t.1 ∧ rc_BlockNumber r = Some number;
  rk_index : rc_TransactionIndex r = t.2;
  rk_status : rc_Status r = ReceiptStatusFailed ∨ rc_Status r = ReceiptStatusSuccessful;
  rk_contract : tx_Recipient tx ≠ None → rc_ContractAddress r = 0;
  rk_bloom : CreateBloom [r] = Some (rc_Bloom r)
}.
Definition tx_post (tx : Transaction) (number : Z) (p : ProcState) (r : result (Receipt * option Receipt * Z)) (p' : ProcState) : Prop :=
  dbgood D (pr_statedb p') ∧
  match r with
  | inr _ => True
  | inl (receipt, vaultReceipt, gas) =>
      vaultReceipt = None ∧ rc_GasUsed receipt = gas ∧ pr_gp p' = pr_gp p - gas ∧ gas <= pr_gp p ∧ pr_usedGas p' = pr_usedGas p + gas ∧
      sd_validRevisions (pr_statedb p') = [] ∧ receipt_ok (pr_usedGas p) tx (sd_bhash (pr_statedb p), sd_txIndex (pr_statedb p)) number receipt
  end.

Lemma fill_receipt_ok r tx msg gas logs bh bn i : ∃ bloom, fill_receipt r tx msg gas logs bh bn i =
  Some (MkReceipt (rc_PostState r) (rc_Status r) (rc_CumulativeGasUsed r) bloom logs (Tx_Hash tx)
    (match msg_To msg with None => CreateAddress (msg_From msg) (tx_AccountNonce tx) | Some _ => rc_ContractAddress r end) gas bh bn i) ∧
  ∀ r', rc_Logs r' = logs → CreateBloom [r'] = Some bloom.
Proof using Type.
  unfold fill_receipt. set (r1 := MkReceipt _ _ _ _ _ _ _ _ _ _ _). destruct (CreateBloom_value [r1]) as (b & Hb & _). rewrite Hb. exists b. split; [done|].
  intros r' Hr'. rewrite <-Hb. unfold CreateBloom. cbn [foldl]. by rewrite Hr'.
Qed.

Lemma ApplyTransaction_ok header number tx p : block_ok header number → tx_ok tx → dbgood D (pr_statedb p) →
  0 <= pr_gp p → 0 <= pr_usedGas p → pr_gp p + pr_usedGas p < two64 →
  stale_tx header tx p ∨
  wp (ApplyTransaction D accountRoot config chain cfg extra vault None header tx) (tx_post tx number p) p.
Proof using PL HD HC.
  intros HB Htx Hgood Hgp Hused Hfit. destruct (classic (stale_tx header tx p)) as [|Hno]; [by left|right].
  unfold ApplyTransaction. rewrite (tk_public _ Htx). cbv zeta. case_match; [by wp_step|].
  destruct (AsMessage_total (MakeSigner config (h_Number header)) tx (tk_from _ Htx)) as (m & tx' & Hm & Hmsg). rewrite Hm. wp_step.
  destruct m as [msg|e]; [|by wp_step]. destruct Hmsg as (Hfrom & Hto & Hprice & Hgas & Hvalue & Hdata & Hvault).
  destruct (tx_env_ok header number msg HB Hfrom) as (ctx & Hctx & HE & Hnum); [rewrite Hprice; apply Htx|]. rewrite Hctx. wp_step.
  set (env := tx_env config cfg ctx false) in *. wp_step. destruct (NewEVM_ok D env HE (pr_statedb p) Hgood) as (vm & -> & _). wp_step. destruct (bk_eips _ _ HB env) as [[jt eips] Hjt]. rewrite Hjt. wp_step.
  assert (msg_ok msg) as HM.
  { split; [rewrite Hgas; apply Htx|rewrite Hprice; apply Htx|rewrite Hvalue; apply Htx|done|rewrite Hto; apply Htx|rewrite Hdata; apply Htx]. }
  destruct (ApplyMessage_runs D env extra jt eips HD HE Hjt (cc_IsGas config) (cc_IsGasRefunded config) vault msg HM (pr_gp p) (pr_statedb p) Hgood) as
    [Hst|(r & st & Hrun & Hacc & Hg' & Ht')]; [unfold two64 in *; lia|rewrite Hvault; apply Htx|destruct Hno; by exists msg, tx', ctx, jt, eips|].
  destruct r as [[[ret gas] failed] e]. cbn in Hacc.
  eapply (wp_seq _ _ (λ r p1, r = (ret, gas, failed, e) ∧ p1 = MkProc (st_gp st) (st_state st) (pr_vault p) (pr_usedGas p))).
  { unfold apply_message, wp. fold env. by rewrite Hrun. }
  intros ? ? [-> ->]. destruct e as [e|]; [by wp_step|].
  destruct (Hacc eq_refl) as (s1 & s2 & left & vmerr & Hac). pose proof (acc_range _ _ _ _ _ _ _ _ _ _ _ _ Hac) as [Hr1 Hr2]. pose proof (acc_pool _ _ _ _ _ _ _ _ _ _ _ _ Hac) as Hpool.
  rewrite (bk_number _ _ HB). eapply (wp_seq _ _ (λ root p1, dbgood D (pr_statedb p1) ∧ tx_of (pr_statedb p1) = tx_of (pr_statedb p) ∧ sd_validRevisions (pr_statedb p1) = [] ∧ pr_gp p1 = pr_gp p - gas ∧ pr_usedGas p1 = pr_usedGas p)).
  { unfold finalise_tx. rewrite (bk_byzantium _ _ HB). unfold on_statedb, wp. cbn [pr_statedb pr_gp pr_vault pr_usedGas].
    pose proof (wp_Finalise D (st_state st) Hg') as Hf. unfold wp in Hf. unfold mbind'. destruct (StateDB_Finalise D true (st_state st)) as [[[] s3]|]; [|done].
    destruct Hf as (Hg3 & _ & Hrv & _ & _ & Hh & Hbh & Hti & _). cbn. split; [done|]. split; [|done]. rewrite <-Ht'. unfold tx_of. by rewrite Hh, Hbh, Hti. }
  intros root p1 (Hg1 & Ht1 & Hrv1 & Hgp1 & Hu1). wp_steps.
  eapply (wp_seq _ _ (λ _ p2, p2 = add_usedGas gas p1)); [by apply (wp_of_run _ _ _ (default [] (sd_logs (pr_statedb p1) !! Tx_Hash tx)) (add_usedGas gas p1))|].
  intros logs ? ->. destruct (fill_receipt_ok (NewReceipt root (negb false && failed) (pr_usedGas (add_usedGas gas p1))) tx msg gas logs
    (sd_bhash (pr_statedb (add_usedGas gas p1))) (Some number) (sd_txIndex (pr_statedb (add_usedGas gas p1)))) as (bloom & -> & Hbloom). wp_steps.
  assert (u64 (pr_usedGas p1 + gas) = pr_usedGas p + gas) as Hu by (rewrite Hu1; unfold u64; apply Z.mod_small; unfold two64 in *; lia).
  injection Ht1 as Hth Hbh Hti. split; [done|]. cbn [pr_gp pr_usedGas add_usedGas]. split_and!; [done|done|lia|lia|done|done|].
  split; cbn [rc_GasUsed rc_CumulativeGasUsed rc_TxHash rc_BlockHash rc_BlockNumber rc_TransactionIndex rc_Status rc_ContractAddress rc_Bloom NewReceipt pr_usedGas add_usedGas fst snd pr_statedb];
    [by rewrite <-Hgas|done|done|by rewrite Hbh|by rewrite Hti|destruct failed; [by left|by right]|rewrite <-Hto; by destruct (msg_To msg)|by apply Hbloom].
Qed.

(** ** The block *)

(** The receipts of a list of transactions, from the [i]-th on, after [used] units of gas. *)
Inductive receipts_ok (bh : hash) (number : Z) : Z → Z → list Transaction → list Receipt → Z → Prop :=
  | receipts_nil i used : receipts_ok bh number i used [] [] used
  | receipts_cons i used tx txs r rs total :
      receipt_ok used tx (bh, i) number r → receipts_ok bh number (i + 1) (used + rc_GasUsed r) txs rs total →
      receipts_ok bh number i used (tx :: txs) (r :: rs) total.

Lemma receipts_total bh number i used txs rs total : receipts_ok bh number i used txs rs total → used <= total.
Proof using Type. induction 1 as [|i used tx txs r rs total Hr Hrs IH]; [done|]. pose proof (rk_gas _ _ _ _ _ Hr). lia. Qed.

Definition prepared (tx : Transaction) (bh : hash) (i : Z) (p : ProcState) : ProcState :=
  MkProc (pr_gp p) (set_tx (Tx_Hash tx) bh i (pr_statedb p)) (set_tx (Tx_Hash tx) bh i (pr_vault p)) (pr_usedGas p).
(** A transaction of the block that is reached depends on a stale analysis. *)
Fixpoint stale_txs (header : Header) (bh : hash) (i : Z) (txs : list Transaction) (p : ProcState) : Prop :=
  match txs with
  | [] => False
  | tx :: txs =>
      stale_tx header tx (prepared tx bh i p) ∨
      ∃ r p', ApplyTransaction D accountRoot config chain cfg extra vault None header tx (prepared tx bh i p) = Some (inl r, p') ∧
        stale_txs header bh (i + 1) txs p'
  end.

Lemma set_tx_good t bh i s : dbgood D s → sd_validRevisions s = [] → dbgood D (set_tx t bh i s).
Proof using Type.
  intros Hg Hrev. pose proof (dbgood_wf D _ Hg) as Hwf. destruct Hg as [[G HG] Ho Hr]. split; [|exact Ho|exact Hr]. exists G.
  assert (sd_validRevisions (set_tx t bh i s) = []) as Hrev' by done.
  split; rewrite ?Hrev'; [|apply HG|constructor|constructor|constructor|by intros ? ? ?%elem_of_nil].
  apply (wf_iff D) in Hwf as (Hok & Hl & Hd). apply (wf_iff D). split; [exact Hok|split; [exact Hl|exact Hd]].
Qed.

Lemma process_txs_ok header number bh txs i p : block_ok header number → Forall tx_ok txs → dbgood D (pr_statedb p) → sd_validRevisions (pr_statedb p) = [] →
  0 <= pr_gp p → 0 <= pr_usedGas p → pr_gp p + pr_usedGas p < two64 →
  stale_txs header bh i txs p ∨
  wp (process_txs D accountRoot config chain cfg extra vault header bh i txs) (λ r p', dbgood D (pr_statedb p') ∧
    match r with
    | inr _ => True
    | inl (receipts, vaultReceipts, allLogs) =>
        vaultReceipts = [] ∧ allLogs = concat (rc_Logs <$> receipts) ∧ 0 <= pr_gp p' ∧ pr_gp p' + pr_usedGas p' = pr_gp p + pr_usedGas p ∧
        sd_validRevisions (pr_statedb p') = [] ∧ receipts_ok bh number i (pr_usedGas p) txs receipts (pr_usedGas p')
    end) p.
Proof using PL HD HC.
  intros HB Htxs. revert i p. induction Htxs as [|tx txs Htx Htxs IH]; intros i p Hgood Hrev Hgp Hused Hfit.
  { right. cbn [process_txs]. wp_step. split; [done|]. split_and!; try done. constructor. }
  cbn [stale_txs]. set (p1 := prepared tx bh i p).
  assert (dbgood D (pr_statedb p1)) as Hgood1 by (by apply set_tx_good).
  destruct (ApplyTransaction_ok header number tx p1 HB Htx Hgood1 Hgp Hused Hfit) as [|Hw]; [by left; left|].
  unfold wp in Hw. destruct (ApplyTransaction D accountRoot config chain cfg extra vault None header tx p1) as [[r p2]|] eqn:Hrun; [|done].
  assert (∀ Q, (match r with inr e => wp (mret' (inr e)) Q p2 | inl (receipt, vaultReceipt, _) =>
      wp (let! rest := process_txs D accountRoot config chain cfg extra vault header bh (i + 1) txs in
          match rest with
          | inr e => mret' (inr e)
          | inl (receipts, vaultReceipts, allLogs) =>
              mret' (inl (receipt :: receipts, match vaultReceipt with Some v => v :: vaultReceipts | None => vaultReceipts end,
                          rc_Logs receipt ++ match vaultReceipt with Some v => rc_Logs v ++ allLogs | None => allLogs end))
          end) Q p2 end) →
    wp (process_txs D accountRoot config chain cfg extra vault header bh i (tx :: txs)) Q p) as Hstep.
  { intros Q HQ. cbn [process_txs]. unfold wp, mbind', on_statedb, on_vault, Prepare, mmod. fold (prepared tx bh i p). fold p1. unfold mbind' in HQ.
    change (MkProc _ _ _ _) with p1. rewrite Hrun. by destruct r as [[[receipt vr] gas]|e]. }
  destruct Hw as [Hg2 Hpost]. destruct r as [[[receipt vr] gas]|e]; [|right; apply Hstep; by wp_step].
  destruct Hpost as (-> & Hgas & Hgp2 & Hle & Hu2 & Hrev2 & Hrec). pose proof (rk_gas _ _ _ _ _ Hrec) as Hgr. rewrite Hgas in Hgr. cbn [pr_gp pr_usedGas p1 prepared] in *.
  destruct (IH (i + 1) p2 Hg2 Hrev2) as [Hst|Hw]; [lia..|left; right; by exists (receipt, None, gas), p2|right].
  apply Hstep. eapply wp_seq; [exact Hw|]. intros rest p3 [Hg3 Hrest]. destruct rest as [[[receipts vrs] logs]|e]; [|by wp_step].
  destruct Hrest as (-> & -> & Hgp3 & Hsum & Hrev3 & Hrecs). wp_step. split; [done|]. split_and!; try done; [lia|].
  econstructor; [exact Hrec|]. by rewrite Hgas, <-Hu2.
Qed.
(** ** The rewards *)

Lemma reward_nonneg table n : 0 <= getSmiloBlockReward table n.
Proof using Type.
  unfold getSmiloBlockReward. set (f := λ (blockReward : Z) (p : Z * Z), _). enough (∀ z, 0 <= z → 0 <= foldl f z table) as Hf by by apply Hf.
  induction table as [|[m r] table IH]; intros z Hz; [done|]. cbn [foldl]. apply IH. cbn. rewrite big_Cmp_gtb.
  destruct (big_Cmp n m =? -1); [|done]. destruct (Z.ltb_spec z r); lia.
Qed.
(** [Engine.AccumulateRewards], which works on a map of balances, is what the code does to
    the state database. *)
Definition balances (m : gmap Z Z) (s : StateDB) : Prop := ∀ b, bal s b = default 0 (m !! b).
Lemma wp_credit m a v bn s : dbgood D s → 0 <= bn → 0 <= v → balances m s →
  wp (AddBalance a v bn) (λ _ s', dbgood D s' ∧ balances (Engine.AddBalance m a v) s') s.
Proof using HD.
  intros Hg Hbn Hv Hm. eapply wp_wand; [by apply (wp_AddBalance_good D HD)|]. intros _ s' [Hr Hb]. split; [apply Hr|]. intros b. rewrite Hb.
  unfold Engine.AddBalance. destruct (decide (b = a)) as [->|Hne]; [rewrite lookup_insert, decide_True by done; by rewrite Hm|by rewrite lookup_insert_ne, Hm].
Qed.
Lemma wp_AccumulateRewards m community number coinbase s : dbgood D s → 0 <= number → balances m s →
  wp (AccumulateRewards_db community number coinbase) (λ _ s', dbgood D s' ∧
    balances (AccumulateRewards smiloTokenMetricsTable community m number coinbase) s') s.
Proof using HD.
  intros Hg Hn Hm. pose proof (reward_nonneg smiloTokenMetricsTable number) as Hr. unfold AccumulateRewards_db, AccumulateRewards. cbv zeta.
  destruct (coinbase =? 0); [by wp_step|]. assert (0 <= getSmiloBlockReward smiloTokenMetricsTable number / 4) by (apply Z.div_pos; lia).
  destruct community as [c|]; [|wp_step; by apply wp_credit]. eapply wp_seq; [by apply (wp_credit m)|]. intros _ s1 [Hg1 Hm1]. by apply wp_credit.
Qed.
Lemma wp_rewards community number coinbase s : dbgood D s → 0 <= number → wp (AccumulateRewards_db community number coinbase) (λ _ s', dbgood D s') s.
Proof using HD.
  intros Hg Hn. pose proof (reward_nonneg smiloTokenMetricsTable number) as Hr. unfold AccumulateRewards_db. cbv zeta.
  assert (∀ a v s, dbgood D s → 0 <= v → wp (AddBalance a v number) (λ _ s', dbgood D s') s) as Hcredit.
  { intros a v s0 Hg0 Hv. eapply wp_wand; [by apply (wp_AddBalance_good D HD)|]. intros _ s' [Hx _]. apply Hx. }
  destruct (coinbase =? 0); [by wp_step|]. assert (0 <= getSmiloBlockReward smiloTokenMetricsTable number / 4) by (apply Z.div_pos; lia).
  destruct community as [c|]; [|wp_step; by apply Hcredit]. eapply wp_seq; [by apply Hcredit|]. intros ? s1 Hg1. by apply Hcredit.
Qed.
Lemma engine_Finalize_ok community header number n s : block_ok header number → dbgood D s →
  wp (engine_Finalize D accountRoot config community header n) (λ _ s', dbgood D s') s.
Proof using HD.
  intros HB Hg. unfold engine_Finalize. rewrite (bk_number _ _ HB). wp_step.
  eapply (wp_seq _ _ (λ _ s', dbgood D s')); [case_match; [apply wp_rewards; [done|apply HB]|by wp_step]|]. intros _ s1 Hg1.
  unfold IntermediateRoot. rewrite (bk_eip158 _ _ HB). eapply wp_seq; [by apply wp_Finalise|]. intros _ s2 (Hg2 & _). by wp_steps.
Qed.

Definition block_stale (block : Block Transaction) (statedb vaultState : StateDB) : Prop :=
  let header := CopyHeader (blk_header block) in
  stale_txs header (Header_Hash (blk_header block)) 0 (blk_txs block) (MkProc (h_GasLimit header) statedb vaultState 0).

(** With a collision-free hash no analysis is stale. *)
Lemma fresh_txs header number bh txs i p : (∀ c c' : bytes, Keccak256 c = Keccak256 c' → c = c') → block_ok header number → Forall tx_ok txs →
  ¬ stale_txs header bh i txs p.
Proof using PL HD HC.
  intros Hinj HB Htxs. revert i p. induction Htxs as [|tx txs Htx Htxs IH]; intros i p; [by intros []|].
  intros [(msg & tx' & ctx & jt & eips & Hm & Hctx & Hjt & gas & st & _ & Hst)|(r & p' & _ & Hst)]; [|by eapply IH].
  destruct (AsMessage_total (MakeSigner config (h_Number header)) tx (tk_from _ Htx)) as (m & tx2 & Hm2 & Hmsg).
  rewrite Hm in Hm2. injection Hm2 as <- <-. destruct Hmsg as (Hfrom & _ & Hprice & _).
  destruct (tx_env_ok header number msg HB Hfrom) as (ctx' & Hctx' & HE & _); [rewrite Hprice; apply Htx|].
  rewrite Hctx in Hctx'. injection Hctx' as <-. by apply (never_meets_stale D _ extra jt eips HD HE Hjt _ Hinj) in Hst.
Qed.

(** C9. A block of public transactions is processed without a panic, whatever code they
    run, and the state it leaves is good.  When no transaction is refused there is one receipt
    for each, in order, with the hash and the index of its transaction; the cumulative gas
    of each receipt is the sum of the gas used so far; the gas of the block is the sum of
    all, within its limit; the logs are those of the receipts, and each receipt carries the
    bloom filter of its logs.  Assumed ([block_ok], [tx_ok]): Byzantium and EIP-158 are on at the block, Petersburg if Constantinople is, EWASM is
    off, the configuration has a chain id, the interpreter knows the extra EIPs, and the transactions are public, with the numbers that the
    wire format allows and gas below 2{^62}.  The exception is a block with a run that depends on the jump analysis of another code with the same hash
    ([block_stale]; none when Keccak256 has no collisions, [fresh_txs]). *)
Theorem Process_runs community block number statedb vaultState : block_ok (CopyHeader (blk_header block)) number → Forall tx_ok (blk_txs block) →
  dbgood D statedb → sd_validRevisions statedb = [] →
  block_stale block statedb vaultState ∨
  ∃ r p, Process D accountRoot config chain cfg extra vault community block statedb vaultState = Some (r, p) ∧ dbgood D (pr_statedb p) ∧
    match r with
    | inr _ => True
    | inl (receipts, vaultReceipts, allLogs, usedGas) =>
        vaultReceipts = [] ∧ allLogs = concat (rc_Logs <$> receipts) ∧ 0 <= usedGas <= h_GasLimit (blk_header block) ∧
        pr_gp p = h_GasLimit (blk_header block) - usedGas ∧
        receipts_ok (Header_Hash (blk_header block)) number 0 0 (blk_txs block) receipts usedGas
    end.
Proof using PL HD HC.
  intros HB Htxs Hg Hrev. set (header := CopyHeader (blk_header block)) in *. pose proof (bk_gas _ _ HB) as Hlim.
  destruct (process_txs_ok header number (Header_Hash (blk_header block)) (blk_txs block) 0 (MkProc (h_GasLimit header) statedb vaultState 0)) as [Hst|Hw];
    [done|done|done|done|cbn [pr_gp pr_usedGas]; lia..|by left|right].
  unfold Process. fold header. assert (AddGas 0 (h_GasLimit header) = Some (h_GasLimit header)) as ->.
  { unfold AddGas, MaxUint64. unfold two64 in Hlim. by rewrite (proj2 (Z.ltb_ge _ _)) by lia. }
  match goal with |- ∃ r p, ?m ?s0 = _ ∧ _ => enough (wp m (λ r p, dbgood D (pr_statedb p) ∧
    match r with
    | inr _ => True
    | inl (receipts, vaultReceipts, allLogs, usedGas) =>
        vaultReceipts = [] ∧ allLogs = concat (rc_Logs <$> receipts) ∧ 0 <= usedGas <= h_GasLimit (blk_header block) ∧
        pr_gp p = h_GasLimit (blk_header block) - usedGas ∧
        receipts_ok (Header_Hash (blk_header block)) number 0 0 (blk_txs block) receipts usedGas
    end) s0) as Hx; [unfold wp in Hx; destruct (m s0) as [[r p]|]; [by exists r, p|done]|] end.
  eapply (wp_seq _ _ (λ _ p, p = MkProc (h_GasLimit header) statedb vaultState 0)); [case_match; [done|by wp_step]|]. intros _ ? ->.
  eapply wp_seq; [exact Hw|]. intros r p [Hg' Hr]. destruct r as [[[receipts vrs] logs]|e]; [|by wp_step].
  destruct Hr as (-> & -> & Hgp & Hsum & _ & Hrecs). cbn [pr_gp pr_usedGas] in *.
  eapply (wp_seq _ _ (λ _ p', dbgood D (pr_statedb p') ∧ pr_gp p' = pr_gp p ∧ pr_usedGas p' = pr_usedGas p)).
  { pose proof (engine_Finalize_ok community header number (length (blk_txs block)) (pr_statedb p) HB Hg') as Hf. unfold wp in *. unfold on_statedb.
    by destruct (engine_Finalize _ _ _ _ _ _ _) as [[x s']|]. }
  intros _ p' (Hg2 & Hgp2 & Hu2). wp_steps. rewrite Hu2, Hgp2. pose proof (receipts_total _ _ _ _ _ _ _ Hrecs) as Hpos.
  change (h_GasLimit header) with (h_GasLimit (blk_header block)) in *. split; [done|]. split_and!; try done; lia.
Qed.
End laws.
