(* ===== verification/VmExamples.v ===== *)
(** * Runs of the virtual machine

    A state with a few contracts, run by evaluation: inputs for the theorems of
    VmLaws, VmVault and VmTx, and vault transactions that go wrong. *)

From Stdlib Require Import ZArith Lia.
From S2P Require Import Prelude Errors Rlp Fullnode Messages SmiloPay StateDB StateRevert StateTransition StateLaws VmWord VmWordLaws.
From S2P Require Import Vm VmAnalysis VmGas VmContracts VmEVM VmInstr VmInterp VmArith VmState VmPrecompiled VmInv VmGasLaws VmOps VmCalls VmStep VmRun VmTables VmLaws VmVault VmTx.
Open Scope didux_scope.

(** ** Parameters *)

(** The number that a byte string writes after a leading one: a hash without collisions. *)
#[export] Instance positional : Crypto := { Keccak256 b := be_val (x01 :: b); SigToAddress _ _ := None }.
Lemma positional_inj (c c' : bytes) : Keccak256 c = Keccak256 c' → c = c'.
Proof.
  intros Hk. change (be_val (x01 :: c) = be_val (x01 :: c')) in Hk.
  pose proof (putint_be_val x01 c ltac:(done)) as Hc. rewrite Hk, putint_be_val in Hc by done. by injection Hc.
Qed.

#[export] Instance sample_lib : PrecompileLib := {
  sha256_Sum256 b := be_fix 32 (Keccak256 b); ripemd160_Sum b := be_fix 20 (Keccak256 b); crypto_Ecrecover h s := inl (be_fix 65 (be_val s));
  G1 := Z; G2 := Z; G1_Unmarshal b := inl (be_val b); G2_Unmarshal b := inl (be_val b);
  G1_Add := Z.add; G1_ScalarMult := Z.mul; G1_Marshal := be_fix 64; PairingCheck _ _ := true
}.
#[export] Instance sample_lib_laws : PrecompileLaws.
Proof.
  split; [intros; apply length_be_fix..| |intros; apply length_be_fix]. intros h s p Hp.
  change (inl (be_fix 65 (be_val s)) = @inl bytes error p) in Hp. apply (inj inl) in Hp. rewrite <-Hp. apply length_be_fix.
Qed.

(** Adds two numbers and returns the sum. *)
Definition adder : bytes := map Z_byte [0x60; 2; 0x60; 3; 0x01; 0x60; 0; 0x52; 0x60; 32; 0x60; 0; 0xf3].
(** Stores a word and then reverts. *)
Definition reverter : bytes := map Z_byte [0x60; 7; 0x60; 0; 0x55; 0x60; 0; 0x60; 0; 0xfd].
(** Starts with an undefined opcode. *)
Definition trap : bytes := map Z_byte [0xfe].
(** Makes a static call to account [n] with all its gas. *)
Definition static_caller (n : Z) : bytes := map Z_byte [0x60; 0; 0x60; 0; 0x60; 0; 0x60; 0; 0x60; n; 0x5a; 0xfa; 0x00].
(** Returns the adder: the code of a creation. *)
Definition deployer : bytes := map Z_byte [0x60; 13; 0x60; 12; 0x60; 0; 0x39; 0x60; 13; 0x60; 0; 0xf3] ++ adder.

Definition vm_db : Database := MkDatabase (λ _, ∅)
  (λ h, if h =? Keccak256 adder then Some adder else if h =? Keccak256 reverter then Some reverter
        else if h =? Keccak256 (static_caller 20) then Some (static_caller 20) else if h =? Keccak256 (static_caller 21) then Some (static_caller 21)
        else if h =? Keccak256 trap then Some trap else None)
  (λ m, Z.of_nat (size m)).
Definition rich : Account := MkAccount 0 (10 ^ 21) 5000000000000000 1 0 emptyCodeHash.
Definition poor : Account := MkAccount 3 7 0 1 0 emptyCodeHash.
Definition contract_account (code : bytes) : Account := MkAccount 1 0 0 1 0 (Keccak256 code).
Definition accounts : gmap Z Account :=
  {[11 := rich; 12 := poor; 20 := contract_account adder; 21 := contract_account reverter; 22 := contract_account (static_caller 20)]}.
Definition vm_state : StateDB := StateDB_New accounts.

Lemma sample_hash_nonneg b : 0 <= Keccak256 b.
Proof. apply be_val_nonneg. Qed.
Lemma vm_db_ok : db_ok vm_db.
Proof.
  split; [|done|apply sample_hash_nonneg]. intros h c. cbn [db_ContractCode vm_db].
  destruct (Z.eqb_spec h (Keccak256 adder)); [by intros [= <-]|]. destruct (Z.eqb_spec h (Keccak256 reverter)); [by intros [= <-]|].
  destruct (Z.eqb_spec h (Keccak256 (static_caller 20))); [by intros [= <-]|]. destruct (Z.eqb_spec h (Keccak256 (static_caller 21))); [by intros [= <-]|].
  destruct (Z.eqb_spec h (Keccak256 trap)); [by intros [= <-]|done].
Qed.
Lemma new_good D trie : db_ok D → (∀ a d, trie !! a = Some d → 0 <= ac_Balance d ∧ 0 <= ac_CodeHash d ∧ 0 <= ac_SmiloPay d ∧ 0 <= ac_BlockNumber d) → dbgood D (StateDB_New trie).
Proof.
  intros HD Htrie. split; [apply New_good| |done]. intros a o. unfold peek. cbn [StateDB_New sd_stateObjects sd_trie]. rewrite lookup_empty.
  destruct (trie !! a) as [d|] eqn:Hd; [|done]. intros [= <-]. destruct (Htrie a d Hd) as (? & ? & ? & ?). split; try done.
  - intros c. unfold code_of. cbn. case_match; [done|]. apply HD.
  - intros k. unfold current, committed, getTrie. cbn. rewrite lookup_empty. destruct (_ !! k) eqn:Hk; [by eapply (do_word D HD)|done].
  - intros k. unfold committed, getTrie. cbn. rewrite ?lookup_empty. destruct (db_OpenStorageTrie D _ !! k) eqn:Hk; [by eapply (do_word D HD)|done].
Qed.
Lemma vm_state_good : dbgood vm_db vm_state.
Proof.
  apply new_good; [apply vm_db_ok|].
  assert (map_Forall (λ _ d, 0 <= ac_Balance d ∧ 0 <= ac_CodeHash d ∧ 0 <= ac_SmiloPay d ∧ 0 <= ac_BlockNumber d) accounts) as Hall by (apply (bool_decide_unpack _); vm_compute; exact I).
  exact Hall.
Qed.

Definition sample_ctx : Context_ := MkContext Z.abs 11 1 99 8000000 10 1234 1.
Definition sample_rules : Rules := MkRules true true true true true true true false.
Definition sample_env : Env := MkEnv sample_ctx sample_rules true false (Some 1) (MkVmConfig false false false) PublicDB.
Lemma sample_env_ok : env_ok sample_env.
Proof. split; try done; [intros n; apply Z.abs_nonneg|by exists 1]. Qed.
Definition sample_table : JumpTable := fork_table vm_db sample_env.
Lemma sample_interpreter : NewEVMInterpreter vm_db sample_env [] = Some (sample_table, []).
Proof. reflexivity. Qed.

Lemma no_stale {B} (m : (Z → RunFun) → B) : ¬ meets_stale vm_db sample_env sample_table m.
Proof. apply (never_meets_stale vm_db sample_env [] sample_table [] vm_db_ok sample_env_ok sample_interpreter), positional_inj. Qed.

(** ** Calls *)

Local Abbreviation call_adder := (tx_Call vm_db sample_env (runs sample_env sample_table) 11 20 [] 1000 5 false).
Lemma adder_runs : fst <$> call_adder vm_state = Some (be_fix 32 5, 976, None).
Proof. vm_compute. reflexivity. Qed.
Lemma Call_total_witness : ∃ s', call_adder vm_state = Some ((be_fix 32 5, 976, None), s') ∧ dbgood vm_db s'.
Proof.
  destruct (Call_total vm_db sample_env [] sample_table [] vm_db_ok sample_env_ok sample_interpreter vm_state 11 20 [] 1000 5 false) as [Hst|Hw];
    [apply vm_state_good|done..|by destruct (no_stale _ Hst)|].
  pose proof adder_runs as Hr. unfold wp in Hw. destruct (call_adder vm_state) as [[r s']|]; [|discriminate Hr].
  injection Hr as Hr. rewrite Hr in *. exists s'. split; [reflexivity|apply Hw].
Defined.

Local Abbreviation read_adder := (tx_StaticCall vm_db sample_env (runs sample_env sample_table) 11 20 [] 1000 false).
Lemma StaticCall_writes_nothing_witness : wp read_adder (λ r s', returned vm_db 1000 vm_state r s' ∧ quiet vm_db vm_state s') vm_state.
Proof.
  destruct (StaticCall_writes_nothing vm_db sample_env [] sample_table [] vm_db_ok sample_env_ok sample_interpreter vm_state 11 20 [] 1000 false) as [Hst|Hw];
    [apply vm_state_good|done..|by destruct (no_stale _ Hst)|exact Hw].
Defined.

Local Abbreviation deploy := (tx_Create vm_db sample_env (runs sample_env sample_table) 11 deployer 50000 5 false).
Lemma deployer_runs : (λ r, r.1.2) <$> (fst <$> deploy vm_state) = Some 47376.
Proof. vm_compute. reflexivity. Qed.
Lemma Create_total_witness : wp deploy (created vm_db sample_env 50000 11 vm_state) vm_state.
Proof.
  destruct (Create_total vm_db sample_env [] sample_table [] vm_db_ok sample_env_ok sample_interpreter vm_state 11 deployer 50000 5 false) as [Hst|Hw];
    [apply vm_state_good|done..|by destruct (no_stale _ Hst)|exact Hw].
Defined.

(** ** Turns *)

Definition sample_contract : Contract := MkContract 11 20 None adder (Keccak256 adder) (Some 20) [] 1000 5.
Definition sample_vm : VM :=
  MkVM vm_state vm_state PublicDB (Some PublicDB :: replicate 1026 None) 1 false 0 0 0 false false [] ∅.
Definition sample_frame : Frame := start_frame sample_contract [] false sample_vm.
Lemma sample_vm_made : NewEVM sample_env vm_state vm_state = Some sample_vm.
Proof. reflexivity. Qed.
Lemma sample_vm_ok : vm_ok vm_db sample_vm.
Proof.
  destruct (NewEVM_ok vm_db sample_env sample_env_ok vm_state vm_state_good) as (v & Hv & Hok & _).
  rewrite sample_vm_made in Hv. by injection Hv as <-.
Qed.
Lemma sample_frame_ok : frame_ok vm_db sample_frame.
Proof. by apply start_frame_ok; [apply sample_vm_ok|..|]; [|split; try done; right; right|]. Qed.
Lemma step_preserves_witness : wp (step sample_env sample_table (runs sample_env sample_table 1000) false) (step_post vm_db sample_env sample_frame) sample_frame.
Proof.
  destruct (step_preserves vm_db sample_env [] sample_table [] vm_db_ok sample_env_ok sample_interpreter 1000 false sample_frame) as [Hst|Hw];
    [apply sample_frame_ok|by intros ? ? ? Hb|done|by destruct (no_stale _ Hst)|exact Hw].
Defined.

Definition no_run : RunFun := λ c _ _ _, mret' ([], None, c).
Lemma arithmetic_correct_witness :
  instruction vm_db sample_env SDIV no_run false (set_stack [tt256 - 7; 2; 9] sample_frame) = Some (([], None), set_stack [tt256 - 3; 9] sample_frame) ∧ word (tt256 - 3).
Proof. by apply (arithmetic_correct vm_db sample_env SDIV [tt256 - 7; 2] (tt256 - 3) [9] no_run false (set_stack [tt256 - 7; 2; 9] sample_frame)); [|repeat constructor|]. Defined.

Definition wide_frame : Frame := set_stack [32; 77; 32; 5] (set_mem (MkMemory (replicate 96 x00) 9) sample_frame).
Lemma mstore_mload_witness : ∃ mem,
  (do! opMstore no_run false in opMload no_run false) wide_frame = Some (([], None), set_mem mem (set_stack [77; 5] wide_frame)) ∧ mem_Len mem = 96.
Proof. by apply (mstore_mload no_run false wide_frame 32 77 [5]). Defined.

Lemma memory_fee_path_witness : ∃ mem, grow_all [64; 1024; 32; 32768] sample_frame = Some (inl 5120, set_mem mem sample_frame) ∧ mem_Len mem = 32768.
Proof. apply (memory_fee_path [64; 1024; 32; 32768] sample_frame); [done|]. by apply (bool_decide_unpack _); vm_compute. Defined.

(** ** Transactions *)

Definition sample_message : Message := StateTransition.MkMessage 11 (Some 20) 1000 50000 5 0 true [] false.
Local Abbreviation apply_sample := (ApplyMessage (tx_EVM vm_db sample_env (runs sample_env sample_table) true false None) sample_message 8000000 vm_state).
Lemma sample_message_ok : msg_ok sample_message.
Proof. split; try done. by intros to [= <-]. Qed.
Lemma sample_applied : fst <$> apply_sample = Some (be_fix 32 5, 21024, false, None).
Proof. vm_compute. reflexivity. Qed.

(** ** Vault transactions *)

Definition vault_env : Env := MkEnv sample_ctx sample_rules true false (Some 1) (MkVmConfig false false false) VaultDB.
Definition vault_accounts : gmap Z Account :=
  {[23 := contract_account reverter; 24 := contract_account (static_caller 20); 25 := contract_account (static_caller 21)]}.
(** A call in a vault transaction, and then the public balance of the callee. *)
Definition vault_call (to : address) (gas value : Z) : option (bytes * Z * err * Z) :=
  v ← NewEVM vault_env vm_state (StateDB_New vault_accounts);
  '(r, v') ← Call vm_db vault_env (runs vault_env (fork_table vm_db vault_env) gas) (AccountRef 11) to [] gas value true v;
  '(b, _) ← GetBalance to (vm_public v');
  Some (r, b).

(** A vault contract that makes a static call to a public contract: the first returns, the second reverts. *)
Example vault_static_calls : vault_call 24 100000 0 = Some ([], 99259, None, 0) ∧ vault_call 25 100000 0 = None.
Proof. split; vm_compute; reflexivity. Qed.
(** A call with a value of a contract that reverts, in a vault transaction and in a public one. *)
Example vault_values :
  vault_call 23 100000 5 = Some ([], 79988, Some errExecutionReverted, 5) ∧
  ('(r, s) ← tx_Call vm_db sample_env (runs sample_env sample_table) 11 21 [] 100000 5 false vm_state;
   '(b, _) ← GetBalance 21 s; Some (r, b)) = Some ([], 79988, Some errExecutionReverted, 0).
Proof. split; vm_compute; reflexivity. Qed.

(** A public contract and a vault contract that fail. *)
Definition trap_public : StateDB := StateDB_New (<[26 := contract_account trap]> accounts).
Definition trap_vault : StateDB := StateDB_New {[27 := contract_account trap]}.
Definition trap_vm : VM := MkVM trap_public trap_vault VaultDB (Some VaultDB :: replicate 1026 None) 1 false 0 0 0 false false [] ∅.
Local Abbreviation vault_runs := (runs vault_env (fork_table vm_db vault_env) 1000).
Lemma accounts_good (m : gmap Z Account) : bool_decide (map_Forall (λ _ d, 0 <= ac_Balance d ∧ 0 <= ac_CodeHash d ∧ 0 <= ac_SmiloPay d ∧ 0 <= ac_BlockNumber d) m) = true →
  dbgood vm_db (StateDB_New m).
Proof. intros Hm%bool_decide_eq_true_1. apply new_good; [apply vm_db_ok|exact Hm]. Qed.
Lemma trap_in_vault : in_vault vm_db trap_vm.
Proof. by apply (NewEVM_in_vault vm_db vault_env eq_refl trap_public trap_vault); [apply accounts_good; vm_compute..|]. Qed.
Lemma trap_fails input ro : fails vm_db vault_runs trap input ro.
Proof. by apply undefined_fails. Qed.


(** Without Smilo the value of a creation goes to the zero address instead of the new contract. *)
Definition plain_env : Env := MkEnv sample_ctx sample_rules false false (Some 1) (MkVmConfig false false false) PublicDB.
Definition created_balances (e : Env) : option (err * Z * Z) :=
  '(r, s) ← tx_Create vm_db e (runs e (fork_table vm_db e)) 11 deployer 50000 5 false vm_state;
  '(b, _) ← GetBalance (CreateAddress 11 0) s;
  '(z, _) ← GetBalance 0 s;
  Some (r.2, b, z).
Theorem create_value_lost : created_balances plain_env = Some (None, 0, 5) ∧ created_balances sample_env = Some (None, 5, 0).
Proof. split; vm_compute; reflexivity. Qed.
