(* ===== verification/ProcessorExamples.v ===== *)
(** * Runs of the block processor

    A block with one signed transaction, and one with a vault transaction, run by
    evaluation: inputs for the theorems of ChainConfig, TxSign and ProcessorLaws. *)

From Stdlib Require Import ZArith Lia String.
From S2P Require Import Prelude Errors Rlp Fullnode Messages Header Engine SmiloPay StateDB StateRevert StateTransition VmWord VmWordLaws.
From S2P Require Import Vm VmContracts VmEVM VmInstr VmInterp VmState VmPrecompiled VmInv VmGasLaws VmLaws VmTx ChainConfig TxSign Bloom Processor ProcessorLaws VmExamples.
Open Scope didux_scope.

(** ** Parameters *)

(** A toy scheme that meets the laws of secp256k1: the first half of a signature is the
    key, and so is the public key. *)
#[export] Instance toy_signing : Signing Z := {
  crypto_Sign h k := if (1 <=? k) && (k <? secp256k1N) then inl (be_fix 32 k ++ be_fix 32 1 ++ [x00]) else inr ErrInvalidSig;
  public_key k := x04 :: be_fix 64 k
}.
#[export] Instance toy_lib : PrecompileLib := {
  sha256_Sum256 b := be_fix 32 (Keccak256 b); ripemd160_Sum b := be_fix 20 (Keccak256 b);
  crypto_Ecrecover h s := inl (x04 :: be_fix 64 (be_val (take 32 s)));
  G1 := Z; G2 := Z; G1_Unmarshal b := inl (be_val b); G2_Unmarshal b := inl (be_val b);
  G1_Add := Z.add; G1_ScalarMult := Z.mul; G1_Marshal := be_fix 64; PairingCheck _ _ := true
}.
#[export] Instance toy_lib_laws : PrecompileLaws.
Proof.
  split; [intros; apply length_be_fix..| |intros; apply length_be_fix]. intros h s p Hp.
  change (inl (x04 :: be_fix 64 (be_val (take 32 s))) = @inl bytes error p) in Hp. apply (inj inl) in Hp. rewrite <-Hp. cbn [length]. by rewrite length_be_fix.
Qed.
Lemma toy_sign h k sig : crypto_Sign h k = inl sig → 1 <= k < secp256k1N ∧ sig = be_fix 32 k ++ be_fix 32 1 ++ [x00].
Proof.
  change (crypto_Sign h k) with (if (1 <=? k) && (k <? secp256k1N) then @inl bytes error (be_fix 32 k ++ be_fix 32 1 ++ [x00]) else inr ErrInvalidSig).
  destruct (Z.leb_spec 1 k), (Z.ltb_spec k secp256k1N); try done. intros Hs. apply (inj inl) in Hs. by split.
Qed.
Lemma toy_sign_take k : 1 <= k < secp256k1N → be_val (take 32 (be_fix 32 k ++ be_fix 32 1 ++ [x00])) = k.
Proof.
  intros Hk. rewrite take_app_length' by (by rewrite length_be_fix). apply be_val_be_fix. split; [lia|]. assert (secp256k1N < 256 ^ Z.of_nat 32) by done. lia.
Qed.
#[export] Instance toy_signing_laws : SigningLaws Z.
Proof.
  split.
  - intros h k sig [Hk ->]%toy_sign. change (@inl bytes error (x04 :: be_fix 64 (be_val (take 32 (be_fix 32 k ++ be_fix 32 1 ++ [x00])))) = inl (x04 :: be_fix 64 k)).
    by rewrite toy_sign_take.
  - intros h k sig [Hk ->]%toy_sign. by rewrite !length_app, !length_be_fix.
  - intros h k sig [Hk ->]%toy_sign. by rewrite toy_sign_take.
  - intros h k sig [Hk ->]%toy_sign. rewrite drop_app_length' by (by rewrite length_be_fix). rewrite take_app_length' by (by rewrite length_be_fix). by rewrite be_val_be_fix.
  - intros h k sig v [Hk ->]%toy_sign. rewrite !lookup_app_r by (rewrite ?length_be_fix; lia). rewrite !length_be_fix. intros [= <-]. by left.
  - intros k. by exists (be_fix 64 k).
Qed.

(** ** Configurations and signatures *)

Definition sample_config : ChainConfig :=
  MkChainConfig (Some 20080914) (Some 0) None false (Some 0) (Some 0) (Some 0) (Some 2000000) (Some 0) (Some 0) (Some 0) None None true true false 64.
(** The Istanbul fork is announced, too late for a chain of 10 blocks. *)
Definition upgraded_config : ChainConfig :=
  MkChainConfig (Some 20080914) (Some 0) None false (Some 0) (Some 0) (Some 0) (Some 2000000) (Some 0) (Some 0) (Some 0) (Some 7) None true true false 64.
Lemma sample_sane c : c = sample_config ∨ c = upgraded_config → sane c.
Proof.
  intros Hc f v Hf Hv. unfold forks in Hf. rewrite !elem_of_cons, elem_of_nil in Hf.
  destruct Hc as [-> | ->]; destruct_or! Hf; try done; subst f; cbn in Hv; try done; injection Hv as <-; lia.
Qed.
Lemma CheckCompatible_exact_witness : ∃ e, CheckCompatible 13 sample_config upgraded_config 10 false = Some (Some e) ∧
  ce_RewindTo e = 6 ∧ agree sample_config upgraded_config 6 ∧ ¬ agree sample_config upgraded_config 7.
Proof.
  destruct (CheckCompatible_exact sample_config upgraded_config (sample_sane _ ltac:(by left)) (sample_sane _ ltac:(by right)) 10) as (r & Hr & Hspec); [done|].
  change (CheckCompatible 13 sample_config upgraded_config 10 false = Some r) in Hr.
  assert (CheckCompatible 13 sample_config upgraded_config 10 false = Some (Some (newCompatError "Istanbul fork block" None (Some 7)))) as Hrun by reflexivity.
  rewrite Hrun in Hr. injection Hr as <-. change (ce_RewindTo _) with 6 in Hspec. destruct Hspec as (_ & _ & Hb).
  eexists. split; [exact Hrun|]. split; [done|]. split; [by apply Hb|]. intros Hag%Hb; done.
Defined.

Definition sample_unsigned : Transaction := newTransaction 0 (Some 20) (Some 5) 50000 (Some 1000) [].
Definition sample_tx : Transaction := set_VRS (35 + 2 * 20080914) 11 1 sample_unsigned.
Lemma Sender_of_signed_witness : SignTx sample_unsigned (EIP155Signer 20080914) 11 = Some (inl sample_tx) ∧
  fst <$> Sender (EIP155Signer 20080914) sample_tx = Some (inl 11) ∧ Sender (EIP155Signer 1) sample_tx = Some (inr ErrInvalidChainID, sample_tx).
Proof.
  destruct (Sender_of_signed sample_unsigned (EIP155Signer 20080914) 11 (be_fix 32 11 ++ be_fix 32 1 ++ [x00])) as (v & r & s & tx & Hsign & Hsend & Hother); [done|vm_compute; reflexivity|].
  assert (SignTx sample_unsigned (EIP155Signer 20080914) 11 = Some (inl sample_tx)) as Hrun by (vm_compute; reflexivity).
  cbv zeta in *. rewrite Hrun in Hsign. apply (inj Some), (inj inl) in Hsign. rewrite <-Hsign in *. split; [exact Hrun|]. split; [rewrite Hsend; vm_compute; reflexivity|by apply (Hother 20080914)].
Defined.

(** ** A block *)

Definition sample_chain : ChainContext := MkChainContext (λ _, inl 99) (λ _ _, None).
Definition sample_header : Header := MkHeader 9 0 99 0 0 0 0 (Some 1) (Some 10) 8000000 0 1234 [] 0 0.
Definition sample_block : Block Transaction := MkBlock sample_header [sample_tx] [].
Definition trie_root (t : gmap Z Account) : hash := Z.of_nat (size t).
Local Abbreviation process_sample := (Process vm_db trie_root sample_config sample_chain (MkVmConfig false false false) [] None None sample_block vm_state vm_state).

Lemma sample_chain_ok : chain_ok sample_chain.
Proof. split; [by intros h a [= <-]|done]. Qed.
Lemma sample_block_ok : block_ok vm_db sample_config [] (CopyHeader sample_header) 10.
Proof. split; try done. by exists 20080914. Qed.
Lemma sample_tx_ok : tx_ok sample_config sample_tx.
Proof. split; try done. by intros a [= <-]. Qed.
Definition gas_of (r : result (list Receipt * list Receipt * list Log * Z) * ProcState) : option (list (Z * Z) * Z) :=
  match r.1 with inl (rs, _, _, u) => Some ((λ r, (rc_Status r, rc_GasUsed r)) <$> rs, u) | inr _ => None end.
Lemma sample_processed : process_sample ≫= gas_of = Some ([(1, 21024)], 21024).
Proof. vm_compute. reflexivity. Qed.
Lemma Process_runs_witness : ∃ receipts logs p, process_sample = Some (inl (receipts, [], logs, 21024), p) ∧ dbgood vm_db (pr_statedb p) ∧
  receipts_ok (Header_Hash sample_header) 10 0 0 [sample_tx] receipts 21024.
Proof.
  destruct (Process_runs vm_db trie_root sample_config sample_chain (MkVmConfig false false false) [] None vm_db_ok sample_chain_ok None sample_block 10 vm_state vm_state)
    as [Hst|(r & p & Hr & Hg & Hpost)];
    [exact sample_block_ok|by apply Forall_singleton, sample_tx_ok|apply vm_state_good|done| |].
  - exfalso. revert Hst. apply (fresh_txs vm_db trie_root sample_config sample_chain (MkVmConfig false false false) [] None vm_db_ok sample_chain_ok _ 10);
      [apply positional_inj|exact sample_block_ok|by apply Forall_singleton, sample_tx_ok].
  - pose proof sample_processed as Hs. rewrite Hr in Hs. destruct r as [[[[rs vrs] logs] used]|e]; [|discriminate Hs]. destruct Hpost as (-> & _ & _ & _ & Hrs).
    assert (used = 21024) as -> by (injection Hs; done). exists rs, logs, p. split; [exact Hr|]. split; [exact Hg|exact Hrs].
Defined.

(** ** A vault transaction *)

(** The public payload is the key of the private one. *)
Definition sample_vault (key : bytes) : result bytes := if bool_decide (key = [x2a]) then inl [x01] else inr ErrInvalidSig.
Definition vault_tx (to : address) : Transaction := set_VRS 37 11 1 (newTransaction 0 (Some to) (Some 0) 50000 (Some 0) [x2a]).
Definition private_state : StateDB := StateDB_New {[26 := contract_account adder; 27 := contract_account reverter]}.
(** The status and the gas of the public receipts and of the vault receipts. *)
Definition process_vault (to : address) : option (list (Z * Z) * list (Z * Z)) :=
  let summary (rs : list Receipt) := (λ r, (rc_Status r, rc_GasUsed r)) <$> rs in
  '(r, _) ← Process vm_db trie_root sample_config sample_chain (MkVmConfig false false false) [] (Some sample_vault) None
        (MkBlock sample_header [vault_tx to] []) vm_state private_state;
  match r with inl (rs, vrs, _, _) => Some (summary rs, summary vrs) | inr _ => None end.
(** A vault transaction has two receipts; the public one reports success whatever the
    private code does, and no gas. *)
Lemma vault_receipts : process_vault 26 = Some ([(1, 0)], [(1, 0)]) ∧ process_vault 27 = Some ([(1, 0)], [(0, 0)]).
Proof. split; vm_compute; reflexivity. Qed.
