(* ===== verification/Trie.v ===== *)
(** * The Merkle Patricia trie: trie/encoding.go, trie/trie.go, trie/node.go

    A node is nil, a full node of 17 children, a short node (extension or
    leaf), a value, or the hash of a node that has not been loaded.  The
    operations walk the nodes by the hex form of the key and load missing
    nodes from the database, given by its function [node].  The recursion
    is on fuel: loading a node consumes no nibble of the key.  The outer
    [option] of a result is [None] on a Go panic (an index out of range, a
    type assertion, an invalid node) or when the fuel is out.

    Keys (trie/encoding.go) have three encodings: the bytes, the nibbles with an
    optional terminator (16), and the compact form written to disk.  A nibble is
    a natural number. *)

From Stdlib Require Import ZArith Lia.
From S2P Require Import Prelude Errors Rlp.
Open Scope didux_scope.

Abbreviation nibble := nat.

Definition hasTerm (s : list nibble) : bool := bool_decide (last s = Some 16%nat).

Definition keybytesToHex (str : bytes) : list nibble :=
  flat_map (λ b, [Z.to_nat (byte_Z b / 16); Z.to_nat (byte_Z b mod 16)]) str ++ [16%nat].

(** [nibbles[ni]<<4 | nibbles[ni+1]], on bytes ([None]: an odd number). *)
Fixpoint decodeNibbles (nibbles : list nibble) : option bytes :=
  match nibbles with
  | [] => Some []
  | a :: b :: tl =>
      match decodeNibbles tl with
      | Some l => Some (Z_byte (Z.lor (Z.shiftl (Z.of_nat a) 4) (Z.of_nat b)) :: l)
      | None => None
      end
  | _ => None
  end.

(** [None]: the panic on a key of odd length. *)
Definition hexToKeybytes (hex : list nibble) : option bytes :=
  let hex := if hasTerm hex then removelast hex else hex in
  if Nat.odd (length hex) then None else decodeNibbles hex.

Definition hexToCompact (hex : list nibble) : option bytes :=
  let terminator := if hasTerm hex then 1 else 0 in
  let hex := if hasTerm hex then removelast hex else hex in
  let flag := Z.shiftl terminator 5 in
  match (if Nat.odd (length hex) then hex else []) with
  | x :: _ =>
      match decodeNibbles (tail hex) with
      | Some l => Some (Z_byte (Z.lor (Z.lor flag (Z.shiftl 1 4)) (Z.of_nat x)) :: l)
      | None => None
      end
  | [] =>
      match decodeNibbles hex with Some l => Some (Z_byte flag :: l) | None => None end
  end.

Definition compactToHex (compact : bytes) : list nibble :=
  match compact with
  | [] => []
  | _ =>
      let base := keybytesToHex compact in
      let b0 := hd 0%nat base in
      let base := if (b0 <? 2)%nat then removelast base else base in
      drop (2 - Nat.land b0 1) base
  end.

Fixpoint prefixLen (a b : list nibble) : nat :=
  match a, b with
  | x :: a, y :: b => if (x =? y)%nat then S (prefixLen a b) else 0%nat
  | _, _ => 0%nat
  end.

Lemma list_pair_ind {A} (P : list A → Prop) :
  P [] → (∀ a, P [a]) → (∀ a b l, P l → P (a :: b :: l)) → ∀ l, P l.
Proof.
  intros H0 H1 H2. fix IH 1. intros [|a [|b l]]; [exact H0|apply H1|apply H2, IH].
Qed.

(** ** Keys *)

Definition nibbles (l : list nibble) : Prop := Forall (λ x, (x < 16)%nat) l.
(** The hex form of a key: nibbles and the terminator. *)
Definition hexkey (k : list nibble) : Prop := ∃ l, nibbles l ∧ k = l ++ [16%nat].

Lemma nib_byte b :
  Z_byte (Z.lor (Z.shiftl (Z.of_nat (Z.to_nat (byte_Z b / 16))) 4) (Z.of_nat (Z.to_nat (byte_Z b mod 16)))) = b.
Proof. by destruct b. Qed.
Lemma byte_nib a b : (a < 16)%nat → (b < 16)%nat →
  let x := Z_byte (Z.lor (Z.shiftl (Z.of_nat a) 4) (Z.of_nat b)) in
  Z.to_nat (byte_Z x / 16) = a ∧ Z.to_nat (byte_Z x mod 16) = b.
Proof.
  intros Ha Hb. do 16 (destruct a as [|a]; [do 16 (destruct b as [|b]; [by split|]); lia|]). lia.
Qed.

Lemma keybytes_nibbles str :
  nibbles (flat_map (λ b, [Z.to_nat (byte_Z b / 16); Z.to_nat (byte_Z b mod 16)]) str).
Proof.
  induction str as [|b str IH]; [constructor|]. pose proof (byte_Z_range b). simpl. unfold nibbles in *.
  apply Forall_cons; split; [|apply Forall_cons; split; [|exact IH]].
  - assert (byte_Z b / 16 < 16) by (apply Z.div_lt_upper_bound; lia). lia.
  - pose proof (Z.mod_pos_bound (byte_Z b) 16). lia.
Qed.
Lemma keybytesToHex_hexkey str : hexkey (keybytesToHex str).
Proof. eexists. split; [apply keybytes_nibbles|done]. Qed.

Lemma decode_keybytes str :
  decodeNibbles (flat_map (λ b, [Z.to_nat (byte_Z b / 16); Z.to_nat (byte_Z b mod 16)]) str) = Some str.
Proof. induction str as [|b str IH]; [done|]. cbn [flat_map app decodeNibbles]. by rewrite IH, nib_byte. Qed.
Lemma encode_decode l bs : nibbles l → decodeNibbles l = Some bs →
  flat_map (λ b, [Z.to_nat (byte_Z b / 16); Z.to_nat (byte_Z b mod 16)]) bs = l.
Proof.
  revert bs. induction l as [|a|a b l IH] using list_pair_ind; intros bs Hl Hd; simpl in Hd; simplify_eq; [done|].
  destruct (decodeNibbles l) as [l'|] eqn:Hl'; simplify_eq. apply Forall_cons in Hl as [Ha [Hb Hl]%Forall_cons].
  cbn [flat_map app]. destruct (byte_nib a b Ha Hb) as [-> ->]. by rewrite (IH l').
Qed.

(** ** Round trips *)

Lemma hasTerm_snoc l : hasTerm (l ++ [16%nat]) = true.
Proof. unfold hasTerm. rewrite last_snoc. done. Qed.
Lemma hasTerm_nibbles l : nibbles l → hasTerm l = false.
Proof.
  intros Hl. apply bool_decide_eq_false_2. intros Hlast. apply last_Some in Hlast as [l' ->].
  apply Forall_app in Hl as [_ Hx]. apply Forall_inv in Hx. lia.
Qed.
Lemma decodeNibbles_even l : Nat.even (length l) = true → is_Some (decodeNibbles l).
Proof.
  induction l as [|a|a b l IH] using list_pair_ind; intros He; [by eexists|done|].
  destruct (IH He) as [x Hx]. simpl. rewrite Hx. by eexists.
Qed.

Lemma hexToKeybytes_keybytesToHex str : hexToKeybytes (keybytesToHex str) = Some str.
Proof.
  unfold hexToKeybytes, keybytesToHex. rewrite hasTerm_snoc, removelast_last, decode_keybytes.
  destruct (Nat.odd _) eqn:Hodd; [|done]. exfalso. rewrite <- Nat.negb_even in Hodd.
  apply negb_true_iff, not_true_iff_false in Hodd. apply Hodd. clear Hodd.
  by induction str.
Qed.
Lemma keybytesToHex_inj a b : keybytesToHex a = keybytesToHex b → a = b.
Proof.
  intros H. apply (f_equal hexToKeybytes) in H. rewrite !hexToKeybytes_keybytesToHex in H. by simplify_eq.
Qed.

(** The keys of nodes: nibbles, with or without the terminator. *)
Definition nodekey (k : list nibble) : Prop := nibbles k ∨ hexkey k.

Lemma flag_nibbles t o x : t = 0 ∨ t = 1 → o = 0 ∨ o = 1 → (x < 16)%nat →
  let b := Z_byte (Z.lor (Z.lor (Z.shiftl t 5) (Z.shiftl o 4)) (Z.of_nat x)) in
  Z.to_nat (byte_Z b / 16) = Z.to_nat (2 * t + o) ∧ Z.to_nat (byte_Z b mod 16) = x.
Proof.
  intros [-> | ->] [-> | ->] Hx; do 16 (destruct x as [|x]; [by split|]); lia.
Qed.

Lemma compact_body t l : t = 0 ∨ t = 1 → nibbles l →
  ∃ c, (match (if Nat.odd (length l) then l else []) with
        | x :: _ =>
            match decodeNibbles (tail l) with
            | Some bs => Some (Z_byte (Z.lor (Z.lor (Z.shiftl t 5) (Z.shiftl 1 4)) (Z.of_nat x)) :: bs)
            | None => None
            end
        | [] => match decodeNibbles l with Some bs => Some (Z_byte (Z.shiftl t 5) :: bs) | None => None end
        end) = Some c
    ∧ compactToHex c = l ++ (if t =? 0 then [] else [16%nat]).
Proof.
  intros Ht Hl. destruct (Nat.odd (length l)) eqn:Hodd.
  - destruct l as [|x l]; [done|]. cbn [tail]. apply Forall_cons in Hl as [Hx Hl].
    destruct (decodeNibbles_even l) as [bs Hbs]; [by rewrite <- Nat.odd_succ|].
    rewrite Hbs. eexists. split; [done|]. unfold compactToHex, keybytesToHex. cbn [flat_map app].
    destruct (flag_nibbles t 1 x Ht (or_intror eq_refl) Hx) as [-> ->].
    rewrite (encode_decode l bs Hl Hbs), !app_comm_cons.
    by destruct Ht as [-> | ->]; cbn -[removelast app]; rewrite ?removelast_last, ?app_nil_r.
  - destruct (decodeNibbles_even l) as [bs Hbs]; [by rewrite <- Nat.negb_odd, Hodd|].
    rewrite Hbs. eexists. split; [done|]. unfold compactToHex, keybytesToHex. cbn [flat_map app].
    destruct (flag_nibbles t 0 0 Ht (or_introl eq_refl) ltac:(lia)) as [H1 H2].
    rewrite Z.lor_0_r, Z.lor_0_r in H1, H2. rewrite H1, H2, (encode_decode l bs Hl Hbs), !app_comm_cons.
    by destruct Ht as [-> | ->]; cbn -[removelast app]; rewrite ?removelast_last, ?app_nil_r.
Qed.

(** Writing a node key in the compact form and reading it back gives the key,
    terminator included. *)
Theorem compact_roundtrip k : nodekey k → ∃ c, hexToCompact k = Some c ∧ compactToHex c = k.
Proof.
  unfold hexToCompact. intros [Hk | (l & Hl & ->)].
  - rewrite (hasTerm_nibbles k Hk). destruct (compact_body 0 k) as (c & Hc & Hr); [by left|done|].
    rewrite app_nil_r in Hr. by exists c.
  - rewrite hasTerm_snoc, removelast_last. by apply (compact_body 1 l); [right|].
Qed.

Open Scope nat_scope.

(** ** trie/node.go *)

Record nodeFlag := MkFlag { fl_hash : option bytes; fl_dirty : bool }.

Inductive node :=
  | Nil
  | fullNode (Children : list node) (flags : nodeFlag)
  | shortNode (Key : list nibble) (Val : node) (flags : nodeFlag)
  | hashNode (h : bytes)
  | valueNode (v : bytes).

#[export] Instance nodeFlag_eq_dec : EqDecision nodeFlag.
Proof. solve_decision. Defined.

(** [common.BytesToHash]: the last 32 bytes, padded on the left. *)
Definition BytesToHash (b : bytes) : bytes :=
  let b := drop (length b - 32) b in replicate (32 - length b) x00 ++ b.

(** trie/errors.go. *)
Record MissingNodeError := MkMissing { NodeHash : bytes; Path : list nibble }.

Definition is_nil (n : node) : bool := match n with Nil => true | _ => false end.

(** [t.newFlag()]. *)
Definition newFlag : nodeFlag := MkFlag None true.
Definition concat (s1 s2 : list nibble) : list nibble := s1 ++ s2.

Section Trie.
(** [Database.node]: the node stored under a hash. *)
Context (db_node : bytes → option node).

Definition resolveHash (h : bytes) (prefix : list nibble) : node + MissingNodeError :=
  let hash := BytesToHash h in
  match db_node hash with Some n => inl n | None => inr (MkMissing hash prefix) end.

Definition resolve (n : node) (prefix : list nibble) : node + MissingNodeError :=
  match n with hashNode h => resolveHash h prefix | _ => inl n end.

(** ** Reading *)

Fixpoint tryGet (fuel : nat) (origNode : node) (key : list nibble) (pos : nat)
  : option (option bytes * node * bool * option MissingNodeError) :=
  match fuel with
  | 0 => None
  | S fuel =>
      match origNode with
      | Nil => Some (None, Nil, false, None)
      | valueNode v => Some (Some v, origNode, false, None)
      | shortNode k v fl =>
          if (length key - pos <? length k) || negb (bool_decide (k = take (length k) (drop pos key)))
          then Some (None, origNode, false, None)
          else
            match tryGet fuel v key (pos + length k) with
            | None => None
            | Some (value, newnode, didResolve, None) =>
                Some (value, if didResolve then shortNode k newnode fl else origNode, didResolve, None)
            | Some (value, newnode, didResolve, err) => Some (value, origNode, didResolve, err)
            end
      | fullNode cs fl =>
          match key !! pos with
          | None => None
          | Some i =>
              match cs !! i with
              | None => None
              | Some c =>
                  match tryGet fuel c key (pos + 1) with
                  | None => None
                  | Some (value, newnode, didResolve, None) =>
                      Some (value, if didResolve then fullNode (<[i := newnode]> cs) fl else origNode,
                            didResolve, None)
                  | Some (value, newnode, didResolve, err) => Some (value, origNode, didResolve, err)
                  end
              end
          end
      | hashNode h =>
          match resolveHash h (take pos key) with
          | inr e => Some (None, origNode, true, Some e)
          | inl child =>
              match tryGet fuel child key pos with
              | None => None
              | Some (value, newnode, _, err) => Some (value, newnode, true, err)
              end
          end
      end
  end.

(** ** Writing *)

(** [&fullNode{flags: t.newFlag()}]. *)
Definition emptyBranch : list node := replicate 17 Nil.

(** [n.Children[i] = c] on the array of 17 ([None]: out of range). *)
Definition setChild (cs : list node) (i : nibble) (c : node) : option (list node) :=
  if i <? length cs then Some (<[i := c]> cs) else None.

Fixpoint insert (fuel : nat) (n : node) (prefix key : list nibble) (value : node)
  : option (bool * node * option MissingNodeError) :=
  match fuel with
  | 0 => None
  | S fuel =>
      match key with
      | [] =>
          match n, value with
          | valueNode v, valueNode v' => Some (negb (bool_decide (v = v')), value, None)
          | valueNode _, _ => None
          | _, _ => Some (true, value, None)
          end
      | k0 :: ktl =>
          match n with
          | shortNode nk nv fl =>
              let matchlen := prefixLen key nk in
              if matchlen =? length nk then
                match insert fuel nv (prefix ++ take matchlen key) (drop matchlen key) value with
                | None => None
                | Some (true, nn, None) => Some (true, shortNode nk nn newFlag, None)
                | Some (_, _, err) => Some (false, n, err)
                end
              else
                match nk !! matchlen with
                | None => None
                | Some i =>
                    match insert fuel Nil (prefix ++ take (matchlen + 1) nk) (drop (matchlen + 1) nk) nv with
                    | None => None
                    | Some (_, _, Some e) => Some (false, Nil, Some e)
                    | Some (_, c1, None) =>
                        match setChild emptyBranch i c1, key !! matchlen with
                        | Some cs, Some j =>
                            match insert fuel Nil (prefix ++ take (matchlen + 1) key)
                                    (drop (matchlen + 1) key) value with
                            | None => None
                            | Some (_, _, Some e) => Some (false, Nil, Some e)
                            | Some (_, c2, None) =>
                                match setChild cs j c2 with
                                | None => None
                                | Some cs =>
                                    let branch := fullNode cs newFlag in
                                    if matchlen =? 0 then Some (true, branch, None)
                                    else Some (true, shortNode (take matchlen key) branch newFlag, None)
                                end
                            end
                        | _, _ => None
                        end
                    end
                end
          | fullNode cs fl =>
              match cs !! k0 with
              | None => None
              | Some c =>
                  match insert fuel c (prefix ++ [k0]) ktl value with
                  | None => None
                  | Some (true, nn, None) => Some (true, fullNode (<[k0 := nn]> cs) newFlag, None)
                  | Some (_, _, err) => Some (false, n, err)
                  end
              end
          | Nil => Some (true, shortNode key value newFlag, None)
          | hashNode h =>
              match resolveHash h prefix with
              | inr e => Some (false, Nil, Some e)
              | inl rn =>
                  match insert fuel rn prefix key value with
                  | None => None
                  | Some (true, nn, None) => Some (true, nn, None)
                  | Some (_, _, err) => Some (false, rn, err)
                  end
              end
          | valueNode _ => None
          end
      end
  end.

(** The loop of [delete] over the children: [-1] for none, [-2] for two or
    more, else the index of the only one. *)
Fixpoint child_pos (i : nat) (cs : list node) (pos : Z) : Z :=
  match cs with
  | [] => pos
  | c :: cs =>
      if is_nil c then child_pos (S i) cs pos
      else if (pos =? -1)%Z then child_pos (S i) cs (Z.of_nat i)
      else (-2)%Z
  end.

(** The end of the [fullNode] case of [delete]: [cs] are the new children. *)
Definition reduce (cs : list node) (prefix : list nibble) : option (bool * node * option MissingNodeError) :=
  let pos := child_pos 0 cs (-1) in
  if (0 <=? pos)%Z then
    let pos := Z.to_nat pos in
    match cs !! pos with
    | None => None
    | Some c =>
        if pos =? 16 then Some (true, shortNode [pos] c newFlag, None)
        else
          match resolve c prefix with
          | inr e => Some (false, Nil, Some e)
          | inl (shortNode k v _) => Some (true, shortNode (pos :: k) v newFlag, None)
          | inl _ => Some (true, shortNode [pos] c newFlag, None)
          end
    end
  else Some (true, fullNode cs newFlag, None).

Fixpoint delete (fuel : nat) (n : node) (prefix key : list nibble)
  : option (bool * node * option MissingNodeError) :=
  match fuel with
  | 0 => None
  | S fuel =>
      match n with
      | shortNode nk nv fl =>
          let matchlen := prefixLen key nk in
          if matchlen <? length nk then Some (false, n, None)
          else if matchlen =? length key then Some (true, Nil, None)
          else
            match delete fuel nv (prefix ++ take (length nk) key) (drop (length nk) key) with
            | None => None
            | Some (true, shortNode ck cv _, None) => Some (true, shortNode (concat nk ck) cv newFlag, None)
            | Some (true, child, None) => Some (true, shortNode nk child newFlag, None)
            | Some (_, _, err) => Some (false, n, err)
            end
      | fullNode cs fl =>
          match key with
          | [] => None
          | k0 :: ktl =>
              match cs !! k0 with
              | None => None
              | Some c =>
                  match delete fuel c (prefix ++ [k0]) ktl with
                  | None => None
                  | Some (true, nn, None) => reduce (<[k0 := nn]> cs) prefix
                  | Some (_, _, err) => Some (false, n, err)
                  end
              end
          end
      | valueNode _ => Some (true, Nil, None)
      | Nil => Some (false, Nil, None)
      | hashNode h =>
          match resolveHash h prefix with
          | inr e => Some (false, Nil, Some e)
          | inl rn =>
              match delete fuel rn prefix key with
              | None => None
              | Some (true, nn, None) => Some (true, nn, None)
              | Some (_, _, err) => Some (false, rn, err)
              end
          end
      end
  end.

(** ** The trie object: its root *)

(** Each nibble costs a step, and each node on the way may have to be loaded. *)
Definition fuel_for (key : list nibble) : nat := 2 * length key + 3.

Definition TryGet (root : node) (key : bytes) : option ((option bytes + MissingNodeError) * node) :=
  let key := keybytesToHex key in
  match tryGet (fuel_for key) root key 0 with
  | None => None
  | Some (value, newroot, didResolve, None) => Some (inl value, if didResolve then newroot else root)
  | Some (_, _, _, Some e) => Some (inr e, root)
  end.

Definition TryDelete (root : node) (key : bytes) : option (option MissingNodeError * node) :=
  let k := keybytesToHex key in
  match delete (fuel_for k) root [] k with
  | None => None
  | Some (_, n, None) => Some (None, n)
  | Some (_, _, Some e) => Some (Some e, root)
  end.

Definition TryUpdate (root : node) (key value : bytes) : option (option MissingNodeError * node) :=
  let k := keybytesToHex key in
  match value with
  | _ :: _ =>
      match insert (fuel_for k) root [] k (valueNode value) with
      | None => None
      | Some (_, n, None) => Some (None, n)
      | Some (_, _, Some e) => Some (Some e, root)
      end
  | [] => TryDelete root key
  end.
End Trie.
