(* ===== verification/TriePure.v ===== *)
(** * Tries as values, and their canonical form

    A [ptrie] is a trie with every node loaded.  [plookup] is the map it
    stands for, on hex keys; [canon] is the form the operations of
    trie/trie.go keep: a leaf holds a nonempty value, an extension leads to
    a full node, a full node has at least two children.  A canonical trie is
    determined by its contents. *)

From Stdlib Require Import ZArith Lia.
From S2P Require Import Prelude Errors Rlp Trie.
Open Scope didux_scope.
Open Scope nat_scope.

Inductive ptrie :=
  | PNil
  | PVal (v : bytes)
  | PShort (k : list nibble) (t : ptrie)
  | PFull (ts : list ptrie).

Definition strip (k key : list nibble) : option (list nibble) :=
  if bool_decide (take (length k) key = k) then Some (drop (length k) key) else None.

Fixpoint plookup (t : ptrie) (key : list nibble) {struct t} : option bytes :=
  match t with
  | PNil => None
  | PVal v => match key with [] => Some v | _ => None end
  | PShort k t => match strip k key with Some key => plookup t key | None => None end
  | PFull ts =>
      match key with
      | [] => None
      | i :: key =>
          (fix child (ts : list ptrie) (i : nat) {struct ts} : option bytes :=
             match ts with
             | [] => None
             | t :: ts => match i with 0 => plookup t key | S i => child ts i end
             end) ts i
      end
  end.

Lemma plookup_full ts i key :
  plookup (PFull ts) (i :: key) = match ts !! i with Some t => plookup t key | None => None end.
Proof. cbn. revert i. induction ts as [|t ts IH]; intros [|i]; cbn; [done..|apply IH]. Qed.
Lemma plookup_short k t key : plookup (PShort k t) (k ++ key) = plookup t key.
Proof.
  cbn. unfold strip. rewrite take_app_length, drop_app_length. by rewrite bool_decide_eq_true_2.
Qed.

Lemma strip_Some k key r : strip k key = Some r ↔ key = k ++ r.
Proof.
  unfold strip. split.
  - case_bool_decide as H; intros; simplify_eq. by rewrite <- H at 1; rewrite take_drop.
  - intros ->. by rewrite take_app_length, drop_app_length, bool_decide_eq_true_2.
Qed.
Lemma plookup_short_Some k t key v :
  plookup (PShort k t) key = Some v ↔ ∃ r, key = k ++ r ∧ plookup t r = Some v.
Proof.
  cbn. destruct (strip k key) as [r|] eqn:Hs.
  - apply strip_Some in Hs as ->. split; [eauto|]. by intros (r' & <-%(inj _) & ?).
  - split; [done|]. intros (r & Hr%strip_Some & _). congruence.
Qed.

(** ** The canonical form *)

Inductive canon : ptrie → Prop :=
  | canon_leaf k v : hexkey k → v ≠ [] → canon (PShort k (PVal v))
  | canon_ext k ts : k ≠ [] → nibbles k → canon (PFull ts) → canon (PShort k (PFull ts))
  | canon_full ts :
      length ts = 17 →
      (∀ i t, i < 16 → ts !! i = Some t → t ≠ PNil → canon t) →
      (∀ t, ts !! 16 = Some t → t ≠ PNil → ∃ v, v ≠ [] ∧ t = PVal v) →
      (∃ i j ti tj, i ≠ j ∧ ts !! i = Some ti ∧ ts !! j = Some tj ∧ ti ≠ PNil ∧ tj ≠ PNil) →
      canon (PFull ts).

Definition canon0 (t : ptrie) : Prop := t = PNil ∨ canon t.

(** What may stand at child [i] of a full node, and the keys that reach it. *)
Definition slot (i : nibble) (t : ptrie) : Prop :=
  t ≠ PNil → if i =? 16 then ∃ v, v ≠ [] ∧ t = PVal v else canon t.
Definition skey (i : nibble) (key : list nibble) : Prop :=
  i ≤ 16 ∧ if i =? 16 then key = [] else hexkey key.

Lemma hexkey_cons i key : hexkey (i :: key) ↔ skey i key.
Proof.
  unfold skey. split.
  - intros (l & Hl & Heq). destruct l as [|x l]; simplify_eq/=; [done|].
    apply Forall_cons in Hl as [Hx Hl]. destruct (Nat.eqb_spec x 16); [lia|]. split; [lia|]. by exists l.
  - destruct (Nat.eqb_spec i 16) as [->|Hi].
    + intros [_ ->]. exists []. by split; [constructor|].
    + intros [Hle (l & Hl & ->)]. exists (i :: l). split; [constructor; [lia|done]|done].
Qed.
Lemma hexkey_nil : ¬ hexkey [].
Proof. intros (l & _ & Heq). by destruct l. Qed.
Lemma hexkey_app k key : nibbles k → hexkey (k ++ key) ↔ hexkey key.
Proof.
  induction 1 as [|x k Hx _ IH]; [done|]. rewrite <- app_comm_cons, hexkey_cons, <- IH. unfold skey.
  destruct (Nat.eqb_spec x 16); [lia|]. intuition lia.
Qed.
(** No key is a proper prefix of another. *)
Lemma hexkey_prefix k r : hexkey k → hexkey (k ++ r) → r = [].
Proof.
  intros (l & Hl & ->). rewrite <- app_assoc, hexkey_app by done. cbn. by intros [_ Hr]%hexkey_cons.
Qed.

Lemma canon_full_slot ts : canon (PFull ts) ↔
  length ts = 17 ∧ (∀ i t, ts !! i = Some t → slot i t) ∧
  (∃ i j ti tj, i ≠ j ∧ ts !! i = Some ti ∧ ts !! j = Some tj ∧ ti ≠ PNil ∧ tj ≠ PNil).
Proof.
  split.
  - inversion 1 as [| |ts' Hlen Hc H16 H2]; subst ts'. split; [exact Hlen|]. split; [|exact H2].
    intros i t Ht Hn. pose proof (lookup_lt_Some _ _ _ Ht).
    destruct (Nat.eqb_spec i 16) as [->|]; [exact (H16 t Ht Hn)|]. apply (Hc i t); [lia|done..].
  - intros (Hlen & Hs & H2). constructor; [done| | |done].
    + intros i t Hi Ht Hn. specialize (Hs i t Ht Hn). destruct (Nat.eqb_spec i 16); [lia|done].
    + intros t Ht Hn. exact (Hs 16 t Ht Hn).
Qed.

(** Every key found is a hex key, every value nonempty. *)
Lemma canon_lookup t key v : canon t → plookup t key = Some v → hexkey key ∧ v ≠ [].
Proof.
  intros Hc. revert key v. induction Hc as [k v Hk Hv|k ts Hne Hk _ IH|ts Hlen _ IH H16 _]; intros key w Hl.
  - apply plookup_short_Some in Hl as (r & -> & Hr). destruct r; simplify_eq/=. by rewrite app_nil_r.
  - apply plookup_short_Some in Hl as (r & -> & Hr). rewrite hexkey_app by done. eauto.
  - destruct key as [|i key]; [done|]. rewrite plookup_full in Hl. destruct (ts !! i) as [t|] eqn:Ht; [|done].
    rewrite hexkey_cons. unfold skey. pose proof (lookup_lt_Some _ _ _ Ht).
    assert (t ≠ PNil) by (by intros ->). destruct (Nat.eqb_spec i 16) as [->|].
    + destruct (H16 t Ht) as (v' & Hv' & ->); [done|]. by destruct key; simplify_eq/=.
    + destruct (IH i t ltac:(lia) Ht ltac:(done) key w Hl). split; [split; [lia|done]|done].
Qed.

(** A canonical trie is not empty. *)
Lemma canon_inhabited t : canon t → ∃ key v, plookup t key = Some v.
Proof.
  induction 1 as [k v Hk Hv|k ts Hne Hk _ (key & v & IH)|ts Hlen _ IH H16 (i & _ & ti & _ & _ & Hi & _ & Hn & _)].
  - exists (k ++ []), v. by rewrite plookup_short.
  - exists (k ++ key), v. by rewrite plookup_short.
  - pose proof (lookup_lt_Some _ _ _ Hi). destruct (decide (i = 16)) as [->|].
    + destruct (H16 ti Hi Hn) as (v & Hv & ->). exists [16], v. by rewrite plookup_full, Hi.
    + destruct (IH i ti ltac:(lia) Hi Hn) as (key & v & Hl). exists (i :: key), v. by rewrite plookup_full, Hi.
Qed.
Lemma slot_inhabited i t : slot i t → t ≠ PNil → ∃ key v, plookup t key = Some v.
Proof.
  intros Hs Hn. specialize (Hs Hn). destruct (i =? 16); [|by apply canon_inhabited].
  destruct Hs as (v & _ & ->). by exists [], v.
Qed.

(** A full node has two keys that differ in the first nibble. *)
Lemma full_two_keys ts : canon (PFull ts) → ∃ i j ki kj vi vj,
  i ≠ j ∧ plookup (PFull ts) (i :: ki) = Some vi ∧ plookup (PFull ts) (j :: kj) = Some vj.
Proof.
  intros (_ & Hs & i & j & ti & tj & Hij & Hi & Hj & Hni & Hnj)%canon_full_slot.
  destruct (slot_inhabited i ti (Hs _ _ Hi) Hni) as (ki & vi & Hki).
  destruct (slot_inhabited j tj (Hs _ _ Hj) Hnj) as (kj & vj & Hkj).
  exists i, j, ki, kj, vi, vj. by rewrite !plookup_full, Hi, Hj.
Qed.

(** ** Uniqueness *)

Definition same_map (t1 t2 : ptrie) : Prop := ∀ key, plookup t1 key = plookup t2 key.

Lemma app_split {A} (a b c d : list A) : a ++ b = c ++ d →
  (∃ x, c = a ++ x ∧ b = x ++ d) ∨ (∃ x, a = c ++ x ∧ d = x ++ b).
Proof.
  revert c. induction a as [|x a IH]; intros [|y c] Heq; cbn in Heq;
    [left; by exists []|left; by eexists|right; by eexists|]. injection Heq as -> Heq.
  destruct (IH c Heq) as [(z & -> & ->)|(z & -> & ->)]; [left|right]; by exists z.
Qed.

(** All keys of [t] begin with [k]. *)
Definition keys_under (k : list nibble) (t : ptrie) : Prop :=
  ∀ key v, plookup t key = Some v → ∃ r, key = k ++ r.

Lemma full_keys_under ts k k' : canon (PFull ts) → keys_under k' (PShort k (PFull ts)) → ∃ x, k = k' ++ x.
Proof.
  intros Hc Hu. destruct (full_two_keys ts Hc) as (i & j & ki & kj & vi & vj & Hij & Hi & Hj).
  destruct (Hu (k ++ i :: ki) vi) as [ri Hri]; [by rewrite plookup_short|].
  destruct (Hu (k ++ j :: kj) vj) as [rj Hrj]; [by rewrite plookup_short|].
  destruct (app_split _ _ _ _ Hri) as [(x & -> & Hx)|(x & -> & _)]; [|by exists x].
  rewrite <- app_assoc in Hrj. apply (inj (app k)) in Hrj. exists []. destruct x as [|y x]; simplify_eq/=.
  by rewrite !app_nil_r.
Qed.

Lemma same_map_sym t1 t2 : same_map t1 t2 → same_map t2 t1.
Proof. by intros H key. Qed.

Lemma same_map_under k k' t t' : same_map (PShort k t) (PShort k' t') → keys_under k' (PShort k t).
Proof.
  intros Hm key v Hl. rewrite Hm in Hl. apply plookup_short_Some in Hl as (r & -> & _). by exists r.
Qed.
Lemma same_map_short k t t' : same_map (PShort k t) (PShort k t') → same_map t t'.
Proof. intros Hm key. by rewrite <- (plookup_short k t), Hm, plookup_short. Qed.

Lemma app_cycle {A} (k k' x y : list A) : k = k' ++ x → k' = k ++ y → k = k'.
Proof.
  intros -> H. rewrite <- app_assoc in H. apply (f_equal length) in H. rewrite !length_app in H.
  assert (length x = 0) by lia. by destruct x; [rewrite app_nil_r|].
Qed.

(** A leaf has one key, so it is not the map of a full node or extension. *)
Lemma leaf_not_full k v k' ts : canon (PFull ts) → ¬ same_map (PShort k (PVal v)) (PShort k' (PFull ts)).
Proof.
  intros Hc Hm. destruct (full_two_keys ts Hc) as (i & j & ki & kj & vi & vj & Hij & Hi & Hj).
  assert (∀ i ki vi, plookup (PFull ts) (i :: ki) = Some vi → k = k' ++ i :: ki) as Hk.
  { intros n kn vn Hn. rewrite <- (plookup_short k'), <- Hm in Hn.
    apply plookup_short_Some in Hn as ([|] & -> & ?); [by rewrite app_nil_r|done]. }
  rewrite (Hk _ _ _ Hi) in Hk. specialize (Hk _ _ _ Hj). apply (inj (app k')) in Hk. congruence.
Qed.

Lemma short_nil ts key : plookup (PShort [] (PFull ts)) key = plookup (PFull ts) key.
Proof. exact (plookup_short [] (PFull ts) key). Qed.

Lemma slot_unique i t t' : slot i t → slot i t' →
  (t ≠ PNil → i ≠ 16 → ∀ t2, canon t2 → same_map t t2 → t = t2) → same_map t t' → t = t'.
Proof.
  intros Hs Hs' IH Hm.
  assert (∀ t, t = PNil ∨ t ≠ PNil) as Hnil by (intros []; [by left|by right..]).
  destruct (Hnil t) as [->|Hn], (Hnil t') as [->|Hn']; [done| | |].
  - destruct (slot_inhabited i t' Hs' Hn') as (key & v & Hl). by rewrite <- Hm in Hl.
  - destruct (slot_inhabited i t Hs Hn) as (key & v & Hl). by rewrite Hm in Hl.
  - specialize (Hs Hn). specialize (Hs' Hn'). destruct (Nat.eqb_spec i 16); [|by apply IH].
    destruct Hs as (v & _ & ->), Hs' as (v' & _ & ->). specialize (Hm []). by simplify_eq/=.
Qed.

(** Canonical tries with the same contents are equal: the shape of a trie
    does not depend on the order of the updates that built it. *)
Lemma canon_unique t1 t2 : canon t1 → canon t2 → same_map t1 t2 → t1 = t2.
Proof.
  intros Hc1. revert t2.
  induction Hc1 as [k v Hk Hv|k ts Hne Hk Hc IH|ts Hlen Hc IH H16 H2]; intros t2 Hc2 Hm.
  - destruct Hc2 as [k' v' Hk' Hv'|k' ts Hne Hk' Hc2|ts Hlen' Hcc H16' H2'].
    + assert (plookup (PShort k' (PVal v')) (k ++ []) = Some v) as Hl by (by rewrite <- Hm, plookup_short).
      apply plookup_short_Some in Hl as ([|] & Heq & ?); simplify_eq/=. by rewrite !app_nil_r in Heq; subst.
    + by destruct (leaf_not_full k v k' ts Hc2).
    + destruct (leaf_not_full k v [] ts); [by constructor|]. intros key. by rewrite short_nil.
  - assert (∀ ts', canon (PFull ts') → ∀ k', same_map (PShort k (PFull ts)) (PShort k' (PFull ts')) → k = k') as Hkk.
    { intros ts' Hc' k' Hm'. destruct (full_keys_under ts k k' Hc) as [x Hx]; [by eapply same_map_under|].
      destruct (full_keys_under ts' k' k Hc') as [y Hy]; [by eapply same_map_under, same_map_sym|].
      by eapply app_cycle. }
    destruct Hc2 as [k' v' Hk' Hv'|k' ts' Hne' Hk' Hc2|ts' Hlen' Hcc H16' H2'].
    + by destruct (leaf_not_full k' v' k ts Hc); apply same_map_sym.
    + specialize (Hkk ts' Hc2 k' Hm) as <-. f_equal. by apply IH, (same_map_short k).
    + destruct Hne. apply (Hkk ts'); [by constructor|]. intros key. by rewrite short_nil.
  - destruct Hc2 as [k' v' Hk' Hv'|k' ts' Hne' Hk' Hc2|ts' Hlen' Hcc H16' H2'].
    + destruct (leaf_not_full k' v' [] ts); [by constructor|]. intros key. by rewrite short_nil.
    + exfalso. assert (canon (PFull ts)) as Hcf by (by constructor).
      destruct (full_keys_under ts [] k' Hcf) as [x Hx]; [|by destruct k'].
      apply (same_map_under _ _ _ (PFull ts')). intros key. by rewrite short_nil.
    + f_equal. apply list_eq. intros i.
      destruct (decide (i < 17)) as [Hi|Hi]; [|by rewrite !lookup_ge_None_2 by lia].
      destruct (lookup_lt_is_Some_2 ts i) as [t Ht]; [lia|]. destruct (lookup_lt_is_Some_2 ts' i) as [t' Ht']; [lia|].
      assert (canon (PFull ts)) as (_ & Hs & _)%canon_full_slot by (by constructor).
      assert (canon (PFull ts')) as (_ & Hs' & _)%canon_full_slot by (by constructor).
      rewrite Ht, Ht'. f_equal. apply (slot_unique i); [by apply Hs|by apply Hs'| |].
      * intros Hn Hi16 t2. apply (IH i t); [lia|done..].
      * intros key. specialize (Hm (i :: key)). by rewrite !plookup_full, Ht, Ht' in Hm.
Qed.
