(* ===== verification/TrieLaws.v ===== *)
(** * The trie operations implement a finite map

    [expands] relates a partly loaded node to the trie it stands for, over
    the database.  On a canonical trie every operation returns (the fuel
    [2 * length key + 2] is enough), never meets a panic, keeps the
    canonical form, and reads or changes the map at its key only. *)

From Stdlib Require Import ZArith Lia.
From S2P Require Import Prelude Errors Rlp Trie TriePure.
Open Scope didux_scope.
Open Scope nat_scope.

Definition loaded (n : node) : Prop := match n with hashNode _ => False | _ => True end.
Definition inner (n : node) : Prop := match n with shortNode _ _ _ | fullNode _ _ => True | _ => False end.

Lemma prefixLen_split a b : ∃ p a' b', a = p ++ a' ∧ b = p ++ b' ∧ prefixLen a b = length p ∧
  match a', b' with x :: _, y :: _ => x ≠ y | _, _ => True end.
Proof.
  revert b. induction a as [|x a IH]; intros b; [by exists [], [], b|].
  destruct b as [|y b]; [by exists [], (x :: a), []|]. cbn. destruct (Nat.eqb_spec x y) as [->|Hxy].
  - destruct (IH b) as (p & a' & b' & -> & -> & -> & Hd). by exists (y :: p), a', b'.
  - by exists [], (x :: a), (y :: b).
Qed.

#[export] Instance ptrie_is_nil_dec t : Decision (t = PNil).
Proof. destruct t; [by left|by right..]. Defined.

(** [t'] is [t] with the value at [key] replaced by [ov]. *)
Definition upd (t t' : ptrie) (key : list nibble) (ov : option bytes) : Prop :=
  ∀ key' w, plookup t' key' = Some w ↔ key' = key ∧ ov = Some w ∨ key' ≠ key ∧ plookup t key' = Some w.

Lemma upd_lookup t t' key ov key' : upd t t' key ov →
  plookup t' key' = if decide (key' = key) then ov else plookup t key'.
Proof.
  intros Hu. apply option_eq. intros w. rewrite (Hu key' w). case_decide; naive_solver.
Qed.

(** Under a short key, and under a child of a full node. *)
Lemma upd_short k t t' key ov : upd t t' key ov → upd (PShort k t) (PShort k t') (k ++ key) ov.
Proof.
  intros Hu key' w. rewrite !plookup_short_Some. split.
  - intros (r & -> & [[-> Hw]|[Hne Hw]]%Hu); [by left|]. right. split; [by intros ?%(inj _)|eauto].
  - intros [[-> Hw]|[Hne (r & -> & Hw)]]; (eexists; split; [done|]); apply Hu; [by left|].
    right. split; [by intros ->|done].
Qed.
Lemma upd_full ts t t' i key ov : ts !! i = Some t → upd t t' key ov →
  upd (PFull ts) (PFull (<[i := t']> ts)) (i :: key) ov.
Proof.
  intros Hi Hu key' w. destruct key' as [|j key']; [cbn; naive_solver|]. rewrite !plookup_full.
  destruct (decide (j = i)) as [->|Hne].
  - rewrite list_lookup_insert_eq, Hi by (by eapply lookup_lt_Some). rewrite (Hu key' w). naive_solver.
  - rewrite list_lookup_insert_ne by done. naive_solver.
Qed.

(** ** Branching *)

Definition leafy (k : list nibble) (t : ptrie) : ptrie := match k with [] => t | _ => PShort k t end.
Lemma leafy_Some k t key v :
  plookup (leafy k t) key = Some v ↔ ∃ r, key = k ++ r ∧ plookup t r = Some v.
Proof. destruct k; cbn [leafy]; [|apply plookup_short_Some]. naive_solver. Qed.

Definition branch (i j : nibble) (a b : ptrie) : list ptrie := <[j := b]> (<[i := a]> (replicate 17 PNil)).

Lemma branch_length i j a b : length (branch i j a b) = 17.
Proof. unfold branch. by rewrite !length_insert. Qed.
Lemma branch_i i j a b : i ≤ 16 → i ≠ j → branch i j a b !! i = Some a.
Proof. intros. unfold branch. rewrite list_lookup_insert_ne, list_lookup_insert_eq by (rewrite ?length_replicate; lia). done. Qed.
Lemma branch_j i j a b : j ≤ 16 → branch i j a b !! j = Some b.
Proof. intros. unfold branch. rewrite list_lookup_insert_eq by (rewrite length_insert, length_replicate; lia). done. Qed.
Lemma branch_other i j a b x : x ≤ 16 → x ≠ i → x ≠ j → branch i j a b !! x = Some PNil.
Proof.
  intros. unfold branch. rewrite !list_lookup_insert_ne by done. apply lookup_replicate_2. lia.
Qed.
Lemma branch_Some i j a b key v : i ≤ 16 → j ≤ 16 → i ≠ j →
  plookup (PFull (branch i j a b)) key = Some v ↔
  ∃ r, key = i :: r ∧ plookup a r = Some v ∨ key = j :: r ∧ plookup b r = Some v.
Proof.
  intros Hi Hj Hij. destruct key as [|x key]; [cbn; naive_solver|]. rewrite plookup_full.
  destruct (decide (x = i)) as [->|Hxi]; [rewrite branch_i by done; naive_solver|].
  destruct (decide (x = j)) as [->|Hxj]; [rewrite branch_j by done; naive_solver|].
  split; [|naive_solver]. destruct (decide (x ≤ 16)); [by rewrite branch_other|].
  by rewrite lookup_ge_None_2 by (rewrite branch_length; lia).
Qed.

Lemma branch_canon i j a b : i ≤ 16 → j ≤ 16 → i ≠ j → a ≠ PNil → b ≠ PNil → slot i a → slot j b →
  canon (PFull (branch i j a b)).
Proof.
  intros Hi Hj Hij Ha Hb Hsa Hsb. apply canon_full_slot. split; [apply branch_length|]. split.
  - intros x t Ht. pose proof (lookup_lt_Some _ _ _ Ht) as Hx. rewrite branch_length in Hx.
    destruct (decide (x = i)) as [->|Hxi]; [by rewrite branch_i in Ht by done; simplify_eq|].
    destruct (decide (x = j)) as [->|Hxj]; [by rewrite branch_j in Ht by done; simplify_eq|].
    rewrite branch_other in Ht by (done || lia). injection Ht as <-. by intros [].
  - exists i, j, a, b. rewrite branch_i, branch_j by done. done.
Qed.

(** The branch replaces the short node. *)
Lemma branch_upd p i j k r t v : i ≤ 16 → j ≤ 16 → i ≠ j →
  upd (PShort (p ++ i :: k) t) (leafy p (PFull (branch i j (leafy k t) (leafy r (PVal v))))) (p ++ j :: r) (Some v).
Proof.
  intros Hi Hj Hij key w. rewrite leafy_Some, plookup_short_Some. split.
  - intros (q & -> & Hq). apply branch_Some in Hq as (s & [[-> Hs]|[-> Hs]]); [| |done..];
      apply leafy_Some in Hs as (u & -> & Hu).
    + right. split; [intros ?%(inj _); congruence|]. exists u. split; [|done]. by rewrite <- app_assoc.
    + left. destruct u; simplify_eq/=. by rewrite app_nil_r.
  - intros [[-> Hv]|[Hne (q & -> & Hq)]]; (eexists; split; [try done; by rewrite <- app_assoc|]); apply branch_Some; try done.
    + exists r. right. split; [done|]. apply leafy_Some. exists []. by rewrite app_nil_r.
    + exists (k ++ q). left. split; [done|]. apply leafy_Some. eauto.
Qed.

Lemma upd_leaf key v : upd PNil (PShort key (PVal v)) key (Some v).
Proof.
  intros key' w. rewrite plookup_short_Some. split.
  - intros ([|] & -> & ?); simplify_eq/=. left. by rewrite app_nil_r.
  - intros [[-> ?]|[_ ?]]; [|done]. exists []. by rewrite app_nil_r.
Qed.
Lemma upd_value t v : slot 16 t → upd t (PVal v) [] (Some v).
Proof.
  intros Hs key w. destruct key as [|x key]; [cbn; naive_solver|]. split; [done|].
  intros [[? _]|[_ Hl]]; [done|]. destruct (decide (t = PNil)) as [->|Hn]; [done|].
  destruct (Hs Hn) as (u & _ & ->). done.
Qed.

Lemma hexkey_middle p x l : hexkey (p ++ x :: l) → nibbles p ∧ skey x l.
Proof.
  induction p as [|y p IH]; cbn; rewrite hexkey_cons; [by split; [constructor|]|].
  intros [Hy Hk]. destruct (Nat.eqb_spec y 16) as [->|]; [by destruct p|]. destruct (IH Hk) as [Hp Hx].
  split; [constructor; [lia|done]|done].
Qed.
Lemma slot_leaf j r v : skey j r → v ≠ [] → slot j (leafy r (PVal v)).
Proof.
  intros [_ Hr] Hv _. destruct (j =? 16); [subst r; by exists v|].
  destruct r as [|x r]; [by apply hexkey_nil in Hr|by constructor].
Qed.
Lemma leafy_not_nil k t : t ≠ PNil → leafy k t ≠ PNil.
Proof. by destruct k. Qed.
Lemma canon_leafy p ts : nibbles p → canon (PFull ts) → canon (leafy p (PFull ts)).
Proof. intros Hp Hc. destruct p; [done|by constructor]. Qed.

Definition is_full (t : ptrie) : Prop := match t with PFull _ => True | _ => False end.
Lemma is_full_inv t : is_full t → ∃ ts, t = PFull ts.
Proof. destruct t; try done. eauto. Qed.
Lemma hexkey_not_nibbles k : hexkey k → ¬ nibbles k.
Proof. intros (l & _ & ->) [_ Hx]%Forall_app. apply Forall_inv in Hx. lia. Qed.
Lemma ex_short_branch k t key v (P : ptrie → Prop) t' :
  canon t' ∧ upd (PShort k t) t' key (Some v) ∧ P t' →
  ∃ t', canon t' ∧ upd (PShort k t) t' key (Some v) ∧ P t' ∧ (is_full (PShort k t) → is_full t').
Proof. naive_solver. Qed.
(** A full node stays canonical when a child is replaced by a nonempty one. *)
Lemma canon_set ts i t' : canon (PFull ts) → i ≤ 16 → t' ≠ PNil → slot i t' → canon (PFull (<[i := t']> ts)).
Proof.
  intros (Hlen & Hs & x & y & tx & ty & Hxy & Hx & Hy & Hnx & Hny)%canon_full_slot Hi Hn Hs'.
  apply canon_full_slot. rewrite length_insert. split; [done|]. split.
  - intros z t. rewrite list_lookup_insert. case_decide; [naive_solver|apply Hs].
  - assert (∃ z tz, z ≠ i ∧ ts !! z = Some tz ∧ tz ≠ PNil) as (z & tz & Hzi & Hz & Hnz).
    { destruct (decide (x = i)) as [->|]; [exists y, ty|exists x, tx]; done. }
    exists i, z, t', tz. rewrite list_lookup_insert_eq, list_lookup_insert_ne by lia. done.
Qed.

Lemma plookup_mismatch p i b a t : match a with [] => True | x :: _ => x ≠ i end →
  plookup (PShort (p ++ i :: b) t) (p ++ a) = None.
Proof.
  intros Hd. cbn. destruct (strip _ _) as [r|] eqn:Hst; [|done]. apply strip_Some in Hst.
  rewrite <- app_assoc in Hst. apply (inj (app p)) in Hst as ->. by destruct Hd.
Qed.
Lemma upd_absent t key : plookup t key = None → upd t t key None.
Proof. intros Hn key' w. destruct (decide (key' = key)) as [->|]; naive_solver congruence. Qed.

(** ** The only child *)

Lemma child_pos_set i cs pos : (pos ≠ -1)%Z →
  child_pos i cs pos = if forallb is_nil cs then pos else (-2)%Z.
Proof.
  intros Hp. revert i. induction cs as [|c cs IH]; intros i; [done|]. cbn. destruct (is_nil c); [apply IH|].
  destruct (Z.eqb_spec pos (-1)); [lia|done].
Qed.
Lemma child_pos_one i cs z c : cs !! z = Some c → is_nil c = false →
  (∀ w c', w ≠ z → cs !! w = Some c' → is_nil c' = true) → child_pos i cs (-1) = Z.of_nat (i + z).
Proof.
  revert i z. induction cs as [|c0 cs IH]; intros i z Hz Hc Ho; [done|]. destruct z as [|z]; cbn in *.
  - simplify_eq. rewrite Hc, child_pos_set by lia.
    assert (forallb is_nil cs = true) as ->; [|by rewrite Nat.add_0_r].
    apply forallb_forall. intros x [w Hw]%list_elem_of_In%list_elem_of_lookup. by apply (Ho (S w)).
  - rewrite (Ho 0 c0) by done. rewrite (IH (S i) z); [f_equal; lia|done..|]. intros w c' Hw. apply (Ho (S w)). lia.
Qed.
Lemma child_pos_many i cs x y a b : x < y → cs !! x = Some a → cs !! y = Some b →
  is_nil a = false → is_nil b = false → child_pos i cs (-1) = (-2)%Z.
Proof.
  revert i x y. induction cs as [|c0 cs IH]; intros i x y Hxy Hx Hy Ha Hb; [done|].
  destruct y as [|y]; [lia|]. destruct x as [|x]; cbn in *.
  - simplify_eq. rewrite Ha, child_pos_set by lia.
    destruct (forallb is_nil cs) eqn:Hall; [|done]. rewrite forallb_forall in Hall.
    rewrite (Hall b) in Hb; [done|]. by eapply list_elem_of_In, list_elem_of_lookup_2.
  - destruct (is_nil c0); [by apply (IH (S i) x y); [lia|..]|]. cbn. rewrite child_pos_set by lia.
    destruct (forallb is_nil cs) eqn:Hall; [|done]. rewrite forallb_forall in Hall.
    rewrite (Hall b) in Hb; [done|]. by eapply list_elem_of_In, list_elem_of_lookup_2.
Qed.

(** At least two children, or a single one. *)
Definition only (z : nat) (ts : list ptrie) : Prop := ∀ w t, w ≠ z → ts !! w = Some t → t = PNil.
#[local] Instance nil_at_dec (ts : list ptrie) (w : nat) : Decision (from_option (λ t, t = PNil) True (ts !! w)).
Proof. destruct (ts !! w); apply _. Defined.
Lemma only_or_two z tz ts : ts !! z = Some tz → tz ≠ PNil →
  only z ts ∨ ∃ x y a b, x < y ∧ ts !! x = Some a ∧ ts !! y = Some b ∧ a ≠ PNil ∧ b ≠ PNil.
Proof.
  intros Hz Hn. destruct (decide (Forall (λ w, w = z ∨ from_option (λ t, t = PNil) True (ts !! w)) (seq 0 (length ts)))) as [Ha|Hno].
  - left. intros w t Hw Ht. rewrite Forall_forall in Ha. pose proof (lookup_lt_Some _ _ _ Ht).
    destruct (Ha w) as [?|Hx]; [apply elem_of_seq; lia|done|]. by rewrite Ht in Hx.
  - right. apply not_Forall_Exists, Exists_exists in Hno as (w & _ & Hw); [|apply _].
    destruct (ts !! w) as [t|] eqn:Ht; unfold compose in Hw; rewrite Ht in Hw; cbn in Hw; [|by destruct Hw; right].
    assert (w ≠ z) by (intros ->; by destruct Hw; left). assert (t ≠ PNil) by (intros ->; by destruct Hw; right).
    destruct (decide (w < z)); [exists w, z, t, tz|exists z, w, tz, t]; (split; [lia|done]).
Qed.

(** A short key before a trie. *)
Definition merge (k : list nibble) (t : ptrie) : ptrie :=
  match t with PShort ck t => PShort (k ++ ck) t | _ => PShort k t end.
Lemma merge_Some k t key v : plookup (merge k t) key = Some v ↔ plookup (PShort k t) key = Some v.
Proof.
  destruct t; cbn [merge]; try done. rewrite !plookup_short_Some. split.
  - intros (r & -> & Hr). rewrite <- app_assoc. eexists. split; [done|]. by rewrite plookup_short.
  - intros (r & -> & (r' & -> & Hr)%plookup_short_Some). eexists. by rewrite <- app_assoc.
Qed.
Lemma upd_merge t k t' key ov : upd t (PShort k t') key ov → upd t (merge k t') key ov.
Proof. intros Hu key' w. rewrite merge_Some. apply Hu. Qed.
Lemma canon_merge k t : k ≠ [] → nibbles k → canon t → canon (merge k t).
Proof.
  intros Hne Hk Hc. destruct Hc as [k' v Hk' Hv|k' ts Hne' Hk' Hc|]; cbn [merge]; [| |by repeat constructor].
  - constructor; [|done]. by apply hexkey_app.
  - constructor; [by destruct k|by apply Forall_app|done].
Qed.

(** The trie of a full node with a single child. *)
Definition shrink (z : nat) (tz : ptrie) : ptrie := if z =? 16 then PShort [z] tz else merge [z] tz.
Lemma shrink_Some z tz ts key v : ts !! z = Some tz → only z ts →
  plookup (shrink z tz) key = Some v ↔ plookup (PFull ts) key = Some v.
Proof.
  intros Hz Ho. transitivity (plookup (PShort [z] tz) key = Some v).
  { unfold shrink. destruct (z =? 16); [done|apply merge_Some]. }
  rewrite plookup_short_Some. destruct key as [|x key]; [by split; [intros (? & ? & _)|]|].
  rewrite plookup_full. destruct (decide (x = z)) as [->|Hx]; [rewrite Hz; naive_solver|].
  split; [intros (? & ? & _); simplify_eq/=|]. destruct (ts !! x) as [t|] eqn:Ht; [|done].
  by rewrite (Ho x t Hx Ht).
Qed.
Lemma shrink_canon z tz : z ≤ 16 → slot z tz → tz ≠ PNil → canon (shrink z tz).
Proof.
  intros Hz Hs Hn. specialize (Hs Hn). unfold shrink. destruct (Nat.eqb_spec z 16) as [->|].
  - destruct Hs as (v & Hv & ->). constructor; [by exists []; split; [constructor|]|done].
  - apply canon_merge; [done|apply Forall_singleton; lia|done].
Qed.

Section Laws.
Context (db_node : bytes → option node).
(** What the cached hash of a node, and the hash of a node not loaded, say
    of the trie they stand for. *)
Context (ok_flag : nodeFlag → ptrie → Prop) (ok_hash : bytes → ptrie → Prop).
Hypothesis ok_new : ∀ t, ok_flag newFlag t.

Inductive expands : node → ptrie → Prop :=
  | ex_nil : expands Nil PNil
  | ex_val v : expands (valueNode v) (PVal v)
  | ex_short k n t fl : expands n t → ok_flag fl (PShort k t) → expands (shortNode k n fl) (PShort k t)
  | ex_full cs ts fl :
      length cs = length ts →
      (∀ i c t, cs !! i = Some c → ts !! i = Some t → expands c t) →
      ok_flag fl (PFull ts) → expands (fullNode cs fl) (PFull ts)
  | ex_hash h n t :
      db_node (BytesToHash h) = Some n → inner n → ok_hash h t → expands n t → expands (hashNode h) t.

Lemma expands_nil n : expands n PNil → n = Nil.
Proof.
  intros He. remember PNil as t eqn:Ht. induction He as [| | | |h n t _ Hin _ _ IH]; try done.
  by rewrite (IH Ht) in Hin.
Qed.
Lemma expands_val n v : expands n (PVal v) → n = valueNode v.
Proof.
  intros He. remember (PVal v) as t eqn:Ht. induction He as [| | | |h n t _ Hin _ _ IH]; try done; [by simplify_eq|].
  by rewrite (IH Ht) in Hin.
Qed.
Lemma expands_is_nil n t : expands n t → is_nil n = true ↔ t = PNil.
Proof.
  intros He. split; [|by intros ->; rewrite (expands_nil n)]. destruct n; try done. by inversion He.
Qed.

(** ** Inserting *)

Definition inserts (t : ptrie) (key : list nibble) (v : bytes) (t' : ptrie) : Prop :=
  ∀ n fuel prefix, expands n t → 2 * length key + 2 ≤ fuel →
    ∃ d n', insert db_node fuel n prefix key (valueNode v) = Some (d, n', None) ∧
      expands n' t' ∧ (d = false → t' = t).
Definition inserts_loaded (t : ptrie) (key : list nibble) (v : bytes) (t' : ptrie) : Prop :=
  ∀ n fuel prefix, loaded n → expands n t → 2 * length key < fuel →
    ∃ d n', insert db_node fuel n prefix key (valueNode v) = Some (d, n', None) ∧
      expands n' t' ∧ (d = false → t' = t).

Lemma inserts_lift t key v t' : key ≠ [] → inserts_loaded t key v t' → inserts t key v t'.
Proof.
  intros Hk Hl n fuel prefix He Hf. destruct n as [| | |h|]; try (apply Hl; [done|done|lia]).
  inversion He as [| | | |? n ? Hdb Hin _ He']; simplify_eq. destruct fuel as [|fuel]; [lia|].
  destruct key as [|k0 key]; [done|]. cbn [insert]. unfold resolveHash. rewrite Hdb.
  destruct (Hl n fuel prefix) as (d & n' & -> & Hn' & Hd); [by destruct n|done|lia|].
  destruct d; [by eexists _, _|]. eexists _, n. split; [done|]. by rewrite (Hd eq_refl).
Qed.

Definition nleaf (k : list nibble) (n : node) : node := match k with [] => n | _ => shortNode k n newFlag end.
Lemma nleaf_expands k n t : expands n t → expands (nleaf k n) (leafy k t).
Proof using ok_new. intros He. destruct k; [done|]. by constructor. Qed.
Lemma insert_nil fuel prefix key value : 0 < fuel →
  insert db_node fuel Nil prefix key value = Some (true, nleaf key value, None).
Proof. destruct fuel; [lia|]. by destruct key. Qed.

Definition nbranch (i j : nibble) (a b : node) : list node := <[j := b]> (<[i := a]> emptyBranch).
Lemma nbranch_expands i j a b ta tb :
  expands a ta → expands b tb → expands (fullNode (nbranch i j a b) newFlag) (PFull (branch i j ta tb)).
Proof using ok_new.
  intros Ha Hb. constructor; [|intros x c t|done].
  { unfold nbranch, branch. by rewrite !length_insert. }
  unfold nbranch, branch, emptyBranch. rewrite !list_lookup_insert, !length_insert, !length_replicate.
  intros Hc Ht. repeat case_decide; simplify_eq; try done; [].
  apply lookup_replicate in Hc as [-> _], Ht as [-> _]. constructor.
Qed.

(** The short node branches out. *)
Lemma insert_branch p i j k r n fl v fuel prefix : i ≤ 16 → j ≤ 16 → i ≠ j → 1 < fuel →
  insert db_node fuel (shortNode (p ++ i :: k) n fl) prefix (p ++ j :: r) (valueNode v) =
  Some (true, nleaf p (fullNode (nbranch i j (nleaf k n) (nleaf r (valueNode v))) newFlag), None).
Proof.
  intros Hi Hj Hij Hf. destruct fuel as [|fuel]; [lia|]. assert (0 < fuel) as Hf' by lia.
  assert (prefixLen (p ++ j :: r) (p ++ i :: k) = length p) as Hm.
  { induction p as [|x p IH]; cbn; [by destruct (Nat.eqb_spec j i); congruence|]. by rewrite Nat.eqb_refl, IH. }
  destruct (p ++ j :: r) as [|k0 ktl] eqn:Hkey; [by destruct p|]. cbn [insert]. rewrite <- Hkey in *. rewrite Hm.
  destruct (Nat.eqb_spec (length p) (length (p ++ i :: k))) as [Heq|_]; [rewrite length_app in Heq; cbn in Heq; lia|].
  rewrite !list_lookup_middle, !insert_nil by done. unfold setChild.
  destruct (Nat.ltb_spec i (length emptyBranch)) as [_|Hl]; [|cbn in Hl; lia].
  rewrite length_insert. destruct (Nat.ltb_spec j (length emptyBranch)) as [_|Hl]; [|cbn in Hl; lia].
  assert (∀ x l, drop (length p + 1) (p ++ x :: l) = l) as Hdrop
    by (intros; by rewrite drop_app_add').
  rewrite !Hdrop, take_app_length. by destruct p.
Qed.

Lemma expands_short n k t : loaded n → expands n (PShort k t) →
  ∃ nv fl, n = shortNode k nv fl ∧ expands nv t ∧ ok_flag fl (PShort k t).
Proof. intros Hl He. destruct n; try done; inversion He; simplify_eq; eauto. Qed.
Lemma expands_full n ts : loaded n → expands n (PFull ts) →
  ∃ cs fl, n = fullNode cs fl ∧ length cs = length ts ∧ ok_flag fl (PFull ts) ∧
    ∀ i c t, cs !! i = Some c → ts !! i = Some t → expands c t.
Proof. intros Hl He. destruct n; try done; inversion He; simplify_eq; eauto 8. Qed.
Lemma expands_insert cs ts i c t : length cs = length ts →
  (∀ i c t, cs !! i = Some c → ts !! i = Some t → expands c t) → expands c t →
  expands (fullNode (<[i := c]> cs) newFlag) (PFull (<[i := t]> ts)).
Proof using ok_new.
  intros Hlen Hcs He. constructor; [by rewrite !length_insert| |done].
  intros x c' t'. rewrite !list_lookup_insert, Hlen. case_decide; [naive_solver|apply Hcs].
Qed.

Lemma prefixLen_app p a b : prefixLen (p ++ a) (p ++ b) = length p + prefixLen a b.
Proof. induction p as [|x p IH]; [done|]. cbn. by rewrite Nat.eqb_refl, IH. Qed.
Lemma prefixLen_all p a : prefixLen (p ++ a) p = length p.
Proof. rewrite <- (app_nil_r p) at 2. rewrite prefixLen_app. destruct a; cbn; lia. Qed.

Lemma inserts_short k t t' rest v : k ≠ [] → inserts t rest v t' →
  inserts_loaded (PShort k t) (k ++ rest) v (PShort k t').
Proof using ok_new.
  intros Hk Hi n fuel prefix Hl He Hf. destruct (expands_short n k t Hl He) as (nv & fl & -> & Hnv & Hfl).
  destruct fuel as [|fuel]; [lia|]. destruct (k ++ rest) as [|k0 ktl] eqn:Hkey; [by destruct k|].
  cbn [insert]. rewrite <- Hkey in *. rewrite prefixLen_all, Nat.eqb_refl, drop_app_length.
  rewrite length_app in Hf. assert (length k ≠ 0) by (by destruct k).
  destruct (Hi nv fuel (prefix ++ take (length k) (k ++ rest)) Hnv) as (d & n' & -> & Hn' & Hd); [lia|].
  destruct d; eexists _, _; (split; [done|]); [by split; [constructor|]|].
  specialize (Hd eq_refl) as ->. split; [by constructor|done].
Qed.

Lemma inserts_full ts i t t' rest v : ts !! i = Some t → inserts t rest v t' →
  inserts_loaded (PFull ts) (i :: rest) v (PFull (<[i := t']> ts)).
Proof using ok_new.
  intros Ht Hi n fuel prefix Hl He Hf. destruct (expands_full n ts Hl He) as (cs & fl & -> & Hlen & Hfl & Hcs).
  destruct fuel as [|fuel]; [lia|]. cbn [insert]. cbn in Hf.
  destruct (lookup_lt_is_Some_2 cs i) as [c Hc]; [rewrite Hlen; by eapply lookup_lt_Some|]. rewrite Hc.
  destruct (Hi c fuel (prefix ++ [i]) (Hcs i c t Hc Ht)) as (d & n' & -> & Hn' & Hd); [lia|].
  destruct d; eexists _, _; (split; [done|]); [split; [by apply expands_insert|done]|].
  specialize (Hd eq_refl) as ->. rewrite list_insert_id by done. split; [by constructor|done].
Qed.

Lemma inserts_value t v : slot 16 t → inserts t [] v (PVal v).
Proof.
  intros Hs n fuel prefix He Hf. destruct fuel as [|fuel]; [cbn in Hf; lia|]. cbn [insert].
  destruct n as [| |k nv fl|h|w].
  - eexists _, _. split; [done|]. by split; [constructor|].
  - by inversion He; simplify_eq; destruct Hs as (? & _ & ?).
  - by inversion He; simplify_eq; destruct Hs as (? & _ & ?).
  - eexists _, _. split; [done|]. by split; [constructor|].
  - eexists _, _. split; [done|]. split; [by constructor|]. inversion He; simplify_eq.
    intros ->%negb_false_iff%bool_decide_eq_true. done.
Qed.

Lemma insert_branch_ok p i j k r t v : i ≤ 16 → i ≠ j → nibbles p → skey j r → v ≠ [] →
  t ≠ PNil → slot i (leafy k t) →
  let t' := leafy p (PFull (branch i j (leafy k t) (leafy r (PVal v)))) in
  canon t' ∧ upd (PShort (p ++ i :: k) t) t' (p ++ j :: r) (Some v) ∧
  inserts (PShort (p ++ i :: k) t) (p ++ j :: r) v t'.
Proof using ok_new.
  intros Hi Hij Hp Hr Hv Ht Hs t'. pose proof (proj1 Hr) as Hj. split; [|split].
  - apply canon_leafy; [done|]. apply branch_canon; try done; [by apply leafy_not_nil..|by apply slot_leaf].
  - by apply branch_upd.
  - apply inserts_lift; [by destruct p|]. intros n fuel prefix Hl He Hf.
    destruct (expands_short n _ _ Hl He) as (nv & fl & -> & Hnv & _).
    rewrite insert_branch; [|done..|rewrite length_app in Hf; cbn in Hf; lia].
    eexists _, _. split; [done|]. split; [|done].
    apply nleaf_expands, nbranch_expands; apply nleaf_expands; [done|constructor].
Qed.

Lemma insert_pnil key v : hexkey key → v ≠ [] →
  ∃ t', canon t' ∧ upd PNil t' key (Some v) ∧ inserts PNil key v t' ∧ (is_full PNil → is_full t').
Proof using ok_new.
  intros Hkey Hv. exists (PShort key (PVal v)). split; [by constructor|]. split; [apply upd_leaf|]. split; [|done].
  intros n fuel prefix He Hf. rewrite (expands_nil n He), insert_nil by lia. eexists _, _. split; [done|].
  split; [|done]. destruct key; [by apply hexkey_nil in Hkey|]. by repeat constructor.
Qed.
Lemma insert_slot i t key v : slot i t → skey i key → v ≠ [] →
  (t ≠ PNil → i ≠ 16 → hexkey key →
    ∃ t', canon t' ∧ upd t t' key (Some v) ∧ inserts t key v t' ∧ (is_full t → is_full t')) →
  ∃ t', t' ≠ PNil ∧ slot i t' ∧ upd t t' key (Some v) ∧ inserts t key v t'.
Proof using ok_new.
  intros Hs [Hi Hk] Hv IH. destruct (Nat.eqb_spec i 16) as [->|Hne].
  - subst key. exists (PVal v). split; [done|]. split; [by exists v|]. split; [by apply upd_value|by apply inserts_value].
  - assert (∃ t', canon t' ∧ upd t t' key (Some v) ∧ inserts t key v t' ∧ (is_full t → is_full t'))
      as (t' & Hc & Hu & Hins & _).
    { destruct (decide (t = PNil)) as [->|Hn]; [by apply insert_pnil|by apply IH]. }
    exists t'. split; [by destruct Hc|]. split; [|done]. intros _. by destruct (Nat.eqb_spec i 16).
Qed.

(** Insertion on every canonical trie. *)
Lemma insert_canon t key v : canon0 t → hexkey key → v ≠ [] →
  ∃ t', canon t' ∧ upd t t' key (Some v) ∧ inserts t key v t' ∧ (is_full t → is_full t').
Proof using ok_new.
  intros [->|Hc] Hkey Hv; [by apply insert_pnil|].
  revert key Hkey. induction Hc as [k w Hk Hw|k ts Hne Hk Hc IH|ts Hlen Hc IH H16 H2]; intros key Hkey;
    [destruct (prefixLen_split key k) as (p & a & b & -> & -> & _ & Hd)..|].
  - destruct a as [|j a], b as [|i b]; rewrite ?app_nil_r in *.
    2: by apply hexkey_prefix in Hk.
    2: by apply hexkey_prefix in Hkey.
    + exists (PShort p (PVal v)). split; [by constructor|].
      assert (slot 16 (PVal w)) by (by exists w). pose proof (upd_short p _ _ _ _ (upd_value (PVal w) v H)) as Hu.
      assert (p ≠ []) as Hp by (by intros ->; apply hexkey_nil in Hk).
      pose proof (inserts_short p _ _ _ _ Hp (inserts_value (PVal w) v H)) as Hi. rewrite app_nil_r in Hu, Hi.
      split; [done|]. split; [by apply inserts_lift|done].
    + destruct (hexkey_middle _ _ _ Hk) as [Hp Hi], (hexkey_middle _ _ _ Hkey) as [_ Hj].
      eapply ex_short_branch, insert_branch_ok; try done; [apply Hi|by apply slot_leaf].
  - destruct b as [|i b]; rewrite ?app_nil_r in *.
    + rewrite hexkey_app in Hkey by done. destruct (IH a Hkey) as (t' & Hc' & Hu & Hins & Hfull).
      destruct (is_full_inv t' (Hfull I)) as [ts' ->]. exists (PShort p (PFull ts')). split; [by constructor|].
      split; [by apply upd_short|]. split; [|done]. by apply inserts_lift, inserts_short; [destruct p| |].
    + apply Forall_app in Hk as [Hp [Hi Hb]%Forall_cons].
      destruct a as [|j a]; [rewrite app_nil_r in Hkey; by apply hexkey_not_nibbles in Hkey|].
      eapply ex_short_branch, insert_branch_ok; try done; [lia|apply (hexkey_middle _ _ _ Hkey)|].
      intros _. destruct (Nat.eqb_spec i 16); [lia|]. by apply canon_leafy.
  - destruct key as [|i key]; [by apply hexkey_nil in Hkey|]. apply hexkey_cons in Hkey as [Hi Hkey].
    destruct (lookup_lt_is_Some_2 ts i) as [t Ht]; [lia|].
    assert (canon (PFull ts)) as Hcf by (by constructor).
    pose proof (proj1 (canon_full_slot ts) Hcf) as (_ & Hs & _).
    destruct (insert_slot i t key v) as (t' & Hn' & Hs' & Hu & Hins); [by apply Hs|done|done| |].
    { intros Hn Hi16. apply (IH i t); [lia|done..]. }
    exists (PFull (<[i := t']> ts)). split; [|split; [by apply (upd_full ts t)|]].
    + by apply canon_set.
    + split; [|done]. by apply inserts_lift, (inserts_full ts i t).
Qed.

(** ** Reading *)

Definition gets (t : ptrie) (rest : list nibble) : Prop :=
  ∀ n pre fuel, expands n t → 2 * length rest + 2 ≤ fuel →
    ∃ nn d, tryGet db_node fuel n (pre ++ rest) (length pre) = Some (plookup t rest, nn, d, None) ∧ expands nn t.
Definition gets_loaded (t : ptrie) (rest : list nibble) : Prop :=
  ∀ n pre fuel, loaded n → expands n t → 2 * length rest < fuel →
    ∃ nn d, tryGet db_node fuel n (pre ++ rest) (length pre) = Some (plookup t rest, nn, d, None) ∧ expands nn t.

Lemma gets_lift t rest : gets_loaded t rest → gets t rest.
Proof.
  intros Hl n pre fuel He Hf. destruct n as [| | |h|]; try (apply Hl; [done|done|lia]).
  inversion He as [| | | |? n ? Hdb Hin _ He']; simplify_eq. destruct fuel as [|fuel]; [lia|].
  cbn [tryGet]. unfold resolveHash. rewrite Hdb.
  destruct (Hl n pre fuel) as (nn & d & -> & Hnn); [by destruct n|done|lia|]. eauto.
Qed.
Lemma gets_nil rest : gets PNil rest.
Proof.
  intros n pre fuel He Hf. rewrite (expands_nil n He). destruct fuel; [lia|]. exists Nil, false. by split; [|constructor].
Qed.
Lemma gets_value v : gets (PVal v) [].
Proof.
  intros n pre fuel He Hf. rewrite (expands_val n v He). destruct fuel; [cbn in Hf; lia|].
  eexists _, false. by split; [|constructor].
Qed.
Lemma gets_short k t rest : k ≠ [] → (∀ r, rest = k ++ r → gets t r) → gets_loaded (PShort k t) rest.
Proof.
  intros Hk Hg n pre fuel Hl He Hf. destruct (expands_short n k t Hl He) as (nv & fl & -> & Hnv & Hfl).
  destruct fuel as [|fuel]; [lia|]. cbn [tryGet plookup]. rewrite length_app, drop_app_length.
  unfold strip. replace (length pre + length rest - length pre) with (length rest) by lia.
  destruct (decide (take (length k) rest = k)) as [Heq|Hne].
  - destruct (Nat.ltb_spec (length rest) (length k)) as [Hlt|Hge];
      [apply (f_equal length) in Heq; rewrite length_take in Heq; lia|].
    rewrite !bool_decide_eq_true_2 by done. cbn [orb negb].
    assert (rest = k ++ drop (length k) rest) as Hr by (by rewrite <- Heq at 1; rewrite take_drop).
    destruct (Hg _ Hr nv (pre ++ k) fuel Hnv) as (nn & d & Hget & Hnn).
    { rewrite length_drop. assert (length k ≠ 0) by (by destruct k). lia. }
    rewrite <- app_assoc, <- Hr, length_app in Hget. rewrite Hget.
    eexists _, d. split; [done|]. by destruct d; [constructor|].
  - rewrite (bool_decide_eq_false_2 (k = _)) by congruence. rewrite bool_decide_eq_false_2 by done.
    rewrite orb_true_r. eexists _, false. split; [done|done].
Qed.
Lemma gets_full ts i t rest : ts !! i = Some t → gets t rest → gets_loaded (PFull ts) (i :: rest).
Proof.
  intros Ht Hg n pre fuel Hl He Hf. destruct (expands_full n ts Hl He) as (cs & fl & -> & Hlen & Hfl & Hcs).
  destruct fuel as [|fuel]; [lia|]. cbn in Hf. cbn [tryGet]. rewrite list_lookup_middle by done.
  destruct (lookup_lt_is_Some_2 cs i) as [c Hc]; [rewrite Hlen; by eapply lookup_lt_Some|]. rewrite Hc.
  destruct (Hg c (pre ++ [i]) fuel (Hcs i c t Hc Ht)) as (nn & d & Hget & Hnn); [lia|].
  rewrite <- app_assoc, length_app in Hget. cbn in Hget. rewrite Hget, plookup_full, Ht.
  eexists _, d. split; [done|]. destruct d; [|done]. constructor; [by rewrite length_insert| |done].
  intros x c' t'. rewrite list_lookup_insert. case_decide; [naive_solver|apply Hcs].
Qed.

Lemma gets_canon t key : canon0 t → hexkey key → gets t key.
Proof.
  intros [->|Hc] Hkey; [apply gets_nil|]. revert key Hkey.
  induction Hc as [k w Hk Hw|k ts Hne Hk Hc IH|ts Hlen Hc IH H16 H2]; intros key Hkey; apply gets_lift.
  - apply gets_short; [by intros ->; apply hexkey_nil in Hk|]. intros r ->.
    apply hexkey_prefix in Hkey as ->; [apply gets_value|done].
  - apply gets_short; [done|]. intros r ->. rewrite hexkey_app in Hkey by done. by apply IH.
  - destruct key as [|i key]; [by apply hexkey_nil in Hkey|]. apply hexkey_cons in Hkey as [Hi Hkey].
    destruct (lookup_lt_is_Some_2 ts i) as [t Ht]; [lia|]. apply (gets_full ts i t); [done|].
    destruct (decide (t = PNil)) as [->|Hn]; [apply gets_nil|].
    destruct (Nat.eqb_spec i 16) as [->|]; [|by apply (IH i t); [lia|..]].
    destruct (H16 t Ht Hn) as (v & _ & ->). subst key. apply gets_value.
Qed.

(** ** Deleting *)

Lemma expands_not_nil c t : expands c t → t ≠ PNil → is_nil c = false.
Proof. intros He Hn. apply not_true_iff_false. by rewrite (expands_is_nil c t He). Qed.

Lemma reduce_many cs ts prefix x y a b : length cs = length ts →
  (∀ i c t, cs !! i = Some c → ts !! i = Some t → expands c t) →
  x < y → ts !! x = Some a → ts !! y = Some b → a ≠ PNil → b ≠ PNil →
  reduce db_node cs prefix = Some (true, fullNode cs newFlag, None) ∧ expands (fullNode cs newFlag) (PFull ts).
Proof using ok_new.
  intros Hlen Hcs Hxy Hx Hy Ha Hb. split; [|by constructor]. unfold reduce.
  destruct (lookup_lt_is_Some_2 cs x) as [cx Hcx]; [rewrite Hlen; by eapply lookup_lt_Some|].
  destruct (lookup_lt_is_Some_2 cs y) as [cy Hcy]; [rewrite Hlen; by eapply lookup_lt_Some|].
  rewrite (child_pos_many 0 cs x y cx cy); try done.
  - by apply (expands_not_nil _ a); [apply (Hcs x)|].
  - by apply (expands_not_nil _ b); [apply (Hcs y)|].
Qed.

Lemma resolve_expands n t prefix : expands n t → ∃ n', resolve db_node n prefix = inl n' ∧ loaded n' ∧ expands n' t.
Proof.
  intros He. destruct n as [| | |h|]; try (eexists; by split; [|split]).
  inversion He as [| | | |? n ? Hdb Hin _ He']; simplify_eq. exists n. cbn. unfold resolveHash. rewrite Hdb.
  split; [done|]. split; [by destruct n|done].
Qed.

Lemma reduce_one cs ts prefix z tz : length cs = length ts →
  (∀ i c t, cs !! i = Some c → ts !! i = Some t → expands c t) →
  ts !! z = Some tz → slot z tz → tz ≠ PNil → only z ts →
  ∃ n', reduce db_node cs prefix = Some (true, n', None) ∧ loaded n' ∧ expands n' (shrink z tz).
Proof using ok_new.
  intros Hlen Hcs Hz Hs Hn Ho. unfold reduce, shrink.
  destruct (lookup_lt_is_Some_2 cs z) as [c Hc]; [rewrite Hlen; by eapply lookup_lt_Some|].
  pose proof (Hcs z c tz Hc Hz) as He. specialize (Hs Hn).
  rewrite (child_pos_one 0 cs z c Hc (expands_not_nil _ _ He Hn)).
  2:{ intros w c' Hw Hc'. destruct (lookup_lt_is_Some_2 ts w) as [t Ht]; [rewrite <- Hlen; by eapply lookup_lt_Some|].
      apply (expands_is_nil c' t); [by apply (Hcs w)|by apply (Ho w)]. }
  rewrite Nat.add_0_l, Nat2Z.id, Hc. destruct (Z.leb_spec 0 (Z.of_nat z)); [|lia].
  destruct (z =? 16); [eexists; split; [done|]; by split; [|constructor]|].
  destruct (resolve_expands c tz prefix He) as (n' & -> & Hl & He').
  destruct Hs as [k v _ _|k ts' _ _ _|ts' _ _ _ _]; cbn [merge].
  1,2: destruct (expands_short _ _ _ Hl He') as (nv & fl & -> & Hnv & _).
  3: destruct (expands_full _ _ Hl He') as (cs' & fl & -> & _).
  all: eexists; split; [done|]; split; [done|by constructor].
Qed.

Definition deletes (t : ptrie) (key : list nibble) (t' : ptrie) : Prop :=
  ∀ n fuel prefix, expands n t → 2 * length key + 2 ≤ fuel →
    ∃ d n', delete db_node fuel n prefix key = Some (d, n', None) ∧
      expands n' t' ∧ (if d then loaded n' else t' = t).
Definition deletes_loaded (t : ptrie) (key : list nibble) (t' : ptrie) : Prop :=
  ∀ n fuel prefix, loaded n → expands n t → 2 * length key < fuel →
    ∃ d n', delete db_node fuel n prefix key = Some (d, n', None) ∧
      expands n' t' ∧ (if d then loaded n' else t' = t).

Lemma deletes_lift t key t' : deletes_loaded t key t' → deletes t key t'.
Proof.
  intros Hl n fuel prefix He Hf. destruct n as [| | |h|]; try (apply Hl; [done|done|lia]).
  inversion He as [| | | |? n ? Hdb Hin _ He']; simplify_eq. destruct fuel as [|fuel]; [lia|].
  cbn [delete]. unfold resolveHash. rewrite Hdb.
  destruct (Hl n fuel prefix) as (d & n' & -> & Hn' & Hd); [by destruct n|done|lia|].
  destruct d; [by eexists _, _|]. eexists _, n. split; [done|]. by rewrite Hd.
Qed.
Lemma deletes_nil key : deletes PNil key PNil.
Proof.
  intros n fuel prefix He Hf. rewrite (expands_nil n He). destruct fuel; [lia|]. eexists _, _. split; [done|].
  by split; [constructor|].
Qed.
Lemma deletes_value v key : deletes (PVal v) key PNil.
Proof.
  intros n fuel prefix He Hf. rewrite (expands_val n v He). destruct fuel; [lia|]. eexists _, _. split; [done|].
  by split; [constructor|].
Qed.
(** The key leaves the short node, is the short node's, or goes on. *)
Lemma deletes_mismatch k t key : prefixLen key k < length k → deletes_loaded (PShort k t) key (PShort k t).
Proof.
  intros Hp n fuel prefix Hl He Hf. destruct (expands_short n k t Hl He) as (nv & fl & -> & Hnv & Hfl).
  destruct fuel as [|fuel]; [lia|]. cbn [delete]. destruct (Nat.ltb_spec (prefixLen key k) (length k)); [|lia].
  by eexists false, _.
Qed.
Lemma deletes_match k t : deletes_loaded (PShort k t) k PNil.
Proof.
  intros n fuel prefix Hl He Hf. destruct (expands_short n k t Hl He) as (nv & fl & -> & Hnv & Hfl).
  destruct fuel as [|fuel]; [lia|]. cbn [delete].
  pose proof (prefixLen_all k []) as Hp. rewrite app_nil_r in Hp. rewrite Hp, Nat.ltb_irrefl, Nat.eqb_refl.
  eexists true, _. split; [done|]. by split; [constructor|].
Qed.
Lemma deletes_short k t t' rest : k ≠ [] → rest ≠ [] → is_full t → deletes t rest t' →
  deletes_loaded (PShort k t) (k ++ rest) (merge k t').
Proof using ok_new.
  intros Hk Hr Hfull Hdel n fuel prefix Hl He Hf. destruct (expands_short n k t Hl He) as (nv & fl & -> & Hnv & Hfl).
  destruct fuel as [|fuel]; [lia|]. cbn [delete]. rewrite prefixLen_all, Nat.ltb_irrefl, drop_app_length.
  rewrite length_app in *. assert (length k ≠ 0 ∧ length rest ≠ 0) as [] by (by destruct k, rest).
  destruct (Nat.eqb_spec (length k) (length k + length rest)); [lia|].
  destruct (Hdel nv fuel (prefix ++ take (length k) (k ++ rest)) Hnv) as (d & n' & -> & Hn' & Hd); [lia|].
  destruct d.
  - destruct n' as [|cs fl'|ck cv fl'|h|v]; inversion Hn'; simplify_eq; eexists true, _; (split; [done|]);
      (split; [by constructor|done]).
  - subst t'. eexists false, _. split; [done|]. split; [|by destruct t]. by destruct t; try done; constructor.
Qed.

Lemma deletes_full ts i t t' rest u : ts !! i = Some t → deletes t rest t' →
  (t' = t → u = PFull ts) →
  (∀ cs prefix, length cs = length (<[i := t']> ts) →
     (∀ x c t0, cs !! x = Some c → <[i := t']> ts !! x = Some t0 → expands c t0) →
     ∃ n', reduce db_node cs prefix = Some (true, n', None) ∧ loaded n' ∧ expands n' u) →
  deletes_loaded (PFull ts) (i :: rest) u.
Proof.
  intros Ht Hdel Hsame Hred n fuel prefix Hl He Hf.
  destruct (expands_full n ts Hl He) as (cs & fl & -> & Hlen & Hfl & Hcs).
  destruct fuel as [|fuel]; [lia|]. cbn [delete]. cbn in Hf.
  destruct (lookup_lt_is_Some_2 cs i) as [c Hc]; [rewrite Hlen; by eapply lookup_lt_Some|]. rewrite Hc.
  destruct (Hdel c fuel (prefix ++ [i]) (Hcs i c t Hc Ht)) as (d & n' & -> & Hn' & Hd); [lia|]. destruct d.
  - destruct (Hred (<[i := n']> cs) prefix) as (m & -> & Hlm & Hm); [by rewrite !length_insert| |by eexists true, m].
    intros x c' t0. rewrite !list_lookup_insert, Hlen. case_decide; [naive_solver|apply Hcs].
  - eexists false, _. split; [done|]. rewrite (Hsame Hd). done.
Qed.

Lemma delete_slot i t key : slot i t → skey i key →
  (t ≠ PNil → i ≠ 16 → hexkey key →
    ∃ t', canon0 t' ∧ upd t t' key None ∧ deletes t key t' ∧ (is_full t → canon t')) →
  ∃ t', slot i t' ∧ upd t t' key None ∧ deletes t key t'.
Proof.
  intros Hs [Hi Hk] IH. destruct (decide (t = PNil)) as [->|Hn].
  { exists PNil. split; [done|]. split; [|apply deletes_nil]. by intros key' w; cbn; naive_solver. }
  destruct (Nat.eqb_spec i 16) as [->|Hne].
  - subst key. destruct (Hs Hn) as (v & _ & ->). exists PNil. split; [by intros []|]. split; [|apply deletes_value].
    intros key' w. destruct key'; cbn; naive_solver.
  - destruct (IH Hn Hne Hk) as (t' & Hc & Hu & Hdel & _). exists t'. split; [|done].
    intros Hn'. destruct (Nat.eqb_spec i 16); [done|]. by destruct Hc.
Qed.

(** Deletion in a full node: the other children keep the trie nonempty. *)
Lemma delete_full ts i t t' key : canon (PFull ts) → i ≤ 16 → ts !! i = Some t → slot i t' → upd t t' key None →
  deletes t key t' → ∃ u, canon u ∧ upd (PFull ts) u (i :: key) None ∧ deletes (PFull ts) (i :: key) u.
Proof using ok_new.
  intros Hc Hi Ht Hs' Hu Hdel. pose proof (upd_full ts t t' i key None Ht Hu) as Huf.
  pose proof (proj1 (canon_full_slot ts) Hc) as (Hlen & Hs & x & y & tx & ty & Hxy & Hx & Hy & Hnx & Hny).
  assert (∃ z tz, <[i := t']> ts !! z = Some tz ∧ tz ≠ PNil) as (z & tz & Hz & Hnz).
  { destruct (decide (x = i)) as [->|]; [exists y, ty|exists x, tx]; by rewrite list_lookup_insert_ne by done. }
  assert (∀ w tw, <[i := t']> ts !! w = Some tw → slot w tw) as Hsl.
  { intros w tw. rewrite list_lookup_insert. case_decide; [naive_solver|apply Hs]. }
  pose proof (lookup_lt_Some _ _ _ Hz) as Hzl. rewrite length_insert, Hlen in Hzl.
  destruct (only_or_two z tz _ Hz Hnz) as [Ho|(x' & y' & a & b & Hxy' & Hx' & Hy' & Ha & Hb)].
  - exists (shrink z tz). split; [apply shrink_canon; [lia|by apply Hsl|done]|]. split.
    + intros key' w. rewrite (shrink_Some z tz _ key' w Hz Ho). apply Huf.
    + apply deletes_lift, (deletes_full ts i t t'); [done..| |].
      * intros ->. rewrite list_insert_id in Ho by done. destruct (decide (x = z)) as [->|];
          [by destruct (Hny (Ho y ty ltac:(done) Hy))|by destruct (Hnx (Ho x tx ltac:(done) Hx))].
      * intros cs prefix Hl Hcs. apply (reduce_one cs (<[i := t']> ts)); try done. by apply Hsl.
  - exists (PFull (<[i := t']> ts)). split; [|split; [done|]].
    + apply canon_full_slot. rewrite length_insert. split; [done|]. split; [done|].
      exists x', y', a, b. by split; [lia|].
    + apply deletes_lift, (deletes_full ts i t t'); [done..|intros ->; by rewrite list_insert_id|].
      intros cs prefix Hl Hcs. destruct (reduce_many cs (<[i := t']> ts) prefix x' y' a b) as [Hr He]; try done.
      by eexists.
Qed.

(** Deletion on every canonical trie. *)
Lemma delete_canon t key : canon t → hexkey key →
  ∃ t', canon0 t' ∧ upd t t' key None ∧ deletes t key t' ∧ (is_full t → canon t').
Proof using ok_new.
  intros Hc. revert key. induction Hc as [k w Hk Hw|k ts Hne Hk Hc IH|ts Hlen Hc IH H16 H2]; intros key Hkey;
    [destruct (prefixLen_split key k) as (p & a & b & -> & -> & Hp & Hd)..|].
  - destruct b as [|i b]; rewrite ?app_nil_r in *.
    + apply hexkey_prefix in Hkey as ->; [|done]. rewrite app_nil_r. exists PNil. split; [by left|].
      split; [|split; [apply deletes_lift, deletes_match|done]]. intros key w'. rewrite plookup_short_Some. split; [done|].
      intros [[_ ?]|[Hn ([|] & -> & ?)]]; [done| |done]. by rewrite app_nil_r in Hn.
    + exists (PShort (p ++ i :: b) (PVal w)). split; [by right; constructor|]. split; [|split; [|done]].
      * by apply upd_absent, plookup_mismatch.
      * apply deletes_lift, deletes_mismatch. rewrite Hp, length_app. cbn. lia.
  - destruct b as [|i b]; rewrite ?app_nil_r in *.
    + rewrite hexkey_app in Hkey by done. destruct (IH a Hkey) as (t' & Hc' & Hu & Hdel & Hfull). specialize (Hfull I).
      exists (merge p t'). split; [right; by apply canon_merge|]. split; [by apply upd_merge, upd_short|]. split; [|done].
      apply deletes_lift, deletes_short; try done. by intros ->; apply hexkey_nil in Hkey.
    + exists (PShort (p ++ i :: b) (PFull ts)). split; [by right; constructor|]. split; [|split; [|done]].
      * by apply upd_absent, plookup_mismatch.
      * apply deletes_lift, deletes_mismatch. rewrite Hp, length_app. cbn. lia.
  - destruct key as [|i key]; [by apply hexkey_nil in Hkey|]. apply hexkey_cons in Hkey as [Hi Hkey].
    destruct (lookup_lt_is_Some_2 ts i) as [t Ht]; [lia|]. assert (canon (PFull ts)) as Hcf by (by constructor).
    pose proof (proj1 (canon_full_slot ts) Hcf) as (_ & Hs & _).
    destruct (delete_slot i t key) as (t' & Hs' & Hu & Hdel); [by apply Hs|done| |].
    { intros Hn Hi16. apply (IH i t); [lia|done..]. }
    destruct (delete_full ts i t t' key) as (u & Hcu & Huu & Hdu); try done.
    exists u. split; [by right|done].
Qed.
End Laws.
