(* ===== verification/TrieHash.v ===== *)
(** * Hashing the trie: trie/hasher.go, and the root of trie/trie.go

    [hash] collapses a node: the children are replaced by their references
    (the hash of their encoding, or the node itself when the encoding is
    shorter than 32 bytes), the key of a short node by its compact form.  A
    collapsed node has a type of its own, [cnode].  In commit mode the nodes
    to store are returned in the order the code inserts them in the database,
    with the calls of [onleaf] between them.

    [Hash] returns a function of the trie the root stands for, [proot]:
    whatever was loaded, cached or changed before. *)

From Stdlib Require Import ZArith Lia.
From S2P Require Import Prelude Errors Rlp Fullnode Messages Trie TriePure TrieLaws.
Open Scope didux_scope.
Open Scope nat_scope.

Inductive cnode :=
  | CNil
  | CFull (Children : list cnode) (flags : nodeFlag)
  | CShort (Key : bytes) (Val : cnode) (flags : nodeFlag)
  | CHash (h : bytes)
  | CValue (v : bytes).

(** What rlp.Encode writes: [fullNode.EncodeRLP] writes the empty string for
    a nil child; a nil interface in a struct is the empty list. *)
Fixpoint citem (c : cnode) : item :=
  match c with
  | CNil => Str []
  | CFull cs _ => Lst (map citem cs)
  | CShort k v _ => Lst [Str k; match v with CNil => Lst [] | _ => citem v end]
  | CHash h => Str h
  | CValue v => Str v
  end.

(** The effects of a commit on the database. *)
Inductive event :=
  | EInsert (hash blob : bytes) (n : cnode)
  | ELeaf (child parent : bytes).

Definition emptyRoot : bytes :=
  be_fix 32 0x56e81f171bcc55a6ff8345e692c0f86e5b48e01b996cadc001622fb5e363b421.

(** [n.cache()] ([None]: a nil pointer). *)
Definition cache (n : node) : option (option bytes * bool) :=
  match n with
  | Nil => None
  | fullNode _ fl | shortNode _ _ fl => Some (fl_hash fl, fl_dirty fl)
  | hashNode _ | valueNode _ => Some (None, true)
  end.
Definition ccache (c : cnode) : option bytes :=
  match c with CFull _ fl | CShort _ _ fl => fl_hash fl | _ => None end.

Section Hasher.
Context {C : Crypto}.

Definition makeHashNode (data : bytes) : bytes := be_fix 32 (Keccak256 data).

(** The references from leaves to external tries. *)
Definition leaf_events (c : cnode) (hash : bytes) : list event :=
  match c with
  | CShort _ (CValue child) _ => [ELeaf child hash]
  | CFull cs _ => omap (λ c, match c with CValue child => Some (ELeaf child hash) | _ => None end) (take 16 cs)
  | _ => []
  end.

Definition store (commit : bool) (c : cnode) (force : bool) : cnode * list event :=
  match c with
  | CNil | CHash _ => (c, [])
  | _ =>
      let tmp := encode (citem c) in
      if (length tmp <? 32) && negb force then (c, [])
      else
        let hash := match ccache c with Some h => h | None => makeHashNode tmp end in
        (CHash hash,
         if commit then EInsert (BytesToHash hash) tmp c :: leaf_events c (BytesToHash hash) else [])
  end.

(** The last child, as it stands in a collapsed node. *)
Definition raw (n : node) : option cnode :=
  match n with Nil => Some CNil | valueNode v => Some (CValue v) | hashNode h => Some (CHash h) | _ => None end.

(** Child [i] of a full node: the loop over the first 16, and the last. *)
Definition hash_child (hash : node → option (cnode * node * list event)) (i : nat) (c : node)
  : option (cnode * node * list event) :=
  if i <? 16 then match c with Nil => Some (CNil, Nil, []) | _ => hash c end
  else match raw c with Some r => Some (r, c, []) | None => None end.

Definition hash_list (hash : node → option (cnode * node * list event)) :=
  fix loop (i : nat) (cs : list node) {struct cs} : option (list cnode * list node * list event) :=
    match cs with
    | [] => Some ([], [], [])
    | c :: cs =>
        match hash_child hash i c, loop (S i) cs with
        | Some (col, cch, ev), Some (cols, cchs, evs) => Some (col :: cols, cch :: cchs, ev ++ evs)
        | _, _ => None
        end
    end.

Definition hashChildren (hash : node → option (cnode * node * list event)) (original : node)
  : option (cnode * node * list event) :=
  match original with
  | shortNode k v fl =>
      match hexToCompact k, (match v with valueNode b => Some (CValue b, v, []) | _ => hash v end) with
      | Some ck, Some (col, cch, ev) => Some (CShort ck col fl, shortNode k cch fl, ev)
      | _, _ => None
      end
  | fullNode cs fl =>
      match hash_list hash 0 cs with
      | Some (cols, cchs, ev) => Some (CFull cols fl, fullNode cchs fl, ev)
      | None => None
      end
  | hashNode h => Some (CHash h, original, [])
  | valueNode v => Some (CValue v, original, [])
  | Nil => Some (CNil, Nil, [])
  end.

(** [cn.flags.hash = cachedHash], and in commit mode [dirty = false]. *)
Definition set_cached (commit : bool) (hashed : cnode) (cached : node) : node :=
  let fl fl := MkFlag (match hashed with CHash h => Some h | _ => None end)
                 (if commit then false else fl_dirty fl) in
  match cached with
  | shortNode k v f => shortNode k v (fl f)
  | fullNode cs f => fullNode cs (fl f)
  | _ => cached
  end.

Fixpoint hash (commit force : bool) (n : node) {struct n} : option (cnode * node * list event) :=
  let walk :=
    match hashChildren (hash commit false) n with
    | None => None
    | Some (collapsed, cached, ev) =>
        let '(hashed, ev') := store commit collapsed force in
        Some (hashed, set_cached commit hashed cached, ev ++ ev')
    end in
  match cache n with
  | None => None
  | Some (Some h, dirty) =>
      if negb commit then Some (CHash h, n, [])
      else if negb dirty then
        Some (CHash h, match n with fullNode _ _ | shortNode _ _ _ => hashNode h | _ => n end, [])
      else walk
  | Some (None, _) => walk
  end.

Definition hashRoot (commit : bool) (root : node) : option (cnode * node * list event) :=
  match root with
  | Nil => Some (CHash emptyRoot, Nil, [])
  | _ => hash commit true root
  end.

(** [None]: [hash.(hashNode)] panics. *)
Definition Hash (root : node) : option (bytes * node) :=
  match hashRoot false root with
  | Some (CHash h, cached, _) => Some (BytesToHash h, cached)
  | _ => None
  end.

(** The part of [Trie.Commit] before the database: the root hash, the new
    root, and what to apply to the database. *)
Definition CommitTrie (root : node) : option (bytes * node * list event) :=
  match hashRoot true root with
  | Some (CHash h, cached, ev) => Some (BytesToHash h, cached, ev)
  | _ => None
  end.

(** ** The encoding of a trie *)

Definition pcompact (k : list nibble) : bytes := default [] (hexToCompact k).
Definition pinner (t : ptrie) : bool := match t with PShort _ _ | PFull _ => true | _ => false end.

(** The reference to a node with encoding [i] in its parent. *)
Definition link (t : ptrie) (i : item) : item :=
  if pinner t && negb (length (encode i) <? 32) then Str (makeHashNode (encode i)) else i.

Fixpoint penc (t : ptrie) : item :=
  match t with
  | PNil => Str []
  | PVal v => Str v
  | PShort k t => Lst [Str (pcompact k); link t (penc t)]
  | PFull ts => Lst (map (λ t, link t (penc t)) ts)
  end.
Definition pref (t : ptrie) : item := link t (penc t).
Definition enc (t : ptrie) : bytes := encode (penc t).
Definition hash_of (t : ptrie) : bytes := makeHashNode (enc t).
Definition big (t : ptrie) : Prop := 32 ≤ length (enc t).

(** The root hash. *)
Definition proot (t : ptrie) : bytes := match t with PNil => emptyRoot | _ => hash_of t end.

Lemma length_hash_of t : length (hash_of t) = 32.
Proof. apply length_be_fix. Qed.
Lemma BytesToHash_32 b : length b = 32 → BytesToHash b = b.
Proof. intros Hb. unfold BytesToHash. by rewrite Hb, drop_0, Hb. Qed.
Lemma pref_big t : pinner t = true → big t → pref t = Str (hash_of t).
Proof.
  intros Hi Hb. unfold pref, link. rewrite Hi. unfold big, enc in Hb.
  destruct (Nat.ltb_spec (length (encode (penc t))) 32); [lia|done].
Qed.
Lemma pref_small t : ¬ big t → pref t = penc t.
Proof.
  intros Hb. unfold pref, link. unfold big, enc in Hb.
  destruct (Nat.ltb_spec (length (encode (penc t))) 32); [by rewrite andb_false_r|lia].
Qed.

Definition child_of (s t : ptrie) : Prop :=
  match t with PShort _ t => s = t | PFull ts => s ∈ ts | _ => False end.
Fixpoint psize (t : ptrie) : nat :=
  match t with PShort _ t => S (psize t) | PFull ts => S (sum_list (map psize ts)) | _ => 0 end.
Lemma child_of_wf : well_founded child_of.
Proof.
  apply (wf_projected (<)%nat psize); [|apply lt_wf]. intros s t Hs. destruct t as [| |k t|ts]; try done; cbn in *; [subst; lia|].
  induction Hs as [s ts|s u ts _ IH]; cbn in *; lia.
Qed.

(** ** Collapsing *)

Definition cinner (c : cnode) : Prop := match c with CShort _ _ _ | CFull _ _ => True | _ => False end.

(** [c] is the collapsed node of [t], [cref]: what stands for it in its parent. *)
Inductive crep : cnode → ptrie → Prop :=
  | crep_short k c s fl : c ≠ CNil → cref c s → crep (CShort (pcompact k) c fl) (PShort k s)
  | crep_full cs ts fl : length cs = length ts →
      (∀ i c s, cs !! i = Some c → ts !! i = Some s → cref c s) → crep (CFull cs fl) (PFull ts)
with cref : cnode → ptrie → Prop :=
  | cref_nil : cref CNil PNil
  | cref_val v : cref (CValue v) (PVal v)
  | cref_hash s : pinner s = true → big s → cref (CHash (hash_of s)) s
  | cref_node c s : ¬ big s → crep c s → cref c s.

Lemma crep_cinner c t : crep c t → cinner c ∧ pinner t = true.
Proof. by destruct 1. Qed.
Lemma cref_not_nil c s : cref c s → pinner s = true → c ≠ CNil.
Proof. destruct 1 as [| | |c s _ Hc]; try done. by destruct Hc. Qed.

(** A collapsed node is encoded as the trie it stands for. *)
Lemma crep_citem t c : crep c t → citem c = penc t.
Proof.
  revert c. induction t as [t IH] using (well_founded_ind child_of_wf). intros c Hc.
  assert (∀ c s, child_of s t → cref c s → citem c = pref s) as Href.
  { intros c' s Hs Hr. destruct Hr as [|v|s Hi Hb|c' s Hb Hr]; [done..|by rewrite pref_big|].
    rewrite pref_small by done. by apply (IH s Hs). }
  destruct Hc as [k c s fl Hn Hr|cs ts fl Hlen Hr].
  - cbn. fold (pref s). rewrite <- (Href c s eq_refl Hr). by destruct c.
  - cbn [citem penc]. f_equal. change (λ t, link t (penc t)) with pref. apply list_eq. intros i.
    rewrite !list_lookup_fmap. destruct (ts !! i) as [s|] eqn:Hs.
    + destruct (lookup_lt_is_Some_2 cs i) as [c Hc]; [rewrite Hlen; by eapply lookup_lt_Some|]. rewrite Hc. cbn.
      f_equal. apply Href; [by eapply list_elem_of_lookup_2|by apply (Hr i)].
    + apply lookup_ge_None in Hs. by rewrite lookup_ge_None_2 by lia.
Qed.

(** [c] is what [hash] returns for [t]. *)
Definition href (force : bool) (c : cnode) (t : ptrie) : Prop :=
  (c = CHash (hash_of t) ∧ (force = true ∨ big t)) ∨ (crep c t ∧ force = false ∧ ¬ big t).

Lemma href_cref c t : pinner t = true → href false c t → cref c t.
Proof. intros Hi [[-> [?|Hb]]|(Hc & _ & Hb)]; [done|by constructor|by constructor]. Qed.

Lemma store_ok commit c force t : crep c t → (∀ h, ccache c = Some h → h = hash_of t) →
  href force (store commit c force).1 t.
Proof.
  intros Hc Hcache. pose proof (crep_citem t c Hc) as Hci.
  destruct (crep_cinner c t Hc) as [Hin _]. unfold store. destruct c as [|cs fl|k v fl| |]; try done.
  all: rewrite Hci; fold (enc t).
  all: destruct (Nat.ltb_spec (length (enc t)) 32) as [Hl|Hl]; cbn [andb].
  1,3: destruct force; cbn [negb]; [|right; unfold big; cbn; repeat split; [done|lia]].
  all: left; cbn [fst]; (split; [|auto]); f_equal; cbn in *;
    destruct (fl_hash fl) as [h|]; [by rewrite (Hcache h)|done].
Qed.

Lemma hash_list_Some hash i cs cols cchs evs : hash_list hash i cs = Some (cols, cchs, evs) →
  ∃ evl, evs = List.concat evl ∧ length cols = length cs ∧ length cchs = length cs ∧ length evl = length cs ∧
    ∀ j c, cs !! j = Some c → ∃ col cch ev, hash_child hash (i + j) c = Some (col, cch, ev) ∧
      cols !! j = Some col ∧ cchs !! j = Some cch ∧ evl !! j = Some ev.
Proof.
  revert i cols cchs evs. induction cs as [|c cs IH]; intros i cols cchs evs Hl; cbn in Hl; [simplify_eq; by exists []|].
  destruct (hash_child hash i c) as [[[col cch] ev]|] eqn:Hc; [|done].
  destruct (hash_list hash (S i) cs) as [[[cols' cchs'] evs']|] eqn:Hcs; simplify_eq.
  destruct (IH _ _ _ _ Hcs) as (evl & -> & H1 & H2 & H3 & Hall). exists (ev :: evl). cbn.
  split; [done|]. split; [lia|]. split; [lia|]. split; [lia|].
  intros [|j] c'; cbn; [intros; simplify_eq; rewrite Nat.add_0_r; eauto 8|].
  intros Hj. rewrite <- Nat.add_succ_comm. by apply Hall.
Qed.
Lemma hash_list_total hash i cs : (∀ j c, cs !! j = Some c → is_Some (hash_child hash (i + j) c)) →
  is_Some (hash_list hash i cs).
Proof.
  revert i. induction cs as [|c cs IH]; intros i Hc; [by eexists|]. cbn.
  destruct (Hc 0 c eq_refl) as [[[col cch] ev] Hch]. rewrite Nat.add_0_r in Hch. rewrite Hch.
  destruct (IH (S i)) as [[[cols cchs] evs] ->]; [|by eexists].
  intros j c' Hj. rewrite Nat.add_succ_comm. by apply (Hc (S j)).
Qed.

Lemma collapse_leaf hashf k b fl : nodekey k →
  ∃ col, hashChildren hashf (shortNode k (valueNode b) fl) = Some (col, shortNode k (valueNode b) fl, []) ∧
    crep col (PShort k (PVal b)) ∧ ccache col = fl_hash fl.
Proof.
  intros Hk. destruct (compact_roundtrip k Hk) as (ck & Hck & _). cbn. rewrite Hck. eexists. split; [done|].
  split; [|done]. replace ck with (pcompact k) by (unfold pcompact; by rewrite Hck). by repeat constructor.
Qed.
Lemma collapse_ext hashf k v fl t c n' ev : nodekey k → pinner t = true → (∀ b, v ≠ valueNode b) →
  hashf v = Some (c, n', ev) → href false c t →
  ∃ col, hashChildren hashf (shortNode k v fl) = Some (col, shortNode k n' fl, ev) ∧
    crep col (PShort k t) ∧ ccache col = fl_hash fl.
Proof.
  intros Hk Hi Hv Hh Hr. destruct (compact_roundtrip k Hk) as (ck & Hck & _). cbn. rewrite Hck.
  replace (match v with valueNode b => Some (CValue b, v, []) | _ => hashf v end) with (hashf v)
    by (destruct v; try done; by destruct (Hv v)).
  rewrite Hh. eexists. split; [done|]. split; [|done].
  replace ck with (pcompact k) by (unfold pcompact; by rewrite Hck). pose proof (href_cref c t Hi Hr) as Hc.
  constructor; [by eapply cref_not_nil|done].
Qed.

(** Child [i] collapsed. *)
Definition child_ok (hashf : node → option (cnode * node * list event)) (i : nat) (c : node) (t : ptrie) : Prop :=
  (c = Nil ∧ t = PNil) ∨ (i = 16 ∧ ∃ b, c = valueNode b ∧ t = PVal b) ∨
  (i < 16 ∧ c ≠ Nil ∧ pinner t = true ∧ ∃ col cch ev, hashf c = Some (col, cch, ev) ∧ href false col t).

Lemma hash_child_ok hashf i c t : child_ok hashf i c t →
  ∃ col cch ev, hash_child hashf i c = Some (col, cch, ev) ∧ cref col t.
Proof.
  unfold hash_child. intros [[-> ->]|[(-> & b & -> & ->)|(Hi & Hn & Ht & col & cch & ev & Hh & Hr)]].
  - destruct (i <? 16); (eexists _, _, _; split; [done|constructor]).
  - eexists _, _, _; split; [done|constructor].
  - destruct (Nat.ltb_spec i 16); [|lia]. destruct c; try done; rewrite Hh;
      (eexists _, _, _; split; [done|]; by apply href_cref).
Qed.

Lemma collapse_full hashf cs ts fl : length cs = length ts →
  (∀ i c t, cs !! i = Some c → ts !! i = Some t → child_ok hashf i c t) →
  ∃ col cchs ev, hashChildren hashf (fullNode cs fl) = Some (col, fullNode cchs fl, ev) ∧
    crep col (PFull ts) ∧ ccache col = fl_hash fl.
Proof.
  intros Hlen Hok.
  assert (∀ j c, cs !! j = Some c → ∃ t, ts !! j = Some t) as Hex.
  { intros j c Hj. apply lookup_lt_is_Some_2. rewrite <- Hlen. by eapply lookup_lt_Some. }
  destruct (hash_list_total hashf 0 cs) as [[[cols cchs] ev] Hl].
  { intros j c Hj. destruct (Hex j c Hj) as [t Ht].
    destruct (hash_child_ok hashf j c t (Hok j c t Hj Ht)) as (col & cch & ev & Hc & _). by eexists. }
  exists (CFull cols fl), cchs, ev. cbn [hashChildren]. rewrite Hl. split; [done|]. split; [|done].
  destruct (hash_list_Some _ _ _ _ _ _ Hl) as (evl & _ & H1 & _ & _ & Hall). constructor; [lia|].
  intros j col t Hj Ht. destruct (lookup_lt_is_Some_2 cs j) as [c Hc]; [rewrite <- H1; by eapply lookup_lt_Some|].
  destruct (Hall j c Hc) as (col' & cch & ev' & Hch & Hcol & _ & _).
  destruct (hash_child_ok hashf j c t (Hok j c t Hc Ht)) as (col'' & cch' & ev'' & Hc' & Hp).
  cbn in *. rewrite Hch in Hc'. by simplify_eq.
Qed.

(** ** What is cached *)

Definition flag_of (n : node) : nodeFlag :=
  match n with shortNode _ _ fl | fullNode _ fl => fl | _ => newFlag end.
Definition set_flag (n : node) (fl : nodeFlag) : node :=
  match n with shortNode k v _ => shortNode k v fl | fullNode cs _ => fullNode cs fl | _ => n end.

(** Every node of the trie that its parent refers to by hash is in the
    database. *)
Definition kept (in_db : ptrie → Prop) (t : ptrie) : Prop :=
  ∀ s, rtc child_of s t → pinner s = true → big s → in_db s.

Lemma kept_child in_db s t : child_of s t → kept in_db t → kept in_db s.
Proof. intros Hs Hk u Hu. apply Hk. by eapply rtc_r. Qed.
Lemma kept_mono (in_db in_db' : ptrie → Prop) t : (∀ t, in_db t → in_db' t) → kept in_db t → kept in_db' t.
Proof. intros Hm Hk s Hs Hi Hb. by apply Hm, Hk. Qed.

Section Cached.
Context (db_node : bytes → option node).
(** The encoding of the trie is in the database, under its hash. *)
Context (in_db : ptrie → Prop).

(** A cached hash is that of the node, and a clean node is in the database;
    a node that is clean without a hash is embedded in its parent. *)
Definition ok_flag (fl : nodeFlag) (t : ptrie) : Prop :=
  match fl_hash fl with
  | Some h => h = hash_of t ∧ big t ∧ (fl_dirty fl = false → kept in_db t)
  | None => fl_dirty fl = false → ¬ big t
  end.
Definition ok_hash (h : bytes) (t : ptrie) : Prop := h = hash_of t ∧ big t ∧ kept in_db t.
(** The cached hash of a root may be that of a short encoding. *)
Definition ok_root_flag (fl : nodeFlag) (t : ptrie) : Prop :=
  match fl_hash fl with
  | Some h => h = hash_of t ∧ (fl_dirty fl = false → in_db t ∧ kept in_db t)
  | None => fl_dirty fl = true
  end.

Lemma ok_flag_new t : ok_flag newFlag t.
Proof. done. Qed.

Abbreviation expands := (expands db_node ok_flag ok_hash).

Lemma canon_pinner t : canon t → pinner t = true.
Proof. by destruct 1. Qed.
Lemma expands_not_value n t b : pinner t = true → expands n t → n ≠ valueNode b.
Proof. intros Hi He ->. by inversion He; simplify_eq. Qed.

(** Collapsing a node whose children are fine, whatever its own flag. *)
Lemma collapse_ok hashf n t : inner n → canon t → expands (set_flag n newFlag) t →
  (∀ m s, child_of s t → expands m s → canon s → ∃ c m' ev, hashf m = Some (c, m', ev) ∧ href false c s) →
  ∃ col cch ev, hashChildren hashf n = Some (col, cch, ev) ∧ crep col t ∧ ccache col = fl_hash (flag_of n).
Proof.
  intros Hin Hc He IH. destruct n as [|cs fl|k v fl| |]; try done; cbn [set_flag] in He.
  - inversion He as [| | |? ts ? Hlen Hcs _ |]; simplify_eq.
    edestruct (collapse_full hashf cs ts fl Hlen) as (col & cchs & ev & H1 & H2 & H3); [|eauto 8].
    intros i c t Hi Ht. apply canon_full_slot in Hc as (Hl & Hs & _). specialize (Hs i t Ht).
    pose proof (Hcs i c t Hi Ht) as Hct. pose proof (lookup_lt_Some _ _ _ Ht).
    destruct (decide (t = PNil)) as [->|Hn]; [left; by rewrite (expands_nil _ _ _ _ Hct)|]. right. specialize (Hs Hn).
    destruct (Nat.eqb_spec i 16) as [->|].
    + destruct Hs as (b & _ & ->). left. split; [done|]. exists b. by rewrite (expands_val _ _ _ _ _ Hct).
    + right. split; [lia|]. split; [intros ->; by inversion Hct; simplify_eq|]. split; [by apply canon_pinner|]. apply IH; [by eapply list_elem_of_lookup_2|done..].
  - inversion He as [| |? ? t' ? Hv _| |]; simplify_eq. inversion Hc as [? b Hk _|? ts Hne Hk Hcf|]; simplify_eq.
    + rewrite (expands_val _ _ _ _ _ Hv).
      destruct (collapse_leaf hashf k b fl) as (col & H1 & H2); [by right|eauto].
    + destruct (IH v (PFull ts) eq_refl Hv Hcf) as (c & m' & ev & Hh & Hr).
      destruct (collapse_ext hashf k v fl (PFull ts) c m' ev) as (col & H1 & H2); try done; [by left| |eauto].
      intros b. by apply (expands_not_value _ (PFull ts)).
Qed.

Lemma expands_reflag n t : inner n → expands n t ↔ expands (set_flag n newFlag) t ∧ ok_flag (flag_of n) t.
Proof.
  intros Hin. destruct n; try done; cbn.
  - split; [inversion 1; simplify_eq; split; [by constructor|done]|]. intros [He Hf]. inversion He; simplify_eq. by constructor.
  - split; [inversion 1; simplify_eq; split; [by constructor|done]|]. intros [He Hf]. inversion He; simplify_eq. by constructor.
Qed.

(** [hash] when nothing is cached. *)
Definition hash_walk (commit force : bool) (n : node) : option (cnode * node * list event) :=
  match hashChildren (hash commit false) n with
  | None => None
  | Some (collapsed, cached, ev) =>
      let '(hashed, ev') := store commit collapsed force in
      Some (hashed, set_cached commit hashed cached, ev ++ ev')
  end.
Lemma hash_inner_eq commit force n : inner n →
  hash commit force n =
  match fl_hash (flag_of n) with
  | Some h =>
      if negb commit then Some (CHash h, n, [])
      else if negb (fl_dirty (flag_of n)) then Some (CHash h, hashNode h, [])
      else hash_walk commit force n
  | None => hash_walk commit force n
  end.
Proof. by destruct n. Qed.

(** [hash] of an inner node, given that of its children. *)
Lemma hash_inner commit force n t : inner n → canon t → expands (set_flag n newFlag) t →
  (∀ h, fl_hash (flag_of n) = Some h → h = hash_of t ∧ (force = true ∨ big t)) →
  (∀ m s, child_of s t → expands m s → canon s →
    ∃ c m' ev, hash commit false m = Some (c, m', ev) ∧ href false c s) →
  ∃ c n' ev, hash commit force n = Some (c, n', ev) ∧ href force c t.
Proof.
  intros Hin Hc He Hf IH.
  destruct (collapse_ok (hash commit false) n t Hin Hc He IH) as (col & cch & ev & Hh & Hp & Hcc).
  rewrite hash_inner_eq by done.
  assert (∃ c n' evs, hash_walk commit force n = Some (c, n', evs) ∧ href force c t) as Hwalk.
  { assert (href force (store commit col force).1 t) as Hs.
    { apply store_ok; [done..|]. intros h Hh'. rewrite Hcc in Hh'. by apply Hf. }
    unfold hash_walk. rewrite Hh. destruct (store commit col force) as [hashed ev']. eexists _, _, _. by split. }
  destruct (fl_hash _) as [h|]; [|done]. destruct (Hf h eq_refl) as [-> Hb].
  destruct (negb commit); [|destruct (negb _); [|done]]; (eexists _, _, _; split; [done|by left]).
Qed.

Lemma hash_ok commit n t : expands n t → canon t →
  ∃ c n' ev, hash commit false n = Some (c, n', ev) ∧ href false c t.
Proof.
  revert n. induction t as [t IH] using (well_founded_ind child_of_wf). intros n He Hc.
  destruct n as [| | |h|b]; try (by apply canon_pinner in Hc; inversion He; simplify_eq).
  - apply expands_reflag in He as [He Hf]; [|done]. apply hash_inner; [done..| |auto].
    intros h Hh. unfold ok_flag in Hf. rewrite Hh in Hf. naive_solver.
  - apply expands_reflag in He as [He Hf]; [|done]. apply hash_inner; [done..| |auto].
    intros h Hh. unfold ok_flag in Hf. rewrite Hh in Hf. naive_solver.
  - inversion He as [| | | |? ? ? _ _ [-> [Hb _]] _]; simplify_eq. eexists _, _, _. split; [done|]. left. auto.
Qed.

(** A root stands for [t]. *)
Definition root_ok (root : node) (t : ptrie) : Prop :=
  match root with
  | Nil => t = PNil
  | hashNode h =>
      canon t ∧ h = hash_of t ∧ in_db t ∧ kept in_db t ∧
      ∃ n, db_node (BytesToHash h) = Some n ∧ inner n ∧ expands (set_flag n newFlag) t ∧ ok_root_flag (flag_of n) t
  | valueNode _ => False
  | _ => canon t ∧ expands (set_flag root newFlag) t ∧ ok_root_flag (flag_of root) t
  end.
Lemma root_ok_inner n t : inner n →
  root_ok n t ↔ canon t ∧ expands (set_flag n newFlag) t ∧ ok_root_flag (flag_of n) t.
Proof. by destruct n. Qed.
End Cached.

(** ** The node that replaces the hashed one *)

Section Replace.
Context (db_node db_node' : bytes → option node) (in_db in_db' : ptrie → Prop).
Abbreviation expands := (expands db_node (ok_flag in_db) (ok_hash in_db)).
Abbreviation expands' := (TrieLaws.expands db_node' (ok_flag in_db') (ok_hash in_db')).
(** The database after holds what the database before held. *)
Hypothesis in_db_mono : ∀ t, in_db t → in_db' t.
(** A node of the database can be loaded. *)
Hypothesis in_db_load : ∀ t, canon t → kept in_db' t → in_db' t →
  ∃ n, db_node' (hash_of t) = Some n ∧ inner n ∧ flag_of n = MkFlag (Some (hash_of t)) false ∧
    expands' (set_flag n newFlag) t.

Lemma load_hash t : canon t → big t → kept in_db' t → expands' (hashNode (hash_of t)) t.
Proof using in_db_load.
  intros Hc Hb Hk. assert (in_db' t) as Ht by (by apply (Hk t); [|apply canon_pinner|]).
  destruct (in_db_load t Hc Hk Ht) as (n & Hdb & Hin & Hfl & He).
  apply (ex_hash _ _ _ _ n); [by rewrite BytesToHash_32 by apply length_hash_of|done|done|].
  apply expands_reflag; [done|]. split; [done|]. by rewrite Hfl.
Qed.

Lemma ok_flag_mono fl t : ok_flag in_db fl t → ok_flag in_db' fl t.
Proof using in_db_mono.
  unfold ok_flag. destruct (fl_hash fl); [|done]. intros (Hh & Hb & Hs). split; [done|]. split; [done|].
  intros Hd. by apply (kept_mono in_db), Hs.
Qed.

Lemma expands_mono n t : expands n t → canon0 t ∨ (∃ v, t = PVal v) → expands' n t.
Proof using in_db_load in_db_mono.
  induction 1 as [|v|k n t fl He IH Hfl|cs ts fl Hlen Hcs IH Hfl|h n t Hdb Hin [-> [Hb Hs]] He IH]; intros Hc.
  - constructor.
  - constructor.
  - constructor; [|by apply ok_flag_mono]. apply IH.
    destruct Hc as [[?|Hc]|[v ?]]; try done. inversion Hc; simplify_eq; [right; eauto|left; by right].
  - constructor; [done| |by apply ok_flag_mono]. intros i c t Hi Ht. apply (IH i c t Hi Ht).
    destruct Hc as [[?|Hc]|[v ?]]; try done. apply canon_full_slot in Hc as (_ & Hsl & _).
    specialize (Hsl i t Ht). destruct (decide (t = PNil)) as [->|Hn]; [left; by left|].
    specialize (Hsl Hn). destruct (i =? 16); [right; naive_solver|left; by right].
  - apply load_hash; [|done|by apply (kept_mono in_db)]. destruct Hc as [[->|Hc]|[v ->]]; [|done|];
      inversion He; simplify_eq; done.
Qed.

Lemma collapse_cached hashf n t col cch ev : inner n → canon t → expands (set_flag n newFlag) t →
  (∀ m s c m' ev, child_of s t → expands m s → canon s → hashf m = Some (c, m', ev) → expands' m' s) →
  hashChildren hashf n = Some (col, cch, ev) →
  inner cch ∧ flag_of cch = flag_of n ∧ expands' (set_flag cch newFlag) t.
Proof using in_db_load in_db_mono.
  intros Hin Hc He IH Hh. destruct n as [|cs fl|k v fl| |]; try done; cbn [set_flag] in He; cbn [hashChildren] in Hh.
  - destruct (hash_list hashf 0 cs) as [[[cols cchs] evs]|] eqn:Hl; simplify_eq. split; [done|]. split; [done|].
    inversion He as [| | |? ts ? Hlen Hcs _ |]; simplify_eq.
    destruct (hash_list_Some _ _ _ _ _ _ Hl) as (evl & _ & H1 & H2 & _ & Hall). cbn [set_flag].
    constructor; [lia| |apply ok_flag_new]. intros i cch t Hi Ht.
    destruct (lookup_lt_is_Some_2 cs i) as [c Hci]; [rewrite <- H2; by eapply lookup_lt_Some|].
    destruct (Hall i c Hci) as (col & cch' & ev' & Hch & _ & Hcch & _). simplify_eq. cbn in Hch.
    pose proof (Hcs i c t Hci Ht) as Hct. apply canon_full_slot in Hc as (Hl17 & Hsl & _). specialize (Hsl i t Ht).
    pose proof (lookup_lt_Some _ _ _ Ht). unfold hash_child in Hch.
    destruct (decide (t = PNil)) as [->|Hn].
    { rewrite (expands_nil _ _ _ _ Hct) in Hch. destruct (i <? 16); simplify_eq/=; constructor. }
    specialize (Hsl Hn). destruct (Nat.ltb_spec i 16).
    + destruct (Nat.eqb_spec i 16); [lia|]. assert (c ≠ Nil) by (intros ->; by inversion Hct; simplify_eq).
      assert (hashf c = Some (col, cch, ev')) as Hhc by (by destruct c).
      apply (IH c t _ _ _) in Hhc; [done|by eapply list_elem_of_lookup_2|done..].
    + destruct (Nat.eqb_spec i 16); [|lia]. destruct Hsl as (b & _ & ->).
      rewrite (expands_val _ _ _ _ _ Hct) in Hch. cbn in Hch. simplify_eq. constructor.
  - destruct (hexToCompact k) as [ck|]; [|done].
    destruct (match v with valueNode b => _ | _ => _ end) as [[[col' cch'] ev']|] eqn:Hv; simplify_eq.
    split; [done|]. split; [done|]. inversion He as [| |? ? t' ? Hvt _| |]; simplify_eq. cbn [set_flag].
    constructor; [|apply ok_flag_new]. inversion Hc as [? b Hk _|? ts Hne Hk Hcf|]; simplify_eq.
    + rewrite (expands_val _ _ _ _ _ Hvt) in Hv. simplify_eq. constructor.
    + assert (hashf v = Some (col', cch', ev)) as Hhc by (by destruct v; try done; inversion Hvt).
      by apply (IH v (PFull ts) _ _ _) in Hhc.
Qed.

Lemma walk_parts commit force n t c n' ev : inner n → canon t → expands (set_flag n newFlag) t →
  (∀ m s c m' ev, child_of s t → expands m s → canon s → hash commit false m = Some (c, m', ev) → expands' m' s) →
  hash_walk commit force n = Some (c, n', ev) →
  inner n' ∧ expands' (set_flag n' newFlag) t ∧
  flag_of n' = MkFlag (match c with CHash h => Some h | _ => None end) (if commit then false else fl_dirty (flag_of n)).
Proof using in_db_load in_db_mono.
  intros Hin Hc He IH Hw. unfold hash_walk in Hw.
  destruct (hashChildren _ n) as [[[col cch] ev0]|] eqn:Hh; [|done].
  destruct (store commit col force) as [hashed ev'] eqn:Hst. simplify_eq.
  destruct (collapse_cached _ _ _ _ _ _ Hin Hc He IH Hh) as (Hin' & Hfl & He').
  split; [by destruct cch|]. split; [by destruct cch|]. rewrite <- Hfl. by destruct cch.
Qed.

Lemma walk_cached commit n t c n' ev : inner n → canon t → expands (set_flag n newFlag) t →
  (∀ m s c m' ev, child_of s t → expands m s → canon s → hash commit false m = Some (c, m', ev) → expands' m' s) →
  (commit = true → kept in_db' t) → href false c t → hash_walk commit false n = Some (c, n', ev) →
  (commit = false → fl_dirty (flag_of n) = false → ¬ big t) → expands' n' t.
Proof using in_db_load in_db_mono.
  intros Hin Hc He IH Hk Href Hw Hd.
  destruct (walk_parts _ _ _ _ _ _ _ Hin Hc He IH Hw) as (Hin' & He' & Hfl).
  apply expands_reflag; [done|]. split; [done|]. rewrite Hfl.
  destruct Href as [[-> [?|Hb]]|(Hci & _ & Hb)]; [done| |by destruct Hci; intros _].
  split; [done|]. split; [done|]. cbn. destruct commit; [by intros _; apply Hk|]. intros Hdd. by destruct (Hd eq_refl Hdd).
Qed.

Lemma hash_cached commit n t c n' ev : expands n t → canon t → (commit = true → kept in_db' t) →
  hash commit false n = Some (c, n', ev) → expands' n' t.
Proof using in_db_load in_db_mono.
  revert n c n' ev. induction t as [t IH] using (well_founded_ind child_of_wf). intros n c n' ev He Hc Hk Hh.
  destruct (hash_ok db_node in_db commit n t He Hc) as (c' & ? & ? & Hh' & Href). rewrite Hh in Hh'. simplify_eq.
  destruct n as [| | |h|b]; try (by apply canon_pinner in Hc; inversion He; simplify_eq).
  3:{ cbn in Hh. simplify_eq. inversion He as [| | | |? ? ? _ _ [-> [Hb Hkt]] _]; simplify_eq.
      apply load_hash; [done..|by apply (kept_mono in_db)]. }
  all: apply expands_reflag in He as [He Hf]; [|done]; rewrite hash_inner_eq in Hh by done;
    cbn [flag_of] in *; unfold ok_flag in Hf.
  all: destruct (fl_hash flags) as [h|] eqn:Hfh; [destruct commit; [destruct (fl_dirty flags) eqn:Hd|]|]; cbn [negb] in Hh.
  all: try (simplify_eq; destruct Hf as (-> & Hb & Hkt); by apply load_hash; [..|apply (kept_mono in_db), Hkt]).
  all: try (simplify_eq; apply expands_mono; [|by left; right]; apply expands_reflag; [done|]; split; [done|];
    cbn [flag_of]; unfold ok_flag; by rewrite Hfh).
  all: refine (walk_cached _ _ _ _ _ _ _ Hc He _ Hk Href Hh _); [exact I| |first [done|intros _; exact Hf]].
  all: intros m s c0 m' ev0 Hs Hm Hcs; apply (IH s Hs m); [done..|]; intros Hct; apply (kept_child _ _ t); auto.
Qed.

(** The root, hashed by force. *)
Lemma load_root t : canon t → in_db' t → kept in_db' t → root_ok db_node' in_db' (hashNode (hash_of t)) t.
Proof using in_db_load.
  intros Hc Hi Hk. destruct (in_db_load t Hc Hk Hi) as (n & Hdb & Hin & Hfl & He). do 4 (split; [done|]).
  exists n. rewrite BytesToHash_32 by apply length_hash_of. do 3 (split; [done|]). by rewrite Hfl.
Qed.

Lemma hash_root_inner commit n t : inner n → root_ok db_node in_db n t → (commit = true → in_db' t ∧ kept in_db' t) →
  ∃ n' ev, hash commit true n = Some (CHash (hash_of t), n', ev) ∧ root_ok db_node' in_db' n' t.
Proof using in_db_load in_db_mono.
  intros Hin (Hc & He & Hf)%root_ok_inner Hk; [|done].
  destruct (hash_inner db_node in_db commit true n t) as (c & n' & ev & Hh & Href); [done..| | |].
  { intros h Hh. unfold ok_root_flag in Hf. rewrite Hh in Hf. naive_solver. }
  { intros m s _. apply hash_ok. }
  destruct Href as [[-> _]|(_ & ? & _)]; [|done]. exists n', ev. split; [done|].
  rewrite hash_inner_eq in Hh by done. unfold ok_root_flag in Hf.
  assert (hash_walk commit true n = Some (CHash (hash_of t), n', ev) →
    (commit = false → fl_dirty (flag_of n) = true) → root_ok db_node' in_db' n' t) as Hwalk.
  { intros Hw Hd. destruct (walk_parts commit true n t (CHash (hash_of t)) n' ev Hin Hc He) as (Hin' & He' & Hfl); [|done|].
    - intros m s c m' ev' Hs Hm Hcs. apply hash_cached; [done..|]. intros Hct. by apply (kept_child _ _ t), Hk.
    - apply root_ok_inner; [done|]. do 2 (split; [done|]). rewrite Hfl. split; [done|]. cbn.
      destruct commit; [by intros _; apply Hk|]. by rewrite Hd. }
  destruct (fl_hash (flag_of n)) as [h|] eqn:Hfh; [|by apply Hwalk]. destruct Hf as [-> Hs].
  destruct commit; cbn [negb] in Hh.
  - destruct (fl_dirty (flag_of n)) eqn:Hd; [by apply Hwalk|]. cbn in Hh. simplify_eq. destruct (Hk eq_refl). by apply load_root.
  - simplify_eq. apply root_ok_inner; [done|]. split; [done|]. split; [by apply expands_mono; [|left; right]|].
    unfold ok_root_flag. rewrite Hfh. split; [done|]. intros Hd. destruct (Hs Hd) as [? Hkt].
    split; [by apply in_db_mono|by apply (kept_mono in_db)].
Qed.

Lemma hashRoot_ok commit root t : root_ok db_node in_db root t → (commit = true → t ≠ PNil → in_db' t ∧ kept in_db' t) →
  ∃ n' ev, hashRoot commit root = Some (CHash (proot t), n', ev) ∧ root_ok db_node' in_db' n' t.
Proof using in_db_load in_db_mono.
  intros Hr Hk. assert (t ≠ PNil → proot t = hash_of t) as Hproot by (by destruct t).
  destruct root as [|cs fl|k v fl|h|]; [by rewrite Hr; eexists _, _| | | |done].
  3:{ destruct Hr as (Hc & -> & Hi & Hkt & _). assert (t ≠ PNil) by (by destruct Hc). rewrite Hproot by done.
      eexists _, _. split; [done|]. apply load_root; [done|by apply in_db_mono|by apply (kept_mono in_db)]. }
  all: assert (t ≠ PNil) by (destruct Hr as (Hc & _); by destruct Hc); rewrite Hproot by done;
    apply hash_root_inner; [done|done|by auto].
Qed.
End Replace.
End Hasher.
