(* ===== verification/TrieRoot.v ===== *)
(** * The trie object: a map with a root hash

    [root_map] relates the root of a trie, partly loaded from its database, to
    the map it stands for.  Every operation of trie/trie.go on such a root
    returns, without an error, the answer of the map, and leaves a root that
    stands for the new map.  The root hash is a function of the map. *)

From Stdlib Require Import ZArith Lia.
From S2P Require Import Prelude Errors Rlp Fullnode Messages Trie TriePure TrieLaws TrieHash.
Open Scope didux_scope.
Open Scope nat_scope.

(** The operations see the flag of the root only to return it. *)
Lemma insert_set_flag db fuel n prefix key v fl d n' : inner n → key ≠ [] →
  insert db fuel (set_flag n fl) prefix key v = Some (d, n', None) →
  insert db fuel n prefix key v = Some (d, if d then n' else n, None).
Proof.
  intros Hin Hk Hi. destruct fuel as [|fuel]; [done|]. destruct key as [|k0 ktl]; [done|].
  destruct n as [|cs f|k nv f| |]; try done; cbn [insert set_flag] in *.
  - destruct (cs !! k0); [|done]. destruct (insert db fuel _ _ _ _) as [[[[] ?] []]|]; by simplify_eq.
  - destruct (_ =? _).
    + destruct (insert db fuel _ _ _ _) as [[[[] ?] []]|]; by simplify_eq.
    + repeat (case_match; simplify_eq/=; try done).
Qed.
Lemma reduce_dirty db cs prefix d n' : reduce db cs prefix = Some (d, n', None) →
  d = true ∧ inner n' ∧ flag_of n' = newFlag.
Proof. unfold reduce. intros Hr. repeat (case_match; simplify_eq/=; try done). Qed.
Lemma delete_set_flag db fuel n prefix key fl d n' : inner n →
  delete db fuel (set_flag n fl) prefix key = Some (d, n', None) →
  delete db fuel n prefix key = Some (d, if d then n' else n, None).
Proof.
  intros Hin Hi. destruct fuel as [|fuel]; [done|].
  destruct n as [|cs f|k nv f| |]; try done; cbn [delete set_flag] in *.
  - destruct key as [|k0 ktl]; [done|]. destruct (cs !! k0); [|done].
    destruct (delete db fuel _ _ _) as [[[[] ?] []]|]; simplify_eq; try done.
    by destruct (reduce_dirty _ _ _ _ _ Hi) as [-> _].
  - destruct (_ <? _); [by simplify_eq|]. destruct (_ =? _); [by simplify_eq|].
    destruct (delete db fuel _ _ _) as [[[[] nn] []]|]; simplify_eq; try done; by destruct nn; simplify_eq.
Qed.
Lemma tryGet_set_flag db fuel n key pos fl v nn d : inner n →
  tryGet db fuel (set_flag n fl) key pos = Some (v, nn, d, None) →
  tryGet db fuel n key pos = Some (v, set_flag nn (flag_of n), d, None) ∧ inner nn.
Proof.
  intros Hin Hi. destruct fuel as [|fuel]; [done|].
  destruct n as [|cs f|k nv f| |]; try done; cbn [tryGet set_flag] in *.
  - destruct (key !! pos); [|done]. destruct (cs !! _); [|done].
    destruct (tryGet db fuel _ _ _) as [[[[? ?] []] []]|]; by simplify_eq.
  - destruct (_ || _); [by simplify_eq|]. destruct (tryGet db fuel _ _ _) as [[[[? ?] []] []]|]; by simplify_eq.
Qed.

(** A changed node is new. *)
Lemma insert_dirty db fuel n prefix key v n' : key ≠ [] → loaded n →
  insert db fuel n prefix key v = Some (true, n', None) → inner n' ∧ flag_of n' = newFlag.
Proof.
  intros Hk Hl Hi. destruct fuel as [|fuel]; [done|]. destruct key as [|k0 ktl]; [done|].
  destruct n as [|cs f|k nv f| |]; try done; cbn [insert] in *; [by simplify_eq| |].
  - destruct (cs !! k0); [|done]. destruct (insert db fuel _ _ _ _) as [[[[] ?] []]|]; by simplify_eq.
  - destruct (_ =? _).
    + destruct (insert db fuel _ _ _ _) as [[[[] ?] []]|]; by simplify_eq.
    + repeat (case_match; simplify_eq/=; try done).
Qed.
Lemma delete_dirty db fuel n prefix key n' : loaded n →
  delete db fuel n prefix key = Some (true, n', None) → n' = Nil ∨ inner n' ∧ flag_of n' = newFlag.
Proof.
  intros Hl Hi. destruct fuel as [|fuel]; [done|].
  destruct n as [|cs f|k nv f| |]; try done; cbn [delete] in *; [| |by simplify_eq; left].
  - destruct key as [|k0 ktl]; [done|]. destruct (cs !! k0); [|done].
    destruct (delete db fuel _ _ _) as [[[[] ?] []]|]; simplify_eq; try done.
    right. by apply reduce_dirty in Hi as (_ & ? & ?).
  - destruct (_ <? _); [by simplify_eq|]. destruct (_ =? _); [simplify_eq; by left|]. right.
    destruct (delete db fuel _ _ _) as [[[[] nn] []]|]; simplify_eq; try done; by destruct nn; simplify_eq.
Qed.

(** ** The map of a root *)

Definition contents (t : ptrie) (m : bytes → option bytes) : Prop :=
  (∀ key, plookup t (keybytesToHex key) = m key) ∧
  (∀ hk v, plookup t hk = Some v → ∃ key, hk = keybytesToHex key).

Definition map_update (m : bytes → option bytes) (key value : bytes) : bytes → option bytes :=
  λ k, if decide (k = key) then match value with [] => None | _ => Some value end else m k.

Lemma contents_upd t t' m key value : contents t m →
  upd t t' (keybytesToHex key) (match value with [] => None | _ => Some value end) →
  contents t' (map_update m key value).
Proof.
  intros [Hm Hk] Hu. split.
  - intros k. rewrite (upd_lookup _ _ _ _ _ Hu). unfold map_update.
    destruct (decide (k = key)) as [->|Hne]; [by rewrite decide_True|].
    rewrite decide_False; [done|]. by intros ?%keybytesToHex_inj.
  - intros hk v [[-> _]|[_ Hl]]%Hu; eauto.
Qed.

(** The contents determine the trie. *)
Lemma contents_unique t1 t2 m : canon0 t1 → canon0 t2 → contents t1 m → contents t2 m → t1 = t2.
Proof.
  intros Hc1 Hc2 [Hm1 Hk1] [Hm2 Hk2].
  assert (same_map t1 t2) as Hsame.
  { assert (∀ t t', (∀ key, plookup t (keybytesToHex key) = m key) → (∀ key, plookup t' (keybytesToHex key) = m key) →
      (∀ hk v, plookup t hk = Some v → ∃ key, hk = keybytesToHex key) →
      ∀ hk v, plookup t hk = Some v → plookup t' hk = Some v) as Himp.
    { intros t t' Ht Ht' Hk hk v Hl. destruct (Hk hk v Hl) as [key ->]. by rewrite Ht', <- Ht. }
    intros hk. apply option_eq. intros v. split; by apply Himp. }
  destruct Hc1 as [->|Hc1], Hc2 as [->|Hc2]; [done| | |by apply canon_unique].
  - destruct (canon_inhabited t2 Hc2) as (k & v & Hl). by rewrite <- Hsame in Hl.
  - destruct (canon_inhabited t1 Hc1) as (k & v & Hl). by rewrite Hsame in Hl.
Qed.

Section Root.
Context {C : Crypto} (db_node : bytes → option node) (in_db : ptrie → Prop).
Abbreviation expands := (expands db_node (ok_flag in_db) (ok_hash in_db)).
Abbreviation root_ok := (root_ok db_node in_db).

Lemma root_ok_canon n t : root_ok n t → canon0 t.
Proof. destruct n; cbn; [by left|right; tauto..|done]. Qed.

Lemma root_ok_new n t : canon t → inner n → expands n t → flag_of n = newFlag → root_ok n t.
Proof.
  intros Hc Hin He Hf. apply root_ok_inner; [done|]. split; [done|].
  apply expands_reflag in He as [He _]; [|done]. split; [done|]. by rewrite Hf.
Qed.

(** The inner node a root is, or is the hash of. *)
Lemma root_ok_cases n t : root_ok n t →
  (n = Nil ∧ t = PNil) ∨ (canon t ∧ ∃ n0, inner n0 ∧ expands (set_flag n0 newFlag) t ∧ root_ok n0 t ∧
    (n = n0 ∨ ∃ h, n = hashNode h ∧ db_node (BytesToHash h) = Some n0)).
Proof.
  intros Hr. destruct n as [|cs fl|k v fl|h|]; [by left|right|right|right|done].
  - pose proof Hr as (Hc & He & Hf). split; [done|]. eexists. split; [|split; [exact He|split; [exact Hr|by left]]]. done.
  - pose proof Hr as (Hc & He & Hf). split; [done|]. eexists. split; [|split; [exact He|split; [exact Hr|by left]]]. done.
  - destruct Hr as (Hc & -> & _ & _ & n0 & Hdb & Hin & He & Hf). split; [done|]. exists n0.
    do 2 (split; [done|]). split; [by apply root_ok_inner|]. right. eauto.
Qed.

Lemma inner_insert n t t' key v fuel : inner n → key ≠ [] → root_ok n t → canon t' →
  inserts db_node (ok_flag in_db) (ok_hash in_db) t key v t' → 2 * length key + 2 ≤ fuel →
  ∃ d n', insert db_node fuel n [] key (valueNode v) = Some (d, n', None) ∧ root_ok n' t' ∧ (d = false → n' = n).
Proof.
  intros Hin Hne Hr Hc Hins Hf. pose proof Hr as (_ & He & _)%root_ok_inner; [|done].
  destruct (Hins _ fuel [] He Hf) as (d & n' & Hi & He' & Hd).
  rewrite (insert_set_flag _ _ _ _ _ _ _ _ _ Hin Hne Hi). eexists _, _. split; [done|].
  destruct d; [|split; [by rewrite Hd|done]]. split; [|done].
  assert (loaded (set_flag n newFlag)) as Hl by (by destruct n).
  destruct (insert_dirty _ _ _ _ _ _ _ Hne Hl Hi). by apply root_ok_new.
Qed.
Lemma root_insert root t key v : root_ok root t → hexkey key → v ≠ [] →
  ∃ d n' t', insert db_node (fuel_for key) root [] key (valueNode v) = Some (d, n', None) ∧
    upd t t' key (Some v) ∧ root_ok n' t'.
Proof.
  intros Hr Hkey Hv. pose proof (root_ok_canon _ _ Hr) as Hc0.
  assert (key ≠ []) as Hne by (intros ->; by apply hexkey_nil in Hkey).
  destruct (insert_canon db_node (ok_flag in_db) (ok_hash in_db) (ok_flag_new in_db) t key v Hc0 Hkey Hv)
    as (t' & Hc' & Hu & Hins & _).
  destruct (root_ok_cases _ _ Hr) as [[-> ->]|(Hc & n0 & Hin & He & Hr0 & Hn)].
  { destruct (Hins Nil (fuel_for key) []) as (d & n' & Hi & He' & Hd); [constructor|unfold fuel_for; lia|].
    destruct d; [|rewrite (Hd eq_refl) in Hc'; by inversion Hc']. eexists _, _, t'. split; [done|]. split; [done|].
    by destruct (insert_dirty _ _ Nil _ _ _ _ Hne I Hi); apply root_ok_new. }
  destruct Hn as [->|(h & -> & Hdb)].
  - destruct (inner_insert n0 t t' key v (fuel_for key)) as (d & n' & Hi & Hr' & _); try done; [unfold fuel_for; lia|].
    by eexists _, _, t'.
  - destruct (inner_insert n0 t t' key v (2 * length key + 2)) as (d & n' & Hi & Hr' & Hd); try done.
    unfold fuel_for. replace (2 * length key + 3) with (S (2 * length key + 2)) by lia.
    destruct key as [|k0 key]; [done|]. cbn [insert]. unfold resolveHash. rewrite Hdb, Hi.
    destruct d; eexists _, _, t'; (split; [done|]); (split; [done|]); [done|]. by rewrite <- Hd.
Qed.

Lemma inner_delete n t t' key fuel : inner n → root_ok n t → canon0 t' →
  deletes db_node (ok_flag in_db) (ok_hash in_db) t key t' → 2 * length key + 2 ≤ fuel →
  ∃ d n', delete db_node fuel n [] key = Some (d, n', None) ∧ root_ok n' t' ∧ (d = false → n' = n).
Proof.
  intros Hin Hr Hc Hdel Hf. pose proof Hr as (_ & He & _)%root_ok_inner; [|done].
  destruct (Hdel _ fuel [] He Hf) as (d & n' & Hi & He' & Hd).
  rewrite (delete_set_flag _ _ _ _ _ _ _ _ Hin Hi). eexists _, _. split; [done|].
  destruct d; [|split; [by rewrite Hd|done]]. split; [|done].
  assert (loaded (set_flag n newFlag)) as Hl by (by destruct n).
  destruct (delete_dirty _ _ _ _ _ _ Hl Hi) as [->|[Hin' Hf']]; [by inversion He'|].
  destruct Hc as [->|Hc]; [by rewrite (expands_nil _ _ _ _ He') in Hin'|]. by apply root_ok_new.
Qed.
Lemma root_delete root t key : root_ok root t → hexkey key →
  ∃ d n' t', delete db_node (fuel_for key) root [] key = Some (d, n', None) ∧
    upd t t' key None ∧ root_ok n' t'.
Proof.
  intros Hr Hkey. destruct (root_ok_cases _ _ Hr) as [[-> ->]|(Hc & n0 & Hin & He & Hr0 & Hn)].
  { exists false, Nil, PNil. unfold fuel_for. rewrite Nat.add_comm. split; [done|]. split; [|done].
    by apply upd_absent. }
  destruct (delete_canon db_node (ok_flag in_db) (ok_hash in_db) (ok_flag_new in_db) t key Hc Hkey)
    as (t' & Hc' & Hu & Hdel & _).
  destruct Hn as [->|(h & -> & Hdb)].
  - destruct (inner_delete n0 t t' key (fuel_for key)) as (d & n' & Hi & Hr' & _); try done; [unfold fuel_for; lia|].
    by eexists _, _, t'.
  - destruct (inner_delete n0 t t' key (2 * length key + 2)) as (d & n' & Hi & Hr' & Hd); try done.
    unfold fuel_for. replace (2 * length key + 3) with (S (2 * length key + 2)) by lia.
    cbn [delete]. unfold resolveHash. rewrite Hdb, Hi.
    destruct d; eexists _, _, t'; (split; [done|]); (split; [done|]); [done|]. by rewrite <- Hd.
Qed.

Lemma inner_get n t key fuel : inner n → hexkey key → root_ok n t → 2 * length key + 2 ≤ fuel →
  ∃ n' d, tryGet db_node fuel n key 0 = Some (plookup t key, n', d, None) ∧ root_ok n' t.
Proof.
  intros Hin Hkey Hr Hf. pose proof Hr as (Hc & He & Hfl)%root_ok_inner; [|done].
  destruct (gets_canon db_node (ok_flag in_db) (ok_hash in_db) t key (or_intror Hc) Hkey _ [] fuel He Hf)
    as (nn & d & Hg & Hnn).
  destruct (tryGet_set_flag _ _ _ _ _ _ _ _ _ Hin Hg) as [Hg' Hin']. eexists _, _. split; [exact Hg'|].
  apply expands_reflag in Hnn as [Hnn _]; [|done]. apply root_ok_inner; [by destruct nn|]. split; [done|].
  split; [by destruct nn|]. by destruct nn.
Qed.
Lemma root_get root t key : root_ok root t → hexkey key →
  ∃ n' d, tryGet db_node (fuel_for key) root key 0 = Some (plookup t key, n', d, None) ∧ root_ok n' t.
Proof.
  intros Hr Hkey. destruct (root_ok_cases _ _ Hr) as [[-> ->]|(Hc & n0 & Hin & He & Hr0 & Hn)].
  { exists Nil, false. unfold fuel_for. by rewrite Nat.add_comm. }
  destruct Hn as [->|(h & -> & Hdb)].
  - apply inner_get; try done. unfold fuel_for. lia.
  - destruct (inner_get n0 t key (2 * length key + 2)) as (n' & d & Hi & Hr'); try done.
    unfold fuel_for. replace (2 * length key + 3) with (S (2 * length key + 2)) by lia.
    cbn [tryGet]. unfold resolveHash. rewrite Hdb, Hi. eauto.
Qed.

(** ** The operations *)

Definition root_map (root : node) (m : bytes → option bytes) : Prop := ∃ t, root_ok root t ∧ contents t m.

Lemma TryGet_ok root m key : root_map root m →
  ∃ root', TryGet db_node root key = Some (inl (m key), root') ∧ root_map root' m.
Proof.
  intros (t & Hr & Hm). unfold TryGet.
  destruct (root_get root t _ Hr (keybytesToHex_hexkey key)) as (n' & d & -> & Hr').
  eexists. rewrite (proj1 Hm). split; [done|]. exists t. by destruct d.
Qed.
Lemma TryDelete_ok root m key : root_map root m →
  ∃ root', TryDelete db_node root key = Some (None, root') ∧ root_map root' (map_update m key []).
Proof.
  intros (t & Hr & Hm). unfold TryDelete.
  destruct (root_delete root t _ Hr (keybytesToHex_hexkey key)) as (d & n' & t' & -> & Hu & Hr').
  eexists. split; [done|]. exists t'. split; [done|]. by apply (contents_upd t).
Qed.
Lemma TryUpdate_ok root m key value : root_map root m →
  ∃ root', TryUpdate db_node root key value = Some (None, root') ∧ root_map root' (map_update m key value).
Proof.
  intros Hrm. destruct value as [|b value]; [by apply TryDelete_ok|]. destruct Hrm as (t & Hr & Hm). unfold TryUpdate.
  destruct (root_insert root t _ (b :: value) Hr (keybytesToHex_hexkey key) ltac:(done)) as (d & n' & t' & -> & Hu & Hr').
  eexists. split; [done|]. exists t'. split; [done|]. by apply (contents_upd t).
Qed.
End Root.
