(* ===== verification/TrieNode.v ===== *)
(** * Nodes on disk: the decoder of trie/node.go

    [decodeNode] reads the encoding of a node.  A node written by the hasher
    reads back as the node with its children as references: the hash, or the
    embedded node itself. *)

From Stdlib Require Import ZArith Lia.
From S2P Require Import Prelude Errors Rlp Fullnode Messages Trie TriePure TrieLaws TrieHash.
Open Scope didux_scope.
Open Scope nat_scope.

(** ** rlp/raw.go *)

Definition SplitString (b : bytes) : option (bytes * bytes) :=
  match Split b with
  | Some (KList, _, _) | None => None
  | Some (_, content, rest) => Some (content, rest)
  end.
Definition SplitList (b : bytes) : option (bytes * bytes) :=
  match Split b with Some (KList, content, rest) => Some (content, rest) | _ => None end.

(** Every value has at least one byte. *)
Fixpoint CountValues_loop (fuel : nat) (b : bytes) (i : nat) : option nat :=
  match b with
  | [] => Some i
  | _ =>
      match fuel with
      | 0 => None
      | S fuel =>
          match readKind b with
          | Some (_, tagsize, size) => CountValues_loop fuel (drop (Z.to_nat (tagsize + size)) b) (S i)
          | None => None
          end
      end
  end.
(** The count, [0] on an error. *)
Definition CountValues (b : bytes) : nat := default 0 (CountValues_loop (length b) b 0).

(** ** trie/node.go *)

Definition hashLen : nat := 32.

(** [decNode] reads an embedded node. *)
Definition decodeRef (decNode : bytes → option node) (buf : bytes) : option (node * bytes) :=
  match Split buf with
  | None => None
  | Some (KList, _, rest) =>
      if hashLen <? length buf - length rest then None
      else match decNode buf with Some n => Some (n, rest) | None => None end
  | Some (KString, val, rest) =>
      if length val =? 0 then Some (Nil, rest)
      else if length val =? 32 then Some (hashNode val, rest)
      else None
  | Some (KByte, _, _) => None
  end.

Definition decodeShort (decNode : bytes → option node) (hash : option bytes) (elems : bytes) : option node :=
  match SplitString elems with
  | None => None
  | Some (kbuf, rest) =>
      let flag := MkFlag hash false in
      let key := compactToHex kbuf in
      if hasTerm key then
        match SplitString rest with
        | None => None
        | Some (val, _) => Some (shortNode key (valueNode val) flag)
        end
      else
        match decodeRef decNode rest with
        | None => None
        | Some (r, _) => Some (shortNode key r flag)
        end
  end.

(** The loop over the first 16 children. *)
Fixpoint decodeRefs (decNode : bytes → option node) (n : nat) (elems : bytes) : option (list node * bytes) :=
  match n with
  | 0 => Some ([], elems)
  | S n =>
      match decodeRef decNode elems with
      | None => None
      | Some (cld, rest) =>
          match decodeRefs decNode n rest with Some (cs, rest) => Some (cld :: cs, rest) | None => None end
      end
  end.

Definition decodeFull (decNode : bytes → option node) (hash : option bytes) (elems : bytes) : option node :=
  match decodeRefs decNode 16 elems with
  | None => None
  | Some (cs, elems) =>
      match SplitString elems with
      | None => None
      | Some (val, _) =>
          Some (fullNode (cs ++ [if 0 <? length val then valueNode val else Nil]) (MkFlag hash false))
      end
  end.

(** An embedded node is shorter than the node that holds it. *)
Fixpoint decodeNode_loop (fuel : nat) (hash : option bytes) (buf : bytes) : option node :=
  match fuel with
  | 0 => None
  | S fuel =>
      match SplitList buf with
      | None => None
      | Some (elems, _) =>
          let c := CountValues elems in
          if c =? 2 then decodeShort (decodeNode_loop fuel None) hash elems
          else if c =? 17 then decodeFull (decodeNode_loop fuel None) hash elems
          else None
      end
  end.
Definition decodeNode (hash : option bytes) (buf : bytes) : option node :=
  decodeNode_loop (S (length buf)) hash buf.

(** ** Reading what the encoder writes *)

Lemma SplitString_encode b rest : (blen b < two63)%Z → SplitString (encodeString b ++ rest) = Some (b, rest).
Proof.
  intros Hb. destruct (Split_encodeString b rest Hb) as (k & Hk & Hs). unfold SplitString. rewrite Hs. by destruct k.
Qed.
Lemma Split_string b rest : (blen b < two63)%Z → length b ≠ 1 →
  Split (encodeString b ++ rest) = Some (KString, b, rest).
Proof.
  intros Hb Hl. destruct b as [|x [|y b]]; [|done|].
  - apply (Split_puthead KString 128 183 []); [tauto|done|done].
  - apply (Split_puthead KString 128 183 (x :: y :: b)); [tauto|done|done].
Qed.
Lemma SplitList_encode l rest : (blen (encode_list l) < two63)%Z →
  SplitList (encode (Lst l) ++ rest) = Some (encode_list l, rest).
Proof. intros Hb. unfold SplitList. by rewrite Split_encode_Lst. Qed.

Lemma readKind_Split b k content rest : Split b = Some (k, content, rest) →
  ∃ ts cs, readKind b = Some (k, ts, cs) ∧ drop (Z.to_nat (ts + cs)) b = rest.
Proof. unfold Split. destruct (readKind b) as [[[k' ts] cs]|]; [|done]. intros; simplify_eq. eauto. Qed.

Lemma Split_encode i rest : (blen (encode i) < two63)%Z → ∃ k content, Split (encode i ++ rest) = Some (k, content, rest).
Proof.
  intros Hb. destruct i as [b|l].
  - pose proof (length_encode_Str b). destruct (Split_encodeString b rest) as (k & _ & Hs);
      [cbn [encode] in Hb; unfold blen in *; lia|]. eexists _, _. exact Hs.
  - pose proof (length_encode_Lst l). eexists _, _. apply Split_encode_Lst. unfold blen in *. lia.
Qed.

Lemma CountValues_encode l : (blen (encode_list l) < two63)%Z → CountValues (encode_list l) = length l.
Proof.
  assert (∀ l fuel i, (blen (encode_list l) < two63)%Z → length (encode_list l) ≤ fuel →
    CountValues_loop fuel (encode_list l) i = Some (i + length l)) as Hloop.
  { clear l. induction l as [|x l IH]; intros fuel i Hb Hf; [destruct fuel; cbn; f_equal; lia|].
    change (encode_list (x :: l)) with (encode x ++ encode_list l) in *.
    pose proof (encode_nonempty x). rewrite length_app in Hf. rewrite blen_app in Hb.
    assert (0 ≤ blen (encode_list l) ∧ 0 ≤ blen (encode x))%Z by (unfold blen; lia).
    destruct (Split_encode x (encode_list l)) as (k & content & Hs); [lia|].
    destruct (readKind_Split _ _ _ _ Hs) as (ts & cs & Hr & Hd).
    destruct fuel as [|fuel]; [lia|]. cbn [CountValues_loop].
    destruct (encode x ++ encode_list l) eqn:He; [by destruct (encode x); [cbn in *; lia|]|].
    rewrite Hr, Hd, IH by lia. cbn. f_equal. lia. }
  intros Hb. unfold CountValues. by rewrite (Hloop l (length (encode_list l)) 0).
Qed.

Section Decode.
Context {C : Crypto}.

(** ** The node read back *)

Definition embedded : nodeFlag := MkFlag None false.

Definition by_hash (t : ptrie) : bool := pinner t && (32 <=? length (enc t)).
Fixpoint shallow (fl : nodeFlag) (t : ptrie) : node :=
  match t with
  | PNil => Nil
  | PVal v => valueNode v
  | PShort k t => shortNode k (if by_hash t then hashNode (hash_of t) else shallow embedded t) fl
  | PFull ts => fullNode (map (λ t, if by_hash t then hashNode (hash_of t) else shallow embedded t) ts) fl
  end.
Definition nref (t : ptrie) : node := if by_hash t then hashNode (hash_of t) else shallow embedded t.

Lemma by_hash_spec t : by_hash t = true ↔ pinner t = true ∧ big t.
Proof. unfold by_hash, big. rewrite andb_true_iff, Nat.leb_le. done. Qed.
Lemma by_hash_false t : pinner t = true → by_hash t = false → length (enc t) < 32.
Proof. unfold by_hash. intros ->. by intros ?%Nat.leb_gt. Qed.

Lemma decodeRef_ok dec t rest : canon0 t → (blen (encode (pref t)) < two63)%Z →
  (by_hash t = false → pinner t = true → dec (enc t ++ rest) = Some (shallow embedded t)) →
  decodeRef dec (encode (pref t) ++ rest) = Some (nref t, rest).
Proof.
  intros Hc Hb Hdec. unfold decodeRef, nref. destruct Hc as [->|Hc].
  { change (encode (pref PNil)) with (encodeString []). by rewrite Split_string. }
  pose proof (canon_pinner t Hc) as Hi. destruct (by_hash t) eqn:Hbh.
  - apply by_hash_spec in Hbh as [_ Hbig]. rewrite (pref_big t Hi Hbig). cbn [encode].
    rewrite Split_string; rewrite ?length_hash_of; [done| |done]. unfold blen. rewrite length_hash_of. unfold two63. lia.
  - pose proof (by_hash_false t Hi Hbh) as Hlt. rewrite pref_small in * by (unfold big; lia). fold (enc t) in *.
    assert (∃ l, penc t = Lst l) as [l Hl] by (destruct t; try done; eauto).
    assert (Split (enc t ++ rest) = Some (KList, encode_list l, rest)) as ->.
    { unfold enc in *. rewrite Hl in *. apply Split_encode_Lst. pose proof (length_encode_Lst l). unfold blen in *. lia. }
    rewrite length_app. replace (length (enc t) + length rest - length rest) with (length (enc t)) by lia.
    destruct (Nat.ltb_spec hashLen (length (enc t))); [unfold hashLen in *; lia|]. by rewrite Hdec.
Qed.

Lemma encode_list_cons i l : encode_list (i :: l) = encode i ++ encode_list l.
Proof. done. Qed.
Lemma encode_list_elem i l : i ∈ l → length (encode i) ≤ length (encode_list l).
Proof.
  induction 1 as [i l|i j l _ IH]; rewrite encode_list_cons, length_app; lia.
Qed.

Lemma decodeRefs_ok dec ts rest : Forall (λ t, ∀ rest', (blen (encode (pref t)) < two63)%Z →
    decodeRef dec (encode (pref t) ++ rest') = Some (nref t, rest')) ts →
  (blen (encode_list (map pref ts)) < two63)%Z →
  decodeRefs dec (length ts) (encode_list (map pref ts) ++ rest) = Some (map nref ts, rest).
Proof.
  induction 1 as [|t ts Ht _ IH]; intros Hb; [done|]. cbn [map length decodeRefs] in *.
  change (encode_list (pref t :: map pref ts)) with (encode (pref t) ++ encode_list (map pref ts)) in *.
  rewrite blen_app in Hb. rewrite <- app_assoc, Ht by (unfold blen in *; lia). rewrite IH by (unfold blen in *; lia). done.
Qed.

Lemma compactToHex_pcompact k : nodekey k → compactToHex (pcompact k) = k.
Proof. intros Hk. destruct (compact_roundtrip k Hk) as (c & Hc & Hr). unfold pcompact. by rewrite Hc. Qed.

Lemma decodeShort_leaf dec h k v : hexkey k →
  (blen (encode_list [Str (pcompact k); link (PVal v) (penc (PVal v))]) < two63)%Z →
  decodeShort dec h (encode_list [Str (pcompact k); link (PVal v) (penc (PVal v))]) =
  Some (shallow (MkFlag h false) (PShort k (PVal v))).
Proof.
  intros Hk Hb. rewrite !encode_list_cons in *. cbn [encode link pinner andb penc] in *. rewrite !blen_app in Hb.
  pose proof (length_encode_Str (pcompact k)). pose proof (length_encode_Str v). unfold decodeShort.
  rewrite SplitString_encode by (unfold blen in *; lia). rewrite compactToHex_pcompact by (by right).
  destruct Hk as (l & Hl & ->). rewrite hasTerm_snoc, SplitString_encode by (unfold blen in *; lia). done.
Qed.
Lemma decodeShort_ext dec h k t : nibbles k → pinner t = true →
  (blen (encode_list [Str (pcompact k); link t (penc t)]) < two63)%Z →
  (∀ rest, (blen (encode (pref t)) < two63)%Z → decodeRef dec (encode (pref t) ++ rest) = Some (nref t, rest)) →
  decodeShort dec h (encode_list [Str (pcompact k); link t (penc t)]) = Some (shallow (MkFlag h false) (PShort k t)).
Proof.
  intros Hk Hi Hb Href. rewrite !encode_list_cons in *. fold (pref t) in *. cbn [encode] in *. rewrite !blen_app in Hb.
  pose proof (length_encode_Str (pcompact k)). unfold decodeShort.
  rewrite SplitString_encode by (unfold blen in *; lia). rewrite compactToHex_pcompact by (by left).
  rewrite hasTerm_nibbles, Href by (done || unfold blen in *; lia). done.
Qed.

Lemma decodeFull_ok dec h ts : length ts = 17 →
  (∀ t, ts !! 16 = Some t → t ≠ PNil → ∃ v, v ≠ [] ∧ t = PVal v) →
  (blen (encode_list (map (λ t, link t (penc t)) ts)) < two63)%Z →
  (∀ i t rest, i < 16 → ts !! i = Some t → (blen (encode (pref t)) < two63)%Z →
    decodeRef dec (encode (pref t) ++ rest) = Some (nref t, rest)) →
  decodeFull dec h (encode_list (map (λ t, link t (penc t)) ts)) = Some (shallow (MkFlag h false) (PFull ts)).
Proof.
  intros H17 H16 Hb Href. change (λ t, link t (penc t)) with pref in *. cbn [shallow].
  change (λ t, if by_hash t then hashNode (hash_of t) else shallow embedded t) with nref.
  destruct (lookup_lt_is_Some_2 ts 16) as [t16 Ht16]; [lia|].
  assert (ts = take 16 ts ++ [t16]) as Hts.
  { rewrite <- (take_drop 16 ts) at 1. f_equal. rewrite (drop_S _ _ _ Ht16), drop_ge by lia. done. }
  assert (length (take 16 ts) = 16) as Hl16 by (rewrite length_take; lia).
  assert (Forall (λ t, ∀ rest, (blen (encode (pref t)) < two63)%Z →
    decodeRef dec (encode (pref t) ++ rest) = Some (nref t, rest)) (take 16 ts)) as Hall.
  { apply Forall_lookup. intros i t Hi rest. pose proof (lookup_lt_Some _ _ _ Hi).
    rewrite lookup_take_lt in Hi by lia. apply (Href i); [lia|done]. }
  clear Href. rewrite Hts in Hb |- *. rewrite !map_app in *. unfold encode_list in *. rewrite map_app, List.concat_app in *.
  fold (encode_list (map pref (take 16 ts))) in *. rewrite blen_app in Hb. unfold decodeFull.
  rewrite <- Hl16 at 1. rewrite decodeRefs_ok; [|done|unfold blen in *; lia]. cbn [map List.concat] in *.
  rewrite app_nil_r. destruct (decide (t16 = PNil)) as [->|Hn]; [by change (encode (pref PNil)) with (encodeString [] ++ []); rewrite SplitString_encode|].
  destruct (H16 t16 Ht16 Hn) as (v & Hv & ->). change (encode (pref (PVal v))) with (encodeString v) in *.
  pose proof (length_encode_Str v). rewrite <- (app_nil_r (encodeString v)).
  rewrite SplitString_encode by (unfold blen in *; rewrite ?app_nil_r in *; lia). by destruct v.
Qed.

(** A node of a canonical trie, written and read. *)
Lemma decode_enc t : canon t → ∀ fuel h rest, length (enc t) < fuel → (blen (enc t) < two63)%Z →
  decodeNode_loop fuel h (enc t ++ rest) = Some (shallow (MkFlag h false) t).
Proof.
  induction t as [t IH] using (well_founded_ind child_of_wf). intros Hc fuel h rest Hf Hb.
  destruct fuel as [|fuel]; [lia|]. cbn [decodeNode_loop].
  assert (∃ l, penc t = Lst l) as [l Hl] by (destruct Hc; eauto).
  assert (length (encode_list l) < length (enc t)) as Hlen by (unfold enc; rewrite Hl; apply length_encode_Lst).
  assert (blen (encode_list l) < two63)%Z as Hbl by (unfold blen in *; lia).
  unfold enc at 1. rewrite Hl, SplitList_encode, CountValues_encode by done.
  assert (∀ s rest', child_of s t → canon0 s → pref s ∈ l → (blen (encode (pref s)) < two63)%Z →
    decodeRef (decodeNode_loop fuel None) (encode (pref s) ++ rest') = Some (nref s, rest')) as Href.
  { intros s rest' Hs Hcs Hin Hbs. apply decodeRef_ok; [done..|]. intros Hsm Hi.
    pose proof (encode_list_elem _ _ Hin) as Hle. rewrite pref_small in Hle.
    2:{ pose proof (by_hash_false s Hi Hsm). unfold big. lia. }
    destruct Hcs as [->|Hcs]; [done|]. apply IH; [done..| |]; unfold blen, enc in *; lia. }
  inversion Hc as [k v Hk Hv|k ts Hne Hk Hcf|ts H17 Hcs H16 H2]; subst t; cbn [penc] in Hl; injection Hl as <-.
  - by apply decodeShort_leaf.
  - apply decodeShort_ext; [done..|]. intros rest' Hbs. apply Href; [done|by right|by right; left|done].
  - rewrite length_map, H17. cbn [Nat.eqb]. apply decodeFull_ok; [done..|].
    intros i t rest' Hi Ht Hbs. apply Href; [by eapply list_elem_of_lookup_2| | |done].
    + destruct (decide (t = PNil)) as [->|Hn]; [by left|right; by apply (Hcs i)].
    + apply list_elem_of_fmap. exists t. split; [done|by eapply list_elem_of_lookup_2].
Qed.

Lemma decodeNode_enc t h : canon t → (blen (enc t) < two63)%Z →
  decodeNode h (enc t) = Some (shallow (MkFlag h false) t).
Proof.
  intros Hc Hb. pose proof (decode_enc t Hc (S (length (enc t))) h [] ltac:(lia) Hb) as Hd.
  by rewrite app_nil_r in Hd.
Qed.

(** ** Loading *)

(** A database that reads the node under its hash as the decoder does. *)
Definition loads (db_node : bytes → option node) (in_db : ptrie → Prop) : Prop :=
  ∀ t, canon t → in_db t → db_node (hash_of t) = Some (shallow (MkFlag (Some (hash_of t)) false) t).

Lemma shallow_inner fl t : canon t → inner (shallow fl t).
Proof. by destruct 1. Qed.
Lemma flag_of_shallow fl t : canon t → flag_of (shallow fl t) = fl.
Proof. by destruct 1. Qed.
Lemma set_flag_shallow fl fl' t : canon t → set_flag (shallow fl t) fl' = shallow fl' t.
Proof. by destruct 1. Qed.

Lemma shallow_expands db_node in_db t : loads db_node in_db → canon t → kept in_db t →
  ∀ fl, ok_flag in_db fl t → expands db_node (ok_flag in_db) (ok_hash in_db) (shallow fl t) t.
Proof.
  intros Hl. induction t as [t IH] using (well_founded_ind child_of_wf). intros Hc Hk fl Hfl.
  assert (∀ s, child_of s t → canon s → expands db_node (ok_flag in_db) (ok_hash in_db) (nref s) s) as Hs.
  { intros s Hs Hcs. pose proof (kept_child in_db s t Hs Hk) as Hks. unfold nref.
    destruct (by_hash s) eqn:Hbh.
    - apply by_hash_spec in Hbh as [Hi Hb]. assert (in_db s) as Hdb by (by apply Hks).
      apply (ex_hash _ _ _ _ (shallow (MkFlag (Some (hash_of s)) false) s));
        [rewrite BytesToHash_32 by apply length_hash_of; by apply Hl|by apply shallow_inner|done|by apply IH].
    - apply IH; [done..|]. intros _. pose proof (by_hash_false s (canon_pinner s Hcs) Hbh). unfold big. lia. }
  inversion Hc as [k v Hk' Hv|k ts Hne Hk' Hcf|ts H17 Hcs H16 H2]; subst t.
  - constructor; [constructor|done].
  - constructor; [by apply Hs|done].
  - constructor; [by rewrite length_map| |done].
    change (λ t, if by_hash t then hashNode (hash_of t) else shallow embedded t) with nref.
    intros i c t Hci Ht. rewrite list_lookup_fmap, Ht in Hci. cbn in Hci. simplify_eq.
    destruct (decide (t = PNil)) as [->|Hn]; [constructor|].
    destruct (decide (i < 16)) as [Hi|Hi]; [apply Hs; [by eapply list_elem_of_lookup_2|by apply (Hcs i)]|].
    pose proof (lookup_lt_Some _ _ _ Ht). replace i with 16 in * by lia.
    destruct (H16 t Ht Hn) as (v & _ & ->). constructor.
Qed.

Lemma loads_load db_node in_db t : loads db_node in_db → canon t → kept in_db t → in_db t →
  ∃ n, db_node (hash_of t) = Some n ∧ inner n ∧ flag_of n = MkFlag (Some (hash_of t)) false ∧
    expands db_node (ok_flag in_db) (ok_hash in_db) (set_flag n newFlag) t.
Proof.
  intros Hl Hc Hk Hdb. eexists. split; [by apply Hl|]. split; [by apply shallow_inner|].
  rewrite flag_of_shallow, set_flag_shallow by done. split; [done|]. by apply shallow_expands.
Qed.

(** Opening a trie by its root hash: [trie.New]. *)
Definition New (db_node : bytes → option node) (root : bytes) : node + MissingNodeError :=
  if bool_decide (root = replicate 32 x00) || bool_decide (root = emptyRoot) then inl Nil
  else resolveHash db_node root [].

Lemma trie_New_ok db_node in_db t : loads db_node in_db → canon t → in_db t → kept in_db t →
  hash_of t ≠ replicate 32 x00 → hash_of t ≠ emptyRoot →
  ∃ root, New db_node (proot t) = inl root ∧ root_ok db_node in_db root t.
Proof.
  intros Hl Hc Hdb Hk H0 He. destruct (loads_load db_node in_db t Hl Hc Hk Hdb) as (n & Hn & Hin & Hfl & Hex).
  replace (proot t) with (hash_of t) by (by destruct Hc). unfold New. rewrite !bool_decide_eq_false_2 by done. cbn [orb].
  unfold resolveHash. rewrite BytesToHash_32, Hn by apply length_hash_of. eexists. split; [done|].
  apply root_ok_inner; [done|]. split; [done|]. split; [done|]. by rewrite Hfl.
Qed.
End Decode.
