(* ===== verification/TrieCommit.v ===== *)
(** * Committing a trie: what the hasher writes

    In commit mode the hasher hands every changed node to the database, each
    under the hash of its encoding, children before their parents; the nodes it
    skips are the ones already in the database. *)

From Stdlib Require Import ZArith Lia.
From S2P Require Import Prelude Errors Rlp Fullnode Messages Trie TriePure TrieLaws TrieHash TrieRoot TrieNode.
Open Scope didux_scope.
Open Scope nat_scope.

Lemma elem_of_lconcat {A} (x : A) ls : x ∈ List.concat ls ↔ ∃ l, l ∈ ls ∧ x ∈ l.
Proof. setoid_rewrite list_elem_of_In. apply in_concat. Qed.

Section Events.
Context {C : Crypto} (db_node : bytes → option node) (in_db : ptrie → Prop).
Abbreviation expands := (expands db_node (ok_flag in_db) (ok_hash in_db)).

Lemma child_canon s t : canon t → child_of s t → pinner s = true → canon s.
Proof.
  intros Hc Hs Hi. destruct Hc as [k v Hk Hv|k ts Hne Hk Hc|ts Hlen Hcs H16 _]; [by cbn in Hs; subst s|by cbn in Hs; subst s|].
  apply list_elem_of_lookup in Hs as [i Ht]. pose proof (lookup_lt_Some _ _ _ Ht). assert (s ≠ PNil) by (by intros ->).
  destruct (decide (i < 16)); [by apply (Hcs i)|]. replace i with 16 in Ht by lia.
  by destruct (H16 s Ht) as (v & _ & ->).
Qed.
Lemma child_pinner s t : child_of s t → pinner t = true.
Proof. by destruct t. Qed.
Lemma desc_canon s t : canon t → rtc child_of s t → pinner s = true → canon s.
Proof.
  intros Hc Hs. revert Hc. induction Hs as [s|s u t Hsu _ IH]; intros Hc Hi; [done|].
  apply (child_canon s u); [|done..]. apply IH; [done|by eapply child_pinner].
Qed.

Definition written (ev : list event) (s : ptrie) : Prop := in_db s ∨ ∃ c, EInsert (hash_of s) (enc s) c ∈ ev.
Definition ev_covers (t : ptrie) (ev : list event) : Prop :=
  ∀ s, rtc child_of s t → pinner s = true → big s → written ev s.
(** Every node inserted is a node of the trie, under its own hash, and comes
    after its children. *)
Definition ev_sound (t : ptrie) (ev : list event) : Prop :=
  ∀ ev1 h b c ev2, ev = ev1 ++ EInsert h b c :: ev2 →
    ∃ s, rtc child_of s t ∧ canon s ∧ crep c s ∧ h = hash_of s ∧ b = enc s ∧ ∀ u, child_of u s → ev_covers u ev1.

Lemma written_mono ev ev' s : ev ⊆ ev' → written ev s → written ev' s.
Proof. intros Hsub [?|[c Hc]]; [by left|right; exists c; by apply Hsub]. Qed.
Lemma ev_covers_mono ev ev' t : ev ⊆ ev' → ev_covers t ev → ev_covers t ev'.
Proof. intros Hsub Hc s Hs Hi Hb. by apply (written_mono ev), Hc. Qed.
Lemma ev_sound_nil t : ev_sound t [].
Proof. intros ev1 h b c ev2 Heq. by destruct ev1. Qed.
Lemma ev_sound_child s t ev : child_of s t → ev_sound s ev → ev_sound t ev.
Proof.
  intros Hs He ev1 h b c ev2 Heq. destruct (He ev1 h b c ev2 Heq) as (u & Hu & Hc). exists u. split; [by eapply rtc_r|done].
Qed.
Lemma ev_sound_app t ev1 ev2 : ev_sound t ev1 → ev_sound t ev2 → ev_sound t (ev1 ++ ev2).
Proof.
  intros H1 H2 l1 h b c l2 Heq. apply app_eq_inv in Heq as [(k & -> & Heq)|(k & -> & Heq)].
  - destruct k as [|e k]; cbn [app] in Heq; simplify_eq; [|by eapply H1].
    destruct (H2 [] h b c l2 eq_refl) as (s & ? & ? & ? & ? & ? & Hcov). exists s. split_and!; [done..|].
    intros u Hu. apply (ev_covers_mono []); [apply list_subseteq_nil|by apply Hcov].
  - destruct (H2 k h b c l2 Heq) as (s & ? & ? & ? & ? & ? & Hcov). exists s. split_and!; [done..|].
    intros u Hu. apply (ev_covers_mono k); [by apply list_subseteq_app_r|by apply Hcov].
Qed.
Lemma ev_sound_concat t evl : Forall (ev_sound t) evl → ev_sound t (List.concat evl).
Proof. induction 1; [apply ev_sound_nil|]. cbn. by apply ev_sound_app. Qed.
Lemma leaf_events_ELeaf c h e : e ∈ leaf_events c h → ∃ child, e = ELeaf child h.
Proof.
  destruct c as [|cs fl|k v fl| |]; cbn; try (by intros ?%not_elem_of_nil).
  - intros (x & _ & Hx)%list_elem_of_omap. destruct x; simplify_eq. eauto.
  - destruct v; intros He; try (by apply not_elem_of_nil in He). apply list_elem_of_singleton in He as ->. eauto.
Qed.

(** The node itself, after its children. *)
Lemma store_events c force t ev : canon t → crep c t → (∀ h, ccache c = Some h → h = hash_of t) →
  (∀ u, child_of u t → ev_covers u ev) → ev_sound t ev →
  ev_sound t (ev ++ (store true c force).2) ∧ (force = true ∨ big t → EInsert (hash_of t) (enc t) c ∈ (store true c force).2).
Proof.
  intros Hct Hc Hcache Hcov Hs. destruct (crep_cinner c t Hc) as [Hin Hi]. pose proof (crep_citem t c Hc) as Hci.
  assert (∃ b, (store true c force).2 = (if (length (enc t) <? 32) && b then [] else
    EInsert (hash_of t) (enc t) c :: leaf_events c (hash_of t)) ∧ b = negb force) as (b & -> & Hb).
  { exists (negb force). split; [|done]. unfold store. destruct c as [|cs fl|k v fl| |]; try done.
    all: rewrite Hci; fold (enc t); destruct (_ && _); [done|]; cbn [ccache] in *.
    all: assert (match fl_hash fl with Some h => h | None => makeHashNode (enc t) end = hash_of t) as ->
      by (destruct (fl_hash fl) as [h|]; [by rewrite (Hcache h)|done]).
    all: rewrite (BytesToHash_32 (hash_of t)) by apply length_hash_of; done. }
  subst b. split.
  - destruct (_ && _); [by rewrite app_nil_r|]. intros ev1 h b c' ev2 Heq.
    apply app_eq_inv in Heq as [(k & -> & Heq)|(k & -> & Heq)].
    + destruct k as [|e k]; cbn [app] in Heq; simplify_eq; [rewrite app_nil_r in *; by exists t|].
      by eapply Hs.
    + destruct k as [|e k]; cbn [app] in Heq; [simplify_eq; rewrite app_nil_r in *; by exists t|]. injection Heq as <- Heq.
      assert (EInsert h b c' ∈ leaf_events c (hash_of t)) as [child ?]%leaf_events_ELeaf; [|done].
      rewrite Heq. apply elem_of_app. right. by left.
  - intros Hf. destruct (Nat.ltb_spec (length (enc t)) 32) as [Hl|Hl]; cbn [andb]; [|by left].
    destruct Hf as [->|Hb]; [by left|]. unfold big in Hb. lia.
Qed.

Definition hash_events (n : node) (t : ptrie) : Prop :=
  ∀ c n' ev, hash true false n = Some (c, n', ev) → ev_sound t ev ∧ ev_covers t ev.

Lemma desc_inv s t : rtc child_of s t → s = t ∨ ∃ u, child_of u t ∧ rtc child_of s u.
Proof. intros [->|(u & Hu & Hut)]%rtc_inv_r; [by left|right; eauto]. Qed.
Lemma desc_leaf s t : pinner t = false → rtc child_of s t → s = t.
Proof. intros Hi [->|(u & Hu & _)]%desc_inv; [done|]. by destruct t. Qed.

(** The events of the children. *)
Lemma collapse_events n t col cch ev : inner n → canon t → expands (set_flag n newFlag) t →
  (∀ m s, child_of s t → expands m s → canon s → hash_events m s) →
  hashChildren (hash true false) n = Some (col, cch, ev) →
  ev_sound t ev ∧ ∀ u, child_of u t → ev_covers u ev.
Proof.
  intros Hin Hc He IH Hh.
  assert (∀ u ev', pinner u = false → ev_covers u ev') as Hleaf.
  { intros u ev' Hu s Hs Hi. rewrite (desc_leaf s u Hu Hs) in Hi. congruence. }
  destruct n as [|cs fl|k v fl| |]; try done; cbn [set_flag] in He; cbn [hashChildren] in Hh.
  - destruct (hash_list _ 0 cs) as [[[cols cchs] evs]|] eqn:Hl; simplify_eq.
    inversion He as [| | |? ts ? Hlen Hcs _ |]; simplify_eq.
    destruct (hash_list_Some _ _ _ _ _ _ Hl) as (evl & -> & H1 & H2 & H3 & Hall). cbn [Nat.add] in Hall.
    pose proof (proj1 (canon_full_slot ts) Hc) as (H17 & Hsl & _).
    assert (∀ i u, ts !! i = Some u → ∃ ev', evl !! i = Some ev' ∧ ev_sound (PFull ts) ev' ∧ ev_covers u ev') as Hi.
    { intros i u Hu. destruct (lookup_lt_is_Some_2 cs i) as [c Hci]; [rewrite Hlen; by eapply lookup_lt_Some|].
      destruct (Hall i c Hci) as (col & cch & ev' & Hch & _ & _ & Hev). exists ev'. split; [done|].
      pose proof (Hcs i c u Hci Hu) as Hcu. unfold hash_child in Hch. specialize (Hsl i u Hu).
      pose proof (lookup_lt_Some _ _ _ Hu).
      assert (ev' = [] → pinner u = false → ev_sound (PFull ts) ev' ∧ ev_covers u ev') as Hnone.
      { intros -> Hpu. split; [by apply ev_sound_nil|by apply Hleaf]. }
      destruct (decide (u = PNil)) as [->|Hn].
      { apply Hnone; [|done]. rewrite (expands_nil _ _ _ _ Hcu) in Hch. destruct (i <? 16); cbn in Hch; by simplify_eq. }
      specialize (Hsl Hn). destruct (Nat.ltb_spec i 16).
      - destruct (Nat.eqb_spec i 16); [lia|]. apply list_elem_of_lookup_2 in Hu as Hchild.
        assert (hash true false c = Some (col, cch, ev')) as Hhc by (by destruct c; try done; inversion Hcu; simplify_eq).
        destruct (IH c u Hchild Hcu Hsl _ _ _ Hhc). split; [by apply (ev_sound_child u)|done].
      - destruct (Nat.eqb_spec i 16); [|lia]. destruct Hsl as (b & _ & ->). apply Hnone; [|done].
        rewrite (expands_val _ _ _ _ _ Hcu) in Hch. cbn in Hch. by simplify_eq. }
    split.
    + apply ev_sound_concat, Forall_lookup. intros i ev' Hev'.
      destruct (lookup_lt_is_Some_2 ts i) as [u Hu]; [rewrite <- Hlen, <- H3; by eapply lookup_lt_Some|].
      destruct (Hi i u Hu) as (ev'' & Hev'' & Hs & _). by simplify_eq.
    + intros u [i Hu]%list_elem_of_lookup s Hs Hps Hb. destruct (Hi i u Hu) as (ev' & Hev' & _ & Hcov).
      apply (written_mono ev'); [|by apply Hcov]. intros e He'. apply elem_of_lconcat. exists ev'.
      split; [by eapply list_elem_of_lookup_2|done].
  - destruct (hexToCompact k) as [ck|]; [|done].
    destruct (match v with valueNode b => _ | _ => _ end) as [[[col' cch'] ev']|] eqn:Hv; simplify_eq.
    inversion He as [| |? ? t' ? Hvt _| |]; simplify_eq. inversion Hc as [? b Hk _|? ts Hne Hk Hcf|]; simplify_eq.
    + rewrite (expands_val _ _ _ _ _ Hvt) in Hv. simplify_eq. split; [by apply ev_sound_nil|].
      intros u ->. by apply Hleaf.
    + assert (hash true false v = Some (col', cch', ev)) as Hhc by (by destruct v; try done; inversion Hvt).
      destruct (IH v (PFull ts) eq_refl Hvt Hcf _ _ _ Hhc). split; [by apply (ev_sound_child (PFull ts))|].
      by intros u ->.
Qed.

(** The walk: the children, then the node. *)
Lemma walk_events n t force c n' ev : inner n → canon t → expands (set_flag n newFlag) t →
  (∀ m s, child_of s t → expands m s → canon s → hash_events m s) →
  (∀ h, fl_hash (flag_of n) = Some h → h = hash_of t) →
  hash_walk true force n = Some (c, n', ev) →
  ev_sound t ev ∧ ev_covers t ev ∧ (force = true → written ev t).
Proof.
  intros Hin Hc He IH Hfl Hw. unfold hash_walk in Hw.
  destruct (hashChildren _ n) as [[[col cch] ev0]|] eqn:Hh; [|done].
  destruct (collapse_events n t col cch ev0 Hin Hc He IH Hh) as [Hs Hcov].
  destruct (collapse_ok db_node in_db (hash true false) n t Hin Hc He) as (col' & cch' & ev'' & Hh' & Hcr & Hcc).
  { intros m s _. apply hash_ok. }
  rewrite Hh in Hh'. simplify_eq.
  destruct (store_events col' force t ev'' Hc Hcr) as [Hs' Hin']; [by rewrite Hcc|done..|].
  destruct (store true col' force) as [hashed ev'] eqn:Hst. simplify_eq. cbn [snd] in *.
  split; [done|]. split.
  - intros s [->|(u & Hu & Hsu)]%desc_inv Hi Hb.
    + right. exists col'. apply elem_of_app. right. by apply Hin'; right.
    + apply (written_mono ev''); [apply list_subseteq_app_l; done|by apply (Hcov u)].
  - intros ->. right. exists col'. apply elem_of_app. right. apply Hin'. by left.
Qed.

Lemma hash_events_ok n t : expands n t → canon t → hash_events n t.
Proof.
  revert n. induction t as [t IH] using (well_founded_ind child_of_wf). intros n He Hc c n' ev Hh.
  assert (∀ in_ev, kept in_db t → ev_covers t in_ev) as Hkept.
  { intros ev' Hk s Hs Hi Hb. left. by apply Hk. }
  assert (inner n ∨ ∃ h, n = hashNode h) as [Hin|[h ->]].
  { destruct n; [|by left..|right; eauto|]; inversion He; subst t; inversion Hc. }
  - apply expands_reflag in He as [He Hf]; [|done]. rewrite hash_inner_eq in Hh by done. unfold ok_flag in Hf.
    assert (hash_walk true false n = Some (c, n', ev) → (∀ h, fl_hash (flag_of n) = Some h → h = hash_of t) →
      ev_sound t ev ∧ ev_covers t ev) as Hwalk.
    { intros Hw Hfl. destruct (walk_events n t false c n' ev Hin Hc He) as (H1 & H2 & _); try done.
      intros m s Hs Hm Hcs. by apply (IH s Hs). }
    destruct (fl_hash (flag_of n)) as [h|]; [|by apply Hwalk]. destruct Hf as (-> & Hb & Hk). cbn [negb] in Hh.
    destruct (fl_dirty (flag_of n)); cbn [negb] in Hh; [apply Hwalk; [done|by intros; simplify_eq]|]. simplify_eq.
    split; [by apply ev_sound_nil|by apply Hkept, Hk].
  - cbn in Hh. simplify_eq. split; [by apply ev_sound_nil|].
    inversion He as [| | | |? ? ? _ _ (_ & _ & Hk) _]; simplify_eq. by apply Hkept.
Qed.

Lemma root_events n t c n' ev : inner n → root_ok db_node in_db n t → hash true true n = Some (c, n', ev) →
  ev_sound t ev ∧ ev_covers t ev ∧ (t ≠ PNil → written ev t).
Proof.
  intros Hin (Hc & He & Hf)%root_ok_inner Hh; [|done]. rewrite hash_inner_eq in Hh by done. unfold ok_root_flag in Hf.
  assert (hash_walk true true n = Some (c, n', ev) → (∀ h, fl_hash (flag_of n) = Some h → h = hash_of t) →
    ev_sound t ev ∧ ev_covers t ev ∧ (t ≠ PNil → written ev t)) as Hwalk.
  { intros Hw Hfl. destruct (walk_events n t true c n' ev Hin Hc He) as (H1 & H2 & H3); try done; [|by auto].
    intros m s _ Hm Hcs. by apply hash_events_ok. }
  destruct (fl_hash (flag_of n)) as [h|]; [|by apply Hwalk]. destruct Hf as (-> & Hk). cbn [negb] in Hh.
  destruct (fl_dirty (flag_of n)); cbn [negb] in Hh; [apply Hwalk; [done|by intros; simplify_eq]|]. simplify_eq.
  destruct (Hk eq_refl) as [Hdb Hkt]. split; [by apply ev_sound_nil|]. split; [|by left].
  intros s Hs Hi Hb. left. by apply Hkt.
Qed.

(** Committing a root: the events hold every node that is not in the
    database, each as a node of the trie. *)
Lemma commit_events root t h root' ev : root_ok db_node in_db root t → CommitTrie root = Some (h, root', ev) →
  ev_sound t ev ∧ ev_covers t ev ∧ (t ≠ PNil → written ev t).
Proof.
  intros Hr Hcm. unfold CommitTrie in Hcm.
  destruct (hashRoot true root) as [[[c n'] ev']|] eqn:Hh; [|done]. destruct c; try done. simplify_eq.
  destruct root as [|cs fl|k v fl|hh|]; [| | | |done].
  - cbn in Hr, Hh. simplify_eq. split; [by apply ev_sound_nil|]. split; [|done].
    intros s Hs Hi. by rewrite (desc_leaf s PNil eq_refl Hs) in Hi.
  - by eapply (root_events (fullNode cs fl)).
  - by eapply (root_events (shortNode k v fl)).
  - destruct Hr as (Hc & -> & Hdb & Hk & _). cbn in Hh. simplify_eq. split; [by apply ev_sound_nil|].
    split; [|by left]. intros s Hs Hi Hb. left. by apply Hk.
Qed.
End Events.
