(* ===== verification/TrieProof.v ===== *)
(** * Merkle proofs: trie/proof.go

    [Prove] writes the encodings of the nodes on the path of a key,
    [VerifyProof] walks them from the root hash.  The verifier's answer is
    that of the trie with this root hash, whatever the proof, when no two of
    the encodings at stake have the same hash; and the proof of [Prove] is
    accepted. *)

From Stdlib Require Import ZArith Lia.
From S2P Require Import Prelude Errors Rlp Fullnode Messages Trie TriePure TrieLaws TrieHash TrieRoot TrieNode.
Open Scope didux_scope.
Open Scope nat_scope.

(** ** Verifying *)

(** The rest of the key and the node reached ([None]: [key[0]] or
    [n.Children[key[0]]] out of range). *)
Fixpoint get (tn : node) (key : list nibble) {struct tn} : option (list nibble * node) :=
  match tn with
  | shortNode k v _ =>
      if (length key <? length k) || negb (bool_decide (k = take (length k) key)) then Some ([], Nil)
      else get v (drop (length k) key)
  | fullNode cs _ =>
      match key with
      | [] => None
      | i :: key =>
          (fix child (cs : list node) (i : nat) {struct cs} : option (list nibble * node) :=
             match cs with
             | [] => None
             | c :: cs => match i with 0 => get c key | S i => child cs i end
             end) cs i
      end
  | hashNode _ => Some (key, tn)
  | Nil => Some (key, Nil)
  | valueNode _ => Some ([], tn)
  end.

Inductive proof_result :=
  | ProofValue (v : bytes)
  | ProofAbsent
  | ProofMissing (i : nat)
  | ProofBad (i : nat).

(** The loop of [VerifyProof]; [None]: a panic, or out of fuel. *)
Fixpoint VerifyProof_loop (fuel i : nat) (wantHash : bytes) (key : list nibble) (proofDb : bytes → option bytes)
  : option proof_result :=
  match fuel with
  | 0 => None
  | S fuel =>
      match proofDb wantHash with
      | None => Some (ProofMissing i)
      | Some buf =>
          match decodeNode (Some wantHash) buf with
          | None => Some (ProofBad i)
          | Some n =>
              match get n key with
              | None => None
              | Some (_, Nil) => Some ProofAbsent
              | Some (keyrest, hashNode cld) => VerifyProof_loop fuel (S i) cld keyrest proofDb
              | Some (_, valueNode cld) => Some (ProofValue cld)
              | Some _ => None
              end
          end
      end
  end.
Definition VerifyProof (fuel : nat) (rootHash : bytes) (key : bytes) (proofDb : bytes → option bytes)
  : option proof_result :=
  VerifyProof_loop fuel 0 rootHash (keybytesToHex key) proofDb.

(** ** Proving *)

Section Prove.
Context {C : Crypto} (db_node : bytes → option node).

(** The nodes on the path of the key. *)
Fixpoint prove_path (fuel : nat) (tn : node) (key : list nibble) : option (list node + MissingNodeError) :=
  match fuel with
  | 0 => None
  | S fuel =>
      match key with
      | [] => Some (inl [])
      | k0 :: ktl =>
          match tn with
          | Nil => Some (inl [])
          | shortNode k v _ =>
              if (length key <? length k) || negb (bool_decide (k = take (length k) key)) then Some (inl [tn])
              else
                match prove_path fuel v (drop (length k) key) with
                | Some (inl nodes) => Some (inl (tn :: nodes))
                | r => r
                end
          | fullNode cs _ =>
              match cs !! k0 with
              | None => None
              | Some c =>
                  match prove_path fuel c ktl with
                  | Some (inl nodes) => Some (inl (tn :: nodes))
                  | r => r
                  end
              end
          | hashNode h =>
              match resolveHash db_node h [] with
              | inr e => Some (inr e)
              | inl tn => prove_path fuel tn key
              end
          | valueNode _ => None
          end
      end
  end.

(** What is put in the proof for the nodes of the path. *)
Fixpoint prove_entries (i fromLevel : nat) (nodes : list node) : option (list (bytes * bytes)) :=
  match nodes with
  | [] => Some []
  | n :: nodes =>
      match hashChildren (hash false false) n with
      | None => None
      | Some (col, _, _) =>
          let '(hn, _) := store false col false in
          match hn with
          | CHash h =>
              match fromLevel with
              | S fromLevel => prove_entries (S i) fromLevel nodes
              | 0 =>
                  match prove_entries (S i) 0 nodes with
                  | Some l => Some ((h, encode (citem col)) :: l)
                  | None => None
                  end
              end
          | _ =>
              if i =? 0 then
                match fromLevel with
                | S fromLevel => prove_entries (S i) fromLevel nodes
                | 0 =>
                    match prove_entries (S i) 0 nodes with
                    | Some l => Some ((makeHashNode (encode (citem col)), encode (citem col)) :: l)
                    | None => None
                    end
                end
              else prove_entries (S i) fromLevel nodes
          end
      end
  end.

Definition Prove (root : node) (key : bytes) (fromLevel : nat)
  : option (list (bytes * bytes) + MissingNodeError) :=
  let key := keybytesToHex key in
  match prove_path (fuel_for key) root key with
  | None => None
  | Some (inr e) => Some (inr e)
  | Some (inl nodes) =>
      match prove_entries 0 fromLevel nodes with Some l => Some (inl l) | None => None end
  end.
End Prove.

(** The proof as a database. *)
Definition proof_db (puts : list (bytes * bytes)) (h : bytes) : option bytes :=
  snd <$> find (λ p, bool_decide (p.1 = h)) puts.

(** ** The nodes on the path *)

Fixpoint path (t : ptrie) (key : list nibble) {struct t} : list ptrie :=
  match key with
  | [] => []
  | i :: ktl =>
      match t with
      | PShort k s => t :: match strip k key with Some r => path s r | None => [] end
      | PFull ts =>
          t :: (fix child (ts : list ptrie) (i : nat) {struct ts} : list ptrie :=
                  match ts with
                  | [] => []
                  | s :: ts => match i with 0 => path s ktl | S i => child ts i end
                  end) ts i
      | _ => []
      end
  end.

Lemma path_full ts i key :
  path (PFull ts) (i :: key) = PFull ts :: match ts !! i with Some s => path s key | None => [] end.
Proof. cbn. f_equal. revert i. induction ts as [|s ts IH]; intros [|i]; cbn; [done..|apply IH]. Qed.
Lemma path_short k s key : key ≠ [] →
  path (PShort k s) key = PShort k s :: match strip k key with Some r => path s r | None => [] end.
Proof. by destruct key. Qed.
Lemma get_full cs fl i key :
  get (fullNode cs fl) (i :: key) = match cs !! i with Some c => get c key | None => None end.
Proof. cbn. revert i. induction cs as [|c cs IH]; intros [|i]; cbn; [done..|apply IH]. Qed.

(** The test of a short node. *)
Lemma strip_test k key :
  ((length key <? length k) || negb (bool_decide (k = take (length k) key))) =
  match strip k key with Some _ => false | None => true end.
Proof.
  unfold strip. destruct (decide (take (length k) key = k)) as [He|Hn].
  - rewrite !bool_decide_eq_true_2 by done. cbn. rewrite orb_false_r. apply Nat.ltb_ge.
    rewrite <- He at 1. rewrite length_take. lia.
  - rewrite (bool_decide_eq_false_2 (take _ _ = k)), bool_decide_eq_false_2 by congruence. by rewrite orb_true_r.
Qed.
Lemma strip_drop k key r : strip k key = Some r → drop (length k) key = r.
Proof. unfold strip. case_bool_decide; naive_solver. Qed.

Section Soundness.
Context {C : Crypto}.

(** Where [get] stops: no value, the value, or the hash of the next node. *)
Definition reach (s : ptrie) (r kr : list nibble) (cld : node) : Prop :=
  (cld = Nil ∧ plookup s r = None) ∨ (∃ v, cld = valueNode v ∧ plookup s r = Some v) ∨
  (∃ s', cld = hashNode (hash_of s') ∧ canon s' ∧ big s' ∧ hexkey kr ∧ length kr ≤ length r ∧
    rtc child_of s' s ∧ plookup s r = plookup s' kr ∧ ∀ x, x ∈ path s' kr → x ∈ path s r).

Lemma reach_up s t r r' kr cld : child_of s t → length r ≤ length r' → plookup t r' = plookup s r →
  (∀ x, x ∈ path s r → x ∈ path t r') → reach s r kr cld → reach t r' kr cld.
Proof.
  intros Hs Hlen Hp Hpath [[-> Hl]|[(v & -> & Hl)|(s' & -> & Hc & Hb & Hk & Hle & Hd & Hl & Hsub)]].
  - left. by rewrite Hp.
  - right; left. exists v. by rewrite Hp.
  - right; right. exists s'. do 4 (split; [done|]). split; [lia|]. split; [by eapply rtc_r|]. split; [by rewrite Hp|].
    intros x Hx. by apply Hpath, Hsub.
Qed.

Lemma get_nref s r : canon s → hexkey r →
  (∀ fl, ∃ kr cld, get (shallow fl s) r = Some (kr, cld) ∧ reach s r kr cld) →
  ∃ kr cld, get (nref s) r = Some (kr, cld) ∧ reach s r kr cld.
Proof.
  intros Hc Hr Hs. unfold nref. destruct (by_hash s) eqn:Hbh; [|apply Hs].
  apply by_hash_spec in Hbh as [_ Hb]. eexists _, _. split; [done|]. right; right. exists s. by repeat split.
Qed.

Lemma get_shallow s r fl : canon s → hexkey r →
  ∃ kr cld, get (shallow fl s) r = Some (kr, cld) ∧ reach s r kr cld ∧
    (∀ h, cld = hashNode h → length kr < length r).
Proof.
  revert r fl. induction s as [s IH] using (well_founded_ind child_of_wf). intros r fl Hc Hr.
  assert (r ≠ []) as Hne by (intros ->; by apply hexkey_nil in Hr).
  assert (∀ s' r', child_of s' s → canon s' → hexkey r' → length r' < length r → plookup s r = plookup s' r' →
    (∀ x, x ∈ path s' r' → x ∈ path s r) →
    ∃ kr cld, get (nref s') r' = Some (kr, cld) ∧ reach s r kr cld ∧ (∀ h, cld = hashNode h → length kr < length r)) as Hchild.
  { intros s' r' Hs' Hc' Hr' Hlt Hp Hpath. destruct (get_nref s' r' Hc' Hr') as (kr & cld & Hg & Hre).
    { intros fl'. destruct (IH s' Hs' r' fl' Hc' Hr') as (kr & cld & Hg & Hre & _). eauto. }
    exists kr, cld. split; [done|]. split; [apply (reach_up s' s r'); [done|lia|done..]|].
    intros h ->. destruct Hre as [[? _]|[(? & ? & _)|(? & _ & _ & _ & _ & Hle & _)]]; [done..|lia]. }
  inversion Hc as [k v Hk Hv|k ts Hkne Hk Hcf|ts H17 Hcs H16 H2]; subst s.
  - cbn [shallow get]. rewrite strip_test. destruct (strip k r) as [r'|] eqn:Hst.
    + pose proof (strip_drop _ _ _ Hst) as ->. apply strip_Some in Hst as ->. apply hexkey_prefix in Hr as ->; [|done].
      cbn. eexists _, _. split; [done|]. split; [|done]. right; left. exists v. split; [done|]. apply plookup_short.
    + eexists _, _. split; [done|]. split; [|done]. left. split; [done|]. cbn [plookup]. by rewrite Hst.
  - cbn [shallow get]. fold (nref (PFull ts)). rewrite strip_test. destruct (strip k r) as [r'|] eqn:Hst.
    + pose proof (strip_drop _ _ _ Hst) as ->. pose proof Hst as Hst'. apply strip_Some in Hst as ->.
      assert (hexkey r') as Hr' by (by rewrite hexkey_app in Hr).
      apply Hchild; [done..| |by rewrite plookup_short|].
      * rewrite length_app. destruct k; [done|]. cbn. lia.
      * intros x Hx. rewrite path_short, Hst' by done. by right.
    + eexists _, _. split; [done|]. split; [|done]. left. split; [done|]. cbn [plookup]. by rewrite Hst.
  - destruct r as [|i r]; [done|]. apply hexkey_cons in Hr as [Hi Hr]. cbn [shallow]. rewrite get_full.
    change (λ t, if by_hash t then hashNode (hash_of t) else shallow embedded t) with nref.
    destruct (lookup_lt_is_Some_2 ts i) as [t Ht]; [lia|]. rewrite list_lookup_fmap, Ht. cbn [fmap option_fmap option_map].
    assert (plookup (PFull ts) (i :: r) = plookup t r) as Hpl by (by rewrite plookup_full, Ht).
    destruct (decide (t = PNil)) as [->|Hn].
    { eexists _, _. split; [done|]. split; [|done]. left. by rewrite Hpl. }
    destruct (Nat.eqb_spec i 16) as [->|Hi16].
    { destruct (H16 t Ht Hn) as (v & _ & ->). subst r. eexists _, _. split; [done|]. split; [|done].
      right; left. exists v. by rewrite Hpl. }
    apply Hchild; [by eapply list_elem_of_lookup_2|by apply (Hcs i); [lia|..]|done|cbn; lia|done|].
    intros x Hx. rewrite path_full, Ht. by right.
Qed.

(** ** Soundness *)

(** Among the nodes of [t], the proof holds under each hash the node itself. *)
Definition honest (proofDb : bytes → option bytes) (t : ptrie) : Prop :=
  ∀ s b, rtc child_of s t → canon s → proofDb (hash_of s) = Some b → b = enc s.

(** A content-addressed proof is honest unless it holds a collision. *)
Lemma addressed_honest proofDb t :
  (∀ h b, proofDb h = Some b → makeHashNode b = h) →
  (∀ s h b, rtc child_of s t → canon s → proofDb h = Some b → makeHashNode b = makeHashNode (enc s) → b = enc s) →
  honest proofDb t.
Proof. intros Ha Hinj s b Hs Hc Hb. by apply (Hinj s (hash_of s)); [..|apply Ha]. Qed.

Definition answer (r : proof_result) (ov : option bytes) : Prop :=
  match r with ProofValue v => ov = Some v | ProofAbsent => ov = None | _ => True end.

Lemma verify_sound fuel i t s r proofDb res :
  (∀ s, rtc child_of s t → canon s → blen (enc s) < two63)%Z → honest proofDb t →
  rtc child_of s t → canon s → hexkey r → VerifyProof_loop fuel i (hash_of s) r proofDb = Some res →
  answer res (plookup s r).
Proof.
  intros Hsz Hh. revert i s r. induction fuel as [|fuel IH]; intros i s r Hs Hc Hr Hv; [done|]. cbn [VerifyProof_loop] in Hv.
  destruct (proofDb (hash_of s)) as [b|] eqn:Hb; [|simplify_eq; exact I].
  apply Hh in Hb as ->; [|done..]. rewrite decodeNode_enc in Hv by auto.
  destruct (get_shallow s r (MkFlag (Some (hash_of s)) false) Hc Hr) as (kr & cld & Hg & Hre & _). rewrite Hg in Hv.
  destruct Hre as [[-> Hl]|[(v & -> & Hl)|(s' & -> & Hc' & _ & Hk & _ & Hd & Hl & _)]]; simplify_eq; [done..|].
  rewrite Hl. apply (IH (S i) s'); [|done..]. by trans s.
Qed.
End Soundness.

(** ** Completeness *)

Section Completeness.
Context {C : Crypto} (db_node : bytes → option node) (in_db : ptrie → Prop).
Abbreviation expands := (expands db_node (ok_flag in_db) (ok_hash in_db)).

Definition answer_of (ov : option bytes) : proof_result :=
  match ov with Some v => ProofValue v | None => ProofAbsent end.

Lemma path_head s r : canon s → r ≠ [] → s ∈ path s r.
Proof. intros Hc Hr. destruct r; [done|]. destruct Hc; by left. Qed.

Lemma verify_complete fuel i s r proofDb : canon s → hexkey r → length r < fuel →
  (∀ x, x ∈ path s r → blen (enc x) < two63)%Z →
  (∀ x, x ∈ path s r → x = s ∨ big x → proofDb (hash_of x) = Some (enc x)) →
  VerifyProof_loop fuel i (hash_of s) r proofDb = Some (answer_of (plookup s r)).
Proof.
  revert i s r. induction fuel as [|fuel IH]; intros i s r Hc Hr Hf Hsz Hdb; [lia|]. cbn [VerifyProof_loop].
  assert (r ≠ []) as Hne by (intros ->; by apply hexkey_nil in Hr). pose proof (path_head s r Hc Hne) as Hs.
  rewrite Hdb, decodeNode_enc by auto.
  destruct (get_shallow s r (MkFlag (Some (hash_of s)) false) Hc Hr) as (kr & cld & -> & Hre & Hlt).
  destruct Hre as [[-> Hl]|[(v & -> & Hl)|(s' & -> & Hc' & Hb & Hk & _ & Hd & Hl & Hsub)]]; rewrite Hl; [done..|].
  specialize (Hlt _ eq_refl). apply IH; [done|done|lia|auto|]. intros x Hx Hxb. apply Hdb; [by auto|].
  right. by destruct Hxb as [->|].
Qed.

Definition on_path (n : node) (x : ptrie) : Prop := inner n ∧ canon x ∧ expands n x.

Definition proves (s : ptrie) (r : list nibble) : Prop := ∀ n fuel, expands n s → 2 * length r + 2 ≤ fuel →
  ∃ ns, prove_path db_node fuel n r = Some (inl ns) ∧ Forall2 on_path ns (path s r).
Definition proves_inner (s : ptrie) (r : list nibble) : Prop := ∀ n fuel, inner n → expands n s → 2 * length r < fuel →
  ∃ ns, prove_path db_node fuel n r = Some (inl (n :: ns)) ∧ Forall2 on_path ns (tail (path s r)).

Lemma proves_lift s r : canon s → r ≠ [] → proves_inner s r → proves s r.
Proof.
  intros Hc Hr Hp n fuel He Hf.
  assert (path s r = s :: tail (path s r)) as Hpath by (destruct r; [done|]; by destruct Hc).
  assert (inner n ∨ ∃ h, n = hashNode h) as [Hin|[h ->]].
  { destruct n; [|by left..|right; eauto|]; inversion He; subst s; inversion Hc. }
  - destruct (Hp n fuel Hin He) as (ns & Hn & Hns); [lia|]. exists (n :: ns). rewrite Hpath. split; [done|]. constructor; [by split|done].
  - inversion He as [| | | |? n ? Hdb Hin _ He']; simplify_eq. destruct fuel as [|fuel]; [lia|].
    destruct (Hp n fuel Hin He') as (ns & Hn & Hns); [lia|]. exists (n :: ns). rewrite Hpath.
    split; [|by constructor]. destruct r as [|i r]; [done|]. cbn [prove_path]. unfold resolveHash. by rewrite Hdb.
Qed.
Lemma proves_nil s : proves s [].
Proof. intros n fuel _ Hf. destruct fuel; [lia|]. exists []. by destruct s. Qed.
Lemma proves_empty r : proves PNil r.
Proof.
  intros n fuel He Hf. rewrite (expands_nil _ _ _ _ He). destruct fuel; [lia|]. exists []. by destruct r.
Qed.
Lemma proves_short k t r : r ≠ [] → k ≠ [] → (∀ r', strip k r = Some r' → proves t r') → proves_inner (PShort k t) r.
Proof.
  intros Hr Hk Hp n fuel Hin He Hf. destruct n as [| |k' v fl| |]; try done; inversion He; simplify_eq.
  destruct fuel as [|fuel]; [lia|]. rewrite path_short by done. destruct r as [|i r]; [done|]. cbn [prove_path tail].
  rewrite strip_test. destruct (strip k (i :: r)) as [r'|] eqn:Hst; [|by exists []].
  rewrite (strip_drop _ _ _ Hst). destruct (Hp r' eq_refl v fuel) as (ns & -> & Hns); [done| |by exists ns].
  apply strip_Some in Hst. apply (f_equal length) in Hst. rewrite length_app in Hst.
  assert (length k ≠ 0) by (by destruct k). lia.
Qed.
Lemma proves_full ts i t r : ts !! i = Some t → proves t r → proves_inner (PFull ts) (i :: r).
Proof.
  intros Ht Hp n fuel Hin He Hf. destruct n as [|cs fl| | |]; try done; inversion He as [| | |? ? ? Hlen Hcs _|]; simplify_eq.
  destruct fuel as [|fuel]; [lia|]. cbn in Hf. rewrite path_full, Ht. cbn [prove_path tail].
  destruct (lookup_lt_is_Some_2 cs i) as [c Hc]; [rewrite Hlen; by eapply lookup_lt_Some|]. rewrite Hc.
  destruct (Hp c fuel) as (ns & -> & Hns); [by apply (Hcs i)|lia|]. by exists ns.
Qed.

Lemma proves_canon s r : canon s → hexkey r → proves_inner s r.
Proof.
  intros Hc. revert r. induction Hc as [k w Hk Hw|k ts Hne Hk Hc IH|ts Hlen Hc IH H16 H2]; intros r Hr.
  all: assert (r ≠ []) as Hrn by (intros ->; by apply hexkey_nil in Hr).
  - apply proves_short; [done|by intros ->; apply hexkey_nil in Hk|]. intros r' ->%strip_Some.
    apply hexkey_prefix in Hr as ->; [apply proves_nil|done].
  - apply proves_short; [done..|]. intros r' ->%strip_Some. rewrite hexkey_app in Hr by done.
    apply proves_lift; [done|by intros ->; apply hexkey_nil in Hr|by apply IH].
  - destruct r as [|i r]; [done|]. apply hexkey_cons in Hr as [Hi Hr].
    destruct (lookup_lt_is_Some_2 ts i) as [t Ht]; [lia|]. apply (proves_full ts i t); [done|].
    destruct (decide (t = PNil)) as [->|Hn]; [apply proves_empty|].
    destruct (Nat.eqb_spec i 16) as [->|]; [subst r; apply proves_nil|].
    apply proves_lift; [by apply (Hc i t); [lia|..]|by intros ->; apply hexkey_nil in Hr|by apply (IH i t); [lia|..]].
Qed.

(** The path of a root: its first node is the root itself. *)
Lemma prove_path_set_flag fuel n r ns fl : inner n → r ≠ [] →
  prove_path db_node fuel (set_flag n fl) r = Some (inl (set_flag n fl :: ns)) →
  prove_path db_node fuel n r = Some (inl (n :: ns)).
Proof.
  intros Hin Hr Hp. destruct fuel as [|fuel]; [done|]. destruct r as [|i r]; [done|].
  destruct n as [|cs f|k v f| |]; try done; cbn [prove_path set_flag] in *.
  - destruct (cs !! i); [|done]. destruct (prove_path db_node fuel _ _) as [[]|]; by simplify_eq.
  - destruct (_ || _); [by simplify_eq|]. destruct (prove_path db_node fuel _ _) as [[]|]; by simplify_eq.
Qed.

(** A node of the path, with a cached hash that is right. *)
Definition entry_ok (n : node) (x : ptrie) : Prop :=
  inner n ∧ canon x ∧ expands (set_flag n newFlag) x ∧ ∀ h, fl_hash (flag_of n) = Some h → h = hash_of x.
Lemma on_path_entry n x : on_path n x → entry_ok n x.
Proof.
  intros (Hin & Hc & He). apply expands_reflag in He as [He Hf]; [|done]. do 3 (split; [done|]).
  intros h Hh. unfold ok_flag in Hf. rewrite Hh in Hf. naive_solver.
Qed.

Lemma prove_entries_ok i ns xs : Forall2 entry_ok ns xs →
  ∃ puts, prove_entries i 0 ns = Some puts ∧ (∀ h b, (h, b) ∈ puts → ∃ x, x ∈ xs ∧ h = hash_of x ∧ b = enc x) ∧
    (∀ j x, xs !! j = Some x → i + j = 0 ∨ big x → (hash_of x, enc x) ∈ puts).
Proof.
  intros Hf. revert i. induction Hf as [|n x ns xs (Hin & Hc & He & Hh) _ IH]; intros i.
  { exists []. split; [done|]. split; [by intros ? ? ?%not_elem_of_nil|done]. }
  cbn [prove_entries]. destruct (collapse_ok db_node in_db (hash false false) n x) as (col & cch & ev & -> & Hcr & Hcc); try done.
  { intros m s _. apply hash_ok. }
  pose proof (store_ok false col false x Hcr ltac:(by rewrite Hcc)) as Href.
  pose proof (crep_citem x col Hcr) as Hp.
  destruct (store false col false) as [hn ev']. cbn [fst] in Href. rewrite Hp. fold (enc x).
  destruct (IH (S i)) as (puts & Hputs & Hsound & Hall).
  assert (∀ j y, (x :: xs) !! j = Some y → i + j = 0 ∨ big y → j = 0 ∧ y = x ∨ (hash_of y, enc y) ∈ puts) as Hcov.
  { intros [|j] y Hj Hb; cbn in Hj; [simplify_eq; by left|]. right. apply (Hall j); [done|]. destruct Hb; [lia|by right]. }
  assert (∃ puts', Some ((hash_of x, enc x) :: puts) = Some puts' ∧
    (∀ h b, (h, b) ∈ puts' → ∃ y, y ∈ x :: xs ∧ h = hash_of y ∧ b = enc y) ∧
    (∀ j y, (x :: xs) !! j = Some y → i + j = 0 ∨ big y → (hash_of y, enc y) ∈ puts')) as Hput.
  { eexists. split; [done|]. split.
    - intros h b [Heq|Hin']%elem_of_cons; [simplify_eq; exists x; split; [by left|done]|].
      destruct (Hsound h b Hin') as (y & Hy & Hyb). exists y. split; [by right|done].
    - intros j y Hj Hb. destruct (Hcov j y Hj Hb) as [[_ ->]|?]; [by left|by right]. }
  destruct Href as [[-> _]|(Hc' & _ & Hsm)]; [by rewrite Hputs|]. apply crep_cinner in Hc' as [Hci _].
  destruct (Nat.eqb_spec i 0) as [->|Hi0]; [rewrite Hputs; by destruct hn|]. exists puts. split; [by destruct hn|]. split.
  - intros h b Hin'. destruct (Hsound h b Hin') as (y & Hy & Hyb). exists y. split; [by right|done].
  - intros j y Hj Hb. destruct (Hcov j y Hj Hb) as [[-> ->]|?]; [|done]. destruct Hb; [lia|done].
Qed.

Lemma proof_db_ok puts h b : (h, b) ∈ puts → (∀ h b b', (h, b) ∈ puts → (h, b') ∈ puts → b = b') →
  proof_db puts h = Some b.
Proof.
  intros Hin Hu. unfold proof_db. destruct (find _ puts) as [[h' b']|] eqn:Hf.
  - apply find_some in Hf as [Hin'%list_elem_of_In Heq%bool_decide_eq_true]. cbn in *. subst h'. f_equal. by apply (Hu h).
  - pose proof (find_none _ _ Hf (h, b) (proj1 (list_elem_of_In _ _) Hin)) as Hn. cbn in Hn.
    by rewrite bool_decide_eq_true_2 in Hn.
Qed.

(** The nodes of the trie fit in a Go slice, and no two of them have the same
    hash. *)
Definition nodes_fit (t : ptrie) : Prop := ∀ s, rtc child_of s t → canon s → (blen (enc s) < two63)%Z.
Definition no_collision (t : ptrie) : Prop :=
  ∀ s s', rtc child_of s t → rtc child_of s' t → canon s → canon s' → hash_of s = hash_of s' → enc s = enc s'.

Lemma path_sub t r x : x ∈ path t r → rtc child_of x t.
Proof.
  revert r. induction t as [t IH] using (well_founded_ind child_of_wf). intros r Hx.
  destruct r as [|i r]; [by destruct t; apply not_elem_of_nil in Hx|]. destruct t as [| |k t|ts].
  - by apply not_elem_of_nil in Hx.
  - by apply not_elem_of_nil in Hx.
  - rewrite path_short in Hx by done. apply elem_of_cons in Hx as [->|Hx]; [done|].
    destruct (strip k _) as [r'|]; [|by apply not_elem_of_nil in Hx]. eapply rtc_r; [by apply (IH t eq_refl r')|done].
  - rewrite path_full in Hx. apply elem_of_cons in Hx as [->|Hx]; [done|].
    destruct (ts !! i) as [s|] eqn:Hs; [|by apply not_elem_of_nil in Hx]. apply list_elem_of_lookup_2 in Hs.
    eapply rtc_r; [by apply (IH s Hs r)|done].
Qed.
Lemma path_canon t r x : canon t → hexkey r → x ∈ path t r → canon x.
Proof.
  intros Hc. revert r.
  induction Hc as [k w Hk Hw|k ts Hne Hk Hc IH|ts Hlen Hc IH H16 H2]; intros r Hr Hx.
  all: assert (r ≠ []) as Hrn by (intros ->; by apply hexkey_nil in Hr).
  - rewrite path_short in Hx by done. apply elem_of_cons in Hx as [->|Hx]; [by constructor|].
    destruct (strip k r) as [[|]|]; by apply not_elem_of_nil in Hx.
  - rewrite path_short in Hx by done. apply elem_of_cons in Hx as [->|Hx]; [by constructor|].
    destruct (strip k r) as [r'|] eqn:Hst; [|by apply not_elem_of_nil in Hx]. apply strip_Some in Hst as ->.
    rewrite hexkey_app in Hr by done. by apply (IH r').
  - destruct r as [|i r]; [done|]. rewrite path_full in Hx. apply elem_of_cons in Hx as [->|Hx]; [by constructor|].
    apply hexkey_cons in Hr as [Hi Hr]. destruct (ts !! i) as [t|] eqn:Ht; [|by apply not_elem_of_nil in Hx].
    destruct (decide (t = PNil)) as [->|Hn]; [by destruct r; apply not_elem_of_nil in Hx|].
    destruct (Nat.eqb_spec i 16) as [->|]; [subst r; destruct t; by apply not_elem_of_nil in Hx|].
    by apply (IH i t ltac:(lia) Ht Hn r).
Qed.

(** What [Prove] writes for a root. *)
Lemma Prove_puts root t key : root_ok db_node in_db root t → t ≠ PNil →
  ∃ puts, Prove db_node root key 0 = Some (inl puts) ∧
    (∀ h b, (h, b) ∈ puts → ∃ x, x ∈ path t (keybytesToHex key) ∧ h = hash_of x ∧ b = enc x) ∧
    (∀ x, x ∈ path t (keybytesToHex key) → x = t ∨ big x → (hash_of x, enc x) ∈ puts).
Proof.
  intros Hr Ht. pose proof (keybytesToHex_hexkey key) as Hkey. unfold Prove. set (r := keybytesToHex key) in *.
  assert (r ≠ []) as Hne by (intros Hn; rewrite Hn in Hkey; by apply hexkey_nil in Hkey).
  destruct (root_ok_cases db_node in_db root t Hr) as [[_ ?]|(Hc & n0 & Hin & He & Hr0 & Hn)]; [done|].
  assert (path t r = t :: tail (path t r)) as Hpath by (destruct r; [done|]; by destruct Hc).
  assert (∃ ns, prove_path db_node (fuel_for r) root r = Some (inl (n0 :: ns)) ∧ Forall2 on_path ns (tail (path t r)))
    as (ns & Hp & Hns).
  { assert (∀ fuel, 2 * length r < fuel → ∃ ns, prove_path db_node fuel n0 r = Some (inl (n0 :: ns)) ∧
      Forall2 on_path ns (tail (path t r))) as Hinn.
    { intros fuel Hf. destruct (proves_canon t r Hc Hkey (set_flag n0 newFlag) fuel) as (ns & Hp & Hns); [by destruct n0|done|lia|].
      exists ns. split; [|done]. by apply (prove_path_set_flag _ _ _ _ newFlag). }
    destruct Hn as [->|(h & -> & Hdb)]; [apply Hinn; unfold fuel_for; lia|].
    destruct (Hinn (2 * length r + 2)) as (ns & Hp & Hns); [lia|]. exists ns. split; [|done].
    unfold fuel_for. replace (2 * length r + 3) with (S (2 * length r + 2)) by lia. destruct r as [|i r']; [done|].
    cbn [prove_path]. unfold resolveHash. by rewrite Hdb. }
  rewrite Hp. destruct (prove_entries_ok 0 (n0 :: ns) (path t r)) as (puts & Hputs & Hsound & Hall).
  { rewrite Hpath. constructor; [|by eapply Forall2_impl; [exact Hns|apply on_path_entry]].
    pose proof Hr0 as (_ & _ & Hf)%root_ok_inner; [|done]. do 3 (split; [done|]).
    intros h Hh. unfold ok_root_flag in Hf. rewrite Hh in Hf. naive_solver. }
  rewrite Hputs. eexists. split; [done|]. split; [done|]. intros x Hx [->|Hb].
  - apply (Hall 0); [by rewrite Hpath|by left].
  - apply list_elem_of_lookup in Hx as [j Hj]. apply (Hall j); [done|by right].
Qed.

(** The proof of [Prove] is accepted, with the answer of the trie. *)
Lemma Prove_complete root t key puts fuel : root_ok db_node in_db root t → t ≠ PNil →
  nodes_fit t → no_collision t → length (keybytesToHex key) < fuel →
  Prove db_node root key 0 = Some (inl puts) →
  VerifyProof fuel (proot t) key (proof_db puts) = Some (answer_of (plookup t (keybytesToHex key))).
Proof.
  intros Hr Ht Hfit Hcol Hf HP. destruct (Prove_puts root t key Hr Ht) as (puts' & HP' & Hsound & Hall).
  rewrite HP in HP'. simplify_eq. destruct (root_ok_canon _ _ _ _ Hr) as [|Hc]; [done|].
  pose proof (keybytesToHex_hexkey key) as Hkey. replace (proot t) with (hash_of t) by (by destruct Hc).
  unfold VerifyProof. apply verify_complete; [done..| |].
  - intros x Hx. apply Hfit; [by eapply path_sub|by eapply path_canon].
  - intros x Hx Hb. apply proof_db_ok; [by apply Hall|]. intros h b b' Hin Hin'.
    destruct (Hsound h b Hin) as (y & Hy & -> & ->). destruct (Hsound _ b' Hin') as (y' & Hy' & Hh & ->).
    by apply Hcol; [eapply path_sub..|eapply path_canon|eapply path_canon|].
Qed.
End Completeness.
