(* ===== verification/TrieOps.v ===== *)
(** * What the trie promises to its clients

    Sequences of operations on a trie object, over any database that returns
    the nodes it holds; the root hash as a commitment to the contents; and
    core/types/derive_sha.go, the root of the list of transactions or
    receipts of a block. *)

From Stdlib Require Import ZArith Lia.
From S2P Require Import Prelude Errors Rlp Fullnode Messages Trie TriePure TrieLaws TrieHash TrieRoot TrieNode TrieProof.
Open Scope didux_scope.
Open Scope nat_scope.

(** ** Sequences of operations *)

Inductive trie_op :=
  | OpGet (key : bytes)
  | OpUpdate (key value : bytes)
  | OpDelete (key : bytes)
  | OpHash.

(** What an operation returns. *)
Inductive trie_out :=
  | OutValue (v : option bytes)
  | OutDone
  | OutHash (h : bytes)
  | OutError (e : MissingNodeError).

Section Ops.
Context {C : Crypto} (db_node : bytes → option node) (in_db : ptrie → Prop).

Definition trie_step (root : node) (op : trie_op) : option (trie_out * node) :=
  match op with
  | OpGet key =>
      match TryGet db_node root key with
      | Some (inl v, root) => Some (OutValue v, root)
      | Some (inr e, root) => Some (OutError e, root)
      | None => None
      end
  | OpUpdate key value =>
      match TryUpdate db_node root key value with
      | Some (None, root) => Some (OutDone, root)
      | Some (Some e, root) => Some (OutError e, root)
      | None => None
      end
  | OpDelete key =>
      match TryDelete db_node root key with
      | Some (None, root) => Some (OutDone, root)
      | Some (Some e, root) => Some (OutError e, root)
      | None => None
      end
  | OpHash => match Hash root with Some (h, root) => Some (OutHash h, root) | None => None end
  end.

Fixpoint trie_run (root : node) (ops : list trie_op) : option (list trie_out * node) :=
  match ops with
  | [] => Some ([], root)
  | op :: ops =>
      match trie_step root op with
      | None => None
      | Some (out, root) =>
          match trie_run root ops with Some (outs, root) => Some (out :: outs, root) | None => None end
      end
  end.

(** The specification: a map, and an unknown function of it for the hash. *)
Definition map_step (m : bytes → option bytes) (op : trie_op) : bytes → option bytes :=
  match op with
  | OpUpdate key value => map_update m key value
  | OpDelete key => map_update m key []
  | _ => m
  end.
Definition map_run (m : bytes → option bytes) (ops : list trie_op) : bytes → option bytes := foldl map_step m ops.

(** [h] is the root hash of the canonical trie of [m]. *)
Definition map_root (m : bytes → option bytes) (h : bytes) : Prop :=
  ∃ t, canon0 t ∧ contents t m ∧ h = proot t.

Definition out_ok (m : bytes → option bytes) (op : trie_op) (out : trie_out) : Prop :=
  match op, out with
  | OpGet key, OutValue v => v = m key
  | OpUpdate _ _, OutDone | OpDelete _, OutDone => True
  | OpHash, OutHash h => map_root m h
  | _, _ => False
  end.
Fixpoint outs_ok (m : bytes → option bytes) (ops : list trie_op) (outs : list trie_out) : Prop :=
  match ops, outs with
  | [], [] => True
  | op :: ops, out :: outs => out_ok m op out ∧ outs_ok (map_step m op) ops outs
  | _, _ => False
  end.

Lemma length_proot t : length (proot t) = 32.
Proof. destruct t; apply length_be_fix. Qed.

Lemma Hash_ok root m : loads db_node in_db → root_map db_node in_db root m →
  ∃ h root', Hash root = Some (h, root') ∧ map_root m h ∧ root_map db_node in_db root' m.
Proof.
  intros Hl (t & Hr & Hm). unfold Hash.
  destruct (hashRoot_ok db_node db_node in_db in_db) with (commit := false) (root := root) (t := t)
    as (n' & ev & -> & Hr'); [done|intros; by apply loads_load|done|done|].
  rewrite BytesToHash_32 by apply length_proot. eexists _, _. split; [done|].
  split; [|by exists t]. exists t. split; [by eapply root_ok_canon|done].
Qed.

Lemma trie_step_ok root m op : loads db_node in_db → root_map db_node in_db root m →
  ∃ out root', trie_step root op = Some (out, root') ∧ out_ok m op out ∧ root_map db_node in_db root' (map_step m op).
Proof.
  intros Hl Hr. destruct op as [key|key value|key|]; cbn.
  - destruct (TryGet_ok db_node in_db root m key Hr) as (root' & -> & Hr'). eauto.
  - destruct (TryUpdate_ok db_node in_db root m key value Hr) as (root' & -> & Hr'). by eexists OutDone, _.
  - destruct (TryDelete_ok db_node in_db root m key Hr) as (root' & -> & Hr'). by eexists OutDone, _.
  - destruct (Hash_ok root m Hl Hr) as (h & root' & -> & Hh & Hr'). by eexists (OutHash h), _.
Qed.

Lemma trie_run_ok root m ops : loads db_node in_db → root_map db_node in_db root m →
  ∃ outs root', trie_run root ops = Some (outs, root') ∧ outs_ok m ops outs ∧
    root_map db_node in_db root' (map_run m ops).
Proof.
  intros Hl. revert root m. induction ops as [|op ops IH]; intros root m Hr; [by eexists [], _|].
  destruct (trie_step_ok root m op Hl Hr) as (out & root1 & Hs & Ho & Hr1).
  destruct (IH root1 _ Hr1) as (outs & root' & Hrun & Hos & Hr'). exists (out :: outs), root'. cbn [trie_run].
  rewrite Hs, Hrun. done.
Qed.

(** C12. A trie object refines a finite map: from a root that stands for a map,
    every sequence of reads, updates, deletions and hashes runs without a
    panic and without an error, each answer is that of the map at that point,
    and the final root stands for the final map. *)
Theorem trie_refines_map root m ops : loads db_node in_db → root_map db_node in_db root m →
  ∃ outs root', trie_run root ops = Some (outs, root') ∧ outs_ok m ops outs ∧
    root_map db_node in_db root' (map_run m ops).
Proof. apply trie_run_ok. Qed.

Lemma root_map_empty : root_map db_node in_db Nil (λ _, None).
Proof. exists PNil. split; [done|]. by split. Qed.

Lemma map_root_unique m h1 h2 : map_root m h1 → map_root m h2 → h1 = h2.
Proof. intros (t1 & Hc1 & Hm1 & ->) (t2 & Hc2 & Hm2 & ->). by rewrite (contents_unique t1 t2 m). Qed.
End Ops.

(** C13. The root hash depends on the contents only: two tries that stand for the
    same map, over two databases, however they were built, loaded, cached and
    hashed before, have the same root hash. *)
Theorem Hash_history_independent `{C : Crypto} db1 in1 db2 in2 root1 root2 m h1 h2 root1' root2' :
  loads db1 in1 → loads db2 in2 → root_map db1 in1 root1 m → root_map db2 in2 root2 m →
  Hash root1 = Some (h1, root1') → Hash root2 = Some (h2, root2') → h1 = h2.
Proof.
  intros Hl1 Hl2 Hr1 Hr2 H1 H2.
  destruct (Hash_ok db1 in1 root1 m Hl1 Hr1) as (h1' & r1' & H1' & Hm1 & _).
  destruct (Hash_ok db2 in2 root2 m Hl2 Hr2) as (h2' & r2' & H2' & Hm2 & _).
  rewrite H1 in H1'. rewrite H2 in H2'. simplify_eq. by eapply map_root_unique.
Qed.

(** ** The root hash commits to the contents *)

Section Binding.
Context {C : Crypto}.

(** No two different nodes of the two tries have the same hash. *)
Definition no_collision2 (t1 t2 : ptrie) : Prop :=
  ∀ s1 s2, rtc child_of s1 t1 → rtc child_of s2 t2 → canon s1 → canon s2 → hash_of s1 = hash_of s2 → enc s1 = enc s2.

Lemma enc_shallow t1 t2 fl : canon t1 → canon t2 → nodes_fit t1 → nodes_fit t2 → enc t1 = enc t2 →
  shallow fl t1 = shallow fl t2.
Proof.
  intros Hc1 Hc2 Hf1 Hf2 He. pose proof (decodeNode_enc t1 None Hc1 (Hf1 _ (rtc_refl _ _) Hc1)) as H1.
  pose proof (decodeNode_enc t2 None Hc2 (Hf2 _ (rtc_refl _ _) Hc2)) as H2. rewrite He, H2 in H1.
  apply (inj Some) in H1. apply (f_equal (λ n, set_flag n fl)) in H1. by rewrite !set_flag_shallow in H1.
Qed.

Lemma nodes_fit_child s t : child_of s t → nodes_fit t → nodes_fit s.
Proof. intros Hs Hf u Hu. apply Hf. by eapply rtc_r. Qed.
Lemma no_collision2_child s1 s2 t1 t2 : child_of s1 t1 → child_of s2 t2 → no_collision2 t1 t2 → no_collision2 s1 s2.
Proof. intros Hs1 Hs2 Hn u1 u2 Hu1 Hu2. apply Hn; by eapply rtc_r. Qed.

Lemma nref_slot i s1 s2 : slot i s1 → slot i s2 → (canon s1 → canon s2 → nref s1 = nref s2 → s1 = s2) →
  nref s1 = nref s2 → s1 = s2.
Proof.
  intros H1 H2 Hc Hr.
  assert (∀ s, slot i s → s ≠ PNil → nref s ≠ Nil) as Hnil.
  { intros s Hs Hn. specialize (Hs Hn). unfold nref. destruct (by_hash s); [done|].
    destruct (i =? 16); [by destruct Hs as (v & _ & ->)|by destruct Hs]. }
  destruct (decide (s1 = PNil)) as [->|Hn1], (decide (s2 = PNil)) as [->|Hn2]; [done| | |].
  - by destruct (Hnil s2 H2 Hn2).
  - by destruct (Hnil s1 H1 Hn1).
  - specialize (H1 Hn1). specialize (H2 Hn2). destruct (i =? 16); [|by apply Hc].
    destruct H1 as (v1 & _ & ->), H2 as (v2 & _ & ->). unfold nref in Hr. cbn in Hr. by simplify_eq.
Qed.

Lemma shallow_inj fl t1 t2 : canon t1 → canon t2 → nodes_fit t1 → nodes_fit t2 → no_collision2 t1 t2 →
  shallow fl t1 = shallow fl t2 → t1 = t2.
Proof.
  revert t2 fl. induction t1 as [t1 IH] using (well_founded_ind child_of_wf).
  intros t2 fl Hc1 Hc2 Hf1 Hf2 Hn Hs.
  assert (∀ s1 s2, child_of s1 t1 → child_of s2 t2 → canon s1 → canon s2 → nref s1 = nref s2 → s1 = s2) as Href.
  { intros s1 s2 Hs1 Hs2 Hcs1 Hcs2 Hr. pose proof (nodes_fit_child _ _ Hs1 Hf1) as Hfs1.
    pose proof (nodes_fit_child _ _ Hs2 Hf2) as Hfs2. pose proof (no_collision2_child _ _ _ _ Hs1 Hs2 Hn) as Hns.
    unfold nref in Hr. destruct (by_hash s1), (by_hash s2).
    - apply (IH s1 Hs1 s2 embedded); try done. apply enc_shallow; try done. apply Hns; try done. congruence.
    - by pose proof (shallow_inner embedded s2 Hcs2) as Hi; rewrite <- Hr in Hi.
    - by pose proof (shallow_inner embedded s1 Hcs1) as Hi; rewrite Hr in Hi.
    - by apply (IH s1 Hs1 s2 embedded). }
  inversion Hc1 as [k1 v1 Hk1 Hv1|k1 ts1 Hne1 Hk1 Hcf1|ts1 Hl1 Hcs1 H161 H21]; subst t1;
    inversion Hc2 as [k2 v2 Hk2 Hv2|k2 ts2 Hne2 Hk2 Hcf2|ts2 Hl2 Hcs2 H162 H22]; subst t2; try done.
  - cbn in Hs. by simplify_eq.
  - cbn [shallow] in Hs. fold (nref (PFull ts2)) in Hs. simplify_eq. unfold nref in *. by destruct (by_hash _).
  - cbn [shallow] in Hs. fold (nref (PFull ts1)) in Hs. simplify_eq. unfold nref in *. by destruct (by_hash _).
  - cbn [shallow] in Hs. fold (nref (PFull ts1)) (nref (PFull ts2)) in Hs. injection Hs as -> Hs. f_equal.
    by apply Href.
  - f_equal. cbn [shallow] in Hs.
    change (λ t, if by_hash t then hashNode (hash_of t) else shallow embedded t) with nref in Hs. injection Hs as Hs.
    apply list_eq. intros i. destruct (decide (i < 17)) as [Hi|Hi]; [|by rewrite !lookup_ge_None_2 by lia].
    destruct (lookup_lt_is_Some_2 ts1 i) as [s1 Hs1]; [lia|]. destruct (lookup_lt_is_Some_2 ts2 i) as [s2 Hs2]; [lia|].
    assert (nref s1 = nref s2) as Hr.
    { apply (f_equal (λ l, l !! i)) in Hs. rewrite !list_lookup_fmap, Hs1, Hs2 in Hs. by apply (inj Some) in Hs. }
    rewrite Hs1, Hs2. f_equal. apply canon_full_slot in Hc1 as (_ & Hsl1 & _), Hc2 as (_ & Hsl2 & _).
    apply (nref_slot i); [by apply Hsl1|by apply Hsl2| |done].
    intros Hi1 Hi2 _. by apply Href; [by eapply list_elem_of_lookup_2..|done|done|].
Qed.

(** A nonempty trie does not hash to the root of the empty one. *)
Definition not_emptyRoot (t : ptrie) : Prop := t ≠ PNil → hash_of t ≠ emptyRoot.
Lemma proot_inj t1 t2 : canon0 t1 → canon0 t2 → nodes_fit t1 → nodes_fit t2 → no_collision2 t1 t2 →
  not_emptyRoot t1 → not_emptyRoot t2 → proot t1 = proot t2 → t1 = t2.
Proof.
  intros Hc1 Hc2 Hf1 Hf2 Hn H1 H2 Hp.
  destruct Hc1 as [->|Hc1], Hc2 as [->|Hc2]; [done| | |].
  - destruct H2; by destruct Hc2.
  - destruct H1; by destruct Hc1.
  - replace (proot t1) with (hash_of t1) in Hp by (by destruct Hc1).
    replace (proot t2) with (hash_of t2) in Hp by (by destruct Hc2).
    apply (shallow_inj embedded); try done. apply enc_shallow; try done. by apply Hn.
Qed.
End Binding.

(** C14. The root hash commits to the contents: two tries with the same root hash
    hold the same map, the empty one included, unless two of their nodes collide or a
    nonempty trie hashes to the root of the empty trie.  The nodes must be small enough to be encoded ([nodes_fit]). *)
Theorem Hash_binding `{C : Crypto} db1 in1 db2 in2 root1 root2 t1 t2 m1 m2 h root1' root2' :
  loads db1 in1 → loads db2 in2 →
  root_ok db1 in1 root1 t1 → contents t1 m1 → root_ok db2 in2 root2 t2 → contents t2 m2 →
  nodes_fit t1 → nodes_fit t2 → no_collision2 t1 t2 → not_emptyRoot t1 → not_emptyRoot t2 →
  Hash root1 = Some (h, root1') → Hash root2 = Some (h, root2') → ∀ key, m1 key = m2 key.
Proof.
  intros Hl1 Hl2 Hr1 Hm1 Hr2 Hm2 Hf1 Hf2 Hn He1 He2 H1 H2 key.
  destruct (Hash_ok db1 in1 root1 m1 Hl1) as (h1 & r1 & H1' & (u1 & Hu1 & Hc1 & ->) & _); [by exists t1|].
  destruct (Hash_ok db2 in2 root2 m2 Hl2) as (h2 & r2 & H2' & (u2 & Hu2 & Hc2 & ->) & _); [by exists t2|].
  assert (canon0 t1 ∧ canon0 t2) as [Ht1 Ht2] by (split; by eapply root_ok_canon).
  assert (u1 = t1) as -> by (by eapply contents_unique). assert (u2 = t2) as -> by (by eapply contents_unique).
  assert (t1 = t2) as -> by (apply proot_inj; try done; congruence). by rewrite <- (proj1 Hm1), <- (proj1 Hm2).
Qed.

(** ** core/types/derive_sha.go *)

Section DeriveSha.
Context {C : Crypto}.

(** The trie has no database. *)
Definition no_db (h : bytes) : option node := None.
Definition derive_key (i : nat) : bytes := encode (Str (putint (Z.of_nat i))).

Fixpoint derive_loop (i : nat) (l : list bytes) (root : node) : option node :=
  match l with
  | [] => Some root
  | x :: l =>
      match TryUpdate no_db root (derive_key i) x with
      | Some (None, root) => derive_loop (S i) l root
      | Some (Some _, root) => derive_loop (S i) l root
      | None => None
      end
  end.
Definition DeriveSha (l : list bytes) : option bytes :=
  match derive_loop 0 l Nil with
  | Some root => match Hash root with Some (h, _) => Some h | None => None end
  | None => None
  end.

(** The map the loop builds. *)
Fixpoint derive_map (i : nat) (l : list bytes) (m : bytes → option bytes) : bytes → option bytes :=
  match l with [] => m | x :: l => derive_map (S i) l (map_update m (derive_key i) x) end.

Definition nothing (t : ptrie) : Prop := False.
Lemma no_db_loads : loads no_db nothing.
Proof. by intros t _ []. Qed.

Lemma derive_loop_ok i l root m : root_map no_db nothing root m →
  ∃ root', derive_loop i l root = Some root' ∧ root_map no_db nothing root' (derive_map i l m).
Proof.
  revert i root m. induction l as [|x l IH]; intros i root m Hr; [by eexists|]. cbn [derive_loop derive_map].
  destruct (TryUpdate_ok no_db nothing root m (derive_key i) x Hr) as (root1 & -> & Hr1). by apply IH.
Qed.

(** The root of a list: that of the canonical trie of its map. *)
Lemma DeriveSha_ok l : ∃ h, DeriveSha l = Some h ∧ map_root (derive_map 0 l (λ _, None)) h.
Proof.
  unfold DeriveSha. destruct (derive_loop_ok 0 l Nil (λ _, None)) as (root & -> & Hr); [apply root_map_empty|].
  destruct (Hash_ok no_db nothing root _ no_db_loads Hr) as (h & root' & -> & Hh & _). eauto.
Qed.

Lemma derive_key_inj i j : (Z.of_nat i < two63)%Z → (Z.of_nat j < two63)%Z → derive_key i = derive_key j → i = j.
Proof.
  assert (∀ i, (Z.of_nat i < two63)%Z → SplitString (derive_key i ++ []) = Some (putint (Z.of_nat i), [])) as Hs.
  { intros k Hk. apply SplitString_encode. unfold blen, putint. rewrite length_be_fix.
    pose proof (intsize_le (Z.of_nat k) 8 ltac:(unfold two63 in *; lia)). unfold two63. lia. }
  intros Hi Hj He. pose proof (Hs i Hi) as H1. rewrite He, (Hs j Hj) in H1. injection H1 as H1.
  apply (f_equal be_val) in H1. rewrite !be_val_putint in H1 by lia. lia.
Qed.

Lemma derive_map_lookup i l m j : (Z.of_nat (i + length l) ≤ two63)%Z → Forall (λ x, x ≠ []) l → (Z.of_nat j < two63)%Z →
  derive_map i l m (derive_key j) = if (i <=? j) && (j <? i + length l) then l !! (j - i) else m (derive_key j).
Proof.
  revert i m. induction l as [|x l IH]; intros i m Hb Hne Hj; cbn [derive_map length].
  { destruct (Nat.leb_spec i j), (Nat.ltb_spec j (i + 0)); (done || lia). }
  apply Forall_cons in Hne as [Hx Hne]. cbn in Hb. rewrite IH by (done || lia). unfold map_update.
  destruct (decide (j = i)) as [->|Hne'].
  - rewrite (decide_True _ _ (eq_refl (derive_key i))).
    destruct (Nat.leb_spec (S i) i), (Nat.leb_spec i i), (Nat.ltb_spec i (i + S (length l))); try lia. cbn.
    rewrite Nat.sub_diag. by destruct x.
  - rewrite decide_False by (intros ?%derive_key_inj; lia).
    replace (S i + length l) with (i + S (length l)) by lia.
    destruct (Nat.leb_spec (S i) j), (Nat.leb_spec i j); try lia; [|done].
    cbn [andb]. replace (j - i) with (S (j - S i)) by lia. done.
Qed.

(** The tries of two lists fit in memory, no two of their nodes collide, and none but
    the empty trie has the empty root. *)
Definition derive_secure (l1 l2 : list bytes) : Prop :=
  ∀ t1 t2, canon0 t1 → contents t1 (derive_map 0 l1 (λ _, None)) →
    canon0 t2 → contents t2 (derive_map 0 l2 (λ _, None)) →
    nodes_fit t1 ∧ nodes_fit t2 ∧ no_collision2 t1 t2 ∧ not_emptyRoot t1 ∧ not_emptyRoot t2.
End DeriveSha.

(** C17. The transaction root of a header commits to the list: [DeriveSha] returns
    a hash for every list, and two lists of nonempty items with the same hash
    are the same list, in the same order, unless two nodes of their tries
    collide or a nonempty trie hashes to the root of the empty list.  The lists are shorter than 2{^63} and the nodes small enough
    to be encoded. *)
Theorem DeriveSha_binding `{C : Crypto} l1 l2 h1 h2 :
  (Z.of_nat (length l1) < two63)%Z → (Z.of_nat (length l2) < two63)%Z →
  Forall (λ x, x ≠ []) l1 → Forall (λ x, x ≠ []) l2 → derive_secure l1 l2 →
  DeriveSha l1 = Some h1 → DeriveSha l2 = Some h2 → h1 = h2 → l1 = l2.
Proof.
  intros Hb1 Hb2 Hn1 Hn2 Hsec H1 H2 Hh.
  destruct (DeriveSha_ok l1) as (h1' & H1' & (t1 & Hc1 & Hm1 & ->)).
  destruct (DeriveSha_ok l2) as (h2' & H2' & (t2 & Hc2 & Hm2 & ->)).
  destruct (Hsec t1 t2 Hc1 Hm1 Hc2 Hm2) as (Hf1 & Hf2 & Hnc & He1 & He2).
  assert (t1 = t2) as -> by (apply proot_inj; try done; congruence).
  apply list_eq. intros j.
  destruct (decide (length l1 ≤ j ∧ length l2 ≤ j)) as [[]|Hj]; [by rewrite !lookup_ge_None_2|].
  assert (Z.of_nat j < two63)%Z as Hjb by lia.
  pose proof (derive_map_lookup 0 l1 (λ _, None) j ltac:(lia) Hn1 Hjb) as D1.
  pose proof (derive_map_lookup 0 l2 (λ _, None) j ltac:(lia) Hn2 Hjb) as D2.
  rewrite <- (proj1 Hm1) in D1. rewrite <- (proj1 Hm2) in D2. rewrite D1 in D2. rewrite Nat.sub_0_r in D2.
  cbn [Nat.leb andb Nat.add] in D2.
  destruct (Nat.ltb_spec j (length l1)), (Nat.ltb_spec j (length l2)); [done| | |lia].
  - rewrite (lookup_ge_None_2 l2) by lia. done.
  - rewrite (lookup_ge_None_2 l1) by lia. done.
Qed.

(** ** Proofs against a root hash *)

(** C15. A proof cannot lie: if the entries of a proof database are stored under
    their own hashes and none collides with a node of the trie, then whatever
    the entries are, the value or the absence that [VerifyProof] reports for a
    key under the root hash of a trie is what the trie holds. *)
Theorem VerifyProof_sound `{C : Crypto} db in_db root t m h root' key proofDb fuel res :
  loads db in_db → root_ok db in_db root t → t ≠ PNil → contents t m → nodes_fit t →
  Hash root = Some (h, root') →
  (∀ h b, proofDb h = Some b → makeHashNode b = h) →
  (∀ s h b, rtc child_of s t → canon s → proofDb h = Some b → makeHashNode b = makeHashNode (enc s) → b = enc s) →
  VerifyProof fuel h key proofDb = Some res → answer res (m key).
Proof.
  intros Hl Hr Ht Hm Hf Hh Ha Hinj Hv. destruct (root_ok_canon _ _ _ _ Hr) as [|Hc]; [done|].
  destruct (Hash_ok db in_db root m Hl) as (h' & r' & Hh' & (u & Hu & Hmu & ->) & _); [by exists t|].
  rewrite Hh in Hh'. simplify_eq. assert (u = t) as -> by (eapply contents_unique; [done|by right|done..]).
  replace (proot t) with (hash_of t) in Hv by (by destruct Hc). rewrite <- (proj1 Hm).
  eapply (verify_sound fuel 0 t t); [done|by apply addressed_honest|done|done|apply keybytesToHex_hexkey|done].
Qed.

(** C16. A proof is complete: what [Prove] writes for a key of a nonempty trie,
    [VerifyProof] accepts under the root hash, reporting the value of the key,
    or its absence. *)
Theorem Prove_VerifyProof `{C : Crypto} db in_db root t m h root' key fuel :
  loads db in_db → root_ok db in_db root t → t ≠ PNil → contents t m → nodes_fit t → no_collision t →
  length (keybytesToHex key) < fuel → Hash root = Some (h, root') →
  ∃ puts, Prove db root key 0 = Some (inl puts) ∧
    VerifyProof fuel h key (proof_db puts) = Some (answer_of (m key)).
Proof.
  intros Hl Hr Ht Hm Hf Hcol Hfuel Hh.
  destruct (Hash_ok db in_db root m Hl) as (h' & r' & Hh' & (u & Hu & Hmu & ->) & _); [by exists t|].
  rewrite Hh in Hh'. simplify_eq. assert (u = t) as -> by (eapply contents_unique; [done|by eapply root_ok_canon|done..]).
  destruct (Prove_puts db in_db root t key Hr Ht) as (puts & HP & _). exists puts. split; [done|].
  rewrite <- (proj1 Hm). by apply (Prove_complete db in_db root).
Qed.
