(* ===== verification/TrieExamples.v ===== *)
(** * The trie at work

    Concrete tries on which the theorems of TrieOps apply. *)

From Stdlib Require Import ZArith Lia.
From S2P Require Import Prelude Errors Rlp Fullnode Messages Instances Trie TriePure TrieLaws TrieHash TrieRoot TrieNode TrieProof TrieOps.
Open Scope didux_scope.
Open Scope nat_scope.

(** ** A trie with one leaf *)

Definition leaf_of (key value : bytes) : ptrie := PShort (keybytesToHex key) (PVal value).
Definition leaf_node (key value : bytes) : node := shortNode (keybytesToHex key) (valueNode value) newFlag.
Definition leaf_map (key value : bytes) : bytes → option bytes := map_update (λ _, None) key value.

Section Leaf.
Context {C : Crypto} (key value : bytes) (Hv : value ≠ []).

Lemma leaf_canon : canon (leaf_of key value).
Proof using Hv. by constructor; [apply keybytesToHex_hexkey|]. Qed.
Lemma leaf_root_ok : root_ok no_db nothing (leaf_node key value) (leaf_of key value).
Proof using Hv. split; [apply leaf_canon|]. split; [by repeat constructor|done]. Qed.
Lemma leaf_contents : contents (leaf_of key value) (leaf_map key value).
Proof using Hv.
  apply (contents_upd PNil); [by split|]. replace (match value with [] => None | _ => Some value end) with (Some value)
    by (by destruct value). apply upd_leaf.
Qed.
Lemma leaf_desc s : rtc child_of s (leaf_of key value) → canon s → s = leaf_of key value.
Proof.
  intros [->|(u & Hu & Hut)]%rtc_inv_r Hc; [done|]. cbn in Hut. subst u.
  apply rtc_inv_r in Hu as [->|(w & _ & Hw)]; [by inversion Hc|done].
Qed.
Lemma leaf_fit : (blen (enc (leaf_of key value)) < two63)%Z → nodes_fit (leaf_of key value).
Proof. intros Hb s Hs Hc. by rewrite (leaf_desc s Hs Hc). Qed.
Lemma leaf_no_collision : no_collision (leaf_of key value).
Proof. intros s s' Hs Hs' Hc Hc' _. by rewrite (leaf_desc s Hs Hc), (leaf_desc s' Hs' Hc'). Qed.
Lemma leaf_no_collision2 : no_collision2 (leaf_of key value) (leaf_of key value).
Proof. intros s s' Hs Hs' Hc Hc' _. by rewrite (leaf_desc s Hs Hc), (leaf_desc s' Hs' Hc'). Qed.
End Leaf.

(** ** Witnesses *)

Definition key_a : bytes := [x61; x62].
Definition key_b : bytes := [x61; x63].
Definition value_a : bytes := [x01; x02; x03].

Definition sample_ops : list trie_op :=
  [OpUpdate key_a value_a; OpGet key_a; OpUpdate key_b value_a; OpHash; OpDelete key_a; OpGet key_a; OpHash].

Lemma trie_refines_map_witness :
  ∃ outs root', trie_run no_db Nil sample_ops = Some (outs, root') ∧ outs_ok (λ _, None) sample_ops outs ∧
    root_map no_db nothing root' (map_run (λ _, None) sample_ops).
Proof.
  apply (trie_refines_map no_db nothing Nil (λ _, None) sample_ops); [apply no_db_loads|apply root_map_empty].
Defined.

(** Two histories of the same map. *)
Definition ops_1 : list trie_op := [OpUpdate key_a value_a; OpUpdate key_b value_a; OpHash].
Definition ops_2 : list trie_op :=
  [OpUpdate key_b value_a; OpUpdate [x61] value_a; OpHash; OpUpdate key_a value_a; OpDelete [x61]].
Definition root_of (r : option (list trie_out * node)) : node := match r with Some (_, n) => n | None => Nil end.
Definition hash_node_of (r : option (bytes * node)) : bytes * node := match r with Some p => p | None => ([], Nil) end.
Definition root_1 : node := root_of (trie_run no_db Nil ops_1).
Definition root_2 : node := root_of (trie_run no_db Nil ops_2).

Lemma run_root_map ops : root_map no_db nothing (root_of (trie_run no_db Nil ops)) (map_run (λ _, None) ops).
Proof.
  destruct (trie_run_ok no_db nothing Nil (λ _, None) ops no_db_loads (root_map_empty _ _)) as (outs & r & Hr & _ & Hm).
  by rewrite Hr.
Qed.
Lemma root_map_ext root m m' : (∀ k, m k = m' k) → root_map no_db nothing root m → root_map no_db nothing root m'.
Proof. intros Hm (t & Hr & H1 & H2). exists t. split; [done|]. split; [|done]. intros k. by rewrite H1, Hm. Qed.

Lemma Hash_history_independent_witness :
  root_1 ≠ root_2 ∧ (hash_node_of (Hash root_1)).1 = (hash_node_of (Hash root_2)).1.
Proof.
  split; [vm_compute; discriminate|].
  apply (Hash_history_independent no_db nothing no_db nothing root_1 root_2 (map_run (λ _, None) ops_1) _ _
    (hash_node_of (Hash root_1)).2 (hash_node_of (Hash root_2)).2).
  - apply no_db_loads.
  - apply no_db_loads.
  - apply run_root_map.
  - apply (root_map_ext _ (map_run (λ _, None) ops_2)); [|apply run_root_map].
    intros k. cbn. unfold map_update. destruct (decide (k = [x61])) as [->|]; [by vm_compute|].
    destruct (decide (k = key_a)) as [->|]; [by vm_compute|]. done.
  - vm_compute. reflexivity.
  - vm_compute. reflexivity.
Defined.

Definition leaf_a : node := leaf_node key_a value_a.
Lemma leaf_a_fits : (blen (enc (leaf_of key_a value_a)) < two63)%Z.
Proof. vm_compute. done. Qed.

(** The same leaf, its hash cached, and its map written out. *)
Definition leaf_a_hashed : node :=
  shortNode (keybytesToHex key_a) (valueNode value_a) (MkFlag (Some (hash_of (leaf_of key_a value_a))) true).
Definition map_a (k : bytes) : option bytes := if decide (k = key_a) then Some value_a else None.

Lemma leaf_a_hashed_ok : root_ok no_db nothing leaf_a_hashed (leaf_of key_a value_a).
Proof. split; [by apply leaf_canon|]. split; [by repeat constructor|]. by split. Qed.

Lemma Hash_binding_witness : leaf_map key_a value_a key_a = map_a key_a.
Proof.
  refine (Hash_binding no_db nothing no_db nothing leaf_a leaf_a_hashed (leaf_of key_a value_a) (leaf_of key_a value_a)
    _ map_a (hash_node_of (Hash leaf_a)).1 (hash_node_of (Hash leaf_a)).2 leaf_a_hashed
    no_db_loads no_db_loads (leaf_root_ok _ _ _) (leaf_contents _ _ _) leaf_a_hashed_ok (leaf_contents _ _ _)
    (leaf_fit _ _ leaf_a_fits) (leaf_fit _ _ leaf_a_fits) (leaf_no_collision2 _ _) _ _ _ _ key_a).
  - discriminate.
  - discriminate.
  - discriminate.
  - intros _. vm_compute. discriminate.
  - intros _. vm_compute. discriminate.
  - vm_compute. reflexivity.
  - vm_compute. reflexivity.
Defined.

Lemma derive_secure_a : derive_secure [value_a] [value_a].
Proof.
  assert (∀ t, canon0 t → contents t (derive_map 0 [value_a] (λ _, None)) → t = leaf_of (derive_key 0) value_a) as Hu.
  { intros t Hc Hm. eapply contents_unique; [done|right; by apply leaf_canon|done|]. by apply leaf_contents. }
  assert (blen (enc (leaf_of (derive_key 0) value_a)) < two63)%Z as Hb by (vm_compute; done).
  intros t1 t2 Hc1 Hm1 Hc2 Hm2. rewrite (Hu t1 Hc1 Hm1), (Hu t2 Hc2 Hm2).
  split; [by apply leaf_fit|]. split; [by apply leaf_fit|]. split; [apply leaf_no_collision2|].
  split; intros _; vm_compute; discriminate.
Qed.
Definition bytes_of (o : option bytes) : bytes := match o with Some b => b | None => [] end.

Lemma DeriveSha_binding_witness :
  DeriveSha [value_a] = Some (bytes_of (DeriveSha [value_a])) ∧ [value_a] = [value_a].
Proof.
  split; [vm_compute; reflexivity|].
  apply (DeriveSha_binding [value_a] [value_a] (bytes_of (DeriveSha [value_a])) (bytes_of (DeriveSha [value_a]))).
  - done.
  - done.
  - by repeat constructor.
  - by repeat constructor.
  - apply derive_secure_a.
  - vm_compute. reflexivity.
  - vm_compute. reflexivity.
  - reflexivity.
Defined.

Lemma proof_db_single h0 b0 h b : proof_db [(h0, b0)] h = Some b → h0 = h ∧ b0 = b.
Proof. unfold proof_db. cbn. case_bool_decide; [|done]. by intros [= ->]. Qed.

(** The proof of a key of the leaf. *)
Definition leaf_puts : list (bytes * bytes) :=
  [(hash_of (leaf_of key_a value_a), enc (leaf_of key_a value_a))].

Lemma VerifyProof_sound_witness :
  VerifyProof 10 (hash_of (leaf_of key_a value_a)) key_b (proof_db leaf_puts) = Some ProofAbsent ∧
  leaf_map key_a value_a key_b = None.
Proof.
  split; [vm_compute; reflexivity|].
  apply (VerifyProof_sound no_db nothing leaf_a (leaf_of key_a value_a) (leaf_map key_a value_a)
    (hash_of (leaf_of key_a value_a)) (hash_node_of (Hash leaf_a)).2 key_b (proof_db leaf_puts) 10 ProofAbsent).
  - apply no_db_loads.
  - by apply leaf_root_ok.
  - done.
  - by apply leaf_contents.
  - apply leaf_fit, leaf_a_fits.
  - vm_compute. reflexivity.
  - intros h b Hb. destruct (proof_db_single _ _ _ _ Hb) as [<- <-]. reflexivity.
  - intros s h b Hs Hc Hb _. rewrite (leaf_desc _ _ s Hs Hc). destruct (proof_db_single _ _ _ _ Hb) as [_ <-]. reflexivity.
  - vm_compute. reflexivity.
Defined.

Lemma Prove_VerifyProof_witness :
  ∃ puts, Prove no_db leaf_a key_a 0 = Some (inl puts) ∧
    VerifyProof 10 (hash_of (leaf_of key_a value_a)) key_a (proof_db puts) = Some (answer_of (leaf_map key_a value_a key_a)).
Proof.
  apply (Prove_VerifyProof no_db nothing leaf_a (leaf_of key_a value_a) (leaf_map key_a value_a)
    (hash_of (leaf_of key_a value_a)) (hash_node_of (Hash leaf_a)).2 key_a 10).
  - apply no_db_loads.
  - by apply leaf_root_ok.
  - done.
  - by apply leaf_contents.
  - apply leaf_fit, leaf_a_fits.
  - apply leaf_no_collision.
  - vm_compute. lia.
  - vm_compute. reflexivity.
Defined.
