(* ===== verification/TrieDB.v ===== *)
(** * The node database of the tries: trie/database.go

    The write layer between the tries and the disk: collapsed nodes with
    reference counts and a flush list, garbage collected by [Dereference],
    written to disk by [Cap] (the oldest ones) and [Commit] (a whole trie).

    A Go map is a [gmap]; the order in which Go walks a map is unspecified,
    and is any permutation here (the class [MapOrder]).  Sizes ([common.StorageSize], a float64)
    are integers: the float is exact below 2{^53} bytes.  The disk is a map; a
    batch is written as a whole or refused as a whole, as the parameter
    [write_ok] decides.  The clean cache (BigCache) is the class [Cache]: a
    lookup returns the last value set for the key, or nothing.  Locks, timers
    and metrics are dropped.  [None] is a Go panic, a nil pointer most often,
    or the end of the fuel. *)

From Stdlib Require Import ZArith Lia.
From stdpp Require Import gmap.
From S2P Require Import Prelude Errors Rlp Fullnode Messages Trie TriePure TrieLaws TrieHash TrieRoot TrieNode.
Open Scope didux_scope.
Open Scope Z_scope.

#[export] Instance byte_countable : Countable byte :=
  inj_countable' Byte.to_nat (λ n, default x00 (Byte.of_nat n)) ltac:(by intros []).

(** ** Nodes in the cache *)

(** [rawFullNode], [rawShortNode]: collapsed nodes without their flags. *)
Inductive rnode :=
  | RNil
  | RFull (children : list rnode)
  | RShort (Key : bytes) (Val : rnode)
  | RHash (h : bytes)
  | RValue (v : bytes).

(** The content of a cached node: a collapsed node or a raw blob. *)
Inductive cdata := DNode (n : rnode) | DRaw (blob : bytes).

(** [None]: the panic on a nil value of a short node. *)
Fixpoint simplifyNode (c : cnode) : option rnode :=
  match c with
  | CShort k v _ => match simplifyNode v with Some v => Some (RShort k v) | None => None end
  | CFull cs _ =>
      match (fix all (cs : list cnode) : option (list rnode) :=
               match cs with
               | [] => Some []
               | c :: cs =>
                   match (match c with CNil => Some RNil | _ => simplifyNode c end), all cs with
                   | Some r, Some rs => Some (r :: rs)
                   | _, _ => None
                   end
               end) cs with
      | Some rs => Some (RFull rs)
      | None => None
      end
  | CHash h => Some (RHash h)
  | CValue v => Some (RValue v)
  | CNil => None
  end.

Fixpoint expandNode (hash : option bytes) (n : rnode) : option node :=
  match n with
  | RShort k v =>
      match expandNode None v with
      | Some v => Some (shortNode (compactToHex k) v (MkFlag hash false))
      | None => None
      end
  | RFull rs =>
      match (fix all (rs : list rnode) : option (list node) :=
               match rs with
               | [] => Some []
               | r :: rs =>
                   match (match r with RNil => Some Nil | _ => expandNode None r end), all rs with
                   | Some n, Some ns => Some (n :: ns)
                   | _, _ => None
                   end
               end) rs with
      | Some ns => Some (fullNode ns (MkFlag hash false))
      | None => None
      end
  | RHash h => Some (hashNode h)
  | RValue v => Some (valueNode v)
  | RNil => None
  end.

(** The first 16 children of a full node, the value of a short one. *)
Fixpoint gatherChildren (n : rnode) : list bytes :=
  match n with
  | RShort _ v => gatherChildren v
  | RFull rs =>
      (fix walk (i : nat) (rs : list rnode) : list bytes :=
         match i, rs with
         | S i, r :: rs => gatherChildren r ++ walk i rs
         | _, _ => []
         end) 16%nat rs
  | RHash h => [BytesToHash h]
  | RValue _ | RNil => []
  end.

(** What rlp.EncodeToBytes writes for a raw node. *)
Fixpoint ritem (n : rnode) : item :=
  match n with
  | RNil => Str []
  | RFull rs => Lst (map ritem rs)
  | RShort k v => Lst [Str k; match v with RNil => Lst [] | _ => ritem v end]
  | RHash h => Str h
  | RValue v => Str v
  end.

Record cachedNode := MkCached {
  cn_node : cdata;
  cn_size : Z;                          (** uint16 *)
  cn_parents : Z;                       (** uint32 *)
  cn_children : option (gmap bytes Z);  (** nil or a map to uint16 *)
  cn_flushPrev : bytes;
  cn_flushNext : bytes
}.

Definition u16 (z : Z) : Z := z mod 2 ^ 16.
Definition u32 (z : Z) : Z := z mod 2 ^ 32.

Definition zeroHash : bytes := replicate 32 x00.
Definition HashLength : Z := 32.
(** The size of the Go struct, on a 64-bit machine. *)
Definition cachedNodeSize : Z := 96.
Definition cachedNodeChildrenSize : Z := 48.
Definition IdealBatchSize : Z := 100 * 1024.

Definition rlp (n : cachedNode) : bytes := match cn_node n with DRaw b => b | DNode r => encode (ritem r) end.
(** [None]: [mustDecodeNode] panics. *)
Definition obj (n : cachedNode) (hash : bytes) : option node :=
  match cn_node n with DRaw b => decodeNode (Some hash) b | DNode r => expandNode (Some hash) r end.
(** The order in which a [range] statement visits a map: any. *)
Class MapOrder := {
  map_range {A} : gmap bytes A → list (bytes * A);
  map_range_perm {A} (m : gmap bytes A) : map_range m ≡ₚ map_to_list m
}.
Definition external `{!MapOrder} (n : cachedNode) : list bytes :=
  match cn_children n with Some m => (map_range m).*1 | None => [] end.
Definition childs `{!MapOrder} (n : cachedNode) : list bytes :=
  external n ++ match cn_node n with DNode r => gatherChildren r | DRaw _ => [] end.

(** ** The database *)

Class Cache (Cl : Type) := { cache_get : Cl → bytes → option bytes; cache_set : Cl → bytes → bytes → Cl }.

Record Database (Cl : Type) := MkDB {
  diskdb : gmap bytes bytes;
  cleans : option Cl;
  dirties : gmap bytes cachedNode;
  oldest : bytes;
  newest : bytes;
  preimages : gmap bytes bytes;
  gcnodes : Z; gcsize : Z; flushnodes : Z; flushsize : Z;
  dirtiesSize : Z; childrenSize : Z; preimagesSize : Z
}.
Arguments diskdb {_}. Arguments cleans {_}. Arguments dirties {_}. Arguments oldest {_}. Arguments newest {_}.
Arguments preimages {_}. Arguments gcnodes {_}. Arguments gcsize {_}. Arguments flushnodes {_}. Arguments flushsize {_}.
Arguments dirtiesSize {_}. Arguments childrenSize {_}. Arguments preimagesSize {_}. Arguments MkDB {_}.

Definition set_parents (p : Z) (e : cachedNode) : cachedNode :=
  MkCached (cn_node e) (cn_size e) p (cn_children e) (cn_flushPrev e) (cn_flushNext e).
Definition set_children (c : option (gmap bytes Z)) (e : cachedNode) : cachedNode :=
  MkCached (cn_node e) (cn_size e) (cn_parents e) c (cn_flushPrev e) (cn_flushNext e).
Definition set_flushPrev (h : bytes) (e : cachedNode) : cachedNode :=
  MkCached (cn_node e) (cn_size e) (cn_parents e) (cn_children e) h (cn_flushNext e).
Definition set_flushNext (h : bytes) (e : cachedNode) : cachedNode :=
  MkCached (cn_node e) (cn_size e) (cn_parents e) (cn_children e) (cn_flushPrev e) h.

(** The batch of a [Cap] or a [Commit]. *)
Abbreviation batch := (list (bytes * bytes)).
Definition ValueSize (b : batch) : Z := foldr (λ p acc, blen p.2 + acc) 0 b.
Definition apply_batch (b : batch) (disk : gmap bytes bytes) : gmap bytes bytes :=
  foldl (λ d p, <[p.1 := p.2]> d) disk b.

Section Database.
Context {Cl : Type} {CC : Cache Cl} {MO : MapOrder}.
Implicit Types db : Database Cl.

Definition set_disk (d : gmap bytes bytes) db : Database Cl :=
  MkDB d (cleans db) (dirties db) (oldest db) (newest db) (preimages db) (gcnodes db) (gcsize db)
    (flushnodes db) (flushsize db) (dirtiesSize db) (childrenSize db) (preimagesSize db).
Definition set_cleans (c : option Cl) db : Database Cl :=
  MkDB (diskdb db) c (dirties db) (oldest db) (newest db) (preimages db) (gcnodes db) (gcsize db)
    (flushnodes db) (flushsize db) (dirtiesSize db) (childrenSize db) (preimagesSize db).
Definition set_dirties (d : gmap bytes cachedNode) db : Database Cl :=
  MkDB (diskdb db) (cleans db) d (oldest db) (newest db) (preimages db) (gcnodes db) (gcsize db)
    (flushnodes db) (flushsize db) (dirtiesSize db) (childrenSize db) (preimagesSize db).
Definition set_ends (o n : bytes) db : Database Cl :=
  MkDB (diskdb db) (cleans db) (dirties db) o n (preimages db) (gcnodes db) (gcsize db)
    (flushnodes db) (flushsize db) (dirtiesSize db) (childrenSize db) (preimagesSize db).
Definition set_preimages (p : gmap bytes bytes) (s : Z) db : Database Cl :=
  MkDB (diskdb db) (cleans db) (dirties db) (oldest db) (newest db) p (gcnodes db) (gcsize db)
    (flushnodes db) (flushsize db) (dirtiesSize db) (childrenSize db) s.
Definition set_stats (gn gs fn fs : Z) db : Database Cl :=
  MkDB (diskdb db) (cleans db) (dirties db) (oldest db) (newest db) (preimages db) gn gs
    fn fs (dirtiesSize db) (childrenSize db) (preimagesSize db).
Definition add_dirtiesSize (z : Z) db : Database Cl :=
  MkDB (diskdb db) (cleans db) (dirties db) (oldest db) (newest db) (preimages db) (gcnodes db) (gcsize db)
    (flushnodes db) (flushsize db) (dirtiesSize db + z) (childrenSize db) (preimagesSize db).
Definition add_childrenSize (z : Z) db : Database Cl :=
  MkDB (diskdb db) (cleans db) (dirties db) (oldest db) (newest db) (preimages db) (gcnodes db) (gcsize db)
    (flushnodes db) (flushsize db) (dirtiesSize db) (childrenSize db + z) (preimagesSize db).

Abbreviation DB := (M (Database Cl)).

(** [db.dirties[h]], a nil pointer when absent. *)
Definition dirty_ptr (h : bytes) : DB cachedNode := let! db := mget in mderef (dirties db !! h).
(** An assignment to a field of [db.dirties[h]]. *)
Definition dirty_set (h : bytes) (f : cachedNode → cachedNode) : DB () :=
  let! e := dirty_ptr h in mmod (λ db, set_dirties (<[h := f e]> (dirties db)) db).

Definition NewDatabase (disk : gmap bytes bytes) (cache : option Cl) : Database Cl :=
  MkDB disk cache {[zeroHash := MkCached (DNode RNil) 0 0 (Some ∅) zeroHash zeroHash]} zeroHash zeroHash ∅ 0 0 0 0 0 0 0.

(** The loop of [insert] over the children. *)
Fixpoint add_parents (l : list bytes) : DB () :=
  match l with
  | [] => mret' ()
  | child :: l =>
      let! db := mget in
      do! (match dirties db !! child with
           | Some c => dirty_set child (λ c, set_parents (u32 (cn_parents c + 1)) c)
           | None => mret' ()
           end) in
      add_parents l
  end.

(** [insert], with the node already simplified. *)
Definition db_insert (hash blob : bytes) (node : cdata) : DB () :=
  let! db := mget in
  match dirties db !! hash with
  | Some _ => mret' ()
  | None =>
      let entry := MkCached node (u16 (blen blob)) 0 None (newest db) zeroHash in
      do! add_parents (childs entry) in
      do! mmod (λ db, set_dirties (<[hash := entry]> (dirties db)) db) in
      do! (if bool_decide (oldest db = zeroHash) then mmod (set_ends hash hash)
           else do! dirty_set (newest db) (set_flushNext hash) in mmod (λ db, set_ends (oldest db) hash db)) in
      mmod (add_dirtiesSize (u16 (HashLength + cn_size entry)))
  end.
Definition InsertBlob (hash blob : bytes) : DB () := db_insert hash blob (DRaw blob).
(** The call of the hasher. *)
Definition insertNode (hash blob : bytes) (c : cnode) : DB () :=
  let! r := mderef (simplifyNode c) in db_insert hash blob (DNode r).

Definition insertPreimage (hash preimage : bytes) : DB () :=
  let! db := mget in
  match preimages db !! hash with
  | Some _ => mret' ()
  | None => mmod (λ db, set_preimages (<[hash := preimage]> (preimages db)) (preimagesSize db + (HashLength + blen preimage)) db)
  end.

(** ** Reading *)

Definition clean_get db (hash : bytes) : option bytes :=
  match cleans db with Some c => cache_get c hash | None => None end.
Definition clean_set (hash enc : bytes) db : Database Cl :=
  match cleans db with Some c => set_cleans (Some (cache_set c hash enc)) db | None => db end.

Definition db_node (hash : bytes) : DB (option node) :=
  let! db := mget in
  match clean_get db hash with
  | Some enc => let! n := mderef (decodeNode (Some hash) enc) in mret' (Some n)
  | None =>
      match dirties db !! hash with
      | Some dirty => let! n := mderef (obj dirty hash) in mret' (Some n)
      | None =>
          match diskdb db !! hash with
          | None => mret' None
          | Some enc =>
              do! mmod (clean_set hash enc) in
              let! n := mderef (decodeNode (Some hash) enc) in mret' (Some n)
          end
      end
  end.

Definition db_Node (hash : bytes) : DB (option bytes) :=
  if bool_decide (hash = zeroHash) then mret' None
  else
    let! db := mget in
    match clean_get db hash with
    | Some enc => mret' (Some enc)
    | None =>
        match dirties db !! hash with
        | Some dirty => mret' (Some (rlp dirty))
        | None =>
            match diskdb db !! hash with
            | None => mret' None
            | Some enc => do! mmod (clean_set hash enc) in mret' (Some enc)
            end
        end
    end.

Definition secureKey (key : bytes) : bytes :=
  [x73; x65; x63; x75; x72; x65; x2d; x6b; x65; x79; x2d] ++ key.
Definition preimage (hash : bytes) : DB (option bytes) :=
  let! db := mget in
  match preimages db !! hash with
  | Some p => mret' (Some p)
  | None => mret' (diskdb db !! secureKey hash)
  end.
Definition Nodes : DB (list bytes) :=
  let! db := mget in mret' (filter (λ h, h ≠ zeroHash) (map_range (dirties db)).*1).

(** ** References *)

Definition reference (child parent : bytes) : DB () :=
  let! db := mget in
  match dirties db !! child with
  | None => mret' ()
  | Some _ =>
      let! p := dirty_ptr parent in
      let link (m : gmap bytes Z) : DB () :=
        do! dirty_set child (λ c, set_parents (u32 (cn_parents c + 1)) c) in
        let count := u16 (default 0 (m !! child) + 1) in
        do! dirty_set parent (set_children (Some (<[child := count]> m))) in
        if count =? 1 then mmod (add_childrenSize (HashLength + 2)) else mret' () in
      match cn_children p with
      | None =>
          do! mmod (add_childrenSize cachedNodeChildrenSize) in link ∅
      | Some m =>
          if bool_decide (is_Some (m !! child)) && negb (bool_decide (parent = zeroHash)) then mret' ()
          else link m
      end
  end.

(** The removal of a node from the flush list. *)
Definition unlink (child : bytes) (node : cachedNode) : DB () :=
  let! db := mget in
  if bool_decide (child = oldest db) then
    do! mmod (λ db, set_ends (cn_flushNext node) (newest db) db) in
    dirty_set (cn_flushNext node) (set_flushPrev zeroHash)
  else if bool_decide (child = newest db) then
    do! mmod (λ db, set_ends (oldest db) (cn_flushPrev node) db) in
    dirty_set (cn_flushPrev node) (set_flushNext zeroHash)
  else
    do! dirty_set (cn_flushPrev node) (set_flushNext (cn_flushNext node)) in
    dirty_set (cn_flushNext node) (set_flushPrev (cn_flushPrev node)).

(** The parent's counter of external references. *)
Definition drop_link (child parent : bytes) : DB () :=
  let! node := dirty_ptr parent in
  match cn_children node with
  | None => mret' ()
  | Some m =>
      let count := default 0 (m !! child) in
      if 0 <? count then
        if count - 1 =? 0 then
          do! dirty_set parent (set_children (Some (base.delete child m))) in
          mmod (add_childrenSize (- (HashLength + 2)))
        else dirty_set parent (set_children (Some (<[child := count - 1]> m)))
      else mret' ()
  end.

Fixpoint dereference (fuel : nat) (child parent : bytes) : DB () :=
  match fuel with
  | O => mpanic
  | S fuel =>
      do! drop_link child parent in
      let! db := mget in
      match dirties db !! child with
      | None => mret' ()
      | Some node =>
          let parents := if 0 <? cn_parents node then cn_parents node - 1 else cn_parents node in
          do! dirty_set child (set_parents parents) in
          if parents =? 0 then
            do! unlink child node in
            do! (fix walk (l : list bytes) : DB () :=
                   match l with
                   | [] => mret' ()
                   | hash :: l => do! dereference fuel hash child in walk l
                   end) (childs node) in
            do! mmod (λ db, set_dirties (base.delete child (dirties db)) db) in
            do! mmod (add_dirtiesSize (- (HashLength + cn_size node))) in
            match cn_children node with
            | Some _ => mmod (add_childrenSize (- cachedNodeChildrenSize))
            | None => mret' ()
            end
          else mret' ()
      end
  end.

Definition nodes_count db : Z := Z.of_nat (size (dirties db)).
Definition Dereference (fuel : nat) (root : bytes) : DB () :=
  if bool_decide (root = zeroHash) then mret' ()
  else
    let! db0 := mget in
    do! dereference fuel root zeroHash in
    mmod (λ db, set_stats (gcnodes db + (nodes_count db0 - nodes_count db))
      (gcsize db + (dirtiesSize db0 - dirtiesSize db)) (flushnodes db) (flushsize db) db).

(** ** Flushing *)

(** The disk refuses a batch or writes it. *)
Context (write_ok : gmap bytes bytes → batch → bool).

Definition batch_Write (b : batch) : DB bool :=
  let! db := mget in
  if write_ok (diskdb db) b then do! mmod (λ db, set_disk (apply_batch b (diskdb db)) db) in mret' true
  else mret' false.

(** [None]: a write failed. *)
Fixpoint put_preimages (l : batch) (b : batch) : DB (option batch) :=
  match l with
  | [] => mret' (Some b)
  | (hash, preimage) :: l =>
      let b := b ++ [(secureKey hash, preimage)] in
      if IdealBatchSize <? ValueSize b then
        let! ok := batch_Write b in
        if ok then put_preimages l [] else mret' None
      else put_preimages l b
  end.

Definition children_bytes (n : cachedNode) : Z :=
  match cn_children n with
  | Some m => cachedNodeChildrenSize + Z.of_nat (size m) * (HashLength + 2)
  | None => 0
  end.

(** The loop of [Cap]: what is left of the list, and the batch. *)
Fixpoint cap_loop (fuel : nat) (limit sz : Z) (old : bytes) (b : batch) : DB (option (bytes * batch)) :=
  match fuel with
  | O => mpanic
  | S fuel =>
      if (limit <? sz) && negb (bool_decide (old = zeroHash)) then
        let! node := dirty_ptr old in
        let b := b ++ [(old, rlp node)] in
        let next b :=
          cap_loop fuel limit (sz - (HashLength + cn_size node + cachedNodeSize) - children_bytes node)
            (cn_flushNext node) b in
        if IdealBatchSize <=? ValueSize b then
          let! ok := batch_Write b in
          if ok then next [] else mret' None
        else next b
      else mret' (Some (old, b))
  end.

(** Deletes the nodes before [old] from memory. *)
Fixpoint cap_uncache (fuel : nat) (old : bytes) : DB () :=
  match fuel with
  | O => mpanic
  | S fuel =>
      let! db := mget in
      if bool_decide (oldest db = old) then mret' ()
      else
        let! node := dirty_ptr (oldest db) in
        do! mmod (λ db, set_dirties (base.delete (oldest db) (dirties db)) db) in
        do! mmod (λ db, set_ends (cn_flushNext node) (newest db) db) in
        do! mmod (add_dirtiesSize (- (HashLength + cn_size node))) in
        do! mmod (add_childrenSize (- children_bytes node)) in
        cap_uncache fuel old
  end.

Inductive db_error := ErrWrite.

Definition memory_size db (meta : cachedNode) : Z :=
  dirtiesSize db + (nodes_count db - 1) * cachedNodeSize + childrenSize db
    - match cn_children meta with Some m => Z.of_nat (size m) * (HashLength + 2) | None => 0 end.

Definition Cap (limit : Z) : DB (option db_error) :=
  let! db0 := mget in
  let! meta := dirty_ptr zeroHash in
  let flushPreimages := 4 * 1024 * 1024 <? preimagesSize db0 in
  let! ob := (if flushPreimages then put_preimages (map_range (preimages db0)) [] else mret' (Some [])) in
  match ob with
  | None => mret' (Some ErrWrite)
  | Some b =>
      let! r := cap_loop (S (size (dirties db0))) limit (memory_size db0 meta) (oldest db0) b in
      match r with
      | None => mret' (Some ErrWrite)
      | Some (old, b) =>
          let! ok := batch_Write b in
          if ok then
            do! (if flushPreimages then mmod (set_preimages ∅ 0) else mret' ()) in
            do! cap_uncache (S (size (dirties db0))) old in
            let! db := mget in
            do! (if bool_decide (oldest db = zeroHash) then mret' ()
                 else dirty_set (oldest db) (set_flushPrev zeroHash)) in
            do! mmod (λ db, set_stats (gcnodes db) (gcsize db) (flushnodes db + (nodes_count db0 - nodes_count db))
              (flushsize db + (dirtiesSize db0 - dirtiesSize db)) db) in
            mret' None
          else mret' (Some ErrWrite)
      end
  end.

(** ** Committing a trie *)

(** [cleaner.Put]. *)
Definition cleaner_Put (key enc : bytes) : DB () :=
  let hash := BytesToHash key in
  let! db := mget in
  match dirties db !! hash with
  | None => mret' ()
  | Some node =>
      do! unlink hash node in
      do! mmod (λ db, set_dirties (base.delete hash (dirties db)) db) in
      do! mmod (add_dirtiesSize (- (HashLength + cn_size node))) in
      do! mmod (add_dirtiesSize (- children_bytes node)) in
      mmod (clean_set hash enc)
  end.
Fixpoint batch_Replay (b : batch) : DB () :=
  match b with [] => mret' () | (k, v) :: b => do! cleaner_Put k v in batch_Replay b end.

(** [commit]: [None] when a write failed, else the batch. *)
Fixpoint db_commit (fuel : nat) (hash : bytes) (b : batch) : DB (option batch) :=
  match fuel with
  | O => mpanic
  | S fuel =>
      let! db := mget in
      match dirties db !! hash with
      | None => mret' (Some b)
      | Some node =>
          let! ob :=
            (fix walk (l : list bytes) (b : batch) : DB (option batch) :=
               match l with
               | [] => mret' (Some b)
               | child :: l =>
                   let! ob := db_commit fuel child b in
                   match ob with Some b => walk l b | None => mret' None end
               end) (childs node) b in
          match ob with
          | None => mret' None
          | Some b =>
              let b := b ++ [(hash, rlp node)] in
              if IdealBatchSize <=? ValueSize b then
                let! ok := batch_Write b in
                if ok then do! batch_Replay b in mret' (Some []) else mret' None
              else mret' (Some b)
          end
      end
  end.

Definition db_Commit (fuel : nat) (root : bytes) : DB (option db_error) :=
  let! db0 := mget in
  let! ob := put_preimages (map_range (preimages db0)) [] in
  match ob with
  | None => mret' (Some ErrWrite)
  | Some b =>
      let! ok := batch_Write b in
      if ok then
        let! ob := db_commit fuel root [] in
        match ob with
        | None => mret' (Some ErrWrite)
        | Some b =>
            let! ok := batch_Write b in
            if ok then
              do! batch_Replay b in
              do! mmod (set_preimages ∅ 0) in
              do! mmod (set_stats 0 0 0 0) in
              mret' None
            else mret' (Some ErrWrite)
        end
      else mret' (Some ErrWrite)
  end.

Definition db_Size : DB (Z * Z) :=
  let! db := mget in
  let! meta := dirty_ptr zeroHash in
  mret' (memory_size db meta, preimagesSize db).
End Database.
