(* ===== verification/TrieDBGC.v ===== *)
(** * The reference counts of the node database

    [edges] is the multiset of references: a pair of a node in memory and a
    child, once for each reference.  The count of a node that is not on disk is
    the number of references to it, and every reference leads to a node in
    memory or on disk.  The operations keep this; in particular garbage
    collection deletes no node that is still referenced.

    The nodes in memory, except the meta root, form a doubly linked list from
    [oldest] to [newest]: the flush list, which comes first.  A node that
    [dereference] has unlinked but not deleted yet is pending. *)

From Stdlib Require Import ZArith Lia.
From stdpp Require Import gmap.
From S2P Require Import Prelude Errors Rlp Fullnode Messages Trie TriePure TrieLaws TrieHash TrieRoot TrieNode TrieDB.
Open Scope didux_scope.
Open Scope nat_scope.

Abbreviation nodes := (gmap bytes cachedNode).

Definition prev_ok (pv : option bytes) (e : cachedNode) : Prop :=
  match pv with Some p => cn_flushPrev e = p | None => True end.

(** [l] is a segment: the node before it is [pv] (any, if [None]), the one
    after it [nx]. *)
Fixpoint chain (d : nodes) (pv : option bytes) (l : list bytes) (nx : bytes) : Prop :=
  match l with
  | [] => True
  | a :: l =>
      ∃ e, d !! a = Some e ∧ prev_ok pv e ∧ cn_flushNext e = hd nx l ∧ chain d (Some a) l nx
  end.

Definition last_of (pv : option bytes) (l : list bytes) : option bytes :=
  match last l with Some a => Some a | None => pv end.

Lemma last_of_cons pv a l : last_of pv (a :: l) = last_of (Some a) l.
Proof. unfold last_of. rewrite last_cons. by destruct (last l). Qed.
Lemma chain_app d pv l1 l2 nx :
  chain d pv (l1 ++ l2) nx ↔ chain d pv l1 (hd nx l2) ∧ chain d (last_of pv l1) l2 nx.
Proof.
  revert pv. induction l1 as [|a l1 IH]; intros pv; [cbn; tauto|]. rewrite last_of_cons.
  cbn [app chain]. setoid_rewrite IH. assert (hd nx (l1 ++ l2) = hd (hd nx l2) l1) as -> by (by destruct l1). naive_solver.
Qed.

(** Nodes with the same links. *)
Definition same_links (e e' : cachedNode) : Prop :=
  cn_flushPrev e = cn_flushPrev e' ∧ cn_flushNext e = cn_flushNext e'.
Lemma chain_ext d d' pv l nx :
  (∀ h e, h ∈ l → d !! h = Some e → ∃ e', d' !! h = Some e' ∧ same_links e e') → chain d pv l nx → chain d' pv l nx.
Proof.
  revert pv. induction l as [|a l IH]; intros pv Hs Hc; [done|]. destruct Hc as (e & He & Hp & Hn & Hc).
  destruct (Hs a e ltac:(by left) He) as (e' & He' & Hpr & Hnx). exists e'. split; [done|].
  split; [destruct pv; cbn in *; congruence|]. split; [congruence|]. apply IH; [|done]. intros h f Hh. apply Hs. by right.
Qed.
Lemma chain_frame d a e pv l nx : a ∉ l → chain d pv l nx → chain (<[a := e]> d) pv l nx.
Proof.
  intros Ha. apply chain_ext. intros h f Hh Hf. exists f. rewrite lookup_insert_ne by (by intros ->). by split.
Qed.
Lemma chain_delete d a pv l nx : a ∉ l → chain d pv l nx → chain (base.delete a d) pv l nx.
Proof.
  intros Ha. apply chain_ext. intros h f Hh Hf. exists f. rewrite lookup_delete_ne by (by intros ->). by split.
Qed.
Lemma chain_weaken d pv l nx : chain d pv l nx → chain d None l nx.
Proof. destruct l; [done|]. intros (e & He & _ & Hr). by exists e. Qed.

(** The last node gets a new successor, the first a new predecessor. *)
Lemma chain_set_next d pv l a e nx nx' : a ∉ l → d !! a = Some e → chain d pv (l ++ [a]) nx →
  chain (<[a := set_flushNext nx' e]> d) pv (l ++ [a]) nx'.
Proof.
  intros Ha He [H1 H2]%chain_app. apply chain_app. split; [by apply chain_frame|].
  destruct H2 as (e' & He' & Hp & _). rewrite He in He'. injection He' as <-. eexists. rewrite lookup_insert_eq.
  split; [done|]. split; [by destruct (last_of pv l)|]. by split.
Qed.
Lemma chain_set_prev d pv l a e nx q : a ∉ l → d !! a = Some e → chain d pv (a :: l) nx →
  chain (<[a := set_flushPrev q e]> d) (Some q) (a :: l) nx.
Proof.
  intros Ha He (e' & He' & _ & Hn & Hc). rewrite He in He'. injection He' as <-. eexists. rewrite lookup_insert_eq.
  split; [done|]. split; [done|]. split; [done|]. by apply chain_frame.
Qed.

(** ** The whole list *)

Record flist (d : nodes) (o n : bytes) (l pending : list bytes) : Prop := MkFlist {
  fl_nodup : NoDup l;
  fl_zero : zeroHash ∉ l;
  fl_meta : is_Some (d !! zeroHash);
  fl_dom : ∀ h, h ∈ l ↔ h ≠ zeroHash ∧ is_Some (d !! h) ∧ h ∉ pending;
  fl_oldest : o = hd zeroHash l;
  fl_newest : ∀ h, last l = Some h → n = h;
  fl_chain : chain d None l zeroHash
}.

(** Nothing but the flush links changes. *)
Definition same_data (e e' : cachedNode) : Prop :=
  cn_node e = cn_node e' ∧ cn_size e = cn_size e' ∧ cn_parents e = cn_parents e' ∧ cn_children e = cn_children e'.
Definition same_nodes (d d' : nodes) : Prop := ∀ h, option_Forall2 same_data (d !! h) (d' !! h).

#[export] Instance same_nodes_refl : Reflexive same_nodes.
Proof. intros d h. destruct (d !! h); by constructor. Qed.
#[export] Instance same_nodes_trans : Transitive same_nodes.
Proof.
  intros d1 d2 d3 H1 H2 h. specialize (H1 h). specialize (H2 h).
  destruct (d1 !! h) as [e1|], (d2 !! h) as [e2|], (d3 !! h) as [e3|]; inversion H1; inversion H2; simplify_eq; constructor.
  unfold same_data in *. intuition congruence.
Qed.
Lemma same_nodes_set d a e f : d !! a = Some e → same_data e f → same_nodes d (<[a := f]> d).
Proof.
  intros He Hs h. destruct (decide (h = a)) as [->|Hne]; [rewrite lookup_insert_eq, He; by constructor|].
  rewrite lookup_insert_ne by done. destruct (d !! h); by constructor.
Qed.
Lemma same_nodes_dom d d' h : same_nodes d d' → is_Some (d !! h) ↔ is_Some (d' !! h).
Proof. intros Hs. specialize (Hs h). by inversion Hs. Qed.
Lemma same_nodes_lookup d d' h e : same_nodes d d' → d !! h = Some e → ∃ e', d' !! h = Some e' ∧ same_data e e'.
Proof. intros Hs He. specialize (Hs h). rewrite He in Hs. inversion Hs; eauto. Qed.

Lemma flist_split d o n l pending h : flist d o n l pending → h ∈ l →
  ∃ l1 l2 e, l = l1 ++ h :: l2 ∧ d !! h = Some e ∧ (h ∉ l1) ∧ (h ∉ l2) ∧ (∀ x, (x ∈ l1) → (x ∉ l2)) ∧
    cn_flushNext e = hd zeroHash l2 ∧ (∀ p, last l1 = Some p → cn_flushPrev e = p).
Proof.
  intros Hf Hh. destruct Hf as [Hnd _ _ _ _ _ Hc]. apply list_elem_of_split in Hh as (l1 & l2 & ->). exists l1, l2.
  apply chain_app in Hc as [_ (e & He & Hp & Hn & _)]. exists e. apply NoDup_app in Hnd as (_ & H1 & [Hh2 _]%NoDup_cons).
  split; [done|]. split; [done|]. split; [intros Hin; apply (H1 h Hin); by left|]. split; [done|].
  split; [intros x Hx Hx2; apply (H1 x Hx); by right|]. split; [done|].
  intros p Hp'. unfold last_of in Hp. by rewrite Hp' in Hp.
Qed.

(** ** Unlinking *)

Lemma wp_dirty_set {Cl} h f e (Q : () → Database Cl → Prop) db : dirties db !! h = Some e →
  Q () (set_dirties (<[h := f e]> (dirties db)) db) → wp (dirty_set h f) Q db.
Proof. intros He HQ. unfold dirty_set, dirty_ptr, wp, mbind', mget, mmod. cbn. by rewrite He. Qed.

(** The database with other nodes and ends of the list. *)
Definition relinked {Cl} (db : Database Cl) (d : nodes) (o n : bytes) : Database Cl := set_dirties d (set_ends o n db).

Lemma unlink_ok {Cl} (db : Database Cl) l pending child e :
  flist (dirties db) (oldest db) (newest db) l pending → child ∈ l → dirties db !! child = Some e →
  wp (unlink child e) (λ _ db', ∃ d o n l1 l2, db' = relinked db d o n ∧ l = l1 ++ child :: l2 ∧
    same_nodes (dirties db) d ∧ flist d o n (l1 ++ l2) (child :: pending)) db.
Proof.
  intros Hf Hin He. destruct (flist_split _ _ _ _ _ _ Hf Hin) as (l1 & l2 & e' & -> & He' & H1 & H2 & H12 & Hnx & Hpv).
  rewrite He in He'. injection He' as <-. destruct Hf as [Hnd Hz Hm Hd Ho Hn Hc].
  assert (NoDup (l1 ++ l2)) as Hnd' by (by apply NoDup_app in Hnd as (? & ? & [_ ?]%NoDup_cons); apply NoDup_app).
  assert (zeroHash ∉ l1 ++ l2) as Hz' by (intros Hin'; apply Hz; apply elem_of_app in Hin'; apply elem_of_app; rewrite elem_of_cons; tauto).
  assert (∀ d', same_nodes (dirties db) d' → ∀ h, h ∈ l1 ++ l2 ↔ h ≠ zeroHash ∧ is_Some (d' !! h) ∧ h ∉ child :: pending) as Hdom.
  { intros d' Hs h. rewrite <- (same_nodes_dom _ _ h Hs), not_elem_of_cons. specialize (Hd h).
    rewrite elem_of_app, elem_of_cons in Hd. rewrite elem_of_app. split.
    - intros Hh. assert (h ≠ child) by (intros ->; tauto). tauto.
    - tauto. }
  assert (∀ d' o n, same_nodes (dirties db) d' → o = hd zeroHash (l1 ++ l2) → (∀ h, last (l1 ++ l2) = Some h → n = h) →
    chain d' None (l1 ++ l2) zeroHash → ∃ d0 o0 n0 l1' l2', relinked db d' o n = relinked db d0 o0 n0 ∧
      l1 ++ child :: l2 = l1' ++ child :: l2' ∧ same_nodes (dirties db) d0 ∧ flist d0 o0 n0 (l1' ++ l2') (child :: pending)) as Hdone.
  { intros d' o n Hs Hoo Hnn Hch. exists d', o, n, l1, l2. split; [done|]. split; [done|]. split; [done|].
    split; try done; [|by apply Hdom]. by rewrite <- (same_nodes_dom _ _ _ Hs). }
  apply chain_app in Hc as [Hc1 (e' & He' & _ & _ & Hc2)]. clear e' He'.
  unfold unlink. wp_steps. destruct l1 as [|a l1].
  { rewrite (bool_decide_eq_true_2 (child = oldest db)) by (by rewrite Ho). wp_steps. rewrite Hnx.
    assert (is_Some (dirties db !! hd zeroHash l2)) as [f Hfe].
    { destruct l2 as [|b l2]; [done|]. destruct Hc2 as (f & Hfe & _). eauto. }
    eapply wp_dirty_set; [exact Hfe|]. apply Hdone; [by eapply same_nodes_set|done| |].
    - intros h Hh. apply Hn. cbn in *. rewrite last_cons. by rewrite Hh.
    - destruct l2 as [|b l2]; [done|]. cbn [app] in *. apply NoDup_cons in Hnd' as [Hb _]. by eapply chain_weaken, chain_set_prev. }
  destruct (exists_last (l := a :: l1)) as (l1' & p & Hl1); [done|]. rewrite Hl1 in *. clear a l1 Hl1.
  rewrite bool_decide_eq_false_2.
  2:{ rewrite Ho. intros Heq. apply H1. rewrite Heq. destruct l1'; [by left|by left]. }
  assert (dirties db !! p ≠ None) as Hpd.
  { apply chain_app in Hc1 as [_ (f & Hf & _)]. congruence. }
  destruct (dirties db !! p) as [f|] eqn:Hfe; [|done]. clear Hpd. rewrite (Hpv p) by (by rewrite last_snoc).
  assert (p ∉ l1') as Hpl1 by (apply NoDup_app in Hnd' as (Hnd1 & _); apply NoDup_app in Hnd1 as (_ & Hx & _); intros Hp; by apply (Hx p Hp); left).
  destruct l2 as [|b l2].
  { rewrite bool_decide_eq_true_2 by (symmetry; apply Hn; by rewrite last_snoc). wp_steps.
    eapply wp_dirty_set; [exact Hfe|]. apply Hdone; [by eapply same_nodes_set|..]; rewrite ?app_nil_r.
    - rewrite Ho. by destruct l1'.
    - intros h Hh. rewrite last_snoc in Hh. by injection Hh.
    - by eapply chain_set_next. }
  rewrite bool_decide_eq_false_2.
  2:{ assert (∃ x, last (b :: l2) = Some x ∧ x ∈ b :: l2) as (x & Hx & Hxin).
      { destruct (last (b :: l2)) as [x|] eqn:Hx; [exists x; split; [done|]; by apply last_Some_elem_of|rewrite last_cons in Hx; by destruct (last l2)]. }
      rewrite (Hn x); [by intros ->|]. rewrite last_app, last_cons, Hx. done. }
  cbn [hd] in Hnx. rewrite Hnx. destruct Hc2 as (g & Hg & Hgp & Hgn & Hc2).
  assert (p ≠ b) as Hpb by (intros ->; apply (H12 b); [apply elem_of_app; right; by left|by left]).
  assert (b ∉ l1' ++ [p]) as Hbl1 by (intros Hb; by apply (H12 b Hb); left).
  assert (p ∉ b :: l2) as Hpl2 by (apply H12; apply elem_of_app; right; by left).
  assert (b ∉ l2) as Hbl2 by (apply NoDup_app in Hnd' as (_ & _ & [? _]%NoDup_cons); done).
  apply wp_bind, (wp_dirty_set _ _ f); [exact Hfe|].
  apply (wp_dirty_set _ _ g); [cbn; by rewrite lookup_insert_ne|].
  apply (Hdone (<[b := set_flushPrev p g]> (<[p := set_flushNext b f]> (dirties db))) (oldest db) (newest db)).
  - transitivity (<[p := set_flushNext b f]> (dirties db)); [by apply (same_nodes_set _ p f)|]. by apply (same_nodes_set _ b g); [rewrite lookup_insert_ne|].
  - rewrite Ho. by destruct l1'.
  - intros h Hh. apply Hn. rewrite last_app, !last_cons in *. by destruct (last l2).
  - apply chain_app. split.
    + apply chain_frame; [done|]. by eapply chain_set_next.
    + unfold last_of. rewrite last_snoc. apply (chain_set_prev _ (Some child)); [done|by rewrite lookup_insert_ne|].
      apply chain_frame; [done|]. by exists g.
Qed.

(** ** Counting *)

Definition occ {A} `{EqDecision A} (x : A) (l : list A) : nat := length (filter (λ y, y = x) l).
Abbreviation edges := (list (bytes * bytes)).
Definition indeg (E : edges) (c : bytes) : nat := occ c E.*2.

Section Occ.
Context {A : Type} `{EqDecision A}.
Implicit Types (x y : A) (l : list A).

Lemma occ_cons x y l : occ x (y :: l) = (if decide (y = x) then 1 else 0) + occ x l.
Proof. unfold occ. rewrite filter_cons. by case_decide. Qed.
Lemma occ_app x l1 l2 : occ x (l1 ++ l2) = occ x l1 + occ x l2.
Proof. unfold occ. by rewrite filter_app, length_app. Qed.
Lemma occ_elem x l : x ∈ l ↔ 0 < occ x l.
Proof.
  induction l as [|y l IH]; [by split; [intros ?%not_elem_of_nil|unfold occ; cbn; lia]|].
  rewrite elem_of_cons, occ_cons, IH. case_decide; split; intros; subst; try (left; congruence); try lia; [].
  destruct H0; [congruence|lia].
Qed.
Lemma occ_nodup x l : NoDup l → x ∈ l → occ x l = 1.
Proof.
  induction 1 as [|y l Hy Hnd IH]; [by intros ?%not_elem_of_nil|]. rewrite elem_of_cons, occ_cons.
  case_decide; [intros _; subst; rewrite (proj1 (Nat.le_0_r (occ x l))); [done|]; rewrite occ_elem in Hy; lia|].
  intros [->|Hx]; [done|]. by rewrite IH.
Qed.
Lemma occ_not_elem x l : x ∉ l → occ x l = 0.
Proof. rewrite occ_elem. lia. Qed.
Lemma occ_nil x : occ x [] = 0.
Proof. done. Qed.
Lemma occ_le x l : occ x l ≤ length l.
Proof. apply length_filter. Qed.
#[export] Instance occ_perm x : Proper ((≡ₚ) ==> (=)) (occ x).
Proof. intros l l' Hl. unfold occ. by rewrite Hl. Qed.
End Occ.

Lemma indeg_cons E p c : indeg (p :: E) c = (if decide (p.2 = c) then 1 else 0) + indeg E c.
Proof. apply occ_cons. Qed.
Lemma indeg_app E1 E2 c : indeg (E1 ++ E2) c = indeg E1 c + indeg E2 c.
Proof. unfold indeg. by rewrite fmap_app, occ_app. Qed.
Lemma indeg_elem E c : (∃ h, (h, c) ∈ E) ↔ 0 < indeg E c.
Proof.
  unfold indeg. rewrite <- occ_elem, list_elem_of_fmap. split.
  - intros [h Hh]. by exists (h, c).
  - intros ([h c'] & -> & Hh). by exists h.
Qed.
#[export] Instance indeg_perm : Proper ((≡ₚ) ==> (=) ==> (=)) indeg.
Proof. intros E E' HE c ? <-. unfold indeg. by rewrite HE. Qed.

(** ** The references of a node *)

Lemma elem_of_map_range `{!MapOrder} {A} (m : gmap bytes A) k x : (k, x) ∈ map_range m ↔ m !! k = Some x.
Proof. by rewrite map_range_perm, elem_of_map_to_list. Qed.
Lemma NoDup_map_range `{!MapOrder} {A} (m : gmap bytes A) : NoDup (map_range m).*1.
Proof. rewrite map_range_perm. apply NoDup_fst_map_to_list. Qed.
Lemma map_range_empty `{!MapOrder} {A} : map_range (∅ : gmap bytes A) = [].
Proof. apply Permutation_nil_r. by rewrite map_range_perm, map_to_list_empty. Qed.

Definition gathered (e : cachedNode) : list bytes :=
  match cn_node e with DNode r => gatherChildren r | DRaw _ => [] end.
Definition ext_count (e : cachedNode) (c : bytes) : nat :=
  match cn_children e with Some m => Z.to_nat (default 0%Z (m !! c)) | None => 0 end.
Definition links_count (e : cachedNode) (c : bytes) : nat := ext_count e c + occ c (gathered e).

Section Inv.
Context {MO : MapOrder}.
(** The children a node has by its content: the hash nodes in it and, for a
    leaf that is an account, the root of its storage. *)
Context (kids : bytes → list bytes).

Record inv (disk : gmap bytes bytes) (d : nodes) (E : edges) (pending : list bytes) : Prop := MkInv {
  iv_kids : ∀ h e c, d !! h = Some e → h ≠ zeroHash → c ∈ childs e → c ∈ kids h;
  iv_nozero : ∀ h e c, d !! h = Some e → c ∈ childs e → c ≠ zeroHash;
  iv_ext : ∀ h e m c n, d !! h = Some e → cn_children e = Some m → m !! c = Some n →
    (0 < n < 2 ^ 16)%Z ∧ (h ≠ zeroHash → n = 1%Z);
  iv_mult : ∀ h e c, d !! h = Some e → h ∉ pending → occ (h, c) E = links_count e c;
  iv_indeg : ∀ c e, d !! c = Some e → disk !! c = None → c ∉ pending → c ≠ zeroHash →
    cn_parents e = Z.of_nat (indeg E c);
  iv_src : ∀ h c, (h, c) ∈ E → is_Some (d !! h);
  iv_tgt : ∀ h c, (h, c) ∈ E → c ≠ zeroHash ∧ ((is_Some (d !! c) ∧ c ∉ pending) ∨ is_Some (disk !! c));
  iv_bound : (Z.of_nat (length E) < 2 ^ 32)%Z
}.

Lemma same_data_childs e e' : same_data e e' → childs e = childs e'.
Proof. intros (Hn & _ & _ & Hc). unfold childs, external. by rewrite Hn, Hc. Qed.
Lemma same_data_links e e' c : same_data e e' → links_count e c = links_count e' c.
Proof. intros (Hn & _ & _ & Hc). unfold links_count, ext_count, gathered. by rewrite Hn, Hc. Qed.

Lemma inv_same disk d d' E pending : same_nodes d d' → inv disk d E pending → inv disk d' E pending.
Proof.
  intros Hs [H1 H2 H3 H4 H5 H6 H7 H8].
  assert (∀ h e', d' !! h = Some e' → ∃ e, d !! h = Some e ∧ same_data e e') as Hback.
  { intros h e' He'. specialize (Hs h). rewrite He' in Hs. inversion Hs; eauto. }
  split.
  - intros h e' c (e & He & Hd)%Hback Hz Hc. apply (H1 h e); [done..|]. by rewrite (same_data_childs e e').
  - intros h e' c (e & He & Hd)%Hback Hc. apply (H2 h e); [done|]. by rewrite (same_data_childs e e').
  - intros h e' m c n (e & He & Hd)%Hback Hm. apply (H3 h e); [done|]. by destruct Hd as (_ & _ & _ & ->).
  - intros h e' c (e & He & Hd)%Hback Hp. rewrite <- (same_data_links e e') by done. by apply H4.
  - intros c e' (e & He & Hd)%Hback. destruct Hd as (_ & _ & <- & _). by apply H5.
  - intros h c Hin. rewrite <- (same_nodes_dom d) by done. by eapply H6.
  - intros h c Hin. rewrite <- (same_nodes_dom d) by done. by eapply H7.
  - done.
Qed.
Lemma inv_perm disk d E E' pending : E ≡ₚ E' → inv disk d E pending → inv disk d E' pending.
Proof.
  intros HE [H1 H2 H3 H4 H5 H6 H7 H8]. split; try done.
  - intros h e c. rewrite <- HE. apply H4.
  - intros c e. rewrite <- HE. apply H5.
  - intros h c. rewrite <- HE. apply H6.
  - intros h c. rewrite <- HE. apply H7.
  - by rewrite <- HE.
Qed.

(** ** Dropping a reference *)

(** The entry of the parent after [drop_link]. *)
Definition drop_child (child : bytes) (e : cachedNode) : cachedNode :=
  match cn_children e with
  | None => e
  | Some m =>
      let count := default 0%Z (m !! child) in
      if (0 <? count)%Z then
        set_children (Some (if (count - 1 =? 0)%Z then base.delete child m else <[child := (count - 1)%Z]> m)) e
      else e
  end.

Lemma drop_child_node child e : cn_node (drop_child child e) = cn_node e ∧ cn_parents (drop_child child e) = cn_parents e
  ∧ same_links e (drop_child child e).
Proof. unfold drop_child. destruct (cn_children e); [|done]. by case_match. Qed.
Lemma drop_child_ext child e m : cn_children (drop_child child e) = Some m →
  ∃ m0, cn_children e = Some m0 ∧ ∀ c n, m !! c = Some n →
    ∃ n0, m0 !! c = Some n0 ∧ (n = n0 ∨ (c = child ∧ n = (n0 - 1)%Z ∧ n ≠ 0%Z)).
Proof.
  unfold drop_child. destruct (cn_children e) as [m0|] eqn:Hm; [|by rewrite Hm].
  intros Heq. exists m0. split; [done|]. intros c n Hc.
  destruct (Z.ltb_spec 0 (default 0%Z (m0 !! child))); [|rewrite Hm in Heq; simplify_eq; eauto].
  cbn in Heq. simplify_eq. destruct (m0 !! child) as [n0|] eqn:Hch; cbn in *; [|lia].
  destruct (Z.eqb_spec (n0 - 1) 0).
  - apply lookup_delete_Some in Hc as [_ Hc]. eauto.
  - apply lookup_insert_Some in Hc as [[<- <-]|[_ Hc]]; [|eauto]. exists n0. split; [done|]. right. split; [done|]. split; lia.
Qed.
Lemma drop_child_count child e c : (∀ m n, cn_children e = Some m → m !! child = Some n → (0 < n)%Z) →
  ext_count (drop_child child e) c = if decide (c = child) then ext_count e c - 1 else ext_count e c.
Proof.
  intros Hpos. unfold drop_child, ext_count. destruct (cn_children e) as [m|] eqn:Hm; [|rewrite Hm; case_decide; lia].
  destruct (Z.ltb_spec 0 (default 0%Z (m !! child))) as [Hlt|Hle].
  - cbn. destruct (m !! child) as [n|] eqn:Hc; cbn in Hlt; [|lia]. change (default 0%Z (Some n)) with n.
    destruct (Z.eqb_spec (n - 1) 0), (decide (c = child)) as [->|Hne].
    + rewrite lookup_delete_eq, Hc. cbn. lia.
    + by rewrite lookup_delete_ne.
    + rewrite lookup_insert_eq, Hc. cbn. lia.
    + by rewrite lookup_insert_ne.
  - rewrite Hm. case_decide; subst; lia.
Qed.

Definition dec (e : cachedNode) : Z := if (0 <? cn_parents e)%Z then (cn_parents e - 1)%Z else cn_parents e.
(** The nodes after the head of [dereference]. *)
Definition drop_edge (child parent : bytes) (ep : cachedNode) (d : nodes) : nodes :=
  let d := <[parent := drop_child child ep]> d in
  match d !! child with Some node => <[child := set_parents (dec node) node]> d | None => d end.

Lemma external_elem e c : c ∈ external e ↔ ∃ m n, cn_children e = Some m ∧ m !! c = Some n.
Proof.
  unfold external. destruct (cn_children e) as [m|]; [|split; [by intros ?%not_elem_of_nil|intros (? & ? & ? & ?); congruence]].
  rewrite list_elem_of_fmap. split.
  - intros ([c' n] & -> & Hin%elem_of_map_range). eauto.
  - intros (m' & n & Heq & Hn). simplify_eq. exists (c, n). split; [done|]. by apply elem_of_map_range.
Qed.
Lemma drop_child_childs child e c : c ∈ childs (drop_child child e) → c ∈ childs e.
Proof.
  unfold childs. rewrite !elem_of_app. destruct (drop_child_node child e) as [-> _]. intros [Hc|Hc]; [left|by right].
  apply external_elem in Hc as (m & n & Hm & Hn). apply external_elem.
  destruct (drop_child_ext child e m Hm) as (m0 & Hm0 & Hmm). destruct (Hmm c n Hn) as (n0 & Hn0 & _). eauto.
Qed.

Lemma drop_edge_lookup child parent ep d h e' : child ≠ parent → d !! parent = Some ep →
  drop_edge child parent ep d !! h = Some e' →
  ∃ e, d !! h = Some e ∧ (h = child ∧ e' = set_parents (dec e) e ∨ h = parent ∧ e' = drop_child child e ∨
    h ≠ child ∧ h ≠ parent ∧ e' = e).
Proof.
  intros Hne Hep. unfold drop_edge. rewrite lookup_insert_ne by done.
  destruct (d !! child) as [node|] eqn:Hc; intros Hl.
  - apply lookup_insert_Some in Hl as [[<- <-]|[Hhc Hl]]; [eauto|].
    apply lookup_insert_Some in Hl as [[<- <-]|[Hhp Hl]]; [eauto 6|]. exists e'. split; [done|]. right; right. done.
  - apply lookup_insert_Some in Hl as [[<- <-]|[Hhp Hl]]; [eauto 6|]. exists e'. split; [done|]. right; right.
    split; [congruence|done].
Qed.
Lemma drop_edge_dom child parent ep d h : child ≠ parent → d !! parent = Some ep →
  is_Some (d !! h) ↔ is_Some (drop_edge child parent ep d !! h).
Proof.
  intros Hne Hep. unfold drop_edge. rewrite lookup_insert_ne by done.
  destruct (d !! child) as [node|] eqn:Hc.
  - destruct (decide (h = child)) as [->|]; [rewrite lookup_insert_eq, Hc; by split; intros; eexists|].
    rewrite lookup_insert_ne by done.
    destruct (decide (h = parent)) as [->|]; [rewrite lookup_insert_eq, Hep; by split; intros; eexists|].
    by rewrite lookup_insert_ne.
  - destruct (decide (h = parent)) as [->|]; [rewrite lookup_insert_eq, Hep; by split; intros; eexists|].
    by rewrite lookup_insert_ne.
Qed.

Lemma inv_drop_edge disk d E pending parent child ep :
  inv disk d ((parent, child) :: E) pending → d !! parent = Some ep → child ≠ parent →
  (parent ∉ pending → gathered ep = []) → inv disk (drop_edge child parent ep d) E pending.
Proof.
  intros [H1 H2 H3 H4 H5 H6 H7 H8] Hep Hne Hg.
  split.
  - intros h e' c (e & He & Hcase)%drop_edge_lookup; try done. intros Hz Hc. apply (H1 h e); [done..|].
    destruct Hcase as [[_ ->]|[[_ ->]|(_ & _ & ->)]]; [done|by apply drop_child_childs in Hc|done].
  - intros h e' c (e & He & Hcase)%drop_edge_lookup; try done. intros Hc. apply (H2 h e); [done|].
    destruct Hcase as [[_ ->]|[[_ ->]|(_ & _ & ->)]]; [done|by apply drop_child_childs in Hc|done].
  - intros h e' m c n (e & He & Hcase)%drop_edge_lookup; try done. intros Hm Hn.
    destruct Hcase as [[_ ->]|[[-> ->]|(_ & _ & ->)]]; [by apply (H3 h e m c)| |by apply (H3 h e m c)].
    destruct (drop_child_ext child e m Hm) as (m0 & Hm0 & Hmm).
    destruct (Hmm c n Hn) as (n0 & Hn0 & [->|(-> & -> & Hnz)]); [by apply (H3 parent e m0 c)|].
    destruct (H3 parent e m0 child n0 He Hm0 Hn0) as [Hr Hone]. split; [lia|]. intros Hz. specialize (Hone Hz). lia.
  - intros h e' c (e & He & Hcase)%drop_edge_lookup; try done. intros Hp. pose proof (H4 h e c He Hp) as Hmult.
    rewrite occ_cons in Hmult. destruct Hcase as [[-> ->]|[[-> ->]|(Hhc & Hhp & ->)]].
    + rewrite decide_False in Hmult by congruence. done.
    + rewrite Hep in He. injection He as <-. specialize (Hg Hp). unfold links_count in *.
      assert (gathered (drop_child child ep) = []) as Hg' by (unfold gathered in *; by destruct (drop_child_node child ep) as [-> _]).
      rewrite Hg', occ_nil. rewrite Hg, occ_nil in Hmult.
      rewrite drop_child_count by (intros m n Hm Hn; by apply (H3 parent ep m child n)).
      destruct (decide (c = child)) as [->|]; [rewrite decide_True in Hmult by done|rewrite decide_False in Hmult by congruence]; lia.
    + rewrite decide_False in Hmult by congruence. done.
  - intros c e' (e & He & Hcase)%drop_edge_lookup; try done. intros Hd Hp Hz. pose proof (H5 c e He Hd Hp Hz) as Hin.
    rewrite indeg_cons in Hin. cbn [snd] in Hin. destruct Hcase as [[-> ->]|[[-> ->]|(Hhc & Hhp & ->)]].
    + rewrite decide_True in Hin by done. cbn. unfold dec. destruct (Z.ltb_spec 0 (cn_parents e)); lia.
    + rewrite decide_False in Hin by done. destruct (drop_child_node child e) as (_ & -> & _). done.
    + rewrite decide_False in Hin by congruence. done.
  - intros h c Hin. rewrite <- drop_edge_dom by done. apply (H6 h c). by right.
  - intros h c Hin. rewrite <- drop_edge_dom by done. apply (H7 h c). by right.
  - cbn in H8. lia.
Qed.

End Inv.

Lemma drop_edge_head {Cl} child parent ep (db : Database Cl) (Q : () → Database Cl → Prop) :
  dirties db !! parent = Some ep → child ≠ parent →
  (∀ z, Q () (add_childrenSize z (set_dirties (<[parent := drop_child child ep]> (dirties db)) db))) →
  wp (drop_link child parent) Q db.
Proof.
  intros Hep Hne HQ. unfold drop_link, dirty_ptr. wp_steps. rewrite Hep. wp_steps. unfold drop_child in HQ.
  assert (∀ f, f ep = ep → ∀ z, add_childrenSize z (set_dirties (<[parent := f ep]> (dirties db)) db) = add_childrenSize z db) as Hid.
  { intros f Hf z. rewrite Hf, insert_id by done. by destruct db. }
  destruct (cn_children ep) as [m|].
  2:{ wp_steps. specialize (HQ 0%Z). rewrite (Hid (λ e, e)) in HQ by done. unfold add_childrenSize in HQ. rewrite Z.add_0_r in HQ. by destruct db. }
  destruct (0 <? default 0 (m !! child))%Z.
  2:{ wp_steps. specialize (HQ 0%Z). rewrite (Hid (λ e, e)) in HQ by done. unfold add_childrenSize in HQ. rewrite Z.add_0_r in HQ. by destruct db. }
  destruct (default 0 (m !! child) - 1 =? 0)%Z.
  - apply wp_bind, (wp_dirty_set _ _ ep); [done|]. wp_steps. apply HQ.
  - apply (wp_dirty_set _ _ ep); [done|]. specialize (HQ 0%Z). unfold add_childrenSize in HQ. cbn in HQ. rewrite Z.add_0_r in HQ. exact HQ.
Qed.

(** ** Garbage collection *)

(** What may have happened to the nodes between two states. *)
Definition survive (d d' : nodes) (parent : bytes) : Prop :=
  ∀ h e', d' !! h = Some e' → ∃ e, d !! h = Some e ∧ cn_node e' = cn_node e ∧
    (h ≠ parent → cn_children e' = cn_children e) ∧ (is_Some (cn_children e) → is_Some (cn_children e')).
Definition same_rest {Cl} (db db' : Database Cl) : Prop :=
  diskdb db' = diskdb db ∧ cleans db' = cleans db ∧ preimages db' = preimages db ∧ preimagesSize db' = preimagesSize db.

Lemma same_rest_trans {Cl} (db1 db2 db3 : Database Cl) : same_rest db1 db2 → same_rest db2 db3 → same_rest db1 db3.
Proof. unfold same_rest. intuition congruence. Qed.
Lemma survive_refl d p : survive d d p.
Proof. intros h e He. eauto 6. Qed.
Lemma survive_trans d1 d2 d3 p : survive d1 d2 p → survive d2 d3 p → survive d1 d3 p.
Proof.
  intros H1 H2 h e3 (e2 & He2 & Hn2 & Hc2 & Hs2)%H2. destruct (H1 h e2 He2) as (e1 & He1 & Hn1 & Hc1 & Hs1).
  exists e1. split; [done|]. split; [congruence|]. split; [intros Hp; by rewrite Hc2, Hc1|auto].
Qed.
Lemma survive_drop_edge child parent ep d : child ≠ parent → d !! parent = Some ep →
  survive d (drop_edge child parent ep d) parent.
Proof.
  intros Hne Hep h e' (e & He & Hcase)%drop_edge_lookup; [|done..]. exists e. split; [done|].
  destruct Hcase as [[-> ->]|[[-> ->]|(_ & _ & ->)]]; [done| |done].
  destruct (drop_child_node child e) as (-> & _). split; [done|]. split; [done|]. intros [m Hm]. unfold drop_child.
  rewrite Hm. case_match; [by eexists|]. by rewrite Hm.
Qed.
Lemma survive_same d d' p : same_nodes d d' → survive d d' p.
Proof.
  intros Hs h e' He'. specialize (Hs h). rewrite He' in Hs. inversion Hs as [e ? Hd Heq|]; subst.
  exists e. destruct Hd as (Hn & _ & _ & Hc). by rewrite Hn, Hc.
Qed.
Lemma survive_delete d d' p a : survive d d' a → survive d (base.delete a d') p.
Proof.
  intros Hs h e' [Hne He']%lookup_delete_Some. destruct (Hs h e' He') as (e & He & Hn & Hc & Hsm).
  exists e. split; [done|]. split; [done|]. split; [|done]. intros _. by apply Hc.
Qed.

Lemma flist_ext d d' o n l pending : (∀ h, is_Some (d !! h) ↔ is_Some (d' !! h)) →
  (∀ h e', d' !! h = Some e' → ∃ e, d !! h = Some e ∧ same_links e e') → flist d o n l pending → flist d' o n l pending.
Proof.
  intros Hdom Hs [H1 H2 H3 H4 H5 H6 H7]. split; try done.
  - by apply Hdom.
  - intros h. by rewrite <- Hdom.
  - revert H7. apply chain_ext. intros h e _ He. destruct (proj1 (Hdom h)) as [e' He']; [eauto|].
    destruct (Hs h e' He') as (e0 & He0 & Hl). rewrite He in He0. injection He0 as <-. eauto.
Qed.
Lemma flist_drop_edge child parent ep d o n l pending : child ≠ parent → d !! parent = Some ep →
  flist d o n l pending → flist (drop_edge child parent ep d) o n l pending.
Proof.
  intros Hne Hep. apply flist_ext; [intros h; by apply drop_edge_dom|].
  intros h e' (e & He & Hcase)%drop_edge_lookup; [|done..]. exists e. split; [done|].
  destruct Hcase as [[_ ->]|[[_ ->]|(_ & _ & ->)]]; [done| |done]. by destruct (drop_child_node child e) as (_ & _ & ?).
Qed.
Lemma flist_delete d o n l pending a : a ≠ zeroHash → a ∉ pending → flist d o n l (a :: pending) → flist (base.delete a d) o n l pending.
Proof.
  intros Ha Hp [H1 H2 H3 H4 H5 H6 H7]. assert (a ∉ l) as Hal by (intros (_ & _ & Hx)%H4; apply Hx; by left).
  split; try done.
  - by rewrite lookup_delete_ne.
  - intros h. rewrite H4, not_elem_of_cons. destruct (decide (h = a)) as [->|Hne].
    + rewrite lookup_delete_eq. split; [tauto|]. intros (_ & [? ?] & _). done.
    + rewrite lookup_delete_ne by done. tauto.
  - by apply chain_delete.
Qed.

Section Collect.
Context {MO : MapOrder}.
Context (kids : bytes → list bytes).
Local Abbreviation inv := (inv kids).

(** A node without references becomes pending, and is deleted when its own
    references are gone. *)
Lemma inv_pend disk d E pending a : (disk !! a = None → indeg E a = 0) → inv disk d E pending → inv disk d E (a :: pending).
Proof.
  intros Ha [H1 H2 H3 H4 H5 H6 H7 H8]. split; try done.
  - intros h e c He [_ Hp]%not_elem_of_cons. by apply H4.
  - intros c e He Hd [_ Hp]%not_elem_of_cons. by apply H5.
  - intros h c Hin. destruct (H7 h c Hin) as [Hz [[Hd Hp]|Hd]]; split; [done| |done|by right].
    destruct (disk !! c) eqn:Hdc; [by right; eexists|]. left. split; [done|]. apply not_elem_of_cons. split; [|done].
    intros ->. specialize (Ha Hdc). assert (0 < indeg E a); [|lia]. apply indeg_elem. eauto.
Qed.
Lemma inv_delete disk d E pending a : (∀ c, (a, c) ∉ E) → inv disk d E (a :: pending) → a ∉ pending → inv disk (base.delete a d) E pending.
Proof.
  intros Ha [H1 H2 H3 H4 H5 H6 H7 H8] Hp. split; try done.
  - intros h e c [_ He]%lookup_delete_Some. by apply (H1 h e).
  - intros h e c [_ He]%lookup_delete_Some. by apply (H2 h e).
  - intros h e m c n [_ He]%lookup_delete_Some. by apply (H3 h e).
  - intros h e c [Hne He]%lookup_delete_Some Hhp. apply H4; [done|]. apply not_elem_of_cons. done.
  - intros c e [Hne He]%lookup_delete_Some Hd Hcp. apply H5; [done..|]. apply not_elem_of_cons. done.
  - intros h c Hin. rewrite lookup_delete_ne; [by apply (H6 h c)|]. intros ->. by apply (Ha c).
  - intros h c Hin. destruct (H7 h c Hin) as [Hz [[Hd Hcp]|Hd]]; split; [done| |done|by right].
    apply not_elem_of_cons in Hcp as [Hne Hcp]. left. by rewrite lookup_delete_ne.
Qed.

Lemma external_count h disk d E pending e c : inv disk d E pending → d !! h = Some e → h ≠ zeroHash →
  occ c (external e) = ext_count e c.
Proof.
  intros Hi He Hz. unfold external, ext_count. destruct (cn_children e) as [m|] eqn:Hm; [|done].
  assert (NoDup (map_range m).*1) as Hnd by apply NoDup_map_range.
  destruct (m !! c) as [n|] eqn:Hc.
  - destruct (iv_ext _ _ _ _ _ Hi h e m c n He Hm Hc) as [_ Hone]. rewrite (Hone Hz). cbn.
    apply occ_nodup; [done|]. apply list_elem_of_fmap. exists (c, n). split; [done|]. by apply elem_of_map_range.
  - cbn. apply occ_not_elem. intros ([c' n] & Heq & Hin%elem_of_map_range)%list_elem_of_fmap. cbn in Heq. congruence.
Qed.
Lemma childs_count h disk d E pending e c : inv disk d E pending → d !! h = Some e → h ≠ zeroHash →
  occ c (childs e) = links_count e c.
Proof.
  intros Hi He Hz. unfold childs, links_count. rewrite occ_app, (external_count h disk d E pending); [|done..].
  unfold gathered. by destruct (cn_node e).
Qed.

Section Dereference.
(** No node is its own descendant: a child has a smaller rank. *)
Context (rank : bytes → nat) (Hrank : ∀ h c, c ∈ kids h → rank c < rank h).
Context {Cl : Type}.
Implicit Types db : Database Cl.

Record deref_post db (Epre E : edges) (l pending : list bytes) (parent : bytes) db' (E1 D : edges) (l' : list bytes) : Prop := MkPost {
  dp_inv : inv (diskdb db) (dirties db') E1 pending;
  dp_flist : flist (dirties db') (oldest db') (newest db') l' pending;
  dp_sub : l' `sublist_of` l;
  dp_edges : E ≡ₚ E1 ++ D;
  dp_gone : ∀ p, p ∈ D → dirties db' !! p.1 = None;
  dp_survive : survive (dirties db) (dirties db') parent;
  dp_pending : ∀ p, p ∈ pending → is_Some (dirties db' !! p);
  (** a node left without references had none before *)
  dp_live : ∀ h, is_Some (dirties db' !! h) → diskdb db !! h = None → h ≠ zeroHash → h ∉ pending →
    indeg E1 h = 0 → indeg Epre h = 0;
  dp_rest : same_rest db db'
}.
Definition deref_spec (fuel : nat) : Prop := ∀ child parent db E l pending ep,
  inv (diskdb db) (dirties db) ((parent, child) :: E) pending →
  flist (dirties db) (oldest db) (newest db) l pending →
  dirties db !! parent = Some ep →
  rank child < fuel →
  (∀ p, p ∈ pending → p ≠ zeroHash ∧ rank child < rank p ∧ is_Some (dirties db !! p)) →
  (parent ∈ pending ∨ parent = zeroHash ∧ gathered ep = []) →
  wp (dereference fuel child parent) (λ _ db', ∃ E1 D l', deref_post db ((parent, child) :: E) E l pending parent db' E1 D l') db.

(** The walk over the children of a pending node. *)
Lemma deref_walk fuel child pending : deref_spec fuel → child ≠ zeroHash → rank child ≤ fuel →
  (∀ p, p ∈ pending → p ≠ zeroHash ∧ rank child < rank p) →
  ∀ rest db E l,
  inv (diskdb db) (dirties db) E (child :: pending) → flist (dirties db) (oldest db) (newest db) l (child :: pending) →
  (∀ p, p ∈ child :: pending → is_Some (dirties db !! p)) →
  (∀ c, occ (child, c) E = occ c rest) → (∀ c, c ∈ rest → c ∈ kids child) →
  wp ((fix walk (l : list bytes) : M (Database Cl) () :=
         match l with
         | [] => mret' ()
         | hash :: l => do! dereference fuel hash child in walk l
         end) rest)
    (λ _ db', ∃ E0 E1 D l', E ≡ₚ map (child,.) rest ++ E0 ∧
       deref_post db E E0 l (child :: pending) child db' E1 D l' ∧ (∀ c, (child, c) ∉ E1)) db.
Proof using Hrank.
  intros Hspec Hz Hfuel Hpend. induction rest as [|c rest IH]; intros db E l Hi Hf Hp Hocc Hkids.
  { wp_steps. exists E, E, [], l. split; [done|]. split.
    - split; [done|done|done|by rewrite app_nil_r|by intros ? ?%not_elem_of_nil|apply survive_refl|done|done|done].
    - intros c. rewrite occ_elem, Hocc, occ_nil. lia. }
  assert (∃ E', E ≡ₚ (child, c) :: E') as [E' HE].
  { apply elem_of_Permutation. rewrite occ_elem, Hocc, occ_cons, decide_True by done. lia. }
  assert (∀ x, occ (child, x) E' = occ x rest) as Hocc'.
  { intros x. specialize (Hocc x). rewrite HE, !occ_cons in Hocc. destruct (decide (c = x)) as [->|].
    - rewrite decide_True in Hocc by done. lia.
    - rewrite decide_False in Hocc by congruence. lia. }
  destruct (Hp child) as [ec Hec]; [by left|]. assert (rank c < rank child) by (apply Hrank, Hkids; by left).
  eapply wp_seq.
  { apply (Hspec c child db E' l (child :: pending) ec); [by eapply inv_perm|done|done|lia| |left; by left].
    intros p Hin. split_and!; [..|by apply Hp]; apply elem_of_cons in Hin as [->|Hin]; [done|by apply Hpend|done|].
    apply Hpend in Hin. lia. }
  cbv beta. intros [] db1 (E1 & D1 & l1 & Hpost). destruct Hpost as [Hi1 Hf1 Hsub1 HE1 Hgone1 Hsv1 Hp1 Hlv1 Hr1].
  assert (∀ x, (child, x) ∉ D1) as HD1.
  { intros x Hx%Hgone1. cbn in Hx. destruct (Hp1 child) as [? ?]; [by left|]. congruence. }
  eapply wp_wand; [apply (IH db1 E1 l1)|].
  - by destruct Hr1 as (-> & _).
  - done.
  - done.
  - intros x. rewrite <- Hocc', HE1, occ_app, (occ_not_elem _ _ (HD1 x)). lia.
  - intros x Hx. apply Hkids. by right.
  - cbv beta. intros [] db2 (E0 & E2 & D2 & l2 & HE0 & [Hi2 Hf2 Hsub2 HE2 Hgone2 Hsv2 Hp2 Hlv2 Hr2] & Hno).
    exists (E0 ++ D1), E2, (D2 ++ D1), l2. split; [|split; [|done]].
    + rewrite HE, HE1, HE0. cbn. by rewrite <- app_assoc.
    + split; try done.
      * by destruct Hr1 as (<- & _).
      * by transitivity l1.
      * by rewrite HE2, app_assoc.
      * intros p [Hin|Hin]%elem_of_app; [by apply Hgone2|]. destruct (dirties db2 !! p.1) eqn:Hd; [|done].
        destruct (Hsv2 _ _ Hd) as (e & He & _). rewrite Hgone1 in He by done. done.
      * by eapply survive_trans.
      * intros h Hh Hd Hhz Hhp H0. rewrite HE. apply Hlv1; [|done..|].
        { destruct Hh as [e2 He2]. destruct (Hsv2 _ _ He2) as (e & He & _). by eexists. }
        apply Hlv2; [done| |done..]. by destruct Hr1 as (-> & _).
      * by eapply same_rest_trans.
Qed.

Lemma drop_edge_eq child parent ep d : child ≠ parent → d !! child = None →
  drop_edge child parent ep d = <[parent := drop_child child ep]> d.
Proof. intros Hne Hc. unfold drop_edge. by rewrite lookup_insert_ne, Hc. Qed.

Lemma dereference_ok fuel : deref_spec fuel.
Proof using Hrank.
  induction fuel as [|fuel IH]; intros child parent db E l pending ep Hi Hf Hep Hfuel Hpend Hpar; [lia|].
  destruct (iv_tgt _ _ _ _ _ Hi parent child) as [Hcz _]; [by left|].
  assert (child ∉ pending) as Hcp by (intros Hin%Hpend; lia).
  assert (child ≠ parent) as Hne by (intros ->; destruct Hpar as [?|[? _]]; done).
  assert (parent ∉ pending → gathered ep = []) as Hg by (destruct Hpar as [?|[_ ?]]; done).
  pose proof (inv_drop_edge _ _ _ _ _ _ _ _ Hi Hep Hne Hg) as Hi1.
  pose proof (flist_drop_edge _ _ _ _ _ _ _ _ Hne Hep Hf) as Hf1.
  pose proof (survive_drop_edge _ _ _ _ Hne Hep) as Hsv1.
  assert (∀ p, p ∈ pending → is_Some (drop_edge child parent ep (dirties db) !! p)) as Hp1.
  { intros p Hin. rewrite <- drop_edge_dom by done. by apply Hpend. }
  cbn [dereference]. apply wp_bind, (drop_edge_head _ _ ep); [done..|]. intros z. wp_steps. cbn [dirties add_childrenSize set_dirties].
  destruct (<[parent := drop_child child ep]> (dirties db) !! child) as [node|] eqn:Hnode.
  2:{ wp_steps. rewrite lookup_insert_ne in Hnode by done. rewrite drop_edge_eq in * by done.
      exists E, [], l. split; cbn; [done|done|done|by rewrite app_nil_r|by intros ? ?%not_elem_of_nil|done|done| |done].
      intros h [e He] Hd Hhz Hhp H0. change (indeg E h = 0) in H0. change (indeg ((parent, child) :: E) h = 0).
      rewrite indeg_cons, H0. cbn [snd]. rewrite decide_False; [done|]. intros <-.
      by rewrite lookup_insert_ne, Hnode in He. }
  unfold drop_edge in Hi1, Hf1, Hsv1, Hp1. rewrite Hnode in Hi1, Hf1, Hsv1, Hp1. fold (dec node).
  apply wp_bind, (wp_dirty_set _ _ node); [done|].
  set (d1 := <[parent := drop_child child ep]> (dirties db)) in *. cbn [dirties set_dirties].
  destruct (Z.eqb_spec (dec node) 0) as [Hzero|Hnz].
  2:{ wp_steps. exists E, [], l. split; cbn; [done|done|done|by rewrite app_nil_r|by intros ? ?%not_elem_of_nil|done|done| |done].
      intros h Hh Hd Hhz Hhp H0. change (indeg E h = 0) in H0. change (indeg ((parent, child) :: E) h = 0).
      rewrite indeg_cons, H0. cbn [snd]. rewrite decide_False; [done|]. intros <-. apply Hnz.
      pose proof (iv_indeg _ _ _ _ _ Hi1 child (set_parents (dec node) node)) as Hx.
      rewrite lookup_insert_eq in Hx. specialize (Hx eq_refl Hd Hcp Hcz). cbn in Hx. lia. }
  assert (child ∈ l) as Hin.
  { apply (fl_dom _ _ _ _ _ Hf1). split; [done|]. split; [|done]. rewrite lookup_insert_eq. by eexists. }
  set (db1 := set_dirties _ _). change (unlink child node) with (unlink (Cl := Cl) child (set_parents (dec node) node)).
  eapply wp_seq; [apply (unlink_ok db1 l pending); [done..|by apply lookup_insert_eq]|].
  cbv beta. intros [] db2 (d2 & o & n & l1 & l2 & -> & Hl & Hsame & Hf2). cbn [dirties db1 set_dirties] in Hsame.
  destruct (same_nodes_lookup _ _ child (set_parents (dec node) node) Hsame) as (node2 & Hnode2 & Hd2); [by apply lookup_insert_eq|].
  pose proof (inv_same _ _ _ _ _ _ Hsame Hi1) as Hi2.
  assert (childs node = childs node2) as Hch by (by rewrite <- (same_data_childs _ _ Hd2)).
  assert (∀ c, occ (child, c) E = occ c (childs node)) as Hocc.
  { intros c. rewrite Hch, (childs_count child _ _ _ _ _ _ Hi2) by done. by apply (iv_mult _ _ _ _ _ Hi2). }
  assert (diskdb db !! child = None → indeg E child = 0) as Hdeg.
  { intros Hd. pose proof (iv_indeg _ _ _ _ _ Hi1 child (set_parents (dec node) node)) as Hx.
    rewrite lookup_insert_eq in Hx. specialize (Hx eq_refl Hd Hcp Hcz). cbn in Hx. lia. }
  eapply wp_seq.
  { apply (deref_walk fuel child pending) with (E := E) (l := l1 ++ l2); [done|done|lia|intros p Hp; apply Hpend in Hp; tauto| | | |done|].
    - by apply inv_pend.
    - done.
    - cbn. intros p [->|Hp]%elem_of_cons; [by eexists|]. rewrite <- (same_nodes_dom _ _ p Hsame). by apply Hp1.
    - intros c. rewrite Hch. by apply (iv_kids _ _ _ _ _ Hi2). }
  cbv beta. intros [] db3 (E0 & E1 & D & l3 & HE & [Hi3 Hf3 Hsub3 HE3 Hgone3 Hsv3 Hp3 Hlv3 Hr3] & Hno).
  cbn [dirties diskdb relinked set_dirties set_ends db1 add_childrenSize] in *.
  assert (∀ w, ∃ E1' D' l', deref_post db ((parent, child) :: E) E l pending parent (add_childrenSize w
    (add_dirtiesSize (- (HashLength + cn_size node)) (set_dirties (base.delete child (dirties db3)) db3))) E1' D' l') as Hdone.
  { intros w. exists E1, (map (child,.) (childs node) ++ D), l3. split; cbn.
    - by apply inv_delete.
    - by apply flist_delete.
    - rewrite Hl. transitivity (l1 ++ l2); [done|]. apply sublist_app; [done|]. by apply sublist_cons.
    - rewrite HE, HE3, !app_assoc. f_equiv. apply Permutation_app_comm.
    - intros p [Hin'|Hin']%elem_of_app.
      + apply list_elem_of_fmap in Hin' as (c & -> & _). apply lookup_delete_eq.
      + apply lookup_delete_None. right. by apply Hgone3.
    - eapply survive_trans; [exact Hsv1|]. eapply survive_trans; [by eapply survive_same|]. by eapply survive_delete.
    - intros p Hp. rewrite lookup_delete_ne by (by intros ->). apply Hp3. by right.
    - intros h [e [Hhc He]%lookup_delete_Some] Hd Hhz Hhp H0. change (indeg ((parent, child) :: E) h = 0).
      rewrite indeg_cons, decide_False by (cbn; congruence).
      apply Hlv3; [by eexists|done|done| |done]. by apply not_elem_of_cons.
    - exact Hr3. }
  wp_steps. destruct (cn_children node); wp_steps; [by apply Hdone|]. specialize (Hdone 0%Z).
  unfold add_childrenSize in Hdone. rewrite Z.add_0_r in Hdone. exact Hdone.
Qed.
End Dereference.
End Collect.
