(* ===== verification/TrieDBRef.v ===== *)
(** * Insertion, references and garbage collection

    [insert] and [reference] keep the flush list and the reference counts of
    TrieDBGC, a new database satisfies them, and [Dereference] of a root keeps
    every node that another referenced root still reaches. *)

From Stdlib Require Import ZArith Lia.
From stdpp Require Import gmap.
From S2P Require Import Prelude Errors Rlp Fullnode Messages Trie TriePure TrieLaws TrieHash TrieRoot TrieNode TrieDB TrieDBGC.
Open Scope didux_scope.
Open Scope nat_scope.

(** ** The parents of a new node's children *)

Definition bump1 (d : nodes) (c : bytes) : nodes :=
  match d !! c with Some e => <[c := set_parents (u32 (cn_parents e + 1)) e]> d | None => d end.
Definition bump (l : list bytes) (d : nodes) : nodes := foldl bump1 d l.

Lemma add_parents_ok {Cl} l (db : Database Cl) (Q : () → Database Cl → Prop) :
  Q () (set_dirties (bump l (dirties db)) db) → wp (add_parents l) Q db.
Proof.
  revert db. induction l as [|c l IH]; intros db HQ; cbn [add_parents].
  { wp_steps. cbn in HQ. by destruct db. }
  wp_steps. cbn in HQ. unfold bump1 in HQ. destruct (dirties db !! c) as [e|] eqn:He.
  - apply wp_bind, (wp_dirty_set _ _ e); [done|]. apply IH. exact HQ.
  - wp_steps. by apply IH.
Qed.

(** The only change is the number of parents. *)
Definition reparented (k : bytes → nat) (d d' : nodes) : Prop :=
  ∀ h, match d !! h with
       | Some e => ∃ p, d' !! h = Some (set_parents p e) ∧
           ((0 ≤ cn_parents e)%Z → (cn_parents e + Z.of_nat (k h) < 2 ^ 32)%Z → p = (cn_parents e + Z.of_nat (k h))%Z)
       | None => d' !! h = None
       end.
Lemma bump_reparented l : ∀ d, reparented (λ h, occ h l) d (bump l d).
Proof.
  induction l as [|c l IH]; intros d h.
  { cbn. destruct (d !! h) as [e|]; [|done]. exists (cn_parents e). split; [by destruct e|]. cbn. lia. }
  specialize (IH (bump1 d c) h). change (bump (c :: l) d) with (bump l (bump1 d c)). cbv beta in *. rewrite occ_cons.
  assert (bump1 d c !! h = if decide (c = h) then (λ e, set_parents (u32 (cn_parents e + 1)) e) <$> d !! h else d !! h) as Hb.
  { unfold bump1. destruct (d !! c) as [e|] eqn:He; case_decide; subst.
    - by rewrite lookup_insert_eq, He.
    - by rewrite lookup_insert_ne.
    - by rewrite He.
    - done. }
  rewrite Hb in IH. destruct (d !! h) as [e|]; case_decide; cbn [fmap option_fmap option_map] in IH; try done.
  destruct IH as (p & -> & Hp). exists p. split; [done|]. intros H0 H1. cbn [cn_parents set_parents] in Hp. unfold u32 in Hp.
  rewrite Z.mod_small in Hp by lia. rewrite Hp; lia.
Qed.
Lemma reparented_lookup k d d' h e' : reparented k d d' → d' !! h = Some e' →
  ∃ e p, d !! h = Some e ∧ e' = set_parents p e ∧
    ((0 ≤ cn_parents e)%Z → (cn_parents e + Z.of_nat (k h) < 2 ^ 32)%Z → p = (cn_parents e + Z.of_nat (k h))%Z).
Proof.
  intros Hr He'. specialize (Hr h). destruct (d !! h) as [e|]; [|congruence].
  destruct Hr as (p & Hl & Hp). rewrite Hl in He'. injection He' as <-. eauto.
Qed.
Lemma reparented_dom k d d' h : reparented k d d' → is_Some (d !! h) ↔ is_Some (d' !! h).
Proof.
  intros Hr. specialize (Hr h). destruct (d !! h) as [e|]; [destruct Hr as (p & -> & _); by split; intros; eexists|by rewrite Hr].
Qed.
Lemma reparented_flist k d d' o n l pending : reparented k d d' → flist d o n l pending → flist d' o n l pending.
Proof.
  intros Hr. apply flist_ext; [intros h; by eapply reparented_dom|].
  intros h e' He'. destruct (reparented_lookup _ _ _ _ _ Hr He') as (e & p & He & -> & _). by exists e.
Qed.

(** Entries with the same content and references. *)
Definition same_content (e e' : cachedNode) : Prop := cn_node e = cn_node e' ∧ cn_children e = cn_children e'.
Lemma same_content_childs `{!MapOrder} e e' : same_content e e' → childs e = childs e' ∧ rlp e = rlp e'.
Proof. intros [Hn Hc]. unfold childs, external, rlp. by rewrite Hn, Hc. Qed.
Lemma reparented_same k d d1 d' h e' : reparented k d d1 → same_nodes d1 d' → d' !! h = Some e' →
  ∃ e, d !! h = Some e ∧ same_content e e'.
Proof.
  intros Hr Hs He'. specialize (Hs h). rewrite He' in Hs. inversion Hs as [e1 ? Hd Heq|]; subst. symmetry in Heq.
  destruct (reparented_lookup _ _ _ _ _ Hr Heq) as (e & p & He & -> & _). exists e. split; [done|].
  destruct Hd as (Hn & _ & _ & Hc). by split.
Qed.

Section Ref.
Context {MO : MapOrder}.
Context (kids : bytes → list bytes).
Local Abbreviation inv := (inv kids).

(** New references, all from one node [a]; its entry becomes [ea]. *)
Lemma inv_add disk d d' E a ea cs :
  inv disk d E [] → reparented (λ h, occ h cs) d d' →
  (a ≠ zeroHash → ∀ c, c ∈ childs ea → c ∈ kids a) →
  (∀ c, c ∈ childs ea → c ≠ zeroHash) →
  (∀ m c n, cn_children ea = Some m → m !! c = Some n → (0 < n < 2 ^ 16)%Z ∧ (a ≠ zeroHash → n = 1%Z)) →
  (∀ c, occ c cs + occ (a, c) E = links_count ea c) →
  (disk !! a = None → a ≠ zeroHash → cn_parents ea = Z.of_nat (indeg E a)) →
  (a ∉ cs) →
  (∀ c, c ∈ cs → c ≠ zeroHash ∧ (is_Some (d !! c) ∨ is_Some (disk !! c))) →
  (Z.of_nat (length cs + length E) < 2 ^ 32)%Z →
  inv disk (<[a := ea]> d') (map (a,.) cs ++ E) [].
Proof.
  intros [H1 H2 H3 H4 H5 H6 H7 H8] Hr Hk Hz Hext Hmult Hdeg Hacs Hcs Hlen.
  assert (∀ h, is_Some (d !! h) → is_Some (<[a := ea]> d' !! h)) as Hdom.
  { intros h Hh. destruct (decide (h = a)) as [->|Hne]; [rewrite lookup_insert_eq; by eexists|].
    rewrite lookup_insert_ne by done. by apply (reparented_dom _ _ _ _ Hr). }
  assert (∀ h e', <[a := ea]> d' !! h = Some e' → h = a ∧ e' = ea ∨ h ≠ a ∧ ∃ e p, d !! h = Some e ∧ e' = set_parents p e ∧
    ((0 ≤ cn_parents e)%Z → (cn_parents e + Z.of_nat (occ h cs) < 2 ^ 32)%Z → p = (cn_parents e + Z.of_nat (occ h cs))%Z)) as Hl.
  { intros h e' [[<- <-]|[Hne He']]%lookup_insert_Some; [by left|]. right. split; [done|]. by apply (reparented_lookup _ _ _ _ _ Hr). }
  assert (∀ c, indeg (map (a,.) cs) c = occ c cs) as Hin.
  { intros c. unfold indeg. f_equal. clear. induction cs as [|x cs IH]; [done|]. cbn. by f_equal. }
  assert (∀ h c, occ (h, c) (map (a,.) cs) = if decide (h = a) then occ c cs else 0) as Ho.
  { clear. intros h c. induction cs as [|x cs IH]; cbn [map]; [by case_decide|]. rewrite !occ_cons, IH.
    repeat case_decide; simplify_eq; lia. }
  split.
  - intros h e' c [[-> ->]|(_ & e & p & He & -> & _)]%Hl; [intros ? ?; by apply Hk|]. by apply (H1 h e).
  - intros h e' c [[-> ->]|(_ & e & p & He & -> & _)]%Hl; [by apply Hz|]. by apply (H2 h e).
  - intros h e' m c n [[-> ->]|(_ & e & p & He & -> & _)]%Hl; [by apply Hext|]. by apply (H3 h e).
  - intros h e' c [[-> ->]|(Hne & e & p & He & -> & _)]%Hl _; rewrite occ_app, Ho.
    + rewrite decide_True by done. apply Hmult.
    + rewrite decide_False by done. by apply (H4 h e c He), not_elem_of_nil.
  - intros c e' [[-> ->]|(Hne & e & p & He & -> & Hp)]%Hl Hd _ Hcz; rewrite indeg_app, Hin.
    + rewrite (occ_not_elem a) by done. by apply Hdeg.
    + pose proof (H5 c e He Hd (not_elem_of_nil _) Hcz) as Hpar. pose proof (occ_le c cs). pose proof (occ_le c E.*2) as Hx.
      rewrite length_fmap in Hx. fold (indeg E c) in Hx. cbn. rewrite Hp; lia.
  - intros h c [(x & Heq & _)%list_elem_of_fmap|Hx]%elem_of_app; [injection Heq as -> ->; rewrite lookup_insert_eq; by eexists|].
    by eapply Hdom, H6.
  - intros h c [(x & Heq & Hx)%list_elem_of_fmap|Hx]%elem_of_app.
    + injection Heq as -> ->. destruct (Hcs x Hx) as [Hxz [?|?]]; split; try done; [left|by right].
      split; [by apply Hdom|apply not_elem_of_nil].
    + destruct (H7 h c Hx) as [Hcz [[? ?]|?]]; split; try done; [left|by right]. split; [by apply Hdom|done].
  - rewrite length_app, length_map. done.
Qed.
End Ref.

(** ** The order of the flush list *)

(** [a] comes before [b] in the flush list. *)
Definition before (l : list bytes) (a b : bytes) : Prop := [a; b] `sublist_of` l.

Lemma before_sub l l' a b : l `sublist_of` l' → before l a b → before l' a b.
Proof. intros Hs Hb. unfold before. by transitivity l. Qed.
Lemma before_elem l a b : before l a b → (a ∈ l) ∧ b ∈ l.
Proof. intros Hb%sublist_submseteq. split; (eapply elem_of_submseteq; [|exact Hb]); [by left|right; by left]. Qed.
Lemma before_snoc l a b : a ∈ l → before (l ++ [b]) a b.
Proof.
  intros (l1 & l2 & ->)%list_elem_of_split. unfold before. change [a; b] with ([a] ++ [b]). apply sublist_app; [|done].
  apply sublist_inserts_l. apply sublist_skip, sublist_nil_l.
Qed.
Lemma before_asym l a b : NoDup l → before l a b → before l b a → False.
Proof.
  unfold before. induction 1 as [|x l Hx Hnd IH]; [by intros H1%sublist_nil_r|]. intros H1 H2.
  assert (∀ y z, [y; z] `sublist_of` x :: l → x = y ∧ z ∈ l ∨ x ≠ y ∧ [y; z] `sublist_of` l) as Hcase.
  { clear -Hx. intros y z Hs. apply sublist_cons_r in Hs as [Hs|(k & Heq & Hs)].
    - right. split; [|done]. intros ->. by apply Hx, (before_elem l y z).
    - injection Heq as -> <-. left. split; [done|]. apply sublist_submseteq in Hs.
      eapply elem_of_submseteq; [by left|exact Hs]. }
  apply Hcase in H1 as [[-> Hb]|[Hne1 H1]]; apply Hcase in H2 as [[-> Ha]|[Hne2 H2]]; try done; [..|by apply IH].
  - by apply Hx, (before_elem l b a).
  - by apply Hx, (before_elem l a b).
Qed.
Lemma before_total l a b : a ∈ l → b ∈ l → a ≠ b → before l a b ∨ before l b a.
Proof.
  induction l as [|x l IH]; [by intros ?%not_elem_of_nil|]. rewrite !elem_of_cons. intros Ha Hb Hne.
  assert (∀ y, y ∈ l → before (x :: l) x y) as Hx.
  { intros y (l1 & l2 & ->)%list_elem_of_split. apply sublist_skip, sublist_inserts_l, sublist_skip, sublist_nil_l. }
  destruct Ha as [->|Ha], Hb as [->|Hb]; [done|left; by apply Hx|right; by apply Hx|].
  destruct (IH Ha Hb Hne); [left|right]; by apply sublist_cons.
Qed.
Lemma before_restrict l l' a b : NoDup l → l' `sublist_of` l → a ∈ l' → b ∈ l' → before l a b → before l' a b.
Proof.
  intros Hnd Hs Ha Hb Hab. destruct (decide (a = b)) as [->|Hne]; [by destruct (before_asym l b b)|].
  destruct (before_total l' a b) as [?|Hba]; [done..|]. exfalso. eapply before_asym; [done|exact Hab|by apply (before_sub l')].
Qed.
Lemma before_split l1 l2 a b : NoDup (l1 ++ l2) → before (l1 ++ l2) a b → b ∈ l1 → a ∈ l1.
Proof.
  intros Hnd Hab Hb. destruct (before_elem _ _ _ Hab) as [[?|Ha]%elem_of_app _]; [done|]. exfalso.
  apply (before_asym (l1 ++ l2) a b); [done|done|]. unfold before. change [b; a] with ([b] ++ [a]).
  apply list_elem_of_split in Ha as (k1 & k2 & ->). apply list_elem_of_split in Hb as (j1 & j2 & ->).
  apply sublist_app; apply sublist_inserts_l, sublist_skip, sublist_nil_l.
Qed.

(** A new node at the end of the list. *)
Lemma flist_push d o n l hash e : flist d o n l [] → d !! hash = None → hash ≠ zeroHash →
  cn_flushPrev e = n → cn_flushNext e = zeroHash →
  (l = [] ∧ flist (<[hash := e]> d) hash hash [hash] []) ∨
  (o ≠ zeroHash ∧ ∃ en, d !! n = Some en ∧ n ≠ hash ∧
     flist (<[n := set_flushNext hash en]> (<[hash := e]> d)) o hash (l ++ [hash]) []).
Proof.
  intros [H1 H2 H3 H4 H5 H6 H7] Hh Hz Hp Hn.
  assert (hash ∉ l) as Hhl by (intros (_ & [? ?] & _)%H4; congruence).
  destruct l as [|a l' _] using rev_ind.
  - left. split; [done|]. split; [apply NoDup_singleton|by intros ?%list_elem_of_singleton| | |done| |].
    + by rewrite lookup_insert_ne.
    + intros h. rewrite list_elem_of_singleton. specialize (H4 h). split.
      * intros ->. rewrite lookup_insert_eq. split; [done|]. split; [by eexists|apply not_elem_of_nil].
      * intros (Hhz & Hd & Hx). destruct (decide (h = hash)) as [?|Hne]; [done|]. rewrite lookup_insert_ne in Hd by done.
        destruct (not_elem_of_nil h). by apply H4.
    + intros h [= <-]. done.
    + exists e. rewrite lookup_insert_eq. done.
  - right. assert (n = a) as -> by (apply H6; apply last_snoc).
    assert (o ≠ zeroHash) as Ho by (rewrite H5; intros Heq; apply H2; rewrite <- Heq; destruct l'; by left).
    split; [done|]. apply chain_app in H7 as [Hc1 (en & Hen & Hpr & Hne & _)]. exists en. split; [done|].
    assert (a ≠ hash) as Hah by (intros ->; congruence). split; [done|].
    assert (a ∉ l') as Hal by (apply NoDup_app in H1 as (_ & Hx & _); intros Hin; by apply (Hx a Hin); left).
    split.
    + apply NoDup_app. split; [done|]. split; [|apply NoDup_singleton]. by intros x Hx ->%list_elem_of_singleton.
    + rewrite elem_of_app, list_elem_of_singleton. intros [?|?]; [done|congruence].
    + rewrite lookup_insert_ne by (intros ->; by apply H2, elem_of_app; right; left). by rewrite lookup_insert_ne.
    + intros h. rewrite elem_of_app, list_elem_of_singleton, H4. destruct (decide (h = a)) as [->|Hha].
      { rewrite lookup_insert_eq, Hen. split.
        - intros [?|?]; [|done]. split; [tauto|]. split; [by eexists|apply not_elem_of_nil].
        - intros [? _]. left. split; [done|]. split; [by eexists|apply not_elem_of_nil]. }
      rewrite lookup_insert_ne by done. destruct (decide (h = hash)) as [->|Hhh].
      { rewrite lookup_insert_eq. split; [|by intros; right]. split; [done|]. split; [by eexists|apply not_elem_of_nil]. }
      rewrite lookup_insert_ne by done. split; [intros [?|?]; done|by left].
    + rewrite H5. by destruct l'.
    + intros h. rewrite last_snoc. by intros [= ->].
    + apply chain_app. split.
      * eapply chain_set_next; [done|by rewrite lookup_insert_ne|]. apply chain_frame; [done|].
        apply chain_app. split; [done|]. by exists en.
      * unfold last_of. rewrite last_snoc. exists e. rewrite lookup_insert_ne, lookup_insert_eq by done. done.
Qed.

(** ** The state of the database *)

(** A cache may forget a key, but returns no value that was not set for it. *)
Class CacheLaws (Cl : Type) {CC : Cache Cl} := cache_get_set : ∀ (c : Cl) k v k' w,
  cache_get (cache_set c k v) k' = Some w → k' = k ∧ w = v ∨ cache_get c k' = Some w.

Section State.
Context {Cl : Type} {CC : Cache Cl} {MO : MapOrder}.
Context (kids : bytes → list bytes).
Implicit Types db : Database Cl.

(** A [common.Hash]. *)
Definition is_hash (h : bytes) : Prop := length h = 32.
(** The blob of a node, from memory or disk. *)
Definition stored db (h : bytes) : option bytes :=
  match dirties db !! h with Some e => Some (rlp e) | None => diskdb db !! h end.

(** [E] are the references and [l] is the flush list.  A child is older than
    its parent or on disk, the disk has the children of what it has. *)
Record db_inv db (E : edges) (l : list bytes) : Prop := MkDbInv {
  di_inv : inv kids (diskdb db) (dirties db) E [];
  di_flist : flist (dirties db) (oldest db) (newest db) l [];
  di_meta : ∃ e m, dirties db !! zeroHash = Some e ∧ cn_node e = DNode RNil ∧ cn_children e = Some m;
  di_order : ∀ h e c, dirties db !! h = Some e → h ≠ zeroHash → c ∈ childs e → before l c h ∨ is_Some (diskdb db !! c);
  di_agree : ∀ h e v, dirties db !! h = Some e → h ≠ zeroHash → diskdb db !! h = Some v → v = rlp e;
  di_clean : ∀ h v, is_hash h → clean_get db h = Some v → diskdb db !! h = Some v;
  di_closed : ∀ h c, is_hash h → is_Some (diskdb db !! h) → c ∈ kids h → is_Some (diskdb db !! c);
  di_hash : ∀ h, is_Some (dirties db !! h) → is_hash h;
  di_preimage : ∀ h p, preimages db !! h = Some p → is_hash h ∧ ∀ v, diskdb db !! secureKey h = Some v → v = p
}.

Lemma stored_some db E l h : db_inv db E l → is_Some (stored db h) ↔ is_Some (dirties db !! h) ∨ is_Some (diskdb db !! h).
Proof.
  intros _. unfold stored. destruct (dirties db !! h); [split; [by intros; left; eexists|by intros; eexists]|].
  split; [by right|]. intros [[? ?]|?]; done.
Qed.
Lemma flist_elem db E l h : db_inv db E l → h ≠ zeroHash → is_Some (dirties db !! h) → h ∈ l.
Proof. intros Hi Hz Hh. apply (fl_dom _ _ _ _ _ (di_flist _ _ _ Hi)). split; [done|]. split; [done|]. apply not_elem_of_nil. Qed.


Lemma NewDatabase_inv disk cache :
  (∀ h c, is_hash h → is_Some (disk !! h) → c ∈ kids h → is_Some (disk !! c)) →
  (∀ h v, is_hash h → clean_get (NewDatabase disk cache) h = Some v → disk !! h = Some v) →
  db_inv (NewDatabase disk cache) [] [].
Proof.
  intros Hc Hcl. set (e0 := MkCached (DNode RNil) 0 0 (Some ∅) zeroHash zeroHash).
  assert (∀ h e, dirties (NewDatabase disk cache) !! h = Some e → h = zeroHash ∧ e = e0) as Hd.
  { intros h e He. cbn in He. by apply lookup_singleton_Some in He as [<- <-]. }
  split; try done.
  - split; try done.
    + intros h e c [-> ->]%Hd. done.
    + intros h e c [-> ->]%Hd. unfold e0, childs, external. cbn. rewrite map_range_empty. by intros ?%not_elem_of_nil.
    + intros h e m c n [-> ->]%Hd. cbn. intros [= <-]. by rewrite lookup_empty.
    + intros h e c [-> ->]%Hd _. unfold links_count, ext_count, gathered. cbn. by rewrite lookup_empty.
    + intros c e [-> ->]%Hd. done.
    + by intros h c ?%not_elem_of_nil.
    + by intros h c ?%not_elem_of_nil.
  - split; [apply NoDup_nil_2|apply not_elem_of_nil| | |done|done|done].
    + exists e0. apply lookup_singleton_eq.
    + intros h. split; [by intros ?%not_elem_of_nil|]. intros (Hz & [e He] & _). by apply Hd in He as [-> _].
  - exists e0, ∅. split; [|done]. apply lookup_singleton_eq.
  - intros h e c [-> ->]%Hd. done.
  - intros h e v [-> ->]%Hd. done.
  - intros h [e [-> _]%Hd]. done.
Qed.

(** The preconditions of an insertion: the content of the hash, whose children
    are in the database. *)
Record insertable db (hash : bytes) (cs : list bytes) (enc : bytes) : Prop := MkInsertable {
  in_hash : is_hash hash;
  in_zero : hash ≠ zeroHash;
  in_kids : ∀ c, c ∈ cs → c ∈ kids hash;
  in_self : hash ∉ cs;
  in_avail : ∀ c, c ∈ cs → c ≠ zeroHash ∧ is_Some (stored db c);
  in_disk : ∀ v, diskdb db !! hash = Some v → v = enc
}.


(** The entries before, and the new one. *)
Definition inserted db hash e db' : Prop := ∀ h e', dirties db' !! h = Some e' →
  (h = hash ∧ dirties db !! hash = None ∧ same_content e e') ∨ ∃ e1, dirties db !! h = Some e1 ∧ same_content e1 e'.

Lemma db_insert_ok db E l hash blob node :
  let e := MkCached node (u16 (blen blob)) 0 None (newest db) zeroHash in
  db_inv db E l → insertable db hash (childs e) (rlp e) →
  (Z.of_nat (length (childs e) + length E) < 2 ^ 32)%Z →
  (∀ e', dirties db !! hash = Some e' → rlp e' = rlp e) →
  wp (db_insert hash blob node) (λ _ db', ∃ E' l', db_inv db' E' l' ∧ length E' ≤ length (childs e) + length E ∧
    stored db' hash = Some (rlp e) ∧ (∀ h, h ≠ hash → stored db' h = stored db h) ∧ same_rest db db' ∧ inserted db hash e db') db.
Proof.
  intros e Hi [Hhash Hz Hk Hself Hav Hdisk] Hlen Hsame. unfold db_insert. wp_steps.
  destruct (dirties db !! hash) as [e'|] eqn:Hh.
  { wp_steps. exists E, l. split; [done|]. split; [lia|].
    split; [unfold stored; rewrite Hh; f_equal; by apply Hsame|]. split; [done|]. split; [done|]. intros h e1 He1. right. by exists e1. }
  fold e. apply wp_bind, add_parents_ok. wp_steps. cbn [dirties set_dirties oldest newest].
  set (d1 := bump (childs e) (dirties db)). pose proof (bump_reparented (childs e) (dirties db)) as Hr. fold d1 in Hr.
  pose proof Hi as [Hinv Hfl Hmeta Hord Hag Hcl Hclosed Hlenh Hpre].
  assert (d1 !! hash = None) as Hh1 by (specialize (Hr hash); by rewrite Hh in Hr).
  assert (∀ c, (hash, c) ∉ E) as HnoE by (intros c [? ?]%(iv_src _ _ _ _ _ Hinv); congruence).
  set (E' := map (hash,.) (childs e) ++ E).
  assert (inv kids (diskdb db) (<[hash := e]> d1) E' []) as Hinv1.
  { apply (inv_add _ _ (dirties db)); try done.
    - by intros c [? _]%Hav.
    - intros c. rewrite (occ_not_elem (hash, c) E) by done. rewrite Nat.add_0_r. unfold e. unfold links_count, ext_count, gathered, childs.
      cbn. by destruct node.
    - intros Hd _. cbn. destruct (indeg E hash) eqn:Hdeg; [done|]. assert (∃ h, (h, hash) ∈ E) as [h Hin] by (apply indeg_elem; lia).
      destruct (iv_tgt _ _ _ _ _ Hinv h hash Hin) as [_ [[[? ?] _]|[? ?]]]; congruence.
    - intros c Hc. destruct (Hav c Hc) as [? Hs]. split; [done|]. by apply (stored_some db E l). }
  assert (∀ d2 o n z, same_nodes (<[hash := e]> d1) d2 → flist d2 o n (l ++ [hash]) [] →
    ∃ E' l', let db' := add_dirtiesSize z (set_ends o n (set_dirties d2 db)) in db_inv db' E' l' ∧ length E' ≤ length (childs e) + length E ∧
    stored db' hash = Some (rlp e) ∧ (∀ h, h ≠ hash → stored db' h = stored db h) ∧ same_rest db db' ∧ inserted db hash e db') as Hdone.
  { intros d2 o n z Hs Hf. exists E', (l ++ [hash]). cbn zeta.
    assert (reparented (λ h, occ h (childs e)) (<[hash := e]> (dirties db)) (<[hash := e]> d1)) as Hr'.
    { intros h. destruct (decide (h = hash)) as [->|Hne]; [|rewrite !lookup_insert_ne by done; apply Hr].
      rewrite !lookup_insert_eq. exists 0%Z. split; [done|]. rewrite (occ_not_elem hash) by done. cbn. lia. }
    assert (∀ h e2, d2 !! h = Some e2 → ∃ e1, <[hash := e]> (dirties db) !! h = Some e1 ∧ same_content e1 e2) as Hback
      by (intros h e2; by apply (reparented_same _ _ _ _ _ _ Hr' Hs)).
    assert (∀ h, is_Some (<[hash := e]> (dirties db) !! h) ↔ is_Some (d2 !! h)) as Hdom.
    { intros h. rewrite <- (same_nodes_dom _ _ h Hs). by eapply reparented_dom. }
    split; [split; cbn; try done|].
    - by eapply inv_same.
    - destruct Hmeta as (em & m & Hem & Hn & Hm). destruct (proj1 (Hdom zeroHash)) as [e2 He2]; [by rewrite lookup_insert_ne, Hem|].
      destruct (Hback _ _ He2) as (e1 & He1 & Hc1 & Hc2). rewrite lookup_insert_ne in He1 by done. rewrite Hem in He1. injection He1 as <-.
      exists e2, m. by rewrite <- Hc1, <- Hc2.
    - intros h e2 c (e1 & He1 & [Hch _]%same_content_childs)%Hback Hhz. rewrite <- Hch. intros Hc.
      apply lookup_insert_Some in He1 as [[<- <-]|[Hne He1]].
      + destruct (Hav c Hc) as [Hcz Hst]. apply (stored_some db E l) in Hst as [Hm|?]; [|by right|done]. left. apply before_snoc. by eapply flist_elem.
      + destruct (Hord h e1 c He1 Hhz Hc); [left|by right]. apply (before_sub l); [by apply sublist_inserts_r|done].
    - intros h e2 v (e1 & He1 & [_ <-]%same_content_childs)%Hback Hhz Hv.
      apply lookup_insert_Some in He1 as [[<- <-]|[Hne He1]]; [by apply Hdisk|by apply (Hag h)].
    - intros h Hh'. apply Hdom in Hh'. destruct (decide (h = hash)) as [->|Hne]; [done|]. rewrite lookup_insert_ne in Hh' by done. by apply Hlenh.
    - split; [unfold E'; rewrite length_app, length_map; lia|].
      assert (∀ h, stored (add_dirtiesSize z (set_ends o n (set_dirties d2 db))) h =
        match <[hash := e]> (dirties db) !! h with Some e => Some (rlp e) | None => diskdb db !! h end) as Hst.
      { intros h. unfold stored. cbn. destruct (d2 !! h) as [e2|] eqn:He2.
        - destruct (Hback _ _ He2) as (e1 & -> & [_ ->]%same_content_childs). done.
        - destruct (<[hash := e]> (dirties db) !! h) eqn:He1; [|done]. destruct (proj1 (Hdom h)); [by eexists|congruence]. }
      split; [by rewrite Hst, lookup_insert_eq|].
      split; [intros h Hne; by rewrite Hst, lookup_insert_ne|]. split; [done|]. intros h e2 (e1 & He1 & Hsc)%Hback.
      apply lookup_insert_Some in He1 as [[<- <-]|[Hne He1]]; [by left|right; by exists e1]. }
  pose proof (reparented_flist _ _ _ _ _ _ _ Hr Hfl) as Hfl1.
  destruct (flist_push _ _ _ _ hash e Hfl1 Hh1 Hz) as [[-> Hf2]|(Ho & en & Hen & Hne & Hf2)]; [done|done| |].
  - rewrite bool_decide_eq_true_2 by (by rewrite (fl_oldest _ _ _ _ _ Hfl)). wp_steps. by apply (Hdone (<[hash := e]> d1)).
  - rewrite bool_decide_eq_false_2 by done. wp_steps. apply wp_bind, (wp_dirty_set _ _ en); [cbn; by rewrite lookup_insert_ne|]. wp_steps.
    apply (Hdone (<[newest db := set_flushNext hash en]> (<[hash := e]> d1))); [|done].
    apply (same_nodes_set _ _ en); [by rewrite lookup_insert_ne|done].
Qed.

(** The preconditions of [reference]: a root, or a child that is older than
    its parent; the counters do not overflow. *)
Record referable db (E : edges) (l : list bytes) (child parent : bytes) : Prop := MkReferable {
  rf_child : child ≠ zeroHash;
  rf_self : child ≠ parent;
  rf_parent : parent = zeroHash ∨
    is_Some (dirties db !! parent) ∧ child ∈ kids parent ∧ (before l child parent ∨ is_Some (diskdb db !! child));
  rf_edges : (Z.of_nat (S (length E)) < 2 ^ 32)%Z;
  rf_count : ∀ e, dirties db !! zeroHash = Some e → (Z.of_nat (ext_count e child) + 1 < 2 ^ 16)%Z
}.

Lemma childs_insert p m child n c : cn_children p = Some m ∨ cn_children p = None ∧ m = ∅ →
  c ∈ childs (set_children (Some (<[child := n]> m)) p) → c = child ∨ c ∈ childs p.
Proof.
  intros Hm. unfold childs. rewrite !elem_of_app, !external_elem. cbn. intros [(m' & n' & [= <-] & Hl)|?]; [|by right; right].
  apply lookup_insert_Some in Hl as [[<- _]|[_ Hl]]; [by left|]. right; left. destruct Hm as [?|[_ ->]]; [eauto|by rewrite lookup_empty in Hl].
Qed.
Lemma childs_grow p m child n c : cn_children p = Some m ∨ cn_children p = None ∧ m = ∅ →
  c ∈ childs p → c ∈ childs (set_children (Some (<[child := n]> m)) p).
Proof.
  intros Hm. unfold childs. rewrite !elem_of_app, !external_elem. intros [(m' & n' & Hm' & Hl)|?]; [left|by right].
  destruct Hm as [Hm|[Hm _]]; rewrite Hm in Hm'; simplify_eq. exists (<[child := n]> m').
  destruct (decide (c = child)) as [->|Hne]; [exists n|exists n']; (split; [done|]); [apply lookup_insert_eq|by rewrite lookup_insert_ne].
Qed.
Lemma ext_insert p m child c : cn_children p = Some m ∨ cn_children p = None ∧ m = ∅ →
  (0 ≤ default 0 (m !! child))%Z →
  ext_count (set_children (Some (<[child := (default 0 (m !! child) + 1)%Z]> m)) p) c =
    (if decide (child = c) then 1 else 0) + ext_count p c.
Proof.
  intros Hm H0. unfold ext_count. cbn. case_decide as Hc.
  - subst c. rewrite lookup_insert_eq. destruct Hm as [->|[-> ->]]; cbn; [|by rewrite lookup_empty]. lia.
  - rewrite lookup_insert_ne by done. destruct Hm as [->|[-> ->]]; [done|]. by rewrite lookup_empty.
Qed.

Definition reference_post db (E : edges) l child parent db' : Prop := ∃ E', db_inv db' E' l ∧ length E' ≤ S (length E) ∧
  (∀ h, stored db' h = stored db h) ∧ same_rest db db' ∧ (is_Some (dirties db !! child) → (parent, child) ∈ E') ∧
  (∀ h e', dirties db' !! h = Some e' → ∃ e, dirties db !! h = Some e ∧ cn_node e' = cn_node e ∧ ∀ c, c ∈ childs e → c ∈ childs e').

Lemma link_ok db E l child parent p m :
  db_inv db E l → referable db E l child parent → is_Some (dirties db !! child) → dirties db !! parent = Some p →
  cn_children p = Some m ∨ cn_children p = None ∧ m = ∅ → (parent ≠ zeroHash → m !! child = None) →
  wp (do! dirty_set child (λ c, set_parents (u32 (cn_parents c + 1)) c) in
      let count := u16 (default 0%Z (m !! child) + 1) in
      do! dirty_set parent (set_children (Some (<[child := count]> m))) in
      (if (count =? 1)%Z then mmod (add_childrenSize (HashLength + 2)) else mret' ()))
    (λ _ db', reference_post db E l child parent db') db.
Proof.
  intros Hi [Hcz Hself Hpar Hlen Hcnt] [ec Hc] Hp Hm Hfresh. pose proof Hi as [Hinv Hfl Hmeta Hord Hag Hcl Hclosed Hlenh Hpre].
  apply wp_bind, (wp_dirty_set _ _ ec); [done|]. set (d1 := <[child := _]> (dirties db)).
  assert (bump [child] (dirties db) = d1) as Hd1 by (cbn; unfold bump1; by rewrite Hc).
  pose proof (bump_reparented [child] (dirties db)) as Hr. rewrite Hd1 in Hr.
  assert (∀ c n, m !! c = Some n → (0 < n < 2 ^ 16)%Z ∧ (parent ≠ zeroHash → n = 1%Z)) as Hext.
  { intros c n Hn. destruct Hm as [Hm|[_ ->]]; [|by rewrite lookup_empty in Hn]. by apply (iv_ext _ _ _ _ _ Hinv parent p m c). }
  assert (0 ≤ default 0 (m !! child) < 2 ^ 16 - 1)%Z as Hrange.
  { destruct (m !! child) as [n|] eqn:Hn; cbn; [|lia]. specialize (Hext child n Hn). split; [lia|].
    destruct (decide (parent = zeroHash)) as [->|Hz]; [|by specialize (Hfresh Hz)]. specialize (Hcnt p Hp).
    unfold ext_count in Hcnt. destruct Hm as [Hm|[_ ->]]; [|by rewrite lookup_empty in Hn]. rewrite Hm, Hn in Hcnt. cbn in Hcnt. lia. }
  set (ea := set_children (Some (<[child := u16 (default 0%Z (m !! child) + 1)]> m)) p).
  assert (∀ c, ext_count ea c = (if decide (child = c) then 1 else 0) + ext_count p c) as Hcount.
  { intros c. unfold ea, u16. rewrite Z.mod_small by lia. apply ext_insert; [done|lia]. }
  apply wp_bind, (wp_dirty_set _ _ p); [cbn [dirties set_dirties]; unfold d1; by rewrite lookup_insert_ne|]. fold ea. cbn [dirties set_dirties].
  assert (inv kids (diskdb db) (<[parent := ea]> d1) (map (parent,.) [child] ++ E) []) as Hinv1.
  { apply (inv_add _ _ (dirties db)); try done.
    - intros Hz c [->|Hx]%childs_insert; [by destruct Hpar as [?|(_ & ? & _)]|by apply (iv_kids _ _ _ _ _ Hinv parent p)|done].
    - intros c [->|Hx]%childs_insert; [done|by apply (iv_nozero _ _ _ _ _ Hinv parent p)|done].
    - intros m' c n [= <-] [[<- <-]|[_ Hn]]%lookup_insert_Some; [|by apply (Hext c)]. unfold u16. rewrite Z.mod_small by lia.
      split; [lia|]. intros Hz. by rewrite Hfresh.
    - intros c. unfold links_count. rewrite Hcount, occ_cons, (iv_mult _ _ _ _ _ Hinv parent p) by (done || apply not_elem_of_nil).
      unfold links_count. rewrite occ_nil. change (gathered ea) with (gathered p). lia.
    - intros Hd Hz. apply (iv_indeg _ _ _ _ _ Hinv parent p); [done|done|apply not_elem_of_nil|done].
    - intros ?%list_elem_of_singleton. done.
    - intros c ->%list_elem_of_singleton. split; [done|]. left. by eexists. }
  assert (reference_post db E l child parent (set_dirties (<[parent := ea]> d1) db)) as Hpost.
  { assert (∀ h, is_Some (dirties db !! h) ↔ is_Some (<[parent := ea]> d1 !! h)) as Hdom.
    { intros h. destruct (decide (h = parent)) as [->|Hne]; [rewrite lookup_insert_eq, Hp; by split; intros; eexists|].
      rewrite lookup_insert_ne by done. by apply (reparented_dom _ _ _ _ Hr). }
    assert (∀ h e', <[parent := ea]> d1 !! h = Some e' → ∃ e, dirties db !! h = Some e ∧ cn_node e' = cn_node e ∧ same_links e e' ∧
      (h ≠ parent → cn_children e' = cn_children e)) as Hback.
    { intros h e' [[<- <-]|[Hne He']]%lookup_insert_Some; [by exists p|].
      destruct (reparented_lookup _ _ _ _ _ Hr He') as (e & q & He & -> & _). by exists e. }
    exists (map (parent,.) [child] ++ E). split_and!; [split; cbn; try done|cbn; lia| |done|by left|].
    - revert Hfl. apply flist_ext; [done|]. intros h e' (e & He & _ & Hl & _)%Hback. eauto.
    - destruct Hmeta as (em & mm & Hem & Hn & Hmm). destruct (decide (parent = zeroHash)) as [->|Hz].
      + rewrite Hem in Hp. injection Hp as ->. exists ea. eexists. rewrite lookup_insert_eq. done.
      + exists em, mm. rewrite lookup_insert_ne by done. unfold d1. by rewrite lookup_insert_ne by done.
    - intros h e' c He' Hz Hx. destruct (decide (h = parent)) as [->|Hne].
      + rewrite lookup_insert_eq in He'. injection He' as <-. apply childs_insert in Hx as [->|Hx]; [..|done].
        * by destruct Hpar as [?|(_ & _ & ?)].
        * by apply (Hord parent p).
      + destruct (Hback h e' He') as (e & He & Hn & _ & Hch). apply (Hord h e); [done..|].
        destruct (same_content_childs e e') as [-> _]; [split; [done|]; symmetry; by apply Hch|done].
    - intros h e' v (e & He & Hn & _)%Hback Hz Hv. rewrite (Hag h e v) by done. unfold rlp. by rewrite Hn.
    - intros h Hh. apply Hlenh. by apply Hdom.
    - intros h. unfold stored. cbn. destruct (<[parent := ea]> d1 !! h) as [e'|] eqn:He'.
      + destruct (Hback h e' He') as (e & -> & Hn & _). unfold rlp. by rewrite Hn.
      + destruct (dirties db !! h) eqn:He; [|done]. destruct (proj1 (Hdom h)); [by eexists|congruence].
    - intros h e' He'. destruct (Hback h e' He') as (e & He & Hn & _ & Hch). exists e. split; [done|]. split; [done|].
      intros c Hx. destruct (decide (h = parent)) as [->|Hne].
      + cbn in He'. rewrite lookup_insert_eq in He'. simplify_eq. by apply childs_grow.
      + destruct (same_content_childs e e') as [<- _]; [split; [done|]; symmetry; by apply Hch|done]. }
  destruct (_ =? 1)%Z; wp_steps; [|exact Hpost]. destruct Hpost as (E' & [? ? ? ? ? ? ? ? ?] & Hrest). exists E'. split; [|exact Hrest]. split; done.
Qed.

Lemma reference_ok db E l child parent :
  db_inv db E l → referable db E l child parent →
  wp (reference child parent) (λ _ db', reference_post db E l child parent db') db.
Proof.
  intros Hi Href. unfold reference. wp_steps. destruct (dirties db !! child) as [ec|] eqn:Hc.
  2:{ wp_steps. exists E. split; [done|]. split; [lia|]. split; [done|]. split; [done|]. rewrite Hc. split; [by intros [? ?]|]. eauto. }
  assert (is_Some (dirties db !! parent)) as [p Hp].
  { destruct (rf_parent _ _ _ _ _ Href) as [->|[? _]]; [|done]. destruct (di_meta _ _ _ Hi) as (e & m & He & _). by eexists. }
  unfold dirty_ptr. wp_steps. rewrite Hp. wp_steps. destruct (cn_children p) as [m|] eqn:Hm.
  - destruct (bool_decide_reflect (is_Some (m !! child))) as [[n Hn]|Hn]; cbn [andb];
      [destruct (bool_decide_reflect (parent = zeroHash)) as [->|Hz]; cbn [negb andb]|].
    + apply (link_ok _ _ _ _ _ p); [done|done|by eexists|done|by left|done].
    + wp_steps. exists E. split; [done|]. split; [lia|]. split; [done|]. split; [done|]. split; [|by eauto]. intros _.
      destruct (iv_ext _ _ _ _ _ (di_inv _ _ _ Hi) parent p m child n) as [Hpos _]; [done..|].
      rewrite occ_elem, (iv_mult _ _ _ _ _ (di_inv _ _ _ Hi) parent p child) by (done || apply not_elem_of_nil).
      unfold links_count, ext_count. rewrite Hm, Hn. cbn. lia.
    + apply (link_ok _ _ _ _ _ p); [done|done|by eexists|done|by left|]. intros _. by apply eq_None_not_Some.
  - wp_steps. eapply wp_wand; [apply (link_ok (add_childrenSize cachedNodeChildrenSize db) E l _ _ p)|].
    + by destruct Hi.
    + by destruct Href.
    + by eexists.
    + done.
    + by right.
    + intros _. apply lookup_empty.
    + done.
Qed.

(** ** Dereferencing a root *)

(** The nodes of a trie, by content. *)
Inductive reach (r : bytes) : bytes → Prop :=
  | reach_root : reach r r
  | reach_kid h c : reach r h → c ∈ kids h → reach r c.

(** Every reference to a child has been made. *)
Definition complete db : Prop :=
  ∀ h e c, dirties db !! h = Some e → h ≠ zeroHash → c ∈ kids h → c ∈ childs e.

(** How often a root is referenced from outside. *)
Definition meta_refs db (r : bytes) : nat :=
  match dirties db !! zeroHash with Some e => ext_count e r | None => 0 end.
(** What has no reference at all, and is not on disk. *)
Definition garbage db (h : bytes) : Prop :=
  h ≠ zeroHash ∧ diskdb db !! h = None ∧ (∃ e, dirties db !! h = Some e ∧ cn_parents e = 0%Z).

Lemma meta_refs_edges db E l r : db_inv db E l → meta_refs db r = occ (zeroHash, r) E.
Proof.
  intros Hi. destruct (di_meta _ _ _ Hi) as (e & m & He & Hn & Hm). unfold meta_refs. rewrite He.
  rewrite (iv_mult _ _ _ _ _ (di_inv _ _ _ Hi) zeroHash e r He (not_elem_of_nil _)).
  unfold links_count, gathered. rewrite Hn. cbn [gatherChildren]. rewrite occ_nil. lia.
Qed.
Lemma garbage_edges db E l h : db_inv db E l → h ≠ zeroHash → diskdb db !! h = None → is_Some (dirties db !! h) →
  garbage db h ↔ indeg E h = 0.
Proof.
  intros Hi Hz Hd [e He]. pose proof (iv_indeg _ _ _ _ _ (di_inv _ _ _ Hi) h e He Hd (not_elem_of_nil _) Hz) as Hp.
  split; [|intros H0; split; [done|]; split; [done|]; exists e; split; [done|]; lia].
  intros (_ & _ & e' & He' & H0). rewrite He in He'. injection He' as <-. lia.
Qed.

Section Collect.
(** No node is its own descendant, children are hashes. *)
Context (rank : bytes → nat) (Hrank : ∀ h c, c ∈ kids h → rank c < rank h) (Hkids : ∀ h c, c ∈ kids h → c ≠ zeroHash ∧ is_hash c).

(** What a root reaches is stored. *)
Lemma reach_stored db E l r h : db_inv db E l → complete db → r ≠ zeroHash → is_hash r → is_Some (stored db r) → reach r h →
  h ≠ zeroHash ∧ is_hash h ∧ is_Some (stored db h).
Proof using Hkids.
  intros Hi Hcomp Hz Hlen Hr Hre. induction Hre as [|h c _ (Hhz & Hhl & IH) Hc]; [done|].
  destruct (Hkids h c Hc). split; [done|]. split; [done|]. apply (stored_some db E l); [done|].
  apply (stored_some db E l) in IH as [[e He]|Hd]; [..|done].
  - pose proof (Hcomp h e c He Hhz Hc) as Hch. destruct (di_order _ _ _ Hi h e c He Hhz Hch) as [Hb|?]; [left|by right].
    apply before_elem in Hb as [Hin _]. by apply (fl_dom _ _ _ _ _ (di_flist _ _ _ Hi)) in Hin as (_ & ? & _).
  - right. by apply (di_closed _ _ _ Hi h).
Qed.

(** What is stored is what was stored. *)
Lemma survive_stored db E l db' p h : db_inv db E l → survive (dirties db) (dirties db') p → diskdb db' = diskdb db →
  h ≠ zeroHash → is_Some (stored db' h) → stored db' h = stored db h.
Proof using.
  intros Hi Hs Hd Hz. unfold stored. rewrite Hd. destruct (dirties db' !! h) as [e'|] eqn:He'.
  - intros _. destruct (Hs h e' He') as (e & -> & Hn & _). unfold rlp. by rewrite Hn.
  - intros [v Hv]. rewrite Hv. destruct (dirties db !! h) as [e|] eqn:He; [|done]. f_equal. by apply (di_agree _ _ _ Hi h e).
Qed.

Lemma deref_db_inv db E l Epre E0 db' E1 D l' :
  db_inv db E l → deref_post kids db Epre E0 l [] zeroHash db' E1 D l' → db_inv db' E1 l'.
Proof using.
  intros [_ Hfl Hmeta Hord Hag Hcl Hclosed Hlenh Hpre] [Hinv1 Hfl1 Hsub _ _ Hsv _ _ (Hd & Hc & Hp & _)].
  split; rewrite ?Hd; try done.
  - destruct (fl_meta _ _ _ _ _ Hfl1) as [e' He']. destruct (Hsv _ _ He') as (e & He & Hn & _ & Hsm).
    destruct Hmeta as (e0 & m & He0 & Hn0 & Hm). rewrite He in He0. injection He0 as ->.
    destruct Hsm as [m' Hm']; [by eexists|]. exists e', m'. by rewrite Hn.
  - intros h e' c He' Hz Hch. destruct (Hsv h e' He') as (e & He & Hn & Hchl & _).
    assert ((h, c) ∈ E1) as Hedge.
    { rewrite occ_elem, (iv_mult _ _ _ _ _ Hinv1 h e' c He' (not_elem_of_nil _)), <- (childs_count _ _ _ _ _ _ _ _ Hinv1 He' Hz).
      by apply occ_elem. }
    destruct (same_content_childs e e') as [Heq _]; [split; [done|]; symmetry; by apply Hchl|]. rewrite <- Heq in Hch.
    destruct (Hord h e c He Hz Hch) as [Hb|?]; [|by right].
    destruct (iv_tgt _ _ _ _ _ Hinv1 h c Hedge) as [Hcz [[Hcd _]|?]]; [|by right]. left.
    apply (before_restrict l); [apply Hfl|done|..|done]; apply (fl_dom _ _ _ _ _ Hfl1); (split; [done|]; split; [|apply not_elem_of_nil]); [done|by eexists].
  - intros h e' v He' Hz Hv. destruct (Hsv h e' He') as (e & He & Hn & _). rewrite (Hag h e v He Hz Hv). unfold rlp. by rewrite Hn.
  - intros h v. unfold clean_get. rewrite Hc. apply Hcl.
  - intros h [e' He']. destruct (Hsv h e' He') as (e & He & _). apply Hlenh. by eexists.
  - by rewrite Hp.
Qed.

Lemma Dereference_ok fuel root db E l :
  db_inv db E l → complete db → root ≠ zeroHash → 0 < meta_refs db root → rank root < fuel →
  wp (Dereference fuel root) (λ _ db', (∃ E' l', db_inv db' E' l') ∧ complete db' ∧
    (∀ r, meta_refs db' r = meta_refs db r - if decide (r = root) then 1 else 0) ∧
    (∀ r h, is_hash r → 0 < meta_refs db' r → reach r h → is_Some (stored db' h) ∧ stored db' h = stored db h) ∧
    (∀ h, garbage db' h → garbage db h) ∧ survive (dirties db) (dirties db') zeroHash) db.
Proof using Hrank Hkids.
  intros Hi Hcomp Hz Href Hfuel. unfold Dereference. rewrite bool_decide_eq_false_2 by done. wp_steps.
  assert (∃ E0, E ≡ₚ (zeroHash, root) :: E0) as [E0 HE].
  { apply elem_of_Permutation. by rewrite occ_elem, <- (meta_refs_edges db E l). }
  destruct (di_meta _ _ _ Hi) as (e & m & He & Hn & Hm).
  eapply wp_seq.
  { apply (dereference_ok kids rank Hrank fuel root zeroHash db E0 l [] e).
    - eapply inv_perm; [exact HE|apply Hi].
    - apply Hi.
    - done.
    - done.
    - by intros p ?%not_elem_of_nil.
    - right. split; [done|]. unfold gathered. by rewrite Hn. }
  cbv beta. intros [] db1 (E1 & D & l1 & Hpost). wp_steps.
  pose proof (deref_db_inv _ _ _ _ _ _ _ _ _ Hi Hpost) as Hi1. destruct Hpost as [_ Hfl1 _ HE1 Hgone Hsv _ Hlive (Hdisk & _)].
  set (db' := set_stats _ _ _ _ _). assert (db_inv db' E1 l1) as Hi' by (by destruct Hi1).
  assert (complete db') as Hcomp'.
  { intros h e' c He' Hhz Hc. destruct (Hsv h e' He') as (e1 & He1 & Hn1 & Hch & _).
    destruct (same_content_childs e1 e') as [<- _]; [split; [done|]; symmetry; by apply Hch|]. by apply (Hcomp h). }
  assert (∀ r, (zeroHash, r) ∉ D) as HD.
  { intros r Hr%Hgone. cbn [fst] in Hr. destruct (fl_meta _ _ _ _ _ Hfl1) as [? ?]. congruence. }
  split_and!; [by exists E1, l1|done|..|done].
  - intros r. rewrite (meta_refs_edges db E l), (meta_refs_edges db' E1 l1), HE, HE1, occ_cons, occ_app by done.
    rewrite (occ_not_elem _ D) by done. repeat case_decide; simplify_eq; lia.
  - intros r h Hlr Hr Hre. rewrite (meta_refs_edges db' E1 l1), <- occ_elem in Hr by done.
    destruct (iv_tgt _ _ _ _ _ (di_inv _ _ _ Hi') zeroHash r Hr) as [Hrz Hav].
    destruct (reach_stored db' E1 l1 r h) as (Hhz & _ & Hst); [done..| |done|].
    { apply (stored_some db' E1 l1); [done|]. destruct Hav as [[? _]|?]; [by left|by right]. }
    split; [done|]. by apply (survive_stored db E l db' zeroHash).
  - intros h Hg. pose proof Hg as (Hhz & Hd & e' & He' & _).
    assert (indeg E1 h = 0) as H0 by (apply (garbage_edges db' E1 l1); [done..|by eexists|done]).
    change (diskdb db') with (diskdb db1) in Hd. rewrite Hdisk in Hd. destruct (Hsv h e' He') as (e1 & He1 & _).
    apply (garbage_edges db E l); [done..|by eexists|]. rewrite HE. apply Hlive; [by eexists|done|done|apply not_elem_of_nil|done].
Qed.
End Collect.
End State.
