(* ===== verification/TrieDBFlush.v ===== *)
(** * Flushing the node database

    [Cap] and [Commit] write nodes to disk, children first, and drop what is
    written from memory.  At every moment, also when the disk refuses a batch,
    each node can be read as before and the disk has the children of each node
    it has. *)

From Stdlib Require Import ZArith Lia.
From stdpp Require Import gmap.
From S2P Require Import Prelude Errors Rlp Fullnode Messages Trie TriePure TrieLaws TrieHash TrieRoot TrieNode TrieDB TrieDBGC TrieDBRef.
Open Scope didux_scope.
Open Scope nat_scope.

(** ** Batches *)

Lemma apply_batch_app b1 b2 disk : apply_batch (b1 ++ b2) disk = apply_batch b2 (apply_batch b1 disk).
Proof. unfold apply_batch. apply foldl_app. Qed.
Lemma apply_batch_lookup b disk k :
  (k ∉ b.*1) ∧ apply_batch b disk !! k = disk !! k ∨ ∃ v, (k, v) ∈ b ∧ apply_batch b disk !! k = Some v.
Proof.
  induction b as [|[k' v'] b IH] using rev_ind; [left; split; [apply not_elem_of_nil|done]|].
  rewrite apply_batch_app. cbn. destruct (decide (k = k')) as [->|Hne].
  - right. exists v'. rewrite lookup_insert_eq. split; [|done]. apply elem_of_app. right. by left.
  - rewrite lookup_insert_ne by done. destruct IH as [[Hk IH]|(v & Hin & IH)]; [left|right].
    + split; [|done]. rewrite fmap_app, elem_of_app. intros [?| ->%list_elem_of_singleton]; done.
    + exists v. split; [|done]. apply elem_of_app. by left.
Qed.

Lemma secureKey_inj h h' : secureKey h = secureKey h' → h = h'.
Proof. apply app_inv_head. Qed.
Lemma secureKey_not_hash h : is_hash h → ¬ is_hash (secureKey h).
Proof. unfold is_hash, secureKey. rewrite length_app. intros ->. done. Qed.

Section Flush.
Context {Cl : Type} {CC : Cache Cl} {MO : MapOrder}.
Context (kids : bytes → list bytes).
Implicit Types (db : Database Cl) (b : batch).
Local Abbreviation db_inv := (db_inv kids).
Local Abbreviation complete := (complete kids).

(** What a reader sees: nodes and preimages. *)
Definition read_preimage db (h : bytes) : option bytes :=
  match preimages db !! h with Some p => Some p | None => diskdb db !! secureKey h end.
Record same_reads db db' : Prop := MkSame {
  sr_stored : ∀ h, is_hash h → h ≠ zeroHash → stored db' h = stored db h;
  sr_preimage : ∀ h, is_hash h → read_preimage db' h = read_preimage db h;
  sr_meta : ∀ r, meta_refs db' r = meta_refs db r;
  sr_nodes : ∀ h e', dirties db' !! h = Some e' → ∃ e, dirties db !! h = Some e ∧ cn_node e' = cn_node e
}.
Lemma same_reads_refl db : same_reads db db.
Proof. split; eauto. Qed.
Lemma same_reads_trans db1 db2 db3 : same_reads db1 db2 → same_reads db2 db3 → same_reads db1 db3.
Proof.
  intros [A1 B1 C1 D1] [A2 B2 C2 D2]. split; intros.
  - by rewrite A2, A1.
  - by rewrite B2, B1.
  - by rewrite C2, C1.
  - destruct (D2 h e') as (e2 & He2 & Hn2); [done|]. destruct (D1 h e2 He2) as (e1 & He1 & Hn1). exists e1. split; [done|congruence].
Qed.

(** A node in the batch comes after its children. *)
Definition good db b : Prop := ∀ k v, (k, v) ∈ b →
  is_hash k ∧ k ≠ zeroHash ∧ stored db k = Some v ∧ (∀ c, c ∈ kids k → (c ∈ b.*1) ∨ is_Some (diskdb db !! c)) ∨
  ∃ h, k = secureKey h ∧ is_hash h ∧ preimages db !! h = Some v.

Lemma write_dom b disk k : is_Some (disk !! k) → is_Some (apply_batch b disk !! k).
Proof using. destruct (apply_batch_lookup b disk k) as [[_ ->]|(v & _ & ->)]; [done|by eexists]. Qed.
Lemma write_lookup db b k : good db b → is_hash k →
  (k ∉ b.*1) ∧ apply_batch b (diskdb db) !! k = diskdb db !! k ∨
  ∃ v, k ≠ zeroHash ∧ (k, v) ∈ b ∧ stored db k = Some v ∧ apply_batch b (diskdb db) !! k = Some v.
Proof using.
  intros Hb Hk. destruct (apply_batch_lookup b (diskdb db) k) as [?|(v & Hin & Hl)]; [by left|right]. exists v.
  destruct (Hb k v Hin) as [(_ & ? & ? & _)|(h & -> & Hh & _)]; [done|]. by destruct (secureKey_not_hash h).
Qed.
Lemma write_preimage db b h : good db b → is_hash h →
  apply_batch b (diskdb db) !! secureKey h = diskdb db !! secureKey h ∨
  ∃ v, preimages db !! h = Some v ∧ (secureKey h, v) ∈ b ∧ apply_batch b (diskdb db) !! secureKey h = Some v.
Proof using.
  intros Hb Hh. destruct (apply_batch_lookup b (diskdb db) (secureKey h)) as [[_ ?]|(v & Hin & Hl)]; [by left|right]. exists v.
  destruct (Hb _ v Hin) as [(Hx & _)|(h' & ->%secureKey_inj & _ & ?)]; [by destruct (secureKey_not_hash h)|done].
Qed.

Lemma write_inv db E l b : db_inv db E l → complete db → good db b →
  let db' := set_disk (apply_batch b (diskdb db)) db in
  db_inv db' E l ∧ complete db' ∧ same_reads db db' ∧
  (∀ k v, (k, v) ∈ b → is_hash k → diskdb db' !! k = Some v) ∧
  (∀ h v, is_hash h → (secureKey h, v) ∈ b → diskdb db' !! secureKey h = Some v).
Proof using.
  intros Hi Hcomp Hb db'. pose proof Hi as [Hinv Hfl Hmeta Hord Hag Hcl Hclosed Hlen Hpre].
  assert (∀ k, is_hash k → k ∉ b.*1 → diskdb db' !! k = diskdb db !! k) as Hold.
  { intros k Hk Hn. destruct (write_lookup db b k Hb Hk) as [[_ ?]|(v & _ & Hin & _)]; [done|].
    destruct Hn. apply list_elem_of_fmap. by exists (k, v). }
  split_and!.
  - split; try done.
    + destruct Hinv as [H1 H2 H3 H4 H5 H6 H7 H8]. split; try done.
      * intros c e He Hd. apply H5; [done|]. apply eq_None_not_Some. intros Hs%(write_dom b). cbn in Hd. rewrite Hd in Hs. by destruct Hs.
      * intros h c Hin. destruct (H7 h c Hin) as [? [?|?%(write_dom b)]]; split; try done; [by left|by right].
    + intros h e c He Hz Hc. destruct (Hord h e c He Hz Hc); [by left|right]. by apply write_dom.
    + intros h e v He Hz Hv. cbn in Hv. change (dirties db !! h = Some e) in He.
      destruct (write_lookup db b h) as [[_ Hx]|(w & _ & _ & Hst & Hx)]; [done|apply Hlen; by eexists|..]; rewrite Hx in Hv.
      * by apply (Hag h).
      * injection Hv as <-. unfold stored in Hst. rewrite He in Hst. by injection Hst.
    + intros h v Hh Hv. specialize (Hcl h v Hh Hv). cbn.
      destruct (write_lookup db b h) as [[_ Hx]|(w & Hz & _ & Hst & Hx)]; [done|done|..]; rewrite Hx; [done|].
      unfold stored in Hst. destruct (dirties db !! h) as [e|] eqn:He; [|congruence]. rewrite (Hag h e v) by done. done.
    + intros h c Hh Hs Hc. cbn in *. destruct (write_lookup db b h) as [[_ Hx]|(w & Hz & Hin & _)]; [done|done|..].
      * rewrite Hx in Hs. apply write_dom. by apply (Hclosed h).
      * destruct (Hb h w Hin) as [(_ & _ & _ & Hk)|(h' & -> & Hh' & _)]; [|by destruct (secureKey_not_hash h')].
        destruct (Hk c Hc) as [Hcb|?]; [|by apply write_dom].
        destruct (apply_batch_lookup b (diskdb db) c) as [[? _]|(v & _ & ->)]; [done|by eexists].
    + intros h p Hp. change (preimages db !! h = Some p) in Hp. destruct (Hpre h p Hp) as [Hh Hv]. split; [done|]. intros v Hl. change (apply_batch b (diskdb db) !! secureKey h = Some v) in Hl.
      destruct (write_preimage db b h Hb Hh) as [Hx|(w & Hw & _ & Hx)]; rewrite Hx in Hl; [by apply Hv|congruence].
  - done.
  - split; [| |done|by eauto].
    + intros h Hh Hz. unfold stored. cbn. destruct (dirties db !! h) eqn:He; [done|].
      destruct (write_lookup db b h Hb Hh) as [[_ ?]|(v & _ & _ & Hst & Hx)]; [done|].
      unfold stored in Hst. rewrite He in Hst. congruence.
    + intros h Hh. unfold read_preimage. cbn [preimages diskdb set_disk db']. destruct (preimages db !! h) eqn:Hp; [done|].
      destruct (write_preimage db b h Hb Hh) as [?|(w & Hw & _)]; [done|congruence].
  - intros k v Hin Hk. cbn. destruct (write_lookup db b k Hb Hk) as [[Hn _]|(w & _ & _ & Hst & Hx)].
    + destruct Hn. apply list_elem_of_fmap. by exists (k, v).
    + destruct (Hb k v Hin) as [(_ & _ & ? & _)|(h & -> & Hh & _)]; [congruence|by destruct (secureKey_not_hash h)].
  - intros h v Hh Hin. cbn [diskdb set_disk db']. destruct (apply_batch_lookup b (diskdb db) (secureKey h)) as [[Hn _]|(w & Hin' & ->)].
    + destruct Hn. apply list_elem_of_fmap. by exists (secureKey h, v).
    + destruct (Hb _ _ Hin) as [(Hx & _)|(h1 & Heq1%secureKey_inj & _ & H1)]; [by destruct (secureKey_not_hash h)|].
      destruct (Hb _ _ Hin') as [(Hx & _)|(h2 & Heq2%secureKey_inj & _ & H2)]; [by destruct (secureKey_not_hash h)|]. congruence.
Qed.

(** ** Dropping a written node from memory *)

Definition without (a : bytes) (E : edges) : edges := filter (λ p, p.1 ≠ a) E.
Lemma without_occ a E h c : h ≠ a → occ (h, c) (without a E) = occ (h, c) E.
Proof using.
  intros Hne. unfold without. induction E as [|[x y] E IH]; [done|]. rewrite filter_cons. case_decide as Hx; rewrite !occ_cons, ?IH; [done|].
  cbn in Hx. destruct (decide ((x, y) = (h, c))); [|done]. simplify_eq.
Qed.
Lemma without_indeg a E c : (a, c) ∉ E → indeg (without a E) c = indeg E c.
Proof using.
  unfold without. induction E as [|[x y] E IH]; [done|]. intros [H1 H2]%not_elem_of_cons. rewrite filter_cons.
  case_decide as Hx; rewrite !indeg_cons, ?IH by done; [done|]. cbn in *.
  destruct (decide (y = c)); [|done]. congruence.
Qed.
Lemma links_childs e c : 0 < links_count e c → c ∈ childs e.
Proof using.
  unfold links_count, ext_count, childs, gathered. rewrite elem_of_app, external_elem. intros Hl.
  destruct (decide (0 < occ c (match cn_node e with DNode r => gatherChildren r | DRaw _ => [] end))) as [Ho|Ho]; [right; by apply occ_elem|].
  left. destruct (cn_children e) as [m|]; [|lia]. destruct (m !! c) as [n|] eqn:Hn; cbn in Hl; [eauto|lia].
Qed.

Lemma forget_inv db E l a e d o n l' :
  db_inv db E l → complete db → dirties db !! a = Some e → a ≠ zeroHash → is_Some (diskdb db !! a) →
  same_nodes (dirties db) d → flist (base.delete a d) o n l' [] → l' `sublist_of` l →
  let db' := relinked db (base.delete a d) o n in
  db_inv db' (without a E) l' ∧ complete db' ∧ same_reads db db'.
Proof using.
  intros Hi Hcomp Ha Hz Hd Hs Hf Hsub db'. pose proof Hi as [Hinv Hfl Hmeta Hord Hag Hcl Hclosed Hlen Hpre].
  assert (∀ h e', base.delete a d !! h = Some e' → h ≠ a ∧ ∃ e0, dirties db !! h = Some e0 ∧ same_data e0 e' ∧ same_content e0 e') as Hback.
  { intros h e' [Hne He']%lookup_delete_Some. split; [done|]. specialize (Hs h). rewrite He' in Hs.
    inversion Hs as [e0 ? Hdd Heq|]; subst. exists e0. split; [done|]. split; [done|]. by destruct Hdd as (? & _ & _ & ?). }
  assert (∀ h, h ≠ a → is_Some (dirties db !! h) → is_Some (base.delete a d !! h)) as Hdom.
  { intros h Hne Hh. rewrite lookup_delete_ne by done. by apply (same_nodes_dom _ _ h Hs). }
  assert (∀ c, (a, c) ∈ E → is_Some (diskdb db !! c)) as Hkid.
  { intros c Hin. apply (Hclosed a); [apply Hlen; by eexists|done|]. apply (iv_kids _ _ _ _ _ Hinv a e); [done..|].
    apply links_childs. rewrite <- (iv_mult _ _ _ _ _ Hinv a e c Ha (not_elem_of_nil _)). by apply occ_elem. }
  split_and!.
  - split; try done.
    + destruct Hinv as [H1 H2 H3 H4 H5 H6 H7 H8]. split.
      * intros h e' c (_ & e0 & He0 & _ & [<- _]%same_content_childs)%Hback. by apply (H1 h e0).
      * intros h e' c (_ & e0 & He0 & _ & [<- _]%same_content_childs)%Hback. by apply (H2 h e0).
      * intros h e' m c k (_ & e0 & He0 & _ & [_ <-])%Hback. by apply (H3 h e0).
      * intros h e' c (Hne & e0 & He0 & Hsd & _)%Hback Hp. rewrite without_occ by done. rewrite <- (same_data_links e0 e') by done. by apply H4.
      * intros c e' (Hne & e0 & He0 & (_ & _ & <- & _) & _)%Hback Hdc. rewrite without_indeg; [by apply H5|].
        intros [? ?]%Hkid. cbn in Hdc. congruence.
      * intros h c [Hne Hin]%list_elem_of_filter. apply Hdom; [done|]. by apply (H6 h c).
      * intros h c [Hne Hin]%list_elem_of_filter. destruct (H7 h c Hin) as [Hcz [[Hcd _]|?]]; split; try done; [|by right].
        destruct (decide (c = a)) as [->|Hca]; [by right|]. left. split; [by apply Hdom|apply not_elem_of_nil].
      * pose proof (length_filter (λ p : bytes * bytes, p.1 ≠ a) E). unfold without. lia.
    + destruct Hmeta as (em & m & Hem & Hn & Hm). destruct (Hdom zeroHash) as [e' He']; [done|by eexists|].
      destruct (Hback _ _ He') as (_ & e0 & He0 & _ & Hc1 & Hc2). rewrite Hem in He0. injection He0 as <-.
      exists e', m. by rewrite <- Hc1, <- Hc2.
    + intros h e' c He' Hhz Hc. destruct (Hback h e' He') as (Hne & e0 & He0 & _ & [Hch _]%same_content_childs). rewrite <- Hch in Hc.
      destruct (Hord h e0 c He0 Hhz Hc) as [Hb|?]; [|by right]. destruct (decide (c = a)) as [->|Hca]; [by right|]. left.
      destruct (before_elem _ _ _ Hb) as [(Hcz & Hcd & _)%(fl_dom _ _ _ _ _ Hfl) _].
      apply (before_restrict l); [apply Hfl|done|..|done]; apply (fl_dom _ _ _ _ _ Hf); (split; [done|]; split; [|apply not_elem_of_nil]).
      * by apply Hdom.
      * by eexists.
    + intros h e' v (_ & e0 & He0 & _ & [_ <-]%same_content_childs)%Hback. by apply (Hag h).
    + intros h [e' (_ & e0 & He0 & _)%Hback]. apply Hlen. by eexists.
  - intros h e' c (_ & e0 & He0 & _ & [<- _]%same_content_childs)%Hback. by apply (Hcomp h).
  - split; [|done| |intros h e' (_ & e0 & He0 & _ & Hn & _)%Hback; by exists e0].
    + intros h Hh Hhz. unfold stored. cbn. destruct (base.delete a d !! h) as [e'|] eqn:He'.
      * destruct (Hback h e' He') as (_ & e0 & -> & _ & [_ ->]%same_content_childs). done.
      * destruct (dirties db !! h) as [e0|] eqn:He0; [|done]. destruct (decide (h = a)) as [->|Hne].
        -- destruct Hd as [v Hv]. rewrite Hv. f_equal. by apply (Hag a).
        -- destruct (Hdom h) as [? ?]; [done|by eexists|congruence].
    + intros r. unfold meta_refs. destruct Hmeta as (em & m & Hem & _). destruct (Hdom zeroHash) as [e' He']; [done|by eexists|].
      cbn [dirties db' relinked set_dirties]. rewrite He', Hem. destruct (Hback _ _ He') as (_ & e0 & He0 & _ & _ & Hc). rewrite Hem in He0. injection He0 as <-.
      unfold ext_count. by rewrite Hc.
Qed.

(** Only the links of the flush list change. *)
Lemma relink_inv db E l d o n : db_inv db E l → complete db → same_nodes (dirties db) d → flist d o n l [] →
  let db' := relinked db d o n in db_inv db' E l ∧ complete db' ∧ same_reads db db'.
Proof using.
  intros [Hinv Hfl Hmeta Hord Hag Hcl Hclosed Hlen Hpre] Hcomp Hs Hf db'.
  assert (∀ h e', d !! h = Some e' → ∃ e0, dirties db !! h = Some e0 ∧ same_content e0 e') as Hback.
  { intros h e' He'. specialize (Hs h). rewrite He' in Hs. inversion Hs as [e0 ? Hdd Heq|]; subst. exists e0. split; [done|].
    by destruct Hdd as (? & _ & _ & ?). }
  split_and!.
  - split; try done.
    + by eapply inv_same.
    + destruct Hmeta as (em & m & Hem & Hn & Hm). destruct (same_nodes_lookup _ _ _ _ Hs Hem) as (e' & He' & Hc1 & _ & _ & Hc2).
      exists e', m. by rewrite <- Hc1, <- Hc2.
    + intros h e' c (e0 & He0 & [<- _]%same_content_childs)%Hback. by apply (Hord h).
    + intros h e' v (e0 & He0 & [_ <-]%same_content_childs)%Hback. by apply (Hag h).
    + intros h [e' (e0 & He0 & _)%Hback]. apply Hlen. by eexists.
  - intros h e' c (e0 & He0 & [<- _]%same_content_childs)%Hback. by apply (Hcomp h).
  - split; [|done| |intros h e' (e0 & He0 & Hn & _)%Hback; by exists e0].
    + intros h Hh Hhz. unfold stored. cbn. specialize (Hs h). inversion Hs as [e0 e1 (Hn & _) H0 H1|]; [|done]. unfold rlp. by rewrite Hn.
    + intros r. unfold meta_refs. cbn [dirties db' relinked set_dirties]. specialize (Hs zeroHash).
      inversion Hs as [e0 e1 (_ & _ & _ & Hc) H0 H1|]; [|done]. unfold ext_count. by rewrite Hc.
Qed.

(** ** The writing of batches *)

(** While batches are written nothing in memory changes. *)
Record flushing db0 (E : edges) l db b : Prop := MkFlushing {
  fs_mem : db = set_disk (diskdb db) db0;
  fs_inv : db_inv db E l;
  fs_complete : complete db;
  fs_reads : same_reads db0 db;
  fs_good : good db b
}.
(** An entry of the batch, or of the disk. *)
Definition pending db b (k v : bytes) : Prop := (k, v) ∈ b ∨ diskdb db !! k = Some v.

Lemma flushing_start db E l : db_inv db E l → complete db → flushing db E l db [].
Proof using. intros Hi Hc. split; [by destruct db|done|done|apply same_reads_refl|]. by intros k v ?%not_elem_of_nil. Qed.

Lemma stored_disk db E l k v : db_inv db E l → k ≠ zeroHash → diskdb db !! k = Some v → stored db k = Some v.
Proof using.
  intros Hi Hz Hv. unfold stored. destruct (dirties db !! k) as [e|] eqn:He; [|done]. f_equal. symmetry. by apply (di_agree _ _ _ _ Hi k e).
Qed.

Lemma flushing_write db0 E l db b : flushing db0 E l db b →
  let db' := set_disk (apply_batch b (diskdb db)) db in
  flushing db0 E l db' [] ∧
  (∀ k v, is_hash k → k ≠ zeroHash → pending db b k v → diskdb db' !! k = Some v) ∧
  (∀ h v, is_hash h → preimages db0 !! h = Some v → pending db b (secureKey h) v → diskdb db' !! secureKey h = Some v).
Proof using.
  intros [Hm Hi Hc Hr Hg] db'. destruct (write_inv db E l b Hi Hc Hg) as (Hi' & Hc' & Hr' & Hk & Hp). split_and!.
  - split; [subst db'; by rewrite Hm|done|done|by eapply same_reads_trans|]. by intros k v ?%not_elem_of_nil.
  - intros k v Hh Hz [?|Hd]; [by apply Hk|]. cbn. destruct (write_lookup db b k Hg Hh) as [[_ ->]|(w & _ & _ & Hst & ->)]; [done|].
    by rewrite (stored_disk db E l k v) in Hst.
  - intros h v Hh Hpv [?|Hd]; [by apply Hp|]. cbn [diskdb db' set_disk].
    destruct (write_preimage db b h Hg Hh) as [->|(w & Hw & _ & ->)]; [done|]. rewrite Hm in Hw. cbn in Hw. congruence.
Qed.
End Flush.
