(* ===== verification/TrieDBCap.v ===== *)
(** * Flushing the oldest nodes

    [Cap] writes the oldest nodes until the memory is within the limit. *)

From Stdlib Require Import ZArith Lia.
From stdpp Require Import gmap.
From S2P Require Import Prelude Errors Rlp Fullnode Messages Trie TriePure TrieLaws TrieHash TrieRoot TrieNode TrieDB TrieDBGC TrieDBRef TrieDBFlush.
Open Scope didux_scope.
Open Scope nat_scope.

Section Cap.
Context {Cl : Type} {CC : Cache Cl} {MO : MapOrder}.
Context (kids : bytes → list bytes).
Context (write_ok : gmap bytes bytes → batch → bool).
Implicit Types (db : Database Cl) (b : batch).
Local Abbreviation db_inv := (db_inv kids).
Local Abbreviation complete := (complete kids).
Local Abbreviation flushing := (flushing kids).
(** The disk, as it is, refuses a batch of nodes and preimages of this database. *)
Definition refused db : Prop := ∃ b, good kids db b ∧ write_ok (diskdb db) b = false.

Lemma batch_Write_ok db0 E l db b (Q : bool → Database Cl → Prop) : flushing db0 E l db b →
  (refused db → Q false db) →
  (∀ db', flushing db0 E l db' [] →
     (∀ k v, is_hash k → k ≠ zeroHash → pending db b k v → diskdb db' !! k = Some v) →
     (∀ h v, is_hash h → preimages db0 !! h = Some v → pending db b (secureKey h) v → diskdb db' !! secureKey h = Some v) → Q true db') →
  wp (batch_Write write_ok b) Q db.
Proof.
  intros Hf Hno Hyes. unfold batch_Write. wp_steps. destruct (write_ok (diskdb db) b) eqn:Hw; wp_steps.
  - destruct (flushing_write _ _ _ _ _ _ Hf) as (H1 & H2 & H3). by apply Hyes.
  - apply Hno. exists b. split; [apply Hf|done].
Qed.

Lemma good_snoc_preimage db b h p : good kids db b → is_hash h → preimages db !! h = Some p → good kids db (b ++ [(secureKey h, p)]).
Proof.
  intros Hg Hh Hp k v [Hin|[= -> ->]%list_elem_of_singleton]%elem_of_app; [|by right; exists h].
  destruct (Hg k v Hin) as [(H1 & H2 & H3 & Hk)|?]; [|by right]. left. split_and!; [done..|]. intros c Hc.
  destruct (Hk c Hc); [left|by right]. rewrite fmap_app. apply elem_of_app. by left.
Qed.
Lemma good_snoc_node db b k v : good kids db b → is_hash k → k ≠ zeroHash → stored db k = Some v →
  (∀ c, c ∈ kids k → (c ∈ b.*1) ∨ is_Some (diskdb db !! c)) → good kids db (b ++ [(k, v)]).
Proof.
  intros Hg Hh Hz Hst Hk k' v' Hin.
  assert (∀ c, (c ∈ b.*1) ∨ is_Some (diskdb db !! c) → (c ∈ (b ++ [(k, v)]).*1) ∨ is_Some (diskdb db !! c)) as Hmono.
  { intros c [?|?]; [left|by right]. rewrite fmap_app. apply elem_of_app. by left. }
  apply elem_of_app in Hin as [Hin|[= -> ->]%list_elem_of_singleton].
  - destruct (Hg k' v' Hin) as [(H1 & H2 & H3 & Hk')|?]; [|by right]. left. split_and!; [done..|]. auto.
  - left. split_and!; [done..|]. auto.
Qed.
Lemma pending_snoc db b p k v : pending db b k v → pending db (b ++ [p]) k v.
Proof. intros [?|?]; [left|by right]. apply elem_of_app. by left. Qed.

(** ** Preimages *)

Lemma put_preimages_ok db0 E l : ∀ ps b db, flushing db0 E l db b → (∀ k v, (k, v) ∈ b → ¬ is_hash k) →
  (∀ h p, (h, p) ∈ ps → preimages db0 !! h = Some p) →
  wp (put_preimages write_ok ps b) (λ r db', match r with
    | None => refused db' ∧ flushing db0 E l db' []
    | Some b' => flushing db0 E l db' b' ∧ (∀ k v, (k, v) ∈ b' → ¬ is_hash k) ∧
        (∀ h p, preimages db0 !! h = Some p → pending db b (secureKey h) p → pending db' b' (secureKey h) p) ∧
        (∀ h p, (h, p) ∈ ps → pending db' b' (secureKey h) p)
    end) db.
Proof.
  induction ps as [|[h p] ps IH]; intros b db Hf Hb Hps; cbn [put_preimages].
  { wp_steps. split; [done|]. split; [done|]. split; [done|]. by intros h p ?%not_elem_of_nil. }
  assert (preimages db0 !! h = Some p) as Hp by (apply Hps; by left).
  assert (preimages db !! h = Some p) as Hp' by (rewrite (fs_mem _ _ _ _ _ _ Hf); done).
  destruct (di_preimage _ _ _ _ (fs_inv _ _ _ _ _ _ Hf) h p Hp') as [Hh _].
  assert (flushing db0 E l db (b ++ [(secureKey h, p)])) as Hf1.
  { destruct Hf as [? ? ? ? Hg]. split; [done..|]. by apply good_snoc_preimage. }
  assert (∀ k v, (k, v) ∈ b ++ [(secureKey h, p)] → ¬ is_hash k) as Hb1.
  { intros k v [Hin|[= -> ->]%list_elem_of_singleton]%elem_of_app; [by apply (Hb k v)|by apply secureKey_not_hash]. }
  assert (∀ b' db', flushing db0 E l db' b' → (∀ k v, (k, v) ∈ b' → ¬ is_hash k) →
    (∀ h' p', preimages db0 !! h' = Some p' → pending db (b ++ [(secureKey h, p)]) (secureKey h') p' → pending db' b' (secureKey h') p') →
    wp (put_preimages write_ok ps b') (λ r db', match r with
    | None => refused db' ∧ flushing db0 E l db' []
    | Some b' => flushing db0 E l db' b' ∧ (∀ k v, (k, v) ∈ b' → ¬ is_hash k) ∧
        (∀ h p, preimages db0 !! h = Some p → pending db b (secureKey h) p → pending db' b' (secureKey h) p) ∧
        (∀ h' p', (h', p') ∈ (h, p) :: ps → pending db' b' (secureKey h') p')
    end) db') as Hrest.
  { intros b' db' Hf' Hb' Hkeep. eapply wp_wand; [apply (IH b' db'); [done|done|]|].
    - intros h' p' Hin. apply Hps. by right.
    - cbv beta. intros [b2|] db2; [|done]. intros (H1 & H2 & H3 & H4). split_and!; [done|done|..].
      + intros h' p' Hh' Hpend. apply H3; [done|]. apply Hkeep; [done|]. by apply pending_snoc.
      + intros h' p' [[= -> ->]|Hin]%elem_of_cons; [|by apply H4]. apply H3; [done|]. apply Hkeep; [done|]. left. apply elem_of_app. right. by left. }
  destruct (IdealBatchSize <? ValueSize (b ++ [(secureKey h, p)]))%Z; [|by apply Hrest].
  apply wp_bind, (batch_Write_ok db0 E l); [done| |].
  - intros Hr. wp_steps. split; [done|]. destruct Hf as [? ? ? ? _]. split; [done..|]. by intros k v ?%not_elem_of_nil.
  - intros db' Hf' _ Hpre. apply Hrest; [done|by intros k v ?%not_elem_of_nil|].
    intros h' p' Hp1 Hpend. right. apply Hpre; [|done|done].
    apply (di_preimage _ _ _ _ (fs_inv _ _ _ _ _ _ Hf) h' p'). rewrite (fs_mem _ _ _ _ _ _ Hf). done.
Qed.

(** ** Nodes *)

Definition cost (d : nodes) (h : bytes) : Z :=
  match d !! h with
  | Some e => HashLength + cn_size e + cachedNodeSize + children_bytes e
  | None => 0
  end.
Definition costs (d : nodes) (k : list bytes) : Z := foldr (λ h z, (cost d h + z)%Z) 0%Z k.
Lemma costs_app d k1 k2 : costs d (k1 ++ k2) = (costs d k1 + costs d k2)%Z.
Proof. induction k1 as [|h k1 IH]; [done|]. change (cost d h + costs d (k1 ++ k2) = cost d h + costs d k1 + costs d k2)%Z. lia. Qed.

(** The oldest [k] are in the batch or on disk. *)
Definition flushed db b (k : list bytes) : Prop := ∀ h, h ∈ k → (h ∈ b.*1) ∨ is_Some (diskdb db !! h).
Lemma flushed_snoc db b k p : flushed db b k → flushed db (b ++ [p]) (k ++ [p.1]).
Proof.
  intros Hk h [Hin| ->%list_elem_of_singleton]%elem_of_app; rewrite fmap_app, elem_of_app.
  - destruct (Hk h Hin); [by left; left|by right].
  - left; right. by left.
Qed.

Lemma flushed_write db db' b b' k : flushed db b k →
  (∀ h v, is_hash h → h ≠ zeroHash → pending db b h v → diskdb db' !! h = Some v) →
  (∀ h, h ∈ k → is_hash h ∧ h ≠ zeroHash) → flushed db' b' k.
Proof.
  intros Hk Hw Hh h Hin. right. destruct (Hh h Hin) as [Hlen Hz]. destruct (Hk h Hin) as [Hb|[v Hv]].
  - apply list_elem_of_fmap in Hb as ([h' v] & -> & Hb). exists v. apply Hw; [done..|]. by left.
  - exists v. apply Hw; [done..|]. by right.
Qed.
Lemma cap_node db0 E k h rest db b node : flushing db0 E (k ++ h :: rest) db b → flushed db b k → dirties db !! h = Some node →
  flushing db0 E (k ++ h :: rest) db (b ++ [(h, rlp node)]).
Proof.
  intros [Hm Hi Hc Hr Hg] Hk Hn. split; [done..|]. pose proof (di_flist _ _ _ _ Hi) as Hfl.
  assert (h ≠ zeroHash) as Hz by (intros ->; apply (fl_zero _ _ _ _ _ Hfl), elem_of_app; right; by left).
  apply good_snoc_node; [done|apply (di_hash _ _ _ _ Hi); by eexists|done|unfold stored; by rewrite Hn|].
  intros c Hkid. destruct (di_order _ _ _ _ Hi h node c Hn Hz (Hc h node c Hn Hz Hkid)) as [Hb|?]; [|by right].
  apply Hk. pose proof (fl_nodup _ _ _ _ _ Hfl) as Hnd. rewrite (assoc_L (++) k [h] rest : k ++ h :: rest = (k ++ [h]) ++ rest) in Hnd, Hb.
  assert (c ∈ k ++ [h]) as [?| ->%list_elem_of_singleton]%elem_of_app; [|done|].
  - apply (before_split (k ++ [h]) rest c h); [done..|]. apply elem_of_app. right. by left.
  - by destruct (before_asym _ _ _ Hnd Hb Hb).
Qed.

Lemma cap_loop_ok db0 E L limit total : ∀ fuel rest k sz b db, L = k ++ rest → flushing db0 E L db b → flushed db b k →
  length rest < fuel → sz = (total - costs (dirties db0) k)%Z →
  wp (cap_loop write_ok fuel limit sz (hd zeroHash rest) b) (λ r db', match r with
    | None => refused db' ∧ flushing db0 E L db' []
    | Some (old, b') => ∃ k' rest', L = k' ++ rest' ∧ old = hd zeroHash rest' ∧ flushing db0 E L db' b' ∧ flushed db' b' k' ∧
        (∀ h p, is_hash h → preimages db0 !! h = Some p → pending db b (secureKey h) p → pending db' b' (secureKey h) p) ∧
        (rest' = [] ∨ (total - costs (dirties db0) k' ≤ limit)%Z)
    end) db.
Proof.
  induction fuel as [|fuel IH]; intros rest k sz b db HL Hf Hk Hlen Hsz; [lia|]. cbn [cap_loop].
  destruct rest as [|h rest]; cbn [hd].
  { rewrite bool_decide_eq_true_2, andb_false_r by done. wp_steps. exists k, []. split_and!; [done..|]. by left. }
  pose proof (di_flist _ _ _ _ (fs_inv _ _ _ _ _ _ Hf)) as Hfl.
  assert (h ∈ L) as HhL by (rewrite HL; apply elem_of_app; right; by left).
  assert (h ≠ zeroHash ∧ is_Some (dirties db !! h)) as [Hz [node Hn]] by (by apply (fl_dom _ _ _ _ _ Hfl) in HhL as (? & ? & _)).
  rewrite bool_decide_eq_false_2 by done. rewrite andb_true_r. destruct (Z.ltb_spec limit sz).
  2:{ wp_steps. exists k, (h :: rest). split_and!; [done..|]. right. lia. }
  unfold dirty_ptr. wp_steps. rewrite Hn. wp_steps.
  assert (cn_flushNext node = hd zeroHash rest) as Hnext.
  { pose proof (fl_chain _ _ _ _ _ Hfl) as Hch. rewrite HL in Hch. apply chain_app in Hch as [_ (e & He & _ & Hnx & _)]. congruence. }
  assert (flushing db0 E L db (b ++ [(h, rlp node)])) as Hf1 by (rewrite HL in *; by eapply cap_node).
  pose proof (flushed_snoc _ _ _ (h, rlp node) Hk) as Hk1. cbn [fst] in Hk1.
  assert (dirties db = dirties db0) as Hd by (rewrite (fs_mem _ _ _ _ _ _ Hf); done).
  assert (∀ b' db', flushing db0 E L db' b' → flushed db' b' (k ++ [h]) →
    (∀ h' p, is_hash h' → preimages db0 !! h' = Some p → pending db b (secureKey h') p → pending db' b' (secureKey h') p) →
    wp (cap_loop write_ok fuel limit (sz - (HashLength + cn_size node + cachedNodeSize) - children_bytes node) (cn_flushNext node) b')
     (λ r db', match r with
    | None => refused db' ∧ flushing db0 E L db' []
    | Some (old, b') => ∃ k' rest', L = k' ++ rest' ∧ old = hd zeroHash rest' ∧ flushing db0 E L db' b' ∧ flushed db' b' k' ∧
        (∀ h p, is_hash h → preimages db0 !! h = Some p → pending db b (secureKey h) p → pending db' b' (secureKey h) p) ∧
        (rest' = [] ∨ (total - costs (dirties db0) k' ≤ limit)%Z)
    end) db') as Hgo.
  { intros b' db' Hf' Hk' Hkeep. rewrite Hnext. eapply wp_wand; [apply (IH rest (k ++ [h])); [..|done|done| |]|].
    - by rewrite HL, <- app_assoc.
    - cbn in Hlen. lia.
    - rewrite costs_app. unfold costs at 2, cost. cbn [foldr]. rewrite Hd in Hn. rewrite Hn. lia.
    - cbv beta. intros [[old b2]|] db2; [|done]. intros (k2 & r2 & H1 & H2 & H3 & H4 & H5 & H6). exists k2, r2. split_and!; [done..| |done]. auto. }
  destruct (IdealBatchSize <=? ValueSize (b ++ [(h, rlp node)]))%Z.
  2:{ apply Hgo; [done|done|]. intros. by apply pending_snoc. }
  apply wp_bind, (batch_Write_ok db0 E L); [done| |].
  - intros Hr. wp_steps. split; [done|]. destruct Hf as [? ? ? ? _]. split; [done..|]. by intros ? v ?%not_elem_of_nil.
  - intros db' Hf' Hnodes Hpre. apply Hgo; [done| |].
    + apply (flushed_write db db' (b ++ [(h, rlp node)])); [done|done|]. intros x Hx.
      assert (x ∈ L) as (Hxz & Hxd & _)%(fl_dom _ _ _ _ _ Hfl).
      { rewrite HL. apply elem_of_app in Hx as [?| ->%list_elem_of_singleton]; apply elem_of_app; [by left|right; by left]. }
      split; [|done]. by apply (di_hash _ _ _ _ (fs_inv _ _ _ _ _ _ Hf)).
    + intros h' p Hh' Hp Hpend. right. apply Hpre; [done|done|]. by apply pending_snoc.
Qed.

(** ** Dropping what is written *)

Definition mem_size db : Z := match dirties db !! zeroHash with Some meta => memory_size db meta | None => 0 end.

Lemma flist_pop d o n h l e : flist d o n (h :: l) [] → d !! h = Some e → flist (base.delete h d) (cn_flushNext e) n l [].
Proof.
  intros [H1 H2 H3 H4 H5 H6 H7] He. apply NoDup_cons in H1 as [Hh Hnd]. apply not_elem_of_cons in H2 as [Hz H2].
  destruct H7 as (e' & He' & _ & Hnx & Hc). rewrite He in He'. injection He' as <-. split; try done.
  - by rewrite lookup_delete_ne.
  - intros x. specialize (H4 x). rewrite elem_of_cons in H4. destruct (decide (x = h)) as [->|Hne].
    + rewrite lookup_delete_eq. split; [done|]. by intros (_ & [? ?] & _).
    + rewrite lookup_delete_ne by done. rewrite <- H4. split; [by right|]. by intros [?|?].
  - intros x Hx. apply H6. rewrite last_cons. by rewrite Hx.
  - apply chain_delete; [done|]. by eapply chain_weaken.
Qed.
Lemma costs_delete d h k : h ∉ k → costs (base.delete h d) k = costs d k.
Proof.
  induction k as [|x k IH]; [done|]. intros [Hne Hk]%not_elem_of_cons.
  change (cost (base.delete h d) x + costs (base.delete h d) k = cost d x + costs d k)%Z. rewrite (IH Hk). unfold cost. by rewrite lookup_delete_ne.
Qed.
Lemma mem_size_pop db h e o n : dirties db !! h = Some e → h ≠ zeroHash →
  mem_size (add_childrenSize (- children_bytes e) (add_dirtiesSize (- (HashLength + cn_size e))
    (set_ends o n (set_dirties (base.delete h (dirties db)) db)))) =
  if decide (is_Some (dirties db !! zeroHash)) then (mem_size db - cost (dirties db) h)%Z else mem_size db.
Proof.
  intros He Hz. unfold mem_size, memory_size, nodes_count, cost. cbn [dirties add_childrenSize add_dirtiesSize set_ends set_dirties dirtiesSize childrenSize].
  rewrite lookup_delete_ne, He by done. destruct (dirties db !! zeroHash) as [meta|] eqn:Hm; [|by case_decide; [destruct (is_Some_None (A := cachedNode))|]].
  rewrite decide_True by (by eexists). rewrite (map_size_delete_Some h (dirties db)) by done.
  assert (size (dirties db) ≠ 0) by (apply map_size_ne_0_lookup; by exists h; eexists).
  destruct (cn_children meta); unfold cachedNodeSize in *; lia.
Qed.

Lemma cap_uncache_ok rest : ∀ k fuel E db, db_inv db E (k ++ rest) → complete db → flushed db [] k → length k < fuel →
  wp (cap_uncache fuel (hd zeroHash rest)) (λ _ db', ∃ E', db_inv db' E' rest ∧ complete db' ∧ same_reads db db' ∧
    mem_size db' = (mem_size db - costs (dirties db) k)%Z) db.
Proof.
  induction k as [|h k IH]; intros fuel E db Hi Hc Hk Hlen; (destruct fuel as [|fuel]; [cbn in Hlen; lia|]); cbn [cap_uncache].
  { wp_steps. rewrite bool_decide_eq_true_2 by (apply (fl_oldest _ _ _ _ _ (di_flist _ _ _ _ Hi))). wp_steps. exists E.
    split_and!; [done|done|apply same_reads_refl|]. cbn. lia. }
  pose proof (di_flist _ _ _ _ Hi) as Hfl. pose proof (fl_oldest _ _ _ _ _ Hfl) as Ho. cbn [app hd] in Ho.
  pose proof (fl_nodup _ _ _ _ _ Hfl) as Hnd. cbn [app] in Hnd. apply NoDup_cons in Hnd as [Hnin Hnd].
  assert (h ∈ (h :: k) ++ rest) as Hin by (by left). apply (fl_dom _ _ _ _ _ Hfl) in Hin as (Hz & [e He] & _).
  wp_steps. rewrite Ho, bool_decide_eq_false_2.
  2:{ destruct rest as [|r rest]; [done|]. cbn. intros ->. apply Hnin, elem_of_app. right. by left. }
  unfold dirty_ptr. wp_steps. rewrite He. wp_steps.
  assert (is_Some (diskdb db !! h)) as Hd by (destruct (Hk h) as [?%not_elem_of_nil|?]; [by left|done..]).
  destruct (forget_inv kids db E ((h :: k) ++ rest) h e (dirties db) (cn_flushNext e) (newest db) (k ++ rest)) as (Hi1 & Hc1 & Hr1); try done.
  { by eapply flist_pop. }
  { by apply sublist_cons. }
  match goal with |- wp _ _ ?x => set (db1 := x) end.
  assert (mem_size db1 = (mem_size db - cost (dirties db) h)%Z) as Hms.
  { subst db1. cbn [dirties newest set_dirties]. rewrite Ho. rewrite (mem_size_pop db h e) by done. by rewrite decide_True by apply (fl_meta _ _ _ _ _ Hfl). }
  eapply wp_wand; [apply (IH fuel (without h E) db1)|].
  - subst db1. rewrite Ho. by destruct Hi1.
  - subst db1. rewrite Ho. done.
  - intros x Hx. apply Hk. by right.
  - cbn in Hlen. lia.
  - cbv beta. intros _ db2 (E2 & H1 & H2 & H3 & H4). exists E2. split_and!; [done|done| |].
    + eapply same_reads_trans; [|exact H3]. subst db1. rewrite Ho. by destruct Hr1.
    + rewrite H4, Hms. subst db1. cbn [dirties add_childrenSize add_dirtiesSize set_ends set_dirties]. rewrite Ho, costs_delete; [|intros ?; apply Hnin, elem_of_app; by left].
      unfold costs. cbn [foldr]. lia.
Qed.

(** ** The whole of [Cap] *)

(** The preimages are dropped once they are on disk. *)
Lemma drop_preimages_inv db E l : db_inv db E l → complete db →
  (∀ h p, preimages db !! h = Some p → diskdb db !! secureKey h = Some p) →
  let db' := set_preimages ∅ 0 db in db_inv db' E l ∧ complete db' ∧ same_reads db db'.
Proof.
  intros Hi Hc Hp db'. split_and!; [|done|].
  - destruct Hi. by split.
  - split; [done| |done|by eauto]. intros h _. unfold read_preimage, db'. cbn [preimages diskdb set_preimages]. rewrite lookup_empty.
    destruct (preimages db !! h) as [p|] eqn:Hh; [|done]. by apply Hp.
Qed.

Lemma cap_size db E l : db_inv db E l → length l < S (size (dirties db)).
Proof.
  intros Hi. pose proof (di_flist _ _ _ _ Hi) as Hfl. rewrite <- size_dom.
  assert (list_to_set l ⊆ dom (dirties db)) as Hsub.
  { intros h Hh%elem_of_list_to_set. apply elem_of_dom. by apply (fl_dom _ _ _ _ _ Hfl) in Hh as (_ & ? & _). }
  apply subseteq_size in Hsub. rewrite size_list_to_set in Hsub by apply Hfl. lia.
Qed.

Definition cap_post db limit (r : option db_error) db' : Prop :=
  (∃ E' l', db_inv db' E' l') ∧ complete db' ∧ same_reads db db' ∧
  match r with
  | None => (∀ h, is_Some (dirties db' !! h) → h = zeroHash) ∨ (mem_size db' ≤ limit)%Z
  | Some _ => refused db' ∧ dirties db' = dirties db
  end.
Lemma cap_refused db E l limit db' : flushing db E l db' [] → refused db' → cap_post db limit (Some ErrWrite) db'.
Proof. intros [Hm Hi Hc Hr _] Hno. split_and!; [by exists E, l|done|done|done|]. rewrite Hm. done. Qed.

(** After the last write: the memory is cleaned up. *)
Lemma cap_finish db db1 E k rest limit flushPre db0 :
  flushing db E (k ++ rest) db1 [] → flushed db1 [] k → (rest = [] ∨ (mem_size db - costs (dirties db) k ≤ limit)%Z) →
  (flushPre = true → ∀ h p, preimages db !! h = Some p → diskdb db1 !! secureKey h = Some p) →
  wp (do! (if flushPre : bool then mmod (set_preimages ∅ 0) else mret' ()) in
      do! cap_uncache (S (size (dirties db))) (hd zeroHash rest) in
      let! db' := mget in
      do! (if bool_decide (oldest db' = zeroHash) then mret' () else dirty_set (oldest db') (set_flushPrev zeroHash)) in
      do! mmod (λ db, set_stats (gcnodes db) (gcsize db) (flushnodes db + (nodes_count db0 - nodes_count db))
        (flushsize db + (dirtiesSize db0 - dirtiesSize db)) db) in
      mret' (A := option db_error) None) (λ r db', cap_post db limit r db') db1.
Proof.
  intros [Hm Hi Hc Hr _] Hk Hlim Hpre. apply wp_bind.
  assert (∀ db2, db_inv db2 E (k ++ rest) → complete db2 → same_reads db db2 → diskdb db2 = diskdb db1 → dirties db2 = dirties db → mem_size db2 = mem_size db →
    wp (do! cap_uncache (S (size (dirties db))) (hd zeroHash rest) in
      let! db' := mget in
      do! (if bool_decide (oldest db' = zeroHash) then mret' () else dirty_set (oldest db') (set_flushPrev zeroHash)) in
      do! mmod (λ db, set_stats (gcnodes db) (gcsize db) (flushnodes db + (nodes_count db0 - nodes_count db))
        (flushsize db + (dirtiesSize db0 - dirtiesSize db)) db) in
      mret' (A := option db_error) None) (λ r db', cap_post db limit r db') db2) as Hgo.
  { clear Hm Hi Hc Hr Hpre. intros db2 Hi Hc Hr Hd Hdd Hms. eapply wp_seq.
    { apply (cap_uncache_ok rest k _ E); [done|done|by intros h Hh; destruct (Hk h Hh) as [?|?]; [left|right; rewrite Hd]|].
      pose proof (cap_size _ _ _ Hi) as Hs. rewrite length_app, Hdd in Hs. lia. }
    cbv beta. intros [] db3 (E3 & Hi3 & Hc3 & Hr3 & Hms3). wp_steps.
    pose proof (di_flist _ _ _ _ Hi3) as Hfl. pose proof (fl_oldest _ _ _ _ _ Hfl) as Ho.
    assert (∀ db4, db_inv db4 E3 rest → complete db4 → same_reads db3 db4 → mem_size db4 = mem_size db3 →
      cap_post db limit None db4) as Hdone.
    { intros db4 Hi4 Hc4 Hr4 Hms4. split_and!; [by exists E3, rest|done|by eapply same_reads_trans; [exact Hr|]; eapply same_reads_trans|].
      destruct Hlim as [->|Hle]; [left|right; rewrite Hms4, Hms3, Hms, Hdd; lia]. intros h Hh.
      destruct (decide (h = zeroHash)) as [?|Hz]; [done|]. destruct (not_elem_of_nil h). by eapply flist_elem. }
    destruct rest as [|h rest]; cbn [hd] in Ho.
    - rewrite bool_decide_eq_true_2 by done. wp_steps. apply Hdone; [by destruct Hi3|done|by destruct (same_reads_refl db3)|done].
    - assert (h ≠ zeroHash) as Hz by (intros ->; apply (fl_zero _ _ _ _ _ Hfl); by left).
      rewrite bool_decide_eq_false_2 by congruence. rewrite Ho.
      destruct (fl_chain _ _ _ _ _ Hfl) as (e & He & Hchain). apply wp_bind, (wp_dirty_set _ _ e); [done|]. wp_steps.
      destruct (relink_inv kids db3 E3 (h :: rest) (<[h := set_flushPrev zeroHash e]> (dirties db3)) (oldest db3) (newest db3)) as (Hi4 & Hc4 & Hr4);
        [done|done|by apply (same_nodes_set _ _ e)| |].
      { destruct Hfl as [H1 H2 H3 H4 H5 H6 H7]. split; try done.
        - by rewrite lookup_insert_ne.
        - intros x. rewrite H4. destruct (decide (x = h)) as [->|Hne]; [rewrite lookup_insert_eq, He|by rewrite lookup_insert_ne].
          split; intros (? & _ & ?); (split; [done|split; [by eexists|done]]).
        - eapply chain_weaken, chain_set_prev; [by apply NoDup_cons in H1 as [? _]|done|exact H7]. }
      apply Hdone; [by destruct Hi4|done|by destruct Hr4|].
      unfold mem_size, memory_size, nodes_count. cbn [dirties set_stats set_dirties dirtiesSize childrenSize].
      rewrite lookup_insert_ne, map_size_insert_Some by (done || by eexists). done. }
  destruct flushPre; wp_steps.
  - destruct (drop_preimages_inv db1 E (k ++ rest)) as (Hi1 & Hc1 & Hr1); [done|done| |].
    { intros h p Hp. apply Hpre; [done|]. rewrite Hm in Hp. done. }
    apply Hgo; [done|done|by eapply same_reads_trans|done|rewrite Hm; done|rewrite Hm; done].
  - apply Hgo; [done|done|done|done|rewrite Hm; done|rewrite Hm; done].
Qed.

Lemma Cap_ok limit db E l : db_inv db E l → complete db → wp (Cap write_ok limit) (λ r db', cap_post db limit r db') db.
Proof.
  intros Hi Hc. unfold Cap. wp_steps. pose proof (di_flist _ _ _ _ Hi) as Hfl. destruct (fl_meta _ _ _ _ _ Hfl) as [meta Hmeta].
  unfold dirty_ptr. wp_steps. rewrite Hmeta. wp_steps. set (fp := (4 * 1024 * 1024 <? preimagesSize db)%Z).
  eapply (wp_seq _ _ (λ r db', match r with
    | None => refused db' ∧ flushing db E l db' []
    | Some b => flushing db E l db' b ∧ (fp = true → ∀ h p, preimages db !! h = Some p → pending db' b (secureKey h) p)
    end)).
  { pose proof (flushing_start kids db E l Hi Hc) as Hs. destruct fp; [|wp_steps; by split].
    eapply wp_wand; [apply (put_preimages_ok db E l); [done|by intros k v ?%not_elem_of_nil|by intros h p ?%elem_of_map_range]|].
    cbv beta. intros [b|] db1; [|done]. intros (H1 & _ & _ & H4). split; [done|]. intros _ h p Hp. apply H4. by apply elem_of_map_range. }
  cbv beta. intros [b|] db1; [|intros [Hr Hf]; wp_steps; by eapply cap_refused]. intros [Hf Hpre].
  eapply wp_seq.
  { rewrite (fl_oldest _ _ _ _ _ Hfl). apply (cap_loop_ok db E l limit (mem_size db) _ l []); [done|done|by intros h ?%not_elem_of_nil|by eapply cap_size|].
    unfold mem_size. rewrite Hmeta. cbn. lia. }
  cbv beta. intros [[old b2]|] db2; [|intros [Hr Hf2]; wp_steps; by eapply cap_refused].
  intros (k & rest & HL & -> & Hf2 & Hk2 & Hpre2 & Hlim). apply wp_bind, (batch_Write_ok db E l); [done| |].
  - intros Hr. wp_steps. apply (cap_refused db E l); [|done]. destruct Hf2 as [? ? ? ? _]. split; [done..|]. by intros ? v ?%not_elem_of_nil.
  - intros db3 Hf3 Hnodes Hp3. rewrite HL in *. apply (cap_finish db db3 E k rest); [done| |done|].
    + apply (flushed_write db2 db3 b2); [done..|]. intros h Hh.
      assert (h ∈ k ++ rest) as (Hz & Hd & _)%(fl_dom _ _ _ _ _ Hfl) by (apply elem_of_app; by left). split; [by apply (di_hash _ _ _ _ Hi)|done].
    + intros Hfp h p Hp. destruct (di_preimage _ _ _ _ Hi h p Hp) as [Hh _]. apply Hp3; [done..|]. apply Hpre2; [done..|]. by apply Hpre.
Qed.
End Cap.
