(* ===== verification/TrieDBCommit.v ===== *)
(** * Writing a trie to disk

    [Commit] writes the nodes of a trie, children first, and moves what is
    written from the memory to the clean cache. *)

From Stdlib Require Import ZArith Lia.
From stdpp Require Import gmap.
From S2P Require Import Prelude Errors Rlp Fullnode Messages Trie TriePure TrieLaws TrieHash TrieRoot TrieNode TrieDB TrieDBGC TrieDBRef TrieDBFlush TrieDBCap.
Open Scope didux_scope.
Open Scope nat_scope.

Section Commit.
Context {Cl : Type} {CC : Cache Cl} {MO : MapOrder} {CL : CacheLaws Cl}.
Context (kids : bytes → list bytes) (rank : bytes → nat).
Context (Hrank : ∀ h c, c ∈ kids h → rank c < rank h) (Hkids : ∀ h c, c ∈ kids h → c ≠ zeroHash ∧ is_hash c).
Context (write_ok : gmap bytes bytes → batch → bool).
Implicit Types (db : Database Cl) (b : batch).
Local Abbreviation db_inv := (db_inv kids).
Local Abbreviation complete := (complete kids).
Local Abbreviation good := (good kids).
Local Abbreviation refused := (refused kids write_ok).

(** A step of the commit: the readers see the same, the disk only grows. *)
Record step db db' : Prop := MkStep {
  st_inv : ∃ E l, db_inv db' E l;
  st_complete : complete db';
  st_reads : same_reads db db';
  st_disk : ∀ k, is_Some (diskdb db !! k) → is_Some (diskdb db' !! k);
  st_preimages : preimages db' = preimages db ∧ preimagesSize db' = preimagesSize db
}.
Lemma step_refl db E l : db_inv db E l → complete db → step db db.
Proof using. intros Hi Hc. split; [by exists E, l|done|apply same_reads_refl|done|done]. Qed.
Lemma step_trans db1 db2 db3 : step db1 db2 → step db2 db3 → step db1 db3.
Proof using.
  intros [? ? Hr1 Hd1 [Hp1 Hs1]] [? ? Hr2 Hd2 [Hp2 Hs2]]. split; [done|done|by eapply same_reads_trans|by auto|]. by rewrite Hp2, Hs2.
Qed.

(** ** The cleaner *)

Lemma clean_set_inv db E l k v : db_inv db E l → diskdb db !! k = Some v → db_inv (clean_set k v db) E l.
Proof using CL.
  intros Hi Hv. unfold clean_set. destruct (cleans db) as [c|] eqn:Hc; [|done].
  destruct Hi as [? ? ? ? ? Hcl ? ? ?]. split; try done. intros h w Hh Hw. cbn in *. unfold clean_get in Hw. cbn in Hw.
  apply cache_get_set in Hw as [[-> ->]|Hw]; [done|]. apply Hcl; [done|]. unfold clean_get. by rewrite Hc.
Qed.
Lemma clean_set_rest db k v : dirties (clean_set k v db) = dirties db ∧ diskdb (clean_set k v db) = diskdb db ∧
  preimages (clean_set k v db) = preimages db ∧ preimagesSize (clean_set k v db) = preimagesSize db.
Proof using. unfold clean_set. by destruct (cleans db). Qed.
Lemma clean_set_step db E l k v : db_inv db E l → complete db → diskdb db !! k = Some v → step db (clean_set k v db).
Proof using CL.
  intros Hi Hc Hv. destruct (clean_set_rest db k v) as (Hd & Hdisk & Hp & Hps). split.
  - exists E, l. by apply clean_set_inv.
  - unfold complete. by rewrite Hd.
  - split; intros; unfold stored, read_preimage, meta_refs in *; rewrite ?Hd, ?Hdisk, ?Hp in *; eauto.
  - by rewrite Hdisk.
  - done.
Qed.

Lemma cleaner_Put_ok db E l k v : db_inv db E l → complete db → is_hash k → k ≠ zeroHash → diskdb db !! k = Some v →
  wp (cleaner_Put k v) (λ _ db', step db db' ∧ diskdb db' = diskdb db ∧ dirties db' !! k = None) db.
Proof using CL.
  intros Hi Hc Hh Hz Hv. unfold cleaner_Put. wp_steps. rewrite (BytesToHash_32 k Hh).
  destruct (dirties db !! k) as [e|] eqn:He.
  2:{ wp_steps. split; [by eapply step_refl|done]. }
  eapply wp_seq; [apply (unlink_ok db l []); [apply Hi| |done]|].
  { eapply flist_elem; [done..|]. by eexists. }
  cbv beta. intros [] db1 (d & o & n & l1 & l2 & -> & -> & Hs & Hf). wp_steps.
  destruct (forget_inv kids db E (l1 ++ k :: l2) k e d o n (l1 ++ l2)) as (Hi1 & Hc1 & Hr1); try done.
  { apply flist_delete; [done|apply not_elem_of_nil|done]. }
  { apply sublist_app; [done|]. by apply sublist_cons. }
  match goal with |- _ ∧ diskdb (clean_set _ _ ?x) = _ ∧ _ => set (db2 := x) end.
  assert (db_inv db2 (without k E) (l1 ++ l2)) as Hi2 by (by destruct Hi1).
  destruct (clean_set_rest db2 k v) as (Hd & Hdisk & _). split_and!.
  - eapply step_trans; [|eapply clean_set_step; [exact Hi2|done|done]]. split; [by exists (without k E), (l1 ++ l2)|done|by destruct Hr1|done|done].
  - by rewrite Hdisk.
  - rewrite Hd. apply lookup_delete_eq.
Qed.

Lemma batch_Replay_ok : ∀ b db E l, db_inv db E l → complete db →
  (∀ k v, (k, v) ∈ b → is_hash k ∧ k ≠ zeroHash ∧ diskdb db !! k = Some v) →
  wp (batch_Replay b) (λ _ db', step db db' ∧ diskdb db' = diskdb db) db.
Proof using CL.
  induction b as [|[k v] b IH]; intros db E l Hi Hc Hb; cbn [batch_Replay].
  { wp_steps. split; [by eapply step_refl|done]. }
  destruct (Hb k v) as (Hh & Hz & Hv); [by left|]. eapply wp_seq; [by apply (cleaner_Put_ok db E l)|].
  cbv beta. intros [] db1 (Hs1 & Hd1 & _). destruct (st_inv _ _ Hs1) as (E1 & l1 & Hi1).
  eapply wp_wand; [apply (IH db1 E1 l1 Hi1 (st_complete _ _ Hs1))|].
  - intros k' v' Hin. rewrite Hd1. apply Hb. by right.
  - cbv beta. intros _ db2 [Hs2 Hd2]. split; [by eapply step_trans|by rewrite Hd2].
Qed.

(** ** The walk over the trie *)

(** The batch has nodes only. *)
Definition nodes_only b : Prop := ∀ k v, (k, v) ∈ b → is_hash k ∧ k ≠ zeroHash.
(** Written, or about to be. *)
Definition handled db b (h : bytes) : Prop := (h ∈ b.*1) ∨ is_Some (diskdb db !! h).

Lemma good_step db db' b : good db b → nodes_only b → step db db' → good db' b.
Proof using.
  intros Hg Hn Hs k v Hin. destruct (Hn k v Hin) as [Hh Hz]. left. destruct (Hg k v Hin) as [(_ & _ & Hst & Hk)|(h & -> & Hh' & _)].
  - split_and!; [done|done|by rewrite (sr_stored _ _ (st_reads _ _ Hs))|]. intros c Hc. destruct (Hk c Hc); [by left|right]. by apply Hs.
  - by destruct (secureKey_not_hash h).
Qed.

(** A batch is written and its nodes leave the memory. *)
Lemma flush_batch_ok {A} db E l b (m : M (Database Cl) A) (f : M (Database Cl) A) (Q : A → Database Cl → Prop) :
  db_inv db E l → complete db → good db b → nodes_only b →
  (refused db → wp f Q db) →
  (∀ db', step db db' → (∀ h, h ∈ b.*1 → is_Some (diskdb db' !! h)) → wp m Q db') →
  wp (let! ok := batch_Write write_ok b in if ok then do! batch_Replay b in m else f) Q db.
Proof using CL.
  intros Hi Hc Hg Hn Hno Hyes. unfold batch_Write. wp_steps. destruct (write_ok (diskdb db) b) eqn:Hw; wp_steps.
  2:{ apply Hno. by exists b. }
  destruct (write_inv kids db E l b Hi Hc Hg) as (Hi1 & Hc1 & Hr1 & Hk1 & _). set (db1 := set_disk _ _) in *.
  assert (step db db1) as Hs1 by (split; [by exists E, l|done|done|intros k; apply write_dom|done]).
  eapply wp_seq; [apply (batch_Replay_ok b db1 E l); [done|done|]|].
  - intros k v Hin. destruct (Hn k v Hin). split_and!; [done|done|]. by apply Hk1.
  - cbv beta. intros [] db2 [Hs2 Hd2]. apply Hyes; [by eapply step_trans|]. intros h Hh. rewrite Hd2.
    apply list_elem_of_fmap in Hh as ([h' v] & -> & Hin). exists v. apply Hk1; [done|]. by apply (Hn h' v).
Qed.

Definition commit_post db b (hs : list bytes) (r : option batch) db' : Prop := step db db' ∧
  match r with
  | None => refused db'
  | Some b' => good db' b' ∧ nodes_only b' ∧ (∀ h, handled db b h → handled db' b' h) ∧ (∀ h, h ∈ hs → handled db' b' h)
  end.
Definition commit_spec fuel : Prop := ∀ hash b db E l, db_inv db E l → complete db → good db b → nodes_only b →
  is_hash hash → hash ≠ zeroHash → is_Some (stored db hash) → rank hash < fuel →
  wp (db_commit write_ok fuel hash b) (λ r db', commit_post db b [hash] r db') db.

Lemma commit_walk fuel : commit_spec fuel → ∀ cs b db E l, db_inv db E l → complete db → good db b → nodes_only b →
  (∀ c, c ∈ cs → is_hash c ∧ c ≠ zeroHash ∧ is_Some (stored db c) ∧ rank c < fuel) →
  wp ((fix walk (l : list bytes) (b : batch) : M (Database Cl) (option batch) :=
         match l with
         | [] => mret' (Some b)
         | child :: l =>
             let! ob := db_commit write_ok fuel child b in
             match ob with Some b => walk l b | None => mret' None end
         end) cs b) (λ r db', commit_post db b cs r db') db.
Proof using.
  intros Hspec cs. induction cs as [|c cs IH]; intros b db E l Hi Hc Hg Hn Hcs.
  { wp_steps. split; [by eapply step_refl|]. split_and!; [done|done|done|]. by intros h ?%not_elem_of_nil. }
  destruct (Hcs c) as (Hh & Hz & Hst & Hr); [by left|]. eapply wp_seq; [by apply (Hspec c b db E l)|].
  cbv beta. intros [b1|] db1 [Hs1 Hpost]; [|wp_steps; by split]. destruct Hpost as (Hg1 & Hn1 & Hk1 & Hc1).
  destruct (st_inv _ _ Hs1) as (E1 & l1 & Hi1). eapply wp_wand; [apply (IH b1 db1 E1 l1 Hi1 (st_complete _ _ Hs1) Hg1 Hn1)|].
  - intros x Hx. destruct (Hcs x) as (Hxh & Hxz & Hxs & Hxr); [by right|]. split_and!; [done|done| |done].
    by rewrite (sr_stored _ _ (st_reads _ _ Hs1)).
  - cbv beta. intros [b2|] db2 [Hs2 Hpost2]; (split; [by eapply step_trans|]); [|done].
    destruct Hpost2 as (Hg2 & Hn2 & Hk2 & Hc2). split_and!; [done|done|by auto|].
    intros h [->|Hin]%elem_of_cons; [|by apply Hc2]. apply Hk2, Hc1. by left.
Qed.

Lemma db_commit_ok fuel : commit_spec fuel.
Proof using Hrank Hkids CL.
  induction fuel as [|fuel IH]; intros hash b db E l Hi Hc Hg Hn Hh Hz Hst Hr; [lia|]. cbn [db_commit]. wp_steps.
  destruct (dirties db !! hash) as [node|] eqn:He.
  2:{ wp_steps. split; [by eapply step_refl|]. split_and!; [done..|]. intros h ->%list_elem_of_singleton. right.
      unfold stored in Hst. by rewrite He in Hst. }
  assert (∀ c, c ∈ childs node → c ∈ kids hash) as Hkid by (intros c; by apply (iv_kids _ _ _ _ _ (di_inv _ _ _ _ Hi) hash)).
  eapply wp_seq; [apply (commit_walk fuel IH (childs node) b db E l); [done..|]|].
  { intros c Hch. pose proof (Hkid c Hch) as Hck. destruct (Hkids hash c Hck). specialize (Hrank hash c Hck). split_and!; [done..| |lia].
    apply (stored_some kids db E l); [done|]. destruct (di_order _ _ _ _ Hi hash node c) as [[Hin _]%before_elem|?]; [done..|left|by right].
    by apply (fl_dom _ _ _ _ _ (di_flist _ _ _ _ Hi)) in Hin as (_ & ? & _). }
  cbv beta. intros [b1|] db1 [Hs1 Hpost]; [|wp_steps; by split]. destruct Hpost as (Hg1 & Hn1 & Hk1 & Hc1).
  destruct (st_inv _ _ Hs1) as (E1 & l1 & Hi1). pose proof (st_complete _ _ Hs1) as Hco1.
  assert (good db1 (b1 ++ [(hash, rlp node)])) as Hg2.
  { apply good_snoc_node; [done..| |].
    - rewrite (sr_stored _ _ (st_reads _ _ Hs1)) by done. unfold stored. by rewrite He.
    - intros c Hck. apply Hc1. by apply (Hc hash node). }
  assert (nodes_only (b1 ++ [(hash, rlp node)])) as Hn2.
  { intros k v [Hin|[= -> ->]%list_elem_of_singleton]%elem_of_app; [by apply (Hn1 k v)|done]. }
  assert (∀ h, handled db1 b1 h → handled db1 (b1 ++ [(hash, rlp node)]) h) as Hmono.
  { intros h [?|?]; [left; rewrite fmap_app; apply elem_of_app; by left|by right]. }
  destruct (IdealBatchSize <=? ValueSize (b1 ++ [(hash, rlp node)]))%Z.
  - apply (flush_batch_ok db1 E1 l1); [done..| |].
    + intros Hno. wp_steps. by split.
    + intros db2 Hs2 Hd2. wp_steps. split; [by eapply step_trans|]. split_and!.
      * by intros k v ?%not_elem_of_nil.
      * by intros k v ?%not_elem_of_nil.
      * intros h Hhd. right. destruct (Hmono h (Hk1 h Hhd)) as [?|?]; [by apply Hd2|by apply Hs2].
      * intros h ->%list_elem_of_singleton. right. apply Hd2. rewrite fmap_app. apply elem_of_app. right. by left.
  - wp_steps. split; [done|]. split_and!; [done|done|by auto|]. intros h ->%list_elem_of_singleton. left. rewrite fmap_app. apply elem_of_app. right. by left.
Qed.

(** ** The whole of [Commit] *)

Lemma reach_disk db E l r h : db_inv db E l → is_hash r → is_Some (diskdb db !! r) → reach kids r h → is_hash h ∧ is_Some (diskdb db !! h).
Proof using Hkids.
  intros Hi Hh Hd Hre. induction Hre as [|h c _ [Hl IH] Hc]; [done|]. split; [by apply (Hkids h)|]. by apply (di_closed _ _ _ _ Hi h).
Qed.

Definition Commit_post db root (r : option db_error) db' : Prop :=
  (∃ E l, db_inv db' E l) ∧ complete db' ∧ same_reads db db' ∧
  match r with
  | None => (∀ h, reach kids root h → is_Some (diskdb db' !! h)) ∧ preimages db' = ∅
  | Some _ => refused db'
  end.

Lemma db_Commit_ok fuel root db E l : db_inv db E l → complete db → is_hash root → root ≠ zeroHash → is_Some (stored db root) →
  rank root < fuel → wp (db_Commit write_ok fuel root) (λ r db', Commit_post db root r db') db.
Proof using Hrank Hkids CL.
  intros Hi Hc Hh Hz Hst Hfuel. unfold db_Commit. wp_steps.
  assert (∀ db', (∃ E l, db_inv db' E l) → complete db' → same_reads db db' → refused db' → Commit_post db root (Some ErrWrite) db') as Hno by (intros; by split_and!).
  eapply wp_seq.
  { apply (put_preimages_ok kids write_ok db E l); [by apply flushing_start|by intros k v ?%not_elem_of_nil|by intros h p ?%elem_of_map_range]. }
  cbv beta. intros [b|] db1; [|intros [Hr [? ? ? ? _]]; wp_steps; by apply Hno; [exists E, l|..]].
  intros (Hf1 & _ & _ & Hpre). apply wp_bind, (batch_Write_ok kids write_ok db E l); [done|destruct Hf1; wp_steps; by apply Hno; [exists E, l|..]|].
  intros db2 Hf2 _ Hp2.
  assert (∀ h p, preimages db2 !! h = Some p → is_Some (diskdb db2 !! secureKey h)) as Hcov.
  { intros h p Hp. rewrite (fs_mem _ _ _ _ _ _ Hf2) in Hp. cbn in Hp. destruct (di_preimage _ _ _ _ Hi h p Hp) as [Hh' _].
    exists p. apply Hp2; [done..|]. apply Hpre. by apply elem_of_map_range. }
  destruct Hf2 as [Hm2 Hi2 Hc2 Hr2 _]. eapply wp_seq.
  { apply (db_commit_ok fuel root [] db2 E l); [done|done|by intros ? ? ?%not_elem_of_nil|by intros ? ? ?%not_elem_of_nil|done|done| |done].
    by rewrite (sr_stored _ _ Hr2). }
  cbv beta. intros [b3|] db3 [Hs3 Hpost3]; destruct (st_inv _ _ Hs3) as (E3 & l3 & Hi3); pose proof (st_complete _ _ Hs3) as Hc3;
    pose proof (same_reads_trans _ _ _ Hr2 (st_reads _ _ Hs3)) as Hr3; [|wp_steps; by apply Hno; [exists E3, l3|..]].
  destruct Hpost3 as (Hg3 & Hn3 & _ & Hroot). apply (flush_batch_ok db3 E3 l3); [done..| |].
  { intros Hno'. wp_steps. by apply Hno; [exists E3, l3|..]. }
  intros db4 Hs4 Hd4. wp_steps. destruct (st_inv _ _ Hs4) as (E4 & l4 & Hi4).
  pose proof (step_trans _ _ _ Hs3 Hs4) as Hs. destruct (drop_preimages_inv kids db4 E4 l4) as (Hi5 & Hc5 & Hr5); [done|apply Hs4| |].
  { intros h p Hp. rewrite (proj1 (st_preimages _ _ Hs)) in Hp. destruct (Hcov h p Hp) as [v Hv].
    destruct (st_disk _ _ Hs (secureKey h)) as [w Hw]; [by eexists|]. rewrite Hw. f_equal.
    apply (di_preimage _ _ _ _ Hi4 h p); [|done]. by rewrite (proj1 (st_preimages _ _ Hs)). }
  split_and!; [exists E4, l4; by destruct Hi5|done| | |done].
  - assert (same_reads db (set_preimages ∅ 0 db4)) as [? ? ? ?]; [|by split].
    eapply same_reads_trans; [exact Hr3|]. eapply same_reads_trans; [apply Hs4|exact Hr5].
  - intros h Hre. apply (reach_disk db4 E4 l4 root h Hi4 Hh); [|done].
    destruct (Hroot root) as [?|?]; [by left|by apply Hd4|by apply Hs4].
Qed.
End Commit.
