(* ===== verification/TrieDBTrie.v ===== *)
(** * A trie in the node database

    The cached form of a node stands for the same trie as its encoding, so the
    database is a source of nodes for the trie operations; a committed trie is
    in the database, and survives flushing, garbage collection of other roots
    and a restart. *)

From Stdlib Require Import ZArith Lia.
From stdpp Require Import gmap.
From S2P Require Import Prelude Errors Rlp Fullnode Messages Trie TriePure TrieLaws TrieHash TrieRoot TrieNode TrieCommit TrieDB TrieDBGC TrieDBRef TrieDBFlush TrieDBCap TrieDBCommit.
Open Scope didux_scope.
Open Scope nat_scope.

(** ** Cached nodes *)

Section Cached.
Context {C : Crypto}.

(** The hashes in a node. *)
Fixpoint prefs (t : ptrie) : list bytes :=
  match t with
  | PShort _ s => if by_hash s then [hash_of s] else prefs s
  | PFull ts => List.concat (map (λ s, if by_hash s then [hash_of s] else prefs s) ts)
  | _ => []
  end.
Definition pkids (s : ptrie) : list bytes := if by_hash s then [hash_of s] else prefs s.

Definition simplify_child (c : cnode) : option rnode := match c with CNil => Some RNil | _ => simplifyNode c end.
Definition expand_child (r : rnode) : option node := match r with RNil => Some Nil | _ => expandNode None r end.

(** [r] stands for [s] in its parent. *)
Definition rref (r : rnode) (s : ptrie) : Prop :=
  ritem r = pref s ∧ gatherChildren r = pkids s ∧ expand_child r = Some (nref s) ∧ (r = RNil → s = PNil).
Definition rrep (r : rnode) (t : ptrie) : Prop :=
  ritem r = penc t ∧ gatherChildren r = prefs t ∧ (∀ h, expandNode h r = Some (shallow (MkFlag h false) t)) ∧ r ≠ RNil.

Lemma simplify_children cs ts : length cs = length ts →
  (∀ i c s, cs !! i = Some c → ts !! i = Some s → ∃ r, simplify_child c = Some r ∧ rref r s) →
  ∃ rs, simplifyNode (CFull cs (MkFlag None false)) = Some (RFull rs) ∧ Forall2 rref rs ts.
Proof.
  revert ts. induction cs as [|c cs IH]; intros [|s ts] Hlen Hc; [exists []; by split| done..|].
  destruct (Hc 0 c s eq_refl eq_refl) as (r & Hr & Href). destruct (IH ts) as (rs & Hrs & Hall); [by injection Hlen|intros i; by apply (Hc (S i))|].
  exists (r :: rs). split; [|by constructor]. unfold simplify_child in Hr. cbn [simplifyNode] in *. rewrite Hr.
  destruct ((fix all (cs0 : list cnode) : option (list rnode) := _) cs); by simplify_eq.
Qed.
Lemma expand_children rs ts h : Forall2 rref rs ts →
  expandNode h (RFull rs) = Some (fullNode (map nref ts) (MkFlag h false)).
Proof.
  intros Hall. cbn [expandNode]. enough (∀ rs ts, Forall2 rref rs ts → (fix all (rs : list rnode) : option (list node) :=
    match rs with
    | [] => Some []
    | r :: rs => match (match r with RNil => Some Nil | _ => expandNode None r end), all rs with
        | Some n, Some ns => Some (n :: ns) | _, _ => None end
    end) rs = Some (map nref ts)) as Hx by (by rewrite (Hx rs ts Hall)).
  clear. induction 1 as [|r s rs ts (_ & _ & Hr & _) _ IH]; [done|]. unfold expand_child in Hr. by rewrite Hr, IH.
Qed.
Lemma gather_children rs ts : length ts = 17 → Forall2 rref rs ts → (∀ s, ts !! 16 = Some s → pkids s = []) →
  gatherChildren (RFull rs) = List.concat (map pkids ts).
Proof.
  intros Hlen Hall H16.
  enough (∀ n rs ts, length ts = S n → Forall2 rref rs ts → (∀ s, ts !! n = Some s → pkids s = []) →
    (fix walk (i : nat) (rs : list rnode) : list bytes :=
         match i, rs with
         | S i, r :: rs => gatherChildren r ++ walk i rs
         | _, _ => []
         end) n rs = List.concat (map pkids ts)) as Hx by exact (Hx 16 rs ts Hlen Hall H16).
  clear. induction n as [|n IH]; intros rs ts Hlen Hall Hlast.
  - destruct Hall as [|r s rs ts _ Hall]; [done|]. destruct ts; [|done]. cbn. by rewrite (Hlast s).
  - destruct Hall as [|r s rs ts (_ & Hg & _) Hall]; [done|]. cbn [map List.concat]. rewrite Hg. f_equal.
    apply IH; [by injection Hlen|done|]. intros x Hx. by apply Hlast.
Qed.

Lemma simplifyNode_ok t : canon t → ∀ c, crep c t → ∃ r, simplifyNode c = Some r ∧ rrep r t.
Proof.
  induction t as [t IH] using (well_founded_ind child_of_wf). intros Hc c Hcr.
  assert (∀ c s, child_of s t → canon s → cref c s → ∃ r, simplify_child c = Some r ∧ rref r s) as Hnode.
  { intros c' s Hs Hcs Hr. pose proof (canon_pinner s Hcs) as Hi. destruct Hr as [|v|s _ Hb|c' s Hb Hr]; [done|done| |].
    - exists (RHash (hash_of s)). split; [done|]. assert (by_hash s = true) as Hbh by (by apply by_hash_spec). split_and!; [by rewrite pref_big| | |done].
      + unfold pkids. rewrite Hbh. cbn [gatherChildren]. by rewrite BytesToHash_32 by apply length_hash_of.
      + cbn [expand_child expandNode]. unfold nref. by rewrite Hbh.
    - destruct (IH s Hs Hcs c' Hr) as (r & Hr' & Hit & Hg & Hex & Hn). exists r.
      assert (by_hash s = false) as Hbh by (destruct (by_hash s) eqn:Hx; [by apply by_hash_spec in Hx as [_ ?]|done]).
      split; [destruct (crep_cinner _ _ Hr) as [Hci _]; by destruct c'|]. split_and!; [by rewrite pref_small| | |by intros ->].
      + unfold pkids. by rewrite Hbh.
      + unfold nref, expand_child. rewrite Hbh. destruct r; [done|apply Hex..]. }
  assert (∀ v, rref (RValue v) (PVal v)) as Hval by done.
  destruct Hcr as [k c s fl Hn Hr|cs ts fl Hlen Hr].
  - assert (∃ r, simplify_child c = Some r ∧ rref r s ∧ s ≠ PNil) as (r & Hr' & Href & Hs).
    { inversion Hc as [? v Hk Hv|? ts Hne Hk Hcf|]; subst.
      - inversion Hr; subst; [by exists (RValue v)|done|]. by match goal with H : crep _ (PVal _) |- _ => inversion H end.
      - destruct (Hnode c (PFull ts)) as (r & ? & ?); [done..|]. by exists r. }
    exists (RShort (pcompact k) r). assert (simplifyNode c = Some r) as Hr2 by (by destruct c). cbn [simplifyNode]. rewrite Hr2.
    split; [done|]. destruct Href as (Hit & Hg & Hex & Hnil). assert (r ≠ RNil) as Hrn by (intros ->; by apply Hs, Hnil).
    assert (nodekey k) as Hk by (inversion Hc; subst; [by right|by left]).
    split_and!; [|done| |done].
    + cbn [ritem penc]. fold (pref s). rewrite <- Hit. by destruct r.
    + intros h. cbn [expandNode shallow]. unfold expand_child in Hex. assert (expandNode None r = Some (nref s)) as -> by (by destruct r).
      by rewrite compactToHex_pcompact.
  - pose proof (proj1 (canon_full_slot ts) Hc) as (H17 & Hsl & _).
    assert (∀ i c s, cs !! i = Some c → ts !! i = Some s → ∃ r, simplify_child c = Some r ∧ rref r s) as Hall.
    { intros i c s Hci Hs. pose proof (Hr i c s Hci Hs) as Hcr. specialize (Hsl i s Hs). destruct (decide (s = PNil)) as [->|Hn].
      - inversion Hcr; subst; [by exists RNil|done|]. by match goal with H : crep _ PNil |- _ => inversion H end.
      - specialize (Hsl Hn). destruct (i =? 16).
        + destruct Hsl as (v & _ & ->). inversion Hcr; subst; [by exists (RValue v)|done|]. by match goal with H : crep _ (PVal _) |- _ => inversion H end.
        + apply Hnode; [by eapply list_elem_of_lookup_2|done..]. }
    destruct (simplify_children cs ts Hlen Hall) as (rs & Hrs & Hf2). exists (RFull rs). split; [exact Hrs|]. split_and!; [| | |done].
    + cbn [ritem penc]. f_equal. change (λ t, link t (penc t)) with pref. clear -Hf2. induction Hf2 as [|r s rs ts (Hit & _) _ IH]; [done|]. cbn. by rewrite Hit, IH.
    + apply gather_children; [done|done|]. intros s Hs. specialize (Hsl 16 s Hs). destruct (decide (s = PNil)) as [->|Hn]; [done|].
      destruct (Hsl Hn) as (v & _ & ->). done.
    + intros h. by apply expand_children.
Qed.

(** ** The nodes of a database *)

Section Db.
Context {Cl : Type} {CC : Cache Cl} {MO : MapOrder} {CL : CacheLaws Cl}.
Context (kids : bytes → list bytes).
Implicit Types db : Database Cl.
Local Abbreviation db_inv := (db_inv kids).
Local Abbreviation complete := (complete kids).

(** What [Database.node] returns. *)
Definition node_at db (h : bytes) : option node :=
  match TrieDB.db_node h db with Some (Some n, _) => Some n | _ => None end.

(** The trie node [t] is in the database. *)
Record in_db db (t : ptrie) : Prop := MkInDb {
  id_stored : stored db (hash_of t) = Some (enc t);
  id_cached : ∀ e, dirties db !! hash_of t = Some e → obj e (hash_of t) = Some (shallow (MkFlag (Some (hash_of t)) false) t);
  id_size : (blen (enc t) < two63)%Z;
  id_zero : hash_of t ≠ zeroHash;
  id_canon : canon t
}.

(** The database is a source of nodes for the trie. *)
Lemma node_at_loads db E l : db_inv db E l → loads (node_at db) (in_db db).
Proof.
  intros Hi t Hc [Hst Hca Hsz Hz _]. unfold node_at, TrieDB.db_node, mbind', mget, mret', mderef, mmod.
  assert (is_hash (hash_of t)) as Hh by apply length_hash_of.
  destruct (clean_get db (hash_of t)) as [v|] eqn:Hcl.
  - pose proof (di_clean _ _ _ _ Hi _ _ Hh Hcl) as Hd. rewrite (stored_disk kids db E l _ v) in Hst by done. injection Hst as ->.
    by rewrite (decodeNode_enc t (Some (hash_of t)) Hc Hsz).
  - unfold stored in Hst. destruct (dirties db !! hash_of t) as [e|] eqn:He; [by rewrite (Hca e eq_refl)|].
    rewrite Hst. by rewrite (decodeNode_enc t (Some (hash_of t)) Hc Hsz).
Qed.

(** The encoding is all that matters. *)
Lemma in_db_enc db s u : in_db db s → canon u → enc u = enc s → in_db db u.
Proof.
  intros [Hst Hca Hsz Hz Hc] Hcu Henc. assert (hash_of u = hash_of s) as Heq by (unfold hash_of; by rewrite Henc).
  split; rewrite ?Heq, ?Henc; try done. intros e He. rewrite (Hca e He).
  pose proof (decodeNode_enc s (Some (hash_of s)) Hc Hsz) as H1. rewrite <- Henc in *.
  pose proof (decodeNode_enc u (Some (hash_of s)) Hcu Hsz) as H2. congruence.
Qed.
(** What keeps the reads keeps the tries. *)
Lemma in_db_same db db' t : same_reads db db' → in_db db t → in_db db' t.
Proof.
  intros Hr [Hst Hca Hsz Hz Hc]. split; [by rewrite (sr_stored _ _ Hr) by (done || apply length_hash_of)| |done|done|done].
  intros e' He'. destruct (sr_nodes _ _ Hr _ _ He') as (e & He & Hn). rewrite <- (Hca e He). unfold obj. by rewrite Hn.
Qed.
(** From disk alone. *)
Lemma in_db_disk db E l t disk cache : db_inv db E l → in_db db t → is_Some (diskdb db !! hash_of t) → disk = diskdb db →
  in_db (NewDatabase disk cache) t.
Proof.
  intros Hi [Hst Hca Hsz Hz Hc] [v Hv] ->. rewrite (stored_disk kids db E l _ v) in Hst by done. injection Hst as ->.
  assert (dirties (NewDatabase (diskdb db) cache) !! hash_of t = None) as Hn by (by apply lookup_singleton_ne).
  split; [|rewrite Hn; done|done|done|done]. unfold stored. rewrite Hn. done.
Qed.

(** ** Committing a trie *)

(** The hasher's calls on the database. *)
Fixpoint apply_events (onleaf : bytes → bytes → M (Database Cl) ()) (ev : list event) : M (Database Cl) () :=
  match ev with
  | [] => mret' ()
  | EInsert h b c :: ev => do! insertNode h b c in apply_events onleaf ev
  | ELeaf child parent :: ev => do! onleaf child parent in apply_events onleaf ev
  end.
(** [Trie.Commit]: the root hash and the new root. *)
Definition Trie_Commit (onleaf : bytes → bytes → M (Database Cl) ()) (root : node) : M (Database Cl) (bytes * node) :=
  let! r := mderef (CommitTrie root) in
  let '(h, root, ev) := r in
  do! apply_events onleaf ev in mret' (h, root).

(** The references that the inserted nodes hold. *)
Definition ev_refs (ev : list event) : nat :=
  sum_list (map (λ e, match e with EInsert _ _ c => match simplifyNode c with Some r => length (gatherChildren r) | None => 0 end | _ => 0 end) ev).

Lemma prefs_desc s h : h ∈ prefs s → ∃ v u, child_of v s ∧ rtc child_of u v ∧ by_hash u = true ∧ h = hash_of u.
Proof.
  induction s as [s IH] using (well_founded_ind child_of_wf). intros Hh.
  assert (∀ v, child_of v s → h ∈ pkids v → ∃ v u, child_of v s ∧ rtc child_of u v ∧ by_hash u = true ∧ h = hash_of u) as Hv.
  { intros v Hvs Hin. unfold pkids in Hin. destruct (by_hash v) eqn:Hb.
    - apply list_elem_of_singleton in Hin as ->. by exists v, v.
    - destruct (IH v Hvs Hin) as (v' & u & Hv' & Hu & Hbu & ->). exists v, u. split_and!; [done| |done|done]. by eapply rtc_r. }
  destruct s as [| |k s|ts]; try (by apply not_elem_of_nil in Hh).
  - by apply (Hv s).
  - cbn in Hh. change (λ s, if by_hash s then [hash_of s] else prefs s) with pkids in Hh.
    apply elem_of_lconcat in Hh as (l & Hl & Hin). apply list_elem_of_fmap in Hl as (v & -> & Hvin). by apply (Hv v).
Qed.

Lemma EInsert_inj h h' b b' c c' : EInsert h b c = EInsert h' b' c' → b = b'.
Proof. congruence. Qed.

Section Commit.
Context (rank : bytes → nat) (Hrank : ∀ h c, c ∈ kids h → rank c < rank h).
Context (t : ptrie).
(** Nodes of [t] with different encodings have different hashes, and their children are those of
    their content. *)
Record content : Prop := MkContent {
  ct_kids : ∀ s, rtc child_of s t → canon s → kids (hash_of s) = prefs s;
  ct_inj : ∀ s u, rtc child_of s t → rtc child_of u t → canon s → canon u → hash_of s = hash_of u → enc s = enc u;
  ct_size : ∀ s, rtc child_of s t → canon s → (blen (enc s) < two63)%Z ∧ hash_of s ≠ zeroHash
}.
(** What the database has under a hash of [t] is that node. *)
Definition agrees db : Prop := ∀ s, rtc child_of s t → canon s → is_Some (stored db (hash_of s)) → in_db db s.

Lemma insertNode_ok db E l s c : content → db_inv db E l → complete db → agrees db → rtc child_of s t → canon s → crep c s →
  (∀ u, u ∈ prefs s → is_Some (stored db u) ∧ u ≠ zeroHash) →
  (Z.of_nat (ev_refs [EInsert (hash_of s) (enc s) c] + length E) < 2 ^ 32)%Z →
  wp (insertNode (hash_of s) (enc s) c) (λ _ db', ∃ E' l', db_inv db' E' l' ∧ complete db' ∧ agrees db' ∧
    length E' ≤ ev_refs [EInsert (hash_of s) (enc s) c] + length E ∧ in_db db' s ∧ (∀ u, in_db db u → in_db db' u) ∧ same_rest db db') db.
Proof using Hrank.
  intros Hct Hi Hco Hag Hs Hcs Hcr Hch Hlen. destruct (simplifyNode_ok s Hcs c Hcr) as (r & Hr & Hit & Hg & Hex & Hrn).
  unfold insertNode. rewrite Hr. wp_steps. set (e := MkCached (DNode r) (u16 (blen (enc s))) 0 None (newest db) zeroHash).
  assert (childs e = prefs s) as Hche by (cbn; done). assert (rlp e = enc s) as Hrlp by (unfold rlp; cbn; by rewrite Hit).
  pose proof (ct_kids Hct s Hs Hcs) as Hkids. destruct (ct_size Hct s Hs Hcs) as [Hsz Hz].
  assert (ev_refs [EInsert (hash_of s) (enc s) c] = length (prefs s)) as Hrefs.
  { unfold ev_refs. cbn [map sum_list]. rewrite Hr, Hg. cbn. lia. }
  rewrite Hrefs in *. eapply wp_wand; [apply (db_insert_ok kids db E l (hash_of s) (enc s) (DNode r))|]; fold e.
  - done.
  - rewrite Hche. split.
    + apply length_hash_of.
    + done.
    + by rewrite Hkids.
    + intros Hin. rewrite <- Hkids in Hin. apply Hrank in Hin. lia.
    + intros x Hx. by destruct (Hch x Hx).
    + intros v Hv. rewrite Hrlp. destruct (Hag s Hs Hcs) as [Hst _ _ _ _]; [rewrite (stored_disk kids db E l _ v); [by eexists|done..]|].
      rewrite (stored_disk kids db E l _ v) in Hst by done. by injection Hst.
  - rewrite Hche. done.
  - intros e' He'. rewrite Hrlp. destruct (Hag s Hs Hcs) as [Hst _ _ _ _]; [unfold stored; rewrite He'; by eexists|].
    unfold stored in Hst. rewrite He' in Hst. by injection Hst.
  - cbv beta. intros _ db' (E' & l' & Hi' & HlE & Hst & Hoth & Hrest & Hins). exists E', l'. rewrite Hche in HlE. rewrite Hrlp in Hst.
    assert (in_db db' s) as Hin'.
    { split; [done| |done|done|done]. intros e' He'. destruct (Hins _ _ He') as [(_ & _ & Hn & _)|(e1 & He1 & Hn & _)].
      - unfold obj. rewrite <- Hn. apply Hex.
      - destruct (Hag s Hs Hcs) as [_ Hca _ _ _]; [unfold stored; rewrite He1; by eexists|]. rewrite <- (Hca e1 He1). unfold obj. by rewrite Hn. }
    assert (∀ u, in_db db u → in_db db' u) as Hmono.
    { intros u [Hstu Hcau Hszu Hzu Hcu]. destruct (decide (hash_of u = hash_of s)) as [Heq|Hne].
      - assert (enc u = enc s) as Henc.
        { rewrite Heq in Hstu. destruct (Hag s Hs Hcs) as [Hst' _ _ _ _]; [by rewrite Hstu|]. rewrite Hstu in Hst'. by injection Hst'. }
        by apply (in_db_enc db' s).
      - split; [by rewrite Hoth| |done|done|done]. intros e' He'. destruct (Hins _ _ He') as [[? _]|(e1 & He1 & Hn & _)]; [done|].
        rewrite <- (Hcau e1 He1). unfold obj. by rewrite Hn. }
    split_and!; [done| | |lia|done|done|done].
    + intros h e' x He' Hhz Hx. destruct (Hins _ _ He') as [(-> & _ & Hsc)|(e1 & He1 & Hsc)];
        destruct (same_content_childs _ _ Hsc) as [<- _]; [by rewrite Hche, <- Hkids|by apply (Hco h)].
    + intros u Hu Hcu Hsu. destruct (decide (hash_of u = hash_of s)) as [Heq|Hne].
      * apply (in_db_enc db' s); [done|done|]. by apply (ct_inj Hct).
      * apply Hmono, Hag; [done..|]. by rewrite <- Hoth.
Qed.

(** What the events have put in the database. *)
Lemma apply_events_ok db0 (onleaf := λ _ _ : bytes, mret' ()) : content → ∀ ev pre db E l,
  ev_sound (in_db db0) t (pre ++ ev) →
  db_inv db E l → complete db → agrees db → (∀ u, in_db db0 u → in_db db u) →
  (∀ s c, EInsert (hash_of s) (enc s) c ∈ pre → rtc child_of s t → canon s → in_db db s) →
  (Z.of_nat (ev_refs ev + length E) < 2 ^ 32)%Z →
  wp (apply_events onleaf ev) (λ _ db', ∃ E' l', db_inv db' E' l' ∧ complete db' ∧ (∀ u, in_db db0 u → in_db db' u) ∧
    (∀ s c, EInsert (hash_of s) (enc s) c ∈ pre ++ ev → rtc child_of s t → canon s → in_db db' s) ∧ length E' ≤ ev_refs ev + length E) db.
Proof using Hrank.
  intros Hct ev. induction ev as [|[h b c|child parent] ev IH]; intros pre db E l Hsound Hi Hco Hag Hmono Hpre Hlen; cbn [apply_events].
  - wp_steps. exists E, l. rewrite app_nil_r. split_and!; [done..|]. cbn. lia.
  - destruct (Hsound pre h b c ev eq_refl) as (s & Hs & Hcs & Hcr & -> & -> & Hcov).
    assert (ev_refs (EInsert (hash_of s) (enc s) c :: ev) = ev_refs [EInsert (hash_of s) (enc s) c] + ev_refs ev) as Hrefs.
    { unfold ev_refs. cbn [map sum_list]. lia. }
    rewrite Hrefs in *. eapply wp_seq; [apply (insertNode_ok db E l s c); [done..| |lia]|].
    + intros x Hx. destruct (prefs_desc s x Hx) as (v & u & Hv & Hu & Hbu & ->). apply by_hash_spec in Hbu as [Hiu Hbu].
      assert (rtc child_of u s) as Hus by (by eapply rtc_r). assert (rtc child_of u t) as Hut by (by transitivity s).
      pose proof (desc_canon u s Hcs Hus Hiu) as Hcu. destruct (ct_size Hct u Hut Hcu) as [_ Hz]. split; [|done].
      assert (in_db db u) as [Hst _ _ _ _]; [|by rewrite Hst]. destruct (Hcov v Hv u Hu Hiu Hbu) as [?|[c' Hin]]; [by apply Hmono|by eapply Hpre].
    + cbv beta. intros [] db1 (E1 & l1 & Hi1 & Hco1 & Hag1 & HlE1 & Hins & Hm1 & _).
      eapply wp_wand; [apply (IH (pre ++ [EInsert (hash_of s) (enc s) c]) db1 E1 l1)|].
      * by rewrite <- app_assoc.
      * done.
      * done.
      * done.
      * by auto.
      * intros s' c' [Hin|Hin%list_elem_of_singleton]%elem_of_app Hs' Hcs'; [by apply Hm1; eapply Hpre|].
        apply (in_db_enc db1 s); [done|done|]. exact (EInsert_inj _ _ _ _ _ _ Hin).
      * lia.
      * cbv beta. intros _ db2 (E2 & l2 & H1 & H2 & H3 & H4 & H5). rewrite <- app_assoc in H4. exists E2, l2. split_and!; [done..|lia].
  - wp_steps. eapply wp_wand; [apply (IH (pre ++ [ELeaf child parent]) db E l)|].
    + by rewrite <- app_assoc.
    + done.
    + done.
    + done.
    + done.
    + intros s' c' [Hin|?%list_elem_of_singleton]%elem_of_app; [by apply (Hpre s' c')|done].
    + done.
    + cbv beta. intros _ db2 (E2 & l2 & H1 & H2 & H3 & H4 & H5). rewrite <- app_assoc in H4. by exists E2, l2.
Qed.

Lemma prefs_child x y : child_of y x → ∀ h, h ∈ pkids y → h ∈ prefs x.
Proof using.
  destruct x as [| |k x|ts]; try done; [by intros ->|]. intros Hy h Hh. cbn.
  change (λ s, if by_hash s then [hash_of s] else prefs s) with pkids. apply elem_of_lconcat. exists (pkids y). split; [|done].
  apply list_elem_of_fmap. by exists y.
Qed.
(** The nodes of the trie, from its root. *)
Lemma desc_reach s : content → canon t → rtc child_of s t → pinner s = true →
  (s = t ∨ by_hash s = true → reach kids (hash_of t) (hash_of s)) ∧
  ∃ u, reach kids (hash_of t) (hash_of u) ∧ rtc child_of u t ∧ canon u ∧ ∀ h, h ∈ prefs s → h ∈ prefs u.
Proof using.
  intros Hct Hc Hs. revert s Hs. refine (rtc_ind_l _ t _ _); [|intros x y Hxy Hyt IH]; intros Hi.
  { split; [intros _; constructor|]. exists t. split_and!; [constructor|done|done|done]. }
  destruct IH as [_ (u & Hru & Hut & Hcu & Hsub)]; [by eapply child_pinner|].
  assert (rtc child_of x t) as Hxt by (by eapply rtc_l). pose proof (desc_canon x t Hc Hxt Hi) as Hcx.
  assert (by_hash x = true → reach kids (hash_of t) (hash_of x)) as Hrx.
  { intros Hb. apply (reach_kid _ _ (hash_of u)); [done|]. rewrite (ct_kids Hct u Hut Hcu). apply Hsub, (prefs_child y x Hxy).
    unfold pkids. rewrite Hb. by left. }
  split; [intros [->|?]; [constructor|by apply Hrx]|]. destruct (by_hash x) eqn:Hb.
  - exists x. split_and!; [by apply Hrx|done|done|done].
  - exists u. split_and!; [done..|]. intros h Hh. apply Hsub, (prefs_child y x Hxy). unfold pkids. by rewrite Hb.
Qed.

(** ** The trie after a commit *)

Lemma CommitTrie_some nodes_of held root u : root_ok nodes_of held root u → ∃ h r ev, CommitTrie root = Some (h, r, ev).
Proof using.
  intros Hr. assert (∀ n, inner n → root_ok nodes_of held n u → ∃ h r ev, CommitTrie n = Some (h, r, ev)) as Hinner.
  { intros n Hin (Hc & He & Hf)%root_ok_inner; [|done].
    destruct (hash_inner nodes_of held true true n u) as (c & n' & ev & Hh & Href); [done..| | |].
    { intros h Hh. unfold ok_root_flag in Hf. rewrite Hh in Hf. destruct Hf as [-> _]. split; [done|by left]. }
    { intros m s _. apply hash_ok. }
    destruct Href as [[-> _]|(_ & ? & _)]; [|done]. unfold CommitTrie. destruct n; try done; cbn [hashRoot]; rewrite Hh; eauto. }
  destruct root; [by eexists _, _, _|by apply Hinner|by apply Hinner|by eexists _, _, _|done].
Qed.

Definition nop (_ _ : bytes) : M (Database Cl) () := mret' ().

Lemma Trie_Commit_ok db E l root : content → db_inv db E l → complete db → agrees db →
  root_ok (node_at db) (in_db db) root t →
  (∀ h r ev, CommitTrie root = Some (h, r, ev) → (Z.of_nat (ev_refs ev + length E) < 2 ^ 32)%Z) →
  wp (Trie_Commit nop root) (λ r db', ∃ E' l', r.1 = proot t ∧ db_inv db' E' l' ∧ complete db' ∧
    root_ok (node_at db') (in_db db') r.2 t ∧ (t ≠ PNil → in_db db' t ∧ kept (in_db db') t)) db.
Proof using Hrank.
  intros Hct Hi Hco Hag Hr Hlen. destruct (CommitTrie_some _ _ _ _ Hr) as (h & root' & ev & Hcm).
  destruct (commit_events _ _ _ _ _ _ _ Hr Hcm) as (Hsound & Hcov & Hwr).
  unfold Trie_Commit. rewrite Hcm. wp_steps. eapply wp_seq.
  { apply (apply_events_ok db Hct ev [] db E l); try done; [by intros ? ? ?%not_elem_of_nil|by eapply Hlen]. }
  cbv beta. intros [] db' (E' & l' & Hi' & Hco' & Hmono & Hins & HlE). wp_steps. exists E', l'. cbn [fst snd].
  assert (∀ s, rtc child_of s t → canon s → written (in_db db) ev s → in_db db' s) as Hw.
  { intros s Hs Hcs [?|[c Hc]]; [by apply Hmono|by eapply Hins]. }
  assert (canon0 t) as Hc0 by (by eapply root_ok_canon).
  assert (t ≠ PNil → in_db db' t ∧ kept (in_db db') t) as Hk.
  { intros Hn. assert (canon t) as Hc by (by destruct Hc0). split; [by apply Hw; [done..|apply Hwr]|].
    intros s Hs Hin Hb. apply Hw; [done|by eapply desc_canon|by apply Hcov]. }
  destruct (hashRoot_ok (node_at db) (node_at db') (in_db db) (in_db db')) with (commit := true) (root := root) (t := t)
    as (n' & ev' & Hh & Hr'); [done|intros; by eapply loads_load; [eapply node_at_loads|..]|done|done|].
  unfold CommitTrie in Hcm. rewrite Hh in Hcm. injection Hcm as <- <- <-. split_and!; [|done..].
  apply BytesToHash_32. destruct t; apply length_be_fix.
Qed.

(** Opening the trie by its root hash. *)
Lemma open_ok db E l : db_inv db E l → canon t → in_db db t → kept (in_db db) t → hash_of t ≠ emptyRoot →
  ∃ root, New (node_at db) (hash_of t) = inl root ∧ root_ok (node_at db) (in_db db) root t.
Proof using.
  intros Hi Hc Hdb Hk He. replace (hash_of t) with (proot t) by (by destruct Hc). apply trie_New_ok; [by eapply node_at_loads|done..| |done].
  apply Hdb.
Qed.

(** A trie whose nodes are on disk, in a new database on that disk. *)
Lemma restart_ok db E l cache : content → db_inv db E l → canon t → in_db db t → kept (in_db db) t →
  (∀ h, reach kids (hash_of t) h → is_Some (diskdb db !! h)) →
  in_db (NewDatabase (diskdb db) cache) t ∧ kept (in_db (NewDatabase (diskdb db) cache)) t.
Proof using.
  intros Hct Hi Hc Hdb Hk Hd. split.
  - eapply in_db_disk; [done|done| |done]. apply Hd. constructor.
  - intros s Hs Hin Hb. eapply in_db_disk; [done|by apply Hk| |done]. apply Hd.
    apply (desc_reach s); [done..|]. right. by apply by_hash_spec.
Qed.

(** What is stored as before holds the same tries. *)
Lemma collect_ok db E l db' E' l' p : content → canon t → db_inv db E l → db_inv db' E' l' → survive (dirties db) (dirties db') p →
  (∀ h, reach kids (hash_of t) h → stored db' h = stored db h) → in_db db t → kept (in_db db) t →
  in_db db' t ∧ kept (in_db db') t.
Proof using.
  intros Hct Hc Hi Hi' Hsv Hst Hdb Hk.
  assert (∀ s, reach kids (hash_of t) (hash_of s) → in_db db s → in_db db' s) as Hkeep.
  { intros s Hre [H1 H2 H3 H4 H5]. split; [by rewrite Hst| |done|done|done]. intros e' He'.
    destruct (Hsv _ _ He') as (e & He & Hn & _). rewrite <- (H2 e He). unfold obj. by rewrite Hn. }
  split; [apply Hkeep; [constructor|done]|]. intros s Hs Hin Hb. apply Hkeep; [|by apply Hk].
  apply (desc_reach s); [done..|]. right. by apply by_hash_spec.
Qed.
End Commit.
End Db.
End Cached.
