(* ===== verification/TrieDBLaws.v ===== *)
(** * What the node database promises

    The theorems on trie/database.go: the invariant of its operations, the
    safety of garbage collection and of flushing, and that a committed trie is
    the same after a restart. *)

From Stdlib Require Import ZArith Lia.
From stdpp Require Import gmap.
From S2P Require Import Prelude Errors Rlp Fullnode Messages Trie TriePure TrieLaws TrieHash TrieRoot TrieNode TrieCommit TrieDB TrieDBGC TrieDBRef TrieDBFlush TrieDBCap TrieDBCommit TrieDBTrie.
Open Scope didux_scope.
Open Scope nat_scope.

Section Laws.
Context {Cl : Type} {CC : Cache Cl} {MO : MapOrder} {CL : CacheLaws Cl}.
Context (kids : bytes → list bytes) (rank : bytes → nat).
Context (write_ok : gmap bytes bytes → batch → bool).
Implicit Types db : Database Cl.

(** The content of the nodes: no node is its own descendant, and the children
    are hashes of nodes. *)
Definition well_founded_kids : Prop :=
  (∀ h c, c ∈ kids h → rank c < rank h) ∧ (∀ h c, c ∈ kids h → c ≠ zeroHash ∧ is_hash c).

(** ** Reading *)

Lemma db_Node_ok db E l h : db_inv kids db E l → complete kids db → is_hash h → h ≠ zeroHash →
  wp (db_Node h) (λ r db', r = stored db h ∧ step kids db db') db.
Proof using CL.
  intros Hi Hc Hh Hz. unfold db_Node. rewrite bool_decide_eq_false_2 by done. wp_steps.
  destruct (clean_get db h) as [v|] eqn:Hcl.
  { wp_steps. split; [|by eapply step_refl]. symmetry. eapply stored_disk; [done..|]. by apply (di_clean _ _ _ _ Hi). }
  unfold stored. destruct (dirties db !! h) as [e|] eqn:He; wp_steps; [split; [done|by eapply step_refl]|].
  destruct (diskdb db !! h) as [v|] eqn:Hd; wp_steps; (split; [done|]); [by eapply clean_set_step|by eapply step_refl].
Qed.

Lemma db_node_ok db E l h : db_inv kids db E l → complete kids db → is_hash h →
  (∀ e, dirties db !! h = Some e → is_Some (obj e h)) → (∀ v, diskdb db !! h = Some v → is_Some (decodeNode (Some h) v)) →
  wp (db_node h) (λ _ db', step kids db db') db.
Proof using CL.
  intros Hi Hc Hh Hdirty Hdisk. unfold db_node. wp_steps. pose proof (step_refl kids db E l Hi Hc) as Hrefl. destruct (clean_get db h) as [v|] eqn:Hcl.
  { destruct (Hdisk v (di_clean _ _ _ _ Hi h v Hh Hcl)) as [n ->]. by wp_steps. }
  destruct (dirties db !! h) as [e|] eqn:He; [destruct (Hdirty e eq_refl) as [n ->]; by wp_steps|].
  destruct (diskdb db !! h) as [v|] eqn:Hd; wp_steps; [|done]. destruct (Hdisk v eq_refl) as [n ->]. wp_steps. by eapply clean_set_step.
Qed.
Lemma insertPreimage_ok db E l h p : db_inv kids db E l → complete kids db → is_hash h →
  (∀ v, diskdb db !! secureKey h = Some v → v = p) →
  wp (insertPreimage h p) (λ _ db', db_inv kids db' E l ∧ complete kids db') db.
Proof using Type.
  intros Hi Hc Hh Hp. unfold insertPreimage. wp_steps. destruct (preimages db !! h) eqn:Hl; wp_steps; [done|].
  split; [|done]. destruct Hi. split; try done. intros h' p' Hl'. cbn in Hl'. apply lookup_insert_Some in Hl' as [[<- <-]|[_ Hl']]; [done|by apply di_preimage].
Qed.

(** ** The operations *)

Inductive db_op :=
  | OInsert (hash blob : bytes) (node : cdata)
  | OPreimage (hash preimage : bytes)
  | OReference (child parent : bytes)
  | ODereference (fuel : nat) (root : bytes)
  | OCap (limit : Z)
  | OCommit (fuel : nat) (root : bytes)
  | ONode (hash : bytes)
  | Onode (hash : bytes).
Definition db_do (op : db_op) : M (Database Cl) () :=
  match op with
  | OInsert hash blob node => db_insert hash blob node
  | OPreimage hash preimage => insertPreimage hash preimage
  | OReference child parent => reference child parent
  | ODereference fuel root => Dereference fuel root
  | OCap limit => do! Cap write_ok limit in mret' ()
  | OCommit fuel root => do! db_Commit write_ok fuel root in mret' ()
  | ONode hash => do! db_Node hash in mret' ()
  | Onode hash => do! db_node hash in mret' ()
  end.
(** What the callers guarantee.  A node is inserted after its children, under the hash of its content; a reference goes
    from the meta root or from a node in memory to an older node; only a root that is referenced is dereferenced; a root that is stored is committed;
    what is read decodes; the counters do not overflow. *)
Definition op_pre db (E : edges) (l : list bytes) (op : db_op) : Prop :=
  match op with
  | OInsert hash blob node =>
      let e := MkCached node (u16 (blen blob)) 0 None (newest db) zeroHash in
      insertable kids db hash (childs e) (rlp e) ∧ (∀ c, c ∈ kids hash → c ∈ childs e) ∧
      (∀ e', dirties db !! hash = Some e' → rlp e' = rlp e) ∧ (Z.of_nat (length (childs e) + length E) < 2 ^ 32)%Z
  | OPreimage hash preimage => is_hash hash ∧ ∀ v, diskdb db !! secureKey hash = Some v → v = preimage
  | OReference child parent => referable kids db E l child parent
  | ODereference fuel root => root ≠ zeroHash ∧ 0 < meta_refs db root ∧ rank root < fuel
  | OCap _ => True
  | OCommit fuel root => is_hash root ∧ root ≠ zeroHash ∧ is_Some (stored db root) ∧ rank root < fuel
  | ONode hash => is_hash hash ∧ hash ≠ zeroHash
  | Onode hash => is_hash hash ∧ (∀ e, dirties db !! hash = Some e → is_Some (obj e hash)) ∧
      (∀ v, diskdb db !! hash = Some v → is_Some (decodeNode (Some hash) v))
  end.

Lemma db_do_ok db E l op : well_founded_kids → db_inv kids db E l → complete kids db → op_pre db E l op →
  wp (db_do op) (λ _ db', ∃ E' l', db_inv kids db' E' l' ∧ complete kids db') db.
Proof using CL.
  intros [Hrank Hkids] Hi Hc Hpre. destruct op as [hash blob node|hash p|child parent|fuel root|limit|fuel root|hash|hash]; cbn [db_do op_pre] in *.
  - destruct Hpre as (Hins & Hfull & Hag & Hlen). eapply wp_wand; [by eapply db_insert_ok|]. cbv beta.
    intros _ db' (E' & l' & Hi' & _ & _ & _ & _ & Hin). exists E', l'. split; [done|]. intros h e' c He' Hz Hk.
    destruct (Hin h e' He') as [(-> & _ & [<- _]%same_content_childs)|(e1 & He1 & [<- _]%same_content_childs)]; [by apply Hfull|by apply (Hc h)].
  - destruct Hpre as [Hh Hp]. eapply wp_wand; [by eapply insertPreimage_ok|]. cbv beta. intros _ db' [? ?]. by exists E, l.
  - eapply wp_wand; [by eapply reference_ok|]. cbv beta. intros _ db' (E' & Hi' & _ & _ & _ & _ & Hch). exists E', l. split; [done|].
    intros h e' c He' Hz Hk. destruct (Hch h e' He') as (e & He & _ & Hsub). by apply Hsub, (Hc h).
  - destruct Hpre as (Hz & Hm & Hr). eapply wp_wand; [by eapply Dereference_ok|]. cbv beta. intros _ db' ((E' & l' & ?) & ? & _). by exists E', l'.
  - eapply wp_seq; [by eapply Cap_ok|]. cbv beta. intros r db' ((E' & l' & ?) & ? & _). wp_steps. by exists E', l'.
  - destruct Hpre as (Hh & Hz & Hs & Hr). eapply wp_seq; [by eapply db_Commit_ok|]. cbv beta. intros r db' ((E' & l' & ?) & ? & _). wp_steps. by exists E', l'.
  - destruct Hpre as [Hh Hz]. eapply wp_seq; [by eapply db_Node_ok|]. cbv beta. intros r db' [_ [(E' & l' & ?) ? _ _ _]]. wp_steps. by exists E', l'.
  - destruct Hpre as (Hh & Hd & Hk). eapply wp_seq; [by eapply db_node_ok|]. cbv beta. intros r db' [(E' & l' & ?) ? _ _ _]. wp_steps. by exists E', l'.
Qed.

(** C21. Every operation of the node database keeps its invariant and does not
    panic: the flush list links the nodes in memory from the oldest to the
    newest, the counter of each node that is not on disk is the number of
    references to it, every reference leads to a node in memory or on disk,
    children are older than their parents, and the disk has the children of
    every node it has.  The caller has to respect [op_pre]: children are stored before their parents, the parent of a
    reference is the meta root or in memory, a dereferenced root has a reference left, a committed root is stored, a node that is
    decoded has an encoding, and the counters of references stay below 2{^32} and 2{^16}. *)
Theorem db_invariant db E l op : well_founded_kids → db_inv kids db E l → complete kids db → op_pre db E l op →
  wp (db_do op) (λ _ db', ∃ E' l', db_inv kids db' E' l' ∧ complete kids db') db.
Proof using CL. apply db_do_ok. Qed.

(** C19. Garbage collection loses nothing that is still needed: after
    [Dereference] of a root, the references of the other roots are unchanged,
    every node that a referenced root reaches can be read as before, and no
    node is left in memory that nothing references, unless it was so before. *)
Theorem Dereference_safe fuel root db E l :
  well_founded_kids → db_inv kids db E l → complete kids db → root ≠ zeroHash → 0 < meta_refs db root → rank root < fuel →
  wp (Dereference fuel root) (λ _ db',
    (∀ r, meta_refs db' r = meta_refs db r - if decide (r = root) then 1 else 0) ∧
    (∀ r h, is_hash r → 0 < meta_refs db' r → reach kids r h → is_Some (stored db' h) ∧ stored db' h = stored db h) ∧
    (∀ h, garbage db' h → garbage db h)) db.
Proof.
  intros [Hrank Hkids] Hi Hc Hz Hm Hr. eapply wp_wand; [by eapply Dereference_ok|]. cbv beta.
  intros _ db' (_ & _ & H1 & H2 & H3 & _). by split_and!.
Qed.

(** C20. [Cap] flushes without losing a node: whether or not the disk accepts the
    batches, every node and preimage reads as before, and the disk has the
    children of every node it has; on success the memory is within the limit,
    or nothing is left to flush; only a refused write is reported as an
    error. *)
Theorem Cap_safe limit db E l : db_inv kids db E l → complete kids db →
  wp (Cap write_ok limit) (λ r db', same_reads db db' ∧
    (∀ h c, is_hash h → is_Some (diskdb db' !! h) → c ∈ kids h → is_Some (diskdb db' !! c)) ∧
    match r with
    | None => (∀ h, is_Some (dirties db' !! h) → h = zeroHash) ∨ (mem_size db' ≤ limit)%Z
    | Some _ => refused kids write_ok db' ∧ dirties db' = dirties db
    end) db.
Proof.
  intros Hi Hc. eapply wp_wand; [by eapply Cap_ok|]. cbv beta. intros r db' ((E' & l' & Hi') & _ & Hr & Hm). split_and!; [done|apply Hi'|done].
Qed.

(** [Commit] persists the whole trie: on success every node that the root
    reaches is on disk; in every case each node and preimage reads as before,
    and the disk has the children of every node it has; only a refused write
    is reported as an error. *)
Theorem Commit_persists fuel root db E l :
  well_founded_kids → db_inv kids db E l → complete kids db → is_hash root → root ≠ zeroHash → is_Some (stored db root) → rank root < fuel →
  wp (db_Commit write_ok fuel root) (λ r db', same_reads db db' ∧
    (∀ h c, is_hash h → is_Some (diskdb db' !! h) → c ∈ kids h → is_Some (diskdb db' !! c)) ∧
    match r with
    | None => ∀ h, reach kids root h → h ≠ zeroHash → is_Some (diskdb db' !! h) ∧ diskdb db' !! h = stored db h
    | Some _ => refused kids write_ok db'
    end) db.
Proof using CL.
  intros [Hrank Hkids] Hi Hc Hh Hz Hs Hr. eapply wp_wand; [by eapply (db_Commit_ok kids rank)|]. cbv beta.
  intros r db' ((E' & l' & Hi') & _ & Hrd & Hm). split_and!; [done|apply Hi'|]. destruct r; [done|]. intros h Hre Hhz.
  destruct Hm as [Hm _]. destruct (Hm h Hre) as [v Hv]. split; [by eexists|].
  destruct (reach_disk kids Hkids db' E' l' root h Hi' Hh) as [Hhl _]; [apply Hm; constructor|done|].
  rewrite <- (sr_stored _ _ Hrd h Hhl Hhz), Hv. symmetry. by eapply stored_disk.
Qed.

(** ** A trie through the database *)

Context {C : Crypto}.

(** [Trie.Commit] followed by [Database.Commit]. *)
Definition persist (fuel : nat) (root : node) : M (Database Cl) (bytes * option db_error) :=
  let! r := Trie_Commit nop root in
  let! err := db_Commit write_ok fuel r.1 in
  mret' (r.1, err).

(** C18. A trie is the same after a restart: commit it, write it to disk, and open
    the root hash in a new database on that disk; if the writes succeeded, the
    opened trie stands for the same map, and a failure is that of the disk: it refuses a
    batch of nodes and preimages of the database. *)
Theorem trie_survives_restart t db E l root m fuel :
  well_founded_kids → content kids t → db_inv kids db E l → complete kids db → agrees t db →
  root_ok (node_at db) (in_db db) root t → contents t m → t ≠ PNil → hash_of t ≠ emptyRoot → rank (hash_of t) < fuel →
  (∀ h r ev, CommitTrie root = Some (h, r, ev) → (Z.of_nat (ev_refs ev + length E) < 2 ^ 32)%Z) →
  wp (persist fuel root) (λ r db', match r.2 with
    | None => let db2 := NewDatabase (Cl := Cl) (diskdb db') None in
        ∃ root2, New (node_at db2) r.1 = inl root2 ∧ root_map (node_at db2) (in_db db2) root2 m
    | Some _ => refused kids write_ok db'
    end) db.
Proof using CL.
  intros [Hrank Hkids] Hct Hi Hc Hag Hr Hm Hn He Hfuel Hlen. unfold persist.
  eapply wp_seq; [by eapply (Trie_Commit_ok kids rank)|]. cbv beta. intros [h root1] db1 (E1 & l1 & Hh & Hi1 & Hc1 & _ & Hk1). cbn [fst snd] in *.
  assert (canon t) as Hcan by (by destruct (root_ok_canon _ _ _ _ Hr)).
  assert (h = hash_of t) as -> by (by destruct Hcan). destruct (Hk1 Hn) as [Hdb1 Hkept1].
  eapply wp_seq; [apply (db_Commit_ok kids rank) with (E := E1) (l := l1); try done|].
  - apply Hdb1.
  - rewrite (id_stored _ _ Hdb1). by eexists.
  - cbv beta. intros [err|] db2 ((E2 & l2 & Hi2) & _ & Hrd & Hpost); wp_steps; cbn [fst snd]; [done|]. destruct Hpost as [Hd _].
    assert (db_inv kids (NewDatabase (Cl := Cl) (diskdb db2) None) [] []) as Hi3 by (apply NewDatabase_inv; [apply Hi2|done]).
    destruct (restart_ok kids t db2 E2 l2 None) as [H1 H2]; [done..|by eapply in_db_same|by eapply kept_mono; [|exact Hkept1]; intros u; apply in_db_same|done|].
    destruct (open_ok kids t _ _ _ Hi3 Hcan H1 H2 He) as (root2 & Ho & Hr2). exists root2. split; [done|]. by exists t.
Qed.
End Laws.
