(* ===== verification/TrieDBExamples.v ===== *)
(** * The node database at work

    A small database on which the theorems of TrieDBLaws apply: a blob shared
    by two tries of one node each, both referenced. *)

From Stdlib Require Import ZArith Lia.
From stdpp Require Import gmap.
From S2P Require Import Prelude Errors Rlp Fullnode Messages Instances Trie TriePure TrieLaws TrieHash TrieRoot TrieNode TrieProof TrieOps TrieExamples TrieCommit TrieDB TrieDBGC TrieDBRef TrieDBFlush TrieDBCap TrieDBCommit TrieDBTrie TrieDBLaws.
Open Scope didux_scope.
Open Scope nat_scope.

(** A cache that forgets everything. *)
#[export] Instance no_cache : Cache () := {| cache_get _ _ := None; cache_set _ _ _ := () |}.
#[export] Instance no_cache_laws : CacheLaws ().
Proof. by intros c k v k' w Hw. Qed.

(** Maps are walked backwards. *)
#[export, refine] Instance backwards : MapOrder := {| map_range A m := reverse (map_to_list m) |}.
Proof. intros A m. apply reverse_Permutation. Qed.

Definition h_shared : bytes := replicate 32 x01.
Definition h_left : bytes := replicate 32 x02.
Definition h_right : bytes := replicate 32 x03.
Definition left_node : cdata := DNode (RShort [x20; x61] (RHash h_shared)).
Definition right_node : cdata := DNode (RShort [x20; x62] (RHash h_shared)).
Definition ex_kids (h : bytes) : list bytes := if decide (h = h_left ∨ h = h_right) then [h_shared] else [].
Definition ex_rank (h : bytes) : nat := if decide (h = h_left ∨ h = h_right) then 1 else 0.
Definition all_ok (_ : gmap bytes bytes) (_ : batch) : bool := true.

Lemma ex_well_founded : well_founded_kids ex_kids ex_rank.
Proof.
  split; intros h c; unfold ex_kids, ex_rank; (destruct (decide (h = h_left ∨ h = h_right)); [|by intros ?%not_elem_of_nil]);
    intros ->%list_elem_of_singleton; [rewrite decide_False; [lia|]|]; vm_compute; intuition congruence.
Qed.

Definition exec (m : M (Database ()) ()) (db : Database ()) : Database () := match m db with Some (_, db) => db | None => db end.
Definition ex_0 : Database () := NewDatabase ∅ None.
Definition ex_1 : Database () := exec (db_insert h_shared [x01; x02] (DRaw [x01; x02])) ex_0.
Definition ex_2 : Database () := exec (db_insert h_left [x03] left_node) ex_1.
Definition ex_3 : Database () := exec (db_insert h_right [x04] right_node) ex_2.
Definition ex_4 : Database () := exec (reference h_left zeroHash) ex_3.
Definition ex_5 : Database () := exec (reference h_right zeroHash) ex_4.

Lemma exec_wp m (Q : () → Database () → Prop) db : wp m Q db → Q () (exec m db).
Proof. unfold wp, exec. by destruct (m db) as [[[] db']|]. Qed.

(** The state after [k] steps, with few references. *)
Definition ex_ok (db : Database ()) (k : nat) : Prop :=
  ∃ E l, db_inv ex_kids db E l ∧ complete ex_kids db ∧ length E ≤ k.

Lemma ex_0_ok : ex_ok ex_0 0.
Proof.
  exists [], []. split; [apply NewDatabase_inv; [intros h c _ [? Hx]; by rewrite lookup_empty in Hx|done]|]. split; [|done].
  intros h e c He Hz. unfold ex_0 in He. cbn in He. apply lookup_singleton_Some in He as [<- _]. done.
Qed.
Lemma ex_insert db k hash blob node cs : ex_ok db k → k < 100 →
  let e := MkCached node (u16 (blen blob)) 0 None (newest db) zeroHash in
  childs e = cs → ex_kids hash = cs → length cs ≤ 1 → is_hash hash → hash ≠ zeroHash → hash ∉ cs →
  (∀ c, c ∈ cs → c ≠ zeroHash ∧ is_Some (stored db c)) → diskdb db !! hash = None → dirties db !! hash = None → ex_ok (exec (db_insert hash blob node) db) (S k).
Proof.
  intros (E & l & Hi & Hc & HE) Hk e Hch Hkids Hlen Hh Hz Hself Hav Hd Hm.
  assert (wp (db_insert hash blob node) (λ _ db', ∃ E' l', db_inv ex_kids db' E' l' ∧ length E' ≤ length (childs e) + length E ∧
    stored db' hash = Some (rlp e) ∧ (∀ h, h ≠ hash → stored db' h = stored db h) ∧ same_rest db db' ∧ inserted db hash e db') db) as Hwp.
  { apply (db_insert_ok ex_kids db E l); fold e; [done| |rewrite Hch; lia|by rewrite Hm]. rewrite Hch. split; [done|done|by rewrite Hkids|done|done|by rewrite Hd]. }
  destruct (exec_wp _ _ _ Hwp) as (E' & l' & Hi' & HE' & _ & _ & _ & Hins). exists E', l'. split; [done|]. rewrite Hch in HE'. split; [|lia].
  intros h e' c He' Hhz Hx. destruct (Hins h e' He') as [(-> & _ & [<- _]%same_content_childs)|(e1 & He1 & [<- _]%same_content_childs)].
  - fold e. by rewrite Hch, <- Hkids.
  - by apply (Hc h).
Qed.
Lemma ex_reference db k root : ex_ok db k → k < 100 → root ≠ zeroHash →
  meta_refs db root ≤ 1 → ex_ok (exec (reference root zeroHash) db) (S k).
Proof.
  intros (E & l & Hi & Hc & HE) Hk Hz Hm.
  assert (wp (reference root zeroHash) (λ _ db', reference_post ex_kids db E l root zeroHash db') db) as Hwp.
  { apply reference_ok; [done|]. split; [done|done|by left|lia|]. intros e He. unfold meta_refs in Hm. rewrite He in Hm. lia. }
  destruct (exec_wp _ _ _ Hwp) as (E' & Hi' & HE' & _ & _ & _ & Hch). exists E', l. split; [done|]. split; [|lia].
  intros h e' c He' Hhz Hx. destruct (Hch h e' He') as (e & He & _ & Hsub). by apply Hsub, (Hc h).
Qed.

Lemma ex_1_ok : ex_ok ex_1 1.
Proof.
  apply (ex_insert ex_0 0 h_shared [x01; x02] (DRaw [x01; x02]) []); [apply ex_0_ok|lia|..]; try (vm_compute; (reflexivity || congruence || lia)).
  - by intros ?%not_elem_of_nil.
  - by intros c ?%not_elem_of_nil.
Qed.
Lemma shared_stored (db : Database ()) : stored db h_shared ≠ None → ∀ c, c ∈ [h_shared] → c ≠ zeroHash ∧ is_Some (stored db c).
Proof. intros Hs c ->%list_elem_of_singleton. split; [vm_compute; congruence|]. destruct (stored db h_shared); [by eexists|done]. Qed.
Lemma ex_2_ok : ex_ok ex_2 2.
Proof.
  apply (ex_insert ex_1 1 h_left [x03] left_node [h_shared]); [apply ex_1_ok|lia|..]; try (vm_compute; (reflexivity || congruence || lia)).
  - intros ?%list_elem_of_singleton. vm_compute in H. congruence.
  - apply shared_stored. vm_compute. congruence.
Qed.
Lemma ex_3_ok : ex_ok ex_3 3.
Proof.
  apply (ex_insert ex_2 2 h_right [x04] right_node [h_shared]); [apply ex_2_ok|lia|..]; try (vm_compute; (reflexivity || congruence || lia)).
  - intros ?%list_elem_of_singleton. vm_compute in H. congruence.
  - apply shared_stored. vm_compute. congruence.
Qed.
Lemma ex_4_ok : ex_ok ex_4 4.
Proof. apply (ex_reference ex_3 3 h_left); [apply ex_3_ok|lia|..]; vm_compute; (reflexivity || congruence || lia). Qed.
Lemma ex_5_ok : ex_ok ex_5 5.
Proof. apply (ex_reference ex_4 4 h_right); [apply ex_4_ok|lia|..]; vm_compute; (reflexivity || congruence || lia). Qed.

(** ** Witnesses *)

Lemma db_invariant_witness :
  wp (db_do all_ok (ODereference 2 h_left)) (λ _ db', ∃ E' l', db_inv ex_kids db' E' l' ∧ complete ex_kids db') ex_5.
Proof.
  destruct ex_5_ok as (E & l & Hi & Hc & _).
  apply (db_invariant ex_kids ex_rank all_ok ex_5 E l); [apply ex_well_founded|done|done|].
  split; [vm_compute; congruence|]. split; vm_compute; lia.
Defined.

Lemma Dereference_safe_witness : wp (Dereference 2 h_left) (λ _ db',
    (∀ r, meta_refs db' r = meta_refs ex_5 r - if decide (r = h_left) then 1 else 0) ∧
    (∀ r h, is_hash r → 0 < meta_refs db' r → reach ex_kids r h → is_Some (stored db' h) ∧ stored db' h = stored ex_5 h) ∧
    (∀ h, garbage db' h → garbage ex_5 h)) ex_5.
Proof.
  destruct ex_5_ok as (E & l & Hi & Hc & _).
  apply (Dereference_safe ex_kids ex_rank 2 h_left ex_5 E l); [apply ex_well_founded|done|done|vm_compute; congruence|vm_compute; lia|vm_compute; lia].
Defined.

Lemma Cap_safe_witness : wp (Cap all_ok 200) (λ r db', same_reads ex_5 db' ∧
    (∀ h c, is_hash h → is_Some (diskdb db' !! h) → c ∈ ex_kids h → is_Some (diskdb db' !! c)) ∧
    match r with
    | None => (∀ h, is_Some (dirties db' !! h) → h = zeroHash) ∨ (mem_size db' ≤ 200)%Z
    | Some _ => refused ex_kids all_ok db' ∧ dirties db' = dirties ex_5
    end) ex_5.
Proof.
  destruct ex_5_ok as (E & l & Hi & Hc & _). by apply (Cap_safe ex_kids all_ok 200 ex_5 E l).
Defined.

Lemma Commit_persists_witness : wp (db_Commit all_ok 2 h_left) (λ r db', same_reads ex_5 db' ∧
    (∀ h c, is_hash h → is_Some (diskdb db' !! h) → c ∈ ex_kids h → is_Some (diskdb db' !! c)) ∧
    match r with
    | None => ∀ h, reach ex_kids h_left h → h ≠ zeroHash → is_Some (diskdb db' !! h) ∧ diskdb db' !! h = stored ex_5 h
    | Some _ => refused ex_kids all_ok db'
    end) ex_5.
Proof.
  destruct ex_5_ok as (E & l & Hi & Hc & _).
  apply (Commit_persists ex_kids ex_rank all_ok 2 h_left ex_5 E l); [apply ex_well_founded|done|done|done|vm_compute; congruence|vm_compute; by eexists|vm_compute; lia].
Defined.

(** The trie with one leaf, committed to an empty database. *)
Definition no_kids (h : bytes) : list bytes := [].
Definition leaf_t : ptrie := leaf_of key_a value_a.

Lemma trie_survives_restart_witness : wp (persist all_ok 1 leaf_a) (λ r db', match r.2 with
    | None => let db2 := NewDatabase (Cl := ()) (diskdb db') None in
        ∃ root2, New (node_at db2) r.1 = inl root2 ∧ root_map (node_at db2) (in_db db2) root2 (leaf_map key_a value_a)
    | Some _ => refused no_kids all_ok db'
    end) ex_0.
Proof.
  apply (trie_survives_restart no_kids (λ _, 0) all_ok leaf_t ex_0 [] [] leaf_a (leaf_map key_a value_a) 1).
  - split; intros h c ?%not_elem_of_nil; done.
  - split.
    + intros s Hs Hc. by rewrite (leaf_desc _ _ s Hs Hc).
    + intros s u Hs Hu Hc Hcu _. by rewrite (leaf_desc _ _ s Hs Hc), (leaf_desc _ _ u Hu Hcu).
    + intros s Hs Hc. rewrite (leaf_desc _ _ s Hs Hc). split; vm_compute; congruence.
  - apply NewDatabase_inv; [intros h c _ [? Hx]; by rewrite lookup_empty in Hx|done].
  - intros h e c _ _ ?%not_elem_of_nil. done.
  - intros s Hs Hc [v Hv]. rewrite (leaf_desc _ _ s Hs Hc) in Hv.
    assert (stored ex_0 (hash_of leaf_t) = None) as Hn by (vm_compute; reflexivity). unfold leaf_t in Hn. congruence.
  - split; [by apply leaf_canon|]. split; [by repeat constructor|done].
  - by apply leaf_contents.
  - done.
  - vm_compute. congruence.
  - lia.
  - intros h r ev Hcm.
    assert (match CommitTrie leaf_a with Some (_, _, ev) => ev_refs ev | None => 0 end = 0) as Hev by (vm_compute; reflexivity).
    rewrite Hcm in Hev. rewrite Hev. done.
Defined.
